(* ===== verification/_CoqProject ===== *)
-Q . S2P
Prelude.v
Deps.v
GoStd.v
Slices.v
Lp176.v
Fees.v
CustomTypes.v
Header.v
Consensus.v
TxHeap.v
Mempool.v
Packer.v
AtomicTypes.v
AtomicCodec.v
AtomicFormat.v
ExtState.v
AtomicTx.v
AtomicTxSpec.v
Store.v
AtomicRepo.v
AtomicTrie.v
AtomicBackend.v
StoreConcrete.v
AtomicStateExamples.v
AtomicVerify.v
AtomicVM.v
AtomicBlock.v
AtomicVerifySpec.v
AtomicVMSpec.v
AtomicBlockSpec.v
AtomicVMExamples.v
Predicate.v
Transition.v
TransitionSpec.v
TransitionExamples.v
Upgrades.v
UpgradesSpec.v
Processor.v
ProcessorSpec.v
Ordering.v
OrderingSpec.v
Miner.v
MinerSpec.v
MinerBlockSpec.v
WrappedBlock.v
WrappedBlockSpec.v
MinerExamples.v
TxList.v
TxListSpec.v
PricedList.v
PricedListSpec.v
Validation.v
LegacyPool.v
LegacyPoolSpec.v
LegacyPoolAddSpec.v
LegacyPoolReorgSpec.v
LegacyPoolLimitSpec.v
LegacyPoolStepSpec.v
LegacyPoolTheorems.v
LegacyPoolExamples.v
TxPool.v
TxPoolSpec.v
TxPoolExamples.v
