(* ===== verification/Prelude.v ===== *)
(** * Coreth: a verification development of the C-Chain virtual machine

    HEADER-PLACEHOLDER *)

From Stdlib Require Export ZArith Lia Strings.Byte.
From stdpp Require Export base tactics gmap list strings numbers option.

#[export] Set Default Goal Selector "!".
#[global] Open Scope Z_scope.

(** ** Errors

    A Go [error] is either a sentinel made by [errors.New] (identified here by
    the package-qualified name of the variable that holds it) or an error that
    wraps another one with [fmt.Errorf("...%w...")]; the formatted text is not
    kept, only the wrapping function's tag. *)

Inductive error :=
| errors_New (name : string)
| errorf_w (ctx : string) (e : error).

#[global] Instance error_eq_dec : EqDecision error.
Proof. solve_decision. Defined.

(** [errors.Is]: the target is in the chain of wrapped errors. *)
Fixpoint errors_Is (e target : error) : bool :=
  bool_decide (e = target) ||
  match e with
  | errors_New _ => false
  | errorf_w _ e' => errors_Is e' target
  end.

(** ** Results

    The value of a Go call that can fail: [(v, nil)], [(_, err)], or a run-time
    panic (a nil dereference, an index out of range). *)

Inductive result (A : Type) :=
| Ok (a : A)
| Err (e : error)
| Panic.
Arguments Ok {A} a.
Arguments Err {A} e.
Arguments Panic {A}.

#[global] Instance result_eq_dec {A} `{EqDecision A} : EqDecision (result A).
Proof. solve_decision. Defined.

#[global] Instance result_ret : MRet result := fun A a => Ok a.
#[global] Instance result_bind : MBind result := fun A B f m =>
  match m with
  | Ok a => f a
  | Err e => Err e
  | Panic => Panic
  end.

(** Not an error of the code: a loop that would go on beyond its fuel. *)
Definition out_of_fuel : error := errors_New "out of fuel".

(** [fmt.Errorf("ctx: %w", err)] on the error path, the value unchanged on the
    other. *)
Definition wrap_err {A} (ctx : string) (m : result A) : result A :=
  match m with
  | Err e => Err (errorf_w ctx e)
  | m => m
  end.

(** [if cond { return err }]. *)
Definition fail_if (cond : bool) (e : error) : result unit :=
  if cond then Err e else Ok tt.

Definition is_Ok {A} (m : result A) : bool :=
  match m with Ok _ => true | _ => false end.

Definition is_Err {A} (m : result A) : bool :=
  match m with Err _ => true | _ => false end.

(** ** Fixed-width integers *)

Declare Scope word_scope.
Delimit Scope word_scope with word.

Abbreviation u64 z := (z mod 2 ^ 64).
Abbreviation u32 z := (z mod 2 ^ 32).
Notation "x +u y" := (u64 (x + y)) (at level 50, left associativity) : word_scope.
Notation "x -u y" := (u64 (x - y)) (at level 50, left associativity) : word_scope.
Notation "x *u y" := (u64 (x * y)) (at level 40, left associativity) : word_scope.

Definition MaxUint64 : Z := 2 ^ 64 - 1.

(** A value of Go type [uint64]; also [big.Int.IsUint64]. *)
Definition is_u64 (z : Z) : Prop := 0 <= z < 2 ^ 64.
Definition is_u32 (z : Z) : Prop := 0 <= z < 2 ^ 32.

#[global] Instance is_u64_dec z : Decision (is_u64 z).
Proof. unfold is_u64. apply _. Defined.
#[global] Instance is_u32_dec z : Decision (is_u32 z).
Proof. unfold is_u32. apply _. Defined.

Definition IsUint64 (z : Z) : bool := (0 <=? z) && (z <? 2 ^ 64).

(** ** Bytes and big-endian integers *)

Abbreviation byte := Byte.byte.

Definition Z_of_byte (b : byte) : Z := Z.of_N (Byte.to_N b).
Definition byte_of_Z (z : Z) : byte :=
  default Byte.x00 (Byte.of_N (Z.to_N (z mod 256))).

#[global] Instance byte_eq_dec : EqDecision byte := Byte.byte_eq_dec.
#[global] Instance byte_countable : Countable byte :=
  inj_countable Byte.to_N Byte.of_N Byte.of_to_N.

(** [binary.BigEndian.PutUint16/32/64], with the width in bytes. *)
Fixpoint be_encode (n : nat) (v : Z) : list byte :=
  match n with
  | O => []
  | S n' => byte_of_Z (v / 256 ^ Z.of_nat n') :: be_encode n' v
  end.

(** [binary.BigEndian.Uint16/32/64] on exactly the bytes of the integer. *)
Definition be_decode (l : list byte) : Z :=
  fold_left (fun acc b => acc * 256 + Z_of_byte b) l 0.

Lemma Z_of_byte_bound b : 0 <= Z_of_byte b < 256.
Proof. unfold Z_of_byte. pose proof (Byte.to_N_bounded b). lia. Qed.

Lemma Z_of_byte_of_Z z : Z_of_byte (byte_of_Z z) = z mod 256.
Proof.
  unfold Z_of_byte, byte_of_Z.
  pose proof (Z.mod_pos_bound z 256 ltac:(lia)) as Hb.
  destruct (Byte.of_N (Z.to_N (z mod 256))) as [b|] eqn:E; simpl.
  - apply Byte.to_of_N in E. rewrite E. lia.
  - apply Byte.of_N_None_iff in E. lia.
Qed.

Lemma byte_of_Z_of_byte b : byte_of_Z (Z_of_byte b) = b.
Proof.
  unfold byte_of_Z. rewrite Z.mod_small by apply Z_of_byte_bound.
  unfold Z_of_byte. rewrite N2Z.id, Byte.of_to_N. done.
Qed.

Lemma byte_of_Z_mod z : byte_of_Z (z mod 256) = byte_of_Z z.
Proof. unfold byte_of_Z. rewrite Z.mod_mod by lia. done. Qed.

Lemma length_be_encode n v : length (be_encode n v) = n.
Proof. induction n; simpl; lia. Qed.

Lemma fold_left_be_decode l acc :
  fold_left (fun acc b => acc * 256 + Z_of_byte b) l acc =
  acc * 256 ^ Z.of_nat (length l) + be_decode l.
Proof.
  unfold be_decode. revert acc. induction l as [|b l IH]; intros acc.
  - simpl. lia.
  - cbn [fold_left]. rewrite IH, (IH (0 * 256 + _)).
    cbn [length]. rewrite Nat2Z.inj_succ, Z.pow_succ_r by lia. ring.
Qed.

Lemma be_decode_cons b l :
  be_decode (b :: l) = Z_of_byte b * 256 ^ Z.of_nat (length l) + be_decode l.
Proof. unfold be_decode at 1. cbn [fold_left]. rewrite fold_left_be_decode. lia. Qed.

Lemma be_decode_bound l : 0 <= be_decode l < 256 ^ Z.of_nat (length l).
Proof.
  induction l as [|b l IH].
  - unfold be_decode. simpl. lia.
  - rewrite be_decode_cons. simpl length. rewrite Nat2Z.inj_succ, Z.pow_succ_r by lia.
    pose proof (Z_of_byte_bound b). nia.
Qed.

Lemma be_decode_encode_mod n v : be_decode (be_encode n v) = v mod 256 ^ Z.of_nat n.
Proof.
  induction n as [|n IH].
  - change (256 ^ Z.of_nat 0) with 1. rewrite Z.mod_1_r. done.
  - cbn [be_encode]. rewrite be_decode_cons, length_be_encode, IH, Z_of_byte_of_Z.
    rewrite Nat2Z.inj_succ, Z.pow_succ_r by lia.
    rewrite (Z.mul_comm 256). rewrite Z.rem_mul_r by lia. lia.
Qed.

Lemma be_decode_encode n v :
  0 <= v < 256 ^ Z.of_nat n -> be_decode (be_encode n v) = v.
Proof. intros Hv. rewrite be_decode_encode_mod. by apply Z.mod_small. Qed.

Lemma be_encode_mod n v : be_encode n (v mod 256 ^ Z.of_nat n) = be_encode n v.
Proof.
  enough (forall m, (m <= n)%nat ->
            be_encode m (v mod 256 ^ Z.of_nat n) = be_encode m v) as H by (by apply H).
  induction m as [|m IH]; intros Hm; [done|]. cbn [be_encode].
  rewrite IH by lia. f_equal.
  rewrite <- (byte_of_Z_mod (v / _)), <- (byte_of_Z_mod (v mod _ / _)). f_equal.
  replace (Z.of_nat n) with (Z.of_nat m + (1 + Z.of_nat (n - m - 1))) by lia.
  rewrite !Z.pow_add_r by lia. rewrite Z.pow_1_r.
  set (a := 256 ^ Z.of_nat m). set (c := 256 ^ Z.of_nat (n - m - 1)).
  assert (0 < a) by (apply Z.pow_pos_nonneg; lia).
  assert (0 < c) by (apply Z.pow_pos_nonneg; lia).
  rewrite Z.rem_mul_r by lia.
  rewrite (Z.add_comm (v mod a)), Z.mul_comm, Z.div_add_l by lia.
  rewrite (Z.div_small (v mod a)) by (apply Z.mod_pos_bound; lia).
  rewrite Z.add_0_r. rewrite Z.rem_mul_r by lia.
  rewrite Z.mul_comm, Z_mod_plus_full, Z.mod_mod by lia. done.
Qed.

Lemma be_encode_decode l : be_encode (length l) (be_decode l) = l.
Proof.
  induction l as [|b l IH]; [done|].
  cbn [length be_encode]. rewrite be_decode_cons.
  pose proof (be_decode_bound l) as Hb.
  f_equal.
  - rewrite Z.div_add_l by lia. rewrite (Z.div_small (be_decode l)) by lia.
    rewrite Z.add_0_r. apply byte_of_Z_of_byte.
  - rewrite <- be_encode_mod. rewrite Z.add_comm, Z_mod_plus_full.
    rewrite Z.mod_small by lia. done.
Qed.

Lemma be_encode_decode' n l : length l = n -> be_encode n (be_decode l) = l.
Proof. intros <-. apply be_encode_decode. Qed.

(** Hashes and identifiers ([common.Hash], [ids.ID]: 32 bytes) and addresses
    ([common.Address], [ids.ShortID]: 20 bytes) are byte strings. *)
Definition Hash : Type := list byte.
Definition ID : Type := list byte.
Definition Address : Type := list byte.
Definition Hash_zero : Hash := replicate 32 Byte.x00.
Definition ID_Empty : ID := replicate 32 Byte.x00.

#[global] Instance Hash_eq_dec : EqDecision Hash := _.
#[global] Instance Hash_countable : Countable Hash := _.
#[global] Instance ID_eq_dec : EqDecision ID := _.
#[global] Instance ID_countable : Countable ID := _.
#[global] Instance Address_eq_dec : EqDecision Address := _.
#[global] Instance Address_countable : Countable Address := _.

#[global] Arguments be_encode : simpl never.
#[global] Arguments be_decode : simpl never.

(** ** Shared automation *)

Create HintDb coreth.
Create Rewrite HintDb coreth_rw.

Lemma bind_Ok {A B} (m : result A) (f : A -> result B) b :
  (m ≫= f) = Ok b -> exists a, m = Ok a /\ f a = Ok b.
Proof. destruct m; intros H; try discriminate H. by exists a. Qed.

Lemma bind_Ok_iff {A B} (m : result A) (f : A -> result B) b :
  (m ≫= f) = Ok b <-> exists a, m = Ok a /\ f a = Ok b.
Proof. split; [apply bind_Ok|]. intros (a & -> & Hf). exact Hf. Qed.

Lemma bind_unit_iff {B} (m : result unit) (f : unit -> result B) r :
  (m ≫= f) = Ok r <-> m = Ok tt /\ f tt = Ok r.
Proof. rewrite bind_Ok_iff. split; [by intros ([] & ? & ?)|intros []; by exists tt]. Qed.

Lemma wrap_err_Ok {A} ctx (m : result A) a : wrap_err ctx m = Ok a -> m = Ok a.
Proof. by destruct m. Qed.

Lemma wrap_err_Ok_iff {A} ctx (m : result A) a : wrap_err ctx m = Ok a <-> m = Ok a.
Proof. by destruct m. Qed.

Lemma fail_if_Ok cond e u : fail_if cond e = Ok u -> cond = false.
Proof. unfold fail_if. by destruct cond. Qed.

Lemma fail_if_Ok_iff cond e u : fail_if cond e = Ok u <-> cond = false.
Proof. unfold fail_if. destruct u, cond; naive_solver. Qed.

Lemma fail_if_false e : fail_if false e = Ok tt.
Proof. reflexivity. Qed.

Lemma is_Ok_spec {A} (m : result A) : is_Ok m = true <-> exists a, m = Ok a.
Proof. destruct m as [a| |]; (split; [|intros [? H]]; try done); intros _; by exists a. Qed.

Lemma is_Err_spec {A} (m : result A) : is_Err m = true <-> exists e, m = Err e.
Proof. destruct m as [|e|]; (split; [|intros [? H]]; try done); intros _; by exists e. Qed.

Lemma and_iff_compat_l' (A B C : Prop) : (A -> (B <-> C)) -> (A /\ B <-> A /\ C).
Proof. tauto. Qed.

Lemma errors_Is_refl e : errors_Is e e = true.
Proof. destruct e; simpl; rewrite bool_decide_eq_true_2 by done; done. Qed.

Lemma errors_Is_wrap ctx e t : errors_Is e t = true -> errors_Is (errorf_w ctx e) t = true.
Proof. simpl. intros ->. apply orb_true_r. Qed.

Lemma IsUint64_spec z : IsUint64 z = true <-> is_u64 z.
Proof. unfold IsUint64, is_u64. lia. Qed.

Lemma IsUint64_true z : is_u64 z -> IsUint64 z = true.
Proof. apply IsUint64_spec. Qed.

Lemma u64_small z : is_u64 z -> u64 z = z.
Proof. apply Z.mod_small. Qed.

Lemma is_u64_mod z : is_u64 (u64 z).
Proof. apply Z.mod_pos_bound. lia. Qed.

#[export] Hint Resolve errors_Is_refl errors_Is_wrap is_u64_mod : coreth.
#[export] Hint Rewrite @fail_if_false length_be_encode : coreth_rw.

(** Inverts the successful runs of [result] computations in the context. *)
Ltac inv_result :=
  repeat match goal with
  | H : Ok _ = Ok _ |- _ => injection H as H; subst
  | H : Err _ = Err _ |- _ => injection H as H; subst
  | H : Ok _ = Err _ |- _ => discriminate H
  | H : Err _ = Ok _ |- _ => discriminate H
  | H : Ok _ = Panic |- _ => discriminate H
  | H : Panic = Ok _ |- _ => discriminate H
  | H : Err _ = Panic |- _ => discriminate H
  | H : Panic = Err _ |- _ => discriminate H
  | H : mbind _ _ = Ok _ |- _ => apply bind_Ok in H as (? & ? & H)
  | H : wrap_err _ _ = Ok _ |- _ => apply wrap_err_Ok in H
  | H : fail_if _ _ = Ok _ |- _ => apply fail_if_Ok in H
  end.

(** Reads a boolean test of the code as the proposition it decides, in both
    branches. *)
Ltac case_test :=
  match goal with
  | |- context [if (?a <? ?b)%Z then _ else _] => destruct (Z.ltb_spec a b)
  | |- context [if (?a <=? ?b)%Z then _ else _] => destruct (Z.leb_spec a b)
  | |- context [if (?a =? ?b)%Z then _ else _] => destruct (Z.eqb_spec a b)
  | |- context [if bool_decide ?P then _ else _] => destruct (decide P);
      [rewrite (bool_decide_eq_true_2 P) by done
      |rewrite (bool_decide_eq_false_2 P) by done]
  | |- context [if decide ?P then _ else _] => destruct (decide P)
  end.

(** Closes bounds on closed integer constants. *)
Ltac closed_u64 := solve [unfold is_u64, is_u32; split; vm_compute; congruence
                         |vm_compute; congruence].

(** A [uint64] goal from [uint64] hypotheses, by linear arithmetic. *)
Ltac u64_lia := unfold is_u64, MaxUint64 in *; lia.

Lemma is_u64_min a b : is_u64 a -> is_u64 b -> is_u64 (Z.min a b).
Proof. u64_lia. Qed.

Lemma is_u64_sub a b : is_u64 a -> 0 <= b <= a -> is_u64 (a - b).
Proof. u64_lia. Qed.

Lemma is_u64_MaxUint64 : is_u64 MaxUint64.
Proof. u64_lia. Qed.

Lemma is_u64_be_decode l : length l = 8%nat -> is_u64 (be_decode l).
Proof. intros Hl. pose proof (be_decode_bound l). rewrite Hl in *. u64_lia. Qed.

#[export] Hint Resolve is_u64_min is_u64_MaxUint64 is_u64_be_decode : coreth.

(** ** State and failure

    Code that threads a state [S] and can fail: the state is kept on every path. *)

Definition StM (S A : Type) : Type := S -> result A * S.

#[global] Instance StM_ret {S} : MRet (StM S) := fun A a st => (Ok a, st).
#[global] Instance StM_bind {S} : MBind (StM S) := fun A B f m st =>
  match m st with
  | (Ok a, st') => f a st'
  | (Err e, st') => (Err e, st')
  | (Panic, st') => (Panic, st')
  end.

Definition lift {S A} (m : result A) : StM S A := fun st => (m, st).
Definition wrapM {S A} (ctx : string) (m : StM S A) : StM S A := fun st =>
  let '(r, st') := m st in (wrap_err ctx r, st').

(** Sequencing, by the outcome of the first computation. *)
Lemma lift_bind {S A B} (m : result A) (k : A -> StM S B) st :
  (lift m ≫= k) st =
  match m with Ok a => k a st | Err e => (Err e, st) | Panic => (Panic, st) end.
Proof. by destruct m. Qed.

Lemma bindM_Ok {S A B} (m : StM S A) (k : A -> StM S B) st b :
  fst ((m ≫= k) st) = Ok b <->
  exists a, fst (m st) = Ok a /\ fst (k a (snd (m st))) = Ok b.
Proof.
  unfold mbind, StM_bind. destruct (m st) as [[a|e|] st']; simpl.
  - split; [by exists a|by intros (? & [= <-] & ?)].
  - split; [done|by intros (? & ? & _)].
  - split; [done|by intros (? & ? & _)].
Qed.

Lemma Ok_exists {A} (x : A) (P : A -> Prop) : (exists a, Ok x = Ok a /\ P a) <-> P x.
Proof. split; [by intros (? & [= <-] & ?)|eauto]. Qed.

(** The same for a step that returns nothing, and for a pure step. *)
Lemma seqM_Ok {S B} (m : StM S unit) (k : StM S B) st b :
  fst ((_ ← m; k) st) = Ok b <-> fst (m st) = Ok tt /\ fst (k (snd (m st))) = Ok b.
Proof. rewrite bindM_Ok. split; [by intros ([] & ?)|by exists tt]. Qed.

Lemma lift_seqM_Ok {S B} (m : result unit) (k : StM S B) st b :
  fst ((_ ← lift m; k) st) = Ok b <-> m = Ok tt /\ fst (k st) = Ok b.
Proof. apply seqM_Ok. Qed.

Lemma bindM_step {S A B} (m : StM S A) (k : A -> StM S B) st a st1 :
  m st = (Ok a, st1) -> (m ≫= k) st = k a st1.
Proof. unfold mbind, StM_bind. by intros ->. Qed.

Lemma bindM_run {S A B} (m : StM S A) (k : A -> StM S B) st b st' :
  (m ≫= k) st = (Ok b, st') -> exists a st1, m st = (Ok a, st1) /\ k a st1 = (Ok b, st').
Proof.
  unfold mbind, StM_bind. destruct (m st) as [[a|e|] st1]; intros H; try discriminate H.
  by exists a, st1.
Qed.

Lemma wrapM_run {S A} ctx (m : StM S A) st a st' :
  wrapM ctx m st = (Ok a, st') -> m st = (Ok a, st').
Proof. unfold wrapM. destruct (m st) as [[]]; intros [= -> ->]; done. Qed.

Lemma wrapM_bind {S A B} ctx (m : StM S A) (k : A -> StM S B) st :
  (wrapM ctx m ≫= k) st =
  match m st with
  | (Ok a, st') => k a st'
  | (Err e, st') => (Err (errorf_w ctx e), st')
  | (Panic, st') => (Panic, st')
  end.
Proof. unfold wrapM, mbind, StM_bind. by destruct (m st) as [[]]. Qed.

(** [for _, x := range xs { if err := body(x); err != nil { return err } }], and a step
    that only reads the state. *)
Fixpoint for_each {S A} (body : A -> StM S unit) (xs : list A) : StM S unit :=
  match xs with
  | [] => mret tt
  | x :: xs' => _ ← body x; for_each body xs'
  end.

Definition readM {S A} (f : S -> result A) : StM S A := fun st => (f st, st).

(** A step on one component of the state. *)
Definition on_snd {S1 S2 A} (m : StM S2 A) : StM (S1 * S2) A := fun st =>
  let '(r, s2) := m (snd st) in (r, (fst st, s2)).

(** A step that reads the whole state, one that replaces it, one that cannot fail, and the
    method of an object whose failing runs leave the object as it was. *)
Definition getM {S} : StM S S := fun st => (Ok st, st).
Definition modifyM {S} (f : S -> S) : StM S unit := fun st => (Ok tt, f st).
Definition totalM {S A} (f : S -> A * S) : StM S A := fun st => let '(a, st') := f st in (Ok a, st').
Definition methodM {S A} (r : S -> result (A * S)) : StM S A := fun st =>
  match r st with
  | Ok (a, st') => (Ok a, st')
  | Err e => (Err e, st)
  | Panic => (Panic, st)
  end.

Lemma getM_bind {S B} (k : S -> StM S B) st : (getM ≫= k) st = k st st.
Proof. done. Qed.
Lemma modifyM_bind {S B} (f : S -> S) (k : unit -> StM S B) st : (modifyM f ≫= k) st = k tt (f st).
Proof. done. Qed.
Lemma totalM_bind {S A B} (f : S -> A * S) (k : A -> StM S B) st : (totalM f ≫= k) st = k (fst (f st)) (snd (f st)).
Proof. unfold totalM, mbind, StM_bind. by destruct (f st). Qed.

(** ** Postconditions

    [settles m st Q E]: the run does not panic, its result satisfies [Q], and [E] holds where
    it ends with an error. [returns m st Q]: it returns without an error. *)
Definition settles {S A} (m : StM S A) (st : S) (Q : A -> S -> Prop) (E : S -> Prop) : Prop :=
  match m st with
  | (Ok a, st') => Q a st'
  | (Err _, st') => E st'
  | (Panic, _) => False
  end.
Definition returns {S A} (m : StM S A) (st : S) (Q : A -> S -> Prop) : Prop := settles m st Q (fun _ => False).

Section Postconditions.
Context {S : Type}.
Implicit Types (st : S) (E : S -> Prop).

Lemma settles_bind {A B} (m : StM S A) (k : A -> StM S B) st Q E :
  settles m st (fun a st' => settles (k a) st' Q E) E -> settles (m ≫= k) st Q E.
Proof. unfold settles, mbind, StM_bind. by destruct (m st) as [[] ?]. Qed.

Lemma settles_mono {A} (m : StM S A) st (Q Q' : A -> S -> Prop) E E' :
  settles m st Q E -> (forall a st', Q a st' -> Q' a st') -> (forall st', E st' -> E' st') -> settles m st Q' E'.
Proof. unfold settles. destruct (m st) as [[] ?]; auto. Qed.

Lemma settles_run {A} (m : StM S A) st a st' Q E : m st = (Ok a, st') -> Q a st' -> settles m st Q E.
Proof. unfold settles. by intros ->. Qed.

Lemma settles_ret {A} (a : A) st (Q : A -> S -> Prop) E : Q a st -> settles (mret a) st Q E.
Proof. done. Qed.
Lemma settles_ret_bind {A B} (a : A) (k : A -> StM S B) st Q E : settles (k a) st Q E -> settles (mret a ≫= k) st Q E.
Proof. done. Qed.
Lemma settles_err {A} e st (Q : A -> S -> Prop) E : E st -> settles (lift (Err e)) st Q E.
Proof. done. Qed.
Lemma settles_get {A} (k : S -> StM S A) st Q E : settles (k st) st Q E -> settles (getM ≫= k) st Q E.
Proof. done. Qed.
Lemma settles_modify {A} f (k : unit -> StM S A) st Q E : settles (k tt) (f st) Q E -> settles (modifyM f ≫= k) st Q E.
Proof. done. Qed.
Lemma settles_modify_last f st (Q : unit -> S -> Prop) E : Q tt (f st) -> settles (modifyM f) st Q E.
Proof. done. Qed.
Lemma settles_lift {A B} (r : result A) (k : A -> StM S B) st Q E :
  match r with Ok a => settles (k a) st Q E | Err _ => E st | Panic => False end -> settles (lift r ≫= k) st Q E.
Proof. unfold settles, mbind, StM_bind, lift. by destruct r. Qed.

(** A run that returns, and what follows *)
Lemma settles_seq {A B} (m : StM S A) (k : A -> StM S B) st (R : A -> S -> Prop) Q E :
  returns m st R -> (forall a st', R a st' -> settles (k a) st' Q E) -> settles (m ≫= k) st Q E.
Proof. intros Hm Hk. apply settles_bind. eapply settles_mono; [exact Hm|done|done]. Qed.

Lemma returns_run {A} (m : StM S A) st Q : returns m st Q -> exists a st', m st = (Ok a, st') /\ Q a st'.
Proof. unfold returns, settles. destruct (m st) as [[] ?]; [eauto|done|done]. Qed.

Lemma returns_mono {A} (m : StM S A) st (Q Q' : A -> S -> Prop) :
  returns m st Q -> (forall a st', Q a st' -> Q' a st') -> returns m st Q'.
Proof. intros Hm HQ. by eapply settles_mono. Qed.

Lemma settles_wrap {A} ctx (m : StM S A) st Q E : settles m st Q E -> settles (wrapM ctx m) st Q E.
Proof. unfold settles, wrapM. by destruct (m st) as [[] ?]. Qed.

(** An invariant of a loop, with what is left to do *)
Lemma settles_for_each {A} (body : A -> StM S unit) (I : list A -> S -> Prop) E : forall xs st,
  I xs st -> (forall x rest st', I (x :: rest) st' -> settles (body x) st' (fun _ => I rest) E) ->
  settles (for_each body xs) st (fun _ => I []) E.
Proof.
  induction xs as [|x xs IH]; intros st HI Hb; [done|]. cbn [for_each]. apply settles_bind.
  eapply settles_mono; [by apply Hb| |done]. intros [] st' HI'. by apply IH.
Qed.

End Postconditions.

(** Steps through a sequence as far as the shape of the code decides *)
Ltac run_step :=
  match goal with
  | |- settles (getM ≫= _) _ _ _ => apply settles_get
  | |- settles (modifyM _ ≫= _) _ _ _ => apply settles_modify
  | |- settles (modifyM _) _ _ _ => apply settles_modify_last
  | |- settles (mret _ ≫= _) _ _ _ => apply settles_ret_bind
  | |- settles (mret _) _ _ _ => apply settles_ret
  | |- settles (lift (Err _)) _ _ _ => apply settles_err
  | |- settles (lift _ ≫= _) _ _ _ => apply settles_lift
  | |- returns _ _ _ => unfold returns
  end.
