(* ===== verification/Deps.v ===== *)
(** * Interfaces of the packages the repository only calls

    [github.com/luxfi/math] (checked integer arithmetic) and
    [github.com/luxfi/vm/components/gas] (the gas bucket) are not part of the
    repository.  Each is a class of operations, an argument of every definition
    that calls it, with a second, propositional class that states what the
    callers rely on.  The last section instantiates both, so that the theorems
    proved against the interface can be applied to a concrete run. *)

From S2P Require Import Prelude.

(** ** [luxfi/math] *)

Class SafeMath := {
  Add64 : Z -> Z -> result Z;
  Mul64 : Z -> Z -> result Z;
  Sub64 : Z -> Z -> result Z;
  SafeAdd : Z -> Z -> Z * bool;
  AbsDiff : Z -> Z -> Z
}.

(** The documented behaviour: the exact result, or an error when it does not fit
    in a [uint64]. *)
Class SafeMathSpec (SM : SafeMath) : Prop := {
  Add64_ok a b : is_u64 a -> is_u64 b -> a + b <= MaxUint64 -> Add64 a b = Ok (a + b);
  Add64_overflow a b :
    is_u64 a -> is_u64 b -> MaxUint64 < a + b -> is_Err (Add64 a b) = true;
  Mul64_ok a b : is_u64 a -> is_u64 b -> a * b <= MaxUint64 -> Mul64 a b = Ok (a * b);
  Mul64_overflow a b :
    is_u64 a -> is_u64 b -> MaxUint64 < a * b -> is_Err (Mul64 a b) = true;
  Sub64_ok a b : is_u64 a -> is_u64 b -> b <= a -> Sub64 a b = Ok (a - b);
  Sub64_underflow a b : is_u64 a -> is_u64 b -> a < b -> is_Err (Sub64 a b) = true;
  SafeAdd_ok a b :
    is_u64 a -> is_u64 b -> a + b <= MaxUint64 -> SafeAdd a b = (a + b, false);
  SafeAdd_overflow a b :
    is_u64 a -> is_u64 b -> MaxUint64 < a + b -> snd (SafeAdd a b) = true;
  AbsDiff_ok a b : is_u64 a -> is_u64 b -> AbsDiff a b = Z.abs (a - b)
}.

(** A product with the error replaced by [MaxUint64], as the fee code uses it. *)
Lemma Mul64_saturates {SM : SafeMath} {SMs : SafeMathSpec SM} a b :
  is_u64 a -> is_u64 b ->
  match Mul64 a b with Ok c => c | _ => MaxUint64 end = Z.min MaxUint64 (a * b).
Proof.
  intros Ha Hb. destruct (Z.le_gt_cases (a * b) MaxUint64).
  - rewrite Mul64_ok by done. lia.
  - destruct (is_Err_spec (Mul64 a b)) as [He _].
    destruct He as [e ->]; [by apply Mul64_overflow|]. lia.
Qed.

(** ** [luxfi/vm/components/gas] *)

(** [gas.State]: the available capacity and the accumulated excess. *)
Record GasState := mkGasState { Capacity : Z; Excess : Z }.

#[global] Instance GasState_eq_dec : EqDecision GasState.
Proof. solve_decision. Defined.

Definition is_gas_state (g : GasState) : Prop := is_u64 (Capacity g) /\ is_u64 (Excess g).

Class GasLib := {
  (** [State.AdvanceTime(maxCapacity, maxPerSecond, targetPerSecond, duration)] *)
  Gas_AdvanceTime : GasState -> Z -> Z -> Z -> Z -> GasState;
  (** [State.ConsumeGas(gas)] *)
  Gas_ConsumeGas : GasState -> Z -> result GasState;
  (** [CalculatePrice(minPrice, excess, excessConversionConstant)] *)
  CalculatePrice : Z -> Z -> Z -> Z;
  ErrInsufficientCapacity : error
}.

(** The documented behaviour: time adds capacity up to the maximum and removes
    excess down to zero; gas moves from the capacity to the (saturating) excess
    or is refused; the price is a [uint64] that is at least the minimum, equal to
    it at zero excess, and does not decrease with the excess. *)
Class GasLibSpec (GL : GasLib) : Prop := {
  Gas_AdvanceTime_ok g maxCapacity maxPerSecond targetPerSecond duration :
    is_gas_state g -> is_u64 maxCapacity -> is_u64 maxPerSecond ->
    is_u64 targetPerSecond -> is_u64 duration ->
    Gas_AdvanceTime g maxCapacity maxPerSecond targetPerSecond duration =
    {| Capacity := Z.min maxCapacity (Capacity g + maxPerSecond * duration);
       Excess := Z.max 0 (Excess g - targetPerSecond * duration) |};
  Gas_ConsumeGas_ok g n :
    is_gas_state g -> is_u64 n -> n <= Capacity g ->
    Gas_ConsumeGas g n =
    Ok {| Capacity := Capacity g - n; Excess := Z.min MaxUint64 (Excess g + n) |};
  Gas_ConsumeGas_insufficient g n :
    is_gas_state g -> is_u64 n -> Capacity g < n ->
    exists e, Gas_ConsumeGas g n = Err e /\ errors_Is e ErrInsufficientCapacity = true;
  CalculatePrice_u64 m x k :
    is_u64 m -> is_u64 x -> is_u64 k -> 0 < k -> is_u64 (CalculatePrice m x k);
  CalculatePrice_zero m k : is_u64 m -> is_u64 k -> 0 < k -> CalculatePrice m 0 k = m;
  CalculatePrice_mono m x y k :
    is_u64 m -> is_u64 x -> is_u64 y -> is_u64 k -> 0 < k -> x <= y ->
    CalculatePrice m x k <= CalculatePrice m y k
}.

(** ** Concrete instances *)

Module Concrete.

Definition ErrOverflow : error := errors_New "math.ErrOverflow".
Definition ErrUnderflow : error := errors_New "math.ErrUnderflow".

#[export] Instance safemath : SafeMath := {|
  Add64 a b := if a + b <=? MaxUint64 then Ok (a + b) else Err ErrOverflow;
  Mul64 a b := if a * b <=? MaxUint64 then Ok (a * b) else Err ErrOverflow;
  Sub64 a b := if b <=? a then Ok (a - b) else Err ErrUnderflow;
  SafeAdd a b := (u64 (a + b), MaxUint64 <? a + b);
  AbsDiff a b := Z.abs (a - b)
|}.

#[export] Instance safemath_spec : SafeMathSpec safemath.
Proof.
  split; unfold is_u64, MaxUint64; intros a b Ha Hb; intros; simpl;
    unfold MaxUint64; try case_test; simpl; try lia; try done.
  - rewrite Z.mod_small by lia. f_equal. lia.
Qed.

Definition ErrInsufficient : error := errors_New "gas.ErrInsufficientCapacity".

(** A price that grows linearly in [x / k], saturating at [MaxUint64]. *)
#[export] Instance gaslib : GasLib := {|
  Gas_AdvanceTime g maxCapacity maxPerSecond targetPerSecond duration :=
    {| Capacity := Z.min maxCapacity (Capacity g + maxPerSecond * duration);
       Excess := Z.max 0 (Excess g - targetPerSecond * duration) |};
  Gas_ConsumeGas g n :=
    if n <=? Capacity g
    then Ok {| Capacity := Capacity g - n; Excess := Z.min MaxUint64 (Excess g + n) |}
    else Err ErrInsufficient;
  CalculatePrice m x k := Z.min MaxUint64 (m + m * x / k);
  ErrInsufficientCapacity := ErrInsufficient
|}.

#[export] Instance gaslib_spec : GasLibSpec gaslib.
Proof.
  split; simpl.
  - done.
  - intros g n Hg Hn Hle. case_test; [done|lia].
  - intros g n Hg Hn Hlt. case_test; [lia|]. exists ErrInsufficient.
    split; [done|]. apply errors_Is_refl.
  - unfold is_u64, MaxUint64. intros m x k Hm Hx Hk Hk0.
    assert (0 <= m * x / k) by (apply Z.div_pos; nia). lia.
  - unfold is_u64, MaxUint64. intros m k Hm Hk Hk0.
    rewrite Z.mul_0_r, Z.div_0_l by lia. lia.
  - unfold is_u64. intros m x y k Hm Hx Hy Hk Hk0 Hxy.
    assert (m * x / k <= m * y / k) by (apply Z.div_le_mono; nia). lia.
Qed.

End Concrete.
