(* ===== verification/GoStd.v ===== *)
(** * What the sources use of the Go standard library

    [sort.Search], [sort.Sort], [bytes.Compare] and [container/heap], as the Go
    specification and the library's sources define them. *)

From S2P Require Import Prelude.

(** ** [sort.Search]

    [i, j := 0, n; for i < j { h := int(uint(i+j) >> 1); if !f(h) { i = h + 1 }
    else { j = h } }; return i].  A 64-bit [int] makes at most 64 iterations, one
    unit of fuel each; [None] is an exhausted fuel. *)

Module sort.

Fixpoint Search_loop (fuel : nat) (f : Z -> bool) (i j : Z) : option Z :=
  if i <? j then
    match fuel with
    | O => None
    | S fuel' =>
        let h := (i + j) / 2 in
        if negb (f h) then Search_loop fuel' f (h + 1) j else Search_loop fuel' f i h
    end
  else Some i.

Definition Search (n : Z) (f : Z -> bool) : option Z := Search_loop 64 f 0 n.

Definition monotone_on (n : Z) (f : Z -> bool) : Prop :=
  forall x y, 0 <= x -> x <= y -> y < n -> f x = true -> f y = true.

Lemma Search_loop_spec fuel f n i j :
  monotone_on n f -> 0 <= i -> i <= j -> j <= n -> j - i < 2 ^ Z.of_nat fuel ->
  (forall k, 0 <= k < i -> f k = false) -> (forall k, j <= k < n -> f k = true) ->
  exists r, Search_loop fuel f i j = Some r /\ 0 <= r <= n /\
    (forall k, 0 <= k < r -> f k = false) /\ (forall k, r <= k < n -> f k = true).
Proof.
  intros Hmono. revert i j. induction fuel as [|fuel IH]; intros i j H0 Hij Hjn Hf Hlo Hhi;
    cbn [Search_loop]; destruct (Z.ltb_spec i j) as [Hlt|Hge].
  - change (2 ^ Z.of_nat 0) with 1 in Hf. lia.
  - exists i. replace j with i in * by lia. repeat split; auto; lia.
  - pose proof (Z.div_mod (i + j) 2 ltac:(lia)) as Hdm.
    pose proof (Z.mod_pos_bound (i + j) 2 ltac:(lia)) as Hm.
    rewrite Nat2Z.inj_succ, Z.pow_succ_r in Hf by lia.
    destruct (f ((i + j) / 2)) eqn:Ef; cbn [negb].
    + apply IH; try lia; auto. intros k Hk.
      destruct (decide (j <= k)); [apply Hhi; lia|].
      apply (Hmono ((i + j) / 2)); auto; lia.
    + apply IH; try lia; auto. intros k Hk.
      destruct (f k) eqn:Ek; [|done].
      rewrite (Hmono k ((i + j) / 2)) in Ef by (auto; lia). done.
  - exists i. replace j with i in * by lia. repeat split; auto; lia.
Qed.

(** The search ends within its fuel and finds the first index that satisfies a
    monotone predicate ([n] when there is none). *)
Lemma Search_spec n f :
  0 <= n < 2 ^ 63 -> monotone_on n f ->
  exists r, Search n f = Some r /\ 0 <= r <= n /\
    (forall k, 0 <= k < r -> f k = false) /\ (forall k, r <= k < n -> f k = true).
Proof.
  intros Hn Hmono. apply Search_loop_spec; auto; lia.
Qed.

(** [sort.Sort] on short slices: the library sorts up to twelve elements by insertion,
    each element moving left past those it is [Less] than. Longer slices come out in the
    same order when no two elements are equivalent. *)
Fixpoint insert {A} (less : A -> A -> bool) (x : A) (l : list A) : list A :=
  match l with
  | [] => [x]
  | y :: l' => if less x y then x :: l else y :: insert less x l'
  end.

Definition Sort {A} (less : A -> A -> bool) (l : list A) : list A :=
  fold_left (fun acc x => insert less x acc) l [].

Lemma insert_Permutation {A} (less : A -> A -> bool) x l : insert less x l ≡ₚ x :: l.
Proof.
  induction l as [|y l IH]; [done|]. simpl. destruct (less x y); [done|].
  rewrite IH. apply Permutation_swap.
Qed.

Lemma Sort_Permutation {A} (less : A -> A -> bool) l : Sort less l ≡ₚ l.
Proof.
  unfold Sort. assert (forall acc, fold_left (fun acc x => insert less x acc) l acc ≡ₚ acc ++ l) as H.
  { induction l as [|x l IH]; intros acc; simpl; [by rewrite app_nil_r|].
    rewrite IH, insert_Permutation. simpl. apply Permutation_middle. }
  apply H.
Qed.

End sort.

(** ** [bytes.Compare] *)

Module bytes.

Fixpoint Compare (a b : list byte) : Z :=
  match a, b with
  | [], [] => 0
  | [], _ :: _ => -1
  | _ :: _, [] => 1
  | x :: a', y :: b' =>
      if Z_of_byte x <? Z_of_byte y then -1
      else if Z_of_byte y <? Z_of_byte x then 1
      else Compare a' b'
  end.

Lemma Compare_refl a : Compare a a = 0.
Proof. induction a as [|x a IH]; [done|]. simpl. by rewrite !Z.ltb_irrefl. Qed.

Lemma Compare_lt_trans a b c : Compare a b < 0 -> Compare b c < 0 -> Compare a c < 0.
Proof.
  revert b c. induction a as [|x a IH]; intros [|y b] [|z c]; simpl; try done; try lia.
  destruct (Z.ltb_spec (Z_of_byte x) (Z_of_byte y)), (Z.ltb_spec (Z_of_byte y) (Z_of_byte x)),
    (Z.ltb_spec (Z_of_byte y) (Z_of_byte z)), (Z.ltb_spec (Z_of_byte z) (Z_of_byte y)),
    (Z.ltb_spec (Z_of_byte x) (Z_of_byte z)), (Z.ltb_spec (Z_of_byte z) (Z_of_byte x)); try lia.
  apply IH.
Qed.

Lemma Compare_antisym a b : Compare b a = - Compare a b.
Proof.
  revert b. induction a as [|x a IH]; intros [|y b]; simpl; try done.
  destruct (Z.ltb_spec (Z_of_byte x) (Z_of_byte y)), (Z.ltb_spec (Z_of_byte y) (Z_of_byte x)); try lia.
  apply IH.
Qed.

Lemma Compare_eq a b : Compare a b = 0 -> a = b.
Proof.
  revert b. induction a as [|x a IH]; intros [|y b]; simpl; try done.
  destruct (Z.ltb_spec (Z_of_byte x) (Z_of_byte y)), (Z.ltb_spec (Z_of_byte y) (Z_of_byte x)); try done.
  intros ->%IH. f_equal. rewrite <- (byte_of_Z_of_byte x), <- (byte_of_Z_of_byte y). f_equal. lia.
Qed.

Lemma Compare_le_trans a b c : Compare a b <= 0 -> Compare b c <= 0 -> Compare a c <= 0.
Proof.
  intros H1 H2. destruct (decide (Compare a b = 0)) as [->%Compare_eq|]; [done|].
  destruct (decide (Compare b c = 0)) as [<-%Compare_eq|]; [done|].
  pose proof (Compare_lt_trans a b c). lia.
Qed.

(** On strings of one length the order is that of the integers they encode, and it
    restricts to their prefixes. *)
Lemma Compare_be_decode a b : length a = length b -> Compare a b < 0 <-> be_decode a < be_decode b.
Proof.
  revert b. induction a as [|x a IH]; intros [|y b] Hl; try done. injection Hl as Hl. cbn [Compare].
  rewrite !be_decode_cons, Hl. pose proof (be_decode_bound a) as Ha. pose proof (be_decode_bound b) as Hb.
  rewrite Hl in Ha. set (p := 256 ^ Z.of_nat (length b)) in *.
  pose proof (Z_of_byte_bound x). pose proof (Z_of_byte_bound y).
  destruct (Z.ltb_spec (Z_of_byte x) (Z_of_byte y)); [split; [nia|lia]|].
  destruct (Z.ltb_spec (Z_of_byte y) (Z_of_byte x)); [split; [lia|nia]|].
  rewrite IH by done. assert (Z_of_byte x = Z_of_byte y) as -> by lia. lia.
Qed.

Lemma Compare_take n a b : (n <= length a)%nat -> (n <= length b)%nat -> Compare a b < 0 ->
  be_decode (take n a) <= be_decode (take n b).
Proof.
  revert a b. induction n as [|n IH]; intros [|x a] [|y b] Ha Hb; cbn in Ha, Hb; try lia; try done.
  cbn [Compare take]. rewrite !be_decode_cons, !length_take, !Nat.min_l by lia.
  pose proof (be_decode_bound (take n a)) as Ba. pose proof (be_decode_bound (take n b)) as Bb.
  rewrite length_take, Nat.min_l in Ba, Bb by lia. set (p := 256 ^ Z.of_nat n) in *.
  destruct (Z.ltb_spec (Z_of_byte x) (Z_of_byte y)); [intros _; nia|].
  destruct (Z.ltb_spec (Z_of_byte y) (Z_of_byte x)); [lia|]. intros HC.
  specialize (IH a b ltac:(lia) ltac:(lia) HC). assert (Z_of_byte x = Z_of_byte y) as -> by lia. lia.
Qed.

End bytes.

(** ** [container/heap]

    The package works through an interface ([Len], [Less], [Swap], [Push], [Pop]).
    A client shows that its interface acts on a list of integer keys; the package
    then keeps the heap order of those keys.  [up] and [down] are loops: the fuel is
    the index, respectively the length, and the lemmas [up_loop_fuel] and
    [down_loop_fuel] show that more fuel changes nothing. *)

Module heap.

Class Interface (H X : Type) := {
  Len : H -> nat;
  Less : H -> nat -> nat -> bool;
  Swap : H -> nat -> nat -> H;
  Push : H -> X -> H;
  Pop : H -> H * option X
}.

Section Package.
Context {H X : Type} {I : Interface H X}.

Fixpoint up_loop (fuel : nat) (h : H) (j : nat) : H :=
  match fuel with
  | O => h
  | S fuel =>
      let i := ((j - 1) / 2)%nat in
      if bool_decide (i = j) || negb (Less h j i) then h
      else up_loop fuel (Swap h i j) i
  end.

Definition up (h : H) (j : nat) : H := up_loop (S j) h j.

(** The result has the final position of the element that started at [i]. *)
Fixpoint down_loop (fuel : nat) (h : H) (i n : nat) : H * nat :=
  match fuel with
  | O => (h, i)
  | S fuel =>
      let j1 := (2 * i + 1)%nat in
      if bool_decide (n <= j1)%nat then (h, i)
      else
        let j2 := (j1 + 1)%nat in
        let j := if bool_decide (j2 < n)%nat && Less h j2 j1 then j2 else j1 in
        if negb (Less h j i) then (h, i)
        else down_loop fuel (Swap h i j) j n
  end.

Definition down (h : H) (i0 n : nat) : H * bool :=
  let '(h, i) := down_loop (S n) h i0 n in (h, bool_decide (i0 < i)%nat).

(** [heap.Push] *)
Definition heap_Push (h : H) (x : X) : H :=
  let h := Push h x in up h (Len h - 1).

(** [heap.Pop] *)
Definition heap_Pop (h : H) : H * option X :=
  let n := (Len h - 1)%nat in
  let h := Swap h 0 n in
  let '(h, _) := down h 0 n in
  Pop h.

(** [heap.Remove] *)
Definition heap_Remove (h : H) (i : nat) : H * option X :=
  let n := (Len h - 1)%nat in
  let h :=
    if bool_decide (n <> i) then
      let h := Swap h i n in
      let '(h, moved) := down h i n in
      if negb moved then up h i else h
    else h in
  Pop h.

(** [heap.Fix] *)
Definition heap_Fix (h : H) (i : nat) : H :=
  let '(h, moved) := down h i (Len h) in
  if negb moved then up h i else h.

(** [heap.Init]: the loop [for i := n/2 - 1; i >= 0; i--]. *)
Fixpoint init_loop (h : H) (i n : nat) : H :=
  match i with
  | O => h
  | S i' => let '(h, _) := down h i' n in init_loop h i' n
  end.

Definition heap_Init (h : H) : H := init_loop h (Len h / 2) (Len h).

End Package.

(** *** Keys *)

Definition swap {A} (i j : nat) (l : list A) : list A :=
  match l !! i, l !! j with
  | Some a, Some b => <[j := a]> (<[i := b]> l)
  | _, _ => l
  end.

Lemma length_swap {A} i j (l : list A) : length (swap i j l) = length l.
Proof. unfold swap. destruct (l !! i), (l !! j); by rewrite ?length_insert. Qed.

Lemma lookup_swap {A} i j k (l : list A) :
  (i < length l)%nat -> (j < length l)%nat ->
  swap i j l !! k = if decide (k = j) then l !! i else if decide (k = i) then l !! j else l !! k.
Proof.
  intros Hi Hj. unfold swap.
  destruct (lookup_lt_is_Some_2 l i Hi) as [a Ha], (lookup_lt_is_Some_2 l j Hj) as [b Hb].
  rewrite Ha, Hb. destruct (decide (k = j)) as [->|Hkj].
  - by rewrite list_lookup_insert_eq by (by rewrite length_insert).
  - rewrite list_lookup_insert_ne by done. destruct (decide (k = i)) as [->|Hki].
    + by rewrite list_lookup_insert_eq.
    + by rewrite list_lookup_insert_ne.
Qed.

Lemma lookup_total_swap i j k (l : list Z) :
  (i < length l)%nat -> (j < length l)%nat ->
  swap i j l !!! k =
  if decide (k = j) then l !!! i else if decide (k = i) then l !!! j else l !!! k.
Proof.
  intros Hi Hj. rewrite !list_lookup_total_alt, lookup_swap by done.
  by repeat destruct (decide _).
Qed.

Lemma elem_of_swap {A} i j (l : list A) x :
  (i < length l)%nat -> (j < length l)%nat -> x ∈ swap i j l <-> x ∈ l.
Proof.
  intros Hi Hj. rewrite !list_elem_of_lookup. split.
  - intros [k Hk]. rewrite lookup_swap in Hk by done. repeat case_decide; eauto.
  - intros [k Hk]. destruct (decide (k = i)) as [->|Hki].
    { exists j. rewrite lookup_swap by done. by rewrite decide_True. }
    destruct (decide (k = j)) as [->|Hkj].
    + exists i. rewrite lookup_swap by done.
      destruct (decide (i = j)); [by subst|]. by rewrite decide_True.
    + exists k. rewrite lookup_swap by done. by rewrite !decide_False.
Qed.

Lemma NoDup_swap {A} i j (l : list A) :
  (i < length l)%nat -> (j < length l)%nat -> NoDup l -> NoDup (swap i j l).
Proof.
  intros Hi Hj Hnd. apply NoDup_alt. intros a b x Ha Hb.
  rewrite lookup_swap in Ha, Hb by done. rewrite NoDup_alt in Hnd.
  repeat case_decide; subst; try done;
    match goal with
    | |- ?u = ?v => try (eapply Hnd; eassumption);
        try (pose proof (Hnd _ _ _ Ha Hb); congruence)
    end.
Qed.

(** The parent of an index, and the heap order of the first [n] keys. *)
Definition parent (k : nat) : nat := ((k - 1) / 2)%nat.

Lemma parent_lt k : (0 < k)%nat -> (parent k < k)%nat.
Proof. intros. unfold parent. apply Nat.Div0.div_lt_upper_bound. lia. Qed.

Lemma parent_le k : (parent k <= k)%nat.
Proof. unfold parent. apply Nat.Div0.div_le_upper_bound. lia. Qed.

Lemma parent_child k i : (0 < k)%nat -> parent k = i <-> (k = 2 * i + 1 \/ k = 2 * i + 2)%nat.
Proof.
  intros Hk. unfold parent.
  pose proof (Nat.div_mod_eq (k - 1) 2). pose proof (Nat.mod_upper_bound (k - 1) 2). lia.
Qed.

Definition ordered (n : nat) (l : list Z) : Prop :=
  forall k, (0 < k < n)%nat -> l !!! parent k <= l !!! k.

(** Ordered but for the element at [i], which may be out of place both ways. *)
Definition hole (n i : nat) (l : list Z) : Prop :=
  (forall k, (0 < k < n)%nat -> k <> i -> parent k <> i -> l !!! parent k <= l !!! k) /\
  (forall k, (0 < i)%nat -> (0 < k < n)%nat -> parent k = i -> l !!! parent i <= l !!! k).

Definition above_children (n i : nat) (l : list Z) : Prop :=
  forall k, (0 < k < n)%nat -> parent k = i -> l !!! i <= l !!! k.

Lemma hole_ordered n i l :
  hole n i l -> above_children n i l -> ((0 < i)%nat -> l !!! parent i <= l !!! i) ->
  ordered n l.
Proof.
  intros [Hh _] Hc Hp k Hk. destruct (decide (k = i)) as [->|Hki]; [apply Hp; lia|].
  destruct (decide (parent k = i)) as [Hpk|]; [rewrite Hpk; by apply Hc|auto].
Qed.

Lemma ordered_hole n i l : ordered n l -> hole n i l.
Proof.
  intros Ho. split; [auto|]. intros k Hi Hk Hpk. transitivity (l !!! i).
  - apply Ho. pose proof (parent_lt k). lia.
  - rewrite <- Hpk. by apply Ho.
Qed.

(** Moving the element at [j] above its parent. *)
Lemma hole_swap_up n j l :
  (0 < j < n)%nat -> (n <= length l)%nat -> hole n j l -> above_children n j l ->
  l !!! j < l !!! parent j ->
  let l' := swap (parent j) j l in hole n (parent j) l' /\ above_children n (parent j) l'.
Proof.
  intros Hj Hn [Hh Hg] Hc Hlt l'. pose proof (parent_lt j). set (i := parent j) in *.
  assert (E : forall k, l' !!! k = if decide (k = j) then l !!! i
                                   else if decide (k = i) then l !!! j else l !!! k)
    by (intros; apply lookup_total_swap; lia).
  assert (Hup : forall k, (0 < k < n)%nat -> k <> j -> parent k = i -> l !!! i <= l !!! k).
  { intros k Hk Hkj Hpk. rewrite <- Hpk. apply Hh; [done|done|]. lia. }
  assert (Hpi : (0 < i)%nat -> l !!! parent i <= l !!! i).
  { intros Hi. apply Hh; [lia|lia|]. pose proof (parent_lt i). lia. }
  split; [split|].
  - intros k Hk Hki Hpki. rewrite !E. pose proof (parent_lt k ltac:(lia)).
    destruct (decide (k = j)) as [->|]; [done|]. rewrite (decide_False (P := k = i)) by done.
    destruct (decide (parent k = j)) as [Hpj|].
    + apply Hg; [lia|done|done].
    + rewrite decide_False by done. by apply Hh.
  - intros k Hi Hk Hpk. pose proof (parent_lt i Hi). pose proof (parent_lt k ltac:(lia)).
    rewrite !E. rewrite (decide_False (P := parent i = j)), (decide_False (P := parent i = i))
      by lia.
    destruct (decide (k = j)) as [->|]; [auto|]. rewrite decide_False by lia.
    transitivity (l !!! i); auto.
  - intros k Hk Hpk. pose proof (parent_lt k ltac:(lia)). rewrite !E.
    rewrite (decide_False (P := i = j)), (decide_True (P := i = i)) by lia.
    destruct (decide (k = j)) as [->|]; [lia|]. rewrite decide_False by lia.
    specialize (Hup k Hk ltac:(done) Hpk). lia.
Qed.

(** Moving the element at [i] below its smallest child [j]. *)
Lemma hole_swap_down n i j l :
  (0 < j < n)%nat -> (n <= length l)%nat -> parent j = i -> hole n i l ->
  (forall k, (0 < k < n)%nat -> parent k = i -> l !!! j <= l !!! k) ->
  l !!! j < l !!! i ->
  let l' := swap i j l in hole n j l' /\ l' !!! parent j <= l' !!! j.
Proof.
  intros Hj Hn Hpj [Hh Hg] Hmin Hlt l'. pose proof (parent_lt j).
  assert (E : forall k, l' !!! k = if decide (k = j) then l !!! i
                                   else if decide (k = i) then l !!! j else l !!! k)
    by (intros; apply lookup_total_swap; lia).
  split; [split|].
  - intros k Hk Hkj Hpk. pose proof (parent_lt k ltac:(lia)). rewrite !E.
    rewrite (decide_False (P := k = j)), (decide_False (P := parent k = j)) by done.
    destruct (decide (parent k = i)) as [Hpi|Hpi].
    + rewrite decide_False by lia. by apply Hmin.
    + destruct (decide (k = i)) as [->|]; [|by apply Hh].
      apply Hg; [lia|lia|done].
  - intros k _ Hk Hpk. pose proof (parent_lt k ltac:(lia)). rewrite !E.
    rewrite (decide_False (P := parent j = j)), (decide_True (P := parent j = i)) by lia.
    rewrite (decide_False (P := k = j)), (decide_False (P := k = i)) by lia.
    rewrite <- Hpk. apply Hh; lia.
  - rewrite !E. rewrite (decide_False (P := parent j = j)), (decide_True (P := parent j = i)),
      (decide_True (P := j = j)) by lia. lia.
Qed.

(** *** Laws of the package *)

(** An interface acts on a list of keys: a view of the valid states. *)
Class Model (H X : Type) {I : Interface H X} (valid : H -> Prop) (keys : H -> list Z) : Prop := {
  Len_keys h : valid h -> Len h = length (keys h);
  Less_keys h i j : valid h -> (i < Len h)%nat -> (j < Len h)%nat ->
    Less h i j = (keys h !!! i <? keys h !!! j);
  Swap_valid h i j : valid h -> (i < Len h)%nat -> (j < Len h)%nat -> valid (Swap h i j);
  Swap_keys h i j : valid h -> (i < Len h)%nat -> (j < Len h)%nat ->
    keys (Swap h i j) = swap i j (keys h)
}.

Section Laws.
Context {H X : Type} {I : Interface H X} {valid : H -> Prop} {keys : H -> list Z}.
Context {M : Model H X valid keys}.

Lemma Len_Swap h i j :
  valid h -> (i < Len h)%nat -> (j < Len h)%nat -> Len (Swap h i j) = Len h.
Proof.
  intros Hv Hi Hj. rewrite (Len_keys (Swap h i j)) by (by apply Swap_valid).
  rewrite Swap_keys, length_swap by done. by rewrite Len_keys.
Qed.

(** Whatever every swap below [m] preserves, the loops preserve. *)
Definition swap_closed (m : nat) (P : H -> Prop) : Prop :=
  forall h i j, valid h -> (m <= Len h)%nat -> (i < m)%nat -> (j < m)%nat -> P h -> P (Swap h i j).

Lemma up_loop_closed m (P : H -> Prop) fuel h j :
  swap_closed m P -> valid h -> (j < m)%nat -> (m <= Len h)%nat -> P h ->
  P (up_loop fuel h j) /\ valid (up_loop fuel h j) /\ Len (up_loop fuel h j) = Len h.
Proof.
  intros HP. revert h j. induction fuel as [|fuel IH]; intros h j Hv Hj Hm Hh; [done|].
  cbn [up_loop]. destruct (_ || _); [done|]. pose proof (parent_le j).
  destruct (IH (Swap h (parent j) j) (parent j)) as (? & ? & HL); unfold parent in *.
  - apply Swap_valid; auto; lia.
  - lia.
  - rewrite Len_Swap; auto; lia.
  - apply HP; auto; lia.
  - rewrite HL, Len_Swap by (auto; lia). done.
Qed.

Lemma down_loop_closed m (P : H -> Prop) fuel h i :
  swap_closed m P -> valid h -> (i < m)%nat -> (m <= Len h)%nat -> P h ->
  let h' := fst (down_loop fuel h i m) in P h' /\ valid h' /\ Len h' = Len h.
Proof.
  intros HP. revert h i. induction fuel as [|fuel IH]; intros h i Hv Hi Hn Hh; [done|].
  cbn [down_loop]. case_test; [done|].
  set (j := if _ && _ then _ else _).
  assert (Hj : (j < m)%nat).
  { unfold j. destruct (decide (2 * i + 1 + 1 < m)%nat).
    - destruct (_ && _); lia.
    - rewrite bool_decide_eq_false_2 by done. simpl. lia. }
  destruct (negb _); [done|].
  destruct (IH (Swap h i j) j) as (? & ? & HL).
  - apply Swap_valid; auto; lia.
  - lia.
  - rewrite Len_Swap; auto; lia.
  - apply HP; auto; lia.
  - rewrite HL, Len_Swap by (auto; lia). done.
Qed.

(** Enough fuel is enough. *)
Lemma up_loop_fuel h j f1 f2 :
  (j < f1)%nat -> (j < f2)%nat -> up_loop f1 h j = up_loop f2 h j.
Proof.
  revert h j f2. induction f1 as [|f1 IH]; intros h j [|f2] H1 H2; try lia.
  cbn [up_loop]. case_bool_decide as Hij; [done|]. cbn [orb].
  destruct (negb _); [done|]. pose proof (parent_le j). unfold parent in *. apply IH; lia.
Qed.

Lemma down_loop_fuel h i n f1 f2 :
  (n < i + f1)%nat -> (n < i + f2)%nat -> down_loop f1 h i n = down_loop f2 h i n.
Proof.
  revert h i f2. induction f1 as [|f1 IH]; intros h i [|f2] H1 H2; cbn [down_loop].
  - done.
  - case_test; [done|lia].
  - case_test; [done|lia].
  - case_test; [done|]. destruct (negb _); [done|].
    apply IH; destruct (_ && _); lia.
Qed.

(** [up] repairs an element that may only be too small. *)
Lemma up_loop_ordered fuel h n j :
  valid h -> (j < n)%nat -> (n <= Len h)%nat -> (j < fuel)%nat ->
  hole n j (keys h) -> above_children n j (keys h) -> ordered n (keys (up_loop fuel h j)).
Proof.
  revert h j. induction fuel as [|fuel IH]; intros h j Hv Hj Hn Hf Hh Hc; [lia|].
  cbn [up_loop]. change ((j - 1) / 2)%nat with (parent j). pose proof (parent_le j).
  case_bool_decide as Hij.
  { apply (hole_ordered n j); [done|done|]. intros ?. pose proof (parent_lt j). lia. }
  cbn [orb]. rewrite Less_keys by (done || lia).
  destruct (Z.ltb_spec (keys h !!! j) (keys h !!! parent j)); cbn [negb].
  - pose proof (Len_keys h Hv).
    destruct (hole_swap_up n j (keys h)) as [Hh' Hc']; [lia|lia|done|done|done|].
    apply IH; try rewrite Len_Swap; try (apply Swap_valid); try (rewrite Swap_keys);
      auto; lia.
  - by apply (hole_ordered n j).
Qed.

Lemma up_ordered h n j :
  valid h -> (j < n)%nat -> (n <= Len h)%nat ->
  hole n j (keys h) -> above_children n j (keys h) -> ordered n (keys (up h j)).
Proof. intros. apply up_loop_ordered; auto. Qed.

(** The child [down] compares with is the smallest one. *)
Lemma min_child h n i :
  valid h -> (n <= Len h)%nat -> (2 * i + 1 < n)%nat ->
  let j1 := (2 * i + 1)%nat in let j2 := (j1 + 1)%nat in
  let j := if bool_decide (j2 < n)%nat && Less h j2 j1 then j2 else j1 in
  (i < j < n)%nat /\ parent j = i /\
  forall k, (0 < k < n)%nat -> parent k = i -> keys h !!! j <= keys h !!! k.
Proof.
  intros Hv Hn Hlt j1 j2 j. unfold j. case_bool_decide as H2; cbn [andb].
  - rewrite Less_keys by (done || lia).
    destruct (Z.ltb_spec (keys h !!! j2) (keys h !!! j1)).
    + split; [lia|]. split; [apply parent_child; lia|].
      intros k Hk Hpk. apply parent_child in Hpk as [-> | ->]; [unfold j1 in *; lia| |lia].
      unfold j2, j1. replace (2 * i + 1 + 1)%nat with (2 * i + 2)%nat by lia. lia.
    + split; [lia|]. split; [apply parent_child; lia|].
      intros k Hk Hpk. apply parent_child in Hpk as [-> | ->]; [unfold j1; lia| |lia].
      unfold j2, j1 in *. replace (2 * i + 2)%nat with (2 * i + 1 + 1)%nat by lia. lia.
  - split; [lia|]. split; [apply parent_child; lia|].
    intros k Hk Hpk. apply parent_child in Hpk as [-> | ->]; unfold j1 in *; lia.
Qed.

(** [down] repairs an element whose children are not below its parent; if the
    element does not move, it is not above its children. *)
Lemma down_loop_ordered fuel h n i :
  valid h -> (i < Len h)%nat -> (n <= Len h)%nat -> (n < i + fuel)%nat -> hole n i (keys h) ->
  let r := down_loop fuel h i n in
  (i <= snd r)%nat /\
  (snd r = i -> fst r = h /\ above_children n i (keys h)) /\
  (snd r <> i \/ ((0 < i)%nat -> keys h !!! parent i <= keys h !!! i) ->
   ordered n (keys (fst r))).
Proof.
  revert h i. induction fuel as [|fuel IH]; intros h i Hv Hi Hn Hf Hh.
  { lia || (cbn; split; [done|]; assert (Hc : above_children n i (keys h))
      by (intros k Hk Hpk; pose proof (parent_lt k ltac:(lia)); lia);
      split; [done|]; intros [?|?]; [done|by apply (hole_ordered n i)]). }
  assert (Hstay : above_children n i (keys h) ->
    (i <= i)%nat /\ (i = i -> h = h /\ above_children n i (keys h)) /\
    (i <> i \/ ((0 < i)%nat -> keys h !!! parent i <= keys h !!! i) -> ordered n (keys h))).
  { intros Hc. split; [done|]. split; [done|]. intros [?|?]; [done|].
    by apply (hole_ordered n i). }
  cbn [down_loop]. case_test.
  { apply Hstay. intros k Hk Hpk. apply parent_child in Hpk; lia. }
  destruct (min_child h n i Hv Hn ltac:(lia)) as (Hj & Hpj & Hmin). cbv zeta in *.
  set (j := if _ && _ then _ else _) in *.
  rewrite Less_keys by (done || lia).
  destruct (Z.ltb_spec (keys h !!! j) (keys h !!! i)) as [Hlt|Hge]; cbn [negb].
  - pose proof (Len_keys h Hv).
    destruct (hole_swap_down n i j (keys h)) as [Hh' Hp']; [lia|lia|done..|].
    assert (Hv' : valid (Swap h i j)) by (apply Swap_valid; auto; lia).
    assert (HL : Len (Swap h i j) = Len h) by (apply Len_Swap; auto; lia).
    destruct (IH (Swap h i j) j) as (Hle & _ & Hord); [done|lia|lia|lia| |].
    { rewrite Swap_keys by (auto; lia). done. }
    split; [lia|]. split; [lia|]. intros _. apply Hord. right. intros _.
    rewrite Swap_keys by (auto; lia). done.
  - apply Hstay. intros k Hk Hpk. specialize (Hmin k Hk Hpk). lia.
Qed.

(** [heap.Init]: the order from [m] on, and the same but for the element at [i]. *)
Definition ordered_from (m n : nat) (l : list Z) : Prop :=
  forall k, (0 < k < n)%nat -> (m <= parent k)%nat -> l !!! parent k <= l !!! k.

Definition hole_from (m n i : nat) (l : list Z) : Prop :=
  (forall k, (0 < k < n)%nat -> k <> i -> parent k <> i -> (m <= parent k)%nat -> l !!! parent k <= l !!! k) /\
  (forall k, (0 < i)%nat -> (m <= parent i)%nat -> (0 < k < n)%nat -> parent k = i -> l !!! parent i <= l !!! k).

Lemma hole_from_swap m n i j l :
  (m <= i)%nat -> (0 < j < n)%nat -> (n <= length l)%nat -> parent j = i -> hole_from m n i l ->
  (forall k, (0 < k < n)%nat -> parent k = i -> l !!! j <= l !!! k) -> l !!! j < l !!! i ->
  let l' := swap i j l in hole_from m n j l' /\ l' !!! parent j <= l' !!! j.
Proof.
  intros Hm Hj Hn Hpj [Hh Hg] Hmin Hlt l'. pose proof (parent_lt j).
  assert (E : forall k, l' !!! k = if decide (k = j) then l !!! i
                                   else if decide (k = i) then l !!! j else l !!! k)
    by (intros; apply lookup_total_swap; lia).
  split; [split|].
  - intros k Hk Hkj Hpk Hmk. pose proof (parent_lt k ltac:(lia)). rewrite !E.
    rewrite (decide_False (P := k = j)), (decide_False (P := parent k = j)) by done.
    destruct (decide (parent k = i)) as [Hpi|Hpi].
    + rewrite decide_False by lia. by apply Hmin.
    + destruct (decide (k = i)) as [->|]; [|by apply Hh].
      apply Hg; [lia|lia|lia|done].
  - intros k _ _ Hk Hpk. pose proof (parent_lt k ltac:(lia)). rewrite !E.
    rewrite (decide_False (P := parent j = j)), (decide_True (P := parent j = i)) by lia.
    rewrite (decide_False (P := k = j)), (decide_False (P := k = i)) by lia.
    rewrite <- Hpk. apply Hh; lia.
  - rewrite !E. rewrite (decide_False (P := parent j = j)), (decide_True (P := parent j = i)),
      (decide_True (P := j = j)) by lia. lia.
Qed.

Lemma down_loop_from fuel h n m i :
  valid h -> (m <= i)%nat -> (i < Len h)%nat -> (n <= Len h)%nat -> (n < i + fuel)%nat ->
  hole_from m n i (keys h) ->
  ((0 < i)%nat -> (m <= parent i)%nat -> keys h !!! parent i <= keys h !!! i) ->
  ordered_from m n (keys (fst (down_loop fuel h i n))).
Proof.
  revert h i. induction fuel as [|fuel IH]; intros h i Hv Hm Hi Hn Hf Hh Hp; cbn [down_loop].
  { intros k Hk Hmk. pose proof (parent_lt k). destruct Hh as [Hh _]. apply Hh; lia. }
  assert (Hstay : above_children n i (keys h) -> ordered_from m n (keys h)).
  { intros Hc k Hk Hmk. destruct (decide (k = i)) as [->|]; [apply Hp; lia|].
    destruct (decide (parent k = i)) as [Hpk|]; [rewrite Hpk; by apply Hc|]. destruct Hh as [Hh _]. by apply Hh. }
  case_test.
  { apply Hstay. intros k Hk Hpk. apply parent_child in Hpk; lia. }
  destruct (min_child h n i Hv Hn ltac:(lia)) as (Hj & Hpj & Hmin). cbv zeta in *.
  set (j := if _ && _ then _ else _) in *. rewrite Less_keys by (done || lia).
  destruct (Z.ltb_spec (keys h !!! j) (keys h !!! i)) as [Hlt|Hge]; cbn [negb].
  - pose proof (Len_keys h Hv).
    destruct (hole_from_swap m n i j (keys h)) as [Hh' Hp']; [lia|lia|lia|done..|].
    assert (HL : Len (Swap h i j) = Len h) by (apply Len_Swap; auto; lia).
    apply IH; [apply Swap_valid; auto; lia|lia|lia|lia|lia| |]; rewrite Swap_keys by (auto; lia); done.
  - apply Hstay. intros k Hk Hpk. specialize (Hmin k Hk Hpk). lia.
Qed.

(** [heap.Push] keeps the order when the client's [Push] appends one element. *)
Lemma heap_Push_ordered h x :
  valid (Push h x) -> Len (Push h x) = S (Len h) ->
  ordered (Len h) (keys (Push h x)) ->
  ordered (Len (Push h x)) (keys (heap_Push h x)).
Proof.
  intros Hv HL Ho. unfold heap_Push. rewrite HL. apply up_ordered; [done|lia|lia| |].
  - split.
    + intros k Hk Hki Hpk. apply Ho. lia.
    + intros k _ Hk Hpk. apply parent_child in Hpk; lia.
  - intros k Hk Hpk. apply parent_child in Hpk; lia.
Qed.

Lemma init_loop_ordered h i n :
  valid h -> n = Len h -> (i <= n)%nat -> ordered_from i n (keys h) ->
  let h' := init_loop h i n in ordered n (keys h') /\ valid h' /\ Len h' = n.
Proof.
  revert h. induction i as [|i IH]; intros h Hv HL Hi Ho; cbn [init_loop].
  { split_and!; [|done|done]. intros k Hk. apply Ho; lia. }
  assert (Hd : ordered_from i n (keys (fst (down_loop (S n) h i n)))).
  { apply down_loop_from; try done; try lia.
    - split.
      + intros k Hk Hki Hpk Hmk. apply Ho; lia.
      + intros k Hi0 Hmp. pose proof (parent_lt i Hi0). lia.
    - intros Hi0 Hmp. pose proof (parent_lt i Hi0). lia. }
  destruct (down_loop_closed (Len h) (fun _ => True) (S n) h i) as (_ & Hv' & HL'); [done|done|lia|lia|done|].
  unfold down. rewrite HL in *. destruct (down_loop (S (Len h)) h i (Len h)) as [h1 j1]. cbn [fst] in *.
  apply IH; [done|done|lia|done].
Qed.

Lemma heap_Init_ordered h :
  valid h -> let h' := heap_Init h in ordered (Len h) (keys h') /\ valid h' /\ Len h' = Len h.
Proof.
  intros Hv. unfold heap_Init. apply init_loop_ordered; [done|done| |].
  - apply Nat.Div0.div_le_upper_bound. lia.
  - intros k Hk Hp. exfalso. unfold parent in Hp.
    pose proof (Nat.div_mod_eq (Len h) 2). pose proof (Nat.mod_upper_bound (Len h) 2).
    pose proof (Nat.div_mod_eq (k - 1) 2). pose proof (Nat.mod_upper_bound (k - 1) 2). lia.
Qed.

(** Whatever every swap preserves, [heap.Init] and [heap.Fix] preserve. *)
Lemma heap_Init_closed (P : H -> Prop) h :
  swap_closed (Len h) P -> valid h -> P h -> P (heap_Init h).
Proof.
  intros HP Hv Hh. unfold heap_Init.
  assert (forall i h0, valid h0 -> Len h0 = Len h -> (i <= Len h)%nat -> P h0 -> P (init_loop h0 i (Len h))) as Hl.
  { induction i as [|i IH]; intros h0 Hv0 HL0 Hi Hp0; cbn [init_loop]; [done|].
    destruct (down_loop_closed (Len h) P (S (Len h)) h0 i) as (HP' & Hv' & HL'); [done|done|lia|lia|done|].
    unfold down. destruct (down_loop _ h0 i _) as [h1 j1]. cbn [fst] in *. apply IH; (done || lia). }
  apply Hl; [done|done| |done]. apply Nat.Div0.div_le_upper_bound. lia.
Qed.

Lemma heap_Fix_root h :
  valid h -> (0 < Len h)%nat -> hole (Len h) 0 (keys h) ->
  let h' := heap_Fix h 0 in ordered (Len h) (keys h') /\ valid h' /\ Len h' = Len h.
Proof.
  intros Hv Hl Hh. unfold heap_Fix, down.
  destruct (down_loop_ordered (S (Len h)) h (Len h) 0 Hv) as (_ & Hsame & Hord); [done|done|lia|done|].
  destruct (down_loop_closed (Len h) (fun _ => True) (S (Len h)) h 0) as (_ & Hv' & HL'); [done|done|lia|lia|done|].
  destruct (down_loop _ h 0 _) as [h1 j1]. cbn [fst snd] in *.
  assert (up h1 0 = h1) as -> by done.
  destruct (negb _); (split_and!; [apply Hord; right; lia|done|done]).
Qed.

(** The rearrangement of [heap.Remove] before its [Pop]: the element at [i] is last,
    the others are in heap order. *)
Definition remove_fix (h : H) (i : nat) : H :=
  let n := (Len h - 1)%nat in
  if bool_decide (n <> i) then
    let h := Swap h i n in
    let '(h, moved) := down h i n in
    if negb moved then up h i else h
  else h.

Lemma heap_Remove_eq h i : heap_Remove h i = Pop (remove_fix h i).
Proof. reflexivity. Qed.

Lemma remove_fix_closed (P : H -> Prop) h i :
  swap_closed (Len h - 1) P -> valid h -> (i < Len h)%nat ->
  P (if bool_decide ((Len h - 1)%nat <> i) then Swap h i (Len h - 1) else h) ->
  P (remove_fix h i) /\ valid (remove_fix h i) /\ Len (remove_fix h i) = Len h.
Proof.
  intros HP Hv Hi Hh. unfold remove_fix. case_bool_decide as Hne; [|done].
  assert (Hv1 : valid (Swap h i (Len h - 1))) by (apply Swap_valid; auto; lia).
  assert (HL1 : Len (Swap h i (Len h - 1)) = Len h) by (apply Len_Swap; auto; lia).
  unfold down.
  destruct (down_loop_closed _ P (S (Len h - 1)) (Swap h i (Len h - 1)) i HP Hv1)
    as (HP2 & Hv2 & HL2); [lia|lia|done|].
  destruct (down_loop _ _ _ _) as [h2 i2]; cbn [fst] in *.
  destruct (negb _); [|by rewrite HL2].
  destruct (up_loop_closed _ P (S i) h2 i HP Hv2) as (HP3 & Hv3 & HL3); [lia|lia|done|].
  unfold up. by rewrite HL3, HL2.
Qed.

Lemma remove_fix_ordered h i :
  valid h -> (i < Len h)%nat -> ordered (Len h) (keys h) ->
  ordered (Len h - 1) (keys (remove_fix h i)).
Proof.
  intros Hv Hi Ho. unfold remove_fix. case_bool_decide as Hne; cycle 1.
  { intros k Hk. apply Ho. lia. }
  set (n := (Len h - 1)%nat) in *. pose proof (Len_keys h Hv).
  assert (Hv1 : valid (Swap h i n)) by (apply Swap_valid; auto; lia).
  assert (HL1 : Len (Swap h i n) = Len h) by (apply Len_Swap; auto; lia).
  assert (Hh1 : hole n i (keys (Swap h i n))).
  { rewrite Swap_keys by (auto; lia). destruct (ordered_hole _ i _ Ho) as [H1 H2].
    assert (E : forall k, (k < n)%nat -> k <> i ->
                swap i n (keys h) !!! k = keys h !!! k).
    { intros k Hk Hki. rewrite lookup_total_swap by lia.
      by rewrite !decide_False by lia. }
    split.
    - intros k Hk Hki Hpk. pose proof (parent_le k). rewrite !E by lia. apply H1; lia.
    - intros k Hi0 Hk Hpk. pose proof (parent_lt i Hi0). pose proof (parent_lt k ltac:(lia)).
      rewrite !E by lia. apply H2; lia. }
  destruct (down_loop_ordered (S n) (Swap h i n) n i Hv1) as (Hle & Hsame & Hord);
    [lia|lia|lia|done|].
  unfold down. destruct (down_loop _ _ _ _) as [h2 i2] eqn:E; cbn [fst snd] in *.
  case_bool_decide as Hmoved; cbn [negb].
  - apply Hord. left. lia.
  - destruct Hsame as [-> Hc]; [lia|]. apply up_ordered; [done|lia|lia|done|done].
Qed.

(** The first key of an ordered heap is the smallest. *)
Lemma ordered_min n l k : ordered n l -> (k < n)%nat -> l !!! 0%nat <= l !!! k.
Proof.
  intros Ho. induction k as [k IH] using lt_wf_ind. intros Hk.
  destruct (decide (k = 0%nat)) as [->|]; [done|].
  transitivity (l !!! parent k); [|apply Ho; lia].
  pose proof (parent_lt k ltac:(lia)). apply IH; lia.
Qed.

End Laws.
End heap.
