(* ===== verification/Slices.v ===== *)
(** * Heaps and sorted slices

    The package [container/heap] over a slice whose elements are compared by a key, and
    [sort.Sort] under a weak order: what the operations return, and that they keep the heap. *)

From Stdlib Require Import Sorting.Sorted.
From S2P Require Import Prelude GoStd.

Module slices.

(** ** Sorting *)

Section Sorting.
Context {A : Type} (less : A -> A -> bool).
Let le (a b : A) : Prop := less b a = false.
Context (less_asym : forall a b, less a b = true -> less b a = false).
Context (le_trans : forall a b c, le a b -> le b c -> le a c).

Lemma insert_weakly_sorted x l : StronglySorted le l -> StronglySorted le (sort.insert less x l).
Proof.
  induction 1 as [|y l Hl IH Hy]; cbn [sort.insert]; [repeat constructor|].
  destruct (less x y) eqn:E.
  - constructor; [by constructor|]. assert (le x y) as Hxy by (by apply less_asym).
    constructor; [done|]. eapply list.Forall_impl; [done|]. intros z Hz. by eapply le_trans.
  - constructor; [done|]. rewrite sort.insert_Permutation. by constructor.
Qed.

Lemma Sort_weakly_sorted l : StronglySorted le (sort.Sort less l).
Proof.
  unfold sort.Sort. assert (forall acc, StronglySorted le acc ->
    StronglySorted le (fold_left (fun acc x => sort.insert less x acc) l acc)) as H.
  { induction l as [|x l IH]; intros acc Hacc; [done|]. apply IH. by apply insert_weakly_sorted. }
  apply H. constructor.
Qed.

End Sorting.

(** Two sorted lists with the same elements are the same, if the order is strict. *)
Lemma sorted_perm_unique {A} (R : relation A) (l1 l2 : list A) : (forall a, ~ R a a) -> (forall a b, R a b -> R b a -> False) ->
  StronglySorted R l1 -> StronglySorted R l2 -> l1 ≡ₚ l2 -> l1 = l2.
Proof.
  intros Hirr Hasym Hs1. revert l2. induction Hs1 as [|x l1 Hs1 IH Hx]; intros l2 Hs2 Hp.
  { apply Permutation_nil in Hp. done. }
  destruct Hs2 as [|y l2 Hs2 Hy]; [by apply Permutation_sym, Permutation_nil_cons in Hp|].
  assert (x = y) as ->.
  { assert (Hin : y ∈ x :: l1) by (rewrite Hp; by left). assert (Hin' : x ∈ y :: l2) by (rewrite <- Hp; by left).
    apply elem_of_cons in Hin as [->|Hin]; [done|]. apply elem_of_cons in Hin' as [->|Hin']; [done|].
    rewrite list.Forall_forall in Hx, Hy. destruct (Hasym x y); auto. }
  f_equal. apply IH; [done|]. by apply Permutation_cons_inv in Hp.
Qed.

(** ** Swaps *)

Lemma swap_perm {A} i j (l : list A) : heap.swap i j l ≡ₚ l.
Proof.
  destruct (decide (i < length l /\ j < length l)%nat) as [[Hi Hj]|Hn]; cycle 1.
  { unfold heap.swap. destruct (l !! i) as [a|] eqn:Ha; [|done]. destruct (l !! j) as [b|] eqn:Hb; [|done].
    apply lookup_lt_Some in Ha, Hb. lia. }
  apply Permutation_inj. split; [apply heap.length_swap|].
  exists (fun k => if decide (k = j) then i else if decide (k = i) then j else k). split.
  - intros a b. repeat case_decide; congruence.
  - intros k. rewrite heap.lookup_swap by done. by repeat case_decide.
Qed.

(** ** Heaps *)

(** [old[n-1]] and [old[0 : n-1]] *)
Definition pop_last {A} (s : list A) : list A * option A :=
  match s !! (length s - 1)%nat with
  | None => (s, None)
  | Some x => (take (length s - 1) s, Some x)
  end.

(** The [heap.Interface] of a slice with a comparison of its elements. *)
Definition less_at {A} (less : A -> A -> bool) (s : list A) (i j : nat) : bool :=
  match s !! i, s !! j with Some a, Some b => less a b | _, _ => false end.
Definition slice_heap {A} (less : A -> A -> bool) : heap.Interface (list A) A := {|
  heap.Len := length;
  heap.Less := less_at less;
  heap.Swap s i j := heap.swap i j s;
  heap.Push s x := s ++ [x];
  heap.Pop := pop_last
|}.

(** Under any comparison, the package only moves the elements around. *)
Section Moves.
Context {A : Type} (less : A -> A -> bool).
Let I : heap.Interface (list A) A := slice_heap less.
#[local] Existing Instance I.

Lemma up_loop_moves : forall fuel (l : list A) j, heap.up_loop fuel l j ≡ₚ l.
Proof.
  induction fuel as [|fuel IH]; intros l j; cbn [heap.up_loop]; [done|]. destruct (_ || _); [done|].
  rewrite IH. apply swap_perm.
Qed.

Lemma down_loop_moves : forall fuel (l : list A) i n, fst (heap.down_loop fuel l i n) ≡ₚ l.
Proof.
  induction fuel as [|fuel IH]; intros l i n; cbn [heap.down_loop]; [done|]. repeat (case_match; [done|]).
  rewrite IH. apply swap_perm.
Qed.

Lemma down_moves (l : list A) i n : fst (heap.down l i n) ≡ₚ l.
Proof. unfold heap.down. pose proof (down_loop_moves (S n) l i n) as H. by destruct (heap.down_loop _ _ _ _). Qed.

Lemma push_moves (l : list A) x : heap.heap_Push l x ≡ₚ x :: l.
Proof. unfold heap.heap_Push, heap.up. rewrite up_loop_moves. cbn. by rewrite Permutation_app_comm. Qed.

Lemma init_moves (l : list A) : heap.heap_Init l ≡ₚ l.
Proof.
  unfold heap.heap_Init. generalize (heap.Len l) at 2. generalize (heap.Len l / 2)%nat. intros i n. revert l. induction i as [|i IH]; intros l; [done|].
  cbn [heap.init_loop]. pose proof (down_moves l i n) as H. destruct (heap.down l i n) as [l' b]. by rewrite IH.
Qed.

Lemma pop_moves (l : list A) : l <> [] -> exists x l', heap.heap_Pop l = (l', Some x) /\ l ≡ₚ x :: l'.
Proof.
  intros Hl. unfold heap.heap_Pop. cbn [heap.Len heap.Swap I slice_heap].
  pose proof (down_moves (heap.swap 0 (length l - 1) l) 0 (length l - 1)) as H. destruct (heap.down _ _ _) as [l' b]. cbn [fst] in H.
  rewrite swap_perm in H. cbn [heap.Pop I slice_heap]. unfold pop_last.
  assert (Hlen : (length l' - 1 < length l')%nat). { rewrite H. destruct l; [done|cbn; lia]. }
  destruct (lookup_lt_is_Some_2 _ _ Hlen) as [x Hx]. rewrite Hx. exists x, (take (length l' - 1) l'). split; [done|].
  rewrite <- H. rewrite Permutation_cons_append, <- (take_S_r l' _ _ Hx), take_ge by lia. done.
Qed.

End Moves.

Section Heap.
Context {A : Type} (less : A -> A -> bool) (ok : A -> Prop) (key : A -> Z).
Context (less_key : forall a b, ok a -> ok b -> less a b = (key a <? key b)).
Let I : heap.Interface (list A) A := slice_heap less.
#[local] Existing Instance I.
Let keys (l : list A) : list Z := key <$> l.

Lemma keys_total l i x : l !! i = Some x -> keys l !!! i = key x.
Proof. intros Hi. unfold keys. by rewrite list_lookup_total_alt, list_lookup_fmap, Hi. Qed.

Lemma slice_model : heap.Model (list A) A (Forall ok) keys.
Proof.
  split; cbn.
  - intros h _. unfold keys. by rewrite length_fmap.
  - intros h i j Hv Hi Hj. apply lookup_lt_is_Some in Hi as [a Ha]. apply lookup_lt_is_Some in Hj as [b Hb].
    unfold less_at. rewrite Ha, Hb, (keys_total _ _ _ Ha), (keys_total _ _ _ Hb).
    rewrite Forall_lookup in Hv. apply less_key; eauto.
  - intros h i j Hv _ _. by rewrite swap_perm.
  - intros h i j _ Hi Hj. apply list_eq. intros k. unfold keys. rewrite list_lookup_fmap, !heap.lookup_swap by (by rewrite ?length_fmap).
    rewrite !list_lookup_fmap. by repeat case_decide.
Qed.
#[local] Existing Instance slice_model.

Definition heap_ok (l : list A) : Prop := Forall ok l /\ heap.ordered (length l) (keys l).

Lemma heap_ok_nil : heap_ok [].
Proof. split; [constructor|]. intros k. cbn. lia. Qed.

Lemma swap_closed_perm m (l : list A) : heap.swap_closed (valid := Forall ok) m (fun h => h ≡ₚ l).
Proof. intros h i j _ _ _ _ Hp. cbn. by rewrite swap_perm. Qed.

Lemma slice_init_ok l : Forall ok l -> heap_ok (heap.heap_Init l) /\ heap.heap_Init l ≡ₚ l.
Proof.
  intros Hv. destruct (heap.heap_Init_ordered l Hv) as (Ho & Hv' & HL). cbn [heap.Len I slice_heap] in *.
  split; [split; [done|by rewrite HL]|].
  apply (heap.heap_Init_closed (fun h => h ≡ₚ l)); [apply swap_closed_perm|done|done].
Qed.

Lemma push_ok x l : heap_ok l -> ok x -> heap_ok (heap.heap_Push l x) /\ heap.heap_Push l x ≡ₚ x :: l.
Proof.
  intros [Hv Ho] Hx. assert (Hv' : Forall ok (l ++ [x])) by (apply Forall_app; by repeat constructor).
  pose proof (heap.heap_Push_ordered (I := I) (valid := Forall ok) (keys := keys) l x Hv') as HP.
  cbn [heap.Len heap.Push I slice_heap] in HP. rewrite length_app in HP. specialize (HP ltac:(cbn; lia)).
  assert (Hol : heap.ordered (length l) (keys (l ++ [x]))).
  { intros k Hk. specialize (Ho k Hk). pose proof (heap.parent_le k). unfold keys in *. rewrite fmap_app, !lookup_total_app_l by (rewrite length_fmap; lia). done. }
  specialize (HP Hol). rewrite <- (length_app l [x]) in HP.
  destruct (heap.up_loop_closed (length (l ++ [x])) (fun h => h ≡ₚ l ++ [x]) (S (length (l ++ [x]) - 1)) (l ++ [x]) (length (l ++ [x]) - 1))
    as (Hp & Hv2 & HL); [apply swap_closed_perm|done|rewrite length_app; cbn; lia|done|done|].
  unfold heap.heap_Push, heap.up in *. cbn [heap.Len heap.Push I slice_heap] in *.
  split; [split; [done|by rewrite HL]|]. rewrite Hp. by rewrite Permutation_app_comm.
Qed.

Lemma pop_eq (l : list A) : heap.heap_Pop l = heap.Pop (heap.remove_fix l 0).
Proof.
  unfold heap.heap_Pop, heap.remove_fix, heap.down. cbn [heap.Len heap.Swap heap.Pop I slice_heap].
  case_bool_decide as Hn.
  - destruct (heap.down_loop _ _ 0 _) as [h i]. by destruct (negb _).
  - assert (length l - 1 = 0)%nat as -> by lia. cbn. unfold heap.swap. destruct (l !! 0%nat) as [x|] eqn:Hx; [|done].
    by rewrite list_insert_insert_eq, list_insert_id.
Qed.

(** [heap.Remove] returns the element at the index, and keeps the rest. *)
Lemma remove_ok l i x : heap_ok l -> l !! i = Some x ->
  exists l', heap.heap_Remove l i = (l', Some x) /\ heap_ok l' /\ l ≡ₚ x :: l'.
Proof.
  intros [Hv Ho] Hx. pose proof (lookup_lt_Some _ _ _ Hx) as Hi.
  destruct (heap.remove_fix_closed (I := I) (valid := Forall ok) (keys := keys) (fun g => g ≡ₚ l /\ g !! (length l - 1)%nat = Some x) l i) as ([Hp Hlast] & Hv' & HL');
    [|done|done| |].
  { intros g a b _ Hm Ha Hb [Hg Hgx]. cbn [heap.Len heap.Swap I slice_heap] in *. split; [by rewrite swap_perm|].
    rewrite heap.lookup_swap by lia. by rewrite !decide_False by lia. }
  { cbn [heap.Len heap.Swap I slice_heap]. case_bool_decide as Hn.
    - split; [apply swap_perm|]. rewrite heap.lookup_swap by (cbn; lia). by rewrite decide_True.
    - split; [done|]. by assert ((length l - 1)%nat = i) as -> by lia. }
  pose proof (heap.remove_fix_ordered (I := I) (valid := Forall ok) (keys := keys) l i Hv Hi Ho) as Ho'.
  rewrite heap.heap_Remove_eq. set (g := heap.remove_fix l i) in *. clearbody g. cbn [heap.Len heap.Pop I slice_heap] in *.
  unfold pop_last. rewrite HL', Hlast. exists (take (length l - 1) g). split; [done|].
  assert (Hg : take (length l - 1) g ++ [x] = g).
  { rewrite <- (take_S_r g _ _ Hlast). apply take_ge. cbn in *. lia. }
  assert (Hpl : l ≡ₚ x :: take (length l - 1) g).
  { rewrite Permutation_cons_append, Hg. done. }
  split; [|done]. split.
  - rewrite <- Hg in Hv'. by apply Forall_app in Hv' as [? _].
  - intros k Hk. rewrite length_take in Hk. assert (Hk' : (0 < k < length l - 1)%nat) by lia.
    pose proof (heap.parent_lt k ltac:(lia)). specialize (Ho' k Hk').
    unfold keys in *. rewrite !list_lookup_total_alt, !list_lookup_fmap in *. by rewrite !lookup_take_lt by lia.
Qed.

(** [heap.Pop] returns the first element. *)
Lemma slice_pop_ok x l : heap_ok (x :: l) -> exists l', heap.heap_Pop (x :: l) = (l', Some x) /\ heap_ok l' /\ l' ≡ₚ l.
Proof.
  intros Hh. destruct (remove_ok (x :: l) 0 x Hh eq_refl) as (l' & Hr & Hok & Hp). exists l'.
  rewrite pop_eq, <- heap.heap_Remove_eq. split; [done|]. split; [done|]. by apply Permutation_cons_inv in Hp.
Qed.

Lemma slice_fix_root_ok x l y : heap_ok (x :: l) -> ok y ->
  heap_ok (heap.heap_Fix (y :: l) 0) /\ heap.heap_Fix (y :: l) 0 ≡ₚ y :: l.
Proof.
  intros [Hv Ho] Hy. assert (Hv' : Forall ok (y :: l)) by (constructor; [done|by inversion Hv]).
  assert (Hh : heap.hole (length (y :: l)) 0 (keys (y :: l))).
  { split; [|intros; lia]. intros k Hk Hk0 Hpk. specialize (Ho k Hk). destruct k as [|k]; [done|].
    destruct (heap.parent (S k)) as [|p] eqn:Hp; [done|]. done. }
  destruct (heap.heap_Fix_root (I := I) (valid := Forall ok) (keys := keys) (y :: l) Hv' (Nat.lt_0_succ (length l)) Hh) as (Ho' & Hv'' & HL'). cbn [heap.Len I slice_heap] in *.
  split; [split; [done|by rewrite HL']|]. unfold heap.heap_Fix, heap.down.
  destruct (heap.down_loop_closed (I := I) (valid := Forall ok) (keys := keys) (length (y :: l)) (fun h => h ≡ₚ y :: l) (S (length (y :: l))) (y :: l) 0)
    as (Hp & _ & _); [apply swap_closed_perm|done|cbn; lia|done|done|].
  cbn [heap.Len I slice_heap]. destruct (heap.down_loop _ _ 0 _) as [h1 j1]. cbn [fst] in *.
  by destruct (negb _).
Qed.

(** The first element has the smallest key. *)
Lemma head_min x l y : heap_ok (x :: l) -> y ∈ x :: l -> key x <= key y.
Proof.
  intros [_ Ho] [i Hi]%list_elem_of_lookup. rewrite <- (keys_total _ _ _ Hi).
  change (key x) with (keys (x :: l) !!! 0%nat). apply (heap.ordered_min (length (x :: l))); [done|].
  by eapply lookup_lt_Some.
Qed.

(** A slice sorted by its keys is a heap, and so is any prefix of it. *)
Lemma sorted_heap l : Forall ok l -> StronglySorted (fun a b => key a <= key b) l -> heap_ok l.
Proof.
  intros Hv Hs. split; [done|]. intros k Hk. pose proof (heap.parent_lt k ltac:(lia)) as Hp.
  destruct (lookup_lt_is_Some_2 l k) as [b Hb]; [lia|]. destruct (lookup_lt_is_Some_2 l (heap.parent k)) as [a Ha]; [lia|].
  rewrite (keys_total _ _ _ Ha), (keys_total _ _ _ Hb). clear -Hs Ha Hb Hp. revert Ha Hb Hp. generalize (heap.parent k). revert k.
  induction Hs as [|x l Hs IH Hx]; intros k p Ha Hb Hp; [done|]. destruct k as [|k]; [lia|]. cbn in Hb. destruct p as [|p].
  - injection Ha as <-. rewrite Forall_lookup in Hx. eauto.
  - eapply IH; [done|done|lia].
Qed.

End Heap.

(** ** Permutations by counting *)

Section Counting.
Context {A : Type} {dec : EqDecision A}.
Implicit Types (l : list A) (x : A).

Definition occurrences l x : nat := count_occ dec l x.

Lemma occurrences_app l1 l2 x : occurrences (l1 ++ l2) x = (occurrences l1 x + occurrences l2 x)%nat.
Proof. apply count_occ_app. Qed.
Lemma occurrences_cons y l x : occurrences (y :: l) x = (occurrences [y] x + occurrences l x)%nat.
Proof. apply (occurrences_app [y]). Qed.
Lemma occurrences_nil x : occurrences [] x = 0%nat.
Proof. done. Qed.
Lemma perm_occurrences l1 l2 : l1 ≡ₚ l2 <-> forall x, occurrences l1 x = occurrences l2 x.
Proof. apply Permutation_count_occ. Qed.

End Counting.

End slices.

(** Permutations of sums of lists, from the permutations in the context *)
Ltac perm :=
  repeat match goal with H : _ ≡ₚ _ |- _ => rewrite slices.perm_occurrences in H end;
  rewrite slices.perm_occurrences;
  let x := fresh "x" in intros x;
  repeat match goal with H : forall y : _, slices.occurrences _ y = _ |- _ => specialize (H x) end;
  repeat match goal with
  | H : context [slices.occurrences (?y :: ?l) x] |- _ => lazymatch l with [] => fail | _ => rewrite (slices.occurrences_cons y l x) in H end
  | H : context [slices.occurrences (_ ++ _) x] |- _ => rewrite slices.occurrences_app in H
  | H : context [slices.occurrences [] x] |- _ => rewrite slices.occurrences_nil in H
  | |- context [slices.occurrences (?y :: ?l) x] => lazymatch l with [] => fail | _ => rewrite (slices.occurrences_cons y l x) end
  | |- context [slices.occurrences (_ ++ _) x] => rewrite slices.occurrences_app
  | |- context [slices.occurrences [] x] => rewrite slices.occurrences_nil
  end; lia.
