(* ===== verification/Lp176.v ===== *)
(** * The LP-176 fee state machine

    [plugin/evm/upgrade/lp176/lp176.go]: the capacity/excess/target state that
    every block header carries in its [Extra] prefix, its encoding, and the
    operations that move it from the parent block to the child. *)

From S2P Require Import Prelude Deps GoStd.

Module lp176.

Definition LongLen : nat := 8.

Definition MinTargetPerSecond : Z := 1000000.
Definition MaxTargetExcessDiff : Z := Z.shiftl 1 15.
Definition MaxTargetChangeRate : Z := 1024.
Definition TargetConversion : Z := MaxTargetChangeRate * MaxTargetExcessDiff.
Definition MinGasPrice : Z := 1.
Definition TimeToFillCapacity : Z := 5.
Definition TargetToMax : Z := 2.
Definition TargetToPriceUpdateConversion : Z := 87.
Definition TargetToMaxCapacity : Z := TargetToMax * TimeToFillCapacity.
Definition StateSize : nat := 3 * LongLen.
Definition maxTargetExcess : Z := 1024950627.

Definition ErrStateInsufficientLength : error :=
  errors_New "lp176.ErrStateInsufficientLength".

Record State := mkState { Gas : GasState; TargetExcess : Z }.

#[export] Instance State_eq_dec : EqDecision State.
Proof. solve_decision. Defined.

(** The Go zero value [State{}]. *)
Definition State_zero : State :=
  {| Gas := {| Capacity := 0; Excess := 0 |}; TargetExcess := 0 |}.

(** A value of the Go type: three [uint64] fields. *)
Definition is_state (s : State) : Prop := is_gas_state (Gas s) /\ is_u64 (TargetExcess s).

Definition ParseState (bytes : list byte) : result State :=
  if bool_decide (length bytes < StateSize)%nat then
    Err (errorf_w "expected at least %d bytes but got %d bytes" ErrStateInsufficientLength)
  else
    Ok {| Gas := {| Capacity := be_decode (take LongLen bytes);
                    Excess := be_decode (take LongLen (drop LongLen bytes)) |};
          TargetExcess := be_decode (take LongLen (drop (2 * LongLen) bytes)) |}.

(** [State.Bytes] *)
Definition Bytes (s : State) : list byte :=
  be_encode LongLen (Capacity (Gas s)) ++ be_encode LongLen (Excess (Gas s)) ++
  be_encode LongLen (TargetExcess s).

Section Operations.
Context {SM : SafeMath} {GL : GasLib}.

Definition mulWithUpperBound (a b : Z) : Z :=
  match Mul64 a b with
  | Ok product => product
  | _ => MaxUint64
  end.

(** [State.Target] reads only [TargetExcess]. *)
Definition Target (s : State) : Z :=
  CalculatePrice MinTargetPerSecond (TargetExcess s) TargetConversion.

Definition MaxCapacity (s : State) : Z :=
  let targetPerSecond := Target s in
  mulWithUpperBound targetPerSecond TargetToMaxCapacity.

Definition GasPrice (s : State) : Z :=
  let targetPerSecond := Target s in
  let priceUpdateConversion :=
    mulWithUpperBound targetPerSecond TargetToPriceUpdateConversion in
  CalculatePrice MinGasPrice (Excess (Gas s)) priceUpdateConversion.

Definition AdvanceTime (s : State) (seconds : Z) : State :=
  let targetPerSecond := Target s in
  let maxPerSecond := mulWithUpperBound targetPerSecond TargetToMax in
  let maxCapacity := mulWithUpperBound maxPerSecond TimeToFillCapacity in
  {| Gas := Gas_AdvanceTime (Gas s) maxCapacity maxPerSecond targetPerSecond seconds;
     TargetExcess := TargetExcess s |}.

(** On an error the receiver is left as it was; the result is the new receiver. *)
Definition ConsumeGas (s : State) (gasUsed : Z) (extraGasUsed : option Z) : result State :=
  newGas ← Gas_ConsumeGas (Gas s) gasUsed;
  match extraGasUsed with
  | None => Ok {| Gas := newGas; TargetExcess := TargetExcess s |}
  | Some extra =>
      if negb (IsUint64 extra) then
        Err (errorf_w "extraGasUsed (%d) exceeds MaxUint64" ErrInsufficientCapacity)
      else
        newGas' ← Gas_ConsumeGas newGas extra;
        Ok {| Gas := newGas'; TargetExcess := TargetExcess s |}
  end.

Definition targetExcess (excess desired : Z) : Z :=
  let change := AbsDiff excess desired in
  let change := Z.min change MaxTargetExcessDiff in
  if excess <? desired then u64 (excess + change) else u64 (excess - change).

(** 256-bit intermediate values: [Mul] wraps at 2^256, [Div] by zero is zero,
    [Uint64] keeps the low 64 bits. *)
Definition scaleExcess (excess newTargetPerSecond previousTargetPerSecond : Z) : Z :=
  let bigExcess := (excess * newTargetPerSecond) mod 2 ^ 256 in
  let bigExcess :=
    if previousTargetPerSecond =? 0 then 0 else bigExcess / previousTargetPerSecond in
  u64 bigExcess.

Definition UpdateTargetExcess (s : State) (desiredTargetExcess : Z) : State :=
  let previousTargetPerSecond := Target s in
  let s1 := {| Gas := Gas s;
               TargetExcess := targetExcess (TargetExcess s) desiredTargetExcess |} in
  let newTargetPerSecond := Target s1 in
  let newExcess :=
    scaleExcess (Excess (Gas s1)) newTargetPerSecond previousTargetPerSecond in
  let newMaxCapacity := mulWithUpperBound newTargetPerSecond TargetToMaxCapacity in
  {| Gas := {| Capacity := Z.min (Capacity (Gas s1)) newMaxCapacity; Excess := newExcess |};
     TargetExcess := TargetExcess s1 |}.

(** [None] only if the binary search ran out of fuel. *)
Definition DesiredTargetExcess (desiredTarget : Z) : option Z :=
  sort.Search maxTargetExcess (fun targetExcessGuess =>
    let state := {| Gas := {| Capacity := 0; Excess := 0 |};
                    TargetExcess := targetExcessGuess |} in
    desiredTarget <=? Target state).

End Operations.

(** ** Encoding *)

Lemma length_Bytes s : length (Bytes s) = StateSize.
Proof. unfold Bytes. rewrite !length_app, !length_be_encode. done. Qed.

Lemma ParseState_Bytes_app s rest : is_state s -> ParseState (Bytes s ++ rest) = Ok s.
Proof.
  intros [[Hc He] Ht]. unfold ParseState.
  rewrite bool_decide_eq_false_2 by (rewrite length_app, length_Bytes; lia).
  unfold Bytes. rewrite <- !app_assoc. unfold LongLen.
  rewrite take_app_length' by (by rewrite length_be_encode).
  rewrite drop_app_length' by (by rewrite length_be_encode).
  rewrite take_app_length' by (by rewrite length_be_encode).
  rewrite app_assoc, drop_app_length' by (by rewrite length_app, !length_be_encode).
  rewrite take_app_length' by (by rewrite length_be_encode).
  rewrite !be_decode_encode by (change (256 ^ Z.of_nat 8) with (2 ^ 64); done).
  by destruct s as [[]].
Qed.

Lemma ParseState_inv bytes s :
  ParseState bytes = Ok s ->
  is_state s /\ bytes = Bytes s ++ drop StateSize bytes /\ (StateSize <= length bytes)%nat.
Proof.
  unfold ParseState. case_bool_decide as Hl; intros H; inv_result.
  unfold StateSize, LongLen in *.
  assert (Hlen : forall k, (k <= 16)%nat -> length (take 8 (drop k bytes)) = 8%nat)
    by (intros; rewrite length_take, length_drop; lia).
  pose proof (Hlen 0%nat ltac:(lia)) as H0. rewrite drop_0 in H0.
  split; [|split; [|lia]].
  - split; [split|]; simpl; auto using is_u64_be_decode, Hlen with lia.
  - unfold Bytes, LongLen. cbn [Gas Capacity Excess TargetExcess].
    change (2 * 8)%nat with 16%nat. change (3 * 8)%nat with 24%nat.
    rewrite !be_encode_decode' by (auto; apply Hlen; lia).
    rewrite <- !app_assoc.
    replace (drop 24 bytes) with (drop 8 (drop 16 bytes)) by (by rewrite drop_drop).
    rewrite (take_drop 8 (drop 16 bytes)).
    replace (drop 16 bytes) with (drop 8 (drop 8 bytes)) by (by rewrite drop_drop).
    by rewrite !take_drop.
Qed.

Lemma ParseState_short bytes :
  (length bytes < StateSize)%nat ->
  exists e, ParseState bytes = Err e /\ errors_Is e ErrStateInsufficientLength = true.
Proof.
  intros Hl. unfold ParseState. rewrite bool_decide_eq_true_2 by done.
  eexists. split; [reflexivity|]. auto with coreth.
Qed.

(** ** Behaviour of the operations *)

Section Laws.
Context {SM : SafeMath} {GL : GasLib} {SMs : SafeMathSpec SM} {GLs : GasLibSpec GL}.

Lemma mulWithUpperBound_spec a b :
  is_u64 a -> is_u64 b -> mulWithUpperBound a b = Z.min MaxUint64 (a * b).
Proof. apply Mul64_saturates. Qed.

Lemma mulWithUpperBound_u64 a b :
  is_u64 a -> is_u64 b -> is_u64 (mulWithUpperBound a b).
Proof. intros Ha Hb. rewrite mulWithUpperBound_spec by done. unfold is_u64, MaxUint64 in *. nia. Qed.

Lemma Target_u64 s : is_u64 (TargetExcess s) -> is_u64 (Target s).
Proof. intros Hs. apply CalculatePrice_u64; [closed_u64|done|closed_u64|done]. Qed.

Lemma Target_min s : is_u64 (TargetExcess s) -> MinTargetPerSecond <= Target s.
Proof.
  intros Hs. unfold Target.
  rewrite <- (CalculatePrice_zero MinTargetPerSecond TargetConversion) at 1
    by (closed_u64 || done).
  apply CalculatePrice_mono; [closed_u64|closed_u64|done|closed_u64|done|apply Hs].
Qed.

Lemma Target_mono s1 s2 :
  is_u64 (TargetExcess s1) -> is_u64 (TargetExcess s2) ->
  TargetExcess s1 <= TargetExcess s2 -> Target s1 <= Target s2.
Proof.
  intros H1 H2 Hle. apply CalculatePrice_mono; [closed_u64|done|done|closed_u64|done|done].
Qed.

Lemma MaxCapacity_spec s :
  is_u64 (TargetExcess s) ->
  MaxCapacity s = Z.min MaxUint64 (Target s * TargetToMaxCapacity).
Proof.
  intros Hs. unfold MaxCapacity. apply mulWithUpperBound_spec; [by apply Target_u64|closed_u64].
Qed.

Lemma MaxCapacity_u64 s : is_u64 (TargetExcess s) -> is_u64 (MaxCapacity s).
Proof.
  intros Hs. apply mulWithUpperBound_u64; [by apply Target_u64|closed_u64].
Qed.

(** The gas price conversion constant is positive. *)
Lemma priceUpdateConversion_pos s :
  is_u64 (TargetExcess s) ->
  is_u64 (mulWithUpperBound (Target s) TargetToPriceUpdateConversion) /\
  0 < mulWithUpperBound (Target s) TargetToPriceUpdateConversion.
Proof.
  intros Ht. pose proof (Target_u64 s Ht) as HT. pose proof (Target_min s Ht) as Hmin.
  split; [apply mulWithUpperBound_u64; [done|closed_u64]|].
  rewrite mulWithUpperBound_spec by (done || closed_u64).
  unfold MinTargetPerSecond, TargetToPriceUpdateConversion, MaxUint64 in *. lia.
Qed.

Lemma GasPrice_mono s1 s2 :
  is_state s1 -> is_state s2 -> TargetExcess s1 = TargetExcess s2 ->
  Excess (Gas s1) <= Excess (Gas s2) -> GasPrice s1 <= GasPrice s2.
Proof.
  intros [[_ He1] Ht1] [[_ He2] Ht2] Heq Hle. unfold GasPrice, Target. rewrite Heq.
  destruct (priceUpdateConversion_pos s2 Ht2). apply CalculatePrice_mono; done || closed_u64.
Qed.

Lemma GasPrice_bounds s : is_state s -> MinGasPrice <= GasPrice s <= MaxUint64.
Proof.
  intros [[Hc He] Ht]. unfold GasPrice.
  destruct (priceUpdateConversion_pos s Ht) as [HK Hpos].
  set (K := mulWithUpperBound (Target s) TargetToPriceUpdateConversion) in *.
  assert (is_u64 MinGasPrice) by closed_u64.
  pose proof (CalculatePrice_u64 MinGasPrice (Excess (Gas s)) K) as Hu.
  pose proof (CalculatePrice_mono MinGasPrice 0 (Excess (Gas s)) K) as Hm.
  rewrite CalculatePrice_zero in Hm by done.
  split; [apply Hm; u64_lia|]. unfold MaxUint64. destruct Hu; auto; lia.
Qed.

(** The two-step bound of [AdvanceTime] is [MaxCapacity]. *)
Lemma AdvanceTime_maxCapacity s :
  is_u64 (TargetExcess s) ->
  mulWithUpperBound (mulWithUpperBound (Target s) TargetToMax) TimeToFillCapacity =
  MaxCapacity s.
Proof.
  intros Hs. pose proof (Target_u64 s Hs) as HT.
  rewrite MaxCapacity_spec by done.
  rewrite (mulWithUpperBound_spec (Target s)) by (done || closed_u64).
  rewrite mulWithUpperBound_spec; [|unfold TargetToMax; u64_lia|closed_u64].
  unfold TargetToMaxCapacity, TargetToMax, TimeToFillCapacity. u64_lia.
Qed.

Lemma AdvanceTime_eq s seconds :
  is_state s -> is_u64 seconds ->
  AdvanceTime s seconds =
  {| Gas := {| Capacity :=
                 Z.min (MaxCapacity s)
                   (Capacity (Gas s) + Z.min MaxUint64 (Target s * TargetToMax) * seconds);
               Excess := Z.max 0 (Excess (Gas s) - Target s * seconds) |};
     TargetExcess := TargetExcess s |}.
Proof.
  intros [Hg Ht] Hsec. pose proof (Target_u64 s Ht) as HT. unfold AdvanceTime.
  rewrite AdvanceTime_maxCapacity by done.
  rewrite (mulWithUpperBound_spec (Target s)) by (done || closed_u64).
  rewrite Gas_AdvanceTime_ok; auto using MaxCapacity_u64.
  unfold TargetToMax. u64_lia.
Qed.

Lemma is_state_AdvanceTime s seconds :
  is_state s -> is_u64 seconds -> is_state (AdvanceTime s seconds).
Proof.
  intros Hs Hsec. rewrite AdvanceTime_eq by done. destruct Hs as [[Hc He] Ht].
  pose proof (Target_u64 s Ht) as HT. pose proof (MaxCapacity_u64 s Ht) as HM.
  split; [split|done]; simpl; unfold is_u64, MaxUint64, TargetToMax in *; nia.
Qed.

(** The value [extraGasUsed] contributes, [nil] being none. *)
Definition extra_gas (extraGasUsed : option Z) : Z := default 0 extraGasUsed.

Lemma ConsumeGas_success s gasUsed extra :
  is_state s -> is_u64 gasUsed -> 0 <= extra_gas extra ->
  gasUsed + extra_gas extra <= Capacity (Gas s) ->
  ConsumeGas s gasUsed extra =
  Ok {| Gas := {| Capacity := Capacity (Gas s) - (gasUsed + extra_gas extra);
                  Excess := Z.min MaxUint64 (Excess (Gas s) + (gasUsed + extra_gas extra)) |};
        TargetExcess := TargetExcess s |}.
Proof.
  intros [[Hc He] Ht] Hg Hx Hle. unfold ConsumeGas.
  rewrite Gas_ConsumeGas_ok; [|done|done|u64_lia]. simpl.
  destruct extra as [x|]; simpl in *.
  - rewrite IsUint64_true by u64_lia. simpl.
    rewrite Gas_ConsumeGas_ok; [|split; simpl; u64_lia|u64_lia|simpl; u64_lia].
    simpl. do 3 f_equal; u64_lia.
  - do 3 f_equal; u64_lia.
Qed.

Lemma ConsumeGas_failure s gasUsed extra :
  is_state s -> is_u64 gasUsed ->
  (extra_gas extra < 0 \/ Capacity (Gas s) < gasUsed + extra_gas extra) ->
  exists e, ConsumeGas s gasUsed extra = Err e /\
            errors_Is e ErrInsufficientCapacity = true.
Proof.
  intros [[Hc He] Ht] Hg Hbad. unfold ConsumeGas.
  destruct (Z.le_gt_cases gasUsed (Capacity (Gas s))) as [Hle|Hgt].
  - rewrite Gas_ConsumeGas_ok by done. simpl.
    destruct extra as [x|]; simpl in *; [|u64_lia].
    destruct (IsUint64 x) eqn:Ex; simpl.
    + apply IsUint64_spec in Ex.
      destruct (Gas_ConsumeGas_insufficient
        {| Capacity := Capacity (Gas s) - gasUsed;
           Excess := Z.min MaxUint64 (Excess (Gas s) + gasUsed) |} x) as (e & -> & Hise);
        [split; simpl; u64_lia|done|simpl; u64_lia|].
      simpl. eauto.
    + eexists. split; [reflexivity|]. auto with coreth.
  - destruct (Gas_ConsumeGas_insufficient (Gas s) gasUsed) as (e & -> & Hise); try done.
    simpl. eauto.
Qed.

Lemma is_state_ConsumeGas s gasUsed extra s' :
  is_state s -> is_u64 gasUsed -> ConsumeGas s gasUsed extra = Ok s' ->
  is_state s' /\ 0 <= extra_gas extra /\
  gasUsed + extra_gas extra <= Capacity (Gas s) /\ TargetExcess s' = TargetExcess s.
Proof.
  intros Hs Hg Hok.
  destruct (decide (0 <= extra_gas extra /\ gasUsed + extra_gas extra <= Capacity (Gas s)))
    as [[Hx Hle]|Hno].
  - rewrite ConsumeGas_success in Hok by done. inv_result.
    destruct Hs as [[Hc He] Ht]. repeat split; simpl; u64_lia.
  - destruct (ConsumeGas_failure s gasUsed extra) as (e & He & _); try done; [lia|].
    congruence.
Qed.

Lemma targetExcess_spec excess desired :
  is_u64 excess -> is_u64 desired ->
  targetExcess excess desired =
  Z.max (excess - MaxTargetExcessDiff) (Z.min (excess + MaxTargetExcessDiff) desired).
Proof.
  intros He Hd. unfold targetExcess. rewrite AbsDiff_ok by done.
  change MaxTargetExcessDiff with 32768. case_test; rewrite u64_small; u64_lia.
Qed.

Lemma targetExcess_u64 excess desired :
  is_u64 excess -> is_u64 desired -> is_u64 (targetExcess excess desired).
Proof.
  intros He Hd. rewrite targetExcess_spec by done.
  change MaxTargetExcessDiff with 32768. u64_lia.
Qed.

Lemma targetExcess_idemp excess desired :
  is_u64 excess -> is_u64 desired ->
  targetExcess excess (targetExcess excess desired) = targetExcess excess desired.
Proof.
  intros He Hd. rewrite (targetExcess_spec excess (targetExcess _ _)) by
    auto using targetExcess_u64.
  rewrite targetExcess_spec by done. change MaxTargetExcessDiff with 32768. lia.
Qed.

Lemma scaleExcess_eq excess new prev :
  is_u64 excess -> is_u64 new -> 0 < prev ->
  scaleExcess excess new prev = u64 (excess * new / prev).
Proof.
  intros He Hn Hp. unfold scaleExcess. rewrite (Z.mod_small (excess * new)).
  - case_test; [lia|done].
  - unfold is_u64 in *. change (2 ^ 256) with (2 ^ 64 * 2 ^ 64 * 2 ^ 128). nia.
Qed.

Lemma is_state_UpdateTargetExcess s desired :
  is_state s -> is_u64 desired -> is_state (UpdateTargetExcess s desired).
Proof.
  intros [[Hc He] Ht] Hd. pose proof (targetExcess_u64 _ _ Ht Hd) as Ht'.
  split; [split|]; simpl; [|apply is_u64_mod|done].
  apply is_u64_min; [done|]. apply mulWithUpperBound_u64; [|closed_u64].
  by apply (Target_u64 {| Gas := Gas s; TargetExcess := _ |}).
Qed.

Lemma AdvanceTime_Target s seconds : Target (AdvanceTime s seconds) = Target s.
Proof. done. Qed.

Lemma Target_TargetExcess s1 s2 : TargetExcess s1 = TargetExcess s2 -> Target s1 = Target s2.
Proof. unfold Target. by intros ->. Qed.

Lemma MaxCapacity_TargetExcess s1 s2 :
  TargetExcess s1 = TargetExcess s2 -> MaxCapacity s1 = MaxCapacity s2.
Proof. unfold MaxCapacity, Target. by intros ->. Qed.

Lemma Target_monotone_on desiredTarget :
  sort.monotone_on maxTargetExcess (fun q =>
    desiredTarget <=? Target {| Gas := {| Capacity := 0; Excess := 0 |}; TargetExcess := q |}).
Proof.
  intros x y Hx Hxy Hy Hf. apply Z.leb_le in Hf. apply Z.leb_le.
  etransitivity; [exact Hf|]. change maxTargetExcess with 1024950627 in Hy.
  apply Target_mono; simpl; u64_lia.
Qed.

(** ** Properties *)

(** [ParseState] is the inverse of [State.Bytes], padding allowed: the bytes
    that parse to a state are exactly those that start with its encoding, and the
    only failure is an input shorter than [StateSize]. *)
Theorem ParseState_Bytes_inverse (bytes : list byte) :
  (forall s, is_state s ->
     (ParseState bytes = Ok s <-> exists rest, bytes = Bytes s ++ rest)) /\
  (forall s, ParseState bytes = Ok s -> is_state s) /\
  ((exists e, ParseState bytes = Err e /\ errors_Is e ErrStateInsufficientLength = true) <->
   (length bytes < StateSize)%nat).
Proof.
  split; [|split].
  - intros s Hs. split.
    + intros Hp. apply ParseState_inv in Hp as (_ & Heq & _). eauto.
    + intros [rest ->]. by apply ParseState_Bytes_app.
  - intros s Hp. by apply ParseState_inv in Hp as [? _].
  - split; [|apply ParseState_short]. intros (e & He & _).
    unfold ParseState in He. by case_bool_decide.
Qed.

(** [ConsumeGas] succeeds exactly when the whole amount (block gas plus the
    external-data gas, which must be a [uint64]) fits in the capacity; it then
    moves that amount from the capacity to the saturating excess and keeps the
    target; otherwise it reports insufficient capacity. *)
Theorem ConsumeGas_exact (s : State) (gasUsed : Z) (extra : option Z)
    (Hs : is_state s) (Hg : is_u64 gasUsed) :
  let total := gasUsed + extra_gas extra in
  (0 <= extra_gas extra /\ total <= Capacity (Gas s) ->
   ConsumeGas s gasUsed extra =
   Ok {| Gas := {| Capacity := Capacity (Gas s) - total;
                   Excess := Z.min MaxUint64 (Excess (Gas s) + total) |};
         TargetExcess := TargetExcess s |}) /\
  (extra_gas extra < 0 \/ Capacity (Gas s) < total ->
   exists e, ConsumeGas s gasUsed extra = Err e /\
             errors_Is e ErrInsufficientCapacity = true).
Proof.
  split.
  - intros [Hx Hle]. by apply ConsumeGas_success.
  - by apply ConsumeGas_failure.
Qed.

(** Advancing time in two steps is advancing it once by the sum; the capacity
    never exceeds [MaxCapacity], the excess never grows and the target is fixed. *)
Theorem AdvanceTime_additive (s : State) (a b : Z)
    (Hs : is_state s) (Ha : is_u64 a) (Hb : is_u64 b) (Hab : is_u64 (a + b)) :
  AdvanceTime (AdvanceTime s a) b = AdvanceTime s (a + b) /\
  Capacity (Gas (AdvanceTime s a)) <= MaxCapacity s /\
  Excess (Gas (AdvanceTime s a)) <= Excess (Gas s) /\
  Target (AdvanceTime s a) = Target s /\ is_state (AdvanceTime s a).
Proof.
  pose proof (is_state_AdvanceTime s a Hs Ha) as Hs'.
  destruct (Hs) as [[Hc He] Ht].
  pose proof (Target_u64 s Ht) as HT. pose proof (MaxCapacity_u64 s Ht) as HM.
  rewrite (AdvanceTime_eq s (a + b)), (AdvanceTime_eq (AdvanceTime s a) b) by done.
  rewrite (MaxCapacity_TargetExcess (AdvanceTime s a) s), AdvanceTime_Target by done.
  rewrite !(AdvanceTime_eq s a) in * by done. simpl in *.
  unfold TargetToMax, is_u64, MaxUint64 in *.
  set (R := Z.min (2 ^ 64 - 1) (Target s * 2)) in *.
  rewrite !Z.mul_add_distr_l.
  assert (0 <= R * a /\ 0 <= R * b) as [? ?] by (split; apply Z.mul_nonneg_nonneg; lia).
  assert (0 <= Target s * a /\ 0 <= Target s * b) as [? ?]
    by (split; apply Z.mul_nonneg_nonneg; lia).
  split; [do 2 f_equal; lia|]. repeat split; try apply Hs'; lia.
Qed.

(** [UpdateTargetExcess] moves the target excess toward the desired value by
    at most [MaxTargetExcessDiff], reaches it exactly when it is that close, and
    leaves a well-formed state whose capacity is within the new [MaxCapacity]. *)
Theorem UpdateTargetExcess_step (s : State) (desired : Z)
    (Hs : is_state s) (Hd : is_u64 desired) :
  let s' := UpdateTargetExcess s desired in
  let q := TargetExcess s in
  let q' := TargetExcess s' in
  is_state s' /\ Z.abs (q' - q) <= MaxTargetExcessDiff /\
  Z.abs (q' - q) + Z.abs (desired - q') = Z.abs (desired - q) /\
  (q' = desired <-> Z.abs (desired - q) <= MaxTargetExcessDiff) /\
  Capacity (Gas s') = Z.min (Capacity (Gas s)) (MaxCapacity s').
Proof.
  intros s' q q'. pose proof (is_state_UpdateTargetExcess s desired Hs Hd) as Hs'.
  destruct Hs as [_ Ht].
  assert (Hq : q' = targetExcess q desired) by done.
  rewrite targetExcess_spec in Hq by done. change MaxTargetExcessDiff with 32768 in *.
  split; [done|]. repeat split; try lia.
Qed.

(** Repeating [UpdateTargetExcess] with the same desired value reaches it,
    within one step per [MaxTargetExcessDiff] of distance. *)
Theorem UpdateTargetExcess_converges (n : nat) (s : State) (desired : Z)
    (Hs : is_state s) (Hd : is_u64 desired)
    (Hn : Z.abs (desired - TargetExcess s) <= Z.of_nat n * MaxTargetExcessDiff) :
  TargetExcess (Nat.iter n (fun st => UpdateTargetExcess st desired) s) = desired.
Proof.
  enough (Hgen : forall m, (m <= n)%nat ->
    let st := Nat.iter m (fun st => UpdateTargetExcess st desired) s in
    is_state st /\
    Z.abs (desired - TargetExcess st) <= Z.of_nat (n - m) * MaxTargetExcessDiff).
  { destruct (Hgen n ltac:(done)) as [_ Hle]. rewrite Nat.sub_diag in Hle. lia. }
  induction m as [|m IH]; intros Hm; cbn zeta.
  - rewrite Nat.sub_0_r. done.
  - destruct (IH ltac:(lia)) as [Hst Hle]. rewrite Nat.iter_succ.
    set (st := Nat.iter m _ s) in *. clearbody st.
    split; [by apply is_state_UpdateTargetExcess|].
    cbn [UpdateTargetExcess TargetExcess]. destruct Hst as [_ Ht].
    rewrite targetExcess_spec by done. change MaxTargetExcessDiff with 32768 in *.
    replace (n - m)%nat with (S (n - S m)) in Hle by lia. lia.
Qed.

(** [DesiredTargetExcess] terminates and returns the smallest target excess
    whose target reaches the desired one (the search bound if none does). *)
Theorem DesiredTargetExcess_least (desiredTarget : Z) :
  exists q, DesiredTargetExcess desiredTarget = Some q /\ 0 <= q <= maxTargetExcess /\
    (forall g k, 0 <= k < q ->
       Target {| Gas := g; TargetExcess := k |} < desiredTarget) /\
    (forall g k, q <= k < maxTargetExcess ->
       desiredTarget <= Target {| Gas := g; TargetExcess := k |}).
Proof.
  destruct (sort.Search_spec maxTargetExcess _ ltac:(vm_compute; split; congruence)
              (Target_monotone_on desiredTarget)) as (q & Hq & Hb & Hlo & Hhi).
  exists q. split; [exact Hq|]. split; [done|].
  split; intros g k Hk.
  - apply Hlo in Hk. apply Z.leb_gt in Hk. exact Hk.
  - apply Hhi in Hk. apply Z.leb_le in Hk. exact Hk.
Qed.

(** When the scaled value fits in a [uint64], [UpdateTargetExcess] scales the
    excess by the ratio of the targets, rounded down, which is what keeps
    [Excess / Target], hence the price, constant. *)
Theorem UpdateTargetExcess_scales (s : State) (desired : Z)
    (Hs : is_state s) (Hd : is_u64 desired) :
  let s' := UpdateTargetExcess s desired in
  Excess (Gas s) * Target s' < 2 ^ 64 * Target s ->
  Excess (Gas s') * Target s <= Excess (Gas s) * Target s' <
  (Excess (Gas s') + 1) * Target s.
Proof.
  intros s' Hfit. destruct (Hs) as [[Hc He] Ht].
  pose proof (is_state_UpdateTargetExcess s desired Hs Hd) as [_ Ht'].
  pose proof (Target_u64 _ Ht') as HT'. pose proof (Target_min s Ht) as Hmin.
  change MinTargetPerSecond with 1000000 in Hmin.
  change (Excess (Gas s')) with (scaleExcess (Excess (Gas s)) (Target s') (Target s)).
  rewrite scaleExcess_eq by (done || lia). fold s' in HT'.
  assert (Hpos : 0 < Target s) by lia.
  pose proof (Z.mul_div_le (Excess (Gas s) * Target s') _ Hpos).
  pose proof (Z.mul_succ_div_gt (Excess (Gas s) * Target s') _ Hpos).
  rewrite u64_small; [lia|]. unfold is_u64 in *.
  split; [apply Z.div_pos; nia|]. apply Z.div_lt_upper_bound; lia.
Qed.

(** The scaled excess is truncated to 64 bits, not saturated: raising the
    target (by less than a factor of two) when the scaled value exceeds
    [MaxUint64] makes the excess drop, by nearly [2^64], although the target
    grows. *)
Theorem UpdateTargetExcess_truncates (s : State) (desired : Z)
    (Hs : is_state s) (Hd : is_u64 desired) :
  let s' := UpdateTargetExcess s desired in
  Target s' < 2 * Target s ->
  2 ^ 64 * Target s <= Excess (Gas s) * Target s' ->
  Excess (Gas s') = Excess (Gas s) * Target s' / Target s - 2 ^ 64 /\
  Excess (Gas s') < Excess (Gas s).
Proof.
  intros s' H2 Hbig. destruct (Hs) as [[Hc He] Ht].
  pose proof (is_state_UpdateTargetExcess s desired Hs Hd) as [_ Ht'].
  pose proof (Target_u64 _ Ht') as HT'. pose proof (Target_min s Ht) as Hmin.
  change MinTargetPerSecond with 1000000 in Hmin. fold s' in HT'.
  change (Excess (Gas s')) with (scaleExcess (Excess (Gas s)) (Target s') (Target s)).
  rewrite scaleExcess_eq by (done || lia).
  set (X := Excess (Gas s) * Target s' / Target s).
  assert (2 ^ 64 <= X) by (apply Z.div_le_lower_bound; lia).
  assert (X < 2 * Excess (Gas s) + 1).
  { apply Z.div_lt_upper_bound; [lia|]. unfold is_u64 in *. nia. }
  assert (Heq : u64 X = X - 2 ^ 64).
  { symmetry. apply (Z.mod_unique_pos X (2 ^ 64) 1 (X - 2 ^ 64)); [|lia].
    unfold is_u64 in *. lia. }
  rewrite Heq. split; [done|]. unfold is_u64 in *. lia.
Qed.

End Laws.

(** ** Witnesses *)

Module Witness.
Import Concrete.

Definition st : State :=
  {| Gas := {| Capacity := 8000000; Excess := 300000000 |}; TargetExcess := 40000 |}.

(** A state whose excess is saturated. *)
Definition st_max : State :=
  {| Gas := {| Capacity := 8000000; Excess := MaxUint64 |}; TargetExcess := 0 |}.

Lemma st_ok : is_state st.
Proof. repeat split; closed_u64. Defined.

Lemma st_max_ok : is_state st_max.
Proof. repeat split; closed_u64. Defined.

Lemma ConsumeGas_exact_witness :
  ConsumeGas st 21000 (Some 10000) =
    Ok {| Gas := {| Capacity := 7969000; Excess := 300031000 |}; TargetExcess := 40000 |} /\
  (exists e, ConsumeGas st 7999999 (Some 2) = Err e /\
             errors_Is e ErrInsufficientCapacity = true).
Proof.
  split.
  - apply (ConsumeGas_exact st 21000 (Some 10000) st_ok); [closed_u64|].
    split; vm_compute; congruence.
  - apply (ConsumeGas_exact st 7999999 (Some 2) st_ok); [closed_u64|].
    right. vm_compute. congruence.
Defined.

Lemma AdvanceTime_additive_witness :
  AdvanceTime (AdvanceTime st 1) 2 = AdvanceTime st 3.
Proof. apply (AdvanceTime_additive st 1 2 st_ok); closed_u64. Defined.

Lemma UpdateTargetExcess_step_witness :
  is_state (UpdateTargetExcess st 100000) /\
  TargetExcess (UpdateTargetExcess st 100000) = 72768.
Proof.
  split; [|reflexivity].
  apply (UpdateTargetExcess_step st 100000 st_ok). closed_u64.
Defined.

Lemma UpdateTargetExcess_converges_witness :
  TargetExcess (Nat.iter 2 (fun s => UpdateTargetExcess s 100000) st) = 100000.
Proof.
  apply (UpdateTargetExcess_converges 2 st 100000 st_ok); [closed_u64|].
  vm_compute. congruence.
Defined.

Lemma DesiredTargetExcess_least_witness :
  DesiredTargetExcess 1500000 = Some 16777216 /\
  exists q, DesiredTargetExcess 1500000 = Some q /\ 0 <= q <= maxTargetExcess.
Proof.
  split; [vm_compute; reflexivity|].
  destruct (DesiredTargetExcess_least 1500000) as (q & Hq & Hb & _).
  exists q. exact (conj Hq Hb).
Defined.

Lemma UpdateTargetExcess_scales_witness :
  let s' := UpdateTargetExcess st 72768 in
  Excess (Gas s') * Target st <= Excess (Gas st) * Target s' <
  (Excess (Gas s') + 1) * Target st.
Proof.
  apply (UpdateTargetExcess_scales st 72768 st_ok); [closed_u64|]. vm_compute. congruence.
Defined.

Lemma UpdateTargetExcess_truncates_witness :
  Excess (Gas (UpdateTargetExcess st_max 32768)) < Excess (Gas st_max).
Proof.
  apply (UpdateTargetExcess_truncates st_max 32768 st_max_ok);
    [closed_u64|vm_compute; congruence|vm_compute; congruence].
Defined.

End Witness.
End lp176.
