(* ===== verification/Fees.v ===== *)
(** * Fee windows, block gas cost and blob gas pricing

    [plugin/evm/upgrade/dynamicfee/window.go] (the ten-second gas window),
    [plugin/evm/upgrade/blockgascost/cost.go] (the block gas cost update) and
    [consensus/misc/eip4844/eip4844.go] (excess blob gas and its price). *)

From S2P Require Import Prelude Deps.

(** ** The gas window *)

Module dynamicfee.

Definition LongLen : nat := 8.
Definition WindowLen : nat := 10.
Definition WindowSize : nat := LongLen * WindowLen.

Definition ErrWindowInsufficientLength : error :=
  errors_New "dynamicfee.ErrWindowInsufficientLength".

(** [type Window [WindowLen]uint64]: a list of [WindowLen] words. *)
Definition Window : Type := list Z.
Definition is_window (w : list Z) : Prop := length w = WindowLen /\ Forall is_u64 w.
Definition Window_zero : list Z := replicate WindowLen 0.

Definition ParseWindow (bytes : list byte) : result (list Z) :=
  if bool_decide (length bytes < WindowSize)%nat then
    Err (errorf_w "expected at least %d bytes but got %d bytes" ErrWindowInsufficientLength)
  else
    Ok ((fun i => let offset := (i * LongLen)%nat in
                  be_decode (take LongLen (drop offset bytes))) <$> seq 0 WindowLen).

(** [Window.Bytes]: the entries are written side by side. *)
Definition Window_Bytes (w : list Z) : list byte := w ≫= be_encode LongLen.

(** [Window.Shift] *)
Definition Shift (w : list Z) (n : Z) : list Z :=
  if Z.of_nat WindowLen <=? n then Window_zero
  else drop (Z.to_nat n) w ++ replicate (Z.to_nat n) 0.

Section Sums.
Context {SM : SafeMath}.

Fixpoint add (sum : Z) (values : list Z) : Z :=
  match values with
  | [] => sum
  | v :: values =>
      let '(sum, overflow) := SafeAdd sum v in
      if (overflow : bool) then MaxUint64 else add sum values
  end.

(** [Window.Add] *)
Definition Add (w : list Z) (amounts : list Z) : list Z :=
  let lastIndex := (WindowLen - 1)%nat in
  <[lastIndex := add (w !!! lastIndex) amounts]> w.

(** [Window.Sum] *)
Definition Sum (w : list Z) : Z := add 0 w.

End Sums.

Definition sumZ (l : list Z) : Z := foldr Z.add 0 l.

Lemma sumZ_app l1 l2 : sumZ (l1 ++ l2) = sumZ l1 + sumZ l2.
Proof. unfold sumZ. induction l1; simpl; lia. Qed.

Lemma sumZ_replicate_0 n : sumZ (replicate n 0) = 0.
Proof. unfold sumZ. induction n; simpl; lia. Qed.

Lemma sumZ_nonneg l : Forall is_u64 l -> 0 <= sumZ l.
Proof. unfold sumZ. induction 1; simpl; u64_lia. Qed.

Lemma add_spec {SM : SafeMath} {SMs : SafeMathSpec SM} values sum :
  is_u64 sum -> Forall is_u64 values -> add sum values = Z.min MaxUint64 (sum + sumZ values).
Proof.
  intros Hs Hv. revert sum Hs. induction Hv as [|v values Hv0 Hv IH]; intros sum Hs.
  - simpl. u64_lia.
  - cbn [add]. pose proof (sumZ_nonneg values Hv).
    change (sumZ (v :: values)) with (v + sumZ values).
    destruct (Z.le_gt_cases (sum + v) MaxUint64).
    + rewrite SafeAdd_ok by done. rewrite IH by u64_lia. lia.
    + pose proof (SafeAdd_overflow sum v Hs Hv0 ltac:(lia)) as Ho.
      destruct (SafeAdd sum v) as [r o]. simpl in Ho. rewrite Ho. lia.
Qed.

Definition decode_words (n : nat) (bytes : list byte) : list Z :=
  (fun i => be_decode (take LongLen (drop (i * LongLen) bytes))) <$> seq 0 n.

Lemma decode_words_S n bytes :
  decode_words (S n) bytes = be_decode (take LongLen bytes) :: decode_words n (drop LongLen bytes).
Proof.
  unfold decode_words. cbn [seq]. rewrite fmap_cons. f_equal.
  rewrite <- fmap_S_seq, <- list_fmap_compose. apply list_fmap_ext. intros i j _.
  unfold compose. do 2 f_equal. rewrite drop_drop. f_equal.
Qed.

Lemma decode_words_encode w rest :
  Forall is_u64 w -> decode_words (length w) ((w ≫= be_encode LongLen) ++ rest) = w.
Proof.
  induction 1 as [|v w Hv Hw IH]; [done|]. cbn [length]. rewrite decode_words_S.
  rewrite bind_cons, <- app_assoc.
  rewrite take_app_length', drop_app_length' by (by rewrite length_be_encode).
  rewrite IH, be_decode_encode by exact Hv. done.
Qed.

Lemma encode_decode_words n bytes :
  (n * LongLen <= length bytes)%nat ->
  (decode_words n bytes ≫= be_encode LongLen) = take (n * LongLen) bytes /\
  length (decode_words n bytes) = n /\ Forall is_u64 (decode_words n bytes).
Proof.
  revert bytes. induction n as [|n IH]; intros bytes Hlen.
  - rewrite take_0. repeat split; constructor.
  - rewrite decode_words_S. unfold LongLen in *.
    destruct (IH (drop 8 bytes)) as (IH1 & IH2 & IH3); [rewrite length_drop; lia|].
    assert (length (take 8 bytes) = 8%nat) by (rewrite length_take; lia).
    split; [|split; [cbn [length]; by rewrite IH2|constructor; [by apply is_u64_be_decode|done]]].
    rewrite bind_cons, IH1, be_encode_decode' by done.
    change (S n * 8)%nat with (8 + n * 8)%nat. by rewrite take_take_drop.
Qed.

Lemma length_Window_Bytes w : length w = WindowLen -> length (Window_Bytes w) = WindowSize.
Proof.
  unfold Window_Bytes, WindowSize. intros <-. induction w as [|v w IH]; [done|].
  rewrite bind_cons, length_app, length_be_encode, IH. simpl. lia.
Qed.

Lemma Shift_small w n :
  length w = WindowLen -> 0 <= n ->
  Shift w n = drop (Z.to_nat n) w ++ replicate (Nat.min WindowLen (Z.to_nat n)) 0.
Proof.
  intros Hw Hn. unfold Shift. case_test.
  - rewrite drop_ge by lia. rewrite Nat.min_l by lia. done.
  - rewrite Nat.min_r by lia. done.
Qed.

Lemma length_Shift w n : length w = WindowLen -> 0 <= n -> length (Shift w n) = WindowLen.
Proof.
  intros Hw Hn. rewrite Shift_small by done.
  rewrite length_app, length_drop, length_replicate. lia.
Qed.

(** The gas window and its encoding are inverse to each other: a window
    parses back from its bytes, trailing bytes allowed, and what [ParseWindow]
    returns on a long enough input is a window whose bytes it read. *)
Theorem ParseWindow_Bytes_inverse (bytes : list byte) :
  (forall w rest, is_window w -> ParseWindow (Window_Bytes w ++ rest) = Ok w) /\
  (forall w, ParseWindow bytes = Ok w ->
     is_window w /\ bytes = Window_Bytes w ++ drop WindowSize bytes) /\
  (is_Ok (ParseWindow bytes) = true <-> (WindowSize <= length bytes)%nat).
Proof.
  split; [|split].
  - intros w rest [Hl Hw]. unfold ParseWindow.
    rewrite bool_decide_eq_false_2 by (rewrite length_app, length_Window_Bytes by done; lia).
    f_equal. rewrite <- Hl. by apply decode_words_encode.
  - intros w Hp. unfold ParseWindow in Hp. case_bool_decide; inv_result.
    destruct (encode_decode_words WindowLen bytes) as (H1 & H2 & H3); [unfold WindowSize in *; lia|].
    split; [done|]. rewrite <- (take_drop WindowSize bytes) at 1. f_equal. symmetry. exact H1.
  - unfold ParseWindow. case_bool_decide; simpl; (split; [|lia]); done || lia.
Qed.

(** [Shift] drops the oldest entries: shifting twice is shifting by the sum,
    and the (saturating) sum after a shift counts exactly the entries that remain. *)
Theorem Shift_Sum (SM : SafeMath) (SMs : SafeMathSpec SM) (w : list Z) (a b : Z)
    (Hw : is_window w) (Ha : 0 <= a) (Hb : 0 <= b) :
  Shift (Shift w a) b = Shift w (a + b) /\ is_window (Shift w a) /\
  Sum (Shift w a) = Z.min MaxUint64 (sumZ (drop (Z.to_nat a) w)).
Proof.
  destruct Hw as [Hl Hw]. pose proof (length_Shift w a Hl Ha) as Hl'.
  assert (HF : Forall is_u64 (Shift w a)).
  { rewrite Shift_small by done. apply Forall_app; split; [by apply Forall_drop|].
    apply Forall_replicate. closed_u64. }
  split; [|split; [done|]].
  - rewrite (Shift_small _ b), !(Shift_small w) by (done || lia).
    rewrite drop_app, length_drop, drop_drop, <- app_assoc. f_equal; [f_equal; lia|].
    rewrite drop_replicate, <- replicate_add. f_equal. rewrite Hl. lia.
  - unfold Sum. rewrite add_spec by (done || closed_u64). f_equal.
    rewrite Shift_small by done. rewrite sumZ_app, sumZ_replicate_0. lia.
Qed.

Lemma Shift_Sum_witness :
  let w := [1; 2; 3; 4; 5; 6; 7; 8; 9; 10] in
  Shift (Shift w 3) 4 = Shift w 7 /\ @Sum Concrete.safemath (Shift w 3) = 49.
Proof.
  split; [|reflexivity].
  apply (Shift_Sum Concrete.safemath Concrete.safemath_spec [1; 2; 3; 4; 5; 6; 7; 8; 9; 10] 3 4);
    [|lia|lia].
  split; [reflexivity|]. repeat constructor; closed_u64.
Defined.

End dynamicfee.

(** ** The block gas cost *)

Module blockgascost.

Definition MinBlockGasCost : Z := 0.
Definition MaxBlockGasCost : Z := 1000000.
Definition TargetBlockRate : Z := 2.

Definition BlockGasCost {SM : SafeMath} (parentCost step timeElapsed : Z) : Z :=
  let deviation := AbsDiff TargetBlockRate timeElapsed in
  let change := match Mul64 step deviation with Ok c => c | _ => MaxUint64 end in
  let '(costR, defaultCost) :=
    if TargetBlockRate <? timeElapsed
    then (Sub64 parentCost change, MinBlockGasCost)
    else (Add64 parentCost change, MaxBlockGasCost) in
  let cost := match costR with Ok c => c | _ => defaultCost end in
  if cost <? MinBlockGasCost then MinBlockGasCost
  else if MaxBlockGasCost <? cost then MaxBlockGasCost
  else cost.

(** Despite its machine-width intermediate values, [BlockGasCost] is the
    documented formula over unbounded integers,
    [parentCost + step * (TargetBlockRate - timeElapsed)], clamped to
    [[MinBlockGasCost, MaxBlockGasCost]], for every input. *)
Theorem BlockGasCost_formula (SM : SafeMath) (SMs : SafeMathSpec SM)
    (parentCost step timeElapsed : Z)
    (Hp : is_u64 parentCost) (Hs : is_u64 step) (Ht : is_u64 timeElapsed) :
  BlockGasCost parentCost step timeElapsed =
  Z.max MinBlockGasCost
    (Z.min MaxBlockGasCost (parentCost + step * (TargetBlockRate - timeElapsed))).
Proof.
  unfold BlockGasCost. rewrite AbsDiff_ok by (done || closed_u64).
  unfold MinBlockGasCost, MaxBlockGasCost, TargetBlockRate in *.
  rewrite Mul64_saturates by u64_lia.
  set (c := Z.min MaxUint64 (step * Z.abs (2 - timeElapsed))).
  assert (Hc : is_u64 c) by (unfold c, is_u64, MaxUint64 in *; nia).
  destruct (Z.ltb_spec 2 timeElapsed).
  - replace (step * (2 - timeElapsed)) with (- (step * Z.abs (2 - timeElapsed)))
      by (rewrite Z.abs_neq by lia; lia).
    destruct (Z.le_gt_cases c parentCost).
    + rewrite Sub64_ok by done. repeat case_test; unfold c in *; u64_lia.
    + destruct (is_Err_spec (Sub64 parentCost c)) as [He _].
      destruct He as [e ->]; [by apply Sub64_underflow|].
      repeat case_test; unfold c in *; u64_lia.
  - replace (step * (2 - timeElapsed)) with (step * Z.abs (2 - timeElapsed))
      by (rewrite Z.abs_eq by lia; lia).
    assert (0 <= step * Z.abs (2 - timeElapsed)) by (unfold is_u64 in *; nia).
    destruct (Z.le_gt_cases (parentCost + c) MaxUint64).
    + rewrite Add64_ok by done. repeat case_test; unfold c in *; u64_lia.
    + destruct (is_Err_spec (Add64 parentCost c)) as [He _].
      destruct He as [e ->]; [by apply Add64_overflow|].
      repeat case_test; unfold c in *; u64_lia.
Qed.

Lemma BlockGasCost_formula_witness :
  @BlockGasCost Concrete.safemath 500000 50000 5 = 350000 /\
  @BlockGasCost Concrete.safemath MaxUint64 MaxUint64 MaxUint64 = 0.
Proof.
  split.
  - apply (BlockGasCost_formula Concrete.safemath Concrete.safemath_spec 500000 50000 5);
      closed_u64.
  - apply (BlockGasCost_formula Concrete.safemath Concrete.safemath_spec
             MaxUint64 MaxUint64 MaxUint64); closed_u64.
Defined.

End blockgascost.

(** ** Blob gas *)

Module eip4844.

Definition BlobTxBlobGasPerBlob : Z := Z.shiftl 1 17.
Definition BlobTxMinBlobGasprice : Z := 1.
Definition BlobTxBlobGaspriceUpdateFraction : Z := 3338477.
Definition BlobTxTargetBlobGasPerBlock : Z := 3 * BlobTxBlobGasPerBlob.
Definition MaxBlobGasPerBlock : Z := 6 * BlobTxBlobGasPerBlob.

(** The sum is a [uint64] sum and wraps around. *)
Definition CalcExcessBlobGas (parentExcessBlobGas parentBlobGasUsed : Z) : Z :=
  let excessBlobGas := u64 (parentExcessBlobGas + parentBlobGasUsed) in
  if excessBlobGas <? BlobTxTargetBlobGasPerBlock then 0
  else u64 (excessBlobGas - BlobTxTargetBlobGasPerBlock).

(** The loop [for i := 1; accum.Sign() > 0; i++]; [None] is an exhausted fuel. *)
Fixpoint fakeExponential_loop (fuel : nat) (numerator denominator i output accum : Z)
    : option Z :=
  if 0 <? accum then
    match fuel with
    | O => None
    | S fuel' =>
        let output := output + accum in
        let accum := accum * numerator in
        let accum := accum / denominator in
        let accum := accum / i in
        fakeExponential_loop fuel' numerator denominator (i + 1) output accum
    end
  else Some output.

Definition fakeExponential (fuel : nat) (factor numerator denominator : Z) : option Z :=
  let output := 0 in
  let accum := factor * denominator in
  output ← fakeExponential_loop fuel numerator denominator 1 output accum;
  Some (output / denominator).

Definition CalcBlobFee (fuel : nat) (excessBlobGas : Z) : option Z :=
  fakeExponential fuel BlobTxMinBlobGasprice excessBlobGas BlobTxBlobGaspriceUpdateFraction.

(** The terms of the expansion: the accumulator before iteration [k + 1]. *)
Fixpoint taylor_term (factor numerator denominator : Z) (k : nat) : Z :=
  match k with
  | O => factor * denominator
  | S k' =>
      taylor_term factor numerator denominator k' * numerator / denominator / Z.of_nat (S k')
  end.

Definition taylor_sum (factor numerator denominator : Z) (n : nat) : Z :=
  foldr Z.add 0 (taylor_term factor numerator denominator <$> seq 0 n).

Section Taylor.
Variables factor numerator denominator : Z.
Hypothesis Hf : 0 <= factor.
Hypothesis Hn : 0 <= numerator.
Hypothesis Hd : 0 < denominator.

Abbreviation term := (taylor_term factor numerator denominator).

Lemma taylor_term_S k : term (S k) = term k * numerator / denominator / Z.of_nat (S k).
Proof. done. Qed.

Lemma taylor_term_nonneg k : 0 <= term k.
Proof.
  induction k as [|k IH]; [simpl; nia|]. rewrite taylor_term_S.
  apply Z.div_pos; [apply Z.div_pos; nia|lia].
Qed.

(** Past [numerator / denominator] the terms decrease strictly to zero. *)
Lemma taylor_term_decr k :
  numerator < denominator * Z.of_nat (S k) -> 0 < term k -> term (S k) < term k.
Proof.
  intros Hk Hpos. rewrite taylor_term_S, Z.div_div by lia.
  apply Z.div_lt_upper_bound; nia.
Qed.

Lemma taylor_term_vanishes : exists n, term n = 0 /\ forall k, (k < n)%nat -> 0 < term k.
Proof.
  set (K := Z.to_nat (numerator / denominator)).
  assert (HK : forall k, (K <= k)%nat -> numerator < denominator * Z.of_nat (S k)).
  { intros k Hk. pose proof (Z.mul_succ_div_gt numerator denominator Hd).
    pose proof (Z.div_pos numerator denominator Hn Hd). unfold K in *. nia. }
  assert (Hzero : exists m, term m = 0).
  { enough (Hgen : forall a k, (K <= k)%nat -> term k <= Z.of_nat a -> exists m, term m = 0).
    { apply (Hgen (Z.to_nat (term K)) K); [done|]. pose proof (taylor_term_nonneg K). lia. }
    induction a as [|a IH]; intros k Hk Ha; pose proof (taylor_term_nonneg k).
    - exists k. lia.
    - destruct (decide (term k = 0)) as [?|Hne]; [by exists k|].
      apply (IH (S k)); [lia|]. pose proof (taylor_term_decr k (HK k Hk)). lia. }
  destruct Hzero as [m Hm]. clear K HK. induction m as [m IH] using lt_wf_ind.
  destruct (decide (Exists (fun k => term k = 0) (seq 0 m))) as [Hex|Hno].
  - apply Exists_exists in Hex as (k & Hk & Hk0). apply List.in_seq in Hk.
    apply (IH k); [lia|done].
  - exists m. split; [done|]. intros k Hk. pose proof (taylor_term_nonneg k).
    destruct (decide (term k = 0)) as [H0|]; [|lia]. exfalso. apply Hno.
    apply Exists_exists. exists k. split; [apply List.in_seq; lia|done].
Qed.

Lemma fakeExponential_loop_sum n fuel k output :
  term n = 0 -> (forall j, (j < n)%nat -> 0 < term j) -> (k <= n)%nat -> (n - k <= fuel)%nat ->
  fakeExponential_loop fuel numerator denominator (Z.of_nat (S k)) output (term k) =
  Some (output + foldr Z.add 0 (term <$> seq k (n - k))).
Proof.
  intros Hz Hpos. revert k output. induction fuel as [|fuel IH]; intros k output Hk Hfuel;
    cbn [fakeExponential_loop].
  - replace k with n by lia. rewrite Hz, Nat.sub_diag. simpl. f_equal. lia.
  - destruct (decide (k = n)) as [->|Hne].
    + rewrite Hz, Nat.sub_diag. simpl. f_equal. lia.
    + pose proof (Hpos k ltac:(lia)). destruct (Z.ltb_spec 0 (term k)); [|lia].
      replace (Z.of_nat (S k) + 1) with (Z.of_nat (S (S k))) by lia.
      rewrite <- taylor_term_S, IH by lia.
      replace (n - k)%nat with (S (n - S k)) by lia. cbn [seq]. rewrite fmap_cons.
      cbn [foldr]. f_equal. lia.
Qed.

End Taylor.

(** The blob-fee approximation terminates: its accumulator reaches zero
    after finitely many iterations, and with at least that much fuel the loop
    returns the sum of the integer Taylor terms divided by the denominator. *)
Theorem fakeExponential_terminates (factor numerator denominator : Z)
    (Hf : 0 <= factor) (Hn : 0 <= numerator) (Hd : 0 < denominator) :
  exists n, taylor_term factor numerator denominator n = 0 /\
    forall fuel, (n <= fuel)%nat ->
      fakeExponential fuel factor numerator denominator =
      Some (taylor_sum factor numerator denominator n / denominator).
Proof.
  destruct (taylor_term_vanishes factor numerator denominator Hf Hn Hd) as (n & Hz & Hpos).
  exists n. split; [done|]. intros fuel Hfuel. unfold fakeExponential.
  change (factor * denominator) with (taylor_term factor numerator denominator 0).
  change 1 with (Z.of_nat (S 0)).
  rewrite (fakeExponential_loop_sum factor numerator denominator n fuel 0 0) by (done || lia).
  rewrite Nat.sub_0_r. done.
Qed.

Lemma fakeExponential_terminates_witness :
  (exists n, forall fuel, (n <= fuel)%nat ->
     fakeExponential fuel 1 10000000 3338477 =
     Some (taylor_sum 1 10000000 3338477 n / 3338477)) /\
  CalcBlobFee 64 10000000 = Some 19.
Proof.
  split; [|vm_compute; reflexivity].
  destruct (fakeExponential_terminates 1 10000000 3338477) as (n & _ & H); [lia..|].
  by exists n.
Defined.

(** Without a 64-bit overflow of the sum, [CalcExcessBlobGas] is the excess over
    the per-block target, floored at zero. *)
Lemma CalcExcessBlobGas_spec (parentExcess parentUsed : Z)
    (He : 0 <= parentExcess) (Hu : 0 <= parentUsed)
    (Hfit : parentExcess + parentUsed < 2 ^ 64) :
  CalcExcessBlobGas parentExcess parentUsed =
  Z.max 0 (parentExcess + parentUsed - BlobTxTargetBlobGasPerBlock).
Proof.
  unfold CalcExcessBlobGas. change BlobTxTargetBlobGasPerBlock with 393216.
  rewrite (u64_small (parentExcess + _)) by u64_lia.
  case_test; [lia|]. rewrite u64_small by u64_lia. lia.
Qed.

End eip4844.
