(* ===== verification/CustomTypes.v ===== *)
(** * Block headers and their Lux fields

    [plugin/evm/customtypes]: the header record, the side table that attaches
    [HeaderExtra] values to header hashes ([extras.go]), the accessors of the
    extra fields ([block_ext.go], [header_ext.go]), and the serialisable form.

    The side table stores pointers: [GetHeaderExtra] hands out the stored object,
    and a caller that writes through it changes what later lookups see.  The
    model keeps the objects in a heap and the table as a map from hashes to heap
    locations. *)

From S2P Require Import Prelude.

(** ** geth's [types.Header], the fields the repository uses *)

Module types.

Record Header := mkHeader {
  ParentHash : Hash;
  UncleHash : Hash;
  Coinbase : Address;
  Root : Hash;
  TxHash : Hash;
  ReceiptHash : Hash;
  Bloom : list byte;
  Difficulty : option Z;
  Number : Z;
  GasLimit : Z;
  GasUsed : Z;
  Time : Z;
  Extra : list byte;
  MixDigest : Hash;
  Nonce : list byte;
  BaseFee : option Z;
  BlobGasUsed : option Z;
  ExcessBlobGas : option Z;
  ParentBeaconRoot : option Hash;
  (* the Lux fork's native fields *)
  ExtDataHash : option Hash;
  ExtDataGasUsed : option Z;
  BlockGasCost : option Z
}.

#[export] Instance Header_eq_dec : EqDecision Header.
Proof. solve_decision. Defined.

Definition set_Extra (h : Header) (x : list byte) : Header :=
  let '(mkHeader a b c d e f g i j k l m _ o p q r s t u v w) := h in
  mkHeader a b c d e f g i j k l m x o p q r s t u v w.
Definition set_Root (h : Header) (x : Hash) : Header :=
  let '(mkHeader a b c _ e f g i j k l m n o p q r s t u v w) := h in
  mkHeader a b c x e f g i j k l m n o p q r s t u v w.
Definition set_Difficulty (h : Header) (x : option Z) : Header :=
  let '(mkHeader a b c d e f g _ j k l m n o p q r s t u v w) := h in
  mkHeader a b c d e f g x j k l m n o p q r s t u v w.
Definition set_ExtDataHash (h : Header) (x : option Hash) : Header :=
  let '(mkHeader a b c d e f g i j k l m n o p q r s t _ v w) := h in
  mkHeader a b c d e f g i j k l m n o p q r s t x v w.
Definition set_ExtDataGasUsed (h : Header) (x : option Z) : Header :=
  let '(mkHeader a b c d e f g i j k l m n o p q r s t u _ w) := h in
  mkHeader a b c d e f g i j k l m n o p q r s t u x w.
Definition set_BlockGasCost (h : Header) (x : option Z) : Header :=
  let '(mkHeader a b c d e f g i j k l m n o p q r s t u v _) := h in
  mkHeader a b c d e f g i j k l m n o p q r s t u v x.

End types.
Export types (Header).

(** ** [HeaderExtra] and [BlockBodyExtra] *)

Record HeaderExtra := mkHeaderExtra {
  HE_ExtDataHash : Hash;
  HE_ExtDataGasUsed : option Z;
  HE_BlockGasCost : option Z
}.

Record BlockBodyExtra := mkBlockBodyExtra { BE_Version : Z; BE_ExtData : option (list byte) }.

#[global] Instance HeaderExtra_eq_dec : EqDecision HeaderExtra.
Proof. solve_decision. Defined.

(** The zero values [HeaderExtra{}] and [BlockBodyExtra{}]. *)
Definition HeaderExtra_zero : HeaderExtra := mkHeaderExtra Hash_zero None None.
Definition BlockBodyExtra_zero : BlockBodyExtra := mkBlockBodyExtra 0 None.

(** ** The side tables

    [headerExtras] maps header hashes to objects of the heap; [blockExtras] maps
    block identities to their extra.  [es_next] is the next free location. *)

Record ExtrasStore := mkStore {
  es_heap : gmap positive HeaderExtra;
  headerExtras : gmap Hash positive;
  blockExtras : gmap positive BlockBodyExtra;
  es_next : positive
}.

(** Code that reads and writes the side tables and can fail. *)
Abbreviation ExtM := (StM ExtrasStore).

Section Extras.
(** [types.Header.Hash] of the geth fork. *)
Context (Header_Hash : Header -> Hash).

Definition headerKey (h : Header) : Hash := Header_Hash h.

(** Allocates an object, [&HeaderExtra{...}]. *)
Definition new_extra (extra : HeaderExtra) (st : ExtrasStore) : positive * ExtrasStore :=
  (es_next st,
   mkStore (<[es_next st := extra]> (es_heap st)) (headerExtras st) (blockExtras st)
     (Pos.succ (es_next st))).

(** [headerExtras.Store(key, extra)] for an object already in the heap. *)
Definition store_extra (key : Hash) (l : positive) (st : ExtrasStore) : ExtrasStore :=
  mkStore (es_heap st) (<[key := l]> (headerExtras st)) (blockExtras st) (es_next st).

(** The value behind a pointer. *)
Definition deref (st : ExtrasStore) (l : positive) : HeaderExtra :=
  default HeaderExtra_zero (es_heap st !! l).

(** A write through a pointer. *)
Definition write_extra (l : positive) (extra : HeaderExtra) (st : ExtrasStore) : ExtrasStore :=
  mkStore (<[l := extra]> (es_heap st)) (headerExtras st) (blockExtras st) (es_next st).

(** The extra built from the native fields when the table has no entry. *)
Definition native_extra (h : Header) : HeaderExtra :=
  {| HE_ExtDataHash := default Hash_zero (types.ExtDataHash h);
     HE_ExtDataGasUsed := types.ExtDataGasUsed h;
     HE_BlockGasCost := types.BlockGasCost h |}.

(** [extras.Header.Get]: the stored object, or a new one derived from the native
    fields, which is cached under the header's hash. *)
Definition extras_Header_Get (h : Header) (st : ExtrasStore) : positive * ExtrasStore :=
  let key := headerKey h in
  match headerExtras st !! key with
  | Some l => (l, st)
  | None =>
      let '(l, st) := new_extra (native_extra h) st in
      (l, store_extra key l st)
  end.

(** [extras.Header.Set] *)
Definition extras_Header_Set (h : Header) (l : positive) (st : ExtrasStore) : ExtrasStore :=
  let key := headerKey h in store_extra key l st.

Definition GetHeaderExtra (h : Header) : ExtM positive := fun st =>
  let '(l, st) := extras_Header_Get h st in (Ok l, st).

Definition SetHeaderExtra (h : Header) (l : positive) : ExtM unit := fun st =>
  (Ok tt, extras_Header_Set h l st).

Definition WithHeaderExtra (h : Header) (l : positive) : ExtM Header :=
  _ ← SetHeaderExtra h l; mret h.

(** Reading the object behind a pointer. *)
Definition load (l : positive) : ExtM HeaderExtra := fun st => (Ok (deref st l), st).

Definition store (l : positive) (extra : HeaderExtra) : ExtM unit := fun st =>
  (Ok tt, write_extra l extra st).

(** [HeaderExtra.PostCopy]: a fresh copy attached to [dst]. *)
Definition PostCopy (h : positive) (dst : Header) : ExtM unit := fun st =>
  let src := deref st h in
  let '(cp, st) := new_extra {| HE_ExtDataHash := HE_ExtDataHash src;
                                HE_ExtDataGasUsed := HE_ExtDataGasUsed src;
                                HE_BlockGasCost := HE_BlockGasCost src |} st in
  (Ok tt, extras_Header_Set dst cp st).

(** What a lookup sees, without its caching. *)
Definition extra_of (st : ExtrasStore) (h : Header) : HeaderExtra :=
  match headerExtras st !! headerKey h with
  | Some l => deref st l
  | None => native_extra h
  end.

(** Every table entry points into the heap, and the heap is below [es_next]. *)
Definition store_wf (st : ExtrasStore) : Prop :=
  (forall k l, headerExtras st !! k = Some l -> is_Some (es_heap st !! l)) /\
  (forall l, is_Some (es_heap st !! l) -> (l < es_next st)%positive).

End Extras.

(** ** Blocks

    [types.NewBlock] belongs to geth: it copies the header and fills in the
    transaction, receipt and uncle roots and the bloom filter.  A block is a Go
    pointer, so it has an identity, by which the side table finds its extra. *)

Record Body (Transaction : Type) := mkBody {
  Transactions : list Transaction;
  Uncles : list Header
}.
Arguments mkBody {Transaction}.
Arguments Transactions {Transaction}.
Arguments Uncles {Transaction}.

Record Block (Transaction : Type) := mkBlock {
  block_id : positive;
  block_Header : Header;
  block_Transactions : list Transaction;
  block_Uncles : list Header
}.
Arguments mkBlock {Transaction}.
Arguments block_id {Transaction}.
Arguments block_Header {Transaction}.
Arguments block_Transactions {Transaction}.
Arguments block_Uncles {Transaction}.

Section Blocks.
Context {Transaction Receipt : Type}.
Context (Header_Hash : Header -> Hash).
(** keccak of the RLP encoding of a byte string *)
Context (rlpHash : list byte -> Hash).
(** the header [types.NewBlock] derives from its arguments *)
Context (NewBlock_header : Header -> Body Transaction -> list Receipt -> Header).

Definition EmptyExtDataHash : Hash := rlpHash [].

Definition CalcExtDataHash (extdata : list byte) : Hash :=
  if bool_decide (length extdata = 0%nat) then EmptyExtDataHash else rlpHash extdata.

(** [extras.Block.Get] and [extras.Block.Set] *)
Definition extras_Block_Get (b : Block Transaction) (st : ExtrasStore) : BlockBodyExtra :=
  default BlockBodyExtra_zero (blockExtras st !! block_id b).

Definition extras_Block_Set (b : Block Transaction) (extra : BlockBodyExtra)
    (st : ExtrasStore) : ExtrasStore :=
  mkStore (es_heap st) (headerExtras st) (<[block_id b := extra]> (blockExtras st)) (es_next st).

Definition SetBlockExtra (b : Block Transaction) (extra : BlockBodyExtra) : ExtM unit :=
  fun st => (Ok tt, extras_Block_Set b extra st).

Definition BlockExtData (b : Block Transaction) : ExtM (option (list byte)) := fun st =>
  (Ok (BE_ExtData (extras_Block_Get b st)), st).

Definition GetBlockVersion (b : Block Transaction) : ExtM Z := fun st =>
  (Ok (BE_Version (extras_Block_Get b st)), st).

Definition BlockExtDataGasUsed (b : Block Transaction) : ExtM (option Z) :=
  l ← GetHeaderExtra Header_Hash (block_Header b);
  extra ← load l;
  mret (HE_ExtDataGasUsed extra).

Definition block_BlockGasCost (b : Block Transaction) : ExtM (option Z) :=
  l ← GetHeaderExtra Header_Hash (block_Header b);
  extra ← load l;
  mret (HE_BlockGasCost extra).

(** The header the caller passed is modified in place; the result is that header
    and the new block. *)
Definition NewBlockWithExtData (header : Header) (txs : list Transaction)
    (uncles : list Header) (receipts : list Receipt) (extdata : list byte) (recalc : bool)
    : ExtM (Header * Block Transaction) :=
  l ← GetHeaderExtra Header_Hash header;
  origExtra ← load l;
  let extDataHash :=
    if recalc then CalcExtDataHash extdata else HE_ExtDataHash origExtra in
  let header :=
    if bool_decide (extDataHash <> Hash_zero)
    then types.set_ExtDataHash header (Some extDataHash) else header in
  let header :=
    match HE_ExtDataGasUsed origExtra with
    | Some used => types.set_ExtDataGasUsed header (Some used)
    | None => header
    end in
  let header :=
    match HE_BlockGasCost origExtra with
    | Some cost => types.set_BlockGasCost header (Some cost)
    | None => header
    end in
  let body := {| Transactions := txs; Uncles := uncles |} in
  ((fun st =>
    let block := {| block_id := es_next st;
                    block_Header := NewBlock_header header body receipts;
                    block_Transactions := txs;
                    block_Uncles := uncles |} in
    let st := mkStore (es_heap st) (headerExtras st) (blockExtras st) (Pos.succ (es_next st)) in
    let '(le, st) :=
      new_extra {| HE_ExtDataHash := extDataHash;
                   HE_ExtDataGasUsed := HE_ExtDataGasUsed origExtra;
                   HE_BlockGasCost := HE_BlockGasCost origExtra |} st in
    let st := extras_Header_Set Header_Hash (block_Header block) le st in
    let st := extras_Block_Set block {| BE_Version := 0; BE_ExtData := Some extdata |} st in
    (Ok (header, block), st)) : ExtM (Header * Block Transaction)).

End Blocks.

(** ** The serialisable header

    [HeaderSerializable] merges geth's header with the extra fields; it is what
    is encoded on the wire. *)

Record HeaderSerializable := mkHeaderSerializable {
  HS_ParentHash : Hash;
  HS_UncleHash : Hash;
  HS_Coinbase : Address;
  HS_Root : Hash;
  HS_TxHash : Hash;
  HS_ReceiptHash : Hash;
  HS_Bloom : list byte;
  HS_Difficulty : option Z;
  HS_Number : Z;
  HS_GasLimit : Z;
  HS_GasUsed : Z;
  HS_Time : Z;
  HS_Extra : list byte;
  HS_MixDigest : Hash;
  HS_Nonce : list byte;
  HS_ExtDataHash : Hash;
  HS_BaseFee : option Z;
  HS_ExtDataGasUsed : option Z;
  HS_BlockGasCost : option Z;
  HS_BlobGasUsed : option Z;
  HS_ExcessBlobGas : option Z;
  HS_ParentBeaconRoot : option Hash
}.

Definition HeaderSerializable_zero : HeaderSerializable :=
  mkHeaderSerializable Hash_zero Hash_zero (replicate 20 Byte.x00) Hash_zero Hash_zero
    Hash_zero (replicate 256 Byte.x00) None 0 0 0 0 [] Hash_zero (replicate 8 Byte.x00)
    Hash_zero None None None None None None.

Definition updateFromEth (h : HeaderSerializable) (eth : Header) : HeaderSerializable := {|
  HS_ParentHash := types.ParentHash eth;
  HS_UncleHash := types.UncleHash eth;
  HS_Coinbase := types.Coinbase eth;
  HS_Root := types.Root eth;
  HS_TxHash := types.TxHash eth;
  HS_ReceiptHash := types.ReceiptHash eth;
  HS_Bloom := types.Bloom eth;
  HS_Difficulty := types.Difficulty eth;
  HS_Number := types.Number eth;
  HS_GasLimit := types.GasLimit eth;
  HS_GasUsed := types.GasUsed eth;
  HS_Time := types.Time eth;
  HS_Extra := types.Extra eth;
  HS_MixDigest := types.MixDigest eth;
  HS_Nonce := types.Nonce eth;
  HS_ExtDataHash := HS_ExtDataHash h;
  HS_BaseFee := types.BaseFee eth;
  HS_ExtDataGasUsed := HS_ExtDataGasUsed h;
  HS_BlockGasCost := HS_BlockGasCost h;
  HS_BlobGasUsed := types.BlobGasUsed eth;
  HS_ExcessBlobGas := types.ExcessBlobGas eth;
  HS_ParentBeaconRoot := types.ParentBeaconRoot eth
|}.

Definition updateToEth (h : HeaderSerializable) (eth : Header) : Header := {|
  types.ParentHash := HS_ParentHash h;
  types.UncleHash := HS_UncleHash h;
  types.Coinbase := HS_Coinbase h;
  types.Root := HS_Root h;
  types.TxHash := HS_TxHash h;
  types.ReceiptHash := HS_ReceiptHash h;
  types.Bloom := HS_Bloom h;
  types.Difficulty := HS_Difficulty h;
  types.Number := HS_Number h;
  types.GasLimit := HS_GasLimit h;
  types.GasUsed := HS_GasUsed h;
  types.Time := HS_Time h;
  types.Extra := HS_Extra h;
  types.MixDigest := HS_MixDigest h;
  types.Nonce := HS_Nonce h;
  types.BaseFee := HS_BaseFee h;
  types.BlobGasUsed := HS_BlobGasUsed h;
  types.ExcessBlobGas := HS_ExcessBlobGas h;
  types.ParentBeaconRoot := HS_ParentBeaconRoot h;
  types.ExtDataHash := types.ExtDataHash eth;
  types.ExtDataGasUsed := types.ExtDataGasUsed eth;
  types.BlockGasCost := types.BlockGasCost eth
|}.

Definition updateFromExtras (h : HeaderSerializable) (extras : HeaderExtra)
    : HeaderSerializable := {|
  HS_ParentHash := HS_ParentHash h;
  HS_UncleHash := HS_UncleHash h;
  HS_Coinbase := HS_Coinbase h;
  HS_Root := HS_Root h;
  HS_TxHash := HS_TxHash h;
  HS_ReceiptHash := HS_ReceiptHash h;
  HS_Bloom := HS_Bloom h;
  HS_Difficulty := HS_Difficulty h;
  HS_Number := HS_Number h;
  HS_GasLimit := HS_GasLimit h;
  HS_GasUsed := HS_GasUsed h;
  HS_Time := HS_Time h;
  HS_Extra := HS_Extra h;
  HS_MixDigest := HS_MixDigest h;
  HS_Nonce := HS_Nonce h;
  HS_ExtDataHash := HE_ExtDataHash extras;
  HS_BaseFee := HS_BaseFee h;
  HS_ExtDataGasUsed := HE_ExtDataGasUsed extras;
  HS_BlockGasCost := HE_BlockGasCost extras;
  HS_BlobGasUsed := HS_BlobGasUsed h;
  HS_ExcessBlobGas := HS_ExcessBlobGas h;
  HS_ParentBeaconRoot := HS_ParentBeaconRoot h
|}.

Definition updateToExtras (h : HeaderSerializable) : HeaderExtra := {|
  HE_ExtDataHash := HS_ExtDataHash h;
  HE_ExtDataGasUsed := HS_ExtDataGasUsed h;
  HE_BlockGasCost := HS_BlockGasCost h
|}.

Section HeaderRLP.
(** [rlp.Encode] and [rlp.Stream.Decode] at the type [HeaderSerializable]. *)
Context (rlp_Encode : HeaderSerializable -> result (list byte)).
Context (rlp_Decode : list byte -> result HeaderSerializable).

(** [HeaderExtra.EncodeRLP] *)
Definition HeaderExtra_EncodeRLP (h : HeaderExtra) (eth : Header) : result (list byte) :=
  let temp := HeaderSerializable_zero in
  let temp := updateFromEth temp eth in
  let temp := updateFromExtras temp h in
  rlp_Encode temp.

(** [HeaderExtra.DecodeRLP] into [eth] and the receiver. *)
Definition HeaderExtra_DecodeRLP (eth : Header) (stream : list byte)
    : result (Header * HeaderExtra) :=
  temp ← rlp_Decode stream;
  Ok (updateToEth temp eth, updateToExtras temp).

End HeaderRLP.

(** ** Laws of the side table *)

Section StoreLaws.
Context (Header_Hash : Header -> Hash).
Implicit Types st : ExtrasStore.

Lemma new_extra_wf extra st l st' :
  store_wf st -> new_extra extra st = (l, st') ->
  store_wf st' /\ deref st' l = extra /\ headerExtras st' = headerExtras st /\
  es_heap st !! l = None /\
  (forall l', l' <> l -> deref st' l' = deref st l').
Proof.
  intros [Hidx Hheap] [= <- <-]. unfold store_wf, deref; simpl.
  assert (Hfresh : es_heap st !! es_next st = None).
  { destruct (es_heap st !! es_next st) eqn:E; [|done].
    assert (es_next st < es_next st)%positive by (apply Hheap; eauto). lia. }
  split; [split|].
  - intros k l Hk. destruct (decide (l = es_next st)) as [->|Hne].
    + rewrite lookup_insert_eq. eauto.
    + rewrite lookup_insert_ne by done. eauto.
  - intros l Hl. destruct (decide (l = es_next st)) as [->|Hne]; [lia|].
    rewrite lookup_insert_ne in Hl by done. apply Hheap in Hl. lia.
  - rewrite lookup_insert_eq. split; [done|]. split; [done|]. split; [done|].
    intros l' Hne. by rewrite lookup_insert_ne.
Qed.

Lemma store_extra_wf key l st :
  store_wf st -> is_Some (es_heap st !! l) -> store_wf (store_extra key l st).
Proof.
  intros [Hidx Hheap] Hl. split; simpl; [|done]. intros k l' Hk.
  destruct (decide (k = key)) as [->|Hne].
  - rewrite lookup_insert_eq in Hk. by injection Hk as <-.
  - rewrite lookup_insert_ne in Hk by done. eauto.
Qed.

Lemma write_extra_wf l extra st :
  store_wf st -> is_Some (es_heap st !! l) -> store_wf (write_extra l extra st).
Proof.
  intros [Hidx Hheap] Hl. split; simpl.
  - intros k l' Hk. destruct (decide (l = l')) as [->|Hne].
    + rewrite lookup_insert_eq. eauto.
    + rewrite lookup_insert_ne by done. eauto.
  - intros l' Hl'. destruct (decide (l = l')) as [->|Hne]; [by apply Hheap|].
    rewrite lookup_insert_ne in Hl' by done. by apply Hheap.
Qed.

(** A lookup returns the object the table holds for the hash and leaves the
    tables readable as before; only an absent hash gets an entry. *)
Lemma extras_Header_Get_spec h st l st' :
  store_wf st -> extras_Header_Get Header_Hash h st = (l, st') ->
  store_wf st' /\ deref st' l = extra_of Header_Hash st h /\
  headerExtras st' !! headerKey Header_Hash h = Some l /\
  is_Some (es_heap st' !! l) /\
  (forall h', headerKey Header_Hash h' <> headerKey Header_Hash h ->
     extra_of Header_Hash st' h' = extra_of Header_Hash st h') /\
  (forall l', is_Some (es_heap st !! l') -> deref st' l' = deref st l').
Proof.
  intros Hwf. unfold extras_Header_Get, extra_of.
  destruct (headerExtras st !! headerKey Header_Hash h) as [l0|] eqn:Hk.
  - intros [= <- <-]. repeat split; try done; try apply Hwf. by apply Hwf in Hk.
  - destruct (new_extra (native_extra h) st) as [l0 st0] eqn:Hn. intros [= <- <-].
    destruct (new_extra_wf _ _ _ _ Hwf Hn) as (Hwf0 & Hd & Hidx & Hfresh & Hother).
    assert (Hsome : is_Some (es_heap st0 !! l0)).
    { injection Hn as <- <-. simpl. rewrite lookup_insert_eq. eauto. }
    split; [by apply store_extra_wf|]. split; [exact Hd|]. simpl.
    split; [apply lookup_insert_eq|]. split; [done|]. split.
    + intros h' Hne. rewrite lookup_insert_ne by done. rewrite Hidx.
      destruct (headerExtras st !! headerKey Header_Hash h') as [l'|] eqn:Hk'; [|done].
      apply Hwf in Hk' as Hl'. apply (Hother l'). intros ->. rewrite Hfresh in Hl'.
      by destruct Hl'.
    + intros l' Hl'. apply (Hother l'). intros ->. rewrite Hfresh in Hl'. by destruct Hl'.
Qed.

Lemma GetHeaderExtra_run h st :
  store_wf st ->
  exists l st', GetHeaderExtra Header_Hash h st = (Ok l, st') /\
    store_wf st' /\ deref st' l = extra_of Header_Hash st h /\
    headerExtras st' !! headerKey Header_Hash h = Some l /\
    is_Some (es_heap st' !! l) /\
    (forall h', headerKey Header_Hash h' <> headerKey Header_Hash h ->
       extra_of Header_Hash st' h' = extra_of Header_Hash st h') /\
    (forall l', is_Some (es_heap st !! l') -> deref st' l' = deref st l').
Proof.
  intros Hwf. unfold GetHeaderExtra.
  destruct (extras_Header_Get Header_Hash h st) as [l st'] eqn:Hg.
  exists l, st'. split; [done|]. by apply extras_Header_Get_spec.
Qed.

(** The store after a lookup of [h]. *)
Definition cached (h : Header) (st : ExtrasStore) : ExtrasStore :=
  snd (extras_Header_Get Header_Hash h st).

Lemma cached_wf h st : store_wf st -> store_wf (cached h st).
Proof.
  intros Hwf. unfold cached. destruct (extras_Header_Get _ h st) as [l st'] eqn:Hg.
  by eapply extras_Header_Get_spec.
Qed.

Lemma extra_of_cached h st : store_wf st ->
  extra_of Header_Hash (cached h st) h = extra_of Header_Hash st h.
Proof.
  intros Hwf. unfold cached. destruct (extras_Header_Get _ h st) as [l st'] eqn:Hg.
  destruct (extras_Header_Get_spec _ _ _ _ Hwf Hg) as (_ & Hd & Hk & _).
  simpl. unfold extra_of at 1. by rewrite Hk.
Qed.

Lemma extra_of_cached_ne h h' st : store_wf st ->
  Header_Hash h' <> Header_Hash h ->
  extra_of Header_Hash (cached h st) h' = extra_of Header_Hash st h'.
Proof.
  intros Hwf Hne. unfold cached. destruct (extras_Header_Get _ h st) as [l st'] eqn:Hg.
  destruct (extras_Header_Get_spec _ _ _ _ Hwf Hg) as (_ & _ & _ & _ & Ho & _).
  by apply Ho.
Qed.

(** A computation that at most caches the extra of [h]. *)
Definition caches {A} (h : Header) (m : ExtM A) : Prop :=
  forall st, store_wf st -> snd (m st) = st \/ snd (m st) = cached h st.

Lemma caches_view {A} h (m : ExtM A) st :
  caches h m -> store_wf st ->
  store_wf (snd (m st)) /\
  extra_of Header_Hash (snd (m st)) h = extra_of Header_Hash st h.
Proof.
  intros Hm Hwf. destruct (Hm st Hwf) as [->| ->]; [done|].
  split; [by apply cached_wf|by apply extra_of_cached].
Qed.

(** Reading a header's extra: the continuation gets the value the table holds. *)
Lemma read_extra {B} h (k : HeaderExtra -> ExtM B) st :
  store_wf st ->
  (l ← GetHeaderExtra Header_Hash h; extra ← load l; k extra) st =
  k (extra_of Header_Hash st h) (cached h st).
Proof.
  intros Hwf. unfold cached, GetHeaderExtra, load, mbind, StM_bind.
  destruct (extras_Header_Get Header_Hash h st) as [l st'] eqn:Hg.
  destruct (extras_Header_Get_spec _ _ _ _ Hwf Hg) as (_ & Hd & _).
  simpl. by rewrite Hd.
Qed.

End StoreLaws.

Lemma deref_write l extra st : deref (write_extra l extra st) l = extra.
Proof. unfold deref. cbn. by rewrite lookup_insert_eq. Qed.

(** A cached entry does not disturb an object already in the heap. *)
Lemma cached_deref Header_Hash h st l :
  store_wf st -> is_Some (es_heap st !! l) ->
  deref (cached Header_Hash h st) l = deref st l /\
  is_Some (es_heap (cached Header_Hash h st) !! l).
Proof.
  intros Hwf Hl. unfold cached, extras_Header_Get.
  destruct (headerExtras st !! headerKey Header_Hash h); [done|]. cbn.
  assert (l <> es_next st) by (apply Hwf in Hl; lia).
  unfold deref. cbn. by rewrite lookup_insert_ne.
Qed.

(** ** Blocks and their extra *)

(** The fields the fee rules and the execution read are the same. *)
Definition same_exec_fields (h h' : Header) : Prop :=
  types.ParentHash h' = types.ParentHash h /\ types.Coinbase h' = types.Coinbase h /\
  types.Difficulty h' = types.Difficulty h /\ types.MixDigest h' = types.MixDigest h /\
  types.ExcessBlobGas h' = types.ExcessBlobGas h /\ types.BlobGasUsed h' = types.BlobGasUsed h /\
  types.ParentBeaconRoot h' = types.ParentBeaconRoot h /\ types.Nonce h' = types.Nonce h.

Definition same_fee_fields (h h' : Header) : Prop :=
  types.Time h' = types.Time h /\ types.GasUsed h' = types.GasUsed h /\
  types.GasLimit h' = types.GasLimit h /\ types.Number h' = types.Number h /\
  types.BaseFee h' = types.BaseFee h /\ same_exec_fields h h'.

Lemma same_fee_fields_refl h : same_fee_fields h h.
Proof. by repeat split. Qed.

Lemma same_fee_fields_trans h1 h2 h3 :
  same_fee_fields h1 h2 -> same_fee_fields h2 h3 -> same_fee_fields h1 h3.
Proof. unfold same_fee_fields, same_exec_fields. intuition congruence. Qed.

#[export] Hint Resolve same_fee_fields_refl : coreth.

(** What geth documents of [types.NewBlock]: apart from the roots, the uncle hash
    and the bloom filter, which it derives, the header is copied. *)
Class NewBlockSpec {Transaction Receipt : Type}
    (NewBlock_header : Header -> Body Transaction -> list Receipt -> Header) : Prop := {
  NewBlock_fee_fields h body receipts :
    same_fee_fields h (NewBlock_header h body receipts);
  NewBlock_Extra h body receipts :
    types.Extra (NewBlock_header h body receipts) = types.Extra h
}.

Section BlockLaws.
Context {Transaction Receipt : Type}.
Context (Header_Hash : Header -> Hash) (rlpHash : list byte -> Hash).
Context (NewBlock_header : Header -> Body Transaction -> list Receipt -> Header).

Lemma NewBlockWithExtData_spec header txs uncles receipts extdata recalc st :
  store_wf st ->
  let orig := extra_of Header_Hash st header in
  exists header' block st',
    NewBlockWithExtData Header_Hash rlpHash NewBlock_header header txs uncles receipts
      extdata recalc st = (Ok (header', block), st') /\
    store_wf st' /\
    extra_of Header_Hash st' (block_Header block) =
      {| HE_ExtDataHash := if recalc then CalcExtDataHash rlpHash extdata
                           else HE_ExtDataHash orig;
         HE_ExtDataGasUsed := HE_ExtDataGasUsed orig;
         HE_BlockGasCost := HE_BlockGasCost orig |} /\
    block_Header block = NewBlock_header header' (mkBody txs uncles) receipts /\
    same_fee_fields header header' /\ types.Extra header' = types.Extra header /\
    block_Transactions block = txs /\ block_Uncles block = uncles /\
    extras_Block_Get block st' = {| BE_Version := 0; BE_ExtData := Some extdata |} /\
    types.Root header' = types.Root header.
Proof.
  intros Hwf orig. unfold NewBlockWithExtData. rewrite read_extra by done.
  fold orig. pose proof (cached_wf Header_Hash header st Hwf) as [Hidx Hheap].
  set (st1 := cached Header_Hash header st) in *. cbn [new_extra].
  eexists _, _, _. split; [reflexivity|].
  unfold store_wf, extra_of, extras_Header_Set, extras_Block_Set, extras_Block_Get,
    headerKey, store_extra, deref; cbn.
  split; [split|].
  - intros k l. destruct (decide (l = Pos.succ (es_next st1))) as [->|Hne].
    + rewrite lookup_insert_eq. eauto.
    + rewrite (lookup_insert_ne (es_heap st1)) by done. intros Hk.
      apply lookup_insert_Some in Hk as [[_ ?]|[_ Hk]]; [by subst|eauto].
  - intros l Hl. apply lookup_insert_is_Some in Hl as [<-|[_ Hl]]; [lia|].
    apply Hheap in Hl. lia.
  - rewrite !lookup_insert_eq. cbn. split; [by rewrite ?lookup_insert_eq|].
    split; [done|]. split; [|split; [|split; [done|split; [done|split; [done|]]]]].
    + destruct header, (bool_decide _), (HE_ExtDataGasUsed orig), (HE_BlockGasCost orig);
        by repeat split.
    + by destruct header, (bool_decide _), (HE_ExtDataGasUsed orig), (HE_BlockGasCost orig).
    + by destruct header, (bool_decide _), (HE_ExtDataGasUsed orig), (HE_BlockGasCost orig).
Qed.

End BlockLaws.

(** [GetHeaderExtra] always returns the extra last stored for the header's
    hash (or the header's native fields), repeats the same object for every header
    with that hash, and does not change what headers with another hash see. *)
Theorem GetHeaderExtra_stable (Header_Hash : Header -> Hash) (st : ExtrasStore) (h : Header)
    (Hwf : store_wf st) :
  exists l st', GetHeaderExtra Header_Hash h st = (Ok l, st') /\ store_wf st' /\
    deref st' l = extra_of Header_Hash st h /\
    (forall h', Header_Hash h' = Header_Hash h ->
       GetHeaderExtra Header_Hash h' st' = (Ok l, st')) /\
    (forall h', Header_Hash h' <> Header_Hash h ->
       extra_of Header_Hash st' h' = extra_of Header_Hash st h').
Proof.
  destruct (GetHeaderExtra_run Header_Hash h st Hwf)
    as (l & st' & Hg & Hwf' & Hd & Hk & _ & Hother & _).
  exists l, st'. split; [done|]. split; [done|]. split; [done|]. split; [|exact Hother].
  intros h' Heq. unfold GetHeaderExtra, extras_Header_Get, headerKey in *.
  by rewrite Heq, Hk.
Qed.

(** Encoding a header with its extra and decoding it back restores both: all
    nineteen geth fields and the three extra fields; the native Lux fields of the
    destination header are left alone. *)
Theorem HeaderExtra_RLP_roundtrip
    (rlp_Encode : HeaderSerializable -> result (list byte))
    (rlp_Decode : list byte -> result HeaderSerializable)
    (Hrlp : forall hs bs, rlp_Encode hs = Ok bs -> rlp_Decode bs = Ok hs)
    (h : HeaderExtra) (eth dst : Header) (bs : list byte)
    (Henc : HeaderExtra_EncodeRLP rlp_Encode h eth = Ok bs) :
  exists eth', HeaderExtra_DecodeRLP rlp_Decode dst bs = Ok (eth', h) /\
    types.ExtDataHash eth' = types.ExtDataHash dst /\
    types.ExtDataGasUsed eth' = types.ExtDataGasUsed dst /\
    types.BlockGasCost eth' = types.BlockGasCost dst /\
    (types.ExtDataHash eth = types.ExtDataHash dst ->
     types.ExtDataGasUsed eth = types.ExtDataGasUsed dst ->
     types.BlockGasCost eth = types.BlockGasCost dst -> eth' = eth).
Proof.
  unfold HeaderExtra_EncodeRLP in Henc. apply Hrlp in Henc.
  unfold HeaderExtra_DecodeRLP. rewrite Henc. simpl.
  destruct h as [hh hg hb]. eexists. split; [reflexivity|]. repeat split.
  intros H1 H2 H3. unfold updateToEth; simpl. rewrite <- H1, <- H2, <- H3. by destruct eth.
Qed.

Module CustomTypesWitness.

Definition hash0 (h : Header) : Hash := be_encode 32 (types.Number h).

Definition header0 : Header :=
  types.mkHeader Hash_zero Hash_zero [] Hash_zero Hash_zero Hash_zero [] (Some 1) 7 15000000
    21000 100 [] Hash_zero [] (Some 25) None None None None (Some 5) (Some 0).

Definition store0 : ExtrasStore := mkStore ∅ ∅ ∅ 1.

Lemma store0_wf : store_wf store0.
Proof. split; simpl; [intros k l|intros l]; rewrite lookup_empty; [done|by intros []]. Defined.

Lemma GetHeaderExtra_stable_witness :
  exists l st', GetHeaderExtra hash0 header0 store0 = (Ok l, st') /\ store_wf st' /\
    deref st' l = mkHeaderExtra Hash_zero (Some 5) (Some 0).
Proof.
  destruct (GetHeaderExtra_stable hash0 store0 header0 store0_wf)
    as (l & st' & Hg & Hwf & Hd & _).
  exists l, st'. split; [exact Hg|]. split; [exact Hwf|]. exact Hd.
Defined.

#[local] Instance HeaderSerializable_eq_dec : EqDecision HeaderSerializable.
Proof. solve_decision. Defined.

(** An encoder that supports one header. *)
Definition enc (hs : HeaderSerializable) : result (list byte) :=
  if decide (hs = updateFromExtras
               (updateFromEth HeaderSerializable_zero header0) HeaderExtra_zero)
  then Ok (be_encode 8 (HS_Number hs)) else Err (errors_New "unsupported").
Definition dec (bs : list byte) : result HeaderSerializable :=
  Ok (updateFromExtras (updateFromEth HeaderSerializable_zero header0) HeaderExtra_zero).

Lemma HeaderExtra_RLP_roundtrip_witness :
  exists eth', HeaderExtra_DecodeRLP dec header0 (be_encode 8 7) = Ok (eth', HeaderExtra_zero).
Proof.
  destruct (HeaderExtra_RLP_roundtrip enc dec) with (h := HeaderExtra_zero) (eth := header0)
    (dst := header0) (bs := be_encode 8 7) as (eth' & H & _).
  - intros hs bs. unfold enc, dec. destruct (decide _) as [->|]; [done|discriminate].
  - vm_compute. reflexivity.
  - by exists eth'.
Defined.

End CustomTypesWitness.
