(* ===== verification/Header.v ===== *)
(** * The fee rules of a header

    [plugin/evm/header]: the fee state a block starts and ends with, the base
    fee, gas limit and gas capacity derived from it, the layout of the header's
    [Extra] bytes (a 24-byte fee state followed by predicate results), and the
    checks a verifier runs on each of them. *)

From S2P Require Import Prelude Deps GoStd Lp176 CustomTypes.

Module header.
Import lp176.

Definition errInvalidTimestamp : error := errors_New "header.errInvalidTimestamp".
Definition errBaseFeeNil : error := errors_New "header.errBaseFeeNil".
Definition errNoGasUsed : error := errors_New "header.errNoGasUsed".
Definition errIncorrectFeeState : error := errors_New "header.errIncorrectFeeState".
Definition errInvalidExtraLength : error := errors_New "header.errInvalidExtraLength".
Definition errInvalidExtraDataGasUsed : error :=
  errors_New "header.errInvalidExtraDataGasUsed".
Definition errInvalidGasUsed : error := errors_New "header.errInvalidGasUsed".
Definition errInvalidGasLimit : error := errors_New "header.errInvalidGasLimit".

Section Operations.
Context {SM : SafeMath} {GL : GasLib}.
Context (Header_Hash : Header -> Hash).

(** ** [dynamic_fee_state.go] *)

Definition feeStateBeforeBlock (parent : Header) (timestamp : Z) : result State :=
  _ ← fail_if (timestamp <? types.Time parent)
        (errorf_w "timestamp %d prior to parent timestamp %d" errInvalidTimestamp);
  state ← (if bool_decide (types.Number parent <> 0)
           then wrap_err "parsing parent fee state" (ParseState (types.Extra parent))
           else Ok State_zero);
  Ok (AdvanceTime state (u64 (timestamp - types.Time parent))).

Definition feeStateAfterBlock (parent header : Header) (desiredTargetExcess : option Z)
    : ExtM State :=
  state ← lift (wrap_err "calculating initial fee state"
                  (feeStateBeforeBlock parent (types.Time header)));
  l ← GetHeaderExtra Header_Hash header;
  extra ← load l;
  state ← lift (wrap_err "advancing the fee state"
                  (ConsumeGas state (types.GasUsed header) (HE_ExtDataGasUsed extra)));
  match desiredTargetExcess with
  | Some desired => mret (UpdateTargetExcess state desired)
  | None => mret state
  end.

(** ** [base_fee.go] *)

Definition BaseFee (parent : Header) (timestamp : Z) : result Z :=
  state ← wrap_err "calculating initial fee state" (feeStateBeforeBlock parent timestamp);
  Ok (GasPrice state).

Definition EstimateNextBaseFee (parent : Header) (timestamp : Z) : result Z :=
  BaseFee parent (Z.max timestamp (types.Time parent)).

(** ** [block_gas_cost.go] *)

Definition BlockGasCost (parent : Header) (timestamp : Z) : Z := 0.

Definition BlockGasCostWithStep (parentCost : option Z) (step timeElapsed : Z) : Z := 0.

Definition EstimateRequiredTip (header : Header) : ExtM Z :=
  _ ← lift (fail_if (bool_decide (types.BaseFee header = None)) errBaseFeeNil);
  l ← GetHeaderExtra Header_Hash header;
  extra ← load l;
  let totalGasUsed := types.GasUsed header in
  let totalGasUsed :=
    match HE_ExtDataGasUsed extra with
    | Some used => totalGasUsed + used
    | None => totalGasUsed
    end in
  _ ← lift (fail_if (totalGasUsed =? 0) errNoGasUsed);
  mret 0.

(** ** [extra.go] *)

Definition ExtraPrefix (parent header : Header) (desiredTargetExcess : option Z)
    : ExtM (list byte) :=
  state ← wrapM "calculating fee state" (feeStateAfterBlock parent header desiredTargetExcess);
  mret (Bytes state).

Definition VerifyExtraPrefix (parent header : Header) : ExtM unit :=
  remoteState ← lift (wrap_err "parsing remote fee state" (ParseState (types.Extra header)));
  expectedState ← wrapM "calculating expected fee state"
                    (feeStateAfterBlock parent header (Some (TargetExcess remoteState)));
  lift (fail_if (bool_decide (remoteState <> expectedState))
          (errorf_w "expected %+v, found %+v" errIncorrectFeeState)).

Definition VerifyExtra (extra : list byte) : result unit :=
  fail_if (bool_decide (length extra < StateSize)%nat)
    (errorf_w "expected >= %d but got %d" errInvalidExtraLength).

(** [nil] and the empty slice are both the empty list. *)
Definition PredicateBytesFromExtra (extra : list byte) : list byte :=
  let offset := StateSize in
  if bool_decide (length extra <= offset)%nat then [] else drop offset extra.

Definition SetPredicateBytesInExtra (extra predicateBytes : list byte) : list byte :=
  let offset := StateSize in
  let extra :=
    if bool_decide (length extra < offset)%nat
    then extra ++ replicate (offset - length extra) Byte.x00
    else take offset extra in
  extra ++ predicateBytes.

(** ** [gas_limit.go] *)

Definition GasLimit (parent : Header) (timestamp : Z) : result Z :=
  state ← wrap_err "calculating initial fee state" (feeStateBeforeBlock parent timestamp);
  Ok (MaxCapacity state).

Definition GasCapacity (parent : Header) (timestamp : Z) : result Z :=
  state ← wrap_err "calculating initial fee state" (feeStateBeforeBlock parent timestamp);
  Ok (Capacity (Gas state)).

Definition VerifyGasUsed (parent header : Header) : ExtM unit :=
  l ← GetHeaderExtra Header_Hash header;
  extra ← load l;
  gasUsed ← lift
    (match HE_ExtDataGasUsed extra with
     | None => Ok (types.GasUsed header)
     | Some used =>
         _ ← fail_if (negb (IsUint64 used))
               (errorf_w "%d is not a uint64" errInvalidExtraDataGasUsed);
         wrap_err "while calculating gas used" (Add64 (types.GasUsed header) used)
     end);
  capacity ← lift (wrap_err "calculating gas capacity" (GasCapacity parent (types.Time header)));
  lift (fail_if (capacity <? gasUsed) (errorf_w "have %d, capacity %d" errInvalidGasUsed)).

Definition VerifyGasLimit (parent header : Header) : result unit :=
  state ← wrap_err "calculating initial fee state"
            (feeStateBeforeBlock parent (types.Time header));
  let maxCapacity := MaxCapacity state in
  fail_if (negb (types.GasLimit header =? maxCapacity))
    (errorf_w "have %d, want %d" errInvalidGasLimit).

Definition RemainingAtomicGasCapacity (parent header : Header) : result Z :=
  state ← wrap_err "calculating initial fee state"
            (feeStateBeforeBlock parent (types.Time header));
  state ← wrap_err "while calculating available gas"
            (ConsumeGas state (types.GasUsed header) None);
  Ok (Capacity (Gas state)).

End Operations.

(** ** The fee state before a block *)

(** A header whose integer fields are [uint64]s. *)
Definition is_header (h : Header) : Prop :=
  is_u64 (types.Time h) /\ is_u64 (types.GasUsed h) /\ is_u64 (types.GasLimit h).

(** The fee state a header carries: none for the genesis block. *)
Definition header_state (h : Header) : result State :=
  if bool_decide (types.Number h <> 0) then ParseState (types.Extra h) else Ok State_zero.

Lemma is_state_zero : is_state State_zero.
Proof. repeat split; closed_u64. Qed.

Lemma header_state_valid h s : header_state h = Ok s -> is_state s.
Proof.
  unfold header_state. case_test.
  - intros H. by apply ParseState_inv in H as [? _].
  - intros [= <-]. apply is_state_zero.
Qed.

Section Laws.
Context {SM : SafeMath} {GL : GasLib} {SMs : SafeMathSpec SM} {GLs : GasLibSpec GL}.
Context (Header_Hash : Header -> Hash).

Lemma feeStateBeforeBlock_Ok parent timestamp s' :
  is_u64 (types.Time parent) -> is_u64 timestamp ->
  feeStateBeforeBlock parent timestamp = Ok s' <->
  types.Time parent <= timestamp /\
  exists s, header_state parent = Ok s /\ s' = AdvanceTime s (timestamp - types.Time parent).
Proof.
  intros Hp Ht. unfold feeStateBeforeBlock, header_state.
  destruct (Z.ltb_spec timestamp (types.Time parent)) as [Hlt|Hge]; simpl.
  - split; [discriminate|lia].
  - rewrite u64_small by u64_lia. case_test; simpl.
    + destruct (ParseState (types.Extra parent)) as [s| |]; simpl.
      * split; [intros [= <-]; eauto|intros (_ & ? & [= <-] & ->); done].
      * split; [done|by intros (_ & ? & ? & _)].
      * split; [done|by intros (_ & ? & ? & _)].
    + split; [intros [= <-]; eauto|intros (_ & ? & [= <-] & ->); done].
Qed.

Lemma feeStateBeforeBlock_valid parent timestamp s :
  is_u64 (types.Time parent) -> is_u64 timestamp ->
  feeStateBeforeBlock parent timestamp = Ok s -> is_state s.
Proof.
  intros Hp Ht H. apply feeStateBeforeBlock_Ok in H as (Hle & s0 & Hs0 & ->); [|done..].
  apply is_state_AdvanceTime; [by eapply header_state_valid|u64_lia].
Qed.

(** No run of the fee code panics. *)
Lemma feeStateBeforeBlock_no_panic parent timestamp :
  feeStateBeforeBlock parent timestamp <> Panic.
Proof.
  unfold feeStateBeforeBlock, ParseState. destruct (timestamp <? _); simpl; [done|].
  case_test; simpl; [|done]. by case_test.
Qed.

(** The value of [feeStateAfterBlock] once the header's extra is read. *)
Definition feeStateAfter (parent header : Header) (ext desired : option Z) : result State :=
  state ← wrap_err "calculating initial fee state"
            (feeStateBeforeBlock parent (types.Time header));
  state ← wrap_err "advancing the fee state" (ConsumeGas state (types.GasUsed header) ext);
  Ok (match desired with Some d => UpdateTargetExcess state d | None => state end).

(** [feeStateAfterBlock] computes [feeStateAfter] on the extra the table holds, and
    at most caches that extra. *)
Lemma feeStateAfterBlock_run parent header desired st :
  store_wf st ->
  exists st', feeStateAfterBlock Header_Hash parent header desired st =
    (feeStateAfter parent header
       (HE_ExtDataGasUsed (extra_of Header_Hash st header)) desired, st') /\
    (st' = st \/ st' = cached Header_Hash header st).
Proof.
  intros Hwf. unfold feeStateAfterBlock, feeStateAfter. rewrite lift_bind.
  destruct (wrap_err _ (feeStateBeforeBlock _ _)) as [s|e|]; [|by eauto..].
  rewrite read_extra, lift_bind by done. exists (cached Header_Hash header st).
  split; [|by right]. cbn [mbind result_bind].
  destruct (wrap_err _ (ConsumeGas _ _ _)) as [s'|e|]; [|done..]. by destruct desired.
Qed.

Lemma ExtraPrefix_run parent header desired st prefix st' :
  store_wf st -> ExtraPrefix Header_Hash parent header desired st = (Ok prefix, st') ->
  exists s, feeStateAfter parent header
      (HE_ExtDataGasUsed (extra_of Header_Hash st header)) desired = Ok s /\
    prefix = Bytes s /\ (st' = st \/ st' = cached Header_Hash header st).
Proof.
  intros Hwf. unfold ExtraPrefix. rewrite wrapM_bind.
  destruct (feeStateAfterBlock_run parent header desired st Hwf) as (st1 & -> & Hst1).
  destruct (feeStateAfter _ _ _ _) as [s|e|]; [|done..]. intros [= <- <-]. by exists s.
Qed.

Lemma feeStateAfter_fields parent h h' ext desired :
  same_fee_fields h h' ->
  feeStateAfter parent h' ext desired = feeStateAfter parent h ext desired.
Proof. intros (Ht & Hg & _). unfold feeStateAfter. by rewrite Ht, Hg. Qed.

Lemma is_header_fields h h' : same_fee_fields h h' -> is_header h -> is_header h'.
Proof. intros (Ht & Hg & Hl & _). unfold is_header. by rewrite Ht, Hg, Hl. Qed.

Lemma feeStateAfter_Ok parent header ext desired s' :
  is_header parent -> is_header header ->
  feeStateAfter parent header ext desired = Ok s' ->
  exists s0 s1, feeStateBeforeBlock parent (types.Time header) = Ok s0 /\ is_state s0 /\
    ConsumeGas s0 (types.GasUsed header) ext = Ok s1 /\ is_state s1 /\
    s' = match desired with Some d => UpdateTargetExcess s1 d | None => s1 end.
Proof.
  intros (Hp & _) (Ht & Hg & _) H. unfold feeStateAfter in H.
  apply bind_Ok in H as (s0 & Hb%wrap_err_Ok & H).
  apply bind_Ok in H as (s1 & Hc%wrap_err_Ok & [= <-]).
  assert (is_state s0) by (by apply feeStateBeforeBlock_valid in Hb).
  exists s0, s1. repeat (split; [done|]). split; [|done].
  by apply is_state_ConsumeGas in Hc as [? _].
Qed.

(** Gas can be consumed iff the total fits in the capacity; the outcome does not
    depend on the desired target. *)
Lemma feeStateAfter_is_Ok parent header ext desired :
  is_header parent -> is_header header ->
  is_Ok (feeStateAfter parent header ext desired) = true <->
  exists s0, feeStateBeforeBlock parent (types.Time header) = Ok s0 /\
    0 <= extra_gas ext /\ types.GasUsed header + extra_gas ext <= Capacity (Gas s0).
Proof.
  intros Hp Hh. split.
  - intros [s' H]%is_Ok_spec. apply feeStateAfter_Ok in H as (s0 & s1 & H0 & Hs0 & H1 & _);
      [|done..].
    exists s0. apply is_state_ConsumeGas in H1 as (_ & ? & ? & _);
      [done|done|by destruct Hh as (_ & ? & _)].
  - intros (s0 & H0 & Hpos & Hle). unfold feeStateAfter. rewrite H0. simpl.
    destruct Hp as (Hp & _), Hh as (Ht & Hg & _).
    rewrite ConsumeGas_success; [done| |done..]. by apply feeStateBeforeBlock_valid in H0.
Qed.

(** Moving to where one already is changes nothing. *)
Lemma UpdateTargetExcess_self s :
  is_state s -> Capacity (Gas s) <= MaxCapacity s -> UpdateTargetExcess s (TargetExcess s) = s.
Proof.
  intros [[Hc He] Ht] Hle. pose proof (Target_u64 s Ht) as HT.
  pose proof (Target_min s Ht) as Hmin. change MinTargetPerSecond with 1000000 in Hmin.
  assert (Htt : targetExcess (TargetExcess s) (TargetExcess s) = TargetExcess s).
  { rewrite targetExcess_spec by done. change MaxTargetExcessDiff with 32768. lia. }
  unfold UpdateTargetExcess. rewrite Htt.
  destruct s as [[c e] t]; cbn [Gas TargetExcess Capacity Excess] in *.
  rewrite scaleExcess_eq, Z.div_mul, u64_small by (done || lia).
  unfold MaxCapacity in Hle. rewrite Z.min_l by done. done.
Qed.

(** The target a block claims, given as the desired one, reproduces the state. *)
Lemma UpdateTargetExcess_claimed s d :
  is_state s -> is_u64 d ->
  UpdateTargetExcess s (TargetExcess (UpdateTargetExcess s d)) = UpdateTargetExcess s d.
Proof.
  intros [_ Ht] Hd. unfold UpdateTargetExcess at 1 3. cbn [TargetExcess UpdateTargetExcess].
  by rewrite targetExcess_idemp.
Qed.

Lemma ConsumeGas_capacity s gasUsed ext s' :
  is_state s -> is_u64 gasUsed -> ConsumeGas s gasUsed ext = Ok s' ->
  Capacity (Gas s') = Capacity (Gas s) - (gasUsed + extra_gas ext) /\
  TargetExcess s' = TargetExcess s.
Proof.
  intros Hs Hg H. destruct (is_state_ConsumeGas _ _ _ _ Hs Hg H) as (_ & Hpos & Hle & Ht).
  rewrite ConsumeGas_success in H by done. by injection H as <-.
Qed.

Lemma feeStateBeforeBlock_capacity parent timestamp s :
  is_u64 (types.Time parent) -> is_u64 timestamp ->
  feeStateBeforeBlock parent timestamp = Ok s -> Capacity (Gas s) <= MaxCapacity s.
Proof.
  intros Hp Ht H. apply feeStateBeforeBlock_Ok in H as (Hle & s0 & Hs0 & ->); [|done..].
  apply header_state_valid in Hs0. rewrite AdvanceTime_eq by (done || u64_lia).
  cbn [Gas Capacity]. transitivity (MaxCapacity s0); [apply Z.le_min_l|].
  by apply Z.eq_le_incl, MaxCapacity_TargetExcess.
Qed.

(** The state after a block, re-derived with the target it carries. *)
Lemma feeStateAfter_claimed parent header ext desired s :
  is_header parent -> is_header header -> from_option is_u64 True desired ->
  feeStateAfter parent header ext desired = Ok s ->
  is_state s /\ feeStateAfter parent header ext (Some (TargetExcess s)) = Ok s.
Proof.
  intros Hp Hh Hd H.
  destruct (feeStateAfter_Ok _ _ _ _ _ Hp Hh H) as (s0 & s1 & H0 & Hs0 & H1 & Hs1 & Hs').
  unfold feeStateAfter. rewrite H0. simpl. rewrite H1. simpl.
  destruct desired as [d|]; subst s.
  - split; [by apply is_state_UpdateTargetExcess|]. by rewrite UpdateTargetExcess_claimed.
  - split; [done|]. f_equal. apply UpdateTargetExcess_self; [done|].
    destruct Hp as (Hp & _), Hh as (Ht & Hg & _).
    apply feeStateBeforeBlock_capacity in H0; [|done..].
    apply ConsumeGas_capacity in H1 as Hc; [|done..]. destruct Hc as [Hc Hte].
    apply is_state_ConsumeGas in H1 as (_ & Hpos & _); [|done..].
    rewrite (MaxCapacity_TargetExcess _ s0) by done. u64_lia.
Qed.

(** The verdict of [VerifyExtraPrefix]. *)
Lemma VerifyExtraPrefix_Ok parent header st :
  store_wf st ->
  fst (VerifyExtraPrefix Header_Hash parent header st) = Ok tt <->
  exists s, ParseState (types.Extra header) = Ok s /\
    feeStateAfter parent header (HE_ExtDataGasUsed (extra_of Header_Hash st header))
      (Some (TargetExcess s)) = Ok s.
Proof.
  intros Hwf. unfold VerifyExtraPrefix. rewrite lift_bind.
  destruct (ParseState (types.Extra header)) as [s|e|]; simpl;
    [|split; [done|by intros (? & ? & _)]..].
  rewrite wrapM_bind.
  destruct (feeStateAfterBlock_run parent header (Some (TargetExcess s)) st Hwf)
    as (st' & -> & _).
  destruct (feeStateAfter _ _ _ _) as [s'|e|] eqn:E; simpl.
  - unfold fail_if. case_test; simpl.
    + split; [done|]. intros (? & [= <-] & E'). rewrite E in E'. by injection E'.
    + split; [|done]. intros _. exists s. split; [done|].
      destruct (decide (s = s')) as [->|]; [done|by exfalso].
  - split; [done|]. intros (? & [= <-] & E'). by rewrite E in E'.
  - split; [done|]. intros (? & [= <-] & E'). by rewrite E in E'.
Qed.

Lemma VerifyExtraPrefix_caches parent header :
  caches Header_Hash header (VerifyExtraPrefix Header_Hash parent header).
Proof.
  intros st Hwf. unfold VerifyExtraPrefix. rewrite lift_bind.
  destruct (wrap_err _ _) as [s|e|]; [|by left..]. rewrite wrapM_bind.
  destruct (feeStateAfterBlock_run parent header (Some (TargetExcess s)) st Hwf)
    as (st' & -> & Hst'). by destruct (feeStateAfter _ _ _ _).
Qed.

Lemma VerifyGasUsed_caches parent header :
  caches Header_Hash header (VerifyGasUsed Header_Hash parent header).
Proof.
  intros st Hwf. right. unfold VerifyGasUsed. rewrite read_extra, lift_bind by done.
  set (m := match HE_ExtDataGasUsed _ with Some _ => _ | None => _ end).
  destruct m; [|done..]. rewrite lift_bind. by destruct (wrap_err _ _).
Qed.

(** The verdict of [VerifyGasUsed]. *)
Lemma VerifyGasUsed_Ok parent header st :
  store_wf st -> is_header parent -> is_header header ->
  fst (VerifyGasUsed Header_Hash parent header st) = Ok tt <->
  exists s0, feeStateBeforeBlock parent (types.Time header) = Ok s0 /\
    let ext := HE_ExtDataGasUsed (extra_of Header_Hash st header) in
    0 <= extra_gas ext /\ types.GasUsed header + extra_gas ext <= Capacity (Gas s0).
Proof.
  intros Hwf (Hp & _) (Ht & Hg & _). unfold VerifyGasUsed, GasCapacity.
  rewrite read_extra, lift_bind by done. cbv zeta.
  destruct (HE_ExtDataGasUsed _) as [used|]; unfold extra_gas; cbn [default].
  - destruct (IsUint64 used) eqn:Hu; cycle 1.
    { simpl. split; [done|]. intros (s0 & H0 & Hpos & Hle).
      assert (~ is_u64 used) as [] by (intros ?%IsUint64_spec; congruence).
      apply feeStateBeforeBlock_valid in H0 as [[Hc _] _]; [|done..]. u64_lia. }
    apply IsUint64_spec in Hu. cbn [negb fail_if mbind result_bind id].
    destruct (Z.le_gt_cases (types.GasUsed header + used) MaxUint64) as [Hle|Hgt].
    + rewrite Add64_ok by done. cbn [wrap_err]. rewrite lift_bind.
      destruct (feeStateBeforeBlock _ _) as [s0|e|]; cbn; [|split; [done|by intros (? & ? & _)]..].
      unfold fail_if. case_test; split; [done|intros (? & [= <-] & ? & ?); lia| |done].
      intros _. exists s0. split; [done|]. split; [apply Hu|lia].
    + destruct (proj1 (is_Err_spec _) (Add64_overflow _ _ Hg Hu Hgt)) as [e ->].
      split; [done|]. intros (s0 & H0 & _ & Hle).
      apply feeStateBeforeBlock_valid in H0 as [[Hc _] _]; [|done..]. u64_lia.
  - rewrite lift_bind.
    destruct (feeStateBeforeBlock _ _) as [s0|e|]; cbn; [|split; [done|by intros (? & ? & _)]..].
    unfold fail_if. case_test; split; [done|intros (? & [= <-] & ? & ?); lia| |done].
    intros _. exists s0. split; [done|]. lia.
Qed.

(** A header's fee-state prefix is accepted exactly when it is the prefix some
    builder would have written: [VerifyExtraPrefix] succeeds iff [header.Extra]
    starts with the bytes [ExtraPrefix] produces for this parent and header under
    some (or no) desired target excess. *)
Theorem VerifyExtraPrefix_iff_ExtraPrefix (parent header : Header) (st : ExtrasStore)
    (Hwf : store_wf st) (Hp : is_header parent) (Hh : is_header header) :
  fst (VerifyExtraPrefix Header_Hash parent header st) = Ok tt <->
  exists desired prefix rest, from_option is_u64 True desired /\
    fst (ExtraPrefix Header_Hash parent header desired st) = Ok prefix /\
    types.Extra header = prefix ++ rest.
Proof.
  rewrite VerifyExtraPrefix_Ok by done. split.
  - intros (s & Hparse & Hs). apply ParseState_inv in Hparse as (Hst & Heq & _).
    exists (Some (TargetExcess s)), (Bytes s), (drop StateSize (types.Extra header)).
    split; [apply Hst|]. split; [|done]. unfold ExtraPrefix. rewrite wrapM_bind.
    destruct (feeStateAfterBlock_run parent header (Some (TargetExcess s)) st Hwf)
      as (st' & -> & _). by rewrite Hs.
  - intros (desired & prefix & rest & Hd & Hpre & Heq). unfold ExtraPrefix in Hpre.
    rewrite wrapM_bind in Hpre.
    destruct (feeStateAfterBlock_run parent header desired st Hwf) as (st' & Hrun & _).
    rewrite Hrun in Hpre. destruct (feeStateAfter _ _ _ _) as [s|e|] eqn:Hs; try done.
    injection Hpre as <-. apply feeStateAfter_claimed in Hs as [Hst Hs]; [|done..].
    exists s. split; [|done]. rewrite Heq. by apply ParseState_Bytes_app.
Qed.

(** [VerifyGasUsed] accepts a header exactly when the fee state can be advanced
    over it, whatever target excess it asks for: the up-front check and the
    state transition agree, overflow and negative values included. *)
Theorem VerifyGasUsed_iff_feeStateAfterBlock (parent header : Header) (st : ExtrasStore)
    (desired : option Z)
    (Hwf : store_wf st) (Hp : is_header parent) (Hh : is_header header) :
  fst (VerifyGasUsed Header_Hash parent header st) = Ok tt <->
  is_Ok (fst (feeStateAfterBlock Header_Hash parent header desired st)) = true.
Proof.
  rewrite VerifyGasUsed_Ok by done.
  destruct (feeStateAfterBlock_run parent header desired st Hwf) as (st' & -> & _).
  cbn [fst]. by rewrite feeStateAfter_is_Ok.
Qed.

(** [RemainingAtomicGasCapacity] is exact: it is the largest atomic gas a header
    with this gas use and timestamp may declare, and it fails iff the header is
    already over capacity without any. *)
Theorem RemainingAtomicGasCapacity_exact (parent header : Header)
    (Hp : is_header parent) (Hh : is_header header) :
  (forall r, RemainingAtomicGasCapacity parent header = Ok r ->
     0 <= r /\
     forall st header' g, store_wf st -> is_header header' ->
       types.Time header' = types.Time header -> types.GasUsed header' = types.GasUsed header ->
       HE_ExtDataGasUsed (extra_of Header_Hash st header') = Some g ->
       (fst (VerifyGasUsed Header_Hash parent header' st) = Ok tt <-> 0 <= g <= r)) /\
  (is_Ok (RemainingAtomicGasCapacity parent header) = false ->
   forall st, store_wf st -> fst (VerifyGasUsed Header_Hash parent header st) <> Ok tt).
Proof.
  pose proof Hp as (Hpt & _). pose proof Hh as (Ht & Hg & _).
  unfold RemainingAtomicGasCapacity.
  destruct (feeStateBeforeBlock parent (types.Time header)) as [s0|e|] eqn:H0; cbn.
  - pose proof (feeStateBeforeBlock_valid _ _ _ Hpt Ht H0) as Hs0. split.
    + intros r Hr. apply bind_Ok in Hr as (s1 & H1%wrap_err_Ok & [= <-]).
      destruct (is_state_ConsumeGas _ _ _ _ Hs0 Hg H1) as ([[Hc _] _] & _).
      apply ConsumeGas_capacity in H1 as [Hcap _]; [|done..]. cbn in Hcap.
      split; [apply Hc|]. intros st header' g Hwf Hh' Et Eg Eext.
      rewrite VerifyGasUsed_Ok, Et, Eg, Eext, H0 by done. cbn. split.
      * intros (? & [= <-] & ? & ?). lia.
      * intros Hb. exists s0. split; [done|]. lia.
    + intros Hfail st Hwf Hok. apply VerifyGasUsed_Ok in Hok as (? & H0' & Hpos & Hle); [|done..].
      rewrite H0 in H0'. injection H0' as <-.
      rewrite ConsumeGas_success in Hfail; [done|done|done|done|]. cbn in *. lia.
  - split; [done|]. intros _ st Hwf Hok.
    apply VerifyGasUsed_Ok in Hok as (? & H0' & _); [|done..]. by rewrite H0 in H0'.
  - split; [done|]. intros _ st Hwf Hok.
    apply VerifyGasUsed_Ok in Hok as (? & H0' & _); [|done..]. by rewrite H0 in H0'.
Qed.

(** The fee state as a function of the elapsed time. *)
Lemma AdvanceTime_later s a b :
  is_state s -> is_u64 a -> is_u64 b -> a <= b ->
  let sa := AdvanceTime s a in let sb := AdvanceTime s b in
  Excess (Gas sb) <= Excess (Gas sa) /\ Capacity (Gas sa) <= Capacity (Gas sb) /\
  TargetExcess sa = TargetExcess s /\ TargetExcess sb = TargetExcess s.
Proof.
  intros Hs Ha Hb Hle sa sb. unfold sa, sb. rewrite !AdvanceTime_eq by done.
  cbn [Gas Excess Capacity TargetExcess]. destruct Hs as [_ Ht].
  pose proof (Target_u64 s Ht) as [HT _].
  assert (0 <= Target s * (b - a)) by nia.
  assert (0 <= Z.min MaxUint64 (Target s * TargetToMax) * (b - a)).
  { apply Z.mul_nonneg_nonneg; [|lia]. unfold MaxUint64, TargetToMax. lia. }
  repeat split; lia.
Qed.

(** Waiting is never punished: as the timestamp of a child grows, its base fee
    does not rise and its gas capacity does not shrink, while its gas limit stays
    at the parent's maximum capacity, which bounds the capacity.  The base fee is
    a [uint64] of at least [MinGasPrice], and the estimate at any timestamp equals
    the fee at the later of it and the parent's. *)
Theorem fees_by_timestamp (parent : Header) (s : State) (t1 t2 : Z)
    (Hp : is_header parent) (Hs : header_state parent = Ok s)
    (H1 : is_u64 t1) (H2 : is_u64 t2) (Hle : types.Time parent <= t1 <= t2) :
  exists fee1 fee2 cap1 cap2,
    BaseFee parent t1 = Ok fee1 /\ BaseFee parent t2 = Ok fee2 /\
    GasCapacity parent t1 = Ok cap1 /\ GasCapacity parent t2 = Ok cap2 /\
    GasLimit parent t1 = Ok (MaxCapacity s) /\ GasLimit parent t2 = Ok (MaxCapacity s) /\
    MinGasPrice <= fee2 <= fee1 /\ fee1 <= MaxUint64 /\
    cap1 <= cap2 <= MaxCapacity s /\
    EstimateNextBaseFee parent t1 = Ok fee1 /\
    (forall t0, t0 <= types.Time parent ->
       EstimateNextBaseFee parent t0 = BaseFee parent (types.Time parent)).
Proof.
  pose proof (header_state_valid _ _ Hs) as Hst. destruct Hp as (Hpt & _).
  assert (B1 : feeStateBeforeBlock parent t1 = Ok (AdvanceTime s (t1 - types.Time parent)))
    by (apply feeStateBeforeBlock_Ok; [done..|]; split; [lia|by exists s]).
  assert (B2 : feeStateBeforeBlock parent t2 = Ok (AdvanceTime s (t2 - types.Time parent)))
    by (apply feeStateBeforeBlock_Ok; [done..|]; split; [lia|by exists s]).
  destruct (AdvanceTime_later s (t1 - types.Time parent) (t2 - types.Time parent))
    as (He & Hc & Ht1 & Ht2); [done|u64_lia|u64_lia|lia|].
  pose proof (feeStateBeforeBlock_valid _ _ _ Hpt H1 B1) as V1.
  pose proof (feeStateBeforeBlock_valid _ _ _ Hpt H2 B2) as V2.
  pose proof (feeStateBeforeBlock_capacity _ _ _ Hpt H2 B2) as Hcap.
  set (s1 := AdvanceTime s (t1 - types.Time parent)) in *.
  set (s2 := AdvanceTime s (t2 - types.Time parent)) in *.
  exists (GasPrice s1), (GasPrice s2), (Capacity (Gas s1)), (Capacity (Gas s2)).
  unfold EstimateNextBaseFee. rewrite (Z.max_l t1) by lia.
  unfold BaseFee, GasCapacity, GasLimit. rewrite B1, B2. cbn.
  rewrite (MaxCapacity_TargetExcess s1 s Ht1), (MaxCapacity_TargetExcess s2 s Ht2) in *.
  repeat (split; [done|]). split; [split|].
  - by apply GasPrice_bounds.
  - apply GasPrice_mono; [done..|congruence|done].
  - split; [by apply GasPrice_bounds|]. split; [done|]. split; [done|].
    intros t0 Ht0. by rewrite Z.max_r.
Qed.

End Laws.

(** Predicate results survive the trip through the header's [Extra]: they are
    read back exactly, the bytes always satisfy [VerifyExtra], and a fee state
    already present is untouched. *)
Theorem PredicateBytes_roundtrip (extra predicateBytes : list byte) :
  let extra' := SetPredicateBytesInExtra extra predicateBytes in
  PredicateBytesFromExtra extra' = predicateBytes /\
  VerifyExtra extra' = Ok tt /\
  (is_Ok (VerifyExtra extra) = true -> ParseState extra' = ParseState extra) /\
  (forall pb, SetPredicateBytesInExtra extra' pb = SetPredicateBytesInExtra extra pb).
Proof.
  set (base := if bool_decide (length extra < StateSize)%nat
               then extra ++ replicate (StateSize - length extra) Byte.x00
               else take StateSize extra).
  assert (Hset : forall pb, SetPredicateBytesInExtra extra pb = base ++ pb) by done.
  assert (Hlen : length base = StateSize).
  { unfold base. case_test.
    - rewrite length_app, length_replicate. lia.
    - rewrite length_take. lia. }
  cbv zeta. rewrite Hset. split; [|split; [|split]].
  - unfold PredicateBytesFromExtra. cbv zeta. rewrite length_app, Hlen. case_test.
    + destruct predicateBytes; [done|]. cbn [length] in *. lia.
    + by rewrite drop_app_length'.
  - unfold VerifyExtra. rewrite bool_decide_eq_false_2; [done|].
    rewrite length_app, Hlen. lia.
  - intros Hv. unfold base. unfold VerifyExtra, fail_if in Hv.
    destruct (decide (length extra < StateSize)%nat) as [Hlt|Hge].
    { by rewrite bool_decide_eq_true_2 in Hv. }
    rewrite bool_decide_eq_false_2 by done.
    destruct (ParseState extra) as [s|e|] eqn:E.
    + apply ParseState_inv in E as (Hs & Heq & _). rewrite Heq at 1.
      rewrite take_app_length' by (by rewrite length_Bytes). by apply ParseState_Bytes_app.
    + unfold ParseState in E. by rewrite bool_decide_eq_false_2 in E.
    + unfold ParseState in E. by rewrite bool_decide_eq_false_2 in E.
  - intros pb. rewrite Hset. unfold SetPredicateBytesInExtra.
    rewrite bool_decide_eq_false_2 by (rewrite length_app, Hlen; lia).
    by rewrite take_app_length'.
Qed.

(** ** Witnesses *)

Module HeaderWitness.
Import Concrete.

Definition hash0 (h : Header) : Hash := be_encode 32 (types.Number h).

Definition mk (number time gasUsed : Z) (extra : list byte) (ext : option Z) : Header :=
  types.mkHeader Hash_zero Hash_zero [] Hash_zero Hash_zero Hash_zero [] (Some 1) number
    10000000 gasUsed time extra Hash_zero [] (Some 1) None None None None ext (Some 0).

Definition genesis : Header := mk 0 100 0 [] None.

Definition childState : State :=
  {| Gas := {| Capacity := 9974000; Excess := 26000 |}; TargetExcess := 0 |}.

Definition child : Header := mk 1 110 21000 (Bytes childState) (Some 5000).

Definition store0 : ExtrasStore := mkStore ∅ ∅ ∅ 1.

Lemma store0_ok : store_wf store0.
Proof. split; simpl; [intros k l|intros l]; rewrite lookup_empty; [done|by intros []]. Defined.

Lemma genesis_ok : is_header genesis.
Proof. repeat split; closed_u64. Defined.

Lemma child_ok : is_header child.
Proof. repeat split; closed_u64. Defined.

Lemma VerifyExtraPrefix_iff_ExtraPrefix_witness :
  fst (VerifyExtraPrefix hash0 genesis child store0) = Ok tt.
Proof.
  apply (VerifyExtraPrefix_iff_ExtraPrefix hash0 genesis child store0
           store0_ok genesis_ok child_ok).
  exists None, (Bytes childState), []. split; [exact I|]. split; vm_compute; reflexivity.
Defined.

Lemma VerifyGasUsed_iff_feeStateAfterBlock_witness :
  fst (VerifyGasUsed hash0 genesis child store0) = Ok tt.
Proof.
  apply (VerifyGasUsed_iff_feeStateAfterBlock hash0 genesis child store0 (Some 7)
           store0_ok genesis_ok child_ok).
  vm_compute. reflexivity.
Defined.

Lemma RemainingAtomicGasCapacity_exact_witness :
  RemainingAtomicGasCapacity genesis child = Ok 9979000 /\
  fst (VerifyGasUsed hash0 genesis child store0) = Ok tt.
Proof.
  destruct (RemainingAtomicGasCapacity_exact hash0 genesis child genesis_ok child_ok)
    as [H _].
  assert (E : RemainingAtomicGasCapacity genesis child = Ok 9979000)
    by (vm_compute; reflexivity).
  split; [exact E|]. destruct (H _ E) as [_ H'].
  apply (H' store0 child 5000 store0_ok child_ok); [reflexivity..|lia].
Defined.

Lemma fees_by_timestamp_witness :
  GasLimit child 111 = Ok 10000000 /\ BaseFee child 115 = Ok 1.
Proof.
  destruct (fees_by_timestamp child childState 111 115) as
    (f1 & f2 & c1 & c2 & B1 & B2 & C1 & C2 & G1 & G2 & _).
  - exact child_ok.
  - vm_compute. reflexivity.
  - closed_u64.
  - closed_u64.
  - cbn. lia.
  - split; [exact G1|]. vm_compute. reflexivity.
Defined.

End HeaderWitness.
End header.
