(* ===== verification/Consensus.v ===== *)
(** * The dummy consensus engine

    [consensus/dummy/consensus.go]: header verification, the block fee, and the two
    ends of a block's life in the engine, [FinalizeAndAssemble] on the builder and
    [Finalize] on the verifier; with [utils/numbers.go] and the header check of
    [consensus/misc/eip4844].

    geth's transactions, receipts, state database and chain configuration are
    parameters.  The callbacks belong to the VM: each runs on the extras store and
    returns the state database it leaves. *)

From S2P Require Import Prelude Deps GoStd Lp176 Fees CustomTypes Header.

(** ** [utils/numbers.go] *)

Module utils.

Definition Uint64PtrEqual (x y : option Z) : bool :=
  match x, y with
  | Some x, Some y => x =? y
  | None, None => true
  | _, _ => false
  end.

Definition BigEqual (a b : option Z) : bool :=
  match a, b with
  | Some a, Some b => a =? b
  | None, None => true
  | _, _ => false
  end.

Definition BigEqualUint64 (a : option Z) (b : Z) : bool :=
  match a with
  | None => false
  | Some a => IsUint64 a && (a =? b)
  end.

Definition BigLessOrEqualUint64 (a : option Z) (b : Z) : bool :=
  match a with
  | None => false
  | Some a => IsUint64 a && (a <=? b)
  end.

Lemma BigEqual_spec a b : BigEqual a b = true <-> a = b.
Proof. destruct a, b; simpl; rewrite ?Z.eqb_eq; naive_solver. Qed.

End utils.

(** ** [VerifyEIP4844Header] *)

(** Dereferencing [parent.BlobGasUsed] panics when only the excess is present. *)
Definition VerifyEIP4844Header (parent header : Header) : result unit :=
  match types.ExcessBlobGas header with
  | None => Err (errors_New "header is missing excessBlobGas")
  | Some excess =>
    match types.BlobGasUsed header with
    | None => Err (errors_New "header is missing blobGasUsed")
    | Some used =>
      _ ← fail_if (eip4844.MaxBlobGasPerBlock <? used)
            (errors_New "blob gas used %d exceeds maximum allowance %d");
      _ ← fail_if (negb (used mod eip4844.BlobTxBlobGasPerBlob =? 0))
            (errors_New "blob gas used %d not a multiple of blob gas per blob %d");
      '(parentExcessBlobGas, parentBlobGasUsed) ←
        (match types.ExcessBlobGas parent with
         | None => Ok (0, 0)
         | Some e => match types.BlobGasUsed parent with
                     | Some u => Ok (e, u)
                     | None => Panic
                     end
         end);
      let expectedExcessBlobGas :=
        eip4844.CalcExcessBlobGas parentExcessBlobGas parentBlobGasUsed in
      fail_if (negb (excess =? expectedExcessBlobGas))
        (errors_New "invalid excessBlobGas: have %d, want %d")
    end
  end.

Module consensus.

Definition ErrUnknownAncestor : error := errors_New "consensus.ErrUnknownAncestor".
Definition ErrFutureBlock : error := errors_New "consensus.ErrFutureBlock".
Definition ErrInvalidNumber : error := errors_New "consensus.ErrInvalidNumber".

End consensus.

Module dummy.
Import lp176.

(** seconds *)
Definition allowedFutureBlockTime : Z := 10.

Definition ErrInsufficientBlockGas : error := errors_New "dummy.ErrInsufficientBlockGas".
Definition errInvalidBlockTime : error := errors_New "dummy.errInvalidBlockTime".
Definition errUnclesUnsupported : error := errors_New "dummy.errUnclesUnsupported".
Definition errExtDataGasUsedNil : error := errors_New "dummy.errExtDataGasUsedNil".
Definition errExtDataGasUsedTooLarge : error := errors_New "dummy.errExtDataGasUsedTooLarge".

Record Mode := mkMode {
  ModeSkipHeader : bool;
  ModeSkipBlockFee : bool;
  ModeSkipCoinbase : bool
}.

Section Engine.
Context {SM : SafeMath} {GL : GasLib}.
Context {Transaction Receipt StateDB : Type}.
Context (Header_Hash : Header -> Hash).
Context (rlpHash : list byte -> Hash).
Context (NewBlock_header : Header -> Body Transaction -> list Receipt -> Header).
(** [types.Transaction.EffectiveGasTip] and [types.Receipt.GasUsed] *)
Context (EffectiveGasTip : Transaction -> Z -> result Z).
Context (Receipt_GasUsed : Receipt -> Z).
(** [state.StateDB.IntermediateRoot] *)
Context (IntermediateRoot : StateDB -> bool -> Hash * StateDB).

(** [consensus.ChainHeaderReader]: the headers by hash and number, and the two fork
    predicates of the configuration that the engine asks for. *)
Record ChainHeaderReader := mkChain {
  GetHeader : Hash -> Z -> option Header;
  IsCancun : Z -> Z -> bool;
  IsEIP158 : Z -> bool
}.

Record ConsensusCallbacks := mkCallbacks {
  OnFinalizeAndAssemble :
    option (Header -> Header -> StateDB -> list Transaction ->
            ExtM (list byte * option Z * option Z * StateDB));
  OnExtraStateChange :
    option (Block Transaction -> Header -> StateDB -> ExtM (option Z * option Z * StateDB))
}.

(** The clock is its Unix time in seconds. *)
Record DummyEngine := mkEngine {
  cb : ConsensusCallbacks;
  clock : Z;
  consensusMode : Mode;
  desiredTargetExcess : option Z
}.

Definition verifyHeaderGasFields (hdr parent : Header) : ExtM unit :=
  _ ← header.VerifyGasUsed Header_Hash parent hdr;
  _ ← lift (header.VerifyGasLimit parent hdr);
  _ ← header.VerifyExtraPrefix Header_Hash parent hdr;
  expectedBaseFee ← lift (wrap_err "failed to calculate base fee"
                            (header.BaseFee parent (types.Time hdr)));
  _ ← lift (fail_if (negb (utils.BigEqual (types.BaseFee hdr) (Some expectedBaseFee)))
              (errors_New "expected base fee %d, found %d"));
  l ← GetHeaderExtra Header_Hash hdr;
  headerExtra ← load l;
  let expectedBlockGasCost := header.BlockGasCost parent (types.Time hdr) in
  let blockGasCostValid :=
    utils.BigEqual (HE_BlockGasCost headerExtra) (Some expectedBlockGasCost) in
  let blockGasCostValid :=
    if negb blockGasCostValid then
      bool_decide (HE_BlockGasCost headerExtra = None) && (expectedBlockGasCost =? 0)
    else blockGasCostValid in
  _ ← lift (fail_if (negb blockGasCostValid)
              (errors_New "invalid block gas cost: have %d, want %d"));
  match HE_ExtDataGasUsed headerExtra with
  | None => lift (Err errExtDataGasUsedNil)
  | Some used => lift (fail_if (negb (IsUint64 used)) errExtDataGasUsedTooLarge)
  end.

Definition verifyHeader (eng : DummyEngine) (chain : ChainHeaderReader)
    (hdr parent : Header) (uncle : bool) : ExtM unit :=
  _ ← lift (fail_if uncle errUnclesUnsupported);
  _ ← lift (header.VerifyExtra (types.Extra hdr));
  _ ← verifyHeaderGasFields hdr parent;
  _ ← lift (fail_if (u64 (clock eng + allowedFutureBlockTime) <? types.Time hdr)
              consensus.ErrFutureBlock);
  _ ← lift (fail_if (types.Time hdr <? types.Time parent) errInvalidBlockTime);
  _ ← lift (fail_if (negb (types.Number hdr - types.Number parent =? 1))
              consensus.ErrInvalidNumber);
  let cancun := IsCancun chain (types.Number hdr) (types.Time hdr) in
  if negb cancun then
    _ ← lift (fail_if (bool_decide (types.ExcessBlobGas hdr <> None))
                (errors_New "invalid excessBlobGas: have %d, expected nil"));
    _ ← lift (fail_if (bool_decide (types.BlobGasUsed hdr <> None))
                (errors_New "invalid blobGasUsed: have %d, expected nil"));
    lift (fail_if (bool_decide (types.ParentBeaconRoot hdr <> None))
            (errors_New "invalid parentBeaconRoot, have %#x, expected nil"))
  else
    match types.ParentBeaconRoot hdr with
    | None => lift (Err (errors_New "header is missing beaconRoot"))
    | Some root =>
        _ ← lift (fail_if (bool_decide (root <> Hash_zero))
                    (errors_New "invalid parentBeaconRoot, have %#x, expected empty"));
        _ ← lift (VerifyEIP4844Header parent hdr);
        match types.BlobGasUsed hdr with
        | None => lift Panic
        | Some used =>
            lift (fail_if (0 <? used) (errors_New "blobs not enabled on lux networks"))
        end
    end.

Definition Author (hdr : Header) : result Address := Ok (types.Coinbase hdr).

Definition VerifyHeader (eng : DummyEngine) (chain : ChainHeaderReader) (hdr : Header)
    : ExtM unit :=
  if ModeSkipHeader (consensusMode eng) then mret tt
  else
    let number := u64 (types.Number hdr) in
    if bool_decide (GetHeader chain (Header_Hash hdr) number <> None) then mret tt
    else
      match GetHeader chain (types.ParentHash hdr) (u64 (number - 1)) with
      | None => lift (Err consensus.ErrUnknownAncestor)
      | Some parent => verifyHeader eng chain hdr parent false
      end.

Definition VerifyUncles (block : Block Transaction) : result unit :=
  fail_if (bool_decide (0 < length (block_Uncles block))%nat) errUnclesUnsupported.

Definition Prepare (hdr : Header) : Header := types.set_Difficulty hdr (Some 1).

(** The loop over the receipts; [txs[i]] panics past the end. *)
Fixpoint blockFee_loop (baseFee : Z) (txs : list Transaction) (receipts : list Receipt)
    (i : nat) (totalBlockFee : Z) : result Z :=
  match receipts with
  | [] => Ok totalBlockFee
  | receipt :: receipts' =>
      match txs !! i with
      | None => Panic
      | Some tx =>
          txFeePremium ← EffectiveGasTip tx baseFee;
          let blockFeeContribution := txFeePremium * Receipt_GasUsed receipt in
          blockFee_loop baseFee txs receipts' (S i) (totalBlockFee + blockFeeContribution)
      end
  end.

(** [big.Int.Div] is Euclidean division, the same as [Z.div] for a positive
    divisor. *)
Definition verifyBlockFee (eng : DummyEngine) (baseFee requiredBlockGasCost : option Z)
    (txs : list Transaction) (receipts : list Receipt)
    (extraStateChangeContribution : option Z) : result unit :=
  if ModeSkipBlockFee (consensusMode eng) then Ok tt
  else
    match baseFee with
    | None => Err (errors_New "invalid base fee (%d)")
    | Some baseFee =>
      _ ← fail_if (baseFee <=? 0) (errors_New "invalid base fee (%d)");
      match requiredBlockGasCost with
      | None => Err (errors_New "invalid block gas cost (%d)")
      | Some requiredBlockGasCost =>
        _ ← fail_if (negb (IsUint64 requiredBlockGasCost))
              (errors_New "invalid block gas cost (%d)");
        totalBlockFee ←
          (match extraStateChangeContribution with
           | None => Ok 0
           | Some c =>
               _ ← fail_if (c <? 0)
                     (errors_New "invalid extra state change contribution: %d");
               Ok (0 + c)
           end);
        totalBlockFee ← blockFee_loop baseFee txs receipts 0 totalBlockFee;
        let blockGas := totalBlockFee / baseFee in
        fail_if (blockGas <? requiredBlockGasCost)
          (errorf_w "expected %d but got %d" ErrInsufficientBlockGas)
      end
    end.

(** The callbacks, with the [nil] case of the callers. *)
Definition call_OnExtraStateChange (eng : DummyEngine) (block : Block Transaction)
    (parent : Header) (statedb : StateDB) : ExtM (option Z * option Z * StateDB) :=
  match OnExtraStateChange (cb eng) with
  | Some f => f block parent statedb
  | None => mret (None, None, statedb)
  end.

Definition call_OnFinalizeAndAssemble (eng : DummyEngine) (hdr parent : Header)
    (statedb : StateDB) (txs : list Transaction)
    : ExtM (list byte * option Z * option Z * StateDB) :=
  match OnFinalizeAndAssemble (cb eng) with
  | Some f => f hdr parent statedb txs
  | None => mret ([], None, None, statedb)
  end.

(** [header.BaseFee != nil && header.BaseFee.Sign() > 0] *)
Definition hasValidBaseFee (baseFee : option Z) : bool :=
  match baseFee with Some b => 0 <? b | None => false end.

(** Calling [IsUint64] on a nil [big.Int] panics. *)
Definition Finalize (eng : DummyEngine) (block : Block Transaction) (parent : Header)
    (statedb : StateDB) (receipts : list Receipt) : ExtM StateDB :=
  '(contribution, extDataGasUsed, statedb) ←
    call_OnExtraStateChange eng block parent statedb;
  let timestamp := types.Time (block_Header block) in
  blockGasCost ← block_BlockGasCost Header_Hash block;
  let expectedBlockGasCost := header.BlockGasCost parent timestamp in
  _ ← lift (fail_if (negb (utils.BigEqual blockGasCost (Some expectedBlockGasCost)))
              (errors_New "invalid blockGasCost: have %d, want %d"));
  let baseFee := types.BaseFee (block_Header block) in
  if hasValidBaseFee baseFee then
    let extDataGasUsed := default 0 extDataGasUsed in
    blockExtDataGasUsed ← BlockExtDataGasUsed Header_Hash block;
    _ ← lift
      (match blockExtDataGasUsed with
       | None => Panic
       | Some used =>
           fail_if (negb (IsUint64 used) || negb (used =? extDataGasUsed))
             (errors_New "invalid extDataGasUsed: have %d, want %d")
       end);
    _ ← lift (verifyBlockFee eng baseFee blockGasCost (block_Transactions block)
                receipts contribution);
    mret statedb
  else mret statedb.

(** The header is the caller's, modified in place: the result has it beside the
    block.  [headerExtra] is a pointer into the side table, so the two assignments
    to its fields are visible to every holder of the object. *)
Definition FinalizeAndAssemble (eng : DummyEngine) (chain : ChainHeaderReader)
    (hdr parent : Header) (statedb : StateDB) (txs : list Transaction)
    (uncles : list Header) (receipts : list Receipt)
    : ExtM (Header * Block Transaction * StateDB) :=
  '(extraData, contribution, extDataGasUsed, statedb) ←
    call_OnFinalizeAndAssemble eng hdr parent statedb txs;
  l ← GetHeaderExtra Header_Hash hdr;
  headerExtra ← load l;
  let blockGasCost := Some (header.BlockGasCost parent (types.Time hdr)) in
  _ ← store l {| HE_ExtDataHash := HE_ExtDataHash headerExtra;
                 HE_ExtDataGasUsed := HE_ExtDataGasUsed headerExtra;
                 HE_BlockGasCost := blockGasCost |};
  let hdr := types.set_BlockGasCost hdr blockGasCost in
  hdr ←
    (if hasValidBaseFee (types.BaseFee hdr) then
       let used := Some (default 0 extDataGasUsed) in
       headerExtra ← load l;
       _ ← store l {| HE_ExtDataHash := HE_ExtDataHash headerExtra;
                      HE_ExtDataGasUsed := used;
                      HE_BlockGasCost := HE_BlockGasCost headerExtra |};
       let hdr := types.set_ExtDataGasUsed hdr used in
       _ ← lift (verifyBlockFee eng (types.BaseFee hdr) blockGasCost txs receipts
                   contribution);
       mret hdr
     else mret hdr);
  extraPrefix ← wrapM "failed to calculate new header.Extra"
                  (header.ExtraPrefix Header_Hash parent hdr (desiredTargetExcess eng));
  let hdr := types.set_Extra hdr (extraPrefix ++ types.Extra hdr) in
  let '(root, statedb) := IntermediateRoot statedb (IsEIP158 chain (types.Number hdr)) in
  let hdr := types.set_Root hdr root in
  _ ← SetHeaderExtra Header_Hash hdr l;
  '(hdr, block) ← NewBlockWithExtData Header_Hash rlpHash NewBlock_header
                    hdr txs uncles receipts extraData true;
  mret (hdr, block, statedb).

Definition CalcDifficulty (time : Z) (parent : Header) : Z := 1.

End Engine.

(** ** Laws *)

Section Laws.
Context {SM : SafeMath} {GL : GasLib} {SMs : SafeMathSpec SM} {GLs : GasLibSpec GL}.
Context {Transaction Receipt StateDB : Type}.
Context (Header_Hash : Header -> Hash).
Context (EffectiveGasTip : Transaction -> Z -> result Z).
Context (Receipt_GasUsed : Receipt -> Z).

Implicit Types eng : @DummyEngine Transaction StateDB.

(** The priority fees of a block, transaction by transaction. *)
Fixpoint priorityFees (baseFee : Z) (txs : list Transaction) (receipts : list Receipt)
    {struct receipts} : result Z :=
  match receipts, txs with
  | [], _ => Ok 0
  | _ :: _, [] => Panic
  | receipt :: receipts', tx :: txs' =>
      tip ← EffectiveGasTip tx baseFee;
      rest ← priorityFees baseFee txs' receipts';
      Ok (tip * Receipt_GasUsed receipt + rest)
  end.

Lemma blockFee_loop_sum baseFee txs receipts i total :
  blockFee_loop EffectiveGasTip Receipt_GasUsed baseFee txs receipts i total =
  (fees ← priorityFees baseFee (drop i txs) receipts; Ok (total + fees)).
Proof.
  revert i total. induction receipts as [|receipt receipts IH]; intros i total; simpl.
  - change (Ok total = Ok (total + 0)). f_equal. lia.
  - destruct (txs !! i) as [tx|] eqn:Hi.
    + rewrite (drop_S txs tx i Hi). destruct (EffectiveGasTip tx baseFee); simpl; [|done..].
      rewrite IH. destruct (priorityFees _ _ receipts); simpl; [|done..]. f_equal. lia.
    + by rewrite drop_ge by (by apply lookup_ge_None).
Qed.

(** The block fee is checked exactly: with the check enabled, [verifyBlockFee]
    accepts iff the base fee is positive, the required cost is a [uint64], the
    external contribution is not negative, every transaction's tip is defined, and
    the tips times the gas used plus the contribution pay for the required gas at
    the base fee. *)
Theorem verifyBlockFee_iff (eng : @DummyEngine Transaction StateDB)
    (baseFee cost contribution : option Z)
    (txs : list Transaction) (receipts : list Receipt)
    (Hmode : ModeSkipBlockFee (consensusMode eng) = false) :
  verifyBlockFee EffectiveGasTip Receipt_GasUsed eng baseFee cost txs receipts
    contribution = Ok tt <->
  exists b c fees, baseFee = Some b /\ cost = Some c /\ 0 < b /\ is_u64 c /\
    0 <= default 0 contribution /\ priorityFees b txs receipts = Ok fees /\
    c * b <= default 0 contribution + fees.
Proof.
  unfold verifyBlockFee. rewrite Hmode. destruct baseFee as [b|]; [|naive_solver].
  unfold fail_if. destruct (Z.leb_spec b 0); simpl; [naive_solver lia|].
  destruct cost as [c|]; [|naive_solver].
  destruct (IsUint64 c) eqn:Hc; simpl; cycle 1.
  { split; [done|]. intros (? & ? & ? & _ & [= <-] & _ & Hu & _).
    apply IsUint64_spec in Hu. congruence. }
  apply IsUint64_spec in Hc.
  set (K := fun total => mbind (M := result) _ _).
  assert (HK : forall t, K t = Ok tt <->
            exists fees, priorityFees b txs receipts = Ok fees /\ c * b <= t + fees).
  { intros t. unfold K. rewrite blockFee_loop_sum, drop_0.
    destruct (priorityFees b txs receipts) as [fees| |]; simpl; [|naive_solver..].
    assert ((t + fees) / b <? c = true <-> t + fees < c * b) as Hlt.
    { rewrite Z.ltb_lt. split; intros ?.
      - apply Z.lt_nge. intros ?. assert (c <= (t + fees) / b); [|lia].
        apply Z.div_le_lower_bound; lia.
      - apply Z.div_lt_upper_bound; lia. }
    destruct (_ <? c); split; try done.
    - intros (? & [= <-] & ?). lia.
    - intros _. exists fees. split; [done|]. lia. }
  destruct contribution as [x|]; simpl.
  - destruct (Z.ltb_spec x 0); simpl; [naive_solver lia|]. rewrite HK. naive_solver.
  - rewrite HK. naive_solver lia.
Qed.

(** What the gas fields of an accepted header are. *)
Record gas_fields_ok (parent hdr : Header) (extra : HeaderExtra) : Prop := {
  gf_state : exists s0 s, header.feeStateBeforeBlock parent (types.Time hdr) = Ok s0 /\
    types.GasLimit hdr = MaxCapacity s0 /\ types.BaseFee hdr = Some (GasPrice s0) /\
    ParseState (types.Extra hdr) = Ok s /\
    header.feeStateAfter parent hdr (HE_ExtDataGasUsed extra) (Some (TargetExcess s)) = Ok s;
  gf_cost : HE_BlockGasCost extra = None \/ HE_BlockGasCost extra = Some 0;
  gf_ext : exists used, HE_ExtDataGasUsed extra = Some used /\ is_u64 used
}.

Lemma VerifyGasLimit_Ok parent hdr :
  header.VerifyGasLimit parent hdr = Ok tt <->
  exists s0, header.feeStateBeforeBlock parent (types.Time hdr) = Ok s0 /\
    types.GasLimit hdr = MaxCapacity s0.
Proof.
  unfold header.VerifyGasLimit.
  destruct (header.feeStateBeforeBlock _ _) as [s0|e|]; cbn;
    [|split; [done|by intros (? & ? & _)]..].
  unfold fail_if. destruct (Z.eqb_spec (types.GasLimit hdr) (MaxCapacity s0)); simpl.
  - split; [eauto|done].
  - split; [done|]. by intros (? & [= <-] & ?).
Qed.

Lemma cost_and_ext_Ok (st : ExtrasStore) (extra : HeaderExtra) (parent hdr : Header) :
  let valid := utils.BigEqual (HE_BlockGasCost extra) (Some 0) in
  let valid := if negb valid then bool_decide (HE_BlockGasCost extra = None) && (0 =? 0)
               else valid in
  fst ((_ ← lift (fail_if (negb valid)
              (errors_New "invalid block gas cost: have %d, want %d"));
   match HE_ExtDataGasUsed extra with
   | None => lift (Err errExtDataGasUsedNil)
   | Some used => lift (fail_if (negb (IsUint64 used)) errExtDataGasUsedTooLarge)
   end) st) = Ok tt <->
  (HE_BlockGasCost extra = None \/ HE_BlockGasCost extra = Some 0) /\
  (exists used, HE_ExtDataGasUsed extra = Some used /\ is_u64 used).
Proof.
  cbv zeta. rewrite bindM_Ok.
  assert (Hv : (if negb (utils.BigEqual (HE_BlockGasCost extra) (Some 0))
                then bool_decide (HE_BlockGasCost extra = None) && (0 =? 0)
                else utils.BigEqual (HE_BlockGasCost extra) (Some 0)) = true <->
               HE_BlockGasCost extra = None \/ HE_BlockGasCost extra = Some 0).
  { destruct (HE_BlockGasCost extra) as [c|]; simpl; [|naive_solver].
    destruct (Z.eqb_spec c 0) as [->|]; simpl; naive_solver. }
  rewrite <- Hv. destruct (if negb _ then _ else _); simpl; [|naive_solver].
  destruct (HE_ExtDataGasUsed extra) as [used|]; simpl; [|naive_solver].
  unfold fail_if. destruct (IsUint64 used) eqn:Hu; simpl.
  - apply IsUint64_spec in Hu. naive_solver.
  - split; [naive_solver|]. intros [_ (? & [= <-] & Hu')].
    apply IsUint64_spec in Hu'. congruence.
Qed.

Lemma verifyHeaderGasFields_Ok parent hdr st :
  store_wf st -> header.is_header parent -> header.is_header hdr ->
  fst (verifyHeaderGasFields Header_Hash hdr parent st) = Ok tt <->
  gas_fields_ok parent hdr (extra_of Header_Hash st hdr).
Proof.
  intros Hwf Hp Hh. unfold verifyHeaderGasFields.
  pose proof (header.VerifyGasUsed_caches Header_Hash parent hdr) as C1.
  pose proof (header.VerifyExtraPrefix_caches Header_Hash parent hdr) as C2.
  destruct (caches_view Header_Hash hdr _ st C1 Hwf) as [Hwf1 Hv1].
  set (st1 := snd (header.VerifyGasUsed Header_Hash parent hdr st)) in *.
  destruct (caches_view Header_Hash hdr _ st1 C2 Hwf1) as [Hwf2 Hv2].
  set (st2 := snd (header.VerifyExtraPrefix Header_Hash parent hdr st1)) in *.
  rewrite seqM_Ok. fold st1. rewrite lift_seqM_Ok, seqM_Ok. fold st2.
  rewrite bindM_Ok. cbn [lift fst snd].
  rewrite header.VerifyGasUsed_Ok, VerifyGasLimit_Ok, header.VerifyExtraPrefix_Ok by done.
  rewrite Hv1. split.
  - intros (_ & (s0 & H0 & Hgl) & (s & Hparse & Hafter) & fee & Hfee%wrap_err_Ok & Hrest).
    rewrite lift_seqM_Ok, read_extra in Hrest by done.
    destruct Hrest as [Hbf%fail_if_Ok_iff Hrest].
    apply cost_and_ext_Ok in Hrest as [Hcost Hext]; [|done..]. rewrite Hv2, Hv1 in *.
    unfold header.BaseFee in Hfee. rewrite H0 in Hfee. injection Hfee as <-.
    apply negb_false_iff, utils.BigEqual_spec in Hbf.
    split; [|done..]. by exists s0, s.
  - intros [(s0 & s & H0 & Hgl & Hbf & Hparse & Hafter) Hcost Hext].
    assert (Hok : is_Ok (header.feeStateAfter parent hdr
        (HE_ExtDataGasUsed (extra_of Header_Hash st hdr)) (Some (TargetExcess s))) = true)
      by (by rewrite Hafter).
    split; [by eapply header.feeStateAfter_is_Ok|]. split; [eauto|]. split; [eauto|].
    exists (GasPrice s0). unfold header.BaseFee. rewrite H0. split; [done|].
    rewrite lift_seqM_Ok, read_extra by done. split.
    + apply fail_if_Ok_iff, negb_false_iff, utils.BigEqual_spec. done.
    + apply cost_and_ext_Ok; [done..|]. by rewrite Hv2, Hv1.
Qed.

(** The blob fields of an accepted header: absent before Cancun, zero after. *)
Definition blob_fields_ok (cancun : bool) (parent hdr : Header) : Prop :=
  if cancun then
    types.ParentBeaconRoot hdr = Some Hash_zero /\ types.BlobGasUsed hdr = Some 0 /\
    exists pe pu,
      types.ExcessBlobGas hdr = Some (eip4844.CalcExcessBlobGas pe pu) /\
      match types.ExcessBlobGas parent with
      | None => pe = 0 /\ pu = 0
      | Some e => pe = e /\ types.BlobGasUsed parent = Some pu
      end
  else
    types.ExcessBlobGas hdr = None /\ types.BlobGasUsed hdr = None /\
    types.ParentBeaconRoot hdr = None.

Lemma VerifyEIP4844Header_Ok parent hdr used :
  types.BlobGasUsed hdr = Some used -> used = 0 ->
  VerifyEIP4844Header parent hdr = Ok tt <->
  exists pe pu,
    types.ExcessBlobGas hdr = Some (eip4844.CalcExcessBlobGas pe pu) /\
    match types.ExcessBlobGas parent with
    | None => pe = 0 /\ pu = 0
    | Some e => pe = e /\ types.BlobGasUsed parent = Some pu
    end.
Proof.
  intros Hu ->. unfold VerifyEIP4844Header. rewrite Hu.
  destruct (types.ExcessBlobGas hdr) as [excess|]; [|naive_solver].
  change (eip4844.MaxBlobGasPerBlock <? 0) with false.
  change (0 mod eip4844.BlobTxBlobGasPerBlob =? 0) with true.
  cbn [mbind result_bind fail_if negb].
  destruct (types.ExcessBlobGas parent) as [e|].
  - destruct (types.BlobGasUsed parent) as [u|]; cbn [mbind result_bind]; [|naive_solver].
    rewrite fail_if_Ok_iff, negb_false_iff, Z.eqb_eq. naive_solver.
  - cbn [mbind result_bind]. rewrite fail_if_Ok_iff, negb_false_iff, Z.eqb_eq. naive_solver.
Qed.

Lemma blob_checks_Ok (chain : ChainHeaderReader) (parent hdr : Header) (st : ExtrasStore)
    (cancun : bool) :
  from_option is_u64 True (types.BlobGasUsed hdr) ->
  fst ((if negb cancun then
    _ ← lift (fail_if (bool_decide (types.ExcessBlobGas hdr <> None))
                (errors_New "invalid excessBlobGas: have %d, expected nil"));
    _ ← lift (fail_if (bool_decide (types.BlobGasUsed hdr <> None))
                (errors_New "invalid blobGasUsed: have %d, expected nil"));
    lift (fail_if (bool_decide (types.ParentBeaconRoot hdr <> None))
            (errors_New "invalid parentBeaconRoot, have %#x, expected nil"))
  else
    match types.ParentBeaconRoot hdr with
    | None => lift (Err (errors_New "header is missing beaconRoot"))
    | Some root =>
        _ ← lift (fail_if (bool_decide (root <> Hash_zero))
                    (errors_New "invalid parentBeaconRoot, have %#x, expected empty"));
        _ ← lift (VerifyEIP4844Header parent hdr);
        match types.BlobGasUsed hdr with
        | None => lift Panic
        | Some used =>
            lift (fail_if (0 <? used) (errors_New "blobs not enabled on lux networks"))
        end
    end) st) = Ok tt <-> blob_fields_ok cancun parent hdr.
Proof.
  intros Hb. unfold blob_fields_ok. destruct cancun; cbn [negb].
  - destruct (types.ParentBeaconRoot hdr) as [root|]; [|naive_solver].
    rewrite !lift_seqM_Ok, fail_if_Ok_iff, bool_decide_eq_false.
    destruct (types.BlobGasUsed hdr) as [used|] eqn:Hu; [|naive_solver].
    cbn [lift fst from_option] in *. rewrite fail_if_Ok_iff, Z.ltb_ge. split.
    + intros (Hr & Hv & H0). assert (used = 0) as -> by u64_lia.
      apply (VerifyEIP4844Header_Ok _ _ 0) in Hv; [|done..].
      split; [|done]. f_equal. by destruct (decide (root = Hash_zero)).
    + intros ([= ->] & [= ->] & Hv). split; [naive_solver|].
      split; [by apply (VerifyEIP4844Header_Ok _ _ 0)|lia].
  - rewrite !lift_seqM_Ok. cbn [lift fst]. rewrite !fail_if_Ok_iff, !bool_decide_eq_false.
    destruct (types.ExcessBlobGas hdr), (types.BlobGasUsed hdr),
      (types.ParentBeaconRoot hdr); naive_solver.
Qed.

(** C36. Header verification decides exactly the consensus rules of a header: it
    accepts iff the gas fields agree with the parent's fee state, the timestamp is
    between the parent's and ten seconds into the future, the number follows the
    parent's, and the blob fields are those of a chain without blobs. *)
Theorem verifyHeader_iff (eng : @DummyEngine Transaction StateDB)
    (chain : ChainHeaderReader) (hdr parent : Header) (st : ExtrasStore)
    (Hwf : store_wf st) (Hp : header.is_header parent) (Hh : header.is_header hdr)
    (Hb : from_option is_u64 True (types.BlobGasUsed hdr)) :
  fst (verifyHeader Header_Hash eng chain hdr parent false st) = Ok tt <->
  gas_fields_ok parent hdr (extra_of Header_Hash st hdr) /\
  types.Time parent <= types.Time hdr <= u64 (clock eng + allowedFutureBlockTime) /\
  types.Number hdr = types.Number parent + 1 /\
  blob_fields_ok (IsCancun chain (types.Number hdr) (types.Time hdr)) parent hdr.
Proof.
  unfold verifyHeader. rewrite !lift_seqM_Ok, seqM_Ok, !lift_seqM_Ok, !fail_if_Ok_iff.
  rewrite verifyHeaderGasFields_Ok by done. rewrite blob_checks_Ok by done.
  rewrite negb_false_iff, Z.eqb_eq, !Z.ltb_ge. split.
  - intros (_ & _ & Hg & Hf & Ht & Hn & Hbl). repeat (split; [done || lia|]). done.
  - intros (Hg & Ht & Hn & Hbl). split; [done|]. split.
    + destruct Hg as [(s0 & s & _ & _ & _ & Hparse & _) _ _].
      apply ParseState_inv in Hparse as (_ & _ & Hlen).
      apply fail_if_Ok_iff, bool_decide_eq_false. lia.
    + repeat (split; [done || lia|]). done.
Qed.

Context (rlpHash : list byte -> Hash).
Context (NewBlock_header : Header -> Body Transaction -> list Receipt -> Header).
Context {NBs : NewBlockSpec NewBlock_header}.
Context (IntermediateRoot : StateDB -> bool -> Hash * StateDB).

(** The header between the two assignments to its native fields and the
    computation of its [Extra]. *)
Definition priced_header (hdr : Header) (used : Z) : Header :=
  types.set_ExtDataGasUsed (types.set_BlockGasCost hdr (Some 0)) (Some used).

Lemma priced_header_fields hdr used :
  same_fee_fields hdr (priced_header hdr used) /\
  types.Extra (priced_header hdr used) = types.Extra hdr /\
  native_extra (priced_header hdr used) =
    {| HE_ExtDataHash := default Hash_zero (types.ExtDataHash hdr);
       HE_ExtDataGasUsed := Some used; HE_BlockGasCost := Some 0 |}.
Proof. destruct hdr; by repeat split. Qed.

(** The hash of the intermediate header is the input's or has no entry yet. *)
Definition fresh_or_same (st : ExtrasStore) (hdr : Header) (used : Z) : Prop :=
  Header_Hash (priced_header hdr used) = Header_Hash hdr \/
  headerExtras st !! Header_Hash (priced_header hdr used) = None.

(** After the assignments through the pointer, the object behind it and the extra
    of the intermediate header both hold the atomic gas and a zero block cost. *)
Lemma assign_extra hdr used st :
  store_wf st -> fresh_or_same st hdr used ->
  exists l st2, GetHeaderExtra Header_Hash hdr st = (Ok l, st2) /\
    forall h e, e = {| HE_ExtDataHash := h; HE_ExtDataGasUsed := Some used;
                       HE_BlockGasCost := Some 0 |} ->
    forall e', let st4 := write_extra l e (write_extra l e' st2) in
    store_wf st4 /\ deref st4 l = e /\ is_Some (es_heap st4 !! l) /\
    HE_ExtDataGasUsed (extra_of Header_Hash st4 (priced_header hdr used)) = Some used.
Proof.
  intros Hwf Hfresh.
  destruct (GetHeaderExtra_run Header_Hash hdr st Hwf)
    as (l & st2 & Hg & Hwf2 & _ & Hk & Hl & _ & _).
  exists l, st2. split; [done|]. intros h e -> e' st4.
  assert (Hwf3 : store_wf (write_extra l e' st2)) by (by apply write_extra_wf).
  assert (Hl3 : is_Some (es_heap (write_extra l e' st2) !! l))
    by (cbn; rewrite lookup_insert_eq; eauto).
  split; [by apply write_extra_wf|].
  split; [apply deref_write|].
  split; [cbn; rewrite lookup_insert_eq; eauto|].
  unfold extra_of, headerKey. change (headerExtras st4) with (headerExtras st2). destruct Hfresh as [-> | Hnone].
  - unfold headerKey in Hk. rewrite Hk. unfold st4. by rewrite deref_write.
  - destruct (decide (Header_Hash (priced_header hdr used) = Header_Hash hdr)) as [->|Hne].
    + unfold headerKey in Hk. rewrite Hk. unfold st4. by rewrite deref_write.
    + unfold GetHeaderExtra, extras_Header_Get in Hg.
      destruct (headerExtras st !! headerKey Header_Hash hdr) eqn:E.
      * injection Hg as <- <-. rewrite Hnone.
        by destruct (priced_header_fields hdr used) as (_ & _ & ->).
      * injection Hg as <- <-. cbn. rewrite lookup_insert_ne by (by intros ?).
        rewrite Hnone. by destruct (priced_header_fields hdr used) as (_ & _ & ->).
Qed.

(** The last part of [FinalizeAndAssemble], from a header [hdr] whose extra is
    settled and a pointer [l] to it. *)
Lemma assemble_tail eng (chain : ChainHeaderReader) hdr parent txs uncles receipts
    extraData (root : bool -> Hash * StateDB) l used cost st hdr' block statedb' st' :
  store_wf st -> is_Some (es_heap st !! l) ->
  HE_ExtDataGasUsed (deref st l) = Some used -> HE_BlockGasCost (deref st l) = cost ->
  HE_ExtDataGasUsed (extra_of Header_Hash st hdr) = Some used ->
  (extraPrefix ← wrapM "failed to calculate new header.Extra"
                  (header.ExtraPrefix Header_Hash parent hdr (desiredTargetExcess eng));
   let hdr := types.set_Extra hdr (extraPrefix ++ types.Extra hdr) in
   let '(root, statedb) := root (IsEIP158 chain (types.Number hdr)) in
   let hdr := types.set_Root hdr root in
   _ ← SetHeaderExtra Header_Hash hdr l;
   '(hdr, block) ← NewBlockWithExtData Header_Hash rlpHash NewBlock_header
                     hdr txs uncles receipts extraData true;
   mret (hdr, block, statedb)) st = (Ok (hdr', block, statedb'), st') ->
  exists s, header.feeStateAfter parent hdr (Some used) (desiredTargetExcess eng) = Ok s /\
    store_wf st' /\
    extra_of Header_Hash st' (block_Header block) =
      {| HE_ExtDataHash := CalcExtDataHash rlpHash extraData;
         HE_ExtDataGasUsed := Some used; HE_BlockGasCost := cost |} /\
    same_fee_fields hdr (block_Header block) /\
    types.Extra (block_Header block) = Bytes s ++ types.Extra hdr /\
    block_Transactions block = txs /\
    extras_Block_Get block st' = {| BE_Version := 0; BE_ExtData := Some extraData |} /\
    exists h3, block_Header block = NewBlock_header h3 (mkBody txs uncles) receipts /\
      (types.Root h3, statedb') = root (IsEIP158 chain (types.Number hdr)) /\ block_Uncles block = uncles.
Proof.
  intros Hwf Hl Hd <- Hext Hrun.
  apply bindM_run in Hrun as (prefix & st5 & Hpre%wrapM_run & Hrun).
  apply header.ExtraPrefix_run in Hpre as (s & Hs & -> & Hst5); [|done].
  rewrite Hext in Hs. exists s. split; [done|].
  destruct (cached_deref Header_Hash hdr st l Hwf Hl) as [Hcd Hcl].
  assert (store_wf st5 /\ deref st5 l = deref st l /\ is_Some (es_heap st5 !! l))
    as (Hwf5 & Hd5 & Hl5) by (destruct Hst5 as [->| ->]; auto using cached_wf).
  cbv zeta in Hrun. replace (types.Number (types.set_Extra hdr _)) with (types.Number hdr) in Hrun by (by destruct hdr).
  destruct (root _) as [r statedb].
  set (hdr3 := types.set_Root (types.set_Extra hdr (Bytes s ++ types.Extra hdr)) r) in *.
  assert (Hf3 : same_fee_fields hdr hdr3 /\ types.Extra hdr3 = Bytes s ++ types.Extra hdr)
    by (unfold hdr3; destruct hdr; by repeat split).
  apply bindM_run in Hrun as ([] & st6 & [= <-] & Hrun).
  assert (Hwf6 : store_wf (extras_Header_Set Header_Hash hdr3 l st5))
    by (by apply store_extra_wf).
  assert (He6 : extra_of Header_Hash (extras_Header_Set Header_Hash hdr3 l st5) hdr3 =
                deref st l).
  { unfold extra_of, extras_Header_Set. cbn. by rewrite lookup_insert_eq. }
  destruct (NewBlockWithExtData_spec Header_Hash rlpHash NewBlock_header hdr3 txs uncles
              receipts extraData true _ Hwf6)
    as (h' & blk & st7 & Hnew & Hwf7 & He7 & Hbh & Hf & HE & Htx & Hunc & Hbe & Hroot).
  apply bindM_run in Hrun as ([h'' blk''] & st8 & Hnew' & [= <- <- <- <-]).
  rewrite Hnew in Hnew'. injection Hnew' as <- <- <-.
  rewrite He6, Hd in He7. split; [done|]. split; [done|]. rewrite Hbh.
  split; [|rewrite NewBlock_Extra, HE, Hbe; destruct Hf3 as [_ ->]; split_and!; try done].
  2: { exists h'. split; [done|]. rewrite Hroot. unfold hdr3. by destruct hdr. }
  destruct Hf3 as [Hf3 _].
  eapply same_fee_fields_trans; [done|]. eapply same_fee_fields_trans; [done|].
  apply NewBlock_fee_fields.
Qed.

Lemma FinalizeAndAssemble_result eng chain hdr parent statedb txs uncles receipts st
    extraData contribution ext statedb1 st1 hdr' block statedb' st' :
  call_OnFinalizeAndAssemble eng hdr parent statedb txs st =
    (Ok (extraData, contribution, ext, statedb1), st1) ->
  store_wf st1 -> hasValidBaseFee (types.BaseFee hdr) = true ->
  fresh_or_same st1 hdr (default 0 ext) ->
  FinalizeAndAssemble Header_Hash rlpHash NewBlock_header EffectiveGasTip Receipt_GasUsed
    IntermediateRoot eng chain hdr parent statedb txs uncles receipts st =
    (Ok (hdr', block, statedb'), st') ->
  verifyBlockFee EffectiveGasTip Receipt_GasUsed eng (types.BaseFee hdr) (Some 0) txs
    receipts contribution = Ok tt /\
  exists s, header.feeStateAfter parent hdr (Some (default 0 ext))
              (desiredTargetExcess eng) = Ok s /\
    store_wf st' /\
    extra_of Header_Hash st' (block_Header block) =
      {| HE_ExtDataHash := CalcExtDataHash rlpHash extraData;
         HE_ExtDataGasUsed := Some (default 0 ext); HE_BlockGasCost := Some 0 |} /\
    same_fee_fields hdr (block_Header block) /\
    types.Extra (block_Header block) = Bytes s ++ types.Extra hdr /\
    block_Transactions block = txs /\
    extras_Block_Get block st' = {| BE_Version := 0; BE_ExtData := Some extraData |} /\
    exists h3, block_Header block = NewBlock_header h3 (mkBody txs uncles) receipts /\
      (types.Root h3, statedb') = IntermediateRoot statedb1 (IsEIP158 chain (types.Number hdr)) /\
      block_Uncles block = uncles.
Proof.
  intros Hcb Hwf1 Hbf Hfresh Hrun. unfold FinalizeAndAssemble in Hrun.
  apply bindM_run in Hrun as (r & st1' & Hcb' & Hrun). rewrite Hcb in Hcb'.
  injection Hcb' as <- <-.
  destruct (assign_extra hdr (default 0 ext) st1 Hwf1 Hfresh) as (l & st2 & Hget & Hasg).
  apply bindM_run in Hrun as (l' & st2' & Hget' & Hrun). rewrite Hget in Hget'.
  injection Hget' as <- <-.
  apply bindM_run in Hrun as (extra & st2' & [= <- <-] & Hrun).
  apply bindM_run in Hrun as ([] & st3 & [= <-] & Hrun).
  apply bindM_run in Hrun as (hdr1 & st4 & Hmid & Hrun).
  replace (types.BaseFee (types.set_BlockGasCost hdr _)) with (types.BaseFee hdr) in Hmid
    by (by destruct hdr).
  rewrite Hbf in Hmid. cbv zeta in Hmid.
  apply bindM_run in Hmid as (extra' & st3' & [= <- <-] & Hmid).
  apply bindM_run in Hmid as ([] & st3' & [= <-] & Hmid).
  apply bindM_run in Hmid as ([] & st3' & [= Hfee <-] & [= <- <-]).
  change (types.set_ExtDataGasUsed _ _) with (priced_header hdr (default 0 ext)) in *.
  destruct (priced_header_fields hdr (default 0 ext)) as (Hpf & HpE & _).
  split; [by destruct hdr|].
  rewrite !deref_write in Hrun. cbn [HE_ExtDataHash HE_BlockGasCost] in Hrun.
  match type of Hrun with _ (write_extra _ ?e (write_extra _ ?e' _)) = _ =>
    destruct (Hasg _ e eq_refl e') as (Hwf4 & Hd4 & Hl4 & He4) end.
  eapply (assemble_tail _ _ _ _ _ _ _ _ (IntermediateRoot statedb1)) in Hrun
    as (s & Hs & Hrest); [|done|done|by rewrite Hd4|done|done].
  exists s. rewrite <- (header.feeStateAfter_fields parent hdr _ _ _ Hpf).
  split; [done|]. rewrite Hd4, HpE in Hrest.
  destruct Hrest as (? & ? & ? & ?). repeat (split; [done|]). split; [by eapply same_fee_fields_trans|].
  replace (types.Number hdr) with (types.Number (priced_header hdr (default 0 ext))) by (by destruct hdr). done.
Qed.


(** The verdict of [Finalize] once the callback has run. *)
Lemma Finalize_after_callback eng block parent statedb receipts st
    contribution ext statedb1 st1 :
  call_OnExtraStateChange eng block parent statedb st =
    (Ok (contribution, ext, statedb1), st1) ->
  store_wf st1 ->
  let extra := extra_of Header_Hash st1 (block_Header block) in
  let fee := types.BaseFee (block_Header block) in
  fst (Finalize Header_Hash EffectiveGasTip Receipt_GasUsed eng block parent statedb
         receipts st) = Ok statedb1 <->
  HE_BlockGasCost extra = Some 0 /\
  (hasValidBaseFee fee = true ->
   is_u64 (default 0 ext) /\ HE_ExtDataGasUsed extra = Some (default 0 ext) /\
   verifyBlockFee EffectiveGasTip Receipt_GasUsed eng fee (Some 0)
     (block_Transactions block) receipts contribution = Ok tt).
Proof.
  intros Hcb Hwf extra fee. unfold Finalize. rewrite bindM_Ok, Hcb. cbn [fst snd].
  rewrite Ok_exists. cbv beta iota zeta. unfold block_BlockGasCost, BlockExtDataGasUsed.
  rewrite bindM_Ok, read_extra by done. fold extra. cbn [fst snd mret StM_ret].
  pose proof (cached_wf Header_Hash (block_Header block) st1 Hwf) as Hwf2.
  pose proof (extra_of_cached Header_Hash (block_Header block) st1 Hwf) as Hx2.
  set (st2 := cached Header_Hash (block_Header block) st1) in *. fold extra in Hx2.
  fold fee. rewrite Ok_exists, lift_seqM_Ok, fail_if_Ok_iff, negb_false_iff,
    utils.BigEqual_spec.
  change (header.BlockGasCost _ _) with 0. apply and_iff_compat_l'. intros ->.
  destruct (hasValidBaseFee fee) eqn:Hf; [|done].
  rewrite bindM_Ok, read_extra by done. rewrite Hx2. cbn [fst snd mret StM_ret].
  rewrite Ok_exists, !lift_seqM_Ok. cbn [fst mret StM_ret].
  destruct (HE_ExtDataGasUsed extra) as [used|].
  - rewrite fail_if_Ok_iff, orb_false_iff, !negb_false_iff, IsUint64_spec, Z.eqb_eq. split.
    + intros ((Hu & ->) & Hv & _) _. auto.
    + intros H. destruct (H eq_refl) as (Hu & [= ->] & Hv). auto.
  - split; [by intros (? & _)|]. intros H. by destruct (H eq_refl) as (_ & ? & _).
Qed.

(** What the builder's half of the engine produces, the verifier's half accepts:
    when [OnExtraStateChange] recovers from the block the contribution and the atomic
    gas that [OnFinalizeAndAssemble] reported, [Finalize] succeeds on the assembled
    block with the same receipts. *)
Theorem Finalize_accepts_assembled (eng : @DummyEngine Transaction StateDB)
    (chain : ChainHeaderReader) (hdr parent : Header)
    (statedb statedb1 statedb' vdb vdb' : StateDB) (txs : list Transaction)
    (uncles : list Header) (receipts : list Receipt) (st st1 st' st2 : ExtrasStore)
    (extraData : list byte) (contribution ext : option Z) (hdr' : Header)
    (block : Block Transaction)
    (Hp : header.is_header parent) (Hh : header.is_header hdr)
    (Hbf : hasValidBaseFee (types.BaseFee hdr) = true)
    (Hcb : call_OnFinalizeAndAssemble eng hdr parent statedb txs st =
             (Ok (extraData, contribution, ext, statedb1), st1))
    (Hwf : store_wf st1) (Hfresh : fresh_or_same st1 hdr (default 0 ext))
    (Hrun : FinalizeAndAssemble Header_Hash rlpHash NewBlock_header EffectiveGasTip
              Receipt_GasUsed IntermediateRoot eng chain hdr parent statedb txs uncles
              receipts st = (Ok (hdr', block, statedb'), st'))
    (Hcb' : call_OnExtraStateChange eng block parent vdb st' =
              (Ok (contribution, ext, vdb'), st2))
    (Hwf2 : store_wf st2)
    (Hview : extra_of Header_Hash st2 (block_Header block) =
             extra_of Header_Hash st' (block_Header block)) :
  fst (Finalize Header_Hash EffectiveGasTip Receipt_GasUsed eng block parent vdb receipts
         st') = Ok vdb'.
Proof.
  eapply FinalizeAndAssemble_result in Hrun as
    (Hfee & s & Hs & Hwf' & Hext & Hf & HE & Htx & Hbe & _); [|done..].
  apply (Finalize_after_callback eng block parent vdb receipts st' _ _ _ _ Hcb' Hwf2).
  rewrite Hview, Hext, Htx. destruct Hf as (_ & _ & _ & _ & -> & _). cbn. split; [done|].
  intros _. split; [|done].
  apply header.feeStateAfter_Ok in Hs as (s0 & s1 & H0 & Hs0 & H1 & _); [|done..].
  apply is_state_ConsumeGas in H1 as (_ & Hge & Hle & _); [|done|apply Hh].
  unfold extra_gas in *. cbn in *. destruct Hh as (_ & Hg & _), Hs0 as [[Hc _] _]. u64_lia.
Qed.

(** The two checks of the block gas cost disagree on a missing value: the header
    check accepts a header without a [BlockGasCost] just as one with cost zero, but
    [Finalize] never accepts the block. *)
Theorem nil_BlockGasCost_never_finalizes (eng : @DummyEngine Transaction StateDB)
    (block : Block Transaction) (parent : Header) (statedb statedb1 : StateDB)
    (receipts : list Receipt) (st st1 : ExtrasStore) (contribution ext : option Z)
    (Hp : header.is_header parent) (Hh : header.is_header (block_Header block))
    (Hwf : store_wf st1)
    (Hnil : HE_BlockGasCost (extra_of Header_Hash st1 (block_Header block)) = None)
    (Hcb : call_OnExtraStateChange eng block parent statedb st =
             (Ok (contribution, ext, statedb1), st1)) :
  let extra := extra_of Header_Hash st1 (block_Header block) in
  (fst (verifyHeaderGasFields Header_Hash (block_Header block) parent st1) = Ok tt <->
   gas_fields_ok parent (block_Header block)
     {| HE_ExtDataHash := HE_ExtDataHash extra;
        HE_ExtDataGasUsed := HE_ExtDataGasUsed extra; HE_BlockGasCost := Some 0 |}) /\
  is_Err (fst (Finalize Header_Hash EffectiveGasTip Receipt_GasUsed eng block parent
                 statedb receipts st)) = true.
Proof.
  intros extra. split.
  - rewrite verifyHeaderGasFields_Ok by done.
    split; intros [Hs Hc He]; (split; [exact Hs| |exact He]); [by right|by left].
  - unfold Finalize. rewrite (bindM_step _ _ _ _ _ Hcb). unfold block_BlockGasCost.
    rewrite (bindM_step _ _ st1 None (cached Header_Hash (block_Header block) st1));
      [done|]. rewrite read_extra by done. by rewrite Hnil.
Qed.

End Laws.
(** ** Witnesses *)

Module Witness.
Import Concrete header.HeaderWitness.

(** Transactions are their tip, receipts their gas; the state database is trivial. *)
Definition tip (tx baseFee : Z) : result Z := Ok tx.
Definition gas (receipt : Z) : Z := receipt.
Definition newBlock (h : Header) (body : Body Z) (receipts : list Z) : Header := h.
Definition rlpHash0 (data : list byte) : Hash := be_encode 32 (be_decode data).
Definition root0 (db : unit) (deleteEmpty : bool) : Hash * unit := (Hash_zero, tt).

#[local] Instance newBlock_spec : NewBlockSpec newBlock.
Proof. split; by repeat split. Qed.

(** An atomic transaction that used 5000 gas and contributes 7 to the block fee. *)
Definition eng : @DummyEngine Z unit :=
  {| cb := {| OnFinalizeAndAssemble :=
                Some (fun _ _ db _ => mret ([Byte.x2a], Some 7, Some 5000, db));
              OnExtraStateChange := Some (fun _ _ db => mret (Some 7, Some 5000, db)) |};
     clock := 105; consensusMode := mkMode false false false;
     desiredTargetExcess := Some 40000 |}.

Definition chain : ChainHeaderReader :=
  {| GetHeader := fun _ _ => Some genesis; IsCancun := fun _ _ => false;
     IsEIP158 := fun _ => true |}.

Definition draft : Header := mk 1 110 21000 [] None.

Definition assembled :=
  FinalizeAndAssemble hash0 rlpHash0 newBlock tip gas root0 eng chain draft genesis tt
    [3] [] [21000] store0.

Definition the_block : Block Z :=
  match fst assembled with Ok (_, b, _) => b | _ => mkBlock 1 draft [] [] end.
Definition the_header : Header :=
  match fst assembled with Ok (h, _, _) => h | _ => draft end.

Lemma assembled_ok : assembled = (Ok (the_header, the_block, tt), snd assembled).
Proof. vm_compute. reflexivity. Defined.

Lemma draft_ok : header.is_header draft.
Proof. repeat split; closed_u64. Defined.

Lemma verifyBlockFee_iff_witness :
  verifyBlockFee tip gas eng (Some 10) (Some 6300) [3] [21000] (Some 7) = Ok tt.
Proof.
  apply (verifyBlockFee_iff tip gas eng (Some 10) (Some 6300) (Some 7) [3] [21000] eq_refl).
  exists 10, 6300, 63000. repeat split; try reflexivity; closed_u64.
Defined.


Lemma assembled_wf : store_wf (snd assembled).
Proof.
  split.
  - intros k l Hk.
    assert (Hall : map_Forall (fun _ l => is_Some (es_heap (snd assembled) !! l))
                     (headerExtras (snd assembled))).
    { apply (bool_decide_unpack _). vm_compute. exact I. }
    exact (Hall k l Hk).
  - intros l Hl.
    assert (Hall : map_Forall (fun l _ => (l < es_next (snd assembled))%positive)
                     (es_heap (snd assembled))).
    { apply (bool_decide_unpack _). vm_compute. exact I. }
    destruct Hl as [e He]. exact (Hall l e He).
Defined.

Lemma Finalize_accepts_assembled_witness :
  fst (Finalize hash0 tip gas eng the_block genesis tt [21000] (snd assembled)) = Ok tt.
Proof.
  apply (Finalize_accepts_assembled hash0 tip gas rlpHash0 newBlock root0 eng chain draft
           genesis tt tt tt tt tt [3] [] [21000] store0 store0 (snd assembled)
           (snd assembled) [Byte.x2a] (Some 7) (Some 5000) the_header the_block
           genesis_ok draft_ok);
    [reflexivity|reflexivity|exact store0_ok|left; reflexivity|exact assembled_ok
    |reflexivity|exact assembled_wf|reflexivity].
Defined.

(** A block whose header has no block gas cost. *)
Definition nil_cost_block : Block Z :=
  mkBlock 1 (types.set_BlockGasCost child None) [3] [].

Lemma nil_BlockGasCost_never_finalizes_witness :
  fst (verifyHeaderGasFields hash0 (block_Header nil_cost_block) genesis store0) = Ok tt /\
  is_Err (fst (Finalize hash0 tip gas eng nil_cost_block genesis tt [21000] store0)) = true.
Proof.
  split; [vm_compute; reflexivity|].
  refine (proj2 (nil_BlockGasCost_never_finalizes hash0 tip gas eng nil_cost_block genesis
           tt tt [21000] store0 store0 (Some 7) (Some 5000) genesis_ok _ store0_ok _ _)).
  - repeat split; closed_u64.
  - reflexivity.
  - reflexivity.
Defined.

Lemma verifyHeader_iff_witness :
  types.Number child = types.Number genesis + 1 /\
  fst (verifyHeader hash0 eng chain child genesis false store0) = Ok tt.
Proof.
  assert (E : fst (verifyHeader hash0 eng chain child genesis false store0) = Ok tt)
    by (vm_compute; reflexivity).
  split; [|exact E].
  apply (verifyHeader_iff hash0 eng chain child genesis store0 store0_ok genesis_ok child_ok)
    in E as (_ & _ & Hn & _); [exact Hn|exact I].
Defined.

End Witness.
End dummy.
