(* ===== verification/TxHeap.v ===== *)
(** * The atomic transaction heap

    [plugin/evm/atomic/txpool/tx_heap.go]: two binary heaps over the same pending
    transactions, one with the highest gas price first and one with the lowest.
    Each heap also has a lookup map whose values are the same entry objects as the
    slice's; [Swap] keeps the position of an entry in its [index] field, by which
    [Remove] finds it.  The entries live in a store, the slice and the map hold
    pointers into it. *)

From S2P Require Import Prelude GoStd.

Module txheap.

Section Heap.
Context {Tx : Type} (Tx_ID : Tx -> ID).

Record txEntry := mkEntry { id : ID; gasPrice : Z; tx : Tx; index : nat }.

Record internalTxHeap := mkInternal {
  isMinHeap : bool;
  items : list positive;
  lookup : gmap ID positive;
  objs : gmap positive txEntry;
  next : positive
}.

Definition newInternalTxHeap (isMinHeap : bool) : internalTxHeap :=
  mkInternal isMinHeap [] ∅ ∅ 1.

(** [th.items[i]], when the index is in range *)
Definition entry_at (th : internalTxHeap) (i : nat) : option txEntry :=
  p ← items th !! i; objs th !! p.

Definition internal_Len (th : internalTxHeap) : nat := length (items th).

Definition internal_Less (th : internalTxHeap) (i j : nat) : bool :=
  match entry_at th i, entry_at th j with
  | Some a, Some b =>
      if isMinHeap th then gasPrice a <? gasPrice b else gasPrice b <? gasPrice a
  | _, _ => false
  end.

(** An assignment to the [index] field of the object behind a pointer. *)
Definition set_index (objs : gmap positive txEntry) (p : positive) (i : nat)
    : gmap positive txEntry :=
  alter (fun e => mkEntry (id e) (gasPrice e) (tx e) i) p objs.

Definition internal_Swap (th : internalTxHeap) (i j : nat) : internalTxHeap :=
  match items th !! i, items th !! j with
  | Some pi, Some pj =>
      let items := <[j := pi]> (<[i := pj]> (items th)) in
      let objs := set_index (objs th) pj i in
      let objs := set_index objs pi j in
      mkInternal (isMinHeap th) items (lookup th) objs (next th)
  | _, _ => th
  end.

Definition internal_Get (th : internalTxHeap) (txID : ID) : option txEntry :=
  p ← lookup th !! txID; objs th !! p.

Definition internal_Has (th : internalTxHeap) (txID : ID) : bool :=
  bool_decide (is_Some (internal_Get th txID)).

Definition internal_Push (th : internalTxHeap) (entry : txEntry) : internalTxHeap :=
  if internal_Has th (id entry) then th
  else
    let p := next th in
    mkInternal (isMinHeap th) (items th ++ [p]) (<[id entry := p]> (lookup th))
      (<[p := entry]> (objs th)) (Pos.succ p).

(** [None]: the slice is empty and the access panics. *)
Definition internal_Pop (th : internalTxHeap) : internalTxHeap * option txEntry :=
  let n := length (items th) in
  match entry_at th (n - 1) with
  | None => (th, None)
  | Some item =>
      (mkInternal (isMinHeap th) (take (n - 1) (items th)) (delete (id item) (lookup th))
         (objs th) (next th), Some item)
  end.

#[local] Instance internal_interface : heap.Interface internalTxHeap txEntry := {
  heap.Len := internal_Len;
  heap.Less := internal_Less;
  heap.Swap := internal_Swap;
  heap.Push := internal_Push;
  heap.Pop := internal_Pop
}.

Record txHeap := mkTxHeap { maxHeap : internalTxHeap; minHeap : internalTxHeap }.

Definition newTxHeap : txHeap :=
  {| maxHeap := newInternalTxHeap false; minHeap := newInternalTxHeap true |}.

Definition Len (th : txHeap) : nat := internal_Len (maxHeap th).

Definition Push (th : txHeap) (t : Tx) (price : Z) : txHeap :=
  let txID := Tx_ID t in
  let oldLen := Len th in
  {| maxHeap := heap.heap_Push (maxHeap th) (mkEntry txID price t oldLen);
     minHeap := heap.heap_Push (minHeap th) (mkEntry txID price t oldLen) |}.

(** [items[0]] of an empty heap panics: [None]. *)
Definition PeekMax (th : txHeap) : option (Tx * Z) :=
  e ← entry_at (maxHeap th) 0; Some (tx e, gasPrice e).

Definition PeekMin (th : txHeap) : option (Tx * Z) :=
  e ← entry_at (minHeap th) 0; Some (tx e, gasPrice e).

(** The result is [None] for [nil]. *)
Definition Remove (th : txHeap) (txID : ID) : txHeap * option Tx :=
  match internal_Get (maxHeap th) txID with
  | None => (th, None)
  | Some maxEntry =>
      let '(maxHeap', _) := heap.heap_Remove (maxHeap th) (index maxEntry) in
      match internal_Get (minHeap th) txID with
      | None => (mkTxHeap maxHeap' (minHeap th), None)
      | Some minEntry =>
          let '(minHeap', item) := heap.heap_Remove (minHeap th) (index minEntry) in
          (mkTxHeap maxHeap' minHeap', option_map tx item)
      end
  end.

Definition PopMax (th : txHeap) : txHeap * option Tx :=
  match entry_at (maxHeap th) 0 with
  | None => (th, None)
  | Some e => Remove th (id e)
  end.

Definition PopMin (th : txHeap) : txHeap * option Tx :=
  match entry_at (minHeap th) 0 with
  | None => (th, None)
  | Some e => Remove th (id e)
  end.

Definition Get (th : txHeap) (txID : ID) : option Tx :=
  option_map tx (internal_Get (maxHeap th) txID).

Definition Has (th : txHeap) (txID : ID) : bool := internal_Has (maxHeap th) txID.

End Heap.
#[export] Existing Instance internal_interface.
#[global] Arguments txEntry : clear implicits.
#[global] Arguments internalTxHeap : clear implicits.
#[global] Arguments txHeap : clear implicits.

(** ** One heap *)

Section InternalLaws.
Context {Tx : Type}.
Implicit Types h : internalTxHeap Tx.

(** The slice, the map and the index fields agree. *)
Record internal_wf h : Prop := {
  iw_items i p : items h !! i = Some p ->
    exists e, objs h !! p = Some e /\ index e = i /\ lookup h !! id e = Some p;
  iw_lookup k p : lookup h !! k = Some p ->
    exists e, objs h !! p = Some e /\ id e = k /\ items h !! index e = Some p;
  iw_size : size (lookup h) = length (items h);
  iw_next p : is_Some (objs h !! p) -> (p < next h)%positive
}.

(** The key by which the heap orders an entry: the least key is on top. *)
Definition entry_key (minFirst : bool) (e : txEntry Tx) : Z :=
  if minFirst then gasPrice e else - gasPrice e.

Definition keys h : list Z :=
  (fun p => from_option (entry_key (isMinHeap h)) 0 (objs h !! p)) <$> items h.

(** What the heap holds: a price and a transaction for each ID. *)
Definition content h : gmap ID (Z * Tx) :=
  omap (fun p => (fun e => (gasPrice e, tx e)) <$> objs h !! p) (lookup h).

Lemma lookup_content h k :
  content h !! k = (fun e => (gasPrice e, tx e)) <$> internal_Get h k.
Proof. unfold content, internal_Get. rewrite lookup_omap. by destruct (lookup h !! k). Qed.

Lemma entry_at_wf h i e :
  internal_wf h -> entry_at h i = Some e ->
  internal_Get h (id e) = Some e /\ index e = i /\ (i < internal_Len h)%nat.
Proof.
  intros Hw He. unfold entry_at in He. apply bind_Some in He as (p & Hp & He).
  destruct (iw_items h Hw i p Hp) as (e' & He' & Hi & Hl). rewrite He in He'.
  injection He' as <-. unfold internal_Get. rewrite Hl. split; [exact He|]. split; [done|].
  by apply lookup_lt_Some in Hp.
Qed.

Lemma internal_Get_wf h k e :
  internal_wf h -> internal_Get h k = Some e -> id e = k /\ entry_at h (index e) = Some e.
Proof.
  intros Hw He. unfold internal_Get in He. apply bind_Some in He as (p & Hp & He).
  destruct (iw_lookup h Hw k p Hp) as (e' & He' & Hk & Hi). rewrite He in He'.
  injection He' as <-. split; [done|]. unfold entry_at. by rewrite Hi.
Qed.

Lemma entry_at_lt h i : internal_wf h -> (i < internal_Len h)%nat -> is_Some (entry_at h i).
Proof.
  intros Hw Hi. destruct (lookup_lt_is_Some_2 (items h) i Hi) as [p Hp].
  destruct (iw_items h Hw i p Hp) as (e & He & _). exists e. unfold entry_at. by rewrite Hp.
Qed.

Lemma keys_lookup h i :
  internal_wf h -> (i < internal_Len h)%nat ->
  exists e, entry_at h i = Some e /\ keys h !!! i = entry_key (isMinHeap h) e.
Proof.
  intros Hw Hi. destruct (lookup_lt_is_Some_2 (items h) i Hi) as [p Hp].
  destruct (iw_items h Hw i p Hp) as (e & He & _). exists e. unfold entry_at, keys.
  rewrite Hp. split; [done|]. rewrite list_lookup_total_alt, list_lookup_fmap, Hp.
  cbn. by rewrite He.
Qed.

(** [Swap] exchanges two pointers and updates the two index fields. *)
Lemma Swap_items h i j : items (internal_Swap h i j) = heap.swap i j (items h).
Proof.
  unfold internal_Swap, heap.swap. by destruct (items h !! i), (items h !! j).
Qed.

Lemma Swap_objs h i j pi pj p :
  items h !! i = Some pi -> items h !! j = Some pj ->
  objs (internal_Swap h i j) !! p =
  (fun e => mkEntry (id e) (gasPrice e) (tx e)
     (if decide (p = pi) then j else if decide (p = pj) then i else index e)) <$> objs h !! p.
Proof.
  intros Hi Hj. unfold internal_Swap. rewrite Hi, Hj. cbn. unfold set_index.
  destruct (decide (p = pi)) as [->|Hpi].
  - rewrite lookup_alter_eq. destruct (decide (pi = pj)) as [->|Hne].
    + rewrite lookup_alter_eq. by destruct (objs h !! pj).
    + rewrite lookup_alter_ne by done. by destruct (objs h !! pi).
  - rewrite lookup_alter_ne by done. destruct (decide (p = pj)) as [->|Hpj].
    + rewrite lookup_alter_eq. by destruct (objs h !! pj).
    + rewrite lookup_alter_ne by done. by destruct (objs h !! p) as [[]|].
Qed.

Lemma Swap_other h i j :
  isMinHeap (internal_Swap h i j) = isMinHeap h /\
  lookup (internal_Swap h i j) = lookup h /\ next (internal_Swap h i j) = next h.
Proof. unfold internal_Swap. by destruct (items h !! i), (items h !! j). Qed.

Lemma Swap_wf h i j :
  internal_wf h -> (i < internal_Len h)%nat -> (j < internal_Len h)%nat ->
  internal_wf (internal_Swap h i j).
Proof.
  intros Hw Hi Hj. destruct (Swap_other h i j) as (_ & Hl & Hn).
  destruct (lookup_lt_is_Some_2 (items h) i Hi) as [pi Hpi].
  destruct (lookup_lt_is_Some_2 (items h) j Hj) as [pj Hpj].
  pose proof (Swap_objs h i j pi pj) as Hobj.
  assert (Hinj : forall a b p, items h !! a = Some p -> items h !! b = Some p -> a = b).
  { intros a b p Ha Hb. destruct (iw_items h Hw a p Ha) as (e & He & <- & _).
    destruct (iw_items h Hw b p Hb) as (e' & He' & <- & _). congruence. }
  split.
  - intros k p. rewrite Swap_items, heap.lookup_swap, Hobj by done. rewrite Hl.
    destruct (decide (k = j)) as [->|Hkj].
    { rewrite Hpi. intros [= <-]. destruct (iw_items h Hw i pi Hpi) as (e & -> & _ & Hle).
      eexists. split; [reflexivity|]. by rewrite decide_True. }
    destruct (decide (k = i)) as [->|Hki].
    { rewrite Hpj. intros [= <-]. destruct (iw_items h Hw j pj Hpj) as (e & -> & _ & Hle).
      eexists. split; [reflexivity|]. cbn.
      rewrite decide_False by (intros ->; by pose proof (Hinj _ _ _ Hpi Hpj)).
      by rewrite decide_True. }
    intros Hp. destruct (iw_items h Hw k p Hp) as (e & -> & Hie & Hle).
    eexists. split; [reflexivity|]. cbn.
    rewrite !decide_False; [done|intros ->; apply Hkj; eauto|intros ->; apply Hki; eauto].
  - intros k p. rewrite Hl. intros Hp. rewrite Hobj by done.
    destruct (iw_lookup h Hw k p Hp) as (e & He & Hk & Hit). rewrite He.
    eexists. split; [reflexivity|]. split; [done|]. cbn.
    rewrite Swap_items, heap.lookup_swap by done.
    destruct (decide (p = pi)) as [->|Hnpi]; [by rewrite decide_True|].
    destruct (decide (p = pj)) as [->|Hnpj].
    { destruct (decide (i = j)) as [->|]; [congruence|]. by rewrite decide_True. }
    rewrite !decide_False; [done|intros Hx; rewrite Hx in Hit; congruence..].
  - rewrite Hl, Swap_items, heap.length_swap. apply Hw.
  - intros p. rewrite Hobj by done. rewrite Hn, fmap_is_Some. apply Hw.
Qed.

Lemma Swap_content h i j :
  (i < internal_Len h)%nat -> (j < internal_Len h)%nat ->
  content (internal_Swap h i j) = content h.
Proof.
  intros Hi Hj. destruct (Swap_other h i j) as (_ & Hl & _).
  destruct (lookup_lt_is_Some_2 (items h) i Hi) as [pi Hpi].
  destruct (lookup_lt_is_Some_2 (items h) j Hj) as [pj Hpj].
  apply map_eq. intros k. unfold content. rewrite !lookup_omap, Hl.
  destruct (lookup h !! k) as [p|]; [|done]. cbn. rewrite (Swap_objs h i j pi pj) by done.
  by destruct (objs h !! p).
Qed.

#[export] Instance internal_model : heap.Model (internalTxHeap Tx) (txEntry Tx) internal_wf keys.
Proof.
  split.
  - intros h _. unfold keys. by rewrite length_fmap.
  - intros h i j Hw Hi Hj. destruct (keys_lookup h i Hw Hi) as (a & Ha & ->).
    destruct (keys_lookup h j Hw Hj) as (b & Hb & ->). cbn. unfold internal_Less, entry_key.
    rewrite Ha, Hb. destruct (isMinHeap h); [done|]. lia.
  - intros h i j. apply Swap_wf.
  - intros h i j Hw Hi Hj. apply list_eq. intros k. unfold keys.
    change (heap.Swap h i j) with (internal_Swap h i j).
    rewrite Swap_items, list_lookup_fmap, !heap.lookup_swap by (by rewrite ?length_fmap).
    rewrite !list_lookup_fmap. destruct (Swap_other h i j) as (Hm & _).
    destruct (lookup_lt_is_Some_2 (items h) i Hi) as [pi Hpi].
    destruct (lookup_lt_is_Some_2 (items h) j Hj) as [pj Hpj].
    assert (E : forall p, from_option (entry_key (isMinHeap (internal_Swap h i j))) 0
                            (objs (internal_Swap h i j) !! p) =
                          from_option (entry_key (isMinHeap h)) 0 (objs h !! p)).
    { intros p. rewrite Hm, (Swap_objs h i j pi pj) by done. by destruct (objs h !! p). }
    repeat case_decide; apply option_fmap_ext; exact E.
Qed.

(** A heap is in order when its top is extremal all the way down. *)
Definition internal_ok (minFirst : bool) h : Prop :=
  internal_wf h /\ isMinHeap h = minFirst /\ heap.ordered (internal_Len h) (keys h).

(** [heap.Push] of a new ID. *)
Lemma internal_Push_wf h e :
  internal_wf h -> internal_Get h (id e) = None -> index e = internal_Len h ->
  internal_wf (internal_Push h e) /\ content (internal_Push h e) =
    <[id e := (gasPrice e, tx e)]> (content h) /\
  isMinHeap (internal_Push h e) = isMinHeap h /\
  internal_Len (internal_Push h e) = S (internal_Len h) /\
  (forall k, (k < internal_Len h)%nat -> keys (internal_Push h e) !!! k = keys h !!! k).
Proof.
  intros Hw Hnone Hidx. unfold internal_Push, internal_Has.
  rewrite bool_decide_eq_false_2 by (rewrite Hnone; by intros []).
  assert (Hlk : lookup h !! id e = None).
  { unfold internal_Get in Hnone. destruct (lookup h !! id e) as [p|] eqn:E; [|done].
    destruct (iw_lookup h Hw _ _ E) as (e' & He' & _). cbn in Hnone. congruence. }
  assert (Hfresh : forall p, is_Some (objs h !! p) -> p <> next h).
  { intros p Hp ->. apply (iw_next h Hw) in Hp. lia. }
  assert (Hold : forall p e', objs h !! p = Some e' ->
                   <[next h := e]> (objs h) !! p = Some e').
  { intros p e' He'. rewrite lookup_insert_ne; [done|].
    intros <-. by apply (Hfresh (next h)); [rewrite He'; eauto|]. }
  split; [split|].
  - intros i p. cbn. intros [Hp|[Hlen Hp]]%lookup_app_Some.
    + destruct (iw_items h Hw i p Hp) as (e' & He' & Hi & Hl). exists e'.
      split; [by apply Hold|]. split; [done|]. rewrite lookup_insert_ne; [done|].
      intros Heq. congruence.
    + apply list_lookup_singleton_Some in Hp as [Hi ->]. exists e.
      rewrite !lookup_insert_eq. unfold internal_Len in Hidx. split; [done|]. split; [lia|done].
  - intros k p. cbn. intros [[<- <-]|[Hne Hp]]%lookup_insert_Some.
    + exists e. rewrite lookup_insert_eq. split; [done|]. split; [done|].
      rewrite Hidx. by apply list_lookup_middle.
    + destruct (iw_lookup h Hw k p Hp) as (e' & He' & Hk & Hi). exists e'.
      split; [by apply Hold|]. split; [done|]. by apply lookup_app_l_Some.
  - cbn. rewrite map_size_insert_None by done. rewrite length_app, (iw_size h Hw). cbn. lia.
  - intros p. cbn. intros [<-|[_ Hp]]%lookup_insert_is_Some; [lia|].
    apply (iw_next h Hw) in Hp. lia.
  - split; [|split; [done|split]].
    + apply map_eq. intros k. unfold content. cbn. rewrite lookup_omap.
      destruct (decide (k = id e)) as [->|Hne].
      * rewrite !lookup_insert_eq. cbn. by rewrite lookup_insert_eq.
      * rewrite !lookup_insert_ne by done. rewrite lookup_omap.
        destruct (lookup h !! k) as [p|] eqn:Hp; [|done]. cbn.
        destruct (iw_lookup h Hw k p Hp) as (e' & He' & _). by rewrite (Hold p e' He'), He'.
    + unfold internal_Len. cbn. rewrite length_app. cbn. lia.
    + intros k Hk. unfold keys. cbn. rewrite !list_lookup_total_alt, !list_lookup_fmap.
      rewrite lookup_app_l by done.
      destruct (lookup_lt_is_Some_2 (items h) k Hk) as [p Hp]. rewrite Hp. cbn.
      destruct (iw_items h Hw k p Hp) as (e' & He' & _). by rewrite (Hold p e' He'), He'.
Qed.

Lemma heap_Push_new b h e :
  internal_ok b h -> internal_Get h (id e) = None -> index e = internal_Len h ->
  internal_ok b (heap.heap_Push h e) /\
  content (heap.heap_Push h e) = <[id e := (gasPrice e, tx e)]> (content h).
Proof.
  intros (Hw & Hb & Ho) Hnone Hidx.
  destruct (internal_Push_wf h e Hw Hnone Hidx) as (Hw' & Hc' & Hb' & HL' & Hk').
  pose proof (heap.heap_Push_ordered (valid := internal_wf) (keys := keys) h e Hw' HL') as Hord.
  set (C := <[id e := (gasPrice e, tx e)]> (content h)) in *.
  destruct (heap.up_loop_closed (keys := keys) (heap.Len (heap.Push h e))
              (fun h' => content h' = C /\ isMinHeap h' = b)
              (S (heap.Len (heap.Push h e) - 1)) (heap.Push h e)
              (heap.Len (heap.Push h e) - 1)) as ([HC HB] & Hw2 & HL2).
  - intros h' i j Hv Hm Hi Hj [HC HB]. destruct (Swap_other h' i j) as (HB' & _).
    split; [|by rewrite <- HB]. rewrite <- HC. apply Swap_content; cbn in *; lia.
  - exact Hw'.
  - cbn in *. lia.
  - done.
  - split; [exact Hc'|]. by rewrite <- Hb.
  - change (heap.up_loop _ _ _) with (heap.heap_Push h e) in *. split; [|exact HC].
    split; [done|]. split; [done|].
    change (internal_Len (heap.heap_Push h e)) with (heap.Len (heap.heap_Push h e)).
    rewrite HL2. apply Hord. intros k Hk. pose proof (heap.parent_le k).
    change (heap.Push h e) with (internal_Push h e). change (heap.Len h) with (internal_Len h) in Hk.
    rewrite !Hk' by lia.
    apply Ho. lia.
Qed.

Lemma heap_Push_known b h e :
  internal_ok b h -> is_Some (internal_Get h (id e)) -> heap.heap_Push h e = h.
Proof.
  intros (Hw & Hb & Ho) Hsome. unfold heap.heap_Push. cbn [heap.Push heap.Len internal_interface].
  unfold internal_Push, internal_Has. rewrite bool_decide_eq_true_2 by done.
  destruct Hsome as [e' He']. apply internal_Get_wf in He' as [_ He']; [|done].
  apply entry_at_wf in He' as (_ & _ & Hlt); [|done].
  unfold heap.up. cbn [heap.up_loop]. set (j := (internal_Len h - 1)%nat) in *.
  change ((j - 1) / 2)%nat with (heap.parent j). case_bool_decide as Hp; [done|]. cbn [orb].
  assert (0 < j)%nat.
  { destruct j; [|lia]. exfalso. by apply Hp. }
  pose proof (heap.parent_lt j ltac:(lia)).
  rewrite (heap.Less_keys (keys := keys))
    by (done || (change (heap.Len h) with (internal_Len h); lia)).
  specialize (Ho j ltac:(lia)). by rewrite (proj2 (Z.ltb_ge _ _)).
Qed.

(** [heap.Remove] at the position of an entry takes exactly that entry out. *)
Lemma internal_Pop_wf h e :
  internal_wf h -> entry_at h (internal_Len h - 1) = Some e ->
  let '(h', r) := internal_Pop h in
  r = Some e /\ internal_wf h' /\ content h' = delete (id e) (content h) /\
  isMinHeap h' = isMinHeap h /\ internal_Len h' = (internal_Len h - 1)%nat /\
  (forall k, (k < internal_Len h - 1)%nat -> keys h' !!! k = keys h !!! k).
Proof.
  intros Hw He. unfold internal_Pop. fold (internal_Len h). rewrite He. split; [done|].
  pose proof (entry_at_wf _ _ _ Hw He) as (Hget & Hidx & Hlt).
  set (n := (internal_Len h - 1)%nat) in *. unfold internal_Len in Hlt.
  assert (Hlk : exists p, lookup h !! id e = Some p /\ objs h !! p = Some e).
  { unfold internal_Get in Hget. by apply bind_Some in Hget. }
  destruct Hlk as (pe & Hpe & Hoe).
  split; [split|].
  - intros i p. cbn. intros [Hp Hi]%lookup_take_Some.
    destruct (iw_items h Hw i p Hp) as (e' & He' & Hi' & Hl). exists e'.
    split; [done|]. split; [done|]. rewrite lookup_delete_ne; [done|]. intros Heq.
    rewrite <- Heq, Hpe in Hl. injection Hl as <-. rewrite Hoe in He'. injection He' as <-.
    lia.
  - intros k p. cbn. intros [Hne Hp]%lookup_delete_Some.
    destruct (iw_lookup h Hw k p Hp) as (e' & He' & Hk & Hi). exists e'.
    split; [done|]. split; [done|]. rewrite lookup_take_lt; [done|].
    apply lookup_lt_Some in Hi as Hlt'.
    destruct (decide (index e' = n)) as [Heq|]; [|unfold n, internal_Len in *; lia].
    exfalso. apply Hne. unfold entry_at in He. rewrite <- Heq, Hi in He. cbn in He.
    rewrite He' in He. injection He as <-. done.
  - cbn. rewrite map_size_delete_Some by eauto. rewrite length_take, (iw_size h Hw).
    unfold n, internal_Len. lia.
  - cbn. apply Hw.
  - split; [|split; [done|split]].
    + apply map_eq. intros k. unfold content. cbn. rewrite lookup_omap.
      destruct (decide (k = id e)) as [->|Hne].
      * by rewrite !lookup_delete_eq.
      * rewrite !lookup_delete_ne by done. by rewrite lookup_omap.
    + unfold internal_Len. cbn. rewrite length_take. unfold n, internal_Len. lia.
    + intros k Hk. unfold keys. cbn. rewrite !list_lookup_total_alt, !list_lookup_fmap.
      by rewrite lookup_take_lt.
Qed.

(** The pointer [p] is at position [m], its object the entry [e] but for the index. *)
Definition holds_at (C : gmap ID (Z * Tx)) (b : bool) (m : nat) (p : positive) (e : txEntry Tx)
    h : Prop :=
  content h = C /\ isMinHeap h = b /\ items h !! m = Some p /\
  exists e', objs h !! p = Some e' /\ id e' = id e /\ tx e' = tx e.

Lemma holds_at_Swap C b m p e h i j :
  internal_wf h -> (i < internal_Len h)%nat -> (j < internal_Len h)%nat ->
  holds_at C b (if decide (m = j) then i else if decide (m = i) then j else m) p e h ->
  holds_at C b m p e (internal_Swap h i j).
Proof.
  intros Hw Hi Hj (HC & Hb & Hp & e' & He' & Hid & Htx).
  destruct (Swap_other h i j) as (Hb' & _).
  destruct (lookup_lt_is_Some_2 (items h) i Hi) as [pi Hpi].
  destruct (lookup_lt_is_Some_2 (items h) j Hj) as [pj Hpj].
  split; [by rewrite Swap_content|]. split; [by rewrite Hb'|]. split.
  - rewrite Swap_items, heap.lookup_swap by done. by repeat case_decide.
  - rewrite (Swap_objs h i j pi pj), He' by done. by eexists.
Qed.

Lemma heap_Remove_entry b h k e :
  internal_ok b h -> internal_Get h k = Some e ->
  let '(h', r) := heap.heap_Remove h (index e) in
  (exists e', r = Some e' /\ tx e' = tx e) /\
  internal_ok b h' /\ content h' = delete k (content h).
Proof.
  intros (Hw & Hb & Ho) Hget. pose proof (internal_Get_wf h k e Hw Hget) as [Hk Hat].
  pose proof (entry_at_wf h _ e Hw Hat) as (_ & _ & Hlt).
  unfold entry_at in Hat. apply bind_Some in Hat as (p & Hp & Hoe).
  rewrite heap.heap_Remove_eq.
  set (n := (heap.Len h - 1)%nat).
  destruct (heap.remove_fix_closed (keys := keys) (holds_at (content h) b n p e) h (index e))
    as (Hat & Hw' & HL').
  - intros h' i j Hv Hm Hi Hj Hh. change (heap.Swap h' i j) with (internal_Swap h' i j).
    change (heap.Len h') with (internal_Len h') in Hm.
    apply holds_at_Swap; [done|lia|lia|]. fold n in Hi, Hj. by rewrite !decide_False by lia.
  - done.
  - exact Hlt.
  - change (heap.Len h) with (internal_Len h) in *.
    assert (Hh : holds_at (content h) b (index e) p e h) by (repeat split; eauto).
    case_bool_decide as Hne; fold n in Hne |- *.
    + change (heap.Swap h (index e) n) with (internal_Swap h (index e) n).
      apply holds_at_Swap; [done|done|unfold n; lia|]. by rewrite decide_True.
    + assert (n = index e) as ->; [|done].
      destruct (decide (n = index e)); [done|by exfalso].
  - pose proof (heap.remove_fix_ordered (keys := keys) h (index e) Hw Hlt Ho) as Hord.
    set (h1 := heap.remove_fix h (index e)) in *.
    change (heap.Len h1) with (internal_Len h1) in HL'.
    change (heap.Len h) with (internal_Len h) in *.
    destruct Hat as (HC & HB & Hpn & e' & He' & Hid & Htx).
    pose proof (internal_Pop_wf h1 e' Hw') as Hpop.
    change (heap.Pop h1) with (internal_Pop h1). destruct (internal_Pop h1) as [h2 r].
    destruct Hpop as (-> & Hw2 & HC2 & HB2 & HL2 & Hk2).
    { rewrite HL'. unfold entry_at. fold n. by rewrite Hpn. }
    split; [by exists e'|]. split.
    + split; [done|]. split; [by rewrite HB2|]. rewrite HL2, HL'.
      intros q Hq. pose proof (heap.parent_le q). rewrite !Hk2 by lia. by apply Hord.
    + by rewrite HC2, HC, Hid, Hk.
Qed.

Lemma internal_size b h : internal_ok b h -> internal_Len h = size (content h).
Proof.
  intros (Hw & _). unfold internal_Len. rewrite <- (iw_size h Hw).
  rewrite <- (size_dom (lookup h)), <- (size_dom (content h)).
  f_equal. apply set_eq. intros k. rewrite !elem_of_dom, lookup_content, fmap_is_Some.
  unfold internal_Get. split.
  - intros [p Hp]. rewrite Hp. destruct (iw_lookup h Hw k p Hp) as (e & He & _).
    cbn. by rewrite He.
  - intros [e He]. by apply bind_Some in He as (p & -> & _).
Qed.

(** The top of a heap. *)
Lemma internal_top b h e k q :
  internal_ok b h -> entry_at h 0 = Some e -> content h !! k = Some q ->
  (if b then gasPrice e <= q.1 else q.1 <= gasPrice e) /\
  content h !! id e = Some (gasPrice e, tx e).
Proof.
  intros (Hw & Hb & Ho) He Hq. split; cycle 1.
  { rewrite lookup_content. apply entry_at_wf in He as (-> & _); [|done]. done. }
  rewrite lookup_content in Hq. apply fmap_Some in Hq as (e' & Hget & ->). cbn.
  apply internal_Get_wf in Hget as [_ Hat]; [|done].
  pose proof (entry_at_wf h _ e' Hw Hat) as (_ & _ & Hlt).
  pose proof (heap.ordered_min _ _ _ Ho Hlt) as Hmin.
  destruct (keys_lookup h 0 Hw ltac:(lia)) as (e0 & He0 & E0).
  destruct (keys_lookup h (index e') Hw Hlt) as (e1 & He1 & E1).
  rewrite E0, E1, Hb in Hmin. rewrite He in He0. injection He0 as <-.
  rewrite Hat in He1. injection He1 as <-. unfold entry_key in Hmin. destruct b; lia.
Qed.

End InternalLaws.

(** ** The two heaps together *)

Section Laws.
Context {Tx : Type} (Tx_ID : Tx -> ID).
Implicit Types th : txHeap Tx.

(** Both heaps are in order and hold the same transactions under their own IDs. *)
Record heap_wf th : Prop := {
  hw_max : internal_ok false (maxHeap th);
  hw_min : internal_ok true (minHeap th);
  hw_sync : content (maxHeap th) = content (minHeap th);
  hw_id k q : content (maxHeap th) !! k = Some q -> Tx_ID q.2 = k
}.

(** The heap as a finite map from IDs to prices and transactions. *)
Definition pending th : gmap ID (Z * Tx) := content (maxHeap th).

Lemma newTxHeap_wf : heap_wf newTxHeap /\ pending newTxHeap = ∅.
Proof.
  assert (H : forall b, internal_ok (Tx := Tx) b (newInternalTxHeap b)).
  { intros b. split; [|split; [done|]].
    - split; cbn; [done|done|by rewrite map_size_empty|].
      intros p. rewrite lookup_empty. by intros [].
    - intros k Hk. cbn in Hk. lia. }
  split; [|done]. split; [apply H|apply H|done|]. intros k q. by rewrite lookup_content.
Qed.

Lemma Get_pending th k : heap_wf th -> Get th k = snd <$> pending th !! k.
Proof.
  intros Hw. unfold Get, pending. rewrite lookup_content.
  by destruct (internal_Get (maxHeap th) k).
Qed.

Lemma Has_pending th k : heap_wf th -> Has th k = bool_decide (is_Some (pending th !! k)).
Proof.
  intros Hw. unfold Has, internal_Has, pending. apply bool_decide_ext.
  by rewrite lookup_content, fmap_is_Some.
Qed.

Lemma Len_pending th : heap_wf th -> Len th = size (pending th).
Proof. intros Hw. eapply internal_size, hw_max, Hw. Qed.

Lemma Push_new th t price :
  heap_wf th -> pending th !! Tx_ID t = None ->
  heap_wf (Push Tx_ID th t price) /\
  pending (Push Tx_ID th t price) = <[Tx_ID t := (price, t)]> (pending th).
Proof.
  intros [Hmax Hmin Hsync Hid] Hnone. unfold pending in *.
  assert (Hg1 : internal_Get (maxHeap th) (Tx_ID t) = None).
  { rewrite lookup_content in Hnone. by apply fmap_None in Hnone. }
  assert (Hg2 : internal_Get (minHeap th) (Tx_ID t) = None).
  { rewrite Hsync, lookup_content in Hnone. by apply fmap_None in Hnone. }
  assert (HL : Len th = internal_Len (minHeap th)).
  { unfold Len. rewrite (internal_size _ _ Hmax), (internal_size _ _ Hmin). by rewrite Hsync. }
  set (e := mkEntry (Tx_ID t) price t (Len th)).
  destruct (heap_Push_new false (maxHeap th) e) as [Hok1 HC1]; [done..|].
  destruct (heap_Push_new true (minHeap th) e) as [Hok2 HC2]; [done..|].
  cbn [Push maxHeap minHeap]. fold e. split; [|exact HC1]. split; cbn [maxHeap minHeap].
  - exact Hok1.
  - exact Hok2.
  - unfold Push. cbn [maxHeap minHeap]. fold e. by rewrite HC1, HC2, Hsync.
  - intros k q. unfold Push. cbn [maxHeap]. fold e. rewrite HC1.
    intros [[<- <-]|[_ Hq]]%lookup_insert_Some; [done|eauto].
Qed.

Lemma Push_known th t price :
  heap_wf th -> is_Some (pending th !! Tx_ID t) -> Push Tx_ID th t price = th.
Proof.
  intros [Hmax Hmin Hsync Hid] Hsome. unfold pending in Hsome. unfold Push.
  assert (H1 : is_Some (internal_Get (maxHeap th) (Tx_ID t)))
    by (by rewrite lookup_content, fmap_is_Some in Hsome).
  assert (H2 : is_Some (internal_Get (minHeap th) (Tx_ID t)))
    by (by rewrite Hsync, lookup_content, fmap_is_Some in Hsome).
  rewrite (heap_Push_known false), (heap_Push_known true) by done. by destruct th.
Qed.

Lemma Remove_known th k price t :
  heap_wf th -> pending th !! k = Some (price, t) ->
  exists th', Remove th k = (th', Some t) /\ heap_wf th' /\ pending th' = delete k (pending th).
Proof.
  intros [Hmax Hmin Hsync Hid] Hk. unfold pending in *. unfold Remove.
  pose proof Hk as Hk2. rewrite lookup_content in Hk. rewrite Hsync, lookup_content in Hk2.
  apply fmap_Some in Hk as (e1 & He1 & Eq1). apply fmap_Some in Hk2 as (e2 & He2 & Eq2).
  rewrite He1, He2.
  pose proof (heap_Remove_entry false _ _ _ Hmax He1) as R1.
  pose proof (heap_Remove_entry true _ _ _ Hmin He2) as R2.
  destruct (heap.heap_Remove (maxHeap th) _) as [h1 r1].
  destruct (heap.heap_Remove (minHeap th) _) as [h2 r2].
  destruct R1 as (_ & Hok1 & HC1), R2 as ((e' & -> & Htx) & Hok2 & HC2).
  eexists. split; [cbn; rewrite Htx; by injection Eq2 as _ <-|].
  cbn [maxHeap]. split; [|exact HC1]. split; cbn [maxHeap minHeap].
  - exact Hok1.
  - exact Hok2.
  - by rewrite HC1, HC2, Hsync.
  - intros k' q. rewrite HC1. intros [_ Hq]%lookup_delete_Some. eauto.
Qed.

Lemma Remove_unknown th k :
  heap_wf th -> pending th !! k = None -> Remove th k = (th, None).
Proof.
  intros Hw Hk. unfold pending in Hk. rewrite lookup_content in Hk. apply fmap_None in Hk.
  unfold Remove. by rewrite Hk.
Qed.

Lemma Peek_None th : heap_wf th -> pending th = ∅ -> entry_at (maxHeap th) 0 = None /\
  entry_at (minHeap th) 0 = None.
Proof.
  intros [Hmax Hmin Hsync _] He. unfold pending in He.
  pose proof (internal_size _ _ Hmax) as L1. pose proof (internal_size _ _ Hmin) as L2.
  rewrite <- Hsync in L2. rewrite He, map_size_empty in L1, L2. unfold internal_Len in *.
  unfold entry_at. apply nil_length_inv in L1, L2. by rewrite L1, L2.
Qed.

Lemma Peek_Some th : heap_wf th -> pending th <> ∅ ->
  is_Some (entry_at (maxHeap th) 0) /\ is_Some (entry_at (minHeap th) 0).
Proof.
  intros [Hmax Hmin Hsync _] He. unfold pending in He.
  pose proof (internal_size _ _ Hmax) as L1. pose proof (internal_size _ _ Hmin) as L2.
  rewrite <- Hsync in L2. assert (size (content (maxHeap th)) <> 0%nat).
  { by rewrite map_size_empty_iff. }
  split; apply entry_at_lt; try apply Hmax; try apply Hmin; lia.
Qed.

Lemma Peek_extremal th :
  heap_wf th ->
  match PeekMax th, PeekMin th with
  | Some (tmax, pmax), Some (tmin, pmin) =>
      pending th !! Tx_ID tmax = Some (pmax, tmax) /\
      pending th !! Tx_ID tmin = Some (pmin, tmin) /\
      forall k q, pending th !! k = Some q -> pmin <= q.1 <= pmax
  | None, None => pending th = ∅
  | _, _ => False
  end.
Proof.
  intros Hw. unfold PeekMax, PeekMin. destruct (decide (pending th = ∅)) as [He|Hne].
  { destruct (Peek_None th Hw He) as [-> ->]. done. }
  destruct (Peek_Some th Hw Hne) as [[e1 E1] [e2 E2]]. rewrite E1, E2. cbn.
  destruct Hw as [Hmax Hmin Hsync Hid]. unfold pending in *.
  assert (H1 : content (maxHeap th) !! id e1 = Some (gasPrice e1, tx e1)).
  { rewrite lookup_content. apply entry_at_wf in E1 as (-> & _); [done|apply Hmax]. }
  assert (H2 : content (maxHeap th) !! id e2 = Some (gasPrice e2, tx e2)).
  { rewrite Hsync, lookup_content. apply entry_at_wf in E2 as (-> & _); [done|apply Hmin]. }
  pose proof (Hid _ _ H1) as I1. pose proof (Hid _ _ H2) as I2. cbn in I1, I2.
  rewrite I1, I2. split; [done|]. split; [done|]. intros k q Hq.
  pose proof (internal_top _ _ _ _ _ Hmax E1 Hq) as [? _]. rewrite Hsync in Hq.
  pose proof (internal_top _ _ _ _ _ Hmin E2 Hq) as [? _]. lia.
Qed.

(** The pair of heaps implements a finite map from transaction IDs to prices and
    transactions: [Push] adds a new ID and ignores a known one, [Remove] deletes and
    returns the transaction, [Get], [Has] and [Len] are lookup, membership and size,
    and the two heaps stay ordered and in step. *)
Theorem txHeap_refines_map (th : txHeap Tx) (Hw : heap_wf th) :
  (forall t price,
     heap_wf (Push Tx_ID th t price) /\
     pending (Push Tx_ID th t price) =
       match pending th !! Tx_ID t with
       | None => <[Tx_ID t := (price, t)]> (pending th)
       | Some _ => pending th
       end) /\
  (forall k, heap_wf (fst (Remove th k)) /\
     pending (fst (Remove th k)) = delete k (pending th) /\
     snd (Remove th k) = snd <$> pending th !! k) /\
  (forall k, Get th k = snd <$> pending th !! k /\
     Has th k = bool_decide (is_Some (pending th !! k))) /\
  Len th = size (pending th).
Proof.
  split; [|split; [|split]].
  - intros t price. destruct (pending th !! Tx_ID t) eqn:E.
    + by rewrite (Push_known th t price Hw) by (rewrite E; eauto).
    + by apply Push_new.
  - intros k. destruct (pending th !! k) as [[price t]|] eqn:E.
    + destruct (Remove_known th k price t Hw E) as (th' & -> & Hw' & Hp). done.
    + rewrite (Remove_unknown th k Hw E). split; [done|].
      split; [by rewrite delete_id|done].
  - intros k. split; [by apply Get_pending|by apply Has_pending].
  - by apply Len_pending.
Qed.

Lemma PopMax_spec th :
  heap_wf th ->
  match PopMax th with
  | (th', Some t) => exists price, pending th !! Tx_ID t = Some (price, t) /\
      (forall k q, pending th !! k = Some q -> q.1 <= price) /\
      heap_wf th' /\ pending th' = delete (Tx_ID t) (pending th)
  | (th', None) => th' = th /\ pending th = ∅
  end.
Proof.
  intros Hw. pose proof (Peek_extremal th Hw) as Hx. unfold PopMax.
  unfold PeekMax, PeekMin in Hx. destruct (entry_at (maxHeap th) 0) as [e|] eqn:E; cbn in Hx.
  - destruct (entry_at (minHeap th) 0); cbn in Hx; [|done]. destruct Hx as (H1 & _ & Hb).
    destruct (entry_at_wf _ _ _ (proj1 (hw_max _ Hw)) E) as (Hget & _).
    assert (Hid : Tx_ID (tx e) = id e).
    { apply (hw_id th Hw _ (gasPrice e, tx e)). rewrite lookup_content, Hget. done. }
    rewrite Hid in H1. destruct (Remove_known th _ _ _ Hw H1) as (th' & -> & Hw' & Hp).
    rewrite Hid. exists (gasPrice e). split; [done|]. split; [|done].
    intros k q Hq. apply Hb in Hq as [_ Hq]. exact Hq.
  - by destruct (entry_at (minHeap th) 0).
Qed.

(** [PopMax] removes and returns a transaction of the highest gas price, [PopMin]
    one of the lowest, [PeekMax] and [PeekMin] show them, and all four find nothing
    exactly when the heap is empty. *)
Theorem Pop_extremal (th : txHeap Tx) (Hw : heap_wf th) :
  match PopMax th, PopMin th with
  | (thmax, Some tmax), (thmin, Some tmin) =>
      exists pmax pmin, PeekMax th = Some (tmax, pmax) /\ PeekMin th = Some (tmin, pmin) /\
        pending th !! Tx_ID tmax = Some (pmax, tmax) /\
        pending th !! Tx_ID tmin = Some (pmin, tmin) /\
        (forall k q, pending th !! k = Some q -> pmin <= q.1 <= pmax) /\
        heap_wf thmax /\ pending thmax = delete (Tx_ID tmax) (pending th) /\
        heap_wf thmin /\ pending thmin = delete (Tx_ID tmin) (pending th)
  | (thmax, None), (thmin, None) =>
      thmax = th /\ thmin = th /\ pending th = ∅ /\ PeekMax th = None /\ PeekMin th = None
  | _, _ => False
  end.
Proof.
  pose proof (Peek_extremal th Hw) as Hx. unfold PopMax, PopMin.
  unfold PeekMax, PeekMin in *.
  destruct (entry_at (maxHeap th) 0) as [e|] eqn:E, (entry_at (minHeap th) 0) as [e'|] eqn:E';
    cbn in Hx |- *; try done.
  destruct Hx as (H1 & H2 & Hb).
  assert (Hid : Tx_ID (tx e) = id e /\ Tx_ID (tx e') = id e').
  { destruct (entry_at_wf _ _ _ (proj1 (hw_max _ Hw)) E) as (Hg & _).
    destruct (entry_at_wf _ _ _ (proj1 (hw_min _ Hw)) E') as (Hg' & _). split.
    - apply (hw_id th Hw _ (gasPrice e, tx e)). by rewrite lookup_content, Hg.
    - apply (hw_id th Hw _ (gasPrice e', tx e')).
      by rewrite (hw_sync th Hw), lookup_content, Hg'. }
  destruct Hid as [Hid Hid']. rewrite Hid in H1. rewrite Hid' in H2.
  destruct (Remove_known th _ _ _ Hw H1) as (th1 & -> & Hw1 & Hp1).
  destruct (Remove_known th _ _ _ Hw H2) as (th2 & -> & Hw2 & Hp2).
  exists (gasPrice e), (gasPrice e'). rewrite Hid, Hid'. by repeat (split; [done|]).
Qed.

End Laws.

Module Witness.

(** Transactions are numbers, their ID the big-endian bytes. *)
Definition txid (t : Z) : ID := be_encode 8 t.

Definition th3 : txHeap Z :=
  Push txid (Push txid (Push txid newTxHeap 1 50) 2 70) 3 60.

Lemma th3_wf : heap_wf txid th3.
Proof.
  unfold th3. apply Push_new; [apply Push_new; [apply Push_new|]|];
    try apply newTxHeap_wf; vm_compute; reflexivity.
Defined.

Lemma txHeap_refines_map_witness :
  Len th3 = 3%nat /\ snd (Remove th3 (txid 3)) = Some 3 /\ Len th3 = size (pending th3).
Proof.
  split; [reflexivity|].
  destruct (txHeap_refines_map txid th3 th3_wf) as (_ & Hr & _ & Hl).
  split; [|exact Hl]. destruct (Hr (txid 3)) as (_ & _ & ->). vm_compute. reflexivity.
Defined.

Lemma Pop_extremal_witness :
  snd (PopMax th3) = Some 2 /\ snd (PopMin th3) = Some 1 /\
  exists pmax, PeekMax th3 = Some (2, pmax).
Proof.
  assert (E : snd (PopMax th3) = Some 2) by (vm_compute; reflexivity).
  assert (E' : snd (PopMin th3) = Some 1) by (vm_compute; reflexivity).
  split; [exact E|]. split; [exact E'|].
  pose proof (Pop_extremal txid th3 th3_wf) as H.
  rewrite (surjective_pairing (PopMax th3)), (surjective_pairing (PopMin th3)), E, E' in H.
  destruct H as (pmax & _ & Hp & _). exists pmax. exact Hp.
Defined.

End Witness.
End txheap.
