(* ===== verification/Mempool.v ===== *)
(** * The atomic mempool

    [plugin/evm/atomic/txpool]: [txs.go] (the life cycle of a transaction: pending,
    current, issued, discarded) and [mempool.go] (admission, conflicts, eviction).

    A transaction is what the pool asks of it ([PoolTx]).  The LRU cache of discarded
    transactions and the gossip Bloom filter are library types; the order in which Go
    ranges over a map is a parameter.  Metrics, logging and the lock (every exported
    operation runs under it from start to end) have no model.  The channel [pending]
    has room for one element: it is the boolean "there is one". *)

From S2P Require Import Prelude GoStd TxHeap.

(** What the pool needs of an [*atomic.Tx]. *)
Class PoolTx (Tx : Type) := {
  Tx_ID : Tx -> ID;
  Tx_InputUTXOs : Tx -> gset ID;
  Tx_GasUsed : Tx -> bool -> result Z;
  Tx_Burned : Tx -> ID -> result Z
}.

(** The ID is a hash of the transaction's bytes: equal IDs mean equal inputs. *)
Class PoolTxSpec (Tx : Type) {PT : PoolTx Tx} : Prop := {
  ID_inputs t1 t2 : Tx_ID t1 = Tx_ID t2 -> Tx_InputUTXOs t1 = Tx_InputUTXOs t2
}.

(** [luxfi/cache/lru] *)
Class LRU (Tx Cache : Type) := {
  cache_Get : Cache -> ID -> option Tx;
  cache_Put : Cache -> ID -> Tx -> Cache;
  cache_Evict : Cache -> ID -> Cache
}.

(** [luxfi/p2p/gossip]: [BloomFilter.Add] and [ResetBloomFilterIfNeeded], which
    reports whether the filter was reset. *)
Class BloomFilter (Tx Bloom : Type) := {
  bloom_Add : Bloom -> Tx -> Bloom;
  ResetBloomFilterIfNeeded : Bloom -> Z -> result bool * Bloom
}.

(** The orders of [range] over a set and over a map. *)
Class RangeOrder (Tx : Type) := {
  range_set : gset ID -> list ID;
  range_map : gmap ID Tx -> list (ID * Tx)
}.

Class RangeOrderSpec (Tx : Type) {RO : RangeOrder Tx} : Prop := {
  range_set_elements s : range_set s ≡ₚ elements s;
  range_map_to_list m : range_map m ≡ₚ map_to_list m
}.

Module txpool.

Definition TxGossipBloomChurnMultiplier : Z := 3.

Definition ErrNoGasUsed : error := errors_New "txpool.ErrNoGasUsed".
Definition ErrAlreadyKnown : error := errors_New "txpool.ErrAlreadyKnown".
Definition ErrConflict : error := errors_New "txpool.ErrConflict".
Definition ErrInsufficientFee : error := errors_New "txpool.ErrInsufficientFee".
Definition ErrMempoolFull : error := errors_New "txpool.ErrMempoolFull".

Section Pool.
Context {Tx Cache Bloom : Type}.
Context {PT : PoolTx Tx} {LC : LRU Tx Cache} {BF : BloomFilter Tx Bloom} {RO : RangeOrder Tx}.

Record Txs := mkTxs {
  UTXOAssetID : ID;
  maxSize : Z;
  currentTxs : gmap ID Tx;
  issuedTxs : gmap ID Tx;
  discardedTxs : Cache;
  pending : bool;
  txHeap : txheap.txHeap Tx;
  utxoSpenders : gmap ID Tx
}.

Definition set_currentTxs (t : Txs) (m : gmap ID Tx) : Txs :=
  mkTxs (UTXOAssetID t) (maxSize t) m (issuedTxs t) (discardedTxs t) (pending t) (txHeap t)
    (utxoSpenders t).
Definition set_issuedTxs (t : Txs) (m : gmap ID Tx) : Txs :=
  mkTxs (UTXOAssetID t) (maxSize t) (currentTxs t) m (discardedTxs t) (pending t) (txHeap t)
    (utxoSpenders t).
Definition set_discardedTxs (t : Txs) (c : Cache) : Txs :=
  mkTxs (UTXOAssetID t) (maxSize t) (currentTxs t) (issuedTxs t) c (pending t) (txHeap t)
    (utxoSpenders t).
Definition set_pending (t : Txs) (b : bool) : Txs :=
  mkTxs (UTXOAssetID t) (maxSize t) (currentTxs t) (issuedTxs t) (discardedTxs t) b (txHeap t)
    (utxoSpenders t).
Definition set_txHeap (t : Txs) (h : txheap.txHeap Tx) : Txs :=
  mkTxs (UTXOAssetID t) (maxSize t) (currentTxs t) (issuedTxs t) (discardedTxs t) (pending t) h
    (utxoSpenders t).
Definition set_utxoSpenders (t : Txs) (m : gmap ID Tx) : Txs :=
  mkTxs (UTXOAssetID t) (maxSize t) (currentTxs t) (issuedTxs t) (discardedTxs t) (pending t)
    (txHeap t) m.

(** ** [txs.go] *)

(** [lru.NewCache(discardedTxsCacheSize)] is the argument [cache]. *)
Definition NewTxs (assetID : ID) (maxSize : Z) (cache : Cache) : Txs :=
  mkTxs assetID maxSize ∅ ∅ cache false txheap.newTxHeap ∅.

Definition length (t : Txs) : Z :=
  Z.of_nat (txheap.Len (txHeap t)) + Z.of_nat (size (issuedTxs t)).

Definition Len (t : Txs) : Z := length t.
Definition PendingLen (t : Txs) : Z := Len t.

Definition atomicTxGasPrice (t : Txs) (tx : Tx) : result Z :=
  gasUsed ← Tx_GasUsed tx true;
  _ ← fail_if (gasUsed =? 0) ErrNoGasUsed;
  burned ← Tx_Burned tx (UTXOAssetID t);
  Ok (burned / gasUsed).

(** The transactions passed to [f], in the order of the heap's slice, until [f]
    returns false; here the whole sequence. *)
Definition Iterate (t : Txs) : list Tx :=
  omap (fun p => txheap.tx <$> txheap.objs (txheap.maxHeap (txHeap t)) !! p)
    (txheap.items (txheap.maxHeap (txHeap t))).

(** [addPending]: a send that does nothing when the channel is full. *)
Definition addPending (t : Txs) : Txs := set_pending t true.

Definition NextTx (t : Txs) : result (option Tx) * Txs :=
  if bool_decide (0 < txheap.Len (txHeap t))%nat then
    match txheap.PopMax (txHeap t) with
    | (h, None) => (Panic, set_txHeap t h)
    | (h, Some tx) =>
        let t := set_txHeap t h in
        (Ok (Some tx), set_currentTxs t (<[Tx_ID tx := tx]> (currentTxs t)))
    end
  else (Ok None, t).

Definition GetPendingTx (t : Txs) (txID : ID) : option Tx := txheap.Get (txHeap t) txID.

(** The transaction, whether it was dropped, and whether it was found. *)
Definition GetTx (t : Txs) (txID : ID) : option Tx * bool * bool :=
  match txheap.Get (txHeap t) txID with
  | Some tx => (Some tx, false, true)
  | None =>
  match issuedTxs t !! txID with
  | Some tx => (Some tx, false, true)
  | None =>
  match currentTxs t !! txID with
  | Some tx => (Some tx, false, true)
  | None =>
  match cache_Get (discardedTxs t) txID with
  | Some tx => (Some tx, true, true)
  | None => (None, false, false)
  end end end end.

Definition Has (t : Txs) (txID : ID) : bool :=
  let '(_, dropped, found) := GetTx t txID in found && negb dropped.

(** The [range] loop moves every entry; an entry is deleted only when visited. *)
Definition IssueCurrentTxs (t : Txs) : Txs :=
  let t := fold_left (fun t '(txID, tx) =>
             let t := set_issuedTxs t (<[txID := tx]> (issuedTxs t)) in
             set_currentTxs t (delete txID (currentTxs t)))
           (range_map (currentTxs t)) t in
  if bool_decide (0 < txheap.Len (txHeap t))%nat then addPending t else t.

Definition removeSpenders (t : Txs) (tx : Tx) : Txs :=
  set_utxoSpenders t
    (fold_left (fun m utxoID => delete utxoID m) (range_set (Tx_InputUTXOs tx))
       (utxoSpenders t)).

Definition cancelTx (t : Txs) (tx : Tx) : Txs :=
  let t :=
    match atomicTxGasPrice t tx with
    | Ok gasPrice => set_txHeap t (txheap.Push Tx_ID (txHeap t) tx gasPrice)
    | _ =>
        let t := removeSpenders t tx in
        set_discardedTxs t (cache_Put (discardedTxs t) (Tx_ID tx) tx)
    end in
  set_currentTxs t (delete (Tx_ID tx) (currentTxs t)).

Definition CancelCurrentTx (t : Txs) (txID : ID) : Txs :=
  match currentTxs t !! txID with
  | Some tx => cancelTx t tx
  | None => t
  end.

Definition CancelCurrentTxs (t : Txs) : Txs :=
  let t := fold_left (fun t '(_, tx) => cancelTx t tx) (range_map (currentTxs t)) t in
  if bool_decide (0 < txheap.Len (txHeap t))%nat then addPending t else t.

Definition discardCurrentTx (t : Txs) (tx : Tx) : Txs :=
  let t := removeSpenders t tx in
  let t := set_discardedTxs t (cache_Put (discardedTxs t) (Tx_ID tx) tx) in
  set_currentTxs t (delete (Tx_ID tx) (currentTxs t)).

Definition DiscardCurrentTx (t : Txs) (txID : ID) : Txs :=
  match currentTxs t !! txID with
  | Some tx => discardCurrentTx t tx
  | None => t
  end.

Definition DiscardCurrentTxs (t : Txs) : Txs :=
  fold_left (fun t '(_, tx) => discardCurrentTx t tx) (range_map (currentTxs t)) t.

Definition removeTx (t : Txs) (tx : Tx) (discard : bool) : Txs :=
  let txID := Tx_ID tx in
  let t := set_currentTxs t (delete txID (currentTxs t)) in
  let t := set_txHeap t (fst (txheap.Remove (txHeap t) txID)) in
  let t := set_issuedTxs t (delete txID (issuedTxs t)) in
  let t :=
    if discard then set_discardedTxs t (cache_Put (discardedTxs t) txID tx)
    else set_discardedTxs t (cache_Evict (discardedTxs t) txID) in
  removeSpenders t tx.

Definition RemoveTx (t : Txs) (tx : Tx) : Txs := removeTx t tx false.

(** ** [mempool.go] *)

Record Mempool := mkMempool {
  mp_Txs : Txs;
  bloom : Bloom;
  verify : option (Tx -> result unit)
}.

Definition set_Txs (m : Mempool) (t : Txs) : Mempool := mkMempool t (bloom m) (verify m).
Definition set_bloom (m : Mempool) (b : Bloom) : Mempool := mkMempool (mp_Txs m) b (verify m).

(** The highest gas price among the transactions that spend one of the inputs, its ID,
    and those transactions, one for each shared input. *)
Fixpoint checkConflictTx_loop (t : Txs) (utxos : list ID) (highestGasPrice : Z) (highestID : ID)
    (conflictingTxs : list Tx) : result (Z * ID * list Tx) :=
  match utxos with
  | [] => Ok (highestGasPrice, highestID, conflictingTxs)
  | utxoID :: utxos =>
      match utxoSpenders t !! utxoID with
      | None => checkConflictTx_loop t utxos highestGasPrice highestID conflictingTxs
      | Some conflictTx =>
          let conflictTxID := Tx_ID conflictTx in
          conflictTxGasPrice ←
            wrap_err "failed to re-calculate gas price for conflict tx due to"
              (atomicTxGasPrice t conflictTx);
          let '(highestGasPrice, highestID) :=
            if highestGasPrice <? conflictTxGasPrice
            then (conflictTxGasPrice, conflictTxID) else (highestGasPrice, highestID) in
          checkConflictTx_loop t utxos highestGasPrice highestID
            (conflictingTxs ++ [conflictTx])
      end
  end.

Definition checkConflictTx (t : Txs) (tx : Tx) : result (Z * ID * list Tx) :=
  let utxoSet := Tx_InputUTXOs tx in
  checkConflictTx_loop t (range_set utxoSet) 0 (replicate 32 Byte.x00) [].

(** [gasPrice, _ := m.atomicTxGasPrice(tx)]: zero when the price cannot be computed. *)
Definition gasPrice_or_zero (t : Txs) (tx : Tx) : Z :=
  match atomicTxGasPrice t tx with Ok p => p | _ => 0 end.

(** The four ways a transaction can already be known. *)
Definition addTx_known (t : Txs) (txID : ID) (local : bool) : result unit :=
  _ ← fail_if (bool_decide (is_Some (issuedTxs t !! txID)))
        (errorf_w "tx %s was issued previously" ErrAlreadyKnown);
  _ ← fail_if (bool_decide (is_Some (currentTxs t !! txID)))
        (errorf_w "tx %s is being built into a block" ErrAlreadyKnown);
  _ ← fail_if (bool_decide (is_Some (txheap.Get (txHeap t) txID)))
        (errorf_w "tx %s is pending" ErrAlreadyKnown);
  fail_if (negb local && bool_decide (is_Some (cache_Get (discardedTxs t) txID)))
    (errorf_w "tx %s was discarded" ErrAlreadyKnown).

(** The size check: evicts the cheapest pending transaction if it pays less. *)
Definition addTx_evict (t : Txs) (gasPrice : Z) : result Txs :=
  if maxSize t <=? length t then
    if bool_decide (0 < txheap.Len (txHeap t))%nat then
      match txheap.PeekMin (txHeap t) with
      | None => Panic
      | Some (minTx, minGasPrice) =>
          if gasPrice <=? minGasPrice
          then Err (errorf_w "currentMin=%d provided=%d" ErrInsufficientFee)
          else Ok (removeTx t minTx true)
      end
    else Err ErrMempoolFull
  else Ok t.

(** The insertion once the transaction is admitted. *)
Definition addTx_insert (t : Txs) (tx : Tx) (gasPrice : Z) : Txs :=
  let txID := Tx_ID tx in
  let t :=
    if bool_decide (is_Some (cache_Get (discardedTxs t) txID))
    then set_discardedTxs t (cache_Evict (discardedTxs t) txID) else t in
  let t := set_txHeap t (txheap.Push Tx_ID (txHeap t) tx gasPrice) in
  set_utxoSpenders t
    (fold_left (fun m utxoID => <[utxoID := tx]> m) (range_set (Tx_InputUTXOs tx))
       (utxoSpenders t)).

(** The Bloom filter: the transaction, or after a reset every pending one. *)
Definition addTx_bloom (m : Mempool) (tx : Tx) : result unit * Mempool :=
  let m := set_bloom m (bloom_Add (bloom m) tx) in
  let '(reset, b) := ResetBloomFilterIfNeeded (bloom m)
                       (length (mp_Txs m) * TxGossipBloomChurnMultiplier) in
  let m := set_bloom m b in
  match reset with
  | Err e => (Err e, m)
  | Panic => (Panic, m)
  | Ok false => (Ok tt, m)
  | Ok true =>
      let minHeap := txheap.minHeap (txHeap (mp_Txs m)) in
      let txs := omap (fun p => txheap.tx <$> txheap.objs minHeap !! p) (txheap.items minHeap) in
      (Ok tt, set_bloom m (fold_left bloom_Add txs (bloom m)))
  end.

(** The pool is returned on every path: an error after the conflicts were removed
    leaves them removed. *)
Definition addTx (m : Mempool) (tx : Tx) (local force : bool) : result unit * Mempool :=
  let txID := Tx_ID tx in
  let t := mp_Txs m in
  match addTx_known t txID local with
  | Err e => (Err e, m)
  | Panic => (Panic, m)
  | Ok _ =>
  match (if negb force then from_option (fun v => v tx) (Ok tt) (verify m) else Ok tt) with
  | Err e => (Err e, m)
  | Panic => (Panic, m)
  | Ok _ =>
  let gasPrice := gasPrice_or_zero t tx in
  match checkConflictTx t tx with
  | Err e => (Err e, m)
  | Panic => (Panic, m)
  | Ok (highestGasPrice, _, conflictingTxs) =>
  let hasConflicts := bool_decide (conflictingTxs <> []) && negb force in
  if hasConflicts && (gasPrice <=? highestGasPrice) then
    (Err (errorf_w "issued tx gas price <= conflict tx gas price" ErrConflict), m)
  else
  let t :=
    if hasConflicts
    then fold_left (fun t conflictTx => removeTx t conflictTx true) conflictingTxs t
    else t in
  match addTx_evict t gasPrice with
  | Err e => (Err e, set_Txs m t)
  | Panic => (Panic, set_Txs m t)
  | Ok t =>
  match addTx_bloom (set_Txs m (addTx_insert t tx gasPrice)) tx with
  | (Ok _, m) => (Ok tt, set_Txs m (addPending (mp_Txs m)))
  | (r, m) => (r, m)
  end end end end end.

Definition AddRemoteTx (m : Mempool) (tx : Tx) : result unit * Mempool :=
  match addTx m tx false false with
  | (Err err, m) =>
      if errors_Is err ErrAlreadyKnown then (Err err, m)
      else
        let t := mp_Txs m in
        (Err err, set_Txs m (set_discardedTxs t (cache_Put (discardedTxs t) (Tx_ID tx) tx)))
  | r => r
  end.

(** [Mempool.Add] *)
Definition Mempool_Add (m : Mempool) (tx : Tx) : result unit * Mempool := AddRemoteTx m tx.

Definition AddLocalTx (m : Mempool) (tx : Tx) : result unit * Mempool := addTx m tx true false.

Definition ForceAddTx (m : Mempool) (tx : Tx) : result unit * Mempool := addTx m tx true true.

End Pool.

#[global] Arguments Txs : clear implicits.
#[global] Arguments Mempool : clear implicits.

(** ** The pool as a map and a spender table *)

Section Laws.
Context {Tx Cache Bloom : Type}.
Context {PT : PoolTx Tx} {LC : LRU Tx Cache} {BF : BloomFilter Tx Bloom} {RO : RangeOrder Tx}.
Context {PTs : PoolTxSpec Tx} {ROs : RangeOrderSpec Tx}.
Implicit Types t : Txs Tx Cache.

(** Every transaction in the pool: pending, being built into a block, or issued. *)
Definition pool t : gmap ID Tx :=
  (snd <$> txheap.pending (txHeap t)) ∪ currentTxs t ∪ issuedTxs t.

(** Each transaction is in one place only, under its own ID. *)
Record places_wf t : Prop := {
  pl_heap : txheap.heap_wf Tx_ID (txHeap t);
  pl_current k tx : currentTxs t !! k = Some tx -> Tx_ID tx = k;
  pl_issued k tx : issuedTxs t !! k = Some tx -> Tx_ID tx = k;
  pl_heap_current k : is_Some (txheap.pending (txHeap t) !! k) -> currentTxs t !! k = None;
  pl_heap_issued k : is_Some (txheap.pending (txHeap t) !! k) -> issuedTxs t !! k = None;
  pl_current_issued k : is_Some (currentTxs t !! k) -> issuedTxs t !! k = None
}.

(** Every recorded spender is in the pool and spends what it is recorded for. *)
Definition spenders_sound (P spenders : gmap ID Tx) : Prop :=
  forall u tx, spenders !! u = Some tx -> P !! Tx_ID tx = Some tx /\ u ∈ Tx_InputUTXOs tx.

(** Every input of a pool transaction is recorded as spent by it. *)
Definition spenders_complete (P spenders : gmap ID Tx) : Prop :=
  forall k tx u, P !! k = Some tx -> u ∈ Tx_InputUTXOs tx -> spenders !! u = Some tx.

Lemma lookup_pool t k :
  pool t !! k =
  match txheap.pending (txHeap t) !! k with
  | Some q => Some q.2
  | None => match currentTxs t !! k with Some tx => Some tx | None => issuedTxs t !! k end
  end.
Proof.
  unfold pool. rewrite !lookup_union, lookup_fmap.
  destruct (txheap.pending (txHeap t) !! k), (currentTxs t !! k), (issuedTxs t !! k); done.
Qed.

Lemma pool_ID t k tx : places_wf t -> pool t !! k = Some tx -> Tx_ID tx = k.
Proof.
  intros Hw. rewrite lookup_pool.
  destruct (txheap.pending (txHeap t) !! k) as [q|] eqn:Hq.
  { intros [= <-]. by apply (txheap.hw_id _ _ (pl_heap t Hw)) in Hq. }
  destruct (currentTxs t !! k) eqn:Hc; [intros [= <-]; by apply (pl_current t Hw)|].
  apply (pl_issued t Hw).
Qed.

(** The spender table after [removeSpenders]. *)
Definition without (S : gmap ID Tx) (utxos : gset ID) : gmap ID Tx :=
  filter (fun '(u, _) => u ∉ utxos) S.

Lemma lookup_without S utxos u :
  without S utxos !! u = if decide (u ∈ utxos) then None else S !! u.
Proof.
  unfold without. destruct (decide (u ∈ utxos)).
  - apply map_lookup_filter_None. right. by intros ? _ ?.
  - destruct (S !! u) eqn:E.
    + by apply map_lookup_filter_Some.
    + apply map_lookup_filter_None. by left.
Qed.

Lemma lookup_fold_delete u l (m : gmap ID Tx) :
  fold_left (fun m utxoID => delete utxoID m) l m !! u =
  if decide (u ∈ l) then None else m !! u.
Proof.
  revert m. induction l as [|v l IH]; intros m; cbn [fold_left].
  - by rewrite decide_False by apply not_elem_of_nil.
  - rewrite IH. destruct (decide (u ∈ l)) as [Hl|Hl].
    + by rewrite decide_True by (by apply elem_of_cons; right).
    + destruct (decide (u = v)) as [->|Hne].
      * rewrite lookup_delete_eq, decide_True; [done|]. apply elem_of_cons. by left.
      * rewrite lookup_delete_ne by done. rewrite decide_False; [done|].
        rewrite elem_of_cons. naive_solver.
Qed.

Lemma lookup_fold_insert u (tx : Tx) l (m : gmap ID Tx) :
  fold_left (fun m utxoID => <[utxoID := tx]> m) l m !! u =
  if decide (u ∈ l) then Some tx else m !! u.
Proof.
  revert m. induction l as [|v l IH]; intros m; cbn [fold_left].
  - by rewrite decide_False by apply not_elem_of_nil.
  - rewrite IH. destruct (decide (u ∈ l)) as [Hl|Hl].
    + by rewrite decide_True by (by apply elem_of_cons; right).
    + destruct (decide (u = v)) as [->|Hne].
      * rewrite lookup_insert_eq, decide_True; [done|]. apply elem_of_cons. by left.
      * rewrite lookup_insert_ne by done. rewrite decide_False; [done|].
        rewrite elem_of_cons. naive_solver.
Qed.

Lemma removeSpenders_eq t tx :
  removeSpenders t tx = set_utxoSpenders t (without (utxoSpenders t) (Tx_InputUTXOs tx)).
Proof.
  unfold removeSpenders. f_equal. apply map_eq. intros u. rewrite lookup_without.
  rewrite lookup_fold_delete. apply decide_ext. by rewrite range_set_elements, elem_of_elements.
Qed.

(** Removing a transaction from the pool and the table. *)
Lemma sound_remove P S tx :
  spenders_sound P S ->
  spenders_sound (delete (Tx_ID tx) P) (without S (Tx_InputUTXOs tx)).
Proof.
  intros Hs u tx'. rewrite lookup_without. case_decide as Hu; [done|]. intros H.
  destruct (Hs u tx' H) as [HP Hin]. split; [|done]. rewrite lookup_delete_ne; [done|].
  intros Heq. apply Hu. by rewrite (ID_inputs tx tx').
Qed.

(** No other transaction of the pool shares an input with [tx]. *)
Definition no_conflict (P : gmap ID Tx) (tx : Tx) : Prop :=
  forall k tx' u, P !! k = Some tx' -> k <> Tx_ID tx ->
    u ∈ Tx_InputUTXOs tx' -> u ∉ Tx_InputUTXOs tx.

Lemma complete_remove P S tx :
  spenders_complete P S -> no_conflict P tx ->
  spenders_complete (delete (Tx_ID tx) P) (without S (Tx_InputUTXOs tx)).
Proof.
  intros Hc Hn k tx' u Hk Hu. apply lookup_delete_Some in Hk as [Hne Hk].
  rewrite lookup_without, decide_False; [by eapply Hc|].
  eapply Hn; [done|done|done].
Qed.

Lemma member_no_conflict P S tx :
  (forall k tx', P !! k = Some tx' -> Tx_ID tx' = k) ->
  spenders_complete P S -> is_Some (P !! Tx_ID tx) -> no_conflict P tx.
Proof.
  intros HID Hc [tx0 H0] k tx' u Hk Hne Hu Hu'. apply Hne.
  rewrite (ID_inputs tx tx0) in Hu' by (by rewrite (HID _ _ H0)).
  pose proof (Hc _ _ _ Hk Hu) as E1. pose proof (Hc _ _ _ H0 Hu') as E2.
  rewrite <- (HID _ _ Hk), <- (HID _ _ H0). congruence.
Qed.

(** ** The operations on places *)

Lemma heap_Remove_fst t k :
  places_wf t ->
  txheap.heap_wf Tx_ID (fst (txheap.Remove (txHeap t) k)) /\
  txheap.pending (fst (txheap.Remove (txHeap t) k)) = delete k (txheap.pending (txHeap t)).
Proof.
  intros Hw. pose proof (pl_heap t Hw) as Hh.
  destruct (txheap.pending (txHeap t) !! k) as [[price tx]|] eqn:E.
  - by destruct (txheap.Remove_known Tx_ID _ _ _ _ Hh E) as (h' & -> & Hw' & Hp).
  - rewrite (txheap.Remove_unknown Tx_ID _ _ Hh E). split; [done|]. by rewrite delete_id.
Qed.

Lemma removeTx_spec t tx d :
  places_wf t ->
  places_wf (removeTx t tx d) /\ pool (removeTx t tx d) = delete (Tx_ID tx) (pool t) /\
  utxoSpenders (removeTx t tx d) = without (utxoSpenders t) (Tx_InputUTXOs tx) /\
  maxSize (removeTx t tx d) = maxSize t /\ UTXOAssetID (removeTx t tx d) = UTXOAssetID t.
Proof.
  intros Hw. destruct (heap_Remove_fst t (Tx_ID tx) Hw) as [Hh Hp].
  unfold removeTx. rewrite removeSpenders_eq.
  split; [|split].
  - destruct d; split; cbn; try done;
      try (intros k tx' [_ Hk]%lookup_delete_Some; revert Hk; by apply Hw);
      intros k; rewrite ?Hp; rewrite ?lookup_delete_is_Some;
      try (intros [Hne Hk]; rewrite lookup_delete_ne by done; revert Hk; by apply Hw).
  - apply map_eq. intros k. destruct d; rewrite lookup_delete, !lookup_pool; cbn;
      rewrite Hp, !lookup_delete; by case_decide.
  - by destruct d.
Qed.

Lemma current_tx_pool t k tx :
  places_wf t -> currentTxs t !! k = Some tx ->
  txheap.pending (txHeap t) !! k = None /\ issuedTxs t !! k = None /\ pool t !! k = Some tx.
Proof.
  intros Hw Hk.
  assert (Hp : txheap.pending (txHeap t) !! k = None).
  { destruct (txheap.pending (txHeap t) !! k) eqn:E; [|done].
    rewrite (pl_heap_current t Hw k) in Hk by eauto. done. }
  split; [done|]. split; [apply (pl_current_issued t Hw); eauto|].
  by rewrite lookup_pool, Hp, Hk.
Qed.

(** Dropping a current transaction removes it from the pool. *)
Lemma discardCurrentTx_spec t tx :
  places_wf t -> currentTxs t !! Tx_ID tx = Some tx ->
  places_wf (discardCurrentTx t tx) /\
  pool (discardCurrentTx t tx) = delete (Tx_ID tx) (pool t) /\
  utxoSpenders (discardCurrentTx t tx) = without (utxoSpenders t) (Tx_InputUTXOs tx) /\
  currentTxs (discardCurrentTx t tx) = delete (Tx_ID tx) (currentTxs t).
Proof.
  intros Hw Hc. destruct (current_tx_pool t _ _ Hw Hc) as (Hp & Hi & _).
  unfold discardCurrentTx. rewrite removeSpenders_eq. split; [|split; [|done]].
  - split; cbn; try apply Hw.
    + intros k tx' [_ Hk]%lookup_delete_Some. by apply (pl_current t Hw).
    + intros k Hk. apply lookup_delete_None. right. by apply (pl_heap_current t Hw).
    + intros k [_ Hk]%lookup_delete_is_Some. by apply (pl_current_issued t Hw).
  - apply map_eq. intros k. rewrite lookup_delete, !lookup_pool. cbn.
    rewrite lookup_delete. case_decide as Heq; [|done]. subst k. by rewrite Hp, Hi.
Qed.

(** Putting a current transaction back keeps the pool, or drops it when its price
    cannot be computed. *)
Lemma cancelTx_spec t tx :
  places_wf t -> currentTxs t !! Tx_ID tx = Some tx ->
  places_wf (cancelTx t tx) /\ currentTxs (cancelTx t tx) = delete (Tx_ID tx) (currentTxs t) /\
  ((pool (cancelTx t tx) = pool t /\ utxoSpenders (cancelTx t tx) = utxoSpenders t) \/
   (pool (cancelTx t tx) = delete (Tx_ID tx) (pool t) /\
    utxoSpenders (cancelTx t tx) = without (utxoSpenders t) (Tx_InputUTXOs tx))).
Proof.
  intros Hw Hc. destruct (current_tx_pool t _ _ Hw Hc) as (Hp & Hi & _). unfold cancelTx.
  destruct (atomicTxGasPrice t tx) as [price|e|].
  - destruct (txheap.Push_new Tx_ID (txHeap t) tx price (pl_heap t Hw) Hp) as [Hh' Hp'].
    split; [|split; [done|left; split; [|done]]].
    + split; cbn; try done.
      * intros k tx' [_ Hk]%lookup_delete_Some. by apply (pl_current t Hw).
      * apply Hw.
      * intros k. rewrite Hp'. intros [<-|[Hne Hk]]%lookup_insert_is_Some.
        -- apply lookup_delete_eq.
        -- rewrite lookup_delete_ne by done. by apply (pl_heap_current t Hw).
      * intros k. rewrite Hp'. intros [<-|[Hne Hk]]%lookup_insert_is_Some; [done|].
        by apply (pl_heap_issued t Hw).
      * intros k [_ Hk]%lookup_delete_is_Some. by apply (pl_current_issued t Hw).
    + apply map_eq. intros k. rewrite !lookup_pool. cbn. rewrite Hp', lookup_delete.
      destruct (decide (Tx_ID tx = k)) as [<-|Hne].
      * by rewrite lookup_insert_eq, Hp, Hc.
      * by rewrite lookup_insert_ne.
  - destruct (discardCurrentTx_spec t tx Hw Hc) as (H1 & H2 & H3 & H4).
    unfold discardCurrentTx in *. split; [exact H1|]. split; [exact H4|]. by right.
  - destruct (discardCurrentTx_spec t tx Hw Hc) as (H1 & H2 & H3 & H4).
    unfold discardCurrentTx in *. split; [exact H1|]. split; [exact H4|]. by right.
Qed.

Lemma NextTx_spec t :
  places_wf t ->
  match NextTx t with
  | (Ok (Some tx), t') => exists price,
      txheap.pending (txHeap t) !! Tx_ID tx = Some (price, tx) /\
      (forall k q, txheap.pending (txHeap t) !! k = Some q -> q.1 <= price) /\
      places_wf t' /\ pool t' = pool t /\ utxoSpenders t' = utxoSpenders t /\
      currentTxs t' !! Tx_ID tx = Some tx
  | (Ok None, t') => t' = t /\ txheap.pending (txHeap t) = ∅
  | _ => False
  end.
Proof.
  intros Hw. pose proof (pl_heap t Hw) as Hh. unfold NextTx.
  pose proof (txheap.PopMax_spec Tx_ID (txHeap t) Hh) as Hpop.
  rewrite (txheap.Len_pending Tx_ID _ Hh). case_bool_decide as Hlen; cycle 1.
  { split; [done|]. apply map_size_empty_iff. lia. }
  destruct (txheap.PopMax (txHeap t)) as [h [tx|]]; cycle 1.
  { destruct Hpop as [_ He]. rewrite He, map_size_empty in Hlen. lia. }
  destruct Hpop as (price & Hp & Hmax & Hh' & Hp'). exists price.
  split; [done|]. split; [done|]. split; [|split; [|split; [done|]]].
  - split; cbn; try done.
    + intros k tx'. intros [[<- <-]|[_ Hk]]%lookup_insert_Some; [done|].
      by apply (pl_current t Hw).
    + apply Hw.
    + intros k. rewrite Hp'. intros [Hne Hk]%lookup_delete_is_Some.
      rewrite lookup_insert_ne by done. by apply (pl_heap_current t Hw).
    + intros k. rewrite Hp'. intros [_ Hk]%lookup_delete_is_Some.
      by apply (pl_heap_issued t Hw).
    + intros k. intros [<-|[_ Hk]]%lookup_insert_is_Some.
      * apply (pl_heap_issued t Hw). rewrite Hp. eauto.
      * by apply (pl_current_issued t Hw).
  - apply map_eq. intros k. rewrite !lookup_pool. cbn. rewrite Hp'.
    destruct (decide (Tx_ID tx = k)) as [<-|Hne].
    + by rewrite lookup_delete_eq, lookup_insert_eq, Hp.
    + by rewrite lookup_delete_ne, lookup_insert_ne.
  - cbn. apply lookup_insert_eq.
Qed.

(** Taking a transaction makes the heap smaller. *)
Lemma NextTx_shrinks t tx t' : places_wf t -> NextTx t = (Ok (Some tx), t') ->
  (txheap.Len (txHeap t') < txheap.Len (txHeap t))%nat.
Proof.
  intros Hw. pose proof (pl_heap t Hw) as Hh. unfold NextTx.
  pose proof (txheap.PopMax_spec Tx_ID (txHeap t) Hh) as Hpop. case_bool_decide; [|done].
  destruct (txheap.PopMax (txHeap t)) as [h [tx1|]]; [|done].
  destruct Hpop as (price & Hp & _ & Hh' & Hp'). intros [= -> <-]. cbn.
  rewrite (txheap.Len_pending Tx_ID h), (txheap.Len_pending Tx_ID (txHeap t)), Hp' by done.
  rewrite map_size_delete, Hp. assert (size (txheap.pending (txHeap t)) <> 0%nat); [|lia].
  intros E%map_size_empty_inv. by rewrite E, lookup_empty in Hp.
Qed.

(** The loops over [currentTxs] visit distinct keys that are still there. *)
Definition still_current t (l : list (ID * Tx)) : Prop :=
  NoDup l.*1 /\ forall k tx, (k, tx) ∈ l -> currentTxs t !! k = Some tx.

Lemma still_current_range t : still_current t (range_map (currentTxs t)).
Proof.
  split.
  - rewrite range_map_to_list. apply NoDup_fst_map_to_list.
  - intros k tx. rewrite range_map_to_list. by rewrite elem_of_map_to_list.
Qed.

Lemma still_current_step t t' k tx l :
  still_current t ((k, tx) :: l) -> currentTxs t' = delete k (currentTxs t) ->
  currentTxs t !! k = Some tx /\ still_current t' l.
Proof.
  intros [Hnd Hin] Hc. cbn in Hnd. inversion Hnd as [|? ? Hni Hnd']; subst. split.
  { apply Hin. apply elem_of_cons. by left. }
  split; [done|]. intros k' tx' Hk'. rewrite Hc, lookup_delete_ne.
  - apply Hin. apply elem_of_cons. by right.
  - intros ->. apply Hni. apply list_elem_of_fmap. by exists (k', tx').
Qed.

(** What a step over one current transaction preserves, the loop preserves. *)
Lemma current_loop (I : Txs Tx Cache -> Prop) (f : Txs Tx Cache -> ID * Tx -> Txs Tx Cache) l t :
  (forall t k tx, I t -> currentTxs t !! k = Some tx ->
     I (f t (k, tx)) /\ currentTxs (f t (k, tx)) = delete k (currentTxs t)) ->
  I t -> still_current t l -> I (fold_left f l t).
Proof.
  intros Hstep. revert t. induction l as [|[k tx] l IH]; intros t Ht Hl; [done|].
  cbn [fold_left]. assert (Hk : currentTxs t !! k = Some tx).
  { apply Hl. apply elem_of_cons. by left. }
  destruct (Hstep t k tx Ht Hk) as [Ht' Hc'].
  apply IH; [done|]. by eapply still_current_step.
Qed.

(** ** The pool invariant *)

Record pool_wf t : Prop := {
  pw_places : places_wf t;
  pw_sound : spenders_sound (pool t) (utxoSpenders t);
  pw_complete : spenders_complete (pool t) (utxoSpenders t)
}.

Lemma pool_wf_same t t' :
  pool_wf t -> places_wf t' -> pool t' = pool t -> utxoSpenders t' = utxoSpenders t ->
  pool_wf t'.
Proof. intros [Hp Hs Hc] Hw E1 E2. split; [done|by rewrite E1, E2|by rewrite E1, E2]. Qed.

Lemma pool_wf_removed t t' tx :
  pool_wf t -> places_wf t' -> pool t' = delete (Tx_ID tx) (pool t) ->
  utxoSpenders t' = without (utxoSpenders t) (Tx_InputUTXOs tx) ->
  no_conflict (pool t) tx -> pool_wf t'.
Proof.
  intros [Hp Hs Hc] Hw E1 E2 Hn.
  split; [done|rewrite E1, E2; by apply sound_remove|rewrite E1, E2; by apply complete_remove].
Qed.

Lemma pool_member_no_conflict t tx :
  pool_wf t -> is_Some (pool t !! Tx_ID tx) -> no_conflict (pool t) tx.
Proof.
  intros [Hp Hs Hc] Hk. eapply member_no_conflict; [|done|done].
  intros k tx' H. by eapply pool_ID.
Qed.

Lemma removeTx_wf t tx d : pool_wf t -> no_conflict (pool t) tx -> pool_wf (removeTx t tx d).
Proof.
  intros Hw Hn. destruct (removeTx_spec t tx d (pw_places t Hw)) as (H1 & H2 & H3 & _).
  by eapply pool_wf_removed.
Qed.

Lemma cancelTx_wf t k tx :
  pool_wf t -> currentTxs t !! k = Some tx ->
  pool_wf (cancelTx t tx) /\ currentTxs (cancelTx t tx) = delete k (currentTxs t).
Proof.
  intros Hw Hk. pose proof (pl_current t (pw_places t Hw) _ _ Hk) as <-.
  destruct (cancelTx_spec t tx (pw_places t Hw) Hk) as (H1 & H2 & [[H3 H4]|[H3 H4]]);
    (split; [|done]).
  - by eapply pool_wf_same.
  - eapply pool_wf_removed; [done..|]. apply pool_member_no_conflict; [done|].
    destruct (current_tx_pool t _ _ (pw_places t Hw) Hk) as (_ & _ & ->). eauto.
Qed.

Lemma discardCurrentTx_wf t k tx :
  pool_wf t -> currentTxs t !! k = Some tx ->
  pool_wf (discardCurrentTx t tx) /\ currentTxs (discardCurrentTx t tx) = delete k (currentTxs t).
Proof.
  intros Hw Hk. pose proof (pl_current t (pw_places t Hw) _ _ Hk) as <-.
  destruct (discardCurrentTx_spec t tx (pw_places t Hw) Hk) as (H1 & H2 & H3 & H4).
  split; [|done]. eapply pool_wf_removed; [done..|]. apply pool_member_no_conflict; [done|].
  destruct (current_tx_pool t _ _ (pw_places t Hw) Hk) as (_ & _ & ->). eauto.
Qed.

Lemma addPending_wf t : pool_wf t -> pool_wf (addPending t).
Proof. intros [[] ? ?]. by split. Qed.

Lemma set_discardedTxs_wf t c : pool_wf t -> pool_wf (set_discardedTxs t c).
Proof. intros [[] ? ?]. by split. Qed.

Lemma issue_one_wf t k tx :
  pool_wf t -> currentTxs t !! k = Some tx ->
  let t' := set_currentTxs (set_issuedTxs t (<[k := tx]> (issuedTxs t)))
              (delete k (currentTxs t)) in
  pool_wf t' /\ currentTxs t' = delete k (currentTxs t) /\ pool t' = pool t.
Proof.
  intros Hw Hk t'. pose proof (pw_places t Hw) as Hp.
  destruct (current_tx_pool t _ _ Hp Hk) as (Hpk & Hik & _).
  assert (Hpool : pool t' = pool t).
  { apply map_eq. intros k'. rewrite !lookup_pool. cbn. rewrite lookup_delete.
    destruct (decide (k = k')) as [<-|Hne].
    - by rewrite Hpk, lookup_insert_eq, Hk.
    - by rewrite lookup_insert_ne. }
  split; [|done]. apply (pool_wf_same t); [done| |done|done].
  split; cbn; try apply Hp.
  - intros k' tx' [_ Hk']%lookup_delete_Some. by apply (pl_current t Hp).
  - intros k' tx' [[<- <-]|[_ Hk']]%lookup_insert_Some; [by apply (pl_current t Hp)|].
    by apply (pl_issued t Hp).
  - intros k' Hk'. apply lookup_delete_None. right. by apply (pl_heap_current t Hp).
  - intros k' Hk'. rewrite lookup_insert_ne; [by apply (pl_heap_issued t Hp)|].
    intros <-. rewrite Hpk in Hk'. by destruct Hk'.
  - intros k' [Hne Hk']%lookup_delete_is_Some. rewrite lookup_insert_ne by done.
    by apply (pl_current_issued t Hp).
Qed.

Lemma IssueCurrentTxs_wf t :
  pool_wf t -> pool_wf (IssueCurrentTxs t) /\ pool (IssueCurrentTxs t) = pool t.
Proof.
  intros Hw. unfold IssueCurrentTxs.
  set (f := fun (t : Txs Tx Cache) '(txID, tx) => _).
  assert (H : pool_wf (fold_left f (range_map (currentTxs t)) t) /\
              pool (fold_left f (range_map (currentTxs t)) t) = pool t).
  { apply (current_loop (fun t' => pool_wf t' /\ pool t' = pool t));
      [|done|apply still_current_range].
    intros t' k tx [Hw' He] Hk. destruct (issue_one_wf t' k tx Hw' Hk) as (H1 & H2 & H3).
    split; [|done]. split; [exact H1|]. by rewrite <- He. }
  destruct H as [H1 H2]. case_bool_decide; [|done]. split; [by apply addPending_wf|done].
Qed.

Lemma CancelCurrentTxs_wf t : pool_wf t -> pool_wf (CancelCurrentTxs t).
Proof.
  intros Hw. unfold CancelCurrentTxs.
  assert (H : pool_wf (fold_left (fun t '(_, tx) => cancelTx t tx)
                         (range_map (currentTxs t)) t)).
  { apply (current_loop pool_wf); [|done|apply still_current_range].
    intros t' k tx Hw' Hk. by apply cancelTx_wf. }
  case_bool_decide; [by apply addPending_wf|done].
Qed.

Lemma DiscardCurrentTxs_wf t : pool_wf t -> pool_wf (DiscardCurrentTxs t).
Proof.
  intros Hw. unfold DiscardCurrentTxs. apply (current_loop pool_wf);
    [|done|apply still_current_range].
  intros t' k tx Hw' Hk. by apply discardCurrentTx_wf.
Qed.

(** ** Admission *)

Lemma checkConflictTx_loop_spec t utxos h hid cs h' hid' cs' :
  checkConflictTx_loop t utxos h hid cs = Ok (h', hid', cs') ->
  h <= h' /\ (forall c, c ∈ cs -> c ∈ cs') /\
  (forall u c, u ∈ utxos -> utxoSpenders t !! u = Some c ->
     c ∈ cs' /\ exists p, atomicTxGasPrice t c = Ok p /\ p <= h') /\
  (forall c, c ∈ cs' -> c ∈ cs \/ exists u, u ∈ utxos /\ utxoSpenders t !! u = Some c).
Proof.
  revert h hid cs. induction utxos as [|u utxos IH]; intros h hid cs; cbn [checkConflictTx_loop].
  { intros [= <- <- <-]. split; [done|]. split; [done|].
    split; [by intros u c ?%not_elem_of_nil|by left]. }
  destruct (utxoSpenders t !! u) as [c|] eqn:Hu.
  - intros H. apply bind_Ok in H as (p & Hp%wrap_err_Ok & H).
    assert (Hrun : exists h1 id1, h <= h1 /\ p <= h1 /\
      checkConflictTx_loop t utxos h1 id1 (cs ++ [c]) = Ok (h', hid', cs')).
    { destruct (Z.ltb_spec h p); eexists _, _; (split; [|split; [|exact H]]); lia. }
    destruct Hrun as (h1 & id1 & Hh1 & Hp1 & Hrun).
    apply IH in Hrun as (Hle & Hsub & Hall & Hback). split; [lia|]. split.
    { intros c' Hc'. apply Hsub. apply elem_of_app. by left. }
    split.
    + intros u' c' [->|Hu']%elem_of_cons Hs; [|by eapply Hall].
      rewrite Hu in Hs. injection Hs as <-. split.
      * apply Hsub. apply elem_of_app. right. apply list_elem_of_singleton. done.
      * exists p. split; [done|lia].
    + intros c' Hc'. destruct (Hback c' Hc') as [[?|Heq]%elem_of_app|(u' & ? & ?)].
      * by left.
      * apply list_elem_of_singleton in Heq as ->. right. exists u. split; [|done].
        apply elem_of_cons. by left.
      * right. exists u'. split; [|done]. apply elem_of_cons. by right.
  - intros Hrun. apply IH in Hrun as (Hle & Hsub & Hall & Hback).
    split; [done|]. split; [done|]. split.
    + intros u' c' [->|Hu']%elem_of_cons Hs; [congruence|by eapply Hall].
    + intros c' Hc'. destruct (Hback c' Hc') as [?|(u' & ? & ?)]; [by left|].
      right. exists u'. split; [|done]. apply elem_of_cons. by right.
Qed.

Lemma checkConflictTx_spec t tx h hid cs :
  checkConflictTx t tx = Ok (h, hid, cs) ->
  forall c, (c ∈ cs <-> exists u, u ∈ Tx_InputUTXOs tx /\ utxoSpenders t !! u = Some c) /\
    (c ∈ cs -> exists p, atomicTxGasPrice t c = Ok p /\ p <= h).
Proof.
  intros H c. apply checkConflictTx_loop_spec in H as (_ & _ & Hall & Hback).
  assert (Hin : forall u, u ∈ range_set (Tx_InputUTXOs tx) <-> u ∈ Tx_InputUTXOs tx).
  { intros u. by rewrite range_set_elements, elem_of_elements. }
  assert (Hb : c ∈ cs -> exists u, u ∈ Tx_InputUTXOs tx /\ utxoSpenders t !! u = Some c).
  { intros Hc. destruct (Hback c Hc) as [?%not_elem_of_nil|(u & Hu & Hs)]; [done|].
    exists u. by rewrite <- Hin. }
  split; [split; [done|]|].
  - intros (u & Hu & Hs). eapply Hall; [by apply Hin|done].
  - intros (u & Hu & Hs)%Hb. eapply Hall; [by apply Hin|done].
Qed.

(** Removing a list of transactions none of which conflicts with the rest. *)
Lemma remove_all_wf cs t :
  pool_wf t -> Forall (no_conflict (pool t)) cs ->
  let t' := fold_left (fun t c => removeTx t c true) cs t in
  pool_wf t' /\
  (forall k, pool t' !! k = if decide (k ∈ Tx_ID <$> cs) then None else pool t !! k) /\
  utxoSpenders t' = without (utxoSpenders t) (⋃ (Tx_InputUTXOs <$> cs)) /\
  maxSize t' = maxSize t /\ UTXOAssetID t' = UTXOAssetID t.
Proof.
  revert t. induction cs as [|c cs IH]; intros t Hw Hn; cbn [fold_left].
  { split; [done|]. split; [by intros k; rewrite decide_False by apply not_elem_of_nil|].
    split; [|done]. apply map_eq. intros u. rewrite lookup_without. cbn.
    by rewrite decide_False by set_solver. }
  inversion Hn as [|? ? Hc Hn']; subst.
  destruct (removeTx_spec t c true (pw_places t Hw)) as (Hp & HP & HS & HM & HA).
  destruct (IH (removeTx t c true)) as (Hw' & HP' & HS' & HM' & HA').
  - by apply removeTx_wf.
  - apply list.Forall_forall. intros x Hin k tx' u. rewrite HP.
    intros [_ Hk]%lookup_delete_Some.
    pose proof (proj1 (list.Forall_forall _ _) Hn' x Hin) as Hx. by eapply Hx.
  - split; [done|]. split; [|split; [|split; congruence]].
    + intros k. rewrite HP', HP, lookup_delete, fmap_cons.
      destruct (decide (k ∈ Tx_ID <$> cs)) as [H1|H1].
      * by rewrite decide_True by (by apply elem_of_cons; right).
      * destruct (decide (Tx_ID c = k)) as [<-|Hne].
        -- by rewrite decide_True by (by apply elem_of_cons; left).
        -- by rewrite decide_False by (rewrite elem_of_cons; naive_solver).
    + rewrite HS', HS. apply map_eq. intros u. rewrite !lookup_without, fmap_cons. cbn.
      destruct (decide (u ∈ ⋃ (Tx_InputUTXOs <$> cs))) as [H1|H1].
      * by rewrite decide_True by set_solver.
      * destruct (decide (u ∈ Tx_InputUTXOs c)).
        -- by rewrite decide_True by set_solver.
        -- by rewrite decide_False by set_solver.
Qed.

(** The eviction takes out at most one transaction, the cheapest pending one. *)
Lemma addTx_evict_spec t gasPrice t' :
  pool_wf t -> addTx_evict t gasPrice = Ok t' ->
  pool_wf t' /\ maxSize t' = maxSize t /\ UTXOAssetID t' = UTXOAssetID t /\
  length t' + 1 <= Z.max (maxSize t) (length t) /\
  ((length t < maxSize t /\ t' = t) \/
   exists minTx minPrice, maxSize t <= length t /\
     txheap.pending (txHeap t) !! Tx_ID minTx = Some (minPrice, minTx) /\
     (forall k q, txheap.pending (txHeap t) !! k = Some q -> minPrice <= q.1) /\
     minPrice < gasPrice /\ t' = removeTx t minTx true).
Proof.
  intros Hw. unfold addTx_evict. destruct (Z.leb_spec (maxSize t) (length t)) as [Hfull|Hroom].
  2:{ intros [= <-]. split; [done|]. split; [done|]. split; [done|]. split; [lia|]. by left. }
  pose proof (pl_heap t (pw_places t Hw)) as Hh.
  pose proof (txheap.Peek_extremal Tx_ID (txHeap t) Hh) as Hpeek.
  case_bool_decide as Hlen; [|done].
  destruct (txheap.PeekMin (txHeap t)) as [[minTx minPrice]|]; [|done].
  destruct (txheap.PeekMax (txHeap t)) as [[maxTx maxPrice]|]; [|done].
  destruct Hpeek as (_ & Hmin & Hall).
  destruct (Z.leb_spec gasPrice minPrice) as [|Hlt]; [done|]. intros [= <-].
  destruct (removeTx_spec t minTx true (pw_places t Hw)) as (Hp' & HP & HS & HM & HA).
  assert (Hin : pool t !! Tx_ID minTx = Some minTx) by (by rewrite lookup_pool, Hmin).
  split; [apply removeTx_wf; [done|]; apply pool_member_no_conflict; [done|eauto]|].
  split; [done|]. split; [done|]. split.
  - unfold length in *. rewrite (txheap.Len_pending Tx_ID _ (pl_heap _ Hp')).
    rewrite (txheap.Len_pending Tx_ID _ Hh) in *.
    assert (E1 : txheap.pending (txHeap (removeTx t minTx true)) =
                 delete (Tx_ID minTx) (txheap.pending (txHeap t)))
      by apply (heap_Remove_fst t (Tx_ID minTx) (pw_places t Hw)).
    assert (E2 : issuedTxs (removeTx t minTx true) = issuedTxs t).
    { apply delete_id. apply (pl_heap_issued t (pw_places t Hw)). rewrite Hmin. eauto. }
    rewrite E1, E2, map_size_delete_Some by (rewrite Hmin; eauto).
    assert (size (txheap.pending (txHeap t)) <> 0%nat); [|lia].
    intros H0%map_size_empty_iff. by rewrite H0, lookup_empty in Hmin.
  - right. exists minTx, minPrice. split; [done|]. split; [done|]. split; [|done].
    intros k q Hq. apply Hall in Hq. lia.
Qed.

(** The insertion, field by field. *)
Lemma addTx_insert_fields t tx gasPrice :
  let t' := addTx_insert t tx gasPrice in
  txHeap t' = txheap.Push Tx_ID (txHeap t) tx gasPrice /\
  currentTxs t' = currentTxs t /\ issuedTxs t' = issuedTxs t /\ maxSize t' = maxSize t /\
  (forall u, utxoSpenders t' !! u =
     if decide (u ∈ Tx_InputUTXOs tx) then Some tx else utxoSpenders t !! u).
Proof.
  intros t'. unfold t', addTx_insert.
  assert (H : forall u, fold_left (fun m utxoID => <[utxoID := tx]> m)
      (range_set (Tx_InputUTXOs tx)) (utxoSpenders t) !! u =
    if decide (u ∈ Tx_InputUTXOs tx) then Some tx else utxoSpenders t !! u).
  { intros u. rewrite lookup_fold_insert. apply decide_ext.
    by rewrite range_set_elements, elem_of_elements. }
  by case_bool_decide.
Qed.

Lemma addTx_insert_places t tx gasPrice :
  places_wf t -> pool t !! Tx_ID tx = None ->
  let t' := addTx_insert t tx gasPrice in
  places_wf t' /\ pool t' = <[Tx_ID tx := tx]> (pool t) /\
  txheap.pending (txHeap t') = <[Tx_ID tx := (gasPrice, tx)]> (txheap.pending (txHeap t)) /\
  length t' = length t + 1.
Proof.
  intros Hp Hnew t'.
  assert (Hnone : txheap.pending (txHeap t) !! Tx_ID tx = None /\
                  currentTxs t !! Tx_ID tx = None /\ issuedTxs t !! Tx_ID tx = None).
  { rewrite lookup_pool in Hnew.
    destruct (txheap.pending (txHeap t) !! _), (currentTxs t !! _); done. }
  destruct Hnone as (N1 & N2 & N3).
  destruct (txheap.Push_new Tx_ID (txHeap t) tx gasPrice (pl_heap t Hp) N1) as [Hh' Hp'].
  destruct (addTx_insert_fields t tx gasPrice) as (Eheap & Ec & Ei & _).
  fold t' in Eheap, Ec, Ei.
  assert (Hplaces : places_wf t').
  { split; rewrite ?Eheap, ?Ec, ?Ei, ?Hp'; try done; try apply Hp.
    - intros k. intros [<-|[_ Hk]]%lookup_insert_is_Some; [done|].
      by apply (pl_heap_current t Hp).
    - intros k. intros [<-|[_ Hk]]%lookup_insert_is_Some; [done|].
      by apply (pl_heap_issued t Hp). }
  split; [done|]. split; [|split; [by rewrite Eheap, Hp'|]].
  - apply map_eq. intros k. rewrite lookup_insert, !lookup_pool, Eheap, Ec, Ei, Hp'.
    rewrite lookup_insert. by case_decide.
  - unfold length. rewrite Ei, (txheap.Len_pending Tx_ID _ (pl_heap _ Hplaces)).
    rewrite (txheap.Len_pending Tx_ID _ (pl_heap _ Hp)), Eheap, Hp'.
    rewrite map_size_insert_None by done. lia.
Qed.

(** Inserting a transaction none of whose inputs is spent in the pool. *)
Lemma addTx_insert_wf t tx gasPrice :
  pool_wf t -> pool t !! Tx_ID tx = None ->
  (forall u, u ∈ Tx_InputUTXOs tx -> utxoSpenders t !! u = None) ->
  pool_wf (addTx_insert t tx gasPrice).
Proof.
  intros [Hp Hs Hc] Hnew Hfree.
  destruct (addTx_insert_places t tx gasPrice Hp Hnew) as (Hp' & Hpool & _).
  destruct (addTx_insert_fields t tx gasPrice) as (_ & _ & _ & _ & Esp).
  split; [done| |]; rewrite Hpool.
  - intros u tx'. rewrite Esp. case_decide as Hu.
    + intros [= <-]. split; [apply lookup_insert_eq|done].
    + intros H. destruct (Hs u tx' H) as [HP Hin]. split; [|done].
      rewrite lookup_insert_ne; [done|]. intros Heq. congruence.
  - intros k tx' u [[<- <-]|[Hne Hk]]%lookup_insert_Some Hu; rewrite Esp.
    + by rewrite decide_True.
    + pose proof (Hc k tx' u Hk Hu) as H. rewrite decide_False; [done|].
      intros Hin. by rewrite (Hfree u Hin) in H.
Qed.

Lemma addTx_bloom_Txs (m : Mempool Tx Cache Bloom) tx :
  mp_Txs (snd (addTx_bloom m tx)) = mp_Txs m.
Proof. unfold addTx_bloom. destruct (ResetBloomFilterIfNeeded _ _) as [[[]| |] b]; done. Qed.

Lemma addTx_known_Ok t txID local :
  places_wf t -> addTx_known t txID local = Ok tt -> pool t !! txID = None.
Proof.
  intros Hp H. unfold addTx_known in H.
  apply bind_Ok in H as ([] & H1%fail_if_Ok%bool_decide_eq_false & H).
  apply bind_Ok in H as ([] & H2%fail_if_Ok%bool_decide_eq_false & H).
  apply bind_Ok in H as ([] & H3%fail_if_Ok%bool_decide_eq_false & _).
  rewrite (txheap.Get_pending Tx_ID _ _ (pl_heap t Hp)), fmap_is_Some in H3.
  apply eq_None_not_Some in H1, H2, H3. by rewrite lookup_pool, H1, H2, H3.
Qed.

(** The pool after the conflicts of an admissible transaction were removed. *)
Definition after_conflicts t (force : bool) (cs : list Tx) : Txs Tx Cache :=
  if bool_decide (cs <> []) && negb force
  then fold_left (fun t c => removeTx t c true) cs t else t.

(** The runs of [addTx]: refused with the pool as it was; refused by the size check,
    after the conflicts were removed; or inserted (the Bloom filter may still fail). *)
Inductive addTx_outcome (m : Mempool Tx Cache Bloom) (tx : Tx) (force : bool)
    : result unit -> Txs Tx Cache -> Prop :=
| addTx_refused r : r <> Ok tt -> addTx_outcome m tx force r (mp_Txs m)
| addTx_no_room r h hid cs :
    r <> Ok tt -> pool (mp_Txs m) !! Tx_ID tx = None ->
    checkConflictTx (mp_Txs m) tx = Ok (h, hid, cs) ->
    (cs <> [] -> force = false -> h < gasPrice_or_zero (mp_Txs m) tx) ->
    is_Ok (addTx_evict (after_conflicts (mp_Txs m) force cs)
             (gasPrice_or_zero (mp_Txs m) tx)) = false ->
    addTx_outcome m tx force r (after_conflicts (mp_Txs m) force cs)
| addTx_inserted r h hid cs t2 t' :
    pool (mp_Txs m) !! Tx_ID tx = None ->
    checkConflictTx (mp_Txs m) tx = Ok (h, hid, cs) ->
    (cs <> [] -> force = false -> h < gasPrice_or_zero (mp_Txs m) tx) ->
    addTx_evict (after_conflicts (mp_Txs m) force cs) (gasPrice_or_zero (mp_Txs m) tx) =
      Ok t2 ->
    t' = addTx_insert t2 tx (gasPrice_or_zero (mp_Txs m) tx) \/
    t' = addPending (addTx_insert t2 tx (gasPrice_or_zero (mp_Txs m) tx)) ->
    addTx_outcome m tx force r t'.

Lemma addTx_outcomes (m : Mempool Tx Cache Bloom) tx local force :
  places_wf (mp_Txs m) ->
  addTx_outcome m tx force (fst (addTx m tx local force)) (mp_Txs (snd (addTx m tx local force))).
Proof.
  intros Hp. unfold addTx.
  destruct (addTx_known (mp_Txs m) (Tx_ID tx) local) as [[]| |] eqn:Hknown;
    [|by apply addTx_refused..].
  apply addTx_known_Ok in Hknown; [|done].
  destruct (if negb force then _ else _); [|by apply addTx_refused..].
  destruct (checkConflictTx (mp_Txs m) tx) as [[[h hid] cs]| |] eqn:Hcs;
    [|by apply addTx_refused..].
  cbv zeta. fold (after_conflicts (mp_Txs m) force cs).
  destruct (_ && (_ <=? _)) eqn:Hconf; [by apply addTx_refused|].
  assert (Hh : cs <> [] -> force = false -> h < gasPrice_or_zero (mp_Txs m) tx).
  { intros Hne ->. rewrite bool_decide_eq_true_2 in Hconf by done. cbn in Hconf. lia. }
  destruct (addTx_evict _ _) as [t2| |] eqn:Hev; cbn;
    [|by eapply addTx_no_room; [..|rewrite Hev]..].
  pose proof (addTx_bloom_Txs (set_Txs m (addTx_insert t2 tx
                (gasPrice_or_zero (mp_Txs m) tx))) tx) as Hb. cbn in Hb.
  destruct (addTx_bloom _ _) as [[[]| |] m']; cbn in *;
    (eapply addTx_inserted; [done..|]); rewrite Hb; auto.
Qed.

(** The conflicts of a transaction are removed without harm to the invariant. *)
Lemma after_conflicts_wf t tx force h hid cs :
  pool_wf t -> checkConflictTx t tx = Ok (h, hid, cs) -> (force = true -> cs = []) ->
  let t1 := after_conflicts t force cs in
  pool_wf t1 /\
  (forall k, pool t1 !! k = if decide (k ∈ Tx_ID <$> cs) then None else pool t !! k) /\
  (forall u, u ∈ Tx_InputUTXOs tx -> utxoSpenders t1 !! u = None) /\
  maxSize t1 = maxSize t.
Proof.
  intros Hw Hcs Hforce t1. pose proof (checkConflictTx_spec _ _ _ _ _ Hcs) as Hspec.
  assert (Hn : Forall (no_conflict (pool t)) cs).
  { apply list.Forall_forall. intros c Hc. apply pool_member_no_conflict; [done|].
    apply (proj1 (Hspec c)) in Hc as (u & _ & Hu). apply (pw_sound t Hw) in Hu as [-> _].
    eauto. }
  destruct (remove_all_wf cs t Hw Hn) as (Hw' & HP & HS & HM & _).
  assert (E : t1 = fold_left (fun t c => removeTx t c true) cs t).
  { unfold t1, after_conflicts. case_bool_decide as Hne; cbn [andb].
    - destruct force; [|done]. by rewrite Hforce in Hne.
    - destruct cs; [done|]. by exfalso. }
  rewrite E. split; [done|]. split; [done|]. split; [|done]. intros u Hu.
  rewrite HS, lookup_without. case_decide as Hin; [done|].
  destruct (utxoSpenders t !! u) as [c|] eqn:Hc; [|done]. exfalso. apply Hin.
  apply elem_of_union_list. exists (Tx_InputUTXOs c).
  split; [apply list_elem_of_fmap; exists c; split; [done|];
    apply (proj1 (Hspec c)); eauto|].
  by apply (pw_sound t Hw) in Hc as [_ ?].
Qed.

Lemma addTx_wf (m : Mempool Tx Cache Bloom) tx local force :
  pool_wf (mp_Txs m) ->
  (force = true -> forall u, u ∈ Tx_InputUTXOs tx -> utxoSpenders (mp_Txs m) !! u = None) ->
  pool_wf (mp_Txs (snd (addTx m tx local force))).
Proof.
  intros Hw Hforce.
  assert (Hf : forall h hid cs, checkConflictTx (mp_Txs m) tx = Ok (h, hid, cs) ->
                 force = true -> cs = []).
  { intros h hid cs Hcs Hft. destruct cs as [|c cs]; [done|]. exfalso.
    destruct (checkConflictTx_spec _ _ _ _ _ Hcs c) as [[Hc _] _].
    destruct Hc as (u & Hu & Hs); [apply elem_of_cons; by left|].
    by rewrite (Hforce Hft u Hu) in Hs. }
  destruct (addTx_outcomes m tx local force (pw_places _ Hw))
    as [r _|r h hid cs _ _ Hcs _ _|r h hid cs t2 t' Hnew Hcs _ Hev Ht']; [done| |].
  - eapply after_conflicts_wf; [done|done|eauto].
  - destruct (after_conflicts_wf _ _ force _ _ _ Hw Hcs) as (Hw1 & HP1 & HS1 & _); [eauto|].
    destruct (addTx_evict_spec _ _ _ Hw1 Hev) as (Hw2 & _ & _ & _ & Hcase).
    assert (Hsub : (forall k tx', pool t2 !! k = Some tx' -> pool (mp_Txs m) !! k = Some tx') /\
                   (forall u, u ∈ Tx_InputUTXOs tx -> utxoSpenders t2 !! u = None)).
    { destruct Hcase as [[_ ->]|(minTx & mp & _ & _ & _ & _ & ->)].
      - split; [|done]. intros k tx'. rewrite HP1. by case_decide.
      - destruct (removeTx_spec _ minTx true (pw_places _ Hw1)) as (_ & HPr & HSr & _).
        split.
        + intros k tx'. rewrite HPr. intros [_ H]%lookup_delete_Some. revert H.
          rewrite HP1. by case_decide.
        + intros u Hu. rewrite HSr, lookup_without. case_decide; [done|auto]. }
    destruct Hsub as [Hsub HS2].
    assert (Hins : pool_wf (addTx_insert t2 tx (gasPrice_or_zero (mp_Txs m) tx))).
    { apply addTx_insert_wf; [done| |done].
      destruct (pool t2 !! Tx_ID tx) eqn:E; [|done]. by rewrite (Hsub _ _ E) in Hnew. }
    destruct Ht' as [-> | ->]; [done|by apply addPending_wf].
Qed.

(** ** The life of a pool *)

Lemma AddRemoteTx_wf (m : Mempool Tx Cache Bloom) tx :
  pool_wf (mp_Txs m) -> pool_wf (mp_Txs (snd (AddRemoteTx m tx))).
Proof.
  intros Hw. pose proof (addTx_wf m tx false false Hw) as H. unfold AddRemoteTx.
  destruct (addTx m tx false false) as [[|e|] m']; cbn in *; try by apply H.
  destruct (errors_Is e ErrAlreadyKnown); [by apply H|]. apply set_discardedTxs_wf. by apply H.
Qed.

Lemma NewTxs_wf assetID size (cache : Cache) : pool_wf (NewTxs assetID size cache).
Proof.
  destruct (txheap.newTxHeap_wf Tx_ID) as [Hh He].
  assert (Hpool : pool (NewTxs assetID size cache) = ∅).
  { apply map_eq. intros k. rewrite lookup_pool.
    cbn [NewTxs txHeap currentTxs issuedTxs]. by rewrite He, !lookup_empty. }
  split.
  - split; cbn [NewTxs txHeap currentTxs issuedTxs]; try done; intros k;
      rewrite ?He, ?lookup_empty; by intros [].
  - by intros u tx.
  - intros k tx u. by rewrite Hpool, lookup_empty.
Qed.

Lemma NextTx_wf t : pool_wf t -> pool_wf (snd (NextTx t)).
Proof.
  intros Hw. pose proof (NextTx_spec t (pw_places t Hw)) as H.
  destruct (NextTx t) as [[[tx|]| |] t']; cbn; try done.
  - destruct H as (_ & _ & _ & H1 & H2 & H3 & _). by eapply pool_wf_same.
  - by destruct H as [-> _].
Qed.

Lemma CancelCurrentTx_wf t txID : pool_wf t -> pool_wf (CancelCurrentTx t txID).
Proof.
  intros Hw. unfold CancelCurrentTx. destruct (currentTxs t !! txID) eqn:E; [|done].
  by apply (cancelTx_wf t txID).
Qed.

Lemma DiscardCurrentTx_wf t txID : pool_wf t -> pool_wf (DiscardCurrentTx t txID).
Proof.
  intros Hw. unfold DiscardCurrentTx. destruct (currentTxs t !! txID) eqn:E; [|done].
  by apply (discardCurrentTx_wf t txID).
Qed.

(** One exported operation.  [ForceAddTx] and [RemoveTx] bypass the conflict check, so
    they are steps only when there is no conflict to bypass. *)
Inductive pool_step : Mempool Tx Cache Bloom -> Mempool Tx Cache Bloom -> Prop :=
| step_AddRemoteTx m tx : pool_step m (snd (AddRemoteTx m tx))
| step_AddLocalTx m tx : pool_step m (snd (AddLocalTx m tx))
| step_ForceAddTx m tx :
    (forall u, u ∈ Tx_InputUTXOs tx -> utxoSpenders (mp_Txs m) !! u = None) ->
    pool_step m (snd (ForceAddTx m tx))
| step_NextTx m : pool_step m (set_Txs m (snd (NextTx (mp_Txs m))))
| step_IssueCurrentTxs m : pool_step m (set_Txs m (IssueCurrentTxs (mp_Txs m)))
| step_CancelCurrentTx m txID : pool_step m (set_Txs m (CancelCurrentTx (mp_Txs m) txID))
| step_CancelCurrentTxs m : pool_step m (set_Txs m (CancelCurrentTxs (mp_Txs m)))
| step_DiscardCurrentTx m txID : pool_step m (set_Txs m (DiscardCurrentTx (mp_Txs m) txID))
| step_DiscardCurrentTxs m : pool_step m (set_Txs m (DiscardCurrentTxs (mp_Txs m)))
| step_RemoveTx m tx :
    no_conflict (pool (mp_Txs m)) tx -> pool_step m (set_Txs m (RemoveTx (mp_Txs m) tx)).

Lemma pool_step_wf m m' : pool_step m m' -> pool_wf (mp_Txs m) -> pool_wf (mp_Txs m').
Proof.
  intros [] Hw; cbn;
    eauto using AddRemoteTx_wf, NextTx_wf, CancelCurrentTx_wf, CancelCurrentTxs_wf,
      DiscardCurrentTx_wf, DiscardCurrentTxs_wf.
  - by apply addTx_wf.
  - by apply addTx_wf.
  - by apply IssueCurrentTxs_wf.
  - by apply removeTx_wf.
Qed.

Lemma reachable_wf assetID size cache b v m :
  rtc pool_step (mkMempool (NewTxs assetID size cache) b v) m -> pool_wf (mp_Txs m).
Proof.
  intros Hr. remember (mkMempool (NewTxs assetID size cache) b v) as m0 eqn:E.
  assert (Hw : pool_wf (mp_Txs m0)) by (subst m0; apply NewTxs_wf). clear E.
  induction Hr as [|m0 m1 m2 Hstep _ IH]; [done|]. apply IH. by eapply pool_step_wf.
Qed.

(** C3. No reachable mempool holds two transactions that spend the same UTXO, over any
    sequence of operations in which a forced addition does not spend an input of the pool
    and a removed transaction from outside does not either: every transaction is in exactly one of the pending heap,
    the current set and the issued set, under its own ID, and [utxoSpenders] maps
    exactly the inputs of the pool's transactions, each to its spender. *)
Theorem mempool_no_double_spend (assetID : ID) (size : Z) (cache : Cache) (b : Bloom)
    (v : option (Tx -> result unit)) (m : Mempool Tx Cache Bloom)
    (Hr : rtc pool_step (mkMempool (NewTxs assetID size cache) b v) m) :
  let t := mp_Txs m in
  places_wf t /\
  (forall u tx, utxoSpenders t !! u = Some tx <->
     pool t !! Tx_ID tx = Some tx /\ u ∈ Tx_InputUTXOs tx) /\
  (forall k1 k2 tx1 tx2 u, pool t !! k1 = Some tx1 -> pool t !! k2 = Some tx2 ->
     u ∈ Tx_InputUTXOs tx1 -> u ∈ Tx_InputUTXOs tx2 -> k1 = k2).
Proof.
  intros t. pose proof (reachable_wf _ _ _ _ _ _ Hr) as [Hp Hs Hc]. fold t in Hp, Hs, Hc.
  split; [done|]. split.
  - intros u tx. split; [apply Hs|]. intros [HP Hu]. by eapply Hc.
  - intros k1 k2 tx1 tx2 u H1 H2 Hu1 Hu2.
    pose proof (Hc _ _ _ H1 Hu1). pose proof (Hc _ _ _ H2 Hu2).
    rewrite <- (pool_ID t _ _ Hp H1), <- (pool_ID t _ _ Hp H2). congruence.
Qed.

(** Removals only shrink the heap and the length. *)
Lemma removeTx_shrinks t tx d :
  places_wf t ->
  txheap.pending (txHeap (removeTx t tx d)) = delete (Tx_ID tx) (txheap.pending (txHeap t)) /\
  length (removeTx t tx d) <= length t.
Proof.
  intros Hp. destruct (heap_Remove_fst t (Tx_ID tx) Hp) as [Hh E].
  assert (E1 : txHeap (removeTx t tx d) = fst (txheap.Remove (txHeap t) (Tx_ID tx)))
    by (by destruct d).
  assert (E2 : issuedTxs (removeTx t tx d) = delete (Tx_ID tx) (issuedTxs t))
    by (by destruct d).
  rewrite E1, E. split; [done|]. unfold length. rewrite E1, E2.
  rewrite (txheap.Len_pending Tx_ID _ Hh), (txheap.Len_pending Tx_ID _ (pl_heap t Hp)), E.
  assert (Hsz : forall (A : Type) (m : gmap ID A) k, (size (delete k m) <= size m)%nat).
  { intros A m k. apply map_subseteq_size, delete_subseteq. }
  pose proof (Hsz _ (txheap.pending (txHeap t)) (Tx_ID tx)).
  pose proof (Hsz _ (issuedTxs t) (Tx_ID tx)). lia.
Qed.

Lemma remove_all_shrinks cs t :
  places_wf t ->
  let t' := fold_left (fun t c => removeTx t c true) cs t in
  (forall k q, txheap.pending (txHeap t') !! k = Some q ->
     txheap.pending (txHeap t) !! k = Some q) /\ length t' <= length t.
Proof.
  revert t. induction cs as [|c cs IH]; intros t Hp; cbn [fold_left]; [done|].
  destruct (removeTx_shrinks t c true Hp) as [E Hlen].
  destruct (removeTx_spec t c true Hp) as (Hp' & _).
  destruct (IH _ Hp') as [Hq Hlen']. split; [|lia].
  intros k q H. apply Hq in H. rewrite E in H. by apply lookup_delete_Some in H as [_ ?].
Qed.

Lemma after_conflicts_shrinks t force cs :
  places_wf t ->
  (forall k q, txheap.pending (txHeap (after_conflicts t force cs)) !! k = Some q ->
     txheap.pending (txHeap t) !! k = Some q) /\
  length (after_conflicts t force cs) <= length t.
Proof.
  intros Hp. unfold after_conflicts. destruct (_ && _); [by apply remove_all_shrinks|done].
Qed.

(** A successful [addTx], step by step. *)
Lemma addTx_success (m m' : Mempool Tx Cache Bloom) tx local :
  pool_wf (mp_Txs m) -> addTx m tx local false = (Ok tt, m') ->
  let t := mp_Txs m in let t' := mp_Txs m' in let price := gasPrice_or_zero t tx in
  exists h hid cs t2, pool t !! Tx_ID tx = None /\
    checkConflictTx t tx = Ok (h, hid, cs) /\ (cs <> [] -> h < price) /\
    pool_wf (after_conflicts t false cs) /\
    addTx_evict (after_conflicts t false cs) price = Ok t2 /\ pool_wf t2 /\
    (forall k tx', pool t2 !! k = Some tx' -> pool t !! k = Some tx') /\
    pool t' = <[Tx_ID tx := tx]> (pool t2) /\
    txheap.pending (txHeap t') = <[Tx_ID tx := (price, tx)]> (txheap.pending (txHeap t2)) /\
    length t' = length t2 + 1.
Proof.
  intros Hw Hrun t t' price. pose proof (addTx_outcomes m tx local false (pw_places _ Hw)) as Hout.
  rewrite Hrun in Hout. cbn [fst snd] in Hout. fold t t' price in Hout, Hw.
  inversion Hout as [r Hr|r h hid cs Hr|r h hid cs t2 t0 Hnew Hcs Hh Hev Ht']; [done..|].
  subst r t0. fold t in Hnew, Hcs, Hh, Hev, Ht'. fold price in Hh, Hev, Ht'.
  destruct (after_conflicts_wf _ _ false _ _ _ Hw Hcs ltac:(done)) as (Hw1 & HP1 & _).
  destruct (addTx_evict_spec _ _ _ Hw1 Hev) as (Hw2 & _ & _ & _ & Hcase).
  assert (HP2 : forall k tx', pool t2 !! k = Some tx' -> pool t !! k = Some tx').
  { intros k tx' H. assert (H1 : pool (after_conflicts t false cs) !! k = Some tx').
    { destruct Hcase as [[_ <-]|(minTx & q & _ & _ & _ & _ & ->)]; [done|].
      destruct (removeTx_spec _ minTx true (pw_places _ Hw1)) as (_ & HPr & _).
      rewrite HPr in H. by apply lookup_delete_Some in H as [_ ?]. }
    rewrite HP1 in H1. by case_decide. }
  assert (Hnew2 : pool t2 !! Tx_ID tx = None).
  { destruct (pool t2 !! Tx_ID tx) eqn:E; [|done]. by rewrite (HP2 _ _ E) in Hnew. }
  destruct (addTx_insert_places t2 tx price (pw_places _ Hw2) Hnew2) as (_ & HPi & Hqi & Hli).
  exists h, hid, cs, t2. repeat (split; [by auto|]).
  by destruct Ht' as [-> | ->].
Qed.

(** An admitted transaction pays its way: when [addTx] succeeds, the transaction was
    unknown and is now pending at its gas price, no other transaction entered the
    pool, every transaction that left either shared an input with it or was pending,
    and in both cases paid a strictly lower gas price, and the pool is not longer than
    before or than its maximum size. *)
Theorem addTx_admits (m m' : Mempool Tx Cache Bloom) (tx : Tx) (local : bool)
    (Hw : pool_wf (mp_Txs m)) (Hrun : addTx m tx local false = (Ok tt, m')) :
  let t := mp_Txs m in let t' := mp_Txs m' in let price := gasPrice_or_zero t tx in
  pool t !! Tx_ID tx = None /\
  txheap.pending (txHeap t') !! Tx_ID tx = Some (price, tx) /\
  (forall k tx', k <> Tx_ID tx -> pool t' !! k = Some tx' -> pool t !! k = Some tx') /\
  (forall k old, pool t !! k = Some old -> pool t' !! k = None ->
     exists p, p < price /\
       ((exists u, u ∈ Tx_InputUTXOs tx /\ u ∈ Tx_InputUTXOs old /\
           atomicTxGasPrice t old = Ok p) \/
        txheap.pending (txHeap t) !! k = Some (p, old))) /\
  length t' <= Z.max (maxSize t) (length t).
Proof.
  cbv zeta.
  destruct (addTx_success m m' tx local Hw Hrun) as
    (h & hid & cs & t2 & Hnew & Hcs & Hh & Hw1 & Hev & Hw2 & HP2 & EP & EQ & EL).
  destruct (after_conflicts_wf _ _ false _ _ _ Hw Hcs ltac:(done)) as (_ & HP1 & _ & HM1).
  destruct (after_conflicts_shrinks (mp_Txs m) false cs (pw_places _ Hw)) as [Hq1 Hl1].
  destruct (addTx_evict_spec _ _ _ Hw1 Hev) as (_ & HM2 & _ & Hlen & Hcase).
  rewrite EP, EQ, EL. split; [done|]. split; [apply lookup_insert_eq|]. split; [|split; [|lia]].
  - intros k tx' Hne. rewrite lookup_insert_ne by done. apply HP2.
  - intros k old Hk Hgone. destruct (decide (k = Tx_ID tx)) as [->|Hne]; [congruence|].
    rewrite lookup_insert_ne in Hgone by done.
    destruct (decide (k ∈ Tx_ID <$> cs)) as [Hin|Hnin].
    + apply list_elem_of_fmap in Hin as (c & Ek & Hc).
      destruct (checkConflictTx_spec _ _ _ _ _ Hcs c) as [[Hsp _] Hpr].
      destruct (Hsp Hc) as (u & Hu & Hs), (Hpr Hc) as (p & Hp & Hle).
      apply (pw_sound _ Hw) in Hs as [HPc Huc]. rewrite <- Ek, Hk in HPc. injection HPc as ->.
      exists p. split; [|left; by exists u].
      assert (cs <> []) as Hcs' by (intros ->; by apply not_elem_of_nil in Hc).
      specialize (Hh Hcs'). lia.
    + assert (H1 : pool (after_conflicts (mp_Txs m) false cs) !! k = Some old)
        by (by rewrite HP1, decide_False).
      destruct Hcase as [[_ ->]|(minTx & p & _ & Hmin & _ & Hlt & ->)]; [congruence|].
      destruct (removeTx_spec _ minTx true (pw_places _ Hw1)) as (_ & HPr & _).
      rewrite HPr in Hgone. apply lookup_delete_None in Hgone as [<-|?]; [|congruence].
      rewrite lookup_pool, Hmin in H1. injection H1 as <-. cbn in Hk.
      exists p. split; [done|]. right. by apply Hq1.
Qed.

(** [NextTx] hands out the pending transaction with the highest gas price, moves it
    from the heap to the current set, and leaves the pool and the spenders as they
    were; it finds nothing only when nothing is pending, and never panics. *)
Theorem NextTx_highest (t : Txs Tx Cache) (Hw : pool_wf t) :
  match NextTx t with
  | (Ok (Some tx), t') => exists price,
      txheap.pending (txHeap t) !! Tx_ID tx = Some (price, tx) /\
      (forall k q, txheap.pending (txHeap t) !! k = Some q -> q.1 <= price) /\
      pool_wf t' /\ pool t' = pool t /\ utxoSpenders t' = utxoSpenders t /\
      currentTxs t' !! Tx_ID tx = Some tx /\ txheap.Get (txHeap t') (Tx_ID tx) = None
  | (Ok None, t') => t' = t /\ txheap.pending (txHeap t) = ∅
  | _ => False
  end.
Proof.
  pose proof (NextTx_spec t (pw_places t Hw)) as H. pose proof (NextTx_wf t Hw) as Hw'.
  destruct (NextTx t) as [[[tx|]| |] t']; try done. cbn in Hw'.
  destruct H as (price & H1 & H2 & H3 & H4 & H5 & H6). exists price.
  repeat (split; [done|]). rewrite (txheap.Get_pending Tx_ID _ _ (pl_heap _ H3)).
  by destruct (current_tx_pool t' _ _ H3 H6) as (-> & _).
Qed.

(** The maximum size binds only [addTx]: cancelling a current transaction puts it
    back on the heap whatever the length, so a pool that filled up while the
    transaction was being built ends above its maximum. *)
Theorem CancelCurrentTx_ignores_maxSize (t : Txs Tx Cache) (txID : ID) (tx : Tx) (price : Z)
    (Hw : pool_wf t) (Hcur : currentTxs t !! txID = Some tx)
    (Hprice : atomicTxGasPrice t tx = Ok price) :
  length (CancelCurrentTx t txID) = length t + 1 /\
  maxSize (CancelCurrentTx t txID) = maxSize t /\
  txheap.pending (txHeap (CancelCurrentTx t txID)) !! txID = Some (price, tx).
Proof.
  unfold CancelCurrentTx. rewrite Hcur. unfold cancelTx. rewrite Hprice.
  pose proof (pw_places t Hw) as Hp. pose proof (pl_current t Hp _ _ Hcur) as <-.
  destruct (current_tx_pool t _ _ Hp Hcur) as (Hn & _).
  destruct (txheap.Push_new Tx_ID (txHeap t) tx price (pl_heap t Hp) Hn) as [Hh' Hp'].
  unfold length. cbn [txHeap issuedTxs set_currentTxs set_txHeap].
  rewrite (txheap.Len_pending Tx_ID _ Hh'), (txheap.Len_pending Tx_ID _ (pl_heap t Hp)), Hp'.
  rewrite map_size_insert_None by done. split; [lia|]. split; [done|apply lookup_insert_eq].
Qed.

(** A transaction refused for lack of room still costs its conflicts: when it
    outbids the transactions it conflicts with but the size check then fails, [addTx]
    returns the error, the transaction is not in the pool, and neither is any
    transaction that shared an input with it. *)
Theorem addTx_refused_drops_conflicts (m : Mempool Tx Cache Bloom) (tx : Tx) (local : bool)
    (h : Z) (hid : ID) (cs : list Tx) (e : error)
    (Hw : pool_wf (mp_Txs m))
    (Hknown : addTx_known (mp_Txs m) (Tx_ID tx) local = Ok tt)
    (Hverify : from_option (fun v => v tx) (Ok tt) (verify m) = Ok tt)
    (Hcs : checkConflictTx (mp_Txs m) tx = Ok (h, hid, cs))
    (Hprice : h < gasPrice_or_zero (mp_Txs m) tx)
    (Hroom : addTx_evict (after_conflicts (mp_Txs m) false cs)
               (gasPrice_or_zero (mp_Txs m) tx) = Err e) :
  let t' := mp_Txs (snd (addTx m tx local false)) in
  fst (addTx m tx local false) = Err e /\ pool t' !! Tx_ID tx = None /\
  forall k old u, pool (mp_Txs m) !! k = Some old ->
    u ∈ Tx_InputUTXOs tx -> u ∈ Tx_InputUTXOs old -> pool t' !! k = None.
Proof.
  assert (Hrun : addTx m tx local false =
                 (Err e, set_Txs m (after_conflicts (mp_Txs m) false cs))).
  { unfold addTx, after_conflicts in *. rewrite Hknown. cbn [negb] in *.
    rewrite Hverify, Hcs. cbv zeta. rewrite Hroom. by rewrite (proj2 (Z.leb_gt _ _) Hprice), andb_false_r. }
  rewrite Hrun. cbn [fst snd mp_Txs set_Txs]. split; [done|].
  destruct (after_conflicts_wf _ _ false _ _ _ Hw Hcs ltac:(done)) as (_ & HP1 & _).
  split.
  - rewrite HP1. case_decide; [done|]. by eapply addTx_known_Ok, Hknown; apply Hw.
  - intros k old u Hk Hu Hu'. rewrite HP1, decide_True; [done|].
    pose proof (pw_complete _ Hw _ _ _ Hk Hu') as Hs.
    apply list_elem_of_fmap. exists old.
    split; [by rewrite (pool_ID _ _ _ (pw_places _ Hw) Hk)|].
    apply (proj1 (checkConflictTx_spec _ _ _ _ _ Hcs old)). by exists u.
Qed.

End Laws.

(** ** Witnesses *)

Module Witness.

(** A transaction is a byte string: the UTXO it spends, then its gas price; it is its
    own ID.  The cache never evicts. *)
Definition toy : Type := list byte.

#[local] Instance toy_tx : PoolTx toy := {|
  Tx_ID t := t;
  Tx_InputUTXOs t := {[ take 1 t ]};
  Tx_GasUsed t fixedFee := Ok 10;
  Tx_Burned t assetID := Ok (10 * be_decode (drop 1 t))
|}.
#[local] Instance toy_tx_spec : PoolTxSpec toy.
Proof. split. by intros t1 t2 [= ->]. Qed.
#[local] Instance toy_cache : LRU toy (gmap ID toy) := {|
  cache_Get c k := c !! k;
  cache_Put c k t := <[k := t]> c;
  cache_Evict c k := delete k c
|}.
#[local] Instance toy_bloom : BloomFilter toy (list toy) := {|
  bloom_Add b t := t :: b;
  ResetBloomFilterIfNeeded b n := (Ok false, b)
|}.
#[local] Instance toy_order : RangeOrder toy := {|
  range_set s := elements s;
  range_map m := map_to_list m
|}.
#[local] Instance toy_order_spec : RangeOrderSpec toy.
Proof. by split. Qed.

Definition mk (utxo price : Z) : toy := [byte_of_Z utxo; byte_of_Z price].

Definition m0 : Mempool toy (gmap ID toy) (list toy) :=
  mkMempool (NewTxs [] 1 ∅) [] None.
(** A pool of one: [mk 1 50] is being built into a block, [mk 2 90] is pending. *)
Definition m1 := snd (AddLocalTx m0 (mk 1 50)).
Definition m2 := set_Txs m1 (snd (NextTx (mp_Txs m1))).
Definition m3 := snd (AddLocalTx m2 (mk 2 90)).

Lemma toy_input u (t : toy) : u = take 1 t -> u ∈ Tx_InputUTXOs t.
Proof. intros ->. exact (elem_of_singleton_2 (C := gset ID) (take 1 t : ID) _ eq_refl). Qed.

Lemma m3_reachable : rtc pool_step m0 m3.
Proof.
  apply (rtc_l _ _ m1); [apply step_AddLocalTx|].
  apply (rtc_l _ _ m2); [apply step_NextTx|]. apply rtc_once, step_AddLocalTx.
Defined.

Lemma m3_wf : pool_wf (mp_Txs m3).
Proof. exact (reachable_wf [] 1 ∅ [] None m3 m3_reachable). Qed.

Lemma m2_wf : pool_wf (mp_Txs m2).
Proof.
  apply (reachable_wf [] 1 ∅ [] None m2). apply (rtc_l _ _ m1); [apply step_AddLocalTx|].
  apply rtc_once, step_NextTx.
Qed.

Lemma mempool_no_double_spend_witness :
  pool (mp_Txs m3) !! mk 1 50 = Some (mk 1 50) /\
  pool (mp_Txs m3) !! mk 2 90 = Some (mk 2 90) /\
  utxoSpenders (mp_Txs m3) !! take 1 (mk 1 50) = Some (mk 1 50).
Proof.
  destruct (mempool_no_double_spend [] 1 ∅ [] None m3 m3_reachable) as (_ & H & _).
  assert (E : pool (mp_Txs m3) !! mk 1 50 = Some (mk 1 50)) by (vm_compute; reflexivity).
  split; [exact E|]. split; [vm_compute; reflexivity|].
  apply H. split; [exact E|]. by apply toy_input.
Defined.

Lemma addTx_admits_witness :
  txheap.pending (txHeap (mp_Txs m3)) !! mk 2 90 = Some (90, mk 2 90).
Proof.
  assert (E : addTx m2 (mk 2 90) true false = (Ok tt, m3)).
  { rewrite (surjective_pairing (addTx m2 (mk 2 90) true false)).
    assert (fst (addTx m2 (mk 2 90) true false) = Ok tt) as -> by (vm_compute; reflexivity).
    reflexivity. }
  destruct (addTx_admits m2 m3 (mk 2 90) true m2_wf E) as (_ & H & _). exact H.
Defined.

Lemma NextTx_highest_witness :
  fst (NextTx (mp_Txs m3)) = Ok (Some (mk 2 90)) /\ pool_wf (snd (NextTx (mp_Txs m3))).
Proof.
  assert (E : fst (NextTx (mp_Txs m3)) = Ok (Some (mk 2 90))) by (vm_compute; reflexivity).
  split; [exact E|]. pose proof (NextTx_highest (mp_Txs m3) m3_wf) as H.
  rewrite (surjective_pairing (NextTx (mp_Txs m3))), E in H.
  destruct H as (price & _ & _ & Hw & _). exact Hw.
Defined.

Lemma CancelCurrentTx_ignores_maxSize_witness :
  maxSize (mp_Txs m3) = 1 /\ length (CancelCurrentTx (mp_Txs m3) (mk 1 50)) = 1 + 1.
Proof.
  split; [vm_compute; reflexivity|].
  destruct (CancelCurrentTx_ignores_maxSize (mp_Txs m3) (mk 1 50) (mk 1 50) 50 m3_wf)
    as [-> _]; [vm_compute; reflexivity|vm_compute; reflexivity|].
  assert (length (mp_Txs m3) = 1) as -> by (vm_compute; reflexivity). reflexivity.
Defined.

(** [mk 1 60] outbids [mk 1 50], which is dropped, but not [mk 2 90]. *)
Lemma addTx_refused_drops_conflicts_witness :
  pool (mp_Txs m3) !! mk 1 50 = Some (mk 1 50) /\
  is_Err (fst (addTx m3 (mk 1 60) true false)) = true /\
  pool (mp_Txs (snd (addTx m3 (mk 1 60) true false))) !! mk 1 50 = None.
Proof.
  assert (E : pool (mp_Txs m3) !! mk 1 50 = Some (mk 1 50)) by (vm_compute; reflexivity).
  split; [exact E|].
  destruct (addTx_refused_drops_conflicts m3 (mk 1 60) true 50 (mk 1 50) [mk 1 50]
              (errorf_w "currentMin=%d provided=%d" ErrInsufficientFee) m3_wf)
    as (-> & _ & H).
  - vm_compute. reflexivity.
  - vm_compute. reflexivity.
  - vm_compute. reflexivity.
  - vm_compute. reflexivity.
  - vm_compute. reflexivity.
  - split; [reflexivity|].
    apply (H (mk 1 50) (mk 1 50) (take 1 (mk 1 50)) E);
      by apply toy_input.
Defined.

End Witness.
End txpool.
