(* ===== verification/Packer.v ===== *)
(** * The [wrappers.Packer] interface and a calculus for codecs written with it

    [luxfi/util/wrappers.Packer] is a byte buffer with a cursor, a size limit and a
    sticky error. Its struct is the state; its methods are a parameter ([PackerLib])
    with their documented behaviour as laws ([PackerSpec]). The rest of the file is a
    small calculus: [writes] for marshalling code and [parses] for unmarshalling
    code, compositional in the sequencing of [StM Packer]. *)

From S2P Require Import Prelude.

Record Packer := mkPacker {
  Bytes : list byte;
  Offset : Z;
  MaxSize : Z;
  PErr : option error
}.

Class PackerLib := {
  PackShort : Z -> StM Packer unit;
  PackInt : Z -> StM Packer unit;
  PackLong : Z -> StM Packer unit;
  PackFixedBytes : list byte -> StM Packer unit;
  PackBytes : list byte -> StM Packer unit;
  UnpackShort : StM Packer Z;
  UnpackInt : StM Packer Z;
  UnpackLong : StM Packer Z;
  UnpackFixedBytes : nat -> StM Packer (list byte);
  UnpackBytes : StM Packer (list byte)
}.

(** [p.Errored()], [p.Err], and the assignment [p.Err = err]. *)
Definition Errored (p : Packer) : bool := bool_decide (is_Some (PErr p)).

Definition set_Err (e : error) : StM Packer unit := fun p =>
  (Ok tt, mkPacker (Bytes p) (Offset p) (MaxSize p) (Some e)).

(** [if p.Errored() { return p.Err }] *)
Definition check_Err : StM Packer unit := fun p =>
  match PErr p with Some e => (Err e, p) | None => (Ok tt, p) end.

(** [if p.Errored() { return err }] *)
Definition check_Err_as (err : error) : StM Packer unit := fun p =>
  if Errored p then (Err err, p) else (Ok tt, p).

(** [for i := 0; i < n; i++ { xs = append(xs, body()) }] and
    [for _, x := range xs { body(x) }], a failing body leaving the loop. *)
Fixpoint readN {A} (n : nat) (body : StM Packer A) : StM Packer (list A) :=
  match n with
  | O => mret []
  | S n' => x ← body; xs ← readN n' body; mret (x :: xs)
  end.

Fixpoint writeAll {A} (body : A -> StM Packer unit) (xs : list A) : StM Packer unit :=
  match xs with
  | [] => mret tt
  | x :: xs' => _ ← body x; writeAll body xs'
  end.

(** [copy(dst[:], src)] on a zeroed array of [n] bytes. *)
Definition copy_array (n : nat) (src : list byte) : list byte :=
  take n (src ++ replicate (n - length src) Byte.x00).

(** [copy(dst[:], p.UnpackFixedBytes(n))] on a zeroed array of [n] bytes. *)
Definition UnpackArray `{PackerLib} (n : nat) : StM Packer (list byte) :=
  bs ← UnpackFixedBytes n; mret (copy_array n bs).

(** [n := p.UnpackInt(); if p.Errored() { return p.Err }] and the loop that reads the
    [n] elements. *)
Definition UnpackSlice `{PackerLib} {A} (body : StM Packer A) : StM Packer (list A) :=
  n ← UnpackInt; _ ← check_Err; readN (Z.to_nat n) body.

(** [p.PackInt(uint32(len(xs)))] and the loop that writes the elements. *)
Definition PackSlice `{PackerLib} {A} (body : A -> StM Packer unit) (xs : list A)
    : StM Packer unit :=
  _ ← PackInt (u32 (Z.of_nat (length xs))); writeAll body xs.

Create HintDb packer.

(** ** Documented behaviour *)

(** A packer being written: no error, the cursor at the end of a buffer within the
    limit. *)
Definition ready (p : Packer) : Prop :=
  PErr p = None /\ Offset p = Z.of_nat (length (Bytes p)) /\ Offset p <= MaxSize p.

Definition append (p : Packer) (bs : list byte) : Packer :=
  mkPacker (Bytes p ++ bs) (Offset p + Z.of_nat (length bs)) (MaxSize p) (PErr p).

Definition fits (p : Packer) (bs : list byte) : Prop :=
  Z.of_nat (length (Bytes p)) + Z.of_nat (length bs) <= MaxSize p.

(** The bytes after the cursor, and the cursor moved past [n] of them. *)
Definition remaining (p : Packer) : list byte := drop (Z.to_nat (Offset p)) (Bytes p).

Definition advance (n : nat) (p : Packer) : Packer :=
  mkPacker (Bytes p) (Offset p + Z.of_nat n) (MaxSize p) (PErr p).

(** A packer being read. *)
Definition readable (p : Packer) : Prop := PErr p = None /\ 0 <= Offset p.

(** The bytes at the cursor replaced by [bs]. *)
Definition overwrite (p : Packer) (bs : list byte) : Packer :=
  mkPacker (take (Z.to_nat (Offset p)) (Bytes p) ++ bs ++
            drop (Z.to_nat (Offset p) + length bs) (Bytes p))
    (Offset p + Z.of_nat (length bs)) (MaxSize p) (PErr p).

(** A method that packs the bytes [bs]: they replace the bytes at the cursor if the
    buffer has as many there; at its end they are appended if they fit in [MaxSize], and
    the packer becomes errored if they do not; nothing happens once it is. *)
Record Packs (op : StM Packer unit) (bs : list byte) : Prop := {
  Packs_inplace p : PErr p = None -> 0 <= Offset p ->
    Offset p + Z.of_nat (length bs) <= Z.of_nat (length (Bytes p)) -> op p = (Ok tt, overwrite p bs);
  Packs_fits p : ready p -> fits p bs -> op p = (Ok tt, append p bs);
  Packs_over p : ready p -> ~ fits p bs ->
    exists p', op p = (Ok tt, p') /\ is_Some (PErr p');
  Packs_sticky p : is_Some (PErr p) -> op p = (Ok tt, p)
}.

(** A method that unpacks [n] bytes with [dec]: the cursor moves past them; with too
    few bytes left the packer becomes errored and the zero value is returned, as it
    is once the packer is errored. The method itself returns no error. *)
Record Unpacks {A} (op : StM Packer A) (n : nat) (dec : list byte -> A) (zero : A) : Prop := {
  Unpacks_enough p : readable p -> (n <= length (remaining p))%nat ->
    op p = (Ok (dec (take n (remaining p))), advance n p);
  Unpacks_short p : readable p -> (length (remaining p) < n)%nat ->
    exists p', op p = (Ok zero, p') /\ is_Some (PErr p');
  Unpacks_sticky p : is_Some (PErr p) -> op p = (Ok zero, p);
  Unpacks_returns p : is_Ok (fst (op p)) = true
}.

Class PackerSpec `{PackerLib} : Prop := {
  PackShort_spec v : Packs (PackShort v) (be_encode 2 v);
  PackInt_spec v : Packs (PackInt v) (be_encode 4 v);
  PackLong_spec v : Packs (PackLong v) (be_encode 8 v);
  PackFixedBytes_spec bs : Packs (PackFixedBytes bs) bs;
  PackBytes_eq bs p :
    PackBytes bs p = (_ ← PackInt (u32 (Z.of_nat (length bs))); PackFixedBytes bs) p;
  UnpackShort_spec : Unpacks UnpackShort 2 be_decode 0;
  UnpackInt_spec : Unpacks UnpackInt 4 be_decode 0;
  UnpackLong_spec : Unpacks UnpackLong 8 be_decode 0;
  UnpackFixedBytes_spec n : Unpacks (UnpackFixedBytes n) n id [];
  UnpackBytes_eq p : UnpackBytes p = (n ← UnpackInt; UnpackFixedBytes (Z.to_nat n)) p
}.

(** ** Marshalling code *)

(** A run that cannot end in a packed message: an error is returned or pending. *)
Definition failed {A} (r : result A * Packer) : Prop :=
  match fst r with
  | Ok _ => is_Some (PErr (snd r))
  | Err _ => True
  | Panic => False
  end.

(** [m] emits [bs]; with [None], [m] always fails. *)
Record writes (m : StM Packer unit) (ob : option (list byte)) : Prop := {
  writes_fits p bs : ob = Some bs -> ready p -> fits p bs -> m p = (Ok tt, append p bs);
  writes_over p : ready p -> (forall bs, ob = Some bs -> ~ fits p bs) -> failed (m p);
  writes_sticky p : is_Some (PErr p) -> failed (m p)
}.

(** Concatenation of encodings, undefined if one of them is. *)
Definition oapp (a b : option (list byte)) : option (list byte) :=
  x ← a; y ← b; Some (x ++ y).

Definition encodes {A} (enc : A -> option (list byte)) (xs : list A) : option (list byte) :=
  foldr (fun x acc => oapp (enc x) acc) (Some []) xs.

Lemma append_nil p : append p [] = p.
Proof. destruct p. unfold append. simpl. rewrite app_nil_r, Z.add_0_r. done. Qed.

Lemma append_append p a b : append (append p a) b = append p (a ++ b).
Proof. unfold append. simpl. rewrite length_app, (assoc_L (++)). f_equal. lia. Qed.

Lemma fits_app p a b : fits p (a ++ b) <-> fits p a /\ fits (append p a) b.
Proof. unfold fits. simpl. rewrite !length_app. lia. Qed.

Lemma ready_append p bs : ready p -> fits p bs -> ready (append p bs).
Proof. unfold ready, fits. simpl. rewrite length_app. intros (? & ? & ?) ?. split_and!; [done|lia|lia]. Qed.

Lemma fits_nil p : ready p -> fits p [].
Proof. unfold ready, fits. simpl. lia. Qed.

#[export] Instance fits_dec p bs : Decision (fits p bs).
Proof. unfold fits. apply _. Defined.

Lemma Packs_writes m bs : Packs m bs -> writes m (Some bs).
Proof.
  intros [_ Hf Ho Hs]. split.
  - intros p ? [= <-] Hp. by apply Hf.
  - intros p Hp Hn. destruct (Ho p Hp (Hn _ eq_refl)) as (p' & -> & Hp'). exact Hp'.
  - intros p Hp. rewrite Hs by done. exact Hp.
Qed.

Lemma writes_ret : writes (mret tt) (Some []).
Proof.
  split.
  - intros p bs [= <-] Hp _. by rewrite append_nil.
  - intros p Hp Hn. destruct (Hn [] eq_refl). by apply fits_nil.
  - intros p Hp. exact Hp.
Qed.

Lemma failed_bind {A B} (m : StM Packer A) (k : A -> StM Packer B) p :
  failed (m p) -> (forall a p', is_Some (PErr p') -> failed (k a p')) -> failed ((m ≫= k) p).
Proof.
  unfold failed at 1. unfold mbind, StM_bind. destruct (m p) as [[a|e|] p']; simpl; intros Hm Hk.
  - by apply Hk.
  - done.
  - done.
Qed.

Lemma writes_seq m1 m2 o1 o2 :
  writes m1 o1 -> writes m2 o2 -> writes (_ ← m1; m2) (oapp o1 o2).
Proof.
  intros [F1 O1 S1] [F2 O2 S2]. split.
  - intros p bs Hbs Hp Hf. destruct o1 as [b1|], o2 as [b2|]; try discriminate Hbs.
    injection Hbs as <-. apply fits_app in Hf as [Hf1 Hf2].
    rewrite (bindM_step _ _ _ _ _ (F1 p b1 eq_refl Hp Hf1)).
    rewrite (F2 _ b2 eq_refl); [by rewrite append_append| |done]. by apply ready_append.
  - intros p Hp Hn.
    destruct o1 as [b1|]; [destruct (decide (fits p b1)) as [Hf|Hf]|].
    + rewrite (bindM_step _ _ _ _ _ (F1 p b1 eq_refl Hp Hf)).
      apply O2; [by apply ready_append|]. intros b2 ->. intros Hf2.
      apply (Hn _ eq_refl). by apply fits_app.
    + apply failed_bind; [|by intros; apply S2]. apply O1; [done|]. by intros ? [= <-].
    + apply failed_bind; [|by intros; apply S2]. apply O1; [done|]. by intros ? [=].
  - intros p Hp. apply failed_bind; [by apply S1|]. by intros; apply S2.
Qed.

Lemma writes_eq m o o' : writes m o -> o = o' -> writes m o'.
Proof. by intros ? <-. Qed.

Lemma writes_check : writes check_Err (Some []).
Proof.
  split.
  - intros p bs [= <-] (HE & _) _. unfold check_Err. rewrite HE. by rewrite append_nil.
  - intros p Hp Hn. destruct (Hn [] eq_refl). by apply fits_nil.
  - intros p [e He]. unfold check_Err. rewrite He. exact I.
Qed.

Lemma writes_set_Err e : writes (set_Err e) None.
Proof. split; [done| |]; intros; unfold failed; simpl; eauto. Qed.

Lemma writes_fail e : writes (lift (Err e)) None.
Proof. by split. Qed.

Lemma writes_all {A} (body : A -> StM Packer unit) enc :
  (forall x, writes (body x) (enc x)) -> forall xs, writes (writeAll body xs) (encodes enc xs).
Proof. intros Hb. induction xs; simpl; [apply writes_ret|by apply writes_seq]. Qed.

(** Ending with the error check turns a pending error into a returned one. *)
Lemma check_Err_strict (m : StM Packer unit) p : failed (m p) -> exists e, fst ((_ ← m; check_Err) p) = Err e.
Proof.
  unfold failed, mbind, StM_bind, check_Err. destruct (m p) as [[[]|e|] p']; simpl; [|eauto|done].
  intros [e ->]. by exists e.
Qed.

(** ** Unmarshalling code *)

(** [r] accepts exactly the byte strings [R] relates to a value, and returns that
    value. *)
Record parses {A} (r : StM Packer A) (R : A -> list byte -> Prop) : Prop := {
  parses_complete p a bs rest : readable p -> R a bs -> remaining p = bs ++ rest ->
    r p = (Ok a, advance (length bs) p);
  parses_sound p a p' : readable p -> r p = (Ok a, p') -> PErr p' = None ->
    exists bs, R a bs /\ remaining p = bs ++ remaining p' /\ p' = advance (length bs) p;
  parses_sticky p : is_Some (PErr p) -> failed (r p);
  parses_total p : fst (r p) <> Panic
}.

Lemma readable_advance n p : readable p -> readable (advance n p).
Proof. intros [? ?]. split; simpl; [done|lia]. Qed.

Lemma advance_0 p : advance 0 p = p.
Proof. destruct p. unfold advance. simpl. by rewrite Z.add_0_r. Qed.

Lemma advance_advance n m p : advance m (advance n p) = advance (n + m) p.
Proof. unfold advance. simpl. f_equal. lia. Qed.

Lemma remaining_advance n p : readable p -> remaining (advance n p) = drop n (remaining p).
Proof. intros [_ ?]. unfold remaining. simpl. rewrite drop_drop. f_equal. lia. Qed.

Lemma remaining_advance_app p bs rest :
  readable p -> remaining p = bs ++ rest -> remaining (advance (length bs) p) = rest.
Proof. intros Hp Hr. by rewrite remaining_advance, Hr, drop_app_length. Qed.

Lemma parses_iff {A} (r : StM Packer A) R R' :
  parses r R -> (forall a bs, R a bs <-> R' a bs) -> parses r R'.
Proof.
  intros [C S K T] HR. split; [|..|done|done].
  - intros p a bs rest Hp Ha. by apply C, HR.
  - intros p a p' Hp Hr Hp'. destruct (S p a p' Hp Hr Hp') as (bs & Hbs & ?).
    exists bs. split; [by apply HR|done].
Qed.

Lemma parses_ext {A} (r r' : StM Packer A) R :
  (forall p, r p = r' p) -> parses r R -> parses r' R.
Proof.
  intros He [C S K T]. split; intros p; rewrite <- He; [apply C|apply S|apply K|apply T].
Qed.

Lemma parses_ret {A} (a : A) : parses (mret a) (fun b bs => b = a /\ bs = []).
Proof.
  split.
  - intros p b bs rest _ [-> ->] _. by rewrite advance_0.
  - intros p b p' _ [= <- <-] _. exists []. by rewrite advance_0.
  - intros p Hp. exact Hp.
  - done.
Qed.

Lemma parses_fail {A} e : parses (lift (Err e) : StM Packer A) (fun _ _ => False).
Proof. by split. Qed.

Lemma parses_check : parses check_Err (fun _ bs => bs = []).
Proof.
  split.
  - intros p [] bs rest [HE _] -> _. unfold check_Err. rewrite HE. by rewrite advance_0.
  - unfold check_Err. intros p [] p' [HE _]. rewrite HE. intros [= <-] _.
    exists []. by rewrite advance_0.
  - intros p [e He]. unfold check_Err. by rewrite He.
  - intros p. unfold check_Err. by destruct (PErr p).
Qed.

Lemma failed_not_ok {A} (r : result A * Packer) a p' :
  failed r -> r = (Ok a, p') -> PErr p' <> None.
Proof. intros Hf ->. unfold failed in Hf. simpl in Hf. by destruct Hf as [e ->]. Qed.

Lemma parses_bind {A B} (r : StM Packer A) (k : A -> StM Packer B) R1 R2 :
  parses r R1 -> (forall a, parses (k a) (R2 a)) ->
  parses (r ≫= k)
    (fun b bs => exists a b1 b2, bs = b1 ++ b2 /\ R1 a b1 /\ R2 a b b2).
Proof.
  intros [C S K T] Hk. split.
  - intros p b bs rest Hp (a & b1 & b2 & -> & H1 & H2) Hr. rewrite <- app_assoc in Hr.
    rewrite (bindM_step _ _ _ _ _ (C p a b1 _ Hp H1 Hr)).
    rewrite (parses_complete _ _ (Hk a) _ b b2 rest); [|by apply readable_advance|done|].
    + by rewrite advance_advance, length_app.
    + by apply remaining_advance_app.
  - intros p b p' Hp Hrun Hp'. apply bindM_run in Hrun as (a & p1 & Hr & Hrun).
    assert (PErr p1 = None) as Hp1.
    { destruct (PErr p1) eqn:E; [|done].
      destruct (failed_not_ok _ b p' (parses_sticky _ _ (Hk a) p1 ltac:(rewrite E; eauto)) Hrun Hp'). }
    destruct (S p a p1 Hp Hr Hp1) as (b1 & H1 & Hb1 & ->).
    destruct (parses_sound _ _ (Hk a) _ b p' (readable_advance _ _ Hp) Hrun Hp')
      as (b2 & H2 & Hb2 & ->).
    exists (b1 ++ b2). rewrite advance_advance, length_app in *. split_and!; [by eauto 6| |done].
    rewrite <- app_assoc, <- Hb2. done.
  - intros p Hp. apply failed_bind; [by apply K|]. intros. by apply (parses_sticky _ _ (Hk _)).
  - intros p. unfold mbind, StM_bind. pose proof (T p). destruct (r p) as [[]]; simpl in *; [|done|done].
    apply (parses_total _ _ (Hk _)).
Qed.

Lemma parses_map {A B} (r : StM Packer A) (f : A -> B) R :
  parses r R -> parses (a ← r; mret (f a)) (fun b bs => exists a, b = f a /\ R a bs).
Proof.
  intros Hr. eapply parses_iff; [apply parses_bind; [exact Hr|intros; apply parses_ret]|].
  intros b bs. split.
  - intros (a & b1 & b2 & -> & HR & -> & ->). rewrite app_nil_r. eauto.
  - intros (a & -> & HR). exists a, bs, []. by rewrite app_nil_r.
Qed.

Lemma parses_Unpacks {A} (op : StM Packer A) n dec zero (R : A -> list byte -> Prop) :
  Unpacks op n dec zero ->
  (forall a bs, R a bs <-> length bs = n /\ a = dec bs) -> parses op R.
Proof.
  intros [He Hs Hk Ht] HR. split.
  - intros p a bs rest Hp Ha Hr. apply HR in Ha as [<- ->].
    rewrite He; rewrite ?Hr, ?length_app, ?take_app_length; [done|done|lia].
  - intros p a p' Hp Hrun Hp'.
    destruct (decide (n <= length (remaining p))%nat) as [Hl|Hl].
    + rewrite He in Hrun by done. injection Hrun as <- <-. exists (take n (remaining p)).
      rewrite HR, length_take_le, remaining_advance, take_drop by done. done.
    + destruct (Hs p Hp ltac:(lia)) as (p1 & Hp1 & [e E]). rewrite Hp1 in Hrun.
      injection Hrun as _ <-. by rewrite E in Hp'.
  - intros p Hp. rewrite Hk by done. exact Hp.
  - intros p Hp'. specialize (Ht p). by rewrite Hp' in Ht.
Qed.

Lemma be_pair n v bs :
  length bs = n /\ v = be_decode bs <-> 0 <= v < 256 ^ Z.of_nat n /\ bs = be_encode n v.
Proof.
  split.
  - intros [<- ->]. split; [apply be_decode_bound|]. by rewrite be_encode_decode.
  - intros [Hv ->]. by rewrite length_be_encode, be_decode_encode.
Qed.

Lemma parses_be op n :
  Unpacks op n be_decode 0 ->
  parses op (fun v bs => 0 <= v < 256 ^ Z.of_nat n /\ bs = be_encode n v).
Proof. intros H. eapply parses_Unpacks; [exact H|]. intros. by rewrite be_pair. Qed.

Lemma parses_all {A} (body : StM Packer A) R n :
  parses body R ->
  parses (readN n body)
    (fun xs bs => length xs = n /\ exists bss, Forall2 R xs bss /\ bs = concat bss).
Proof.
  intros Hb. induction n as [|n IH]; simpl.
  - eapply parses_iff; [apply parses_ret|]. intros xs bs. split.
    + intros [-> ->]. split; [done|]. by exists [].
    + intros (Hl & bss & Hf & ->). apply nil_length_inv in Hl as ->. inversion Hf. done.
  - eapply parses_iff.
    + apply parses_bind; [exact Hb|]. intros x. apply parses_bind; [exact IH|].
      intros xs. apply parses_ret.
    + intros xs bs. simpl. split.
      * intros (x & b1 & b2 & -> & Hx & xs' & b3 & b4 & -> & (<- & bss & Hf & ->) & -> & ->).
        split; [done|]. exists (b1 :: bss). rewrite app_nil_r. split; [by constructor|done].
      * intros (Hl & bss & Hf & ->). destruct xs as [|x xs]; [done|].
        inversion Hf as [|? b ? bss' Hx Hf']; subst. exists x, b, (concat bss').
        split_and!; [done|done|]. exists xs, (concat bss'), []. rewrite app_nil_r.
        simpl in Hl. split_and!; [done|lia| |done|done]. by exists bss'.
Qed.

(** The relation an encoder on well-typed values gives. *)
Definition encoded {A} (valid : A -> Prop) (enc : A -> option (list byte)) (a : A) (bs : list byte)
    : Prop := valid a /\ enc a = Some bs.

Lemma encodes_Some {A} (enc : A -> option (list byte)) xs bs :
  encodes enc xs = Some bs <-> exists bss, Forall2 (fun x b => enc x = Some b) xs bss /\ bs = concat bss.
Proof.
  revert bs. induction xs as [|x xs IH]; intros bs; simpl.
  - split; [intros [= <-]; by exists []|]. intros (bss & Hf & ->). by inversion Hf.
  - split.
    + intros H. destruct (enc x) as [b|] eqn:E; [|done].
      destruct (encodes enc xs) as [b'|] eqn:E'; [|done]. injection H as <-.
      destruct (proj1 (IH b') eq_refl) as (bss & Hf & ->). exists (b :: bss). by split; [constructor|].
    + intros (bss & Hf & ->). inversion Hf as [|? b ? bss' Hx Hf']; subst.
      unfold encodes in *. rewrite Hx.
      rewrite (proj2 (IH (concat bss')) (ex_intro _ bss' (conj Hf' eq_refl))). done.
Qed.

Lemma encoded_all {A} valid (enc : A -> option (list byte)) xs bs :
  (exists bss, Forall2 (encoded valid enc) xs bss /\ bs = concat bss) <->
  encoded (Forall valid) (encodes enc) xs bs.
Proof.
  unfold encoded at 2. rewrite encodes_Some. split.
  - intros (bss & Hf & ->). split.
    + induction Hf as [|x b xs bss [Hx _] _ IH]; by constructor.
    + exists bss. split; [|done]. eapply list.Forall2_impl; [exact Hf|]. by intros ? ? [_ ?].
  - intros (Hv & bss & Hf & ->). exists bss. split; [|done].
    induction Hf as [|x b xs bss Hx _ IH]; [constructor|]. inversion Hv; subst.
    constructor; [by split|by apply IH].
Qed.

(** Code that returns an error rather than leave one pending. *)
Definition clean {A} (r : StM Packer A) : Prop :=
  forall p a p', r p = (Ok a, p') -> PErr p' = None.

Lemma clean_bind {A B} (r : StM Packer A) (k : A -> StM Packer B) :
  (forall a, clean (k a)) -> clean (r ≫= k).
Proof. intros Hk p b p' Hr. apply bindM_run in Hr as (a & p1 & _ & Hr). by apply Hk in Hr. Qed.

Lemma clean_map {A B} (r : StM Packer A) (f : A -> B) : clean r -> clean (a ← r; mret (f a)).
Proof.
  intros Hc p b p' Hr. apply bindM_run in Hr as (a & p1 & Hr & [= _ <-]). by apply Hc in Hr.
Qed.

Lemma clean_check : clean check_Err.
Proof. intros p [] p'. unfold check_Err. destruct (PErr p) eqn:E; by intros [= <-]. Qed.

Lemma clean_check_ret {A} (a : A) : clean (_ ← check_Err; mret a).
Proof.
  intros p b p' Hr. apply bindM_run in Hr as ([] & p1 & Hr & [= _ <-]). by apply clean_check in Hr.
Qed.

Lemma clean_fail {A} e : clean (lift (Err e) : StM Packer A).
Proof. by intros p a p' [=]. Qed.

Lemma clean_readN {A} (body : StM Packer A) n : clean body -> clean (_ ← check_Err; readN n body).
Proof.
  intros Hb p xs p' Hr. apply bindM_run in Hr as ([] & p1 & Hc & Hr). apply clean_check in Hc.
  revert p1 xs Hc Hr. induction n as [|n IH]; intros p1 xs Hc Hr.
  - by injection Hr as _ <-.
  - apply bindM_run in Hr as (x & p2 & Hx & Hr). apply bindM_run in Hr as (xs' & p3 & Hxs & [= _ <-]).
    apply (IH p2 xs'); [by apply Hb in Hx|done].
Qed.

#[export] Hint Resolve clean_bind clean_map clean_check clean_check_ret clean_fail clean_readN
  : packer.

(** ** Fields, slices and tags *)

(** The encodings of the primitive fields. *)
Definition enc_u32 (v : Z) : option (list byte) := Some (be_encode 4 v).
Definition enc_u64 (v : Z) : option (list byte) := Some (be_encode 8 v).
Definition enc_array (bs : list byte) : option (list byte) := Some bs.
Definition enc_slice {A} (enc : A -> option (list byte)) (xs : list A) : option (list byte) :=
  oapp (enc_u32 (u32 (Z.of_nat (length xs)))) (encodes enc xs).
Definition enc_bytes (bs : list byte) : option (list byte) :=
  oapp (enc_u32 (u32 (Z.of_nat (length bs)))) (Some bs).

Definition has_len (n : nat) (bs : list byte) : Prop := length bs = n.
Definition len_u32 {A} (xs : list A) : Prop := Z.of_nat (length xs) < 2 ^ 32.
Definition valid_slice {A} (valid : A -> Prop) (xs : list A) : Prop := len_u32 xs /\ Forall valid xs.

Lemma oapp_Some o1 o2 bs :
  oapp o1 o2 = Some bs <-> exists b1 b2, o1 = Some b1 /\ o2 = Some b2 /\ bs = b1 ++ b2.
Proof.
  split.
  - destruct o1 as [b1|], o2 as [b2|]; intros [= <-]. by exists b1, b2.
  - by intros (b1 & b2 & -> & -> & ->).
Qed.

Lemma oapp_nil_r o : oapp o (Some []) = o.
Proof. destruct o; simpl; [|done]. by rewrite app_nil_r. Qed.

Lemma oapp_assoc a b c : oapp a (oapp b c) = oapp (oapp a b) c.
Proof. destruct a, b, c; simpl; try done. by rewrite app_assoc. Qed.

Lemma parses_check_seq {A} (k : StM Packer A) R :
  parses k R -> parses (_ ← check_Err; k) R.
Proof.
  intros Hk. eapply parses_iff; [apply parses_bind; [apply parses_check|intros; exact Hk]|].
  intros a bs. split.
  - by intros ([] & b1 & b2 & -> & -> & ?).
  - intros H. by exists tt, [], bs.
Qed.

(** A record is read field by field: [Q] is what the fields read so far fix. *)
Lemma parses_field {A B} (r : StM Packer A) (k : A -> StM Packer B) (π : B -> A)
    valid enc (Q V : B -> Prop) E :
  parses r (encoded valid enc) ->
  (forall a, parses (k a) (fun b bs => (Q b /\ π b = a) /\ V b /\ E b = Some bs)) ->
  parses (r ≫= k)
    (fun b bs => Q b /\ (valid (π b) /\ V b) /\ oapp (enc (π b)) (E b) = Some bs).
Proof.
  intros Hr Hk. eapply parses_iff; [apply (parses_bind _ _ _ _ Hr Hk)|]. intros b bs. simpl. split.
  - intros (a & b1 & b2 & -> & [Hv He] & (HQ & <-) & HV & HE).
    split_and!; [done..|]. rewrite He, HE. done.
  - intros (HQ & [Hv HV] & HE). apply oapp_Some in HE as (b1 & b2 & H1 & H2 & ->).
    by exists (π b), b1, b2.
Qed.

Lemma parses_done {A} (a : A) (Q : A -> Prop) :
  (forall b, Q b <-> b = a) -> parses (mret a) (fun b bs => Q b /\ True /\ Some [] = Some bs).
Proof.
  intros HQ. eapply parses_iff; [apply parses_ret|]. intros b bs. simpl. rewrite HQ. naive_solver.
Qed.

Lemma parses_struct {A} (r : StM Packer A) (Q V : A -> Prop) E valid enc :
  parses r (fun b bs => Q b /\ V b /\ E b = Some bs) ->
  (forall b, Q b -> (V b <-> valid b) /\ E b = enc b) -> (forall b, valid b -> Q b) ->
  parses r (encoded valid enc).
Proof.
  intros Hr Hb HQ. eapply parses_iff; [exact Hr|]. intros b bs. unfold encoded. split.
  - intros (HQb & HV & HE). destruct (Hb b HQb) as [HV' <-]. split; [by apply HV'|done].
  - intros (HV & HE). pose proof (HQ b HV) as HQb. destruct (Hb b HQb) as [HV' HE'].
    split_and!; [done|by apply HV'|by rewrite HE'].
Qed.

Section Spec.
Context `{PackerSpec}.

Lemma parses_Int : parses UnpackInt (encoded is_u32 enc_u32).
Proof.
  eapply parses_iff; [apply parses_be, UnpackInt_spec|]. unfold encoded, enc_u32, is_u32.
  intros. change (256 ^ Z.of_nat 4) with (2 ^ 32). naive_solver.
Qed.

Lemma parses_Long : parses UnpackLong (encoded is_u64 enc_u64).
Proof.
  eapply parses_iff; [apply parses_be, UnpackLong_spec|]. unfold encoded, enc_u64, is_u64.
  intros. change (256 ^ Z.of_nat 8) with (2 ^ 64). naive_solver.
Qed.

Lemma parses_FixedBytes n :
  parses (UnpackFixedBytes n) (encoded (has_len n) enc_array).
Proof.
  eapply parses_Unpacks; [apply UnpackFixedBytes_spec|]. unfold encoded, enc_array, has_len, id.
  intros. naive_solver.
Qed.

Lemma copy_array_full n bs : length bs = n -> copy_array n bs = bs.
Proof.
  intros <-. unfold copy_array. rewrite Nat.sub_diag. simpl. by rewrite app_nil_r, firstn_all.
Qed.

Lemma parses_Array n : parses (UnpackArray n) (encoded (has_len n) enc_array).
Proof.
  eapply parses_iff;
    [apply parses_bind; [apply parses_FixedBytes|intros; apply parses_ret]|].
  unfold encoded, enc_array, has_len. intros a bs. split.
  - intros (x & b1 & b2 & -> & (Hx & [= <-]) & -> & ->).
    by rewrite copy_array_full, app_nil_r.
  - intros [Ha [= <-]]. exists a, a, []. by rewrite copy_array_full, app_nil_r.
Qed.

(** The element count, then that many elements. *)
Lemma parses_Slice {A} (body : StM Packer A) valid enc :
  parses body (encoded valid enc) ->
  parses (UnpackSlice body) (encoded (valid_slice valid) (enc_slice enc)).
Proof.
  intros Hb. eapply parses_iff.
  - apply parses_bind; [apply parses_Int|]. intros n. apply parses_check_seq.
    apply parses_all, Hb.
  - intros xs bs. simpl. split.
    + intros (n & b1 & b2 & -> & [Hn [= <-]] & Hl & He). apply encoded_all in He as [Hv He].
      unfold is_u32 in Hn.
      split; [split; [|done]|]; unfold len_u32, enc_slice, enc_u32; rewrite Hl;
        rewrite ?Z2Nat.id, ?He, ?Z.mod_small by lia; [lia|done].
    + intros [[Hl Hv] He]. unfold len_u32 in Hl. unfold enc_slice in He.
      rewrite Z.mod_small in He by lia. apply oapp_Some in He as (b1 & b2 & H1 & H2 & ->).
      exists (Z.of_nat (length xs)), b1, b2. split_and!; [done| |by rewrite Nat2Z.id|].
      * split; [unfold is_u32; lia|done].
      * by apply encoded_all.
Qed.

Lemma parses_Bytes : parses UnpackBytes (encoded len_u32 enc_bytes).
Proof.
  assert (parses (n ← UnpackInt; UnpackFixedBytes (Z.to_nat n)) (encoded len_u32 enc_bytes))
    as [C S K T].
  { eapply parses_iff;
      [apply parses_bind; [apply parses_Int|intros; apply parses_FixedBytes]|].
    unfold encoded, enc_array, has_len, len_u32, enc_bytes. intros a bs. simpl. split.
    - intros (n & b1 & b2 & -> & [Hn [= <-]] & Hl & [= <-]). unfold is_u32 in Hn.
      rewrite Hl, Z2Nat.id, Z.mod_small by lia. split; [lia|done].
    - intros [Hl [= <-]]. rewrite Z.mod_small by lia.
      exists (Z.of_nat (length a)), (be_encode 4 (Z.of_nat (length a))), a.
      rewrite Nat2Z.id. unfold is_u32. split_and!; done || lia. }
  split; intros p; rewrite UnpackBytes_eq; [apply C|apply S|apply K|apply T].
Qed.

(** A type tag, then the body it selects. *)
Lemma parses_Tag {A} (k : Z -> StM Packer A) (R : Z -> A -> list byte -> Prop) :
  (forall t, parses (k t) (R t)) ->
  parses (t ← UnpackInt; _ ← check_Err; k t)
    (fun b bs => exists t bs', is_u32 t /\ bs = be_encode 4 t ++ bs' /\ R t b bs').
Proof.
  intros Hk. eapply parses_iff.
  - apply parses_bind; [apply parses_Int|]. intros t. by apply parses_check_seq.
  - intros b bs. split.
    + intros (t & b1 & b2 & -> & [Ht [= <-]] & HR). by exists t, b2.
    + intros (t & b2 & Ht & -> & HR). exists t, (be_encode 4 t), b2. by split_and!.
Qed.

Lemma parses_Tag1 {A} (r : StM Packer A) tag e valid enc :
  is_u32 tag -> parses r (encoded valid enc) ->
  parses (t ← UnpackInt; _ ← check_Err; if t =? tag then r else lift (Err e))
    (encoded valid (fun b => oapp (enc_u32 tag) (enc b))).
Proof.
  intros Htag Hr. eapply parses_iff.
  - apply (parses_Tag _ (fun t b bs => t = tag /\ encoded valid enc b bs)). intros t.
    destruct (Z.eqb_spec t tag) as [->|Hne].
    + eapply parses_iff; [exact Hr|]. tauto.
    + eapply parses_iff; [apply parses_fail|]. tauto.
  - intros b bs. unfold encoded. rewrite oapp_Some. split.
    + intros (t & bs' & Ht & -> & -> & Hv & He). split; [done|]. by exists (be_encode 4 tag), bs'.
    + intros (Hv & b1 & b2 & [= <-] & He & ->). by exists tag, b2.
Qed.

(** The same with the rest of the function inside the selected case. *)
Lemma parses_Tag1_seq {A B} (r : StM Packer A) (k : A -> StM Packer B) tag e R :
  parses ((t ← UnpackInt; _ ← check_Err; if t =? tag then r else lift (Err e)) ≫= k) R ->
  parses (t ← UnpackInt; _ ← check_Err; if t =? tag then r ≫= k else lift (Err e)) R.
Proof.
  apply parses_ext. intros p. unfold mbind, StM_bind.
  destruct (UnpackInt p) as [[t| |] p1]; [|done..].
  destruct (check_Err p1) as [[[]| |] p2]; [|done..]. by destruct (t =? tag).
Qed.

Lemma writes_Int v : writes (PackInt v) (enc_u32 v).
Proof. apply Packs_writes, PackInt_spec. Qed.
Lemma writes_Long v : writes (PackLong v) (enc_u64 v).
Proof. apply Packs_writes, PackLong_spec. Qed.
Lemma writes_FixedBytes bs : writes (PackFixedBytes bs) (enc_array bs).
Proof. apply Packs_writes, PackFixedBytes_spec. Qed.

Lemma writes_Bytes bs : writes (PackBytes bs) (enc_bytes bs).
Proof.
  destruct (writes_seq _ _ _ _ (writes_Int (u32 (Z.of_nat (length bs)))) (writes_FixedBytes bs))
    as [F O K].
  split; intros p; rewrite PackBytes_eq; [apply F|apply O|apply K].
Qed.

Lemma writes_Slice {A} (body : A -> StM Packer unit) enc xs :
  (forall x, writes (body x) (enc x)) -> writes (PackSlice body xs) (enc_slice enc xs).
Proof. intros Hb. apply writes_seq; [apply writes_Int|by apply writes_all]. Qed.

Lemma writes_checked m o : writes m o -> writes (_ ← m; check_Err) o.
Proof.
  intros Hm. eapply writes_eq; [apply writes_seq; [exact Hm|apply writes_check]|].
  apply oapp_nil_r.
Qed.

End Spec.

#[export] Hint Resolve parses_Int parses_Long parses_FixedBytes parses_Array parses_Slice
  parses_Bytes parses_check_seq writes_Int writes_Long writes_FixedBytes writes_Bytes
  writes_Slice writes_check writes_checked writes_ret writes_seq writes_set_Err writes_fail : packer.

(** ** Filling a buffer allocated at its final size *)

(** The packer after the bytes [d] were packed into a buffer of which [r] is left. *)
Definition presized (d r : list byte) (max : Z) : Packer :=
  mkPacker (d ++ r) (Z.of_nat (length d)) max None.

Lemma Packs_presized op bs d r max : Packs op bs -> (length bs <= length r)%nat ->
  op (presized d r max) = (Ok tt, presized (d ++ bs) (drop (length bs) r) max).
Proof.
  intros HP Hl. rewrite (Packs_inplace _ _ HP).
  - unfold overwrite, presized. cbn [Bytes Offset MaxSize PErr]. rewrite !Nat2Z.id.
    rewrite take_app_length, drop_app_add, length_app, Nat2Z.inj_add, <- app_assoc. done.
  - done.
  - simpl. lia.
  - simpl. rewrite length_app. lia.
Qed.

Lemma PackBytes_presized `{PackerSpec} bs d r max :
  (4 + length bs <= length r)%nat ->
  PackBytes bs (presized d r max) =
  (Ok tt, presized (d ++ be_encode 4 (Z.of_nat (length bs)) ++ bs) (drop (4 + length bs) r) max).
Proof.
  intros Hl. rewrite PackBytes_eq.
  rewrite (bindM_step _ _ _ _ _ (Packs_presized _ _ d r max (PackInt_spec _)
             ltac:(rewrite length_be_encode; lia))).
  rewrite (Packs_presized _ _ _ _ _ (PackFixedBytes_spec bs))
    by (rewrite length_drop, length_be_encode; lia).
  rewrite length_be_encode, drop_drop, <- app_assoc. do 3 f_equal.
  rewrite <- (be_encode_mod 4 (Z.of_nat (length bs))). done.
Qed.

(** ** An instance of the interface *)

Module PackerConcrete.

Definition errInsufficientLength : error := errors_New "wrappers.ErrInsufficientLength".

Definition with_Err (p : Packer) (e : error) : Packer :=
  mkPacker (Bytes p) (Offset p) (MaxSize p) (Some e).

Definition pack (bs : list byte) : StM Packer unit := fun p =>
  match PErr p with
  | Some _ => (Ok tt, p)
  | None =>
      (Ok tt, if Offset p + Z.of_nat (length bs) <=? Z.of_nat (length (Bytes p)) then overwrite p bs
              else if decide (fits p bs) then append p bs else with_Err p errInsufficientLength)
  end.

Definition unpack {A} (n : nat) (dec : list byte -> A) (zero : A) : StM Packer A := fun p =>
  match PErr p with
  | Some _ => (Ok zero, p)
  | None => if (n <=? length (remaining p))%nat
            then (Ok (dec (take n (remaining p))), advance n p)
            else (Ok zero, with_Err p errInsufficientLength)
  end.

#[export] Instance lib : PackerLib := {|
  PackShort v := pack (be_encode 2 v);
  PackInt v := pack (be_encode 4 v);
  PackLong v := pack (be_encode 8 v);
  PackFixedBytes bs := pack bs;
  PackBytes bs := _ ← pack (be_encode 4 (u32 (Z.of_nat (length bs)))); pack bs;
  UnpackShort := unpack 2 be_decode 0;
  UnpackInt := unpack 4 be_decode 0;
  UnpackLong := unpack 8 be_decode 0;
  UnpackFixedBytes n := unpack n id [];
  UnpackBytes := n ← unpack 4 be_decode 0; unpack (Z.to_nat n) id []
|}.

Lemma overwrite_nil p bs :
  Offset p = Z.of_nat (length (Bytes p)) -> overwrite p bs = append p bs.
Proof.
  intros HO. unfold overwrite, append. rewrite HO, Nat2Z.id, firstn_all, drop_ge by lia.
  by rewrite app_nil_r.
Qed.

Lemma pack_spec bs : Packs (pack bs) bs.
Proof.
  split; unfold pack.
  - intros p -> HO Hl. apply Z.leb_le in Hl as ->. done.
  - intros p (-> & HO & _) Hf. case_test; [by rewrite overwrite_nil|by rewrite decide_True].
  - intros p (-> & HO & Hm) Hf. unfold fits in Hf. case_test; [lia|].
    rewrite decide_False by done. eexists. split; [done|]. simpl. eauto.
  - by intros p [e ->].
Qed.

Lemma unpack_spec {A} n (dec : list byte -> A) zero : Unpacks (unpack n dec zero) n dec zero.
Proof.
  split; unfold unpack.
  - intros p [-> _] Hl. apply Nat.leb_le in Hl as ->. done.
  - intros p [-> _] Hl. apply Nat.leb_gt in Hl as ->. eexists. split; [done|]. simpl. eauto.
  - by intros p [e ->].
  - intros p. destruct (PErr p); [done|]. by destruct (_ <=? _)%nat.
Qed.

#[export] Instance spec : PackerSpec.
Proof. split; intros; try apply pack_spec; try apply unpack_spec; done. Qed.

End PackerConcrete.
