(* ===== verification/AtomicTypes.v ===== *)
(** * Atomic transactions: the data

    [plugin/evm/atomic]: the types of [tx.go], [import_tx.go], [export_tx.go] and
    [metadata.go], and the shapes of the [luxfi/utxo] values they carry.

    A Go interface value is an inductive type: the concrete types the code
    dispatches on, and one constructor for everything else. *)

From S2P Require Import Prelude.

Module atomic.

(** ** [luxfi/utxo] values *)

(** [lux.TransferableIn]: [*secp256k1fx.TransferInput] or another type. *)
Inductive TransferableIn :=
| TransferInput (Amt : Z) (SigIndices : list Z)
| OtherIn (Amt : Z).

(** [lux.TransferableOut]: [*secp256k1fx.TransferOutput] or another type. *)
Inductive TransferableOut :=
| TransferOutput (Amt Locktime Threshold : Z) (Addrs : list Address)
| OtherOut (Amt : Z).

(** [verify.Verifiable]: [*secp256k1fx.Credential] or another type. *)
Inductive Verifiable :=
| Credential (Sigs : list (list byte))
| OtherCredential.

(** [lux.TransferableInput]: its [UTXOID] ([TxID], [OutputIndex]), its asset and the
    feature-extension input. *)
Record TransferableInput := mkTransferableInput {
  TI_TxID : ID;
  TI_OutputIndex : Z;
  TI_AssetID : ID;
  TI_In : TransferableIn
}.

Record TransferableOutput := mkTransferableOutput {
  TO_AssetID : ID;
  TO_Out : TransferableOut
}.

(** [lux.UTXO] *)
Record UTXO := mkUTXO {
  UTXO_TxID : ID;
  UTXO_OutputIndex : Z;
  UTXO_AssetID : ID;
  UTXO_Out : TransferableOut
}.

(** [luxatomic.Element] and [luxatomic.Requests] *)
Record Element := mkElement {
  EL_Key : list byte;
  EL_Value : list byte;
  EL_Traits : list (list byte)
}.

Record Requests := mkRequests {
  RemoveRequests : list (list byte);
  PutRequests : list Element
}.

(** The amount of an input or output ([Input().Amount()], [Output().Amount()]). *)
Definition In_Amount (i : TransferableIn) : Z :=
  match i with TransferInput amt _ => amt | OtherIn amt => amt end.
Definition Out_Amount (o : TransferableOut) : Z :=
  match o with TransferOutput amt _ _ _ => amt | OtherOut amt => amt end.

(** ** [metadata.go] *)

Record Metadata := mkMetadata { md_id : ID; md_unsignedBytes : list byte; md_bytes : list byte }.

Definition Metadata_zero : Metadata := mkMetadata ID_Empty [] [].

(** [hash.ComputeHash256Array] is a parameter. *)
Definition Metadata_Initialize (ComputeHash256 : list byte -> ID) (unsignedBytes bytes : list byte)
    : Metadata :=
  {| md_id := ComputeHash256 bytes; md_unsignedBytes := unsignedBytes; md_bytes := bytes |}.

(** ** [tx.go], [import_tx.go], [export_tx.go] *)

Record EVMOutput := mkEVMOutput {
  EO_Address : Address;
  EO_Amount : Z;
  EO_AssetID : ID
}.

Record EVMInput := mkEVMInput {
  EI_Address : Address;
  EI_Amount : Z;
  EI_AssetID : ID;
  EI_Nonce : Z
}.

Record UnsignedImportTx := mkImport {
  IM_Metadata : Metadata;
  IM_NetworkID : Z;
  IM_BlockchainID : ID;
  SourceChain : ID;
  ImportedInputs : list TransferableInput;
  Outs : list EVMOutput
}.

Record UnsignedExportTx := mkExport {
  EX_Metadata : Metadata;
  EX_NetworkID : Z;
  EX_BlockchainID : ID;
  DestinationChain : ID;
  Ins : list EVMInput;
  ExportedOutputs : list TransferableOutput
}.

(** [UnsignedAtomicTx]: the two types that implement it. *)
Inductive UnsignedAtomicTx :=
| ImportTx (utx : UnsignedImportTx)
| ExportTx (utx : UnsignedExportTx).

(** The embedded interface may be [nil]. *)
Record Tx := mkTx { Unsigned : option UnsignedAtomicTx; Creds : list Verifiable }.

Definition set_Metadata (utx : UnsignedAtomicTx) (md : Metadata) : UnsignedAtomicTx :=
  match utx with
  | ImportTx u => ImportTx (mkImport md (IM_NetworkID u) (IM_BlockchainID u) (SourceChain u)
                              (ImportedInputs u) (Outs u))
  | ExportTx u => ExportTx (mkExport md (EX_NetworkID u) (EX_BlockchainID u) (DestinationChain u)
                              (Ins u) (ExportedOutputs u))
  end.

Definition get_Metadata (utx : UnsignedAtomicTx) : Metadata :=
  match utx with
  | ImportTx u => IM_Metadata u
  | ExportTx u => EX_Metadata u
  end.

End atomic.
