(* ===== verification/AtomicCodec.v ===== *)
(** * The wire codec of atomic transactions

    [plugin/evm/atomic/codec.go], in full: [Codec.Marshal], [Codec.Unmarshal] and the
    functions they dispatch to, [ExtractAtomicTxs], and [Tx.initializeBytes] of
    [tx.go]. Every function runs on the packer; the two that cannot return an error in
    Go leave it pending in the packer here too.

    What the codec promises is stated and proved in [AtomicFormat]. *)

From S2P Require Import Prelude Packer AtomicTypes.
Import atomic.

Module codec.

Definition CodecVersion : Z := 0.

Definition typeIDUnsignedImportTx : Z := 0.
Definition typeIDUnsignedExportTx : Z := 1.
Definition typeIDTransferInput : Z := 5.
Definition typeIDTransferOutput : Z := 7.
Definition typeIDSecp256k1Credential : Z := 9.

Definition maxAtomicMessageSize : Z := 1 * 1024 * 1024.

Definition IDLen : nat := 32.
Definition ShortIDLen : nat := 20.
Definition SignatureLen : nat := 65.

Definition ErrNilTx : error := errors_New "atomic.ErrNilTx".
Definition ErrUnknownVersion : error := errors_New "atomic.ErrUnknownVersion".
Definition ErrCantUnpackVersion : error := errors_New "atomic.ErrCantUnpackVersion".
Definition ErrCantPackVersion : error := errors_New "atomic.ErrCantPackVersion".
Definition ErrUnsupportedType : error := errors_New "atomic.ErrUnsupportedType".
Definition ErrUnknownTypeID : error := errors_New "atomic.ErrUnknownTypeID".
Definition ErrMaxSizeExceeded : error := errors_New "atomic.ErrMaxSizeExceeded".
Definition ErrExtraSpace : error := errors_New "atomic.ErrExtraSpace".
Definition ErrMissingAtomicTxs : error := errors_New "atomic.ErrMissingAtomicTxs".

(** The values [Marshal] is given as [interface{}]. *)
Inductive Value :=
| V_Tx (tx : option Tx)
| V_Txs (txs : list (option Tx))
| V_TxsPtr (txs : list (option Tx))
| V_UnsignedAtomicTxPtr (utx : option UnsignedAtomicTx)
| V_UnsignedImportTx (utx : UnsignedImportTx)
| V_UnsignedExportTx (utx : UnsignedExportTx)
| V_UTXO (u : UTXO)
| V_Requests (r : Requests)
| V_other.

(** The destinations [Unmarshal] is given, by their type. *)
Inductive Dest := D_Tx | D_TxsPtr | D_UnsignedImportTx | D_UnsignedExportTx | D_UTXO | D_Requests | D_other.

(** The values whose dynamic type implements [UnsignedAtomicTx], apart from [*Tx]. *)
Definition as_UnsignedAtomicTx (v : Value) : option UnsignedAtomicTx :=
  match v with
  | V_UnsignedImportTx utx => Some (ImportTx utx)
  | V_UnsignedExportTx utx => Some (ExportTx utx)
  | _ => None
  end.

Section Codec.
Context `{PackerLib}.

(** ** Marshalling *)

Definition marshalSecp256k1TransferInput (Amt : Z) (SigIndices : list Z) : StM Packer unit :=
  _ ← PackLong Amt;
  PackSlice PackInt SigIndices.

Definition marshalSecp256k1TransferOutput (Amt Locktime Threshold : Z) (Addrs : list Address)
    : StM Packer unit :=
  _ ← PackLong Amt;
  _ ← PackLong Locktime;
  _ ← PackInt Threshold;
  PackSlice PackFixedBytes Addrs.

Definition marshalTransferableInInterface (i : TransferableIn) : StM Packer unit :=
  match i with
  | TransferInput amt sigs =>
      _ ← PackInt typeIDTransferInput;
      marshalSecp256k1TransferInput amt sigs
  | OtherIn _ => set_Err (errorf_w "TransferableIn" ErrUnsupportedType)
  end.

Definition marshalTransferableOutInterface (o : TransferableOut) : StM Packer unit :=
  match o with
  | TransferOutput amt locktime threshold addrs =>
      _ ← PackInt typeIDTransferOutput;
      marshalSecp256k1TransferOutput amt locktime threshold addrs
  | OtherOut _ => set_Err (errorf_w "TransferableOut" ErrUnsupportedType)
  end.

Definition marshalTransferableInput (i : TransferableInput) : StM Packer unit :=
  _ ← PackFixedBytes (TI_TxID i);
  _ ← PackInt (TI_OutputIndex i);
  _ ← PackFixedBytes (TI_AssetID i);
  marshalTransferableInInterface (TI_In i).

Definition marshalTransferableOutput (o : TransferableOutput) : StM Packer unit :=
  _ ← PackFixedBytes (TO_AssetID o);
  marshalTransferableOutInterface (TO_Out o).

Definition marshalEVMOutput (o : EVMOutput) : StM Packer unit :=
  _ ← PackFixedBytes (EO_Address o);
  _ ← PackLong (EO_Amount o);
  PackFixedBytes (EO_AssetID o).

Definition marshalEVMInput (i : EVMInput) : StM Packer unit :=
  _ ← PackFixedBytes (EI_Address i);
  _ ← PackLong (EI_Amount i);
  _ ← PackFixedBytes (EI_AssetID i);
  PackLong (EI_Nonce i).

Definition marshalUnsignedImportTxBody (utx : UnsignedImportTx) : StM Packer unit :=
  _ ← PackInt (IM_NetworkID utx);
  _ ← PackFixedBytes (IM_BlockchainID utx);
  _ ← PackFixedBytes (SourceChain utx);
  _ ← PackSlice marshalTransferableInput (ImportedInputs utx);
  PackSlice marshalEVMOutput (Outs utx).

Definition marshalUnsignedExportTxBody (utx : UnsignedExportTx) : StM Packer unit :=
  _ ← PackInt (EX_NetworkID utx);
  _ ← PackFixedBytes (EX_BlockchainID utx);
  _ ← PackFixedBytes (DestinationChain utx);
  _ ← PackSlice marshalEVMInput (Ins utx);
  PackSlice marshalTransferableOutput (ExportedOutputs utx).

Definition marshalUnsignedAtomicTxInterface (utx : option UnsignedAtomicTx) : StM Packer unit :=
  match utx with
  | Some (ImportTx v) =>
      _ ← (_ ← PackInt typeIDUnsignedImportTx; marshalUnsignedImportTxBody v);
      check_Err
  | Some (ExportTx v) =>
      _ ← (_ ← PackInt typeIDUnsignedExportTx; marshalUnsignedExportTxBody v);
      check_Err
  | None => lift (Err (errorf_w "UnsignedAtomicTx" ErrUnsupportedType))
  end.

Definition marshalCredentialInterface (cred : Verifiable) : StM Packer unit :=
  match cred with
  | Credential sigs =>
      _ ← (_ ← PackInt typeIDSecp256k1Credential; PackSlice PackFixedBytes sigs);
      check_Err
  | OtherCredential => lift (Err (errorf_w "credential" ErrUnsupportedType))
  end.

Definition marshalTx (tx : option Tx) : StM Packer unit :=
  match tx with
  | Some (mkTx (Some utx) creds) =>
      _ ← (_ ← marshalUnsignedAtomicTxInterface (Some utx);
           PackSlice marshalCredentialInterface creds);
      check_Err
  | _ => lift (Err ErrNilTx)
  end.

Definition marshalTxs (txs : list (option Tx)) : StM Packer unit :=
  _ ← PackSlice marshalTx txs;
  check_Err.

Definition marshalUTXO (u : UTXO) : StM Packer unit :=
  _ ← PackFixedBytes (UTXO_TxID u);
  _ ← PackInt (UTXO_OutputIndex u);
  _ ← PackFixedBytes (UTXO_AssetID u);
  match UTXO_Out u with
  | TransferOutput amt locktime threshold addrs =>
      _ ← PackInt typeIDTransferOutput;
      marshalSecp256k1TransferOutput amt locktime threshold addrs
  | OtherOut _ => set_Err (errorf_w "UTXO.Out" ErrUnsupportedType)
  end.

Definition marshalAtomicElement (el : Element) : StM Packer unit :=
  _ ← PackBytes (EL_Key el);
  _ ← PackBytes (EL_Value el);
  PackSlice PackBytes (EL_Traits el).

Definition marshalRequests (r : Requests) : StM Packer unit :=
  _ ← PackSlice PackBytes (RemoveRequests r);
  PackSlice marshalAtomicElement (PutRequests r).

(** The type switch, its cases tried in the order of the source. *)
Definition marshalValue (source : Value) : StM Packer unit :=
  match source with
  | V_Tx v => marshalTx v
  | V_Txs v => marshalTxs v
  | V_TxsPtr v => marshalTxs v
  | V_UnsignedAtomicTxPtr v => marshalUnsignedAtomicTxInterface v
  | _ =>
      match as_UnsignedAtomicTx source with
      | Some v => marshalUnsignedAtomicTxInterface (Some v)
      | None =>
          match source with
          | V_UnsignedImportTx v => _ ← marshalUnsignedImportTxBody v; check_Err
          | V_UnsignedExportTx v => _ ← marshalUnsignedExportTxBody v; check_Err
          | V_UTXO v => _ ← marshalUTXO v; check_Err
          | V_Requests v => _ ← marshalRequests v; check_Err
          | _ => lift (Err (errorf_w "Marshal" ErrUnsupportedType))
          end
      end
  end.

(** [manager.Marshal], on the manager's size limit. *)
Definition Marshal (maxSize : Z) (version : Z) (source : Value) : result (list byte) :=
  if negb (version =? CodecVersion) then Err ErrCantPackVersion else
  let '(r, p) := (_ ← PackShort version;
                  _ ← check_Err_as ErrCantPackVersion;
                  marshalValue source) (mkPacker [] 0 maxSize None) in
  _ ← r; Ok (Bytes p).

(** ** Unmarshalling *)

Definition unmarshalSecp256k1TransferInput : StM Packer TransferableIn :=
  amt ← UnpackLong;
  sigs ← UnpackSlice UnpackInt;
  _ ← check_Err;
  mret (TransferInput amt sigs).

Definition unmarshalSecp256k1TransferOutput : StM Packer TransferableOut :=
  amt ← UnpackLong;
  locktime ← UnpackLong;
  threshold ← UnpackInt;
  addrs ← UnpackSlice (UnpackArray ShortIDLen);
  _ ← check_Err;
  mret (TransferOutput amt locktime threshold addrs).

Definition unmarshalTransferableInInterface : StM Packer TransferableIn :=
  typeID ← UnpackInt;
  _ ← check_Err;
  if typeID =? typeIDTransferInput then unmarshalSecp256k1TransferInput
  else lift (Err (errorf_w "TransferableIn typeID" ErrUnknownTypeID)).

Definition unmarshalTransferableOutInterface : StM Packer TransferableOut :=
  typeID ← UnpackInt;
  _ ← check_Err;
  if typeID =? typeIDTransferOutput then unmarshalSecp256k1TransferOutput
  else lift (Err (errorf_w "TransferableOut typeID" ErrUnknownTypeID)).

Definition unmarshalTransferableInput : StM Packer TransferableInput :=
  txID ← UnpackArray IDLen;
  outputIndex ← UnpackInt;
  assetID ← UnpackArray IDLen;
  _ ← check_Err;
  inner ← unmarshalTransferableInInterface;
  mret (mkTransferableInput txID outputIndex assetID inner).

Definition unmarshalTransferableOutput : StM Packer TransferableOutput :=
  assetID ← UnpackArray IDLen;
  _ ← check_Err;
  inner ← unmarshalTransferableOutInterface;
  mret (mkTransferableOutput assetID inner).

Definition unmarshalEVMOutput : StM Packer EVMOutput :=
  addr ← UnpackArray 20;
  _ ← check_Err;
  amount ← UnpackLong;
  assetID ← UnpackArray IDLen;
  _ ← check_Err;
  mret (mkEVMOutput addr amount assetID).

Definition unmarshalEVMInput : StM Packer EVMInput :=
  addr ← UnpackArray 20;
  _ ← check_Err;
  amount ← UnpackLong;
  assetID ← UnpackArray IDLen;
  nonce ← UnpackLong;
  _ ← check_Err;
  mret (mkEVMInput addr amount assetID nonce).

Definition unmarshalUnsignedImportTxBody : StM Packer UnsignedImportTx :=
  networkID ← UnpackInt;
  blockchainID ← UnpackArray IDLen;
  sourceChain ← UnpackArray IDLen;
  ins ← UnpackSlice unmarshalTransferableInput;
  outs ← UnpackSlice unmarshalEVMOutput;
  _ ← check_Err;
  mret (mkImport Metadata_zero networkID blockchainID sourceChain ins outs).

Definition unmarshalUnsignedExportTxBody : StM Packer UnsignedExportTx :=
  networkID ← UnpackInt;
  blockchainID ← UnpackArray IDLen;
  destinationChain ← UnpackArray IDLen;
  ins ← UnpackSlice unmarshalEVMInput;
  outs ← UnpackSlice unmarshalTransferableOutput;
  _ ← check_Err;
  mret (mkExport Metadata_zero networkID blockchainID destinationChain ins outs).

Definition unmarshalUnsignedAtomicTxInterface : StM Packer UnsignedAtomicTx :=
  typeID ← UnpackInt;
  _ ← check_Err;
  if typeID =? typeIDUnsignedImportTx then
    utx ← unmarshalUnsignedImportTxBody; mret (ImportTx utx)
  else if typeID =? typeIDUnsignedExportTx then
    utx ← unmarshalUnsignedExportTxBody; mret (ExportTx utx)
  else lift (Err (errorf_w "unsigned-tx type" ErrUnknownTypeID)).

Definition unmarshalCredentialInterface : StM Packer Verifiable :=
  typeID ← UnpackInt;
  _ ← check_Err;
  if typeID =? typeIDSecp256k1Credential then
    sigs ← UnpackSlice (UnpackArray SignatureLen);
    _ ← check_Err;
    mret (Credential sigs)
  else lift (Err (errorf_w "credential typeID" ErrUnknownTypeID)).

Definition unmarshalTx : StM Packer Tx :=
  utx ← unmarshalUnsignedAtomicTxInterface;
  creds ← UnpackSlice unmarshalCredentialInterface;
  _ ← check_Err;
  mret (mkTx (Some utx) creds).

Definition unmarshalTxs : StM Packer (list Tx) := UnpackSlice unmarshalTx.

Definition unmarshalUTXO : StM Packer UTXO :=
  txID ← UnpackArray IDLen;
  outputIndex ← UnpackInt;
  assetID ← UnpackArray IDLen;
  _ ← check_Err;
  typeID ← UnpackInt;
  _ ← check_Err;
  if typeID =? typeIDTransferOutput then
    out ← unmarshalSecp256k1TransferOutput;
    mret (mkUTXO txID outputIndex assetID out)
  else lift (Err (errorf_w "UTXO.Out typeID" ErrUnknownTypeID)).

Definition unmarshalAtomicElement : StM Packer Element :=
  key ← UnpackBytes;
  value ← UnpackBytes;
  traits ← UnpackSlice UnpackBytes;
  _ ← check_Err;
  mret (mkElement key value traits).

Definition unmarshalRequests : StM Packer Requests :=
  removes ← UnpackSlice UnpackBytes;
  puts ← UnpackSlice unmarshalAtomicElement;
  _ ← check_Err;
  mret (mkRequests removes puts).

Definition unmarshalValue (dest : Dest) : StM Packer Value :=
  match dest with
  | D_Tx => tx ← unmarshalTx; mret (V_Tx (Some tx))
  | D_TxsPtr => txs ← unmarshalTxs; mret (V_TxsPtr (Some <$> txs))
  | D_UnsignedImportTx => utx ← unmarshalUnsignedImportTxBody; mret (V_UnsignedImportTx utx)
  | D_UnsignedExportTx => utx ← unmarshalUnsignedExportTxBody; mret (V_UnsignedExportTx utx)
  | D_UTXO => u ← unmarshalUTXO; mret (V_UTXO u)
  | D_Requests => r ← unmarshalRequests; mret (V_Requests r)
  | D_other => lift (Err (errorf_w "Unmarshal" ErrUnsupportedType))
  end.

(** [if p.Offset != len(bytes) { return version, ErrExtraSpace }; return version, nil] *)
Definition check_end (len version : Z) (v : Value) : StM Packer (Z * Value) := fun p =>
  if negb (Offset p =? len) then (Err ErrExtraSpace, p) else (Ok (version, v), p).

(** [manager.Unmarshal], the destination a fresh zero value. *)
Definition Unmarshal (maxSize : Z) (bytes : list byte) (dest : Dest) : result (Z * Value) :=
  let len := Z.of_nat (length bytes) in
  if len <? 2 then Err ErrCantUnpackVersion else
  if maxSize <? len then Err ErrMaxSizeExceeded else
  fst ((version ← UnpackShort;
        _ ← check_Err_as ErrCantUnpackVersion;
        if negb (version =? CodecVersion) then lift (Err (errorf_w "version" ErrUnknownVersion)) else
        v ← unmarshalValue dest;
        check_end len version v)
       (mkPacker bytes 0 maxSize None)).

(** ** Extracting the transactions of a block *)

(** The package singleton [Codec]. *)
Definition Codec_Marshal : Z -> Value -> result (list byte) := Marshal maxAtomicMessageSize.
Definition Codec_Unmarshal : list byte -> Dest -> result (Z * Value) :=
  Unmarshal maxAtomicMessageSize.

Section Extract.
Context (ComputeHash256 : list byte -> ID).

(** [Tx.initializeBytes]; [Initialize] on a nil [UnsignedAtomicTx] is a nil
    dereference. *)
Definition initializeBytes (tx : Tx) : result Tx :=
  unsignedBytes ← wrap_err "couldn't marshal UnsignedAtomicTx"
                    (Codec_Marshal CodecVersion (V_UnsignedAtomicTxPtr (Unsigned tx)));
  signedBytes ← wrap_err "couldn't marshal Tx" (Codec_Marshal CodecVersion (V_Tx (Some tx)));
  match Unsigned tx with
  | None => Panic
  | Some utx =>
      Ok (mkTx (Some (set_Metadata utx (Metadata_Initialize ComputeHash256 unsignedBytes signedBytes)))
               (Creds tx))
  end.

Definition ExtractAtomicTx (atomicTxBytes : list byte) : result Tx :=
  r ← wrap_err "failed to unmarshal atomic transaction" (Codec_Unmarshal atomicTxBytes D_Tx);
  match snd r with
  | V_Tx (Some tx) => wrap_err "failed to initialize singleton atomic tx" (initializeBytes tx)
  | _ => Panic
  end.

Fixpoint initializeAll (txs : list (option Tx)) : result (list Tx) :=
  match txs with
  | [] => Ok []
  | None :: _ => Panic
  | Some tx :: txs' =>
      tx' ← wrap_err "failed to initialize atomic tx" (initializeBytes tx);
      rest ← initializeAll txs';
      Ok (tx' :: rest)
  end.

Definition ExtractAtomicTxsBatch (atomicTxBytes : list byte) : result (list Tx) :=
  r ← wrap_err "failed to unmarshal atomic tx batch" (Codec_Unmarshal atomicTxBytes D_TxsPtr);
  match snd r with
  | V_TxsPtr txs =>
      if (length txs =? 0)%nat then Err ErrMissingAtomicTxs else initializeAll txs
  | _ => Panic
  end.

Definition ExtractAtomicTxs (atomicTxBytes : list byte) (batch : bool) : result (list Tx) :=
  if (length atomicTxBytes =? 0)%nat then Ok [] else
  if negb batch then
    tx ← ExtractAtomicTx atomicTxBytes; Ok [tx]
  else ExtractAtomicTxsBatch atomicTxBytes.

End Extract.

End Codec.

End codec.
