(* ===== verification/AtomicFormat.v ===== *)
(** * The wire format of atomic transactions, and what the codec promises of it

    The format itself, as functions [enc_*] from values to bytes; the proofs that
    [Marshal] emits exactly this format and [Unmarshal] accepts exactly it; and the
    round trips and the extraction of a block's transactions as their corollaries. *)

From S2P Require Import Prelude Packer AtomicTypes AtomicCodec.
Import atomic codec.

Module wire.

(** ** The wire format *)

Definition enc_TransferableIn (i : TransferableIn) : option (list byte) :=
  match i with
  | TransferInput amt sigs =>
      oapp (enc_u32 typeIDTransferInput) (oapp (enc_u64 amt) (enc_slice enc_u32 sigs))
  | OtherIn _ => None
  end.

Definition enc_TransferableOut (o : TransferableOut) : option (list byte) :=
  match o with
  | TransferOutput amt locktime threshold addrs =>
      oapp (enc_u32 typeIDTransferOutput)
        (oapp (enc_u64 amt) (oapp (enc_u64 locktime) (oapp (enc_u32 threshold)
          (enc_slice enc_array addrs))))
  | OtherOut _ => None
  end.

Definition enc_TransferableInput (i : TransferableInput) : option (list byte) :=
  oapp (enc_array (TI_TxID i)) (oapp (enc_u32 (TI_OutputIndex i)) (oapp (enc_array (TI_AssetID i))
    (enc_TransferableIn (TI_In i)))).

Definition enc_TransferableOutput (o : TransferableOutput) : option (list byte) :=
  oapp (enc_array (TO_AssetID o)) (enc_TransferableOut (TO_Out o)).

Definition enc_EVMOutput (o : EVMOutput) : option (list byte) :=
  oapp (enc_array (EO_Address o)) (oapp (enc_u64 (EO_Amount o)) (enc_array (EO_AssetID o))).

Definition enc_EVMInput (i : EVMInput) : option (list byte) :=
  oapp (enc_array (EI_Address i)) (oapp (enc_u64 (EI_Amount i)) (oapp (enc_array (EI_AssetID i))
    (enc_u64 (EI_Nonce i)))).

Definition enc_Import (utx : UnsignedImportTx) : option (list byte) :=
  oapp (enc_u32 (IM_NetworkID utx)) (oapp (enc_array (IM_BlockchainID utx))
    (oapp (enc_array (SourceChain utx)) (oapp (enc_slice enc_TransferableInput (ImportedInputs utx))
      (enc_slice enc_EVMOutput (Outs utx))))).

Definition enc_Export (utx : UnsignedExportTx) : option (list byte) :=
  oapp (enc_u32 (EX_NetworkID utx)) (oapp (enc_array (EX_BlockchainID utx))
    (oapp (enc_array (DestinationChain utx)) (oapp (enc_slice enc_EVMInput (Ins utx))
      (enc_slice enc_TransferableOutput (ExportedOutputs utx))))).

Definition enc_Unsigned (utx : UnsignedAtomicTx) : option (list byte) :=
  match utx with
  | ImportTx u => oapp (enc_u32 typeIDUnsignedImportTx) (enc_Import u)
  | ExportTx u => oapp (enc_u32 typeIDUnsignedExportTx) (enc_Export u)
  end.

Definition enc_Credential (c : Verifiable) : option (list byte) :=
  match c with
  | Credential sigs => oapp (enc_u32 typeIDSecp256k1Credential) (enc_slice enc_array sigs)
  | OtherCredential => None
  end.

Definition enc_Tx (tx : Tx) : option (list byte) :=
  utx ← Unsigned tx; oapp (enc_Unsigned utx) (enc_slice enc_Credential (Creds tx)).

Definition enc_UTXO (u : UTXO) : option (list byte) :=
  oapp (enc_array (UTXO_TxID u)) (oapp (enc_u32 (UTXO_OutputIndex u)) (oapp (enc_array (UTXO_AssetID u))
    (enc_TransferableOut (UTXO_Out u)))).

Definition enc_Element (el : Element) : option (list byte) :=
  oapp (enc_bytes (EL_Key el)) (oapp (enc_bytes (EL_Value el)) (enc_slice enc_bytes (EL_Traits el))).

Definition enc_Requests (r : Requests) : option (list byte) :=
  oapp (enc_slice enc_bytes (RemoveRequests r)) (enc_slice enc_Element (PutRequests r)).

(** The body of a value as [Marshal] writes it: a concrete unsigned transaction is
    written with its type ID, as the interface value it also is. *)
Definition enc_Value (v : Value) : option (list byte) :=
  match v with
  | V_Tx tx => tx ≫= enc_Tx
  | V_Txs txs | V_TxsPtr txs => enc_slice (fun tx => tx ≫= enc_Tx) txs
  | V_UnsignedAtomicTxPtr utx => utx ≫= enc_Unsigned
  | V_UnsignedImportTx utx => enc_Unsigned (ImportTx utx)
  | V_UnsignedExportTx utx => enc_Unsigned (ExportTx utx)
  | V_UTXO u => enc_UTXO u
  | V_Requests r => enc_Requests r
  | V_other => None
  end.

(** ** [Marshal] emits the wire format *)

Section MarshalSpec.
Context `{PackerSpec}.

Ltac writes_step :=
  first [ apply writes_Slice; intros | apply writes_checked | apply writes_seq
        | progress eauto with packer nocore ].

Lemma marshalTransferableInInterface_writes i :
  writes (marshalTransferableInInterface i) (enc_TransferableIn i).
Proof. destruct i; repeat writes_step. Qed.

Lemma marshalTransferableOutInterface_writes o :
  writes (marshalTransferableOutInterface o) (enc_TransferableOut o).
Proof. destruct o; repeat writes_step. Qed.

#[local] Hint Resolve marshalTransferableInInterface_writes
  marshalTransferableOutInterface_writes : packer.

Lemma marshalTransferableInput_writes i :
  writes (marshalTransferableInput i) (enc_TransferableInput i).
Proof. repeat writes_step. Qed.

Lemma marshalTransferableOutput_writes o :
  writes (marshalTransferableOutput o) (enc_TransferableOutput o).
Proof. repeat writes_step. Qed.

Lemma marshalEVMOutput_writes o : writes (marshalEVMOutput o) (enc_EVMOutput o).
Proof. repeat writes_step. Qed.

Lemma marshalEVMInput_writes i : writes (marshalEVMInput i) (enc_EVMInput i).
Proof. repeat writes_step. Qed.

#[local] Hint Resolve marshalTransferableInput_writes marshalTransferableOutput_writes
  marshalEVMOutput_writes marshalEVMInput_writes : packer.

Lemma marshalUnsignedAtomicTxInterface_writes utx :
  writes (marshalUnsignedAtomicTxInterface utx) (utx ≫= enc_Unsigned).
Proof. destruct utx as [[]|]; repeat writes_step. Qed.

Lemma marshalCredentialInterface_writes c :
  writes (marshalCredentialInterface c) (enc_Credential c).
Proof. destruct c; repeat writes_step. Qed.

#[local] Hint Resolve marshalCredentialInterface_writes : packer.

Lemma marshalTx_writes tx : writes (marshalTx tx) (tx ≫= enc_Tx).
Proof.
  destruct tx as [[[utx|] creds]|]; repeat writes_step.
  exact (marshalUnsignedAtomicTxInterface_writes (Some utx)).
Qed.

Lemma marshalAtomicElement_writes el : writes (marshalAtomicElement el) (enc_Element el).
Proof. repeat writes_step. Qed.

#[local] Hint Resolve marshalTx_writes marshalAtomicElement_writes
  marshalUnsignedAtomicTxInterface_writes : packer.

Lemma marshalUTXO_writes u : writes (marshalUTXO u) (enc_UTXO u).
Proof.
  unfold marshalUTXO, enc_UTXO. do 3 (apply writes_seq; [repeat writes_step|]).
  destruct (UTXO_Out u); repeat writes_step.
Qed.

Lemma marshalValue_writes v : writes (marshalValue v) (enc_Value v).
Proof.
  destruct v; try solve [repeat writes_step]. 
  - apply writes_checked, marshalUTXO_writes.
  - apply writes_fail.
Qed.

End MarshalSpec.

(** ** [Unmarshal] accepts the wire format *)

(** Values of the Go types: integers in range, arrays of their size, slices that a
    [uint32] can count; and, for transactions, the metadata not set yet. *)
Definition valid_TransferableIn (i : TransferableIn) : Prop :=
  match i with
  | TransferInput amt sigs => is_u64 amt /\ valid_slice is_u32 sigs
  | OtherIn _ => False
  end.

Definition valid_TransferableOut (o : TransferableOut) : Prop :=
  match o with
  | TransferOutput amt locktime threshold addrs =>
      is_u64 amt /\ is_u64 locktime /\ is_u32 threshold /\ valid_slice (has_len ShortIDLen) addrs
  | OtherOut _ => False
  end.

Definition valid_TransferableInput (i : TransferableInput) : Prop :=
  has_len IDLen (TI_TxID i) /\ is_u32 (TI_OutputIndex i) /\ has_len IDLen (TI_AssetID i) /\
  valid_TransferableIn (TI_In i).

Definition valid_TransferableOutput (o : TransferableOutput) : Prop :=
  has_len IDLen (TO_AssetID o) /\ valid_TransferableOut (TO_Out o).

Definition valid_EVMOutput (o : EVMOutput) : Prop :=
  has_len 20 (EO_Address o) /\ is_u64 (EO_Amount o) /\ has_len IDLen (EO_AssetID o).

Definition valid_EVMInput (i : EVMInput) : Prop :=
  has_len 20 (EI_Address i) /\ is_u64 (EI_Amount i) /\ has_len IDLen (EI_AssetID i) /\
  is_u64 (EI_Nonce i).

Definition valid_Import (u : UnsignedImportTx) : Prop :=
  is_u32 (IM_NetworkID u) /\ has_len IDLen (IM_BlockchainID u) /\ has_len IDLen (SourceChain u) /\
  valid_slice valid_TransferableInput (ImportedInputs u) /\ valid_slice valid_EVMOutput (Outs u).

Definition valid_Export (u : UnsignedExportTx) : Prop :=
  is_u32 (EX_NetworkID u) /\ has_len IDLen (EX_BlockchainID u) /\
  has_len IDLen (DestinationChain u) /\
  valid_slice valid_EVMInput (Ins u) /\
  valid_slice valid_TransferableOutput (ExportedOutputs u).

Definition valid_Unsigned (utx : UnsignedAtomicTx) : Prop :=
  match utx with
  | ImportTx u => valid_Import u
  | ExportTx u => valid_Export u
  end.

Definition valid_Credential (c : Verifiable) : Prop :=
  match c with
  | Credential sigs => valid_slice (has_len SignatureLen) sigs
  | OtherCredential => False
  end.

Definition valid_Tx (tx : Tx) : Prop :=
  match Unsigned tx with
  | Some utx => valid_Unsigned utx /\ valid_slice valid_Credential (Creds tx)
  | None => False
  end.

Definition valid_UTXO (u : UTXO) : Prop :=
  has_len IDLen (UTXO_TxID u) /\ is_u32 (UTXO_OutputIndex u) /\ has_len IDLen (UTXO_AssetID u) /\
  valid_TransferableOut (UTXO_Out u).

Definition valid_Element (el : Element) : Prop :=
  len_u32 (EL_Key el) /\ len_u32 (EL_Value el) /\ valid_slice len_u32 (EL_Traits el).

Definition valid_Requests (r : Requests) : Prop :=
  valid_slice len_u32 (RemoveRequests r) /\ valid_slice valid_Element (PutRequests r).

(** The metadata is not on the wire: an unmarshalled transaction has none. *)
Definition fresh_Unsigned (utx : UnsignedAtomicTx) : Prop := get_Metadata utx = Metadata_zero.
Definition fresh_Tx (tx : Tx) : Prop :=
  match Unsigned tx with Some utx => fresh_Unsigned utx | None => False end.

Section UnmarshalSpec.
Context `{PackerSpec}.

(** Reads the next field of a record, into the projection [π]. *)
Ltac field π := eapply (parses_field _ _ π); [solve [eauto with packer nocore]|intros ?];
  try apply parses_check_seq.
Ltac struct Q := eapply (parses_struct _ Q).

Lemma parse_TransferInput :
  parses unmarshalSecp256k1TransferInput
    (encoded valid_TransferableIn (fun i =>
       match i with
       | TransferInput amt sigs => oapp (enc_u64 amt) (enc_slice enc_u32 sigs)
       | OtherIn _ => None end)).
Proof.
  struct (fun i => exists amt sigs, i = TransferInput amt sigs).
  - field In_Amount. field (fun i => match i with TransferInput _ s => s | _ => [] end).
    apply parses_done. intros []; naive_solver.
  - intros ? (? & ? & ->). simpl. rewrite oapp_nil_r. tauto.
  - intros [] Hv; [eauto|done].
Qed.

Lemma parse_TransferOutput :
  parses unmarshalSecp256k1TransferOutput
    (encoded valid_TransferableOut (fun o =>
       match o with
       | TransferOutput amt locktime threshold addrs =>
           oapp (enc_u64 amt) (oapp (enc_u64 locktime) (oapp (enc_u32 threshold)
             (enc_slice enc_array addrs)))
       | OtherOut _ => None end)).
Proof.
  struct (fun o => exists amt l t addrs, o = TransferOutput amt l t addrs).
  - field Out_Amount. field (fun o => match o with TransferOutput _ l _ _ => l | _ => 0 end).
    field (fun o => match o with TransferOutput _ _ t _ => t | _ => 0 end).
    field (fun o => match o with TransferOutput _ _ _ a => a | _ => [] end).
    apply parses_done. intros []; naive_solver.
  - intros ? (? & ? & ? & ? & ->). cbv beta iota. rewrite oapp_nil_r. simpl. tauto.
  - intros [] Hv; [eauto|done].
Qed.

Lemma parse_TransferableIn :
  parses unmarshalTransferableInInterface (encoded valid_TransferableIn enc_TransferableIn).
Proof.
  eapply parses_iff.
  - apply parses_Tag1; [closed_u64|apply parse_TransferInput].
  - intros [] bs; [done|]. unfold encoded. simpl. tauto.
Qed.

Lemma parse_TransferableOut :
  parses unmarshalTransferableOutInterface (encoded valid_TransferableOut enc_TransferableOut).
Proof.
  eapply parses_iff.
  - apply parses_Tag1; [closed_u64|apply parse_TransferOutput].
  - intros [] bs; [done|]. unfold encoded. simpl. tauto.
Qed.

#[local] Hint Resolve parse_TransferableIn parse_TransferableOut : packer.

Lemma parse_TransferableInput :
  parses unmarshalTransferableInput (encoded valid_TransferableInput enc_TransferableInput).
Proof.
  struct (fun _ : TransferableInput => True).
  - field TI_TxID. field TI_OutputIndex. field TI_AssetID. field TI_In.
    apply parses_done. intros []; naive_solver.
  - intros b Hb. cbv beta. rewrite oapp_nil_r. unfold valid_TransferableInput. tauto.
  - done.
Qed.

Lemma parse_TransferableOutput :
  parses unmarshalTransferableOutput (encoded valid_TransferableOutput enc_TransferableOutput).
Proof.
  struct (fun _ : TransferableOutput => True).
  - field TO_AssetID. field TO_Out. apply parses_done. intros []; naive_solver.
  - intros b Hb. cbv beta. rewrite oapp_nil_r. unfold valid_TransferableOutput. tauto.
  - done.
Qed.

Lemma parse_EVMOutput : parses unmarshalEVMOutput (encoded valid_EVMOutput enc_EVMOutput).
Proof.
  struct (fun _ : EVMOutput => True).
  - field EO_Address. field EO_Amount. field EO_AssetID. apply parses_done. intros []; naive_solver.
  - intros b Hb. cbv beta. rewrite oapp_nil_r. unfold valid_EVMOutput. tauto.
  - done.
Qed.

Lemma parse_EVMInput : parses unmarshalEVMInput (encoded valid_EVMInput enc_EVMInput).
Proof.
  struct (fun _ : EVMInput => True).
  - field EI_Address. field EI_Amount. field EI_AssetID. field EI_Nonce.
    apply parses_done. intros []; naive_solver.
  - intros b Hb. cbv beta. rewrite oapp_nil_r. unfold valid_EVMInput. tauto.
  - done.
Qed.

#[local] Hint Resolve parse_TransferableInput parse_TransferableOutput parse_EVMOutput
  parse_EVMInput : packer.

Lemma parse_Import :
  parses unmarshalUnsignedImportTxBody
    (encoded (fun u => IM_Metadata u = Metadata_zero /\ valid_Import u) enc_Import).
Proof.
  struct (fun u => IM_Metadata u = Metadata_zero).
  - field IM_NetworkID. field IM_BlockchainID. field SourceChain. field ImportedInputs. field Outs.
    apply parses_done. intros []; naive_solver.
  - intros b Hb. cbv beta. rewrite oapp_nil_r. unfold valid_Import. tauto.
  - tauto.
Qed.

Lemma parse_Export :
  parses unmarshalUnsignedExportTxBody
    (encoded (fun u => EX_Metadata u = Metadata_zero /\ valid_Export u) enc_Export).
Proof.
  struct (fun u => EX_Metadata u = Metadata_zero).
  - field EX_NetworkID. field EX_BlockchainID. field DestinationChain. field Ins.
    field ExportedOutputs. apply parses_done. intros []; naive_solver.
  - intros b Hb. cbv beta. rewrite oapp_nil_r. unfold valid_Export. tauto.
  - tauto.
Qed.

Lemma parse_Unsigned :
  parses unmarshalUnsignedAtomicTxInterface
    (encoded (fun u => fresh_Unsigned u /\ valid_Unsigned u) enc_Unsigned).
Proof.
  eapply parses_iff.
  - apply (parses_Tag _ (fun t b bs =>
      (t = typeIDUnsignedImportTx /\ exists u, b = ImportTx u /\
         encoded (fun u => IM_Metadata u = Metadata_zero /\ valid_Import u) enc_Import u bs) \/
      (t = typeIDUnsignedExportTx /\ exists u, b = ExportTx u /\
         encoded (fun u => EX_Metadata u = Metadata_zero /\ valid_Export u) enc_Export u bs))).
    intros t. destruct (Z.eqb_spec t typeIDUnsignedImportTx) as [->|Hi].
    + eapply parses_iff; [apply parses_map, parse_Import|]. naive_solver.
    + destruct (Z.eqb_spec t typeIDUnsignedExportTx) as [->|He].
      * eapply parses_iff; [apply parses_map, parse_Export|]. naive_solver.
      * eapply parses_iff; [apply parses_fail|]. naive_solver.
  - unfold encoded. intros b bs. split.
    + intros (t & bs' & _ & -> & [(-> & u & -> & Hv & He)|(-> & u & -> & Hv & He)]);
        (split; [exact Hv|]); cbn [enc_Unsigned]; by rewrite He.
    + destruct b as [u|u]; intros [Hv He];
        apply oapp_Some in He as (b1 & b2 & [= <-] & He & ->).
      * exists typeIDUnsignedImportTx, b2. split_and!; [closed_u64|done|naive_solver].
      * exists typeIDUnsignedExportTx, b2. split_and!; [closed_u64|done|naive_solver].
Qed.

Lemma parse_Credential :
  parses unmarshalCredentialInterface (encoded valid_Credential enc_Credential).
Proof.
  eapply parses_iff.
  - apply parses_Tag1; [closed_u64|].
    struct (fun c => exists sigs, c = Credential sigs);
      [field (fun c => match c with Credential s => s | _ => [] end)| |].
    + apply parses_done. intros []; naive_solver.
    + intros b Hb. cbv beta. rewrite oapp_nil_r. split; [|reflexivity].
      instantiate (1 := valid_Credential). destruct Hb as [? ->]. simpl. tauto.
    + intros []; [eauto|done].
  - intros [] bs; [done|]. unfold encoded. simpl. tauto.
Qed.

#[local] Hint Resolve parse_Unsigned parse_Credential : packer.

Lemma parse_Tx : parses unmarshalTx (encoded (fun tx => fresh_Tx tx /\ valid_Tx tx) enc_Tx).
Proof.
  struct (fun tx => exists utx creds, tx = mkTx (Some utx) creds).
  - field (fun tx => default (ImportTx (mkImport Metadata_zero 0 [] [] [] [])) (Unsigned tx)). field Creds.
    apply parses_done. intros [[]]; naive_solver.
  - intros ? (? & ? & ->). cbv beta. rewrite oapp_nil_r. unfold fresh_Tx, valid_Tx. simpl. tauto.
  - intros [[]]; unfold valid_Tx; simpl; [eauto|tauto].
Qed.

#[local] Hint Resolve parse_Tx : packer.

Lemma parse_UTXO : parses unmarshalUTXO (encoded valid_UTXO enc_UTXO).
Proof.
  struct (fun _ : UTXO => True).
  - field UTXO_TxID. field UTXO_OutputIndex. field UTXO_AssetID. apply parses_Tag1_seq.
    eapply (parses_field _ _ UTXO_Out); [|intros ?; apply parses_done; intros []; naive_solver].
    eapply parses_iff; [apply parses_Tag1; [closed_u64|apply parse_TransferOutput]|].
    instantiate (1 := enc_TransferableOut).
    intros [] bs; [done|]. unfold encoded. simpl. tauto.
  - intros b Hb. cbv beta. rewrite oapp_nil_r. unfold valid_UTXO. tauto.
  - done.
Qed.

Lemma parse_Element : parses unmarshalAtomicElement (encoded valid_Element enc_Element).
Proof.
  struct (fun _ : Element => True).
  - field EL_Key. field EL_Value. field EL_Traits. apply parses_done. intros []; naive_solver.
  - intros b Hb. cbv beta. rewrite oapp_nil_r. unfold valid_Element. tauto.
  - done.
Qed.

#[local] Hint Resolve parse_Element : packer.

Lemma parse_Requests : parses unmarshalRequests (encoded valid_Requests enc_Requests).
Proof.
  struct (fun _ : Requests => True).
  - field RemoveRequests. field PutRequests. apply parses_done. intros []; naive_solver.
  - intros b Hb. cbv beta. rewrite oapp_nil_r. unfold valid_Requests. tauto.
  - done.
Qed.

End UnmarshalSpec.

(** ** The codec's contract *)

(** The versioned message with a given body. *)
Definition message (body : list byte) : list byte := be_encode 2 CodecVersion ++ body.

(** What [Unmarshal] into [d] accepts: a concrete unsigned transaction is read without
    a type ID. *)
Definition body_of (d : Dest) (v : Value) (body : list byte) : Prop :=
  match d, v with
  | D_Tx, V_Tx (Some tx) => encoded (fun tx => fresh_Tx tx /\ valid_Tx tx) enc_Tx tx body
  | D_TxsPtr, V_TxsPtr txs =>
      exists ts, txs = Some <$> ts /\
        encoded (valid_slice (fun tx => fresh_Tx tx /\ valid_Tx tx)) (enc_slice enc_Tx) ts body
  | D_UnsignedImportTx, V_UnsignedImportTx u =>
      encoded (fun u => IM_Metadata u = Metadata_zero /\ valid_Import u) enc_Import u body
  | D_UnsignedExportTx, V_UnsignedExportTx u =>
      encoded (fun u => EX_Metadata u = Metadata_zero /\ valid_Export u) enc_Export u body
  | D_UTXO, V_UTXO u => encoded valid_UTXO enc_UTXO u body
  | D_Requests, V_Requests r => encoded valid_Requests enc_Requests r body
  | _, _ => False
  end.

Section Contract.
Context `{PackerSpec}.

#[local] Hint Resolve parse_Tx parse_UTXO parse_Requests parse_Import parse_Export : packer.

Lemma parse_Value d : parses (unmarshalValue d) (body_of d).
Proof.
  destruct d; simpl;
    (eapply parses_iff; [first [apply parses_map; eauto with packer nocore | apply parses_fail]|]);
    intros v body; try (destruct v as [[]| | | | | | | |]; naive_solver).
Qed.

Lemma clean_Tx : clean unmarshalTx.
Proof. unfold unmarshalTx. eauto 10 with packer nocore. Qed.

Lemma clean_Import : clean unmarshalUnsignedImportTxBody.
Proof. unfold unmarshalUnsignedImportTxBody. eauto 10 with packer nocore. Qed.

Lemma clean_Export : clean unmarshalUnsignedExportTxBody.
Proof. unfold unmarshalUnsignedExportTxBody. eauto 10 with packer nocore. Qed.

Lemma clean_TransferOutput : clean unmarshalSecp256k1TransferOutput.
Proof. unfold unmarshalSecp256k1TransferOutput. eauto 10 with packer nocore. Qed.

Lemma clean_UTXO : clean unmarshalUTXO.
Proof.
  unfold unmarshalUTXO. do 6 (apply clean_bind; intros ?).
  case_test; [apply clean_map, clean_TransferOutput|apply clean_fail].
Qed.

Lemma clean_Requests : clean unmarshalRequests.
Proof. unfold unmarshalRequests. eauto 10 with packer nocore. Qed.

Lemma clean_Value d : clean (unmarshalValue d).
Proof.
  destruct d; simpl; try apply clean_map; try apply clean_fail.
  - apply clean_Tx.
  - apply clean_bind. intros n. apply clean_readN, clean_Tx.
  - apply clean_Import.
  - apply clean_Export.
  - apply clean_UTXO.
  - apply clean_Requests.
Qed.

Lemma clean_marshalValue v : clean (marshalValue v).
Proof.
  assert (forall u, clean (marshalUnsignedAtomicTxInterface u)) as Hu
    by (intros [[]|]; simpl; eauto with packer nocore).
  destruct v; simpl; eauto with packer nocore.
  destruct tx as [[[]]|]; simpl; eauto with packer nocore.
Qed.

(** [Marshal] succeeds exactly on values of the wire format that fit the limit. *)
Lemma Marshal_Ok max v bs : 2 <= max ->
  Marshal max CodecVersion v = Ok bs <->
  exists body, enc_Value v = Some body /\ bs = message body /\ Z.of_nat (length bs) <= max.
Proof.
  intros Hmax. set (p0 := mkPacker [] 0 max None).
  set (p1 := append p0 (be_encode 2 CodecVersion)).
  assert (ready p0) as R0 by (split_and!; [done|done|simpl; lia]).
  assert (fits p0 (be_encode 2 CodecVersion)) as F0 by (unfold fits; simpl; lia).
  assert (ready p1) as R1 by by apply ready_append.
  assert (Marshal max CodecVersion v = let '(r, p) := marshalValue v p1 in _ ← r; Ok (Bytes p)) as ->.
  { unfold Marshal. cbn [negb Z.eqb CodecVersion].
    by rewrite (bindM_step _ _ _ _ _ (Packs_fits _ _ (PackShort_spec _) p0 R0 F0)). }
  destruct (marshalValue_writes v) as [Hf Ho _].
  assert (forall body, fits p1 body <-> Z.of_nat (length (message body)) <= max) as Hfits.
  { intros body. unfold fits, message. change (Bytes p1) with (be_encode 2 CodecVersion).
    change (MaxSize p1) with max. rewrite length_app. lia. }
  split.
  - intros Hr. destruct (marshalValue v p1) as [[[]| |] p] eqn:E; try discriminate Hr.
    injection Hr as <-. pose proof (clean_marshalValue v _ _ _ E) as Hp.
    destruct (enc_Value v) as [body|] eqn:Ev; [destruct (decide (fits p1 body)) as [Hb|Hb]|].
    + rewrite (Hf p1 body) in E by done. injection E as <-. exists body.
      split_and!; [done|done|by apply Hfits].
    + exfalso. assert (failed (marshalValue v p1)) as Hx by (apply Ho; [done|by intros ? [= <-]]).
      by apply (failed_not_ok _ _ _ Hx E).
    + exfalso. assert (failed (marshalValue v p1)) as Hx by by apply Ho.
      by apply (failed_not_ok _ _ _ Hx E).
  - intros (body & Hv & -> & Hl). rewrite (Hf p1 body); [done|done|done|by apply Hfits].
Qed.

Lemma message_inv bytes :
  2 <= Z.of_nat (length bytes) -> be_decode (take 2 bytes) = CodecVersion ->
  bytes = message (drop 2 bytes).
Proof.
  intros Hl Hv. unfold message. rewrite <- Hv, be_encode_decode'; [by rewrite take_drop|].
  rewrite length_take. lia.
Qed.

Lemma message_parts body :
  length (message body) = (2 + length body)%nat /\
  take 2 (message body) = be_encode 2 CodecVersion /\ drop 2 (message body) = body.
Proof.
  unfold message. rewrite length_app, length_be_encode.
  split_and!; [done|by rewrite take_app_length'|by rewrite drop_app_length'].
Qed.

(** [Unmarshal] on a message of an acceptable size. *)
Lemma Unmarshal_eq max bytes d :
  let len := Z.of_nat (length bytes) in
  let version := be_decode (take 2 bytes) in
  2 <= len <= max ->
  Unmarshal max bytes d =
  if version =? CodecVersion
  then fst ((w ← unmarshalValue d; check_end len version w) (mkPacker bytes 2 max None))
  else Err (errorf_w "version" ErrUnknownVersion).
Proof.
  intros len version Hl. unfold Unmarshal. fold len.
  destruct (Z.ltb_spec len 2); [lia|]. destruct (Z.ltb_spec max len); [lia|].
  assert (UnpackShort (mkPacker bytes 0 max None) = (Ok version, mkPacker bytes 2 max None)) as Hv.
  { apply (Unpacks_enough _ _ _ _ UnpackShort_spec).
    - split; [done|simpl; lia].
    - change (2 <= length bytes)%nat. unfold len in Hl. lia. }
  rewrite (bindM_step _ _ _ _ _ Hv). by destruct (version =? CodecVersion).
Qed.

Lemma Unmarshal_small max bytes d r :
  Unmarshal max bytes d = Ok r -> 2 <= Z.of_nat (length bytes) <= max.
Proof.
  unfold Unmarshal. destruct (Z.ltb_spec (Z.of_nat (length bytes)) 2); [done|].
  by destruct (Z.ltb_spec max (Z.of_nat (length bytes))).
Qed.

Lemma Unmarshal_Ok max bytes d version v :
  Unmarshal max bytes d = Ok (version, v) <->
  version = CodecVersion /\ Z.of_nat (length bytes) <= max /\
  exists body, bytes = message body /\ body_of d v body.
Proof.
  set (p1 := mkPacker bytes 2 max None). set (len := Z.of_nat (length bytes)).
  assert (readable p1) as R1 by (split; simpl; [done|lia]).
  assert (remaining p1 = drop 2 bytes) as E1 by done.
  destruct (parse_Value d) as [C S _ _]. split.
  - intros HU. pose proof (Unmarshal_small _ _ _ _ HU) as Hl.
    rewrite Unmarshal_eq in HU by done.
    destruct (Z.eqb_spec (be_decode (take 2 bytes)) CodecVersion) as [Hver|]; [|done].
    apply bindM_Ok in HU as (w & HU & Hend). fold p1 in HU, Hend.
    destruct (unmarshalValue d p1) as [[w'| |] p2] eqn:E; try discriminate HU.
    injection HU as ->. unfold check_end in Hend. simpl in Hend. fold len in Hend. destruct (Z.eqb_spec (Offset p2) len) as [Ho|]; [|done].
    injection Hend as <- <-.
    destruct (S p1 w p2 R1 E (clean_Value d _ _ _ E)) as (body & Hb & Hrem & ->).
    split_and!; [done|lia|]. exists body. split; [|done].
    rewrite E1 in Hrem. etransitivity; [by apply message_inv; [lia|]|]. rewrite Hrem. f_equal.
    unfold remaining. simpl.
    rewrite drop_ge by (simpl in Ho; lia). by rewrite app_nil_r.
  - intros (-> & Hl & body & -> & Hb). destruct (message_parts body) as (Hlen & Htake & Hdrop).
    rewrite Unmarshal_eq by lia. rewrite Htake, be_decode_encode by done.
    simpl. apply bindM_Ok. exists v. fold p1.
    rewrite (C p1 v body []) by (rewrite ?E1, ?Hdrop, ?app_nil_r; done).
    split; [done|]. unfold check_end. cbn [snd advance Offset p1]. fold len.
    replace (2 + Z.of_nat (length body)) with len by lia. by rewrite Z.eqb_refl.
Qed.

End Contract.

(** ** Properties *)

(** The metadata removed, as it is not on the wire. *)
Definition erase_Tx (tx : Tx) : Tx :=
  mkTx ((fun utx => set_Metadata utx Metadata_zero) <$> Unsigned tx) (Creds tx).

Definition erase (v : Value) : Value :=
  match v with
  | V_Tx tx => V_Tx (fmap (M := option) erase_Tx tx)
  | V_TxsPtr txs => V_TxsPtr (fmap (M := list) (fmap (M := option) erase_Tx) txs)
  | v => v
  end.

(** The values the code both marshals and unmarshals, and where it unmarshals them. *)
Definition dest_of (v : Value) : Dest :=
  match v with
  | V_Tx _ => D_Tx
  | V_TxsPtr _ => D_TxsPtr
  | V_UTXO _ => D_UTXO
  | V_Requests _ => D_Requests
  | _ => D_other
  end.

Definition valid_Value (v : Value) : Prop :=
  match v with
  | V_Tx (Some tx) => valid_Tx tx
  | V_TxsPtr txs => exists ts, txs = Some <$> ts /\ valid_slice valid_Tx ts
  | V_UTXO u => valid_UTXO u
  | V_Requests r => valid_Requests r
  | _ => False
  end.

Lemma enc_set_Metadata utx md : enc_Unsigned (set_Metadata utx md) = enc_Unsigned utx.
Proof. by destruct utx. Qed.

Lemma enc_erase_Tx tx : enc_Tx (erase_Tx tx) = enc_Tx tx.
Proof. destruct tx as [[utx|] creds]; [|done]. unfold enc_Tx. simpl. by rewrite enc_set_Metadata. Qed.

Lemma valid_erase_Tx tx : valid_Tx tx -> fresh_Tx (erase_Tx tx) /\ valid_Tx (erase_Tx tx).
Proof. destruct tx as [[[]|] creds]; by split. Qed.

Lemma encodes_fmap {A B} (f : A -> B) (encA : A -> option (list byte)) encB xs :
  (forall x, encB (f x) = encA x) -> encodes encB (f <$> xs) = encodes encA xs.
Proof.
  intros Hf. induction xs as [|x xs IH]; [done|].
  change (oapp (encB (f x)) (encodes encB (f <$> xs)) = oapp (encA x) (encodes encA xs)).
  by rewrite Hf, IH.
Qed.

Lemma enc_slice_fmap {A B} (f : A -> B) (encA : A -> option (list byte)) encB xs :
  (forall x, encB (f x) = encA x) -> enc_slice encB (f <$> xs) = enc_slice encA xs.
Proof. intros Hf. unfold enc_slice. by rewrite length_fmap, (encodes_fmap f encA). Qed.

Lemma valid_slice_fmap {A B} (f : A -> B) (P : A -> Prop) (Q : B -> Prop) xs :
  (forall x, P x -> Q (f x)) -> valid_slice P xs -> valid_slice Q (f <$> xs).
Proof.
  intros Hf [Hl Hx]. split; [unfold len_u32; by rewrite length_fmap|].
  apply list.Forall_fmap. eapply list.Forall_impl; [exact Hx|]. done.
Qed.

(** What [Marshal] writes for a value is what [Unmarshal] reads back. *)
Lemma body_of_erase v body :
  valid_Value v -> enc_Value v = Some body -> body_of (dest_of v) (erase v) body.
Proof.
  destruct v as [[tx|]| |txs| | | | | |]; simpl; try done.
  - intros Hv He. split; [by apply valid_erase_Tx|by rewrite enc_erase_Tx].
  - intros (ts & -> & Hv) He. exists (erase_Tx <$> ts). split.
    + by rewrite <- !list_fmap_compose.
    + split; [by apply (valid_slice_fmap _ valid_Tx), Hv; apply valid_erase_Tx|].
      rewrite (enc_slice_fmap _ enc_Tx) by apply enc_erase_Tx.
      by rewrite (enc_slice_fmap _ enc_Tx) in He.
Qed.

(** What [Unmarshal] reads, other than a bare unsigned transaction, [Marshal] writes
    back to the same bytes. *)
Lemma body_of_enc d v body :
  d <> D_UnsignedImportTx -> d <> D_UnsignedExportTx -> body_of d v body -> enc_Value v = Some body.
Proof.
  intros Hi He. destruct d, v as [[tx|]| |txs| | | | | |]; simpl; try done; try by intros [_ ?].
  intros (ts & -> & _ & Hs). by rewrite (enc_slice_fmap _ enc_Tx).
Qed.

(** The transaction with the metadata its encoding gives it. *)
Definition initialized (h : list byte -> ID) (tx : Tx) : Tx :=
  let unsignedBytes := message (default [] (Unsigned tx ≫= enc_Unsigned)) in
  let bytes := message (default [] (enc_Tx tx)) in
  mkTx ((fun utx => set_Metadata utx (Metadata_Initialize h unsignedBytes bytes)) <$> Unsigned tx)
       (Creds tx).

(** The bytes of a block's transactions: one transaction, or a counted batch. *)
Definition enc_block (batch : bool) (ts : list Tx) : option (list byte) :=
  if batch then enc_slice enc_Tx ts
  else match ts with [tx] => enc_Tx tx | _ => None end.

Section Properties.
Context `{PackerSpec}.

Lemma Marshal_total max version v : 2 <= max -> Marshal max version v <> Panic.
Proof.
  intros Hmax. unfold Marshal. destruct (version =? CodecVersion); [|done]. simpl.
  set (p0 := mkPacker [] 0 max None).
  assert (ready p0) as R0 by (split_and!; [done|done|simpl; lia]).
  assert (fits p0 (be_encode 2 version)) as F0
    by (unfold fits; rewrite length_be_encode; simpl; lia).
  rewrite (bindM_step _ _ _ _ _ (Packs_fits _ _ (PackShort_spec _) p0 R0 F0)).
  set (p1 := append p0 (be_encode 2 version)).
  assert (ready p1) as R1 by by apply ready_append.
  change ((_ ← check_Err_as ErrCantPackVersion; marshalValue v) p1) with (marshalValue v p1).
  destruct (marshalValue_writes v) as [Hf Ho _].
  destruct (enc_Value v) as [body|] eqn:Ev; [destruct (decide (fits p1 body)) as [Hb|Hb]|].
  - by rewrite (Hf p1 body).
  - assert (failed (marshalValue v p1)) as Hx by (apply Ho; [done|by intros ? [= <-]]).
    unfold failed in Hx. by destruct (marshalValue v p1) as [[]].
  - assert (failed (marshalValue v p1)) as Hx by by apply Ho.
    unfold failed in Hx. by destruct (marshalValue v p1) as [[]].
Qed.

Lemma Unmarshal_total max bytes d : Unmarshal max bytes d <> Panic.
Proof.
  unfold Unmarshal. do 2 (case_test; [done|]). set (p0 := mkPacker bytes 0 max None).
  pose proof (Unpacks_returns _ _ _ _ UnpackShort_spec p0) as Hs. unfold mbind, StM_bind.
  destruct (UnpackShort p0) as [[version| |] p1]; try discriminate Hs.
  unfold check_Err_as. destruct (Errored p1); [done|]. destruct (negb _); [done|].
  pose proof (parses_total _ _ (parse_Value d) p1) as Ht.
  destruct (unmarshalValue d p1) as [[v| |] p2]; [|done..]. unfold check_end. by destruct (negb _).
Qed.

Lemma initializeBytes_Ok h tx body :
  enc_Tx tx = Some body -> Z.of_nat (length (message body)) <= maxAtomicMessageSize ->
  initializeBytes h tx = Ok (initialized h tx).
Proof.
  intros He Hl. destruct tx as [[utx|] creds]; [|done]. unfold initializeBytes, initialized.
  rewrite He. pose proof He as He'. apply oapp_Some in He' as (ub & cb & Hu & Hc & ->).
  assert (2 <= maxAtomicMessageSize) as Hmax by done. simpl Unsigned. simpl Creds.
  assert (Codec_Marshal CodecVersion (V_UnsignedAtomicTxPtr (Some utx)) = Ok (message ub)) as ->.
  { apply Marshal_Ok; [done|]. exists ub. split_and!; [done|done|].
    unfold message in *. rewrite !length_app in *. lia. }
  assert (Codec_Marshal CodecVersion (V_Tx (Some (mkTx (Some utx) creds))) = Ok (message (ub ++ cb)))
    as -> by (apply Marshal_Ok; eauto).
  simpl. by rewrite Hu.
Qed.

Lemma initializeAll_Ok h ts bs :
  encodes enc_Tx ts = Some bs -> Z.of_nat (length (message bs)) <= maxAtomicMessageSize ->
  initializeAll h (Some <$> ts) = Ok (initialized h <$> ts).
Proof.
  revert bs. induction ts as [|tx ts IH]; intros bs He Hl; [done|].
  apply oapp_Some in He as (b1 & b2 & H1 & H2 & ->).
  unfold message in Hl. rewrite !length_app in Hl.
  change (Some <$> tx :: ts) with (Some tx :: (Some <$> ts)). cbn [initializeAll].
  rewrite (initializeBytes_Ok h tx b1) by (done || unfold message; rewrite !length_app; lia).
  cbn [wrap_err mbind result_bind].
  rewrite (IH b2) by (done || unfold message; rewrite !length_app; lia). done.
Qed.

Lemma ExtractAtomicTx_Ok h bytes tx :
  ExtractAtomicTx h bytes = Ok tx <->
  exists t body, tx = initialized h t /\ encoded (fun tx => fresh_Tx tx /\ valid_Tx tx) enc_Tx t body /\
    bytes = message body /\ Z.of_nat (length bytes) <= maxAtomicMessageSize.
Proof.
  unfold ExtractAtomicTx. split.
  - intros HE. inv_result. destruct x as [version v]. apply Unmarshal_Ok in H1 as (-> & Hl & body & -> & Hb).
    destruct v as [[t|]| | | | | | | |]; try discriminate HE. apply wrap_err_Ok in HE.
    pose proof Hb as [_ He]. rewrite (initializeBytes_Ok h t body) in HE by done.
    injection HE as <-. by exists t, body.
  - intros (t & body & -> & [Hv He] & -> & Hl).
    assert (Codec_Unmarshal (message body) D_Tx = Ok (CodecVersion, V_Tx (Some t))) as ->.
    { apply Unmarshal_Ok. split_and!; [done..|]. by exists body. }
    simpl. by rewrite (initializeBytes_Ok h t body).
Qed.

Lemma ExtractAtomicTxsBatch_Ok h bytes txs :
  ExtractAtomicTxsBatch h bytes = Ok txs <->
  exists ts body, txs = initialized h <$> ts /\ ts <> [] /\
    encoded (valid_slice (fun tx => fresh_Tx tx /\ valid_Tx tx)) (enc_slice enc_Tx) ts body /\
    bytes = message body /\ Z.of_nat (length bytes) <= maxAtomicMessageSize.
Proof.
  assert (forall ts body, enc_slice enc_Tx ts = Some body ->
    Z.of_nat (length (message body)) <= maxAtomicMessageSize ->
    initializeAll h (Some <$> ts) = Ok (initialized h <$> ts)) as Hinit.
  { intros ts body He Hl. apply oapp_Some in He as (b1 & b2 & _ & He & ->).
    apply (initializeAll_Ok h ts b2 He). unfold message in *. rewrite !length_app in *. lia. }
  unfold ExtractAtomicTxsBatch. split.
  - intros HE. inv_result. destruct x as [version v]. apply Unmarshal_Ok in H1 as (-> & Hl & body & -> & Hb).
    destruct v as [[t|]| | | | | | | |]; try discriminate HE. destruct Hb as (ts & -> & Hv & He).
    simpl in HE. rewrite length_fmap in HE. destruct ts as [|t ts]; [done|].
    rewrite (Hinit _ body) in HE by done. injection HE as <-. by exists (t :: ts), body.
  - intros (ts & body & -> & Hne & [Hv He] & -> & Hl).
    assert (Codec_Unmarshal (message body) D_TxsPtr = Ok (CodecVersion, V_TxsPtr (Some <$> ts))) as ->.
    { apply Unmarshal_Ok. split_and!; [done..|]. exists body. split; [done|]. by exists ts. }
    cbn [wrap_err mbind result_bind snd]. rewrite length_fmap.
    destruct ts as [|t ts]; [done|]. cbn [length Nat.eqb]. by apply (Hinit _ body).
Qed.

(** [Codec.Marshal] refines the wire format: under any size limit it returns exactly
    the version and the encoding of the value if the value is one the format covers and
    the message fits the limit, and an error, never a panic, otherwise. *)
Theorem Marshal_emits_format max version v bs : 2 <= max ->
  Marshal max version v <> Panic /\
  (Marshal max version v = Ok bs <->
   version = CodecVersion /\
   exists body, enc_Value v = Some body /\ bs = message body /\ Z.of_nat (length bs) <= max).
Proof.
  intros Hmax. split; [by apply Marshal_total|].
  destruct (Z.eqb_spec version CodecVersion) as [->|Hne].
  - rewrite Marshal_Ok by done. tauto.
  - unfold Marshal. destruct (Z.eqb_spec version CodecVersion); [done|]. simpl. naive_solver.
Qed.

(** [Codec.Unmarshal] accepts exactly the wire format: on any bytes it does not panic,
    and it returns a value exactly when the bytes are the version and the encoding of
    that value, with nothing after it. *)
Theorem Unmarshal_accepts_format max bytes d version v :
  Unmarshal max bytes d <> Panic /\
  (Unmarshal max bytes d = Ok (version, v) <->
   version = CodecVersion /\ Z.of_nat (length bytes) <= max /\
   exists body, bytes = message body /\ body_of d v body).
Proof. split; [apply Unmarshal_total|apply Unmarshal_Ok]. Qed.

(** C22. A transaction, a batch, a UTXO or a set of shared-memory requests that [Marshal]
    accepts is what [Unmarshal] returns, up to the metadata that is not on the wire. *)
Theorem codec_roundtrip max version v bs :
  2 <= max -> valid_Value v -> Marshal max version v = Ok bs ->
  Unmarshal max bs (dest_of v) = Ok (version, erase v).
Proof.
  intros Hmax Hv HM. assert (version = CodecVersion) as ->.
  { unfold Marshal in HM. by destruct (Z.eqb_spec version CodecVersion). }
  apply Marshal_Ok in HM as (body & He & -> & Hl); [|done].
  apply Unmarshal_Ok. split_and!; [done..|]. exists body. split; [done|]. by apply body_of_erase.
Qed.

(** C4. The encoding is canonical: bytes that [Unmarshal] accepts as a transaction, a batch,
    a UTXO or a set of requests are the bytes [Marshal] gives for the value it returns,
    so no two messages decode to the same value. *)
Theorem codec_canonical max bytes d version v :
  d <> D_UnsignedImportTx -> d <> D_UnsignedExportTx ->
  Unmarshal max bytes d = Ok (version, v) -> Marshal max version v = Ok bytes.
Proof.
  intros Hi He HU. pose proof (Unmarshal_small _ _ _ _ HU) as Hmax.
  apply Unmarshal_Ok in HU as (-> & Hl & body & -> & Hb). apply Marshal_Ok; [lia|].
  exists body. split_and!; [by apply (body_of_enc d)|done..].
Qed.

(** A bare [*UnsignedImportTx] does not round trip: [Marshal] writes it with the type ID
    of the interface it implements, [Unmarshal] reads it without one, and what is read,
    if anything, is not what was written. *)
Theorem bare_import_no_roundtrip max utx bs version utx' :
  2 <= max -> Marshal max CodecVersion (V_UnsignedImportTx utx) = Ok bs ->
  Unmarshal max bs D_UnsignedImportTx = Ok (version, V_UnsignedImportTx utx') ->
  set_Metadata (ImportTx utx') Metadata_zero <> set_Metadata (ImportTx utx) Metadata_zero.
Proof.
  intros Hmax HM HU Heq. apply Marshal_Ok in HM as (body & He & -> & _); [|done].
  apply Unmarshal_Ok in HU as (_ & _ & body' & Hb & [_ He']).
  apply (f_equal enc_Unsigned) in Heq. rewrite !enc_set_Metadata in Heq.
  apply (app_inv_head (be_encode 2 CodecVersion)) in Hb as ->.
  cbn [enc_Value] in He. rewrite <- Heq in He. cbn [enc_Unsigned] in He. rewrite He' in He.
  apply oapp_Some in He as (b1 & b2 & [= <-] & [= <-] & Hb).
  apply (f_equal length) in Hb. rewrite length_app, length_be_encode in Hb. lia.
Qed.

(** Extracting a block's atomic transactions succeeds exactly when the bytes are the
    encoding of a non-empty batch (or of one transaction before batches), and gives each
    transaction the hash of its own canonical bytes as its identifier; re-marshalling what
    was just unmarshalled never fails. *)
Theorem ExtractAtomicTxs_spec h bytes batch txs : bytes <> [] ->
  ExtractAtomicTxs h bytes batch = Ok txs <->
  exists ts body, txs = initialized h <$> ts /\ ts <> [] /\
    Forall (fun tx => fresh_Tx tx /\ valid_Tx tx) ts /\ len_u32 ts /\
    enc_block batch ts = Some body /\ bytes = message body /\
    Z.of_nat (length bytes) <= maxAtomicMessageSize.
Proof.
  intros Hne. unfold ExtractAtomicTxs, enc_block.
  assert ((length bytes =? 0)%nat = false) as -> by by destruct bytes.
  destruct batch; cbn [negb].
  - rewrite ExtractAtomicTxsBatch_Ok. unfold encoded, valid_slice. naive_solver.
  - rewrite bind_Ok_iff. split.
    + intros (tx & HE & [= <-]).
      apply ExtractAtomicTx_Ok in HE as (t & body & -> & [Hv He] & -> & Hl).
      exists [t], body. do 2 (split; [done|]). split; [by apply list.Forall_singleton|by split_and!].
    + intros (ts & body & -> & _ & Hv & _ & He & Hb & Hl). destruct ts as [|t [|]]; try discriminate He.
      exists (initialized h t). split; [|done]. apply ExtractAtomicTx_Ok. exists t, body.
      inversion Hv; subst. by split_and!.
Qed.

End Properties.

Module Witness.
Import PackerConcrete.

Definition id_of (b : byte) : ID := replicate 32 b.
Definition input0 : TransferableInput :=
  mkTransferableInput (id_of Byte.x01) 2 (id_of Byte.x03) (TransferInput 5000000 [0]).
Definition import0 : UnsignedImportTx :=
  mkImport Metadata_zero 1 (id_of Byte.x04) (id_of Byte.x05) [input0]
    [mkEVMOutput (replicate 20 Byte.x06) 4000000 (id_of Byte.x03)].
Definition export0 : UnsignedExportTx :=
  mkExport Metadata_zero 1 (id_of Byte.x04) (id_of Byte.x05)
    [mkEVMInput (replicate 20 Byte.x06) 7 (id_of Byte.x03) 9]
    [mkTransferableOutput (id_of Byte.x03) (TransferOutput 6 0 1 [replicate 20 Byte.x08])].
Definition cred0 : Verifiable := Credential [replicate 65 Byte.x0a].
Definition tx0 : Tx := mkTx (Some (ImportTx import0)) [cred0].
Definition tx1 : Tx := mkTx (Some (ExportTx export0)) [cred0].
Definition txs0 : Value := V_TxsPtr [Some tx0; Some tx1].
Definition bytes0 : list byte :=
  match Marshal 1000 0 txs0 with Ok bs => bs | _ => [] end.
Definition hash0 (bs : list byte) : ID := take 32 bs.

(** Decides validity of a closed value. *)
Ltac closed_valid :=
  lazymatch goal with
  | |- _ /\ _ => split; closed_valid
  | |- is_u64 _ => closed_u64
  | |- is_u32 _ => closed_u64
  | |- has_len _ _ => reflexivity
  | |- len_u32 _ => reflexivity
  | |- Forall _ [] => constructor
  | |- Forall _ (_ :: _) => constructor; closed_valid
  | |- Forall ?P ?l => let l' := eval hnf in l in change (Forall P l'); closed_valid
  | |- fresh_Tx _ => reflexivity
  | |- valid_Tx _ => unfold valid_Tx; simpl; closed_valid
  | |- ?P => let P' := eval hnf in P in change P'; closed_valid
  end.

Lemma valid_tx0 : valid_Tx tx0.
Proof. closed_valid. Defined.

Lemma valid_tx1 : valid_Tx tx1.
Proof. closed_valid. Defined.

Lemma Marshal_emits_format_witness :
  2 <= 1000 /\
  (Marshal 1000 0 txs0 = Ok bytes0 <->
   0 = CodecVersion /\
   exists body, enc_Value txs0 = Some body /\ bytes0 = message body /\
     Z.of_nat (length bytes0) <= 1000) /\ length bytes0 = 616%nat.
Proof.
  split; [lia|]. split; [apply (Marshal_emits_format 1000 0 txs0 bytes0); lia|].
  vm_compute. reflexivity.
Defined.

Lemma txs0_marshals : Marshal 1000 0 txs0 = Ok bytes0.
Proof. vm_compute. reflexivity. Defined.

Lemma Unmarshal_accepts_format_witness :
  Unmarshal 1000 (message [Byte.x00]) D_Tx <> Panic /\
  (Unmarshal 1000 (message [Byte.x00]) D_Tx = Ok (0, V_Tx (Some tx0)) <->
   0 = CodecVersion /\ Z.of_nat (length (message [Byte.x00])) <= 1000 /\
   exists body, message [Byte.x00] = message body /\ body_of D_Tx (V_Tx (Some tx0)) body).
Proof. exact (Unmarshal_accepts_format 1000 (message [Byte.x00]) D_Tx 0 (V_Tx (Some tx0))). Defined.

Lemma codec_roundtrip_witness : Unmarshal 1000 bytes0 D_TxsPtr = Ok (0, txs0).
Proof.
  apply (codec_roundtrip 1000 0 txs0 bytes0); [lia| |exact txs0_marshals].
  exists [tx0; tx1]. split; [reflexivity|]. split; [reflexivity|].
  constructor; [exact valid_tx0|]. constructor; [exact valid_tx1|constructor].
Defined.

Lemma codec_canonical_witness :
  Unmarshal 1000 bytes0 D_TxsPtr = Ok (0, txs0) /\ Marshal 1000 0 txs0 = Ok bytes0.
Proof.
  assert (Unmarshal 1000 bytes0 D_TxsPtr = Ok (0, txs0)) as HU by (vm_compute; reflexivity).
  split; [exact HU|]. apply (codec_canonical 1000 bytes0 D_TxsPtr 0 txs0); [discriminate..|exact HU].
Defined.

(** An import whose bytes, written with the type ID and read without it, are those of
    another import. *)
Definition import1 : UnsignedImportTx :=
  mkImport Metadata_zero 0 (id_of Byte.x00) (be_encode 32 1) []
    [mkEVMOutput (be_encode 20 7) 8 (id_of Byte.x03);
     mkEVMOutput (be_encode 4 5 ++ be_encode 8 9 ++ be_encode 4 10 ++ be_encode 4 0) 8 (be_encode 32 0)].
Definition bytes1 : list byte :=
  match Marshal 1000 0 (V_UnsignedImportTx import1) with Ok bs => bs | _ => [] end.
Definition import2 : UnsignedImportTx :=
  match Unmarshal 1000 bytes1 D_UnsignedImportTx with
  | Ok (_, V_UnsignedImportTx utx) => utx
  | _ => import1
  end.

Lemma bare_import_no_roundtrip_witness :
  Marshal 1000 CodecVersion (V_UnsignedImportTx import1) = Ok bytes1 /\
  Unmarshal 1000 bytes1 D_UnsignedImportTx = Ok (0, V_UnsignedImportTx import2) /\
  set_Metadata (ImportTx import2) Metadata_zero <> set_Metadata (ImportTx import1) Metadata_zero.
Proof.
  assert (Marshal 1000 CodecVersion (V_UnsignedImportTx import1) = Ok bytes1) as HM
    by (vm_compute; reflexivity).
  assert (Unmarshal 1000 bytes1 D_UnsignedImportTx = Ok (0, V_UnsignedImportTx import2)) as HU
    by (vm_compute; reflexivity).
  split; [exact HM|]. split; [exact HU|].
  apply (bare_import_no_roundtrip 1000 import1 bytes1 0 import2); [lia|exact HM|exact HU].
Defined.

Lemma ExtractAtomicTxs_spec_witness :
  bytes0 <> [] /\ is_Ok (ExtractAtomicTxs hash0 bytes0 true) = true /\
  (ExtractAtomicTxs hash0 bytes0 true = Ok (initialized hash0 <$> [tx0; tx1]) <->
   exists ts body, initialized hash0 <$> [tx0; tx1] = initialized hash0 <$> ts /\ ts <> [] /\
     Forall (fun tx => fresh_Tx tx /\ valid_Tx tx) ts /\ len_u32 ts /\
     enc_block true ts = Some body /\ bytes0 = message body /\
     Z.of_nat (length bytes0) <= maxAtomicMessageSize).
Proof.
  assert (bytes0 <> []) as Hne by (vm_compute; discriminate).
  split; [exact Hne|]. split; [vm_compute; reflexivity|].
  exact (ExtractAtomicTxs_spec hash0 bytes0 true (initialized hash0 <$> [tx0; tx1]) Hne).
Defined.

End Witness.

End wire.
