(* ===== verification/ExtState.v ===== *)
(** * The extended state database

    [core/extstate/statedb.go]: coin balances kept in an account's storage, and the
    predicate slots of a transaction's access list ([predicate/predicate_slots.go]).
    The database underneath is geth's [state.StateDB], a class of operations with its
    laws. The interface the atomic transactions use ([plugin/evm/atomic.StateDB]) is a
    second class; the wrapper of [plugin/evm/atomic/vm/statedb_wrapper.go] is its
    instance on top of this file. *)

From S2P Require Import Prelude.

(** ** geth's [state.StateDB] *)

Class GethStateDB (S : Type) := {
  geth_GetState : S -> Address -> Hash -> Hash;
  geth_SetState : S -> Address -> Hash -> Hash -> S;
  geth_GetBalance : S -> Address -> Z;
  geth_AddBalance : S -> Address -> Z -> S;
  geth_SubBalance : S -> Address -> Z -> S;
  geth_GetNonce : S -> Address -> Z;
  geth_SetNonce : S -> Address -> Z -> S
}.

Class GethStateDBSpec (S : Type) {DB : GethStateDB S} : Prop := {
  geth_GetState_SetState s a k v a' k' : length v = 32%nat ->
    geth_GetState (geth_SetState s a k v) a' k' =
    if decide (a = a' /\ k = k') then v else geth_GetState s a' k';
  geth_GetState_AddBalance s a x a' k : geth_GetState (geth_AddBalance s a x) a' k = geth_GetState s a' k;
  geth_GetState_length s a k : length (geth_GetState s a k) = 32%nat;
  geth_GetBalance_AddBalance s a x a' :
    geth_GetBalance (geth_AddBalance s a x) a' =
    if decide (a = a') then (geth_GetBalance s a + x) mod 2 ^ 256 else geth_GetBalance s a';
  geth_GetBalance_SubBalance s a x a' :
    geth_GetBalance (geth_SubBalance s a x) a' =
    if decide (a = a') then (geth_GetBalance s a - x) mod 2 ^ 256 else geth_GetBalance s a';
  geth_GetBalance_SetState s a k v a' : geth_GetBalance (geth_SetState s a k v) a' = geth_GetBalance s a';
  geth_GetBalance_SetNonce s a n a' : geth_GetBalance (geth_SetNonce s a n) a' = geth_GetBalance s a';
  geth_GetNonce_SetNonce s a n a' : is_u64 n ->
    geth_GetNonce (geth_SetNonce s a n) a' = if decide (a = a') then n else geth_GetNonce s a';
  geth_GetNonce_AddBalance s a x a' : geth_GetNonce (geth_AddBalance s a x) a' = geth_GetNonce s a';
  geth_GetNonce_SubBalance s a x a' : geth_GetNonce (geth_SubBalance s a x) a' = geth_GetNonce s a';
  geth_GetNonce_SetState s a k v a' : geth_GetNonce (geth_SetState s a k v) a' = geth_GetNonce s a';
  geth_GetBalance_u256 s a : 0 <= geth_GetBalance s a < 2 ^ 256;
  geth_GetNonce_u64 s a : is_u64 (geth_GetNonce s a)
}.

(** [state.StateDB.Snapshot] and [RevertToSnapshot] *)
Class Snapshots (G : Type) := {
  Snapshot : G -> Z * G;
  RevertToSnapshot : Z -> G -> G
}.

(** ** The interface of the atomic transactions *)

(** [atomic.StateDB] *)
Class AtomicStateDB (S : Type) := {
  AddBalance : S -> Address -> Z -> S;
  AddBalanceMultiCoin : S -> Address -> Hash -> Z -> S;
  SubBalance : S -> Address -> Z -> S;
  SubBalanceMultiCoin : S -> Address -> Hash -> Z -> S;
  GetBalance : S -> Address -> Z;
  GetBalanceMultiCoin : S -> Address -> Hash -> Z;
  GetNonce : S -> Address -> Z;
  SetNonce : S -> Address -> Z -> S
}.

(** What it promises of the native balances and the nonces. *)
Class AtomicStateDBSpec (S : Type) {DB : AtomicStateDB S} : Prop := {
  GetBalance_AddBalance s a x a' :
    GetBalance (AddBalance s a x) a' =
    if decide (a = a') then (GetBalance s a + x) mod 2 ^ 256 else GetBalance s a';
  GetBalance_SubBalance s a x a' :
    GetBalance (SubBalance s a x) a' =
    if decide (a = a') then (GetBalance s a - x) mod 2 ^ 256 else GetBalance s a';
  GetBalance_SetNonce s a n a' : GetBalance (SetNonce s a n) a' = GetBalance s a';
  GetNonce_SetNonce s a n a' : is_u64 n ->
    GetNonce (SetNonce s a n) a' = if decide (a = a') then n else GetNonce s a';
  GetNonce_AddBalance s a x a' : GetNonce (AddBalance s a x) a' = GetNonce s a';
  GetNonce_SubBalance s a x a' : GetNonce (SubBalance s a x) a' = GetNonce s a';
  GetBalance_u256 s a : 0 <= GetBalance s a < 2 ^ 256;
  GetNonce_u64 s a : is_u64 (GetNonce s a)
}.

Module extstate.

(** [key[0] &^= 0x01] and [coinID[0] |= 0x01]; a [common.Hash] is never empty. *)
Definition normalizeStateKey (key : Hash) : Hash :=
  match key with
  | [] => []
  | b :: rest => byte_of_Z (Z.ldiff (Z_of_byte b) 1) :: rest
  end.

Definition normalizeCoinID (coinID : Hash) : Hash :=
  match coinID with
  | [] => []
  | b :: rest => byte_of_Z (Z.lor (Z_of_byte b) 1) :: rest
  end.

(** [common.BigToHash]: the low 32 bytes of the absolute value. *)
Definition BigToHash (x : Z) : Hash := be_encode 32 (Z.abs x).

(** [types.AccessTuple]; [utils.HashSliceToBytes]. *)
Record AccessTuple := mkAccessTuple { AT_Address : Address; StorageKeys : list Hash }.

Definition HashSliceToBytes (hashes : list Hash) : list byte := concat hashes.

(** [predicate.PreparePredicateStorageSlots] *)
Definition PreparePredicateStorageSlots (PredicaterExists : Address -> bool)
    (list : list AccessTuple) : gmap Address (Datatypes.list (Datatypes.list byte)) :=
  fold_left (fun slots el =>
    if negb (PredicaterExists (AT_Address el)) then slots
    else <[AT_Address el := default [] (slots !! AT_Address el) ++
                            [HashSliceToBytes (StorageKeys el)]]> slots) list ∅.

Section DB.
Context {G : Type} {DB : GethStateDB G}.

Record StateDB := mkStateDB {
  db : G;
  predicateStorageSlots : gmap Address (list (list byte))
}.

Definition New (g : G) : StateDB := mkStateDB g ∅.

Definition with_db (s : StateDB) (g : G) : StateDB := mkStateDB g (predicateStorageSlots s).

(** [Prepare]: geth's own [Prepare] is the argument. *)
Definition Prepare (geth_Prepare : G -> G) (PredicaterExists : Address -> bool)
    (list : list AccessTuple) (s : StateDB) : StateDB :=
  mkStateDB (geth_Prepare (db s)) (PreparePredicateStorageSlots PredicaterExists list).

Definition GetPredicateStorageSlots (s : StateDB) (address : Address) (index : Z)
    : result (list byte * bool) :=
  match predicateStorageSlots s !! address with
  | None => Ok ([], false)
  | Some predicates =>
      if Z.of_nat (length predicates) <=? index then Ok ([], false)
      else if index <? 0 then Panic
      else match predicates !! Z.to_nat index with
           | Some p => Ok (p, true)
           | None => Panic
           end
  end.

Definition SetState (s : StateDB) (addr : Address) (key value : Hash) : StateDB :=
  with_db s (geth_SetState (db s) addr key value).

Definition ext_GetBalanceMultiCoin (s : StateDB) (addr : Address) (coinID : Hash) : Z :=
  be_decode (geth_GetState (db s) addr (normalizeCoinID coinID)).

Definition ext_AddBalanceMultiCoin (s : StateDB) (addr : Address) (coinID : Hash) (amount : Z)
    : StateDB :=
  if Z.sgn amount =? 0 then with_db s (geth_AddBalance (db s) addr 0)
  else
    let newAmount := ext_GetBalanceMultiCoin s addr coinID + amount in
    SetState s addr (normalizeCoinID coinID) (BigToHash newAmount).

Definition ext_SubBalanceMultiCoin (s : StateDB) (addr : Address) (coinID : Hash) (amount : Z)
    : StateDB :=
  if Z.sgn amount =? 0 then s
  else
    let newAmount := ext_GetBalanceMultiCoin s addr coinID - amount in
    SetState s addr (normalizeCoinID coinID) (BigToHash newAmount).

(** [stateDBWrapper], and the methods of [StateDB] that only forward. *)
#[export] Instance stateDBWrapper : AtomicStateDB StateDB := {|
  AddBalance s a x := with_db s (geth_AddBalance (db s) a x);
  AddBalanceMultiCoin := ext_AddBalanceMultiCoin;
  SubBalance s a x := with_db s (geth_SubBalance (db s) a x);
  SubBalanceMultiCoin := ext_SubBalanceMultiCoin;
  GetBalance s a := geth_GetBalance (db s) a;
  GetBalanceMultiCoin := ext_GetBalanceMultiCoin;
  GetNonce s a := geth_GetNonce (db s) a;
  SetNonce s a n := with_db s (geth_SetNonce (db s) a n)
|}.

#[export] Instance stateDBWrapper_spec {DS : GethStateDBSpec G} : AtomicStateDBSpec StateDB.
Proof. split; intros; by apply DS. Qed.

End DB.
Arguments StateDB : clear implicits.

(** ** Coin balances *)

Section Coins.
Context {G : Type} {DB : GethStateDB G} {DS : GethStateDBSpec G}.
Implicit Types s : StateDB G.

Lemma GetBalanceMultiCoin_SetState s a k v a' c : length v = 32%nat ->
  ext_GetBalanceMultiCoin (SetState s a k v) a' c =
  if decide (a = a' /\ k = normalizeCoinID c) then be_decode v else ext_GetBalanceMultiCoin s a' c.
Proof.
  intros Hv. unfold ext_GetBalanceMultiCoin. simpl. rewrite geth_GetState_SetState by done.
  by case_decide.
Qed.

Lemma be_decode_BigToHash x : 0 <= x -> be_decode (BigToHash x) = x mod 2 ^ 256.
Proof. intros Hx. unfold BigToHash. rewrite be_decode_encode_mod, Z.abs_eq by done. done. Qed.

Lemma GetBalanceMultiCoin_bound s a c : 0 <= ext_GetBalanceMultiCoin s a c < 2 ^ 256.
Proof.
  unfold ext_GetBalanceMultiCoin. pose proof (be_decode_bound (geth_GetState (db s) a (normalizeCoinID c))) as Hb.
  by rewrite geth_GetState_length in Hb.
Qed.

Lemma AddBalanceMultiCoin_spec s a c x a' c' : 0 <= x ->
  ext_GetBalanceMultiCoin (ext_AddBalanceMultiCoin s a c x) a' c' =
  if decide (a = a' /\ normalizeCoinID c = normalizeCoinID c')
  then (ext_GetBalanceMultiCoin s a c + x) mod 2 ^ 256
  else ext_GetBalanceMultiCoin s a' c'.
Proof.
  intros Hx. pose proof (GetBalanceMultiCoin_bound s a c) as Hb. unfold ext_AddBalanceMultiCoin.
  destruct (Z.eqb_spec (Z.sgn x) 0) as [H0|H0].
  - assert (x = 0) as -> by lia. unfold ext_GetBalanceMultiCoin at 1. simpl.
    rewrite geth_GetState_AddBalance. case_decide as Hc; [|done]. destruct Hc as [<- Hn].
    rewrite Z.add_0_r, Z.mod_small by done. unfold ext_GetBalanceMultiCoin. by rewrite Hn.
  - rewrite GetBalanceMultiCoin_SetState by apply length_be_encode. case_decide; [|done].
    apply be_decode_BigToHash. lia.
Qed.

Lemma SubBalanceMultiCoin_spec s a c x a' c' :
  0 <= x <= ext_GetBalanceMultiCoin s a c ->
  ext_GetBalanceMultiCoin (ext_SubBalanceMultiCoin s a c x) a' c' =
  if decide (a = a' /\ normalizeCoinID c = normalizeCoinID c')
  then ext_GetBalanceMultiCoin s a c - x
  else ext_GetBalanceMultiCoin s a' c'.
Proof.
  intros Hx. pose proof (GetBalanceMultiCoin_bound s a c) as Hb. unfold ext_SubBalanceMultiCoin.
  destruct (Z.eqb_spec (Z.sgn x) 0) as [H0|H0].
  - assert (x = 0) as -> by lia. case_decide as Hc; [|done]. destruct Hc as [<- Hn].
    rewrite Z.sub_0_r. unfold ext_GetBalanceMultiCoin. by rewrite Hn.
  - rewrite GetBalanceMultiCoin_SetState by apply length_be_encode. case_decide; [|done].
    rewrite be_decode_BigToHash by lia. apply Z.mod_small. lia.
Qed.

(** Adding a coin amount and taking it back restores every coin balance and every native
    balance of every account, as long as the sum fits the 32-byte slot. *)
Theorem multicoin_add_sub s a c x a' c' :
  0 <= x -> ext_GetBalanceMultiCoin s a c + x < 2 ^ 256 ->
  let s' := ext_SubBalanceMultiCoin (ext_AddBalanceMultiCoin s a c x) a c x in
  ext_GetBalanceMultiCoin (ext_AddBalanceMultiCoin s a c x) a c = ext_GetBalanceMultiCoin s a c + x /\
  ext_GetBalanceMultiCoin s' a' c' = ext_GetBalanceMultiCoin s a' c' /\
  GetBalance s' a' = GetBalance s a'.
Proof.
  intros Hx Hf s'. pose proof (GetBalanceMultiCoin_bound s a c) as Hb.
  assert (ext_GetBalanceMultiCoin (ext_AddBalanceMultiCoin s a c x) a c =
          ext_GetBalanceMultiCoin s a c + x) as Hadd.
  { rewrite AddBalanceMultiCoin_spec, decide_True by done. apply Z.mod_small. lia. }
  split; [done|]. split.
  - unfold s'. rewrite SubBalanceMultiCoin_spec, Hadd by lia.
    case_decide as Hc; [|by rewrite AddBalanceMultiCoin_spec, decide_False].
    destruct Hc as [<- Hn]. unfold ext_GetBalanceMultiCoin at 1. rewrite Hn.
    unfold ext_GetBalanceMultiCoin. lia.
  - unfold s', ext_SubBalanceMultiCoin, ext_AddBalanceMultiCoin.
    destruct (Z.eqb_spec (Z.sgn x) 0); simpl; rewrite ?geth_GetBalance_SetState; [|done].
    rewrite geth_GetBalance_AddBalance. case_decide as Ha; [subst|done].
    rewrite Z.add_0_r. apply Z.mod_small, geth_GetBalance_u256.
Qed.

(** Coin balances and ordinary storage are not kept apart: a store to any slot whose key
    has the coin bit sets the balance of that coin to the stored value, although the
    comment of [normalizeStateKey] says that the keys are partitioned ([SetState] does
    not normalise its key). *)
Theorem SetState_sets_coin_balance s a k v :
  normalizeCoinID k = k -> length v = 32%nat ->
  ext_GetBalanceMultiCoin (SetState s a k v) a k = be_decode v.
Proof. intros Hk Hv. rewrite GetBalanceMultiCoin_SetState, decide_True by done. done. Qed.

(** The bytes of the [i]-th access tuple that names [a]. *)
Definition nth_tuple (list : list AccessTuple) (a : Address) (i : nat) : option (Datatypes.list byte) :=
  (HashSliceToBytes ∘ StorageKeys) <$> (filter (fun t => AT_Address t = a) list !! i).

Lemma PreparePredicateStorageSlots_lookup (exists_ : Address -> bool) list a :
  default [] (PreparePredicateStorageSlots exists_ list !! a) =
  if exists_ a then (HashSliceToBytes ∘ StorageKeys) <$> filter (fun t => AT_Address t = a) list else [].
Proof.
  unfold PreparePredicateStorageSlots.
  induction list as [|el list IH] using rev_ind.
  { simpl. rewrite lookup_empty. by destruct (exists_ a). }
  rewrite fold_left_app. simpl. rewrite list.filter_app, fmap_app, list.filter_cons, list.filter_nil.
  destruct (exists_ (AT_Address el)) eqn:E; simpl.
  - destruct (decide (AT_Address el = a)) as [<-|Hne].
    + rewrite lookup_insert_eq. simpl. rewrite IH, E. done.
    + rewrite lookup_insert_ne by done. rewrite IH. destruct (exists_ a); by rewrite ?app_nil_r.
  - rewrite IH. destruct (exists_ a) eqn:Ea; [|done].
    rewrite decide_False by (intros <-; congruence). by rewrite app_nil_r.
Qed.

(** After [Prepare], [GetPredicateStorageSlots(a, i)] is the [i]-th predicate of the
    access list for [a], and there is none when [a] has no predicater or fewer tuples. *)
Theorem GetPredicateStorageSlots_spec prep (exists_ : Address -> bool) list s a (i : nat) :
  GetPredicateStorageSlots (Prepare prep exists_ list s) a (Z.of_nat i) =
  Ok match (if exists_ a then nth_tuple list a i else None) with
     | Some p => (p, true)
     | None => ([], false)
     end.
Proof.
  unfold GetPredicateStorageSlots. simpl.
  pose proof (PreparePredicateStorageSlots_lookup exists_ list a) as Hl.
  assert ((if exists_ a then nth_tuple list a i else None) =
          default [] (PreparePredicateStorageSlots exists_ list !! a) !! i) as ->.
  { rewrite Hl. destruct (exists_ a); [|done]. by rewrite list_lookup_fmap. }
  destruct (_ !! a) as [ps|]; simpl; [|done].
  destruct (Z.leb_spec (Z.of_nat (length ps)) (Z.of_nat i)).
  - by rewrite lookup_ge_None_2 by lia.
  - destruct (Z.ltb_spec (Z.of_nat i) 0); [lia|]. rewrite Nat2Z.id.
    destruct (lookup_lt_is_Some_2 ps i ltac:(lia)) as [p ->]. done.
Qed.

End Coins.

(** ** A database *)

Module Concrete.

Record Geth := mkGeth {
  storage : gmap (Address * Hash) Hash;
  balances : gmap Address Z;
  nonces : gmap Address Z
}.

Definition fit (v : Hash) : Hash := take 32 (v ++ replicate 32 Byte.x00).

#[export] Instance geth : GethStateDB Geth := {|
  geth_GetState s a k := fit (default [] (storage s !! (a, k)));
  geth_SetState s a k v := mkGeth (<[(a, k) := v]> (storage s)) (balances s) (nonces s);
  geth_GetBalance s a := default 0 (balances s !! a) mod 2 ^ 256;
  geth_AddBalance s a x :=
    mkGeth (storage s) (<[a := default 0 (balances s !! a) + x]> (balances s)) (nonces s);
  geth_SubBalance s a x :=
    mkGeth (storage s) (<[a := default 0 (balances s !! a) - x]> (balances s)) (nonces s);
  geth_GetNonce s a := u64 (default 0 (nonces s !! a));
  geth_SetNonce s a n := mkGeth (storage s) (balances s) (<[a := n]> (nonces s))
|}.

Lemma fit_length v : length (fit v) = 32%nat.
Proof. unfold fit. rewrite length_take, length_app, length_replicate. lia. Qed.

Lemma fit_id v : length v = 32%nat -> fit v = v.
Proof. intros Hv. unfold fit. by rewrite take_app_length'. Qed.

#[export] Instance geth_spec : GethStateDBSpec Geth.
Proof.
  split; intros; simpl; try done; try apply fit_length.
  - case_decide as Hc.
    + destruct Hc as [<- <-]. rewrite lookup_insert_eq. by apply fit_id.
    + rewrite lookup_insert_ne; [done|]. naive_solver.
  - case_decide; [subst; rewrite lookup_insert_eq|by rewrite lookup_insert_ne].
    simpl. by rewrite Zplus_mod_idemp_l.
  - case_decide; [subst; rewrite lookup_insert_eq|by rewrite lookup_insert_ne].
    simpl. by rewrite Zminus_mod_idemp_l.
  - case_decide; [subst; rewrite lookup_insert_eq|by rewrite lookup_insert_ne].
    by apply u64_small.
  - apply Z.mod_pos_bound. lia.
  - apply is_u64_mod.
Qed.

Definition addr0 : Address := replicate 20 Byte.x05.
Definition coin0 : Hash := replicate 32 Byte.x07.
Definition state0 : StateDB Geth := New (mkGeth ∅ {[addr0 := 12]} ∅).

Lemma multicoin_add_sub_witness :
  let s' := ext_SubBalanceMultiCoin (ext_AddBalanceMultiCoin state0 addr0 coin0 9) addr0 coin0 9 in
  ext_GetBalanceMultiCoin (ext_AddBalanceMultiCoin state0 addr0 coin0 9) addr0 coin0 =
    ext_GetBalanceMultiCoin state0 addr0 coin0 + 9 /\
  ext_GetBalanceMultiCoin s' addr0 coin0 = ext_GetBalanceMultiCoin state0 addr0 coin0 /\
  GetBalance s' addr0 = GetBalance state0 addr0.
Proof.
  apply (multicoin_add_sub state0 addr0 coin0 9 addr0 coin0); [lia|vm_compute; reflexivity].
Defined.

Lemma SetState_sets_coin_balance_witness :
  ext_GetBalanceMultiCoin state0 addr0 coin0 = 0 /\
  ext_GetBalanceMultiCoin (SetState state0 addr0 coin0 (be_encode 32 77)) addr0 coin0 =
  be_decode (be_encode 32 77).
Proof.
  split; [vm_compute; reflexivity|].
  apply (SetState_sets_coin_balance state0 addr0 coin0 (be_encode 32 77)); reflexivity.
Defined.

End Concrete.

End extstate.
