(* ===== verification/AtomicTx.v ===== *)
(** * Atomic transactions: operations

    [plugin/evm/atomic]: [tx.go], [import_tx.go] and [export_tx.go]: well-formedness,
    gas and fees, the shared-memory operations of a transaction, its effect on the EVM
    state, and the construction of import and export transactions.

    The keys, the keychain and the UTXO library ([luxfi/utxo], [luxfi/util]) are
    classes; so is the order in which Go ranges over a map. *)

From S2P Require Import Prelude Deps GoStd Packer AtomicTypes AtomicCodec ExtState.
Import atomic codec.

(** [luxfi/utxo], [luxfi/util], [luxfi/vm/components/verify], [luxfi/constants] *)
Class UtxoLib := {
  (** [UTXOID.InputID()] *)
  InputID : ID -> Z -> ID;
  TransferableInput_Verify : TransferableInput -> result unit;
  TransferableOutput_Verify : TransferableOutput -> result unit;
  (** [TransferableIn.Cost()] *)
  Cost : TransferableIn -> result Z;
  CostPerSignature : Z;
  (** [Addressable.Addresses()], for the outputs that have it *)
  Addresses : TransferableOut -> option (list (list byte));
  SameChain : ID -> ID -> result unit;
  PlatformChainID : ID;
  TransferableInput_Compare : TransferableInput -> TransferableInput -> Z;
  IsSortedTransferableOutputs : list TransferableOutput -> bool;
  SortTransferableOutputs : list TransferableOutput -> list TransferableOutput;
  IsSortedAndUnique : forall {A}, (A -> A -> Z) -> list A -> bool;
  utils_Sort : forall {A}, (A -> A -> Z) -> list A -> list A;
  ID_Hex : ID -> list byte
}.

(** [secp256k1.PrivateKey], [secp256k1fx.Keychain] and the sort of inputs with their
    signers. [Spend] gives [None] for an input that is not a [TransferableIn]. *)
Class Keychain (PrivateKey : Type) := {
  EVMAddress : PrivateKey -> Address;
  SignHash : PrivateKey -> list byte -> result (list byte);
  Spend : TransferableOut -> Z -> result (option TransferableIn * list PrivateKey);
  SortTransferableInputsWithSigners :
    list TransferableInput -> list (list PrivateKey) -> list TransferableInput * list (list PrivateKey)
}.

(** The orders of [range] over the maps of this package. *)
Class AtomicRange := {
  range_amounts : gmap ID Z -> list (ID * Z);
  range_nonces : gmap Address Z -> list (Address * Z)
}.

(** The fields of [consensusctx.Context] the package reads. *)
Record Context_ := mkContext { ctx_NetworkID : Z; ctx_ChainID : ID; ctx_UTXOAssetID : ID }.

Module atomictx.

Definition X2CRate : Z := 1000000000.
Definition x2cRateMinus1 : Z := X2CRate - 1.
Definition AtomicTxBaseCost : Z := 10000.
Definition AtomicGasLimit : Z := 100000.

Definition ErrWrongNetworkID : error := errors_New "atomic.ErrWrongNetworkID".
Definition errNoValueOutput : error := errors_New "atomic.errNoValueOutput".
Definition ErrNoValueInput : error := errors_New "atomic.ErrNoValueInput".
Definition errNilOutput : error := errors_New "atomic.errNilOutput".
Definition errNilInput : error := errors_New "atomic.errNilInput".
Definition errEmptyAssetID : error := errors_New "atomic.errEmptyAssetID".
Definition errNilBaseFee : error := errors_New "atomic.errNilBaseFee".
Definition errFeeOverflow : error := errors_New "atomic.errFeeOverflow".
Definition ErrImportNonLUXInput : error := errors_New "atomic.ErrImportNonLUXInput".
Definition ErrImportNonLUXOutput : error := errors_New "atomic.ErrImportNonLUXOutput".
Definition ErrNoImportInputs : error := errors_New "atomic.ErrNoImportInputs".
Definition ErrWrongChainID : error := errors_New "atomic.ErrWrongChainID".
Definition ErrNoEVMOutputs : error := errors_New "atomic.ErrNoEVMOutputs".
Definition ErrInputsNotSortedUnique : error := errors_New "atomic.ErrInputsNotSortedUnique".
Definition ErrOutputsNotSortedUnique : error := errors_New "atomic.ErrOutputsNotSortedUnique".
Definition ErrOutputsNotSorted : error := errors_New "atomic.ErrOutputsNotSorted".
Definition errMissingBaseFee : error := errors_New "atomic.errMissingBaseFee".
Definition errInsufficientFundsForFee : error := errors_New "atomic.errInsufficientFundsForFee".
Definition ErrExportNonLUXInput : error := errors_New "atomic.ErrExportNonLUXInput".
Definition ErrExportNonLUXOutput : error := errors_New "atomic.ErrExportNonLUXOutput".
Definition ErrNoExportOutputs : error := errors_New "atomic.ErrNoExportOutputs".
Definition errInsufficientFunds : error := errors_New "atomic.errInsufficientFunds".
Definition errInvalidNonce : error := errors_New "atomic.errInvalidNonce".

(** ** [tx.go] *)

Definition TxBytesGas : Z := 1.
Definition EVMOutputGas : Z := (20 + 8 + 32) * TxBytesGas.

Definition EVMOutput_Compare (o other : EVMOutput) : Z :=
  let addrComp := bytes.Compare (EO_Address o) (EO_Address other) in
  if negb (addrComp =? 0) then addrComp
  else bytes.Compare (EO_AssetID o) (EO_AssetID other).

Definition EVMInput_Compare (i other : EVMInput) : Z :=
  let addrComp := bytes.Compare (EI_Address i) (EI_Address other) in
  if negb (addrComp =? 0) then addrComp
  else bytes.Compare (EI_AssetID i) (EI_AssetID other).

Definition EVMOutput_Verify (o : option EVMOutput) : result unit :=
  match o with
  | None => Err errNilOutput
  | Some o =>
      if EO_Amount o =? 0 then Err errNoValueOutput
      else if bool_decide (EO_AssetID o = ID_Empty) then Err errEmptyAssetID
      else Ok tt
  end.

Definition EVMInput_Verify (i : option EVMInput) : result unit :=
  match i with
  | None => Err errNilInput
  | Some i =>
      if EI_Amount i =? 0 then Err ErrNoValueInput
      else if bool_decide (EI_AssetID i = ID_Empty) then Err errEmptyAssetID
      else Ok tt
  end.

(** A loop that runs a check on each element, in order. *)
Fixpoint check_all {A} (check : A -> result unit) (l : list A) : result unit :=
  match l with
  | [] => Ok tt
  | x :: l' => _ ← check x; check_all check l'
  end.

(** The promoted methods of the embedded interface; a nil one is a nil dereference. *)
Definition dispatch {A} (tx : Tx) (imp : UnsignedImportTx -> result A)
    (exp : UnsignedExportTx -> result A) : result A :=
  match Unsigned tx with
  | Some (ImportTx u) => imp u
  | Some (ExportTx u) => exp u
  | None => Panic
  end.

Definition Tx_ID (tx : Tx) : result ID :=
  dispatch tx (fun u => Ok (md_id (IM_Metadata u))) (fun u => Ok (md_id (EX_Metadata u))).

(** [CalculateDynamicFee]; [big.Int.Div] by a positive number rounds down. *)
Definition CalculateDynamicFee (cost : Z) (baseFee : option Z) : result Z :=
  match baseFee with
  | None => Err errNilBaseFee
  | Some baseFee =>
      let fee := (cost * baseFee + x2cRateMinus1) / X2CRate in
      if negb (IsUint64 fee) then Err errFeeOverflow else Ok fee
  end.

Definition calcBytesCost (len : nat) : Z := (u64 (u64 (Z.of_nat len) * TxBytesGas)).

Section Tx.
Context {UL : UtxoLib} {SM : SafeMath} {PL : PackerLib}.
Context (ComputeHash256 : list byte -> ID).

Definition EVMInputGas : Z := (20 + 8 + 32 + 8) * TxBytesGas + CostPerSignature.

Definition Tx_Compare (tx other : Tx) : result Z :=
  id ← Tx_ID tx;
  otherID ← Tx_ID other;
  let c := bytes.Compare (ID_Hex id) (ID_Hex otherID) in
  Ok (if c <? 0 then -1 else if 0 <? c then 1 else 0).

(** ** [import_tx.go] *)

Definition Import_InputUTXOs (utx : UnsignedImportTx) : gset ID :=
  fold_left (fun set i => set ∪ {[InputID (TI_TxID i) (TI_OutputIndex i)]}) (ImportedInputs utx) ∅.

Definition Import_Verify (ctx : Context_) (utx : option UnsignedImportTx) : result unit :=
  match utx with
  | None => Err ErrNilTx
  | Some utx =>
      _ ← fail_if (length (ImportedInputs utx) =? 0)%nat ErrNoImportInputs;
      _ ← fail_if (negb (IM_NetworkID utx =? ctx_NetworkID ctx)) ErrWrongNetworkID;
      _ ← fail_if (bool_decide (ctx_ChainID ctx <> IM_BlockchainID utx)) ErrWrongChainID;
      _ ← fail_if (length (Outs utx) =? 0)%nat ErrNoEVMOutputs;
      _ ← match SameChain (ctx_ChainID ctx) (SourceChain utx) with
          | Err _ => Err ErrWrongChainID
          | r => r
          end;
      _ ← check_all (fun out =>
            _ ← wrap_err "EVM Output failed verification" (EVMOutput_Verify (Some out));
            fail_if (bool_decide (EO_AssetID out <> ctx_UTXOAssetID ctx)) ErrImportNonLUXOutput)
          (Outs utx);
      _ ← check_all (fun i =>
            _ ← wrap_err "atomic input failed verification" (TransferableInput_Verify i);
            fail_if (bool_decide (TI_AssetID i <> ctx_UTXOAssetID ctx)) ErrImportNonLUXInput)
          (ImportedInputs utx);
      _ ← fail_if (negb (IsSortedAndUnique TransferableInput_Compare (ImportedInputs utx)))
            ErrInputsNotSortedUnique;
      fail_if (negb (IsSortedAndUnique EVMOutput_Compare (Outs utx))) ErrOutputsNotSortedUnique
  end.

Fixpoint addCosts (ins : list TransferableInput) (cost : Z) : result Z :=
  match ins with
  | [] => Ok cost
  | i :: ins' => inCost ← Cost (TI_In i); cost' ← Add64 cost inCost; addCosts ins' cost'
  end.

Definition Import_GasUsed (utx : UnsignedImportTx) (fixedFee : bool) : result Z :=
  let cost := calcBytesCost (length (md_unsignedBytes (IM_Metadata utx))) in
  cost ← addCosts (ImportedInputs utx) cost;
  if fixedFee then Add64 cost AtomicTxBaseCost else Ok cost.

(** [for _, x := range l { if asset(x) == assetID { sum, err = math.Add(sum, amount(x)) } }] *)
Fixpoint sumAsset {A} (asset : A -> ID) (amount : A -> Z) (assetID : ID) (l : list A) (sum : Z)
    : result Z :=
  match l with
  | [] => Ok sum
  | x :: l' =>
      sum' ← (if bool_decide (asset x = assetID) then Add64 sum (amount x) else Ok sum);
      sumAsset asset amount assetID l' sum'
  end.

Definition Import_Burned (utx : UnsignedImportTx) (assetID : ID) : result Z :=
  spent ← sumAsset EO_AssetID EO_Amount assetID (Outs utx) 0;
  input ← sumAsset TI_AssetID (In_Amount ∘ TI_In) assetID (ImportedInputs utx) 0;
  Sub64 input spent.

Definition Import_AtomicOps (utx : UnsignedImportTx) : result (ID * Requests) :=
  Ok (SourceChain utx,
      mkRequests (map (fun i => InputID (TI_TxID i) (TI_OutputIndex i)) (ImportedInputs utx)) []).

(** ** [export_tx.go] *)

(** [rawID] is the packer's buffer: what is packed is written into it. *)
Definition export_rawID (i : EVMInput) : ID :=
  Bytes (snd ((_ ← PackLong (EI_Nonce i); PackBytes (EI_Address i))
              (mkPacker (replicate 32 Byte.x00) 0 0 None))).

Definition Export_InputUTXOs (utx : UnsignedExportTx) : gset ID :=
  fold_left (fun set i => set ∪ {[export_rawID i]}) (Ins utx) ∅.

Definition Export_Verify (ctx : Context_) (utx : option UnsignedExportTx) : result unit :=
  match utx with
  | None => Err ErrNilTx
  | Some utx =>
      _ ← fail_if (length (ExportedOutputs utx) =? 0)%nat ErrNoExportOutputs;
      _ ← fail_if (negb (EX_NetworkID utx =? ctx_NetworkID ctx)) ErrWrongNetworkID;
      _ ← fail_if (bool_decide (ctx_ChainID ctx <> EX_BlockchainID utx)) ErrWrongChainID;
      _ ← fail_if (bool_decide (ctx_ChainID ctx = DestinationChain utx)) ErrWrongChainID;
      _ ← check_all (fun i =>
            _ ← EVMInput_Verify (Some i);
            fail_if (bool_decide (ctx_UTXOAssetID ctx <> EI_AssetID i)) ErrExportNonLUXInput)
          (Ins utx);
      _ ← check_all (fun out =>
            _ ← TransferableOutput_Verify out;
            _ ← fail_if (bool_decide (ctx_UTXOAssetID ctx <> TO_AssetID out) &&
                         bool_decide (PlatformChainID = DestinationChain utx)) ErrWrongChainID;
            fail_if (bool_decide (ctx_UTXOAssetID ctx <> TO_AssetID out)) ErrExportNonLUXOutput)
          (ExportedOutputs utx);
      _ ← fail_if (negb (IsSortedTransferableOutputs (ExportedOutputs utx))) ErrOutputsNotSorted;
      fail_if (negb (IsSortedAndUnique EVMInput_Compare (Ins utx))) ErrInputsNotSortedUnique
  end.

Definition Export_GasUsed (utx : UnsignedExportTx) (fixedFee : bool) : result Z :=
  let byteCost := calcBytesCost (length (md_unsignedBytes (EX_Metadata utx))) in
  let numSigs := u64 (Z.of_nat (length (Ins utx))) in
  sigCost ← Mul64 numSigs CostPerSignature;
  cost ← Add64 byteCost sigCost;
  if fixedFee then Add64 cost AtomicTxBaseCost else Ok cost.

Definition Export_Burned (utx : UnsignedExportTx) (assetID : ID) : result Z :=
  spent ← sumAsset TO_AssetID (Out_Amount ∘ TO_Out) assetID (ExportedOutputs utx) 0;
  input ← sumAsset EI_AssetID EI_Amount assetID (Ins utx) 0;
  Sub64 input spent.

(** The elements an export puts in shared memory, the output index counting up. *)
Fixpoint exportElements (txID : ID) (i : Z) (outs : list TransferableOutput)
    : result (list Element) :=
  match outs with
  | [] => Ok []
  | out :: outs' =>
      let utxo := mkUTXO txID (u32 i) (TO_AssetID out) (TO_Out out) in
      utxoBytes ← Codec_Marshal CodecVersion (V_UTXO utxo);
      let elem := mkElement (InputID (UTXO_TxID utxo) (UTXO_OutputIndex utxo)) utxoBytes
                    (default [] (Addresses (TO_Out out))) in
      elems ← exportElements txID (i + 1) outs';
      Ok (elem :: elems)
  end.

Definition Export_AtomicOps (utx : UnsignedExportTx) : result (ID * Requests) :=
  elems ← exportElements (md_id (EX_Metadata utx)) 0 (ExportedOutputs utx);
  Ok (DestinationChain utx, mkRequests [] elems).

(** ** The transaction's methods *)

Definition Tx_InputUTXOs (tx : Tx) : result (gset ID) :=
  dispatch tx (fun u => Ok (Import_InputUTXOs u)) (fun u => Ok (Export_InputUTXOs u)).
Definition Tx_Verify (ctx : Context_) (tx : Tx) : result unit :=
  dispatch tx (fun u => Import_Verify ctx (Some u)) (fun u => Export_Verify ctx (Some u)).
Definition Tx_GasUsed (tx : Tx) (fixedFee : bool) : result Z :=
  dispatch tx (fun u => Import_GasUsed u fixedFee) (fun u => Export_GasUsed u fixedFee).
Definition Tx_Burned (tx : Tx) (assetID : ID) : result Z :=
  dispatch tx (fun u => Import_Burned u assetID) (fun u => Export_Burned u assetID).
Definition Tx_AtomicOps (tx : Tx) : result (ID * Requests) :=
  dispatch tx Import_AtomicOps Export_AtomicOps.

(** [BlockFeeContribution]: the contribution and the gas used. *)
Definition BlockFeeContribution (tx : Tx) (fixedFee : bool) (utxoAssetID : ID) (baseFee : option Z)
    : result (Z * Z) :=
  match baseFee with
  | None => Err errNilBaseFee
  | Some bf =>
      if bf <=? 0 then Err (errors_New "cannot calculate tip with base fee <= 0") else
      gasUsed ← Tx_GasUsed tx fixedFee;
      txFee ← CalculateDynamicFee gasUsed baseFee;
      burned ← Tx_Burned tx utxoAssetID;
      if burned <? txFee then Err (errors_New "insufficient LUX burned") else
      let excessBurned := (burned -u txFee)%word in
      Ok (excessBurned * X2CRate, gasUsed)
  end.

Section Keys.
Context {PrivateKey : Type} {KC : Keychain PrivateKey}.

Fixpoint signAll (keys : list PrivateKey) (h : list byte) : result (list (list byte)) :=
  match keys with
  | [] => Ok []
  | key :: keys' =>
      sig ← wrap_err "problem generating credential" (SignHash key h);
      sigs ← signAll keys' h;
      Ok (copy_array SignatureLen sig :: sigs)
  end.

Fixpoint credentials (signers : list (list PrivateKey)) (h : list byte) : result (list Verifiable) :=
  match signers with
  | [] => Ok []
  | keys :: signers' =>
      sigs ← signAll keys h;
      creds ← credentials signers' h;
      Ok (Credential sigs :: creds)
  end.

(** [Tx.Sign]: the transaction with its credentials and metadata. *)
Definition Sign (tx : Tx) (signers : list (list PrivateKey)) : result Tx :=
  unsignedBytes ← wrap_err "couldn't marshal UnsignedAtomicTx"
                    (Codec_Marshal CodecVersion (V_UnsignedAtomicTxPtr (Unsigned tx)));
  creds ← credentials signers (ComputeHash256 unsignedBytes);
  let tx := mkTx (Unsigned tx) (Creds tx ++ creds) in
  signedBytes ← wrap_err "couldn't marshal Tx" (Codec_Marshal CodecVersion (V_Tx (Some tx)));
  match Unsigned tx with
  | None => Panic
  | Some utx =>
      Ok (mkTx (Some (set_Metadata utx (Metadata_Initialize ComputeHash256 unsignedBytes signedBytes)))
               (Creds tx))
  end.

(** ** Building an import *)

(** The loop over the UTXOs: what is skipped, what is imported, the amount per asset. *)
Fixpoint collectUTXOs (time : Z) (utxos : list UTXO) (importedAmount : gmap ID Z)
    (ins : list TransferableInput) (signers : list (list PrivateKey))
    : result (gmap ID Z * list TransferableInput * list (list PrivateKey)) :=
  match utxos with
  | [] => Ok (importedAmount, ins, signers)
  | utxo :: utxos' =>
      match Spend (UTXO_Out utxo) time with
      | Panic => Panic
      | Err _ => collectUTXOs time utxos' importedAmount ins signers
      | Ok (None, _) => collectUTXOs time utxos' importedAmount ins signers
      | Ok (Some input, utxoSigners) =>
          let aid := UTXO_AssetID utxo in
          amount ← Add64 (default 0 (importedAmount !! aid)) (In_Amount input);
          collectUTXOs time utxos' (<[aid := amount]> importedAmount)
            (ins ++ [mkTransferableInput (UTXO_TxID utxo) (UTXO_OutputIndex utxo) aid input])
            (signers ++ [utxoSigners])
      end
  end.

Definition nonLUXOuts (ctx : Context_) (to : Address) (amounts : list (ID * Z)) : list EVMOutput :=
  fold_left (fun outs '(assetID, amount) =>
    if bool_decide (assetID = ctx_UTXOAssetID ctx) || (amount =? 0) then outs
    else outs ++ [mkEVMOutput to amount assetID]) amounts [].

Definition newImport (ctx : Context_) (chainID : ID) (ins : list TransferableInput)
    (outs : list EVMOutput) : Tx :=
  mkTx (Some (ImportTx (mkImport Metadata_zero (ctx_NetworkID ctx) (ctx_ChainID ctx) chainID ins outs))) [].

(** The pair [(tx, err)] of Go is the error when there is one. *)
Definition NewImportTx {RG : AtomicRange} (ctx : Context_) (time : Z) (chainID : ID) (to : Address)
    (baseFee : option Z) (atomicUTXOs : list UTXO) : result Tx :=
  collected ← collectUTXOs time atomicUTXOs ∅ [] [];
  let '(importedAmount, ins, signers) := collected in
  let '(importedInputs, signers) := SortTransferableInputsWithSigners ins signers in
  let importedLUXAmount := default 0 (importedAmount !! ctx_UTXOAssetID ctx) in
  let outs := nonLUXOuts ctx to (range_amounts importedAmount) in
  _ ← fail_if (bool_decide (baseFee = None)) errMissingBaseFee;
  probe ← Sign (newImport ctx chainID importedInputs outs) [];
  gasUsedWithoutChange ← Tx_GasUsed probe true;
  let gasUsedWithChange := (gasUsedWithoutChange +u EVMOutputGas)%word in
  txFeeWithoutChange ← CalculateDynamicFee gasUsedWithoutChange baseFee;
  txFeeWithChange ← CalculateDynamicFee gasUsedWithChange baseFee;
  _ ← fail_if (importedLUXAmount <? txFeeWithoutChange) errInsufficientFundsForFee;
  let outs :=
    if txFeeWithChange <? importedLUXAmount
    then outs ++ [mkEVMOutput to ((importedLUXAmount -u txFeeWithChange)%word) (ctx_UTXOAssetID ctx)]
    else outs in
  _ ← fail_if (length outs =? 0)%nat ErrNoEVMOutputs;
  let outs := utils_Sort EVMOutput_Compare outs in
  tx ← Sign (newImport ctx chainID importedInputs outs) signers;
  _ ← Tx_Verify ctx tx;
  Ok tx.

(** ** Building an export *)

Section State.
Context {S : Type} {DB : AtomicStateDB S}.

(** [new(uint256.Int).Div(state.GetBalance(addr), X2CRate).Uint64()] *)
Definition luxBalance (state : S) (addr : Address) : Z := u64 (GetBalance state addr / X2CRate).

Fixpoint getSpendableFunds_loop (ctx : Context_) (state : S) (keys : list PrivateKey) (assetID : ID)
    (amount : Z) (inputs : list EVMInput) (signers : list (list PrivateKey))
    : Z * list EVMInput * list (list PrivateKey) :=
  match keys with
  | [] => (amount, inputs, signers)
  | key :: keys' =>
      if amount =? 0 then (amount, inputs, signers) else
      let addr := EVMAddress key in
      let balance := if bool_decide (ctx_UTXOAssetID ctx = assetID) then luxBalance state addr
                     else u64 (GetBalanceMultiCoin state addr assetID) in
      if balance =? 0 then getSpendableFunds_loop ctx state keys' assetID amount inputs signers else
      let balance := if amount <? balance then amount else balance in
      let nonce := GetNonce state addr in
      getSpendableFunds_loop ctx state keys' assetID ((amount -u balance)%word)
        (inputs ++ [mkEVMInput addr balance assetID nonce]) (signers ++ [[key]])
  end.

Definition getSpendableFunds (ctx : Context_) (state : S) (keys : list PrivateKey) (assetID : ID)
    (amount : Z) : result (list EVMInput * list (list PrivateKey)) :=
  let '(amount, inputs, signers) := getSpendableFunds_loop ctx state keys assetID amount [] [] in
  if 0 <? amount then Err errInsufficientFunds else Ok (inputs, signers).

Fixpoint getSpendableLUX_loop (ctx : Context_) (state : S) (keys : list PrivateKey) (amount cost : Z)
    (baseFee : option Z) (inputs : list EVMInput) (signers : list (list PrivateKey))
    : result (Z * list EVMInput * list (list PrivateKey)) :=
  match keys with
  | [] => Ok (amount, inputs, signers)
  | key :: keys' =>
      if amount =? 0 then Ok (amount, inputs, signers) else
      prevFee ← CalculateDynamicFee cost baseFee;
      let newCost := (cost +u EVMInputGas)%word in
      newFee ← CalculateDynamicFee newCost baseFee;
      let additionalFee := (newFee -u prevFee)%word in
      let addr := EVMAddress key in
      let balance := luxBalance state addr in
      if balance <=? additionalFee
      then getSpendableLUX_loop ctx state keys' amount cost baseFee inputs signers else
      amount ← Add64 amount additionalFee;
      let inputAmount := if amount <? balance then amount else balance in
      let nonce := GetNonce state addr in
      getSpendableLUX_loop ctx state keys' ((amount -u inputAmount)%word) newCost baseFee
        (inputs ++ [mkEVMInput addr inputAmount (ctx_UTXOAssetID ctx) nonce]) (signers ++ [[key]])
  end.

Definition getSpendableLUXWithFee (ctx : Context_) (state : S) (keys : list PrivateKey)
    (amount cost : Z) (baseFee : option Z) : result (list EVMInput * list (list PrivateKey)) :=
  initialFee ← CalculateDynamicFee cost baseFee;
  amount ← Add64 amount initialFee;
  r ← getSpendableLUX_loop ctx state keys amount cost baseFee [] [];
  let '(amount, inputs, signers) := r in
  if 0 <? amount then Err errInsufficientFunds else Ok (inputs, signers).

(** [innerSortInputsAndSigners.Less], and the sort of the two slices together, which
    have the same length. *)
Definition inputs_Less (x y : EVMInput * list PrivateKey) : bool :=
  EVMInput_Compare (fst x) (fst y) <? 0.

Definition SortEVMInputsAndSigners (inputs : list EVMInput) (signers : list (list PrivateKey))
    : list EVMInput * list (list PrivateKey) :=
  let sorted := sort.Sort inputs_Less (zip inputs signers) in
  (map fst sorted, map snd sorted).

Definition newExport (ctx : Context_) (chainID : ID) (ins : list EVMInput)
    (outs : list TransferableOutput) : Tx :=
  mkTx (Some (ExportTx (mkExport Metadata_zero (ctx_NetworkID ctx) (ctx_ChainID ctx) chainID ins outs))) [].

Definition NewExportTx (ctx : Context_) (state : S) (assetID : ID) (amount : Z) (chainID : ID)
    (to : Address) (baseFee : option Z) (keys : list PrivateKey) : result Tx :=
  let outs := [mkTransferableOutput assetID (TransferOutput amount 0 1 [to])] in
  let isLUX := bool_decide (ctx_UTXOAssetID ctx = assetID) in
  funds ← (if negb isLUX
           then wrap_err "couldn't generate tx inputs/signers"
                  (getSpendableFunds ctx state keys assetID amount)
           else Ok ([], []));
  let '(ins, signers) := funds in
  let luxNeeded := if isLUX then amount else 0 in
  probe ← Sign (newExport ctx chainID ins outs) [];
  cost ← Tx_GasUsed probe true;
  luxFunds ← wrap_err "couldn't generate tx inputs/signers"
               (getSpendableLUXWithFee ctx state keys luxNeeded cost baseFee);
  let '(luxIns, luxSigners) := luxFunds in
  let outs := SortTransferableOutputs outs in
  let '(ins, signers) := SortEVMInputsAndSigners (ins ++ luxIns) (signers ++ luxSigners) in
  tx ← Sign (newExport ctx chainID ins outs) signers;
  _ ← Tx_Verify ctx tx;
  Ok tx.

(** ** Effect on the EVM state *)

Definition Import_EVMStateTransfer (ctx : Context_) (utx : UnsignedImportTx) (state : S) : S :=
  fold_left (fun state to =>
    if bool_decide (EO_AssetID to = ctx_UTXOAssetID ctx)
    then AddBalance state (EO_Address to) ((EO_Amount to * X2CRate) mod 2 ^ 256)
    else AddBalanceMultiCoin state (EO_Address to) (EO_AssetID to) (EO_Amount to)) (Outs utx) state.

(** One input of an export: the balance is taken before the nonce is checked. *)
Definition exportInput (ctx : Context_) (from : EVMInput) : StM S unit := fun state =>
  let '(r, state) :=
    if bool_decide (ctx_UTXOAssetID ctx = EI_AssetID from) then
      let amount := (EI_Amount from * X2CRate) mod 2 ^ 256 in
      if GetBalance state (EI_Address from) <? amount then (Err errInsufficientFunds, state)
      else (Ok tt, SubBalance state (EI_Address from) amount)
    else
      if GetBalanceMultiCoin state (EI_Address from) (EI_AssetID from) <? EI_Amount from
      then (Err errInsufficientFunds, state)
      else (Ok tt, SubBalanceMultiCoin state (EI_Address from) (EI_AssetID from) (EI_Amount from)) in
  match r with
  | Ok _ =>
      if negb (GetNonce state (EI_Address from) =? EI_Nonce from) then (Err errInvalidNonce, state)
      else (Ok tt, state)
  | e => (e, state)
  end.

Fixpoint exportInputs (ctx : Context_) (ins : list EVMInput) (addrs : gmap Address Z)
    : StM S (gmap Address Z) :=
  match ins with
  | [] => mret addrs
  | from :: ins' =>
      _ ← exportInput ctx from;
      exportInputs ctx ins' (<[EI_Address from := EI_Nonce from]> addrs)
  end.

Definition setNonces (nonces : list (Address * Z)) : StM S unit := fun state =>
  (Ok tt, fold_left (fun state '(addr, nonce) => SetNonce state addr ((nonce +u 1)%word)) nonces state).

Definition Export_EVMStateTransfer {RG : AtomicRange} (ctx : Context_) (utx : UnsignedExportTx)
    : StM S unit :=
  addrs ← exportInputs ctx (Ins utx) ∅;
  setNonces (range_nonces addrs).

Definition Tx_EVMStateTransfer {RG : AtomicRange} (ctx : Context_) (tx : Tx) : StM S unit :=
  fun state =>
  match Unsigned tx with
  | Some (ImportTx u) => (Ok tt, Import_EVMStateTransfer ctx u state)
  | Some (ExportTx u) => Export_EVMStateTransfer ctx u state
  | None => (Panic, state)
  end.

End State.
End Keys.
End Tx.

End atomictx.
