(* ===== verification/AtomicTxSpec.v ===== *)
(** * Atomic transactions: what the operations guarantee

    The laws of the libraries [AtomicTx] uses, and the theorems: the dynamic fee, the
    conflict sets, exactness of the fees paid by the transactions the node builds, the
    effect of a transaction on the EVM state, and the shared-memory elements of an
    export. *)

From Stdlib Require Import Sorting.Sorted.
From S2P Require Import Prelude Deps GoStd Packer AtomicTypes AtomicCodec AtomicFormat ExtState AtomicTx.
Import atomic codec wire.

Class UtxoLibSpec {UL : UtxoLib} : Prop := {
  InputID_length txID i : length (InputID txID i) = 32%nat;
  (** the signatures of a [secp256k1fx.TransferInput], each at the constant cost *)
  Cost_signatures amt sigs :
    Z.of_nat (length sigs) * CostPerSignature <= MaxUint64 ->
    Cost (TransferInput amt sigs) = Ok (Z.of_nat (length sigs) * CostPerSignature);
  (** a constant of 1000 gas *)
  CostPerSignature_bound : 0 <= CostPerSignature < 2 ^ 16;
  IsSortedAndUnique_adjacent {A} (cmp : A -> A -> Z) l i x y :
    IsSortedAndUnique cmp l = true -> l !! i = Some x -> l !! S i = Some y -> cmp x y < 0;
  SortTransferableOutputs_Permutation l : SortTransferableOutputs l ≡ₚ l;
  utils_Sort_Permutation {A} (cmp : A -> A -> Z) l : utils_Sort cmp l ≡ₚ l
}.

Class KeychainSpec {K} {KC : Keychain K} : Prop := {
  EVMAddress_length k : length (EVMAddress k) = 20%nat;
  Spend_u64 o t i ks : Spend o t = Ok (Some i, ks) -> is_u64 (In_Amount i);
  SortInputs_Permutation ins (signers : list (list K)) :
    fst (SortTransferableInputsWithSigners ins signers) ≡ₚ ins
}.

Class AtomicRangeSpec {RG : AtomicRange} : Prop := {
  range_amounts_to_list m : range_amounts m ≡ₚ map_to_list m;
  range_nonces_to_list m : range_nonces m ≡ₚ map_to_list m
}.

Module atomicspec.
Import atomictx.

(** ** The dynamic fee *)

(** [cost * baseFee], in the smallest denomination of the EVM, rounded up to the smallest
    denomination of the other chains. *)
Definition fee_of (cost baseFee : Z) : Z := (cost * baseFee + (X2CRate - 1)) / X2CRate.

Lemma fee_of_ceil cost bf fee :
  fee_of cost bf = fee <-> cost * bf <= fee * X2CRate < cost * bf + X2CRate.
Proof.
  unfold fee_of, X2CRate. pose proof (Z.div_mod (cost * bf + (1000000000 - 1)) 1000000000 ltac:(lia)).
  pose proof (Z.mod_pos_bound (cost * bf + (1000000000 - 1)) 1000000000 ltac:(lia)). lia.
Qed.

Lemma fee_of_mono c c' bf : 0 <= bf -> c <= c' -> fee_of c bf <= fee_of c' bf.
Proof. intros Hb Hc. apply Z.div_le_mono; [done|]. nia. Qed.

Lemma CalculateDynamicFee_Ok cost bf fee :
  CalculateDynamicFee cost bf = Ok fee <->
  exists b, bf = Some b /\ fee = fee_of cost b /\ is_u64 fee.
Proof.
  unfold CalculateDynamicFee. destruct bf as [b|]; [|naive_solver].
  change ((cost * b + x2cRateMinus1) / X2CRate) with (fee_of cost b).
  destruct (IsUint64 (fee_of cost b)) eqn:E; simpl.
  - apply IsUint64_spec in E. naive_solver.
  - split; [done|]. intros (? & [= <-] & -> & Hu). apply IsUint64_spec in Hu. congruence.
Qed.

(** The dynamic fee of a transaction is the gas cost at the base fee rounded up to the
    next nLUX: the least amount whose value in wei covers it. It is refused exactly when
    the base fee is missing or the amount is not a [uint64]. *)
Theorem CalculateDynamicFee_ceiling cost bf fee :
  CalculateDynamicFee cost (Some bf) = Ok fee <->
  cost * bf <= fee * X2CRate < cost * bf + X2CRate /\ is_u64 fee.
Proof.
  rewrite CalculateDynamicFee_Ok. split.
  - intros (b & [= <-] & Hf & Hu). split; [by apply fee_of_ceil|done].
  - intros [Hf Hu]. exists bf. split_and!; [done| |done]. symmetry. by apply fee_of_ceil.
Qed.

(** ** Sums of an asset *)

Definition total {A} (asset : A -> ID) (amount : A -> Z) (assetID : ID) (l : list A) : Z :=
  foldr (fun x acc => (if bool_decide (asset x = assetID) then amount x else 0) + acc) 0 l.

Section Sums.
Context {SM : SafeMath} {SMS : SafeMathSpec SM}.

Lemma total_nonneg {A} asset amount aid (l : list A) :
  Forall (fun x => 0 <= amount x) l -> 0 <= total asset amount aid l.
Proof.
  induction 1 as [|x l Hx _ IH]; [done|]. unfold total in *. simpl. case_bool_decide; lia.
Qed.

Lemma total_app {A} asset amount aid (l k : list A) :
  total asset amount aid (l ++ k) = total asset amount aid l + total asset amount aid k.
Proof. induction l as [|x l IH]; [done|]. unfold total in *. simpl. lia. Qed.

Lemma total_Permutation {A} asset amount aid (l k : list A) :
  l ≡ₚ k -> total asset amount aid l = total asset amount aid k.
Proof. unfold total. induction 1; simpl; lia. Qed.

Lemma sumAsset_Ok {A} asset amount aid (l : list A) sum s :
  is_u64 sum -> Forall (fun x => is_u64 (amount x)) l ->
  sumAsset asset amount aid l sum = Ok s <-> s = sum + total asset amount aid l /\ is_u64 s.
Proof.
  intros Hs Hl. revert sum Hs. induction Hl as [|x l Hx Hl IH]; intros sum Hs.
  - simpl. unfold total. simpl. rewrite Z.add_0_r. naive_solver.
  - assert (0 <= total asset amount aid l) as Hn.
    { apply total_nonneg. eapply list.Forall_impl; [exact Hl|]. unfold is_u64. lia. }
    simpl. unfold total. simpl. fold (total asset amount aid l).
    case_bool_decide as Ha.
    + destruct (Z.le_gt_cases (sum + amount x) MaxUint64) as [Hle|Hgt].
      * rewrite Add64_ok by done. simpl. rewrite IH by u64_lia. split; intros []; split; u64_lia.
      * destruct (proj1 (is_Err_spec _) (Add64_overflow sum (amount x) Hs Hx Hgt)) as [e ->].
        simpl. split; [done|]. u64_lia.
    + simpl. rewrite IH by done. split; intros []; split; u64_lia.
Qed.

Lemma Sub64_Ok a b r : is_u64 a -> is_u64 b -> Sub64 a b = Ok r <-> r = a - b /\ b <= a.
Proof.
  intros Ha Hb. destruct (Z.le_gt_cases b a) as [Hle|Hgt].
  - rewrite Sub64_ok by done. naive_solver.
  - destruct (proj1 (is_Err_spec _) (Sub64_underflow a b Ha Hb Hgt)) as [e ->]. split; [done|lia].
Qed.

Lemma Add64_Ok a b r : is_u64 a -> is_u64 b -> Add64 a b = Ok r <-> r = a + b /\ is_u64 r.
Proof.
  intros Ha Hb. destruct (Z.le_gt_cases (a + b) MaxUint64) as [Hle|Hgt].
  - rewrite Add64_ok by done. split; [intros [= <-]; u64_lia|by intros [-> _]].
  - destruct (proj1 (is_Err_spec _) (Add64_overflow a b Ha Hb Hgt)) as [e ->].
    split; [done|]. u64_lia.
Qed.

Lemma Burned_Ok {A B} (oa : A -> ID) om (ia : B -> ID) im aid outs ins b :
  Forall (fun x => is_u64 (om x)) outs -> Forall (fun x => is_u64 (im x)) ins ->
  (spent ← sumAsset oa om aid outs 0; input ← sumAsset ia im aid ins 0; Sub64 input spent) = Ok b <->
  is_u64 (total oa om aid outs) /\ is_u64 (total ia im aid ins) /\
  total oa om aid outs <= total ia im aid ins /\
  b = total ia im aid ins - total oa om aid outs.
Proof.
  intros Ho Hi. rewrite bind_Ok_iff.
  assert (is_u64 0) as H0 by u64_lia. split.
  - intros (spent & Hs & H). apply sumAsset_Ok in Hs as [-> Hs]; [|done..].
    apply bind_Ok in H as (input & Hin & H). apply sumAsset_Ok in Hin as [-> Hin]; [|done..].
    rewrite !Z.add_0_l in *. apply Sub64_Ok in H as [-> Hle]; [|done..]. done.
  - intros (Hs & Hin & Hle & ->). exists (total oa om aid outs).
    split; [by apply sumAsset_Ok|]. rewrite bind_Ok_iff. exists (total ia im aid ins).
    split; [by apply sumAsset_Ok|]. by apply Sub64_Ok.
Qed.

End Sums.

(** ** Conflict sets *)

Section Conflicts.
Context {UL : UtxoLib} {PL : PackerLib} {PS : PackerSpec}.

Definition wf_input (i : EVMInput) : Prop := length (EI_Address i) = 20%nat /\ is_u64 (EI_Nonce i).

Lemma export_rawID_eq i : wf_input i ->
  export_rawID i = be_encode 8 (EI_Nonce i) ++ be_encode 4 20 ++ EI_Address i.
Proof.
  intros [Ha _]. unfold export_rawID.
  change (mkPacker _ 0 0 None) with (presized [] (replicate 32 Byte.x00) 0).
  rewrite (bindM_step _ _ _ _ _ (Packs_presized _ _ [] (replicate 32 Byte.x00) 0 (PackLong_spec _)
             ltac:(rewrite length_be_encode; simpl; lia))).
  rewrite PackBytes_presized by (rewrite length_be_encode, Ha; simpl; lia).
  rewrite Ha, length_be_encode. cbn [snd presized Bytes].
  change (drop _ (drop _ _)) with (@nil byte). by rewrite app_nil_r.
Qed.

Lemma export_rawID_inj i j : wf_input i -> wf_input j ->
  export_rawID i = export_rawID j <-> EI_Address i = EI_Address j /\ EI_Nonce i = EI_Nonce j.
Proof.
  intros Hi Hj. rewrite !export_rawID_eq by done. split; [|by intros [-> ->]].
  intros H. apply app_inj_1 in H as [Hn H]; [|by rewrite !length_be_encode].
  apply app_inv_head in H. split; [done|].
  apply (f_equal be_decode) in Hn. rewrite !be_decode_encode in Hn; [done|apply Hj|apply Hi].
Qed.

Lemma elem_of_fold_union {A} (f : A -> ID) (l : list A) (x : ID) :
  x ∈ fold_left (fun set i => set ∪ {[f i]}) l (∅ : gset ID) <-> exists i, i ∈ l /\ x = f i.
Proof.
  assert (forall acc : gset ID, x ∈ fold_left (fun set i => set ∪ {[f i]}) l acc <->
          x ∈ acc \/ exists i, i ∈ l /\ x = f i) as H.
  { induction l as [|y l IH]; intros acc; simpl.
    - split; [by left|]. intros [?|(? & Hi & _)]; [done|]. by apply not_elem_of_nil in Hi.
    - rewrite IH, elem_of_union, elem_of_singleton. split.
      + intros [[?| ->]|(i & Hi & ->)]; [by left|right; exists y|right; exists i];
          (split; [|done]); [apply list_elem_of_here|by apply list_elem_of_further].
      + intros [?|(i & Hi & ->)]; [by left; left|]. apply elem_of_cons in Hi as [->|Hi];
          [by left; right|right; eauto]. }
  rewrite H. set_solver.
Qed.

(** Two exports conflict in the mempool and in a block exactly when they spend the same
    nonce of the same account. *)
Theorem export_conflicts_iff u1 u2 :
  Forall wf_input (Ins u1) -> Forall wf_input (Ins u2) ->
  Export_InputUTXOs u1 ## Export_InputUTXOs u2 <->
  ~ exists i j, i ∈ Ins u1 /\ j ∈ Ins u2 /\ EI_Address i = EI_Address j /\ EI_Nonce i = EI_Nonce j.
Proof.
  intros H1 H2. rewrite list.Forall_forall in H1, H2. unfold Export_InputUTXOs. split.
  - intros Hd (i & j & Hi & Hj & Ha & Hn). apply (Hd (export_rawID i)); apply elem_of_fold_union.
    + by exists i.
    + exists j. split; [done|]. apply export_rawID_inj; auto.
  - intros Hno x Hx1 Hx2. apply elem_of_fold_union in Hx1 as (i & Hi & ->).
    apply elem_of_fold_union in Hx2 as (j & Hj & Hij). apply Hno. exists i, j.
    apply export_rawID_inj in Hij; auto.
Qed.

End Conflicts.

(** ** Well-formed transactions *)

Lemma check_all_Ok {A} (f : A -> result unit) l :
  check_all f l = Ok tt <-> Forall (fun x => f x = Ok tt) l.
Proof.
  induction l as [|x l IH]; simpl; [by split|]. rewrite bind_Ok_iff. split.
  - intros ([] & Hx & Hl). constructor; [done|by apply IH].
  - intros H. inversion H; subst. exists tt. split; [done|by apply IH].
Qed.

Section WellFormed.
Context {UL : UtxoLib} {US : UtxoLibSpec}.

(** What a well-formed export promises: it spends and exports the native asset only, and
    from no account twice. *)
Lemma Export_Verify_Ok ctx u : Export_Verify ctx (Some u) = Ok tt ->
  Forall (fun i => EI_AssetID i = ctx_UTXOAssetID ctx /\ EI_Amount i <> 0) (Ins u) /\
  Forall (fun o => TO_AssetID o = ctx_UTXOAssetID ctx) (ExportedOutputs u) /\
  ExportedOutputs u <> [] /\ IsSortedAndUnique EVMInput_Compare (Ins u) = true.
Proof.
  unfold Export_Verify. intros HV. apply bind_Ok in HV as ([] & Hne & HV). apply fail_if_Ok in Hne.
  do 3 (apply bind_Ok in HV as ([] & _ & HV)).
  apply bind_Ok in HV as ([] & Hins & HV). apply bind_Ok in HV as ([] & Houts & HV).
  apply bind_Ok in HV as ([] & _ & HV). apply fail_if_Ok, negb_false_iff in HV.
  apply check_all_Ok in Hins, Houts. split_and!; [| | |done].
  - eapply list.Forall_impl; [exact Hins|]. intros i Hi. apply bind_Ok in Hi as ([] & Hv & Hi).
    apply fail_if_Ok, bool_decide_eq_false, dec_stable in Hi. split; [done|]. simpl in Hv.
    by destruct (Z.eqb_spec (EI_Amount i) 0).
  - eapply list.Forall_impl; [exact Houts|]. intros o Ho. apply bind_Ok in Ho as ([] & _ & Ho).
    apply bind_Ok in Ho as ([] & _ & Ho). by apply fail_if_Ok, bool_decide_eq_false, dec_stable in Ho.
  - intros E. by rewrite E in Hne.
Qed.

Lemma Import_Verify_Ok ctx u : Import_Verify ctx (Some u) = Ok tt ->
  Forall (fun i => TI_AssetID i = ctx_UTXOAssetID ctx) (ImportedInputs u) /\
  Forall (fun o => EO_AssetID o = ctx_UTXOAssetID ctx /\ EO_Amount o <> 0) (Outs u) /\
  ImportedInputs u <> [] /\ Outs u <> [].
Proof.
  unfold Import_Verify. intros HV. apply bind_Ok in HV as ([] & Hni & HV). apply fail_if_Ok in Hni.
  do 2 (apply bind_Ok in HV as ([] & _ & HV)).
  apply bind_Ok in HV as ([] & Hno & HV). apply fail_if_Ok in Hno.
  apply bind_Ok in HV as (? & _ & HV).
  apply bind_Ok in HV as ([] & Houts & HV). apply bind_Ok in HV as ([] & Hins & HV).
  apply check_all_Ok in Hins, Houts. split_and!.
  - eapply list.Forall_impl; [exact Hins|]. intros i Hi. apply bind_Ok in Hi as ([] & _ & Hi).
    by apply fail_if_Ok, bool_decide_eq_false, dec_stable in Hi.
  - eapply list.Forall_impl; [exact Houts|]. intros o Ho. apply bind_Ok in Ho as ([] & Hv & Ho).
    apply fail_if_Ok, bool_decide_eq_false, dec_stable in Ho. apply wrap_err_Ok in Hv.
    split; [done|]. simpl in Hv. by destruct (Z.eqb_spec (EO_Amount o) 0).
  - intros E. by rewrite E in Hni.
  - intros E. by rewrite E in Hno.
Qed.

(** Inputs sorted without repetition, all of one asset, are of different accounts. *)
Lemma sorted_accounts aid ins : Forall (fun i => EI_AssetID i = aid) ins ->
  IsSortedAndUnique EVMInput_Compare ins = true -> NoDup (EI_Address <$> ins).
Proof.
  intros Ha Hs.
  assert (StronglySorted (fun x y => bytes.Compare (EI_Address x) (EI_Address y) < 0) ins) as Hss.
  { apply Sorted_StronglySorted; [intros x y z; apply bytes.Compare_lt_trans|].
    assert (forall i x y, ins !! i = Some x -> ins !! Datatypes.S i = Some y -> EVMInput_Compare x y < 0) as Hadj
      by (intros; by eapply IsSortedAndUnique_adjacent).
    clear Hs. induction Ha as [|x ins Hx Hl IH]; constructor.
    - apply IH. intros i y z Hy Hz. by apply (Hadj (Datatypes.S i)).
    - destruct ins as [|y ins]; constructor. specialize (Hadj 0%nat x y eq_refl eq_refl).
      inversion Hl as [|? ? Hy _]; subst. unfold EVMInput_Compare in Hadj. rewrite Hy in Hadj.
      destruct (Z.eqb_spec (bytes.Compare (EI_Address x) (EI_Address y)) 0); [|done].
      simpl in Hadj. rewrite bytes.Compare_refl in Hadj. lia. }
  clear Hs Ha. induction Hss as [|x ins Hss IH Hx]; [constructor|]. rewrite fmap_cons. constructor; [|done].
  intros (y & Hy & Hin)%list_elem_of_fmap. rewrite list.Forall_forall in Hx. specialize (Hx y Hin).
  simpl in Hx. rewrite Hy, bytes.Compare_refl in Hx. lia.
Qed.

End WellFormed.

(** ** Sizes and gas *)

Lemma encodes_length {A} (enc : A -> option (list byte)) n xs bs :
  Forall (fun x => forall b, enc x = Some b -> length b = n) xs ->
  encodes enc xs = Some bs -> length bs = (n * length xs)%nat.
Proof.
  intros Hx. revert bs. induction Hx as [|x xs Hx _ IH]; intros bs He.
  - injection He as <-. simpl. lia.
  - apply oapp_Some in He as (b1 & b2 & H1 & H2 & ->).
    rewrite length_app, (Hx _ H1), (IH _ H2). simpl. lia.
Qed.

Definition sized_input (i : EVMInput) : Prop :=
  length (EI_Address i) = 20%nat /\ length (EI_AssetID i) = 32%nat.
Definition sized_output (o : EVMOutput) : Prop :=
  length (EO_Address o) = 20%nat /\ length (EO_AssetID o) = 32%nat.

Lemma enc_u32_length v b : enc_u32 v = Some b -> length b = 4%nat.
Proof. unfold enc_u32. intros H. apply Some_inj in H as <-. apply length_be_encode. Qed.
Lemma enc_u64_length v b : enc_u64 v = Some b -> length b = 8%nat.
Proof. unfold enc_u64. intros H. apply Some_inj in H as <-. apply length_be_encode. Qed.
Lemma enc_array_length v b : enc_array v = Some b -> length b = length v.
Proof. by intros [= <-]. Qed.

(** Splits an encoding into its fields and computes their lengths. *)
Ltac enc_lengths :=
  repeat match goal with
  | H : oapp _ _ = Some _ |- _ => apply oapp_Some in H as (? & ? & ? & ? & ->)
  | H : enc_u32 _ = Some _ |- _ => apply enc_u32_length in H
  | H : enc_u64 _ = Some _ |- _ => apply enc_u64_length in H
  | H : enc_array _ = Some _ |- _ => apply enc_array_length in H
  end;
  rewrite ?length_app.

Lemma enc_EVMInput_length i b : sized_input i -> enc_EVMInput i = Some b -> length b = 68%nat.
Proof.
  intros [Ha Hi] He. unfold enc_EVMInput in He. enc_lengths. lia.
Qed.

Lemma enc_EVMOutput_length o b : sized_output o -> enc_EVMOutput o = Some b -> length b = 60%nat.
Proof.
  intros [Ha Hi] He. unfold enc_EVMOutput in He. enc_lengths. lia.
Qed.

(** The size of an export: a part that depends on the rest, and 68 bytes per input. *)
Definition export_base (u : UnsignedExportTx) : nat :=
  16 + length (EX_BlockchainID u) + length (DestinationChain u) +
  length (default [] (encodes enc_TransferableOutput (ExportedOutputs u))).

Lemma enc_Export_length u b : Forall sized_input (Ins u) ->
  enc_Unsigned (ExportTx u) = Some b -> length b = (export_base u + 68 * length (Ins u))%nat.
Proof.
  intros Hi He. cbn [enc_Unsigned] in He. unfold enc_Export, enc_slice in He.
  enc_lengths.
  match goal with He : encodes enc_EVMInput _ = _ |- _ => apply (encodes_length _ 68) in He end.
  - unfold export_base.
    match goal with He : encodes enc_TransferableOutput _ = _ |- _ => rewrite He end. simpl. lia.
  - eapply list.Forall_impl; [exact Hi|]. intros i Hs b. by apply enc_EVMInput_length.
Qed.

Section Sizes.
Context {UL : UtxoLib} {US : UtxoLibSpec} {SM : SafeMath} {SMS : SafeMathSpec SM}.
Context {PL : PackerLib} {PS : PackerSpec} (h : list byte -> ID).
Context {K : Type} {KC : Keychain K}.

Lemma Sign_Ok tx signers tx' :
  Sign h tx signers = Ok tx' ->
  exists utx ub sb creds, Unsigned tx = Some utx /\ enc_Unsigned utx = Some ub /\
    Z.of_nat (length (message ub)) <= maxAtomicMessageSize /\
    tx' = mkTx (Some (set_Metadata utx (Metadata_Initialize h (message ub) sb))) (Creds tx ++ creds).
Proof.
  unfold Sign. intros HS. apply bind_Ok in HS as (ub & Hub & HS). apply wrap_err_Ok in Hub.
  apply Marshal_Ok in Hub as (b & He & -> & Hl); [|done].
  apply bind_Ok in HS as (creds & Hc & HS). apply bind_Ok in HS as (sb & Hsb & HS).
  simpl in HS. destruct (Unsigned tx) as [utx|]; [|done]. injection HS as <-.
  by exists utx, b, sb, creds.
Qed.

Lemma calcBytesCost_small n : Z.of_nat n <= maxAtomicMessageSize -> calcBytesCost n = Z.of_nat n.
Proof.
  unfold calcBytesCost, TxBytesGas, maxAtomicMessageSize. intros Hn.
  rewrite Z.mul_1_r, Z.mod_mod by lia. apply Z.mod_small. lia.
Qed.

(** The gas of a signed export. *)
Definition export_gas (base : nat) (n : nat) : Z :=
  2 + Z.of_nat base + Z.of_nat n * EVMInputGas + AtomicTxBaseCost.

Lemma Export_GasUsed_eq u ub sb : Forall sized_input (Ins u) ->
  enc_Unsigned (ExportTx u) = Some ub -> Z.of_nat (length (message ub)) <= maxAtomicMessageSize ->
  let u' := mkExport (Metadata_Initialize h (message ub) sb) (EX_NetworkID u) (EX_BlockchainID u)
              (DestinationChain u) (Ins u) (ExportedOutputs u) in
  Export_GasUsed u' true = Ok (export_gas (export_base u) (length (Ins u))) /\
  export_gas (export_base u) (length (Ins u)) < 2 ^ 40.
Proof.
  intros Hi He Hl u'. unfold Export_GasUsed, u'. cbn [EX_Metadata md_unsignedBytes Metadata_Initialize Ins].
  rewrite calcBytesCost_small by done. pose proof CostPerSignature_bound as Hc.
  destruct (message_parts ub) as (Hlen & _ & _). rewrite Hlen in *.
  rewrite (enc_Export_length u ub) in * by done. unfold maxAtomicMessageSize in Hl.
  assert (Z.of_nat (length (Ins u)) < 2 ^ 20) as Hn by lia.
  rewrite (Z.mod_small (Z.of_nat (length (Ins u)))) by lia.
  assert (0 <= Z.of_nat (length (Ins u)) * CostPerSignature < 2 ^ 36) as Hs by nia.
  rewrite Mul64_ok by (unfold is_u64, MaxUint64; lia). cbn [mbind result_bind].
  rewrite Add64_ok by (unfold is_u64, MaxUint64; lia). cbn [mbind result_bind].
  unfold AtomicTxBaseCost, export_gas, EVMInputGas, TxBytesGas, AtomicTxBaseCost in *.
  rewrite Add64_ok by (unfold is_u64, MaxUint64; lia). split; [f_equal; lia|lia].
Qed.

(** ** Building an export *)

Section Export.
Context {KS : KeychainSpec} {S : Type} {DB : AtomicStateDB S} {DS : AtomicStateDBSpec S}.

(** What the search for LUX inputs returns: inputs of the state's own accounts, in the
    native asset. *)
Definition lux_input (ctx : Context_) (st : S) (i : EVMInput) : Prop :=
  length (EI_Address i) = 20%nat /\ EI_AssetID i = ctx_UTXOAssetID ctx /\
  0 < EI_Amount i <= luxBalance st (EI_Address i) /\ EI_Nonce i = GetNonce st (EI_Address i).

Definition amounts (ins : list EVMInput) : Z := foldr (fun i acc => EI_Amount i + acc) 0 ins.

Lemma getSpendableLUX_loop_Ok ctx st keys amount cost bf inputs signers A ins sg :
  0 <= bf -> is_u64 amount -> is_u64 (fee_of cost bf) -> 0 <= cost ->
  cost + EVMInputGas * Z.of_nat (length keys) < 2 ^ 64 ->
  getSpendableLUX_loop ctx st keys amount cost (Some bf) inputs signers = Ok (A, ins, sg) ->
  exists new newSigners, ins = inputs ++ new /\ sg = signers ++ newSigners /\
    length newSigners = length new /\ Forall (lux_input ctx st) new /\ is_u64 A /\
    let cost' := cost + EVMInputGas * Z.of_nat (length new) in
    is_u64 (fee_of cost' bf) /\
    amounts new + A = amount + (fee_of cost' bf - fee_of cost bf).
Proof.
  intros Hbf. pose proof CostPerSignature_bound as Hcps.
  assert (0 < EVMInputGas) as Hgas by (unfold EVMInputGas, TxBytesGas; lia).
  revert amount cost inputs signers.
  induction keys as [|key keys IH]; intros amount cost inputs signers Ha Hf Hc Hk HL.
  { injection HL as <- <- <-. exists [], []. rewrite !app_nil_r. simpl.
    replace (cost + EVMInputGas * 0) with cost by lia.
    split_and!; done || lia. }
  cbn [getSpendableLUX_loop] in HL. cbn [length] in Hk. rewrite Nat2Z.inj_succ in Hk.
  destruct (Z.eqb_spec amount 0) as [->|Hne].
  { injection HL as <- <- <-. exists [], []. rewrite !app_nil_r. simpl.
    replace (cost + EVMInputGas * 0) with cost by lia. split_and!; done || lia. }
  apply bind_Ok in HL as (prevFee & Hprev & HL).
  apply CalculateDynamicFee_Ok in Hprev as (? & [= <-] & -> & _).
  apply bind_Ok in HL as (newFee & Hnew & HL).
  apply CalculateDynamicFee_Ok in Hnew as (? & [= <-] & -> & Hnu).
  assert (0 <= EVMInputGas * Z.of_nat (length keys)) as Hpos by nia.
  rewrite (u64_small (cost + EVMInputGas)) in HL, Hnu by (unfold is_u64; lia).
  assert (fee_of cost bf <= fee_of (cost + EVMInputGas) bf) as Hmono by (apply fee_of_mono; lia).
  rewrite (u64_small (fee_of (cost + EVMInputGas) bf - fee_of cost bf)) in HL by u64_lia.
  set (add := fee_of (cost + EVMInputGas) bf - fee_of cost bf) in *.
  destruct (Z.leb_spec (luxBalance st (EVMAddress key)) add) as [Hskip|Huse].
  { apply IH in HL; [done..|]. lia. }
  apply bind_Ok in HL as (amount' & Hadd & HL).
  apply Add64_Ok in Hadd as [-> Hamt]; [|done|unfold add; u64_lia].
  assert (is_u64 (luxBalance st (EVMAddress key))) as Hbal by apply is_u64_mod.
  set (used := if amount + add <? luxBalance st (EVMAddress key) then amount + add
               else luxBalance st (EVMAddress key)) in *.
  assert (0 < used <= amount + add /\ used <= luxBalance st (EVMAddress key)) as Hused.
  { unfold used. case_test; u64_lia. }
  rewrite (u64_small (_ - _)) in HL by u64_lia.
  apply IH in HL; [|u64_lia|done|lia|lia].
  destruct HL as (new & ns & -> & -> & Hlen & Hnew & HA & HF & HS).
  exists (mkEVMInput (EVMAddress key) used (ctx_UTXOAssetID ctx) (GetNonce st (EVMAddress key)) :: new),
    ([key] :: ns). rewrite <- !app_assoc. cbn [length amounts foldr EI_Amount]. fold (amounts new).
  rewrite Nat2Z.inj_succ.
  replace (cost + EVMInputGas * Z.succ (Z.of_nat (length new)))
    with (cost + EVMInputGas + EVMInputGas * Z.of_nat (length new)) by lia.
  split_and!; try done; [by rewrite Hlen| |unfold add in HS; lia].
  constructor; [|done]. split_and!; simpl; [apply EVMAddress_length|done|lia|lia|done].
Qed.

Lemma getSpendableLUXWithFee_Ok ctx st keys amount cost bf ins sg :
  0 <= bf -> is_u64 amount -> 0 <= cost ->
  cost + EVMInputGas * Z.of_nat (length keys) < 2 ^ 64 ->
  getSpendableLUXWithFee ctx st keys amount cost (Some bf) = Ok (ins, sg) ->
  let cost' := cost + EVMInputGas * Z.of_nat (length ins) in
  length sg = length ins /\ Forall (lux_input ctx st) ins /\ is_u64 (fee_of cost' bf) /\
  amounts ins = amount + fee_of cost' bf.
Proof.
  intros Hbf Ha Hc Hk HG. unfold getSpendableLUXWithFee in HG.
  apply bind_Ok in HG as (fee & Hfee & HG).
  apply CalculateDynamicFee_Ok in Hfee as (? & [= <-] & -> & Hfu).
  apply bind_Ok in HG as (amount' & Hadd & HG). apply Add64_Ok in Hadd as [-> Hau]; [|done..].
  apply bind_Ok in HG as ([[A ins'] sg'] & HL & HG).
  apply getSpendableLUX_loop_Ok in HL as (new & ns & -> & -> & Hlen & Hnew & HA & HF & HS); [|done..].
  destruct (Z.ltb_spec 0 A); [done|]. injection HG as <- <-. simpl.
  split_and!; [done|done|done|]. u64_lia.
Qed.

Lemma SortEVMInputsAndSigners_Permutation (ins : list EVMInput) (sg : list (list K)) :
  length sg = length ins -> fst (SortEVMInputsAndSigners ins sg) ≡ₚ ins.
Proof.
  intros Hl. unfold SortEVMInputsAndSigners. cbn [fst]. rewrite sort.Sort_Permutation.
  apply reflexive_eq. change (fst <$> zip ins sg = ins). apply fst_zip. lia.
Qed.

Lemma amounts_total aid ins : Forall (fun i => EI_AssetID i = aid) ins ->
  total EI_AssetID EI_Amount aid ins = amounts ins.
Proof.
  unfold total, amounts. induction 1 as [|i ins Hi _ IH]; [done|]. simpl.
  rewrite bool_decide_eq_true_2 by done. lia.
Qed.

Lemma Permutation_singleton_eq {A} (l : list A) x : l ≡ₚ [x] -> l = [x].
Proof. intros H. by apply Permutation_singleton_r in H. Qed.

(** Signing an export sets its metadata, and with it its gas. *)
Lemma newExport_signed ctx chainID ins outs (sg : list (list K)) tx :
  Forall sized_input ins -> Sign h (newExport ctx chainID ins outs) sg = Ok tx ->
  let base := export_base (mkExport Metadata_zero (ctx_NetworkID ctx) (ctx_ChainID ctx) chainID [] outs) in
  exists md creds,
    tx = mkTx (Some (ExportTx (mkExport md (ctx_NetworkID ctx) (ctx_ChainID ctx) chainID ins outs))) creds /\
    Tx_GasUsed tx true = Ok (export_gas base (length ins)) /\ export_gas base (length ins) < 2 ^ 40.
Proof.
  intros Hi HS base. apply Sign_Ok in HS as (utx & ub & sb & creds & Hu & Hub & Hl & ->).
  apply Some_inj in Hu as <-.
  set (u := mkExport _ _ _ _ _ _) in Hub. destruct (Export_GasUsed_eq u ub sb Hi Hub Hl) as [HG Hb].
  exists (Metadata_Initialize h (message ub) sb), creds. split_and!; [done|exact HG|exact Hb].
Qed.

(** The steps of a successful construction. *)
Lemma NewExportTx_steps ctx st assetID amount chainID to bf keys tx :
  NewExportTx h ctx st assetID amount chainID to bf keys = Ok tx ->
  let out := mkTransferableOutput assetID (TransferOutput amount 0 1 [to]) in
  let isLUX := bool_decide (ctx_UTXOAssetID ctx = assetID) in
  exists ins0 sg0 probe cost luxIns luxSigners sorted sgs,
    (isLUX = true -> ins0 = [] /\ sg0 = []) /\
    Sign h (newExport ctx chainID ins0 [out]) [] = Ok probe /\
    Tx_GasUsed probe true = Ok cost /\
    getSpendableLUXWithFee ctx st keys (if isLUX then amount else 0) cost bf = Ok (luxIns, luxSigners) /\
    SortEVMInputsAndSigners (ins0 ++ luxIns) (sg0 ++ luxSigners) = (sorted, sgs) /\
    Sign h (newExport ctx chainID sorted [out]) sgs = Ok tx /\
    Tx_Verify ctx tx = Ok tt.
Proof.
  intros HN out isLUX. unfold NewExportTx in HN. fold isLUX out in HN.
  assert (SortTransferableOutputs [out] = [out]) as Hsort
    by apply Permutation_singleton_eq, SortTransferableOutputs_Permutation.
  apply bind_Ok in HN as ([ins0 sg0] & Hfunds & HN). apply bind_Ok in HN as (probe & Hp & HN).
  apply bind_Ok in HN as (cost & Hg & HN). apply bind_Ok in HN as ([luxIns luxSigners] & HL & HN).
  apply wrap_err_Ok in HL. rewrite Hsort in HN.
  destruct (SortEVMInputsAndSigners (ins0 ++ luxIns) (sg0 ++ luxSigners)) as [ins sgs] eqn:ES.
  apply bind_Ok in HN as (tx' & Ht & HN). apply bind_Ok in HN as ([] & HV & HN). injection HN as <-.
  exists ins0, sg0, probe, cost, luxIns, luxSigners, ins, sgs.
  split_and!; [|done..]. intros E. rewrite E in Hfunds. by injection Hfunds as <- <-.
Qed.

(** Only the native asset can be exported. *)
Lemma NewExportTx_asset ctx st assetID amount chainID to bf keys tx :
  NewExportTx h ctx st assetID amount chainID to bf keys = Ok tx -> assetID = ctx_UTXOAssetID ctx.
Proof.
  intros HN. apply NewExportTx_steps in HN
    as (? & ? & ? & ? & ? & ? & ? & ? & _ & _ & _ & _ & _ & HS & HV).
  apply Sign_Ok in HS as (utx & ub & sb & creds & Hu & _ & _ & ->). apply Some_inj in Hu as <-.
  apply Export_Verify_Ok in HV as (_ & Ho & _). inversion Ho as [|? ? Hasset _]. by symmetry in Hasset.
Qed.


End Export.

(** ** Building an import *)

(** The size of an import: a part that depends on the rest, and 60 bytes per output. *)
Definition import_base (u : UnsignedImportTx) : nat :=
  16 + length (IM_BlockchainID u) + length (SourceChain u) +
  length (default [] (encodes enc_TransferableInput (ImportedInputs u))).

Lemma enc_Import_length u b : Forall sized_output (Outs u) ->
  enc_Unsigned (ImportTx u) = Some b -> length b = (import_base u + 60 * length (Outs u))%nat.
Proof.
  intros Ho He. cbn [enc_Unsigned] in He. unfold enc_Import, enc_slice in He. enc_lengths.
  match goal with He : encodes enc_EVMOutput _ = _ |- _ => apply (encodes_length _ 60) in He end.
  - unfold import_base.
    match goal with He : encodes enc_TransferableInput _ = _ |- _ => rewrite He end. simpl. lia.
  - eapply list.Forall_impl; [exact Ho|]. intros o Hs b. by apply enc_EVMOutput_length.
Qed.

Definition num_sigs (i : TransferableInput) : nat :=
  match TI_In i with TransferInput _ sigs => length sigs | OtherIn _ => 0 end.
Definition total_sigs (ins : list TransferableInput) : nat :=
  foldr (fun i acc => num_sigs i + acc)%nat 0%nat ins.

Lemma enc_inputs_sigs ins bs : encodes enc_TransferableInput ins = Some bs ->
  (4 * total_sigs ins <= length bs)%nat /\
  Forall (fun i => exists amt sigs, TI_In i = TransferInput amt sigs) ins.
Proof.
  revert bs. induction ins as [|i ins IH]; intros bs He; [by split; [simpl; lia|constructor]|].
  apply oapp_Some in He as (b1 & b2 & H1 & H2 & ->). apply IH in H2 as [Hl Hf].
  unfold enc_TransferableInput, enc_TransferableIn in H1.
  destruct (TI_In i) as [amt sigs|] eqn:Ei; [|by enc_lengths].
  unfold enc_slice in H1. enc_lengths.
  match goal with He : encodes enc_u32 _ = _ |- _ => apply (encodes_length _ 4) in He end.
  - split; [simpl; unfold num_sigs; rewrite Ei; lia|]. constructor; eauto.
  - apply list.Forall_true. intros v b'. apply enc_u32_length.
Qed.

Lemma addCosts_Ok ins cost :
  Forall (fun i => exists amt sigs, TI_In i = TransferInput amt sigs) ins ->
  0 <= cost -> cost + Z.of_nat (total_sigs ins) * CostPerSignature < 2 ^ 60 ->
  addCosts ins cost = Ok (cost + Z.of_nat (total_sigs ins) * CostPerSignature).
Proof.
  pose proof CostPerSignature_bound as Hc. intros Hf. revert cost.
  induction Hf as [|i ins (amt & sigs & Ei) _ IH]; intros cost H0 Hb.
  - simpl. f_equal. lia.
  - cbn [total_sigs foldr] in *. fold (total_sigs ins) in *. rewrite Nat2Z.inj_add in *.
    unfold num_sigs in *. rewrite Ei in *.
    assert (0 <= Z.of_nat (length sigs) * CostPerSignature) as Hs by nia.
    assert (0 <= Z.of_nat (total_sigs ins) * CostPerSignature) as Ht by nia.
    cbn [addCosts]. rewrite Ei, Cost_signatures by (unfold MaxUint64; lia). cbn [mbind result_bind].
    rewrite Add64_ok by (unfold is_u64, MaxUint64; lia). cbn [mbind result_bind].
    rewrite IH by lia. f_equal. lia.
Qed.

(** The gas of a signed import. *)
Definition import_gas (base sigs nouts : nat) : Z :=
  2 + Z.of_nat base + Z.of_nat nouts * EVMOutputGas + Z.of_nat sigs * CostPerSignature +
  AtomicTxBaseCost.

Lemma newImport_signed ctx chainID ins outs (sg : list (list K)) tx :
  Forall sized_output outs -> Sign h (newImport ctx chainID ins outs) sg = Ok tx ->
  let base := import_base (mkImport Metadata_zero (ctx_NetworkID ctx) (ctx_ChainID ctx) chainID ins []) in
  let gas := import_gas base (total_sigs ins) (length outs) in
  exists md creds,
    tx = mkTx (Some (ImportTx (mkImport md (ctx_NetworkID ctx) (ctx_ChainID ctx) chainID ins outs))) creds /\
    Tx_GasUsed tx true = Ok gas /\ 0 <= gas < 2 ^ 40.
Proof.
  intros Ho HS base gas. apply Sign_Ok in HS as (utx & ub & sb & creds & Hu & Hub & Hl & ->).
  apply Some_inj in Hu as <-. set (u := mkImport _ _ _ _ _ _) in Hub.
  exists (Metadata_Initialize h (message ub) sb), creds. split; [done|].
  pose proof (enc_Import_length u ub Ho Hub) as Hlen.
  assert (exists bi, encodes enc_TransferableInput ins = Some bi) as [bi Hbi].
  { cbn [enc_Unsigned] in Hub. unfold enc_Import, enc_slice in Hub. enc_lengths. eauto. }
  destruct (enc_inputs_sigs ins bi Hbi) as [Hsigs Hin].
  assert (import_base u = base) as Hbase by done.
  assert (4 * total_sigs ins <= base)%nat as Hsb.
  { rewrite <- Hbase. unfold import_base. cbn [u ImportedInputs]. rewrite Hbi. simpl. lia. }
  destruct (message_parts ub) as (Hml & _ & _). unfold maxAtomicMessageSize in Hl.
  pose proof CostPerSignature_bound as Hc. cbn [u Outs] in Hlen. rewrite Hbase in Hlen.
  assert (0 <= Z.of_nat (total_sigs ins) * CostPerSignature < 2 ^ 36) as Hsc by nia.
  change (Tx_GasUsed _ true) with (Import_GasUsed
    (mkImport (Metadata_Initialize h (message ub) sb) (ctx_NetworkID ctx) (ctx_ChainID ctx) chainID ins outs) true).
  unfold Import_GasUsed. cbn [IM_Metadata md_unsignedBytes Metadata_Initialize ImportedInputs].
  rewrite calcBytesCost_small by (unfold maxAtomicMessageSize; lia).
  rewrite addCosts_Ok by (done || lia). cbn [mbind result_bind].
  unfold gas, import_gas, AtomicTxBaseCost, EVMOutputGas, TxBytesGas.
  rewrite Add64_ok by (unfold is_u64, MaxUint64; lia). split; [f_equal; lia|lia].
Qed.

Section Import.
Context {KS : KeychainSpec} {RG : AtomicRange} {RS : AtomicRangeSpec}.

Definition imported (aid : ID) (ins : list TransferableInput) : Z :=
  total TI_AssetID (In_Amount ∘ TI_In) aid ins.

Lemma imported_snoc aid ins i :
  imported aid (ins ++ [i]) =
  imported aid ins + if bool_decide (TI_AssetID i = aid) then In_Amount (TI_In i) else 0.
Proof. unfold imported. rewrite total_app. unfold total at 2. simpl. lia. Qed.

(** The amounts are the sums over the inputs; every UTXO that can be spent is an input. *)
Lemma collectUTXOs_Ok time utxos amts ins sg amts' ins' (sg' : list (list K)) :
  (forall aid, is_u64 (default 0 (amts !! aid)) /\ default 0 (amts !! aid) = imported aid ins) ->
  Forall (fun i => is_u64 (In_Amount (TI_In i))) ins ->
  collectUTXOs time utxos amts ins sg = Ok (amts', ins', sg') ->
  (forall aid, is_u64 (default 0 (amts' !! aid)) /\ default 0 (amts' !! aid) = imported aid ins') /\
  Forall (fun i => is_u64 (In_Amount (TI_In i))) ins' /\ ins ⊆ ins' /\
  Forall (fun u => forall i ks, Spend (UTXO_Out u) time = Ok (Some i, ks) ->
            exists j, j ∈ ins' /\ TI_AssetID j = UTXO_AssetID u) utxos.
Proof.
  revert amts ins sg. induction utxos as [|u utxos IH]; intros amts ins sg Ham Hin HC.
  { injection HC as <- <- <-. split_and!; [done|done|done|constructor]. }
  cbn [collectUTXOs] in HC.
  destruct (Spend (UTXO_Out u) time) as [[[i|] ks]|e|] eqn:ES; [| | |done].
  - set (j := mkTransferableInput _ _ _ _) in HC. apply bind_Ok in HC as (amt & Hadd & HC).
    destruct (Ham (UTXO_AssetID u)) as [Hu Heq]. pose proof (Spend_u64 _ _ _ _ ES) as Hi.
    apply Add64_Ok in Hadd as [-> Hau]; [|done..].
    apply IH in HC as (H1 & H2 & H3 & H4).
    + split_and!; [done|done|set_solver|]. constructor; [|done]. intros ? ? _. exists j.
      split; [|done]. apply H3, elem_of_app. right. by apply list_elem_of_singleton.
    + intros aid. rewrite imported_snoc. cbn [j TI_AssetID TI_In]. case_bool_decide as Ha.
      * subst aid. rewrite lookup_insert_eq. simpl. split; [done|]. by rewrite Heq.
      * rewrite lookup_insert_ne, Z.add_0_r by done. apply Ham.
    + apply list.Forall_app. split; [done|]. by apply list.Forall_singleton.
  - apply IH in HC as (H1 & H2 & H3 & H4); [|done..]. split_and!; [done..|].
    constructor; [|done]. intros ? ? E. by rewrite ES in E.
  - apply IH in HC as (H1 & H2 & H3 & H4); [|done..]. split_and!; [done..|].
    constructor; [|done]. intros ? ? E. by rewrite ES in E.
Qed.

Lemma nonLUXOuts_assets ctx to amts o :
  o ∈ nonLUXOuts ctx to amts -> EO_AssetID o <> ctx_UTXOAssetID ctx.
Proof.
  unfold nonLUXOuts. assert (forall acc, (o ∈ acc -> EO_AssetID o <> ctx_UTXOAssetID ctx) ->
    o ∈ fold_left (fun outs '(assetID, amount) =>
      if bool_decide (assetID = ctx_UTXOAssetID ctx) || (amount =? 0) then outs
      else outs ++ [mkEVMOutput to amount assetID]) amts acc -> EO_AssetID o <> ctx_UTXOAssetID ctx) as H.
  { induction amts as [|[aid amt] amts IH]; intros acc Hacc; [done|]. simpl. apply IH.
    case_bool_decide as Ha; [done|]. destruct (amt =? 0); [done|]. simpl.
    rewrite elem_of_app, list_elem_of_singleton. intros [?| ->]; [by apply Hacc|done]. }
  apply (H []). by intros ?%not_elem_of_nil.
Qed.

(** The steps of a successful construction. *)
Lemma NewImportTx_steps ctx time chainID to bf utxos tx :
  NewImportTx h ctx time chainID to bf utxos = Ok tx ->
  exists amts ins0 sg0 ins sg probe gas fee0 fee1,
    collectUTXOs time utxos ∅ [] [] = Ok (amts, ins0, sg0) /\ ins ≡ₚ ins0 /\
    let lux := default 0 (amts !! ctx_UTXOAssetID ctx) in
    let outs := nonLUXOuts ctx to (range_amounts amts) in
    Sign h (newImport ctx chainID ins outs) [] = Ok probe /\ Tx_GasUsed probe true = Ok gas /\
    CalculateDynamicFee gas bf = Ok fee0 /\
    CalculateDynamicFee (u64 (gas + EVMOutputGas)) bf = Ok fee1 /\
    let outs' := if fee1 <? lux then outs ++ [mkEVMOutput to (u64 (lux - fee1)) (ctx_UTXOAssetID ctx)]
                 else outs in
    Sign h (newImport ctx chainID ins (utils_Sort EVMOutput_Compare outs')) sg = Ok tx /\
    Tx_Verify ctx tx = Ok tt.
Proof.
  unfold NewImportTx. intros HN. apply bind_Ok in HN as ([[amts ins0] sg0] & HC & HN).
  pose proof (SortInputs_Permutation ins0 sg0) as Hperm.
  destruct (SortTransferableInputsWithSigners ins0 sg0) as [ins sg]. simpl in Hperm.
  apply bind_Ok in HN as ([] & _ & HN). apply bind_Ok in HN as (probe & Hp & HN).
  apply bind_Ok in HN as (gas & Hg & HN). apply bind_Ok in HN as (fee0 & Hf0 & HN).
  apply bind_Ok in HN as (fee1 & Hf1 & HN). apply bind_Ok in HN as ([] & _ & HN).
  apply bind_Ok in HN as ([] & _ & HN). apply bind_Ok in HN as (tx' & HS & HN).
  apply bind_Ok in HN as ([] & HV & HN). injection HN as <-.
  exists amts, ins0, sg0, ins, sg, probe, gas, fee0, fee1. by split_and!.
Qed.

(** Well-formedness leaves the change in the native asset as the only output. *)
Lemma import_only_change ctx to amts chainID ins (sg : list (list K)) tx lux fee :
  let outs := nonLUXOuts ctx to amts in
  let outs' := if fee <? lux then outs ++ [mkEVMOutput to (u64 (lux - fee)) (ctx_UTXOAssetID ctx)]
               else outs in
  Sign h (newImport ctx chainID ins (utils_Sort EVMOutput_Compare outs')) sg = Ok tx ->
  Tx_Verify ctx tx = Ok tt ->
  fee < lux /\ outs = [] /\ Forall (fun i => TI_AssetID i = ctx_UTXOAssetID ctx) ins /\
  utils_Sort EVMOutput_Compare outs' = [mkEVMOutput to (u64 (lux - fee)) (ctx_UTXOAssetID ctx)].
Proof.
  intros outs outs' HS HV. apply Sign_Ok in HS as (utx & ub & sb & creds & Hu & _ & _ & ->).
  apply Some_inj in Hu as <-. apply Import_Verify_Ok in HV as (Hins & Houts & _ & Hne).
  cbn [ImportedInputs Outs] in *. rewrite utils_Sort_Permutation in Houts.
  assert (outs' <> []) as Hne'.
  { intros E. apply Hne. rewrite E. apply Permutation_nil_r, utils_Sort_Permutation. }
  assert (outs = []) as E0.
  { apply elem_of_nil_inv. intros o Ho.
    assert (o ∈ outs') as Ho' by (unfold outs'; case_test; [apply elem_of_app; by left|done]).
    apply (nonLUXOuts_assets _ _ _ _ Ho). rewrite list.Forall_forall in Houts. by apply Houts. }
  unfold outs' in *. rewrite E0 in *. destruct (Z.ltb_spec fee lux); [|done].
  split_and!; [done|done|done|]. apply Permutation_singleton_eq, utils_Sort_Permutation.
Qed.

(** C34. An import the node builds pays exactly the fee of the transaction it returns: every
    UTXO it could spend is of the native asset, its one output gives the recipient what
    the inputs hold minus the dynamic fee of its own gas, and that fee is what it burns. *)
Theorem NewImportTx_exact_fee ctx time chainID to bf utxos tx :
  length to = 20%nat -> length (ctx_UTXOAssetID ctx) = 32%nat -> 0 <= bf ->
  NewImportTx h ctx time chainID to (Some bf) utxos = Ok tx ->
  Forall (fun u => forall i ks, Spend (UTXO_Out u) time = Ok (Some i, ks) ->
            UTXO_AssetID u = ctx_UTXOAssetID ctx) utxos /\
  exists u gas, Unsigned tx = Some (ImportTx u) /\ Tx_GasUsed tx true = Ok gas /\
    CalculateDynamicFee gas (Some bf) = Ok (fee_of gas bf) /\
    Outs u = [mkEVMOutput to (imported (ctx_UTXOAssetID ctx) (ImportedInputs u) - fee_of gas bf)
                (ctx_UTXOAssetID ctx)] /\
    Tx_Burned tx (ctx_UTXOAssetID ctx) = Ok (fee_of gas bf).
Proof.
  intros Hto Hid Hbf HN. apply NewImportTx_steps in HN
    as (amts & ins0 & sg0 & ins & sg & probe & gas & fee0 & fee1 & HC & Hperm & Hp & Hg & Hf0 & Hf1 & HS & HV).
  apply collectUTXOs_Ok in HC as (Ham & Hu64 & _ & Hall);
    [|intros aid; by rewrite lookup_empty|constructor].
  destruct (Ham (ctx_UTXOAssetID ctx)) as [Hlu Hlux]. set (lux := default 0 _) in *.
  apply CalculateDynamicFee_Ok in Hf1 as (? & [= <-] & Hf1 & Hfu). pose proof HS as HS'.
  destruct (import_only_change _ _ _ _ _ _ _ _ _ HS' HV) as (Hlt & E0 & Hins & Hout).
  rewrite Hout in HS. rewrite E0 in Hp. rewrite (u64_small (lux - fee1)) in HS by u64_lia.
  apply newImport_signed in Hp as (? & ? & -> & HG & Hb); [|constructor].
  rewrite HG in Hg. injection Hg as <-.
  apply newImport_signed in HS as (md & creds & -> & HG' & Hb'); [|by repeat constructor].
  set (base := import_base _) in *. cbn [length] in *.
  assert (u64 (import_gas base (total_sigs ins) 0 + EVMOutputGas) = import_gas base (total_sigs ins) 1) as Hgas.
  { rewrite u64_small; unfold import_gas, EVMOutputGas, TxBytesGas, is_u64 in *; lia. }
  rewrite Hgas in Hf1. subst fee1. split.
  { eapply list.Forall_impl; [exact Hall|]. intros u Hu i ks HSp. destruct (Hu i ks HSp) as (j & Hj & <-).
    rewrite list.Forall_forall in Hins. apply Hins. by rewrite Hperm. }
  assert (imported (ctx_UTXOAssetID ctx) ins = lux) as Hsum
    by (rewrite Hlux; unfold imported; by apply total_Permutation).
  eexists _, (import_gas base (total_sigs ins) 1). cbn [Outs ImportedInputs].
  split_and!; [reflexivity|done|apply CalculateDynamicFee_Ok; eauto|cbn [Outs ImportedInputs]; by rewrite Hsum|].
  apply Burned_Ok; cbn [Outs ImportedInputs].
  - apply list.Forall_singleton. simpl. u64_lia.
  - by rewrite Hperm.
  - fold (imported (ctx_UTXOAssetID ctx) ins). rewrite Hsum. unfold total. cbn [foldr EO_AssetID EO_Amount].
    rewrite bool_decide_eq_true_2 by done. split_and!; u64_lia.
Qed.

End Import.

End Sizes.

(** ** Effect on the EVM state *)

Section Transfer.
Context {UL : UtxoLib} {US : UtxoLibSpec} {RG : AtomicRange} {RS : AtomicRangeSpec}.
Context {S : Type} {DB : AtomicStateDB S} {DS : AtomicStateDBSpec S}.
Implicit Types s : S.

(** The state funds an input: the balance covers it, and the nonce is the account's. *)
Definition funds s (i : EVMInput) : Prop :=
  EI_Amount i * X2CRate <= GetBalance s (EI_Address i) /\ GetNonce s (EI_Address i) = EI_Nonce i.

#[local] Instance funds_dec s i : Decision (funds s i).
Proof. unfold funds. apply _. Defined.

(** What an export takes from an account, and an import gives it, in wei. *)
Definition debit (ins : list EVMInput) (a : Address) : Z :=
  total EI_Address (fun i => EI_Amount i * X2CRate) a ins.
Definition credit (outs : list EVMOutput) (a : Address) : Z :=
  total EO_Address (fun o => EO_Amount o * X2CRate) a outs.

Definition lux_amount (ctx : Context_) (i : EVMInput) : Prop :=
  EI_AssetID i = ctx_UTXOAssetID ctx /\ is_u64 (EI_Amount i) /\ is_u64 (EI_Nonce i).

Lemma scaled_u256 x : is_u64 x -> (x * X2CRate) mod 2 ^ 256 = x * X2CRate.
Proof. unfold is_u64, X2CRate. intros Hx. apply Z.mod_small. nia. Qed.

Lemma exportInput_run ctx i s : lux_amount ctx i ->
  (funds s i -> exportInput ctx i s = (Ok tt, SubBalance s (EI_Address i) (EI_Amount i * X2CRate))) /\
  (~ funds s i -> exists e s', exportInput ctx i s = (Err e, s')).
Proof.
  intros (Ha & Hm & _). unfold exportInput, funds. rewrite bool_decide_eq_true_2 by done.
  rewrite scaled_u256 by done.
  destruct (Z.ltb_spec (GetBalance s (EI_Address i)) (EI_Amount i * X2CRate)).
  { split; [lia|eauto]. }
  rewrite GetNonce_SubBalance. destruct (Z.eqb_spec (GetNonce s (EI_Address i)) (EI_Nonce i)); simpl.
  - split; [done|]. tauto.
  - split; [tauto|eauto].
Qed.

Lemma funds_SubBalance s a x i : EI_Address i <> a -> funds (SubBalance s a x) i <-> funds s i.
Proof.
  intros Hne. unfold funds. rewrite GetBalance_SubBalance, decide_False, GetNonce_SubBalance by done.
  done.
Qed.

Lemma debit_none ins a : a ∉ EI_Address <$> ins -> debit ins a = 0.
Proof.
  unfold debit, total. induction ins as [|i ins IH]; [done|]. rewrite fmap_cons, not_elem_of_cons.
  intros [Hne Hn]. simpl. rewrite bool_decide_eq_false_2 by congruence. by rewrite IH.
Qed.

(** The inputs of an export, all from different accounts. *)
Lemma exportInputs_run ctx ins addrs s :
  Forall (lux_amount ctx) ins -> NoDup (EI_Address <$> ins) ->
  (Forall (funds s) ins ->
   exists s', exportInputs ctx ins addrs s =
     (Ok (fold_left (fun m i => <[EI_Address i := EI_Nonce i]> m) ins addrs), s') /\
     forall a, GetBalance s' a = GetBalance s a - debit ins a /\ GetNonce s' a = GetNonce s a) /\
  (~ Forall (funds s) ins -> exists e s', exportInputs ctx ins addrs s = (Err e, s')).
Proof.
  intros Hl. revert addrs s. induction Hl as [|i ins Hi Hl IH]; intros addrs s Hnd.
  { split; [|intros H; destruct H; constructor]. intros _. exists s. split; [done|].
    intros a. unfold debit, total. simpl. split; [lia|done]. }
  rewrite fmap_cons in Hnd. apply list.NoDup_cons in Hnd as [Hni Hnd].
  destruct (exportInput_run ctx i s Hi) as [Hok Herr]. cbn [exportInputs].
  set (s1 := SubBalance s (EI_Address i) (EI_Amount i * X2CRate)).
  assert (Forall (funds s1) ins <-> Forall (funds s) ins) as Hfunds.
  { rewrite !list.Forall_forall. split; intros H j Hj; specialize (H j Hj);
      apply (funds_SubBalance s (EI_Address i) (EI_Amount i * X2CRate)) in H; try done;
      intros E; apply Hni; rewrite <- E; by apply list_elem_of_fmap_2. }
  split.
  - intros Hf. inversion Hf as [|? ? Hfi Hfl]; subst.
    destruct (proj1 (IH (<[EI_Address i := EI_Nonce i]> addrs) s1 Hnd) (proj2 Hfunds Hfl)) as (s' & Hr & Hs').
    exists s'. rewrite (bindM_step _ _ _ _ _ (Hok Hfi)). split; [done|]. intros a.
    destruct (Hs' a) as [-> ->]. unfold s1. rewrite GetBalance_SubBalance, GetNonce_SubBalance.
    split; [|done]. unfold debit, total. simpl. fold (total EI_Address (fun i => EI_Amount i * X2CRate) a ins).
    fold (debit ins a). case_decide as Ha.
    + subst a. rewrite bool_decide_eq_true_2, debit_none by done.
      rewrite Z.mod_small; [lia|]. destruct Hfi as [Hb _]. destruct Hi as (_ & Hu & _).
      pose proof (GetBalance_u256 s (EI_Address i)). unfold is_u64, X2CRate in *. lia.
    + rewrite bool_decide_eq_false_2 by done. lia.
  - intros Hf. destruct (decide (funds s i)) as [Hfi|Hfi].
    + rewrite (bindM_step _ _ _ _ _ (Hok Hfi)). apply (IH _ s1 Hnd). rewrite Hfunds.
      intros Hfl. apply Hf. by constructor.
    + destruct (Herr Hfi) as (e & s' & He). exists e, s'. unfold mbind, StM_bind. by rewrite He.
Qed.

(** [SetNonce] for each account of the map. *)
Lemma setNonces_run l s a :
  NoDup l.*1 -> Forall (fun p => is_u64 (snd p)) l ->
  let s' := snd (setNonces l s) in
  GetBalance s' a = GetBalance s a /\
  (forall n, (a, n) ∈ l -> GetNonce s' a = u64 (n + 1)) /\
  (a ∉ l.*1 -> GetNonce s' a = GetNonce s a).
Proof.
  unfold setNonces. cbn [snd]. revert s. induction l as [|[b n] l IH]; intros s Hnd Hu.
  { split_and!; [done|by intros ? ?%not_elem_of_nil|done]. }
  rewrite fmap_cons in Hnd. apply list.NoDup_cons in Hnd as [Hb Hnd].
  inversion Hu as [|? ? Hn Hl]; subst. cbn [fold_left].
  destruct (IH (SetNonce s b (u64 (n + 1))) Hnd Hl) as (HB & HN & HO).
  rewrite GetBalance_SetNonce in HB. split_and!; [done| |].
  - intros m [[= -> ->]|Hm]%elem_of_cons.
    + rewrite HO by done. rewrite GetNonce_SetNonce by apply is_u64_mod. by rewrite decide_True.
    + by apply HN.
  - rewrite fmap_cons, not_elem_of_cons. intros [Hne Hn']. rewrite HO by done.
    rewrite GetNonce_SetNonce by apply is_u64_mod. by rewrite decide_False.
Qed.

Definition nonce_map (ins : list EVMInput) : gmap Address Z :=
  fold_left (fun m i => <[EI_Address i := EI_Nonce i]> m) ins ∅.

Lemma nonce_map_lookup ins a n : NoDup (EI_Address <$> ins) ->
  nonce_map ins !! a = Some n <-> exists i, i ∈ ins /\ EI_Address i = a /\ EI_Nonce i = n.
Proof.
  unfold nonce_map. induction ins as [|i ins IH] using rev_ind; intros Hnd.
  - cbn [fold_left]. rewrite lookup_empty. split; [done|]. by intros (? & ?%not_elem_of_nil & _).
  - rewrite fmap_app, list.NoDup_app in Hnd. destruct Hnd as (Hnd & Hdis & _).
    rewrite fold_left_app. cbn [fold_left].
    assert (EI_Address i ∉ EI_Address <$> ins) as Hni.
    { intros H. apply (Hdis _ H). apply list_elem_of_here. }
    destruct (decide (EI_Address i = a)) as [<-|Hne].
    + rewrite lookup_insert_eq. split.
      * intros [= <-]. exists i. split; [|done]. apply elem_of_app. right. apply list_elem_of_here.
      * intros (j & [Hj| ->%list_elem_of_singleton]%elem_of_app & Ha & <-); [|done].
        destruct Hni. rewrite <- Ha. by apply list_elem_of_fmap_2.
    + rewrite lookup_insert_ne, IH by done. setoid_rewrite elem_of_app.
      setoid_rewrite list_elem_of_singleton. naive_solver.
Qed.

(** A well-formed export of [uint64] amounts and nonces. *)
Definition wf_export (ctx : Context_) (u : UnsignedExportTx) : Prop :=
  Export_Verify ctx (Some u) = Ok tt /\
  Forall (fun i => is_u64 (EI_Amount i) /\ is_u64 (EI_Nonce i)) (Ins u).

Lemma wf_export_inputs ctx u : wf_export ctx u ->
  Forall (lux_amount ctx) (Ins u) /\ NoDup (EI_Address <$> Ins u).
Proof.
  intros [HV Hu]. apply Export_Verify_Ok in HV as (Hi & _ & _ & Hs). split.
  - rewrite list.Forall_forall in *. intros i Hin. destruct (Hi i Hin), (Hu i Hin). done.
  - apply (sorted_accounts (ctx_UTXOAssetID ctx)); [|done].
    eapply list.Forall_impl; [exact Hi|]. by intros i [? _].
Qed.

Lemma Export_EVMStateTransfer_run ctx u s : wf_export ctx u ->
  (Forall (funds s) (Ins u) ->
   exists s', Export_EVMStateTransfer ctx u s = (Ok tt, s') /\
     forall a, GetBalance s' a = GetBalance s a - debit (Ins u) a /\
       (forall i, i ∈ Ins u -> EI_Address i = a -> GetNonce s' a = u64 (EI_Nonce i + 1)) /\
       (a ∉ EI_Address <$> Ins u -> GetNonce s' a = GetNonce s a)) /\
  (~ Forall (funds s) (Ins u) -> exists e s', Export_EVMStateTransfer ctx u s = (Err e, s')).
Proof.
  intros Hwf. destruct (wf_export_inputs ctx u Hwf) as [Hl Hnd].
  destruct (exportInputs_run ctx (Ins u) ∅ s Hl Hnd) as [Hok Herr].
  unfold Export_EVMStateTransfer. split.
  - intros Hf. destruct (Hok Hf) as (s1 & Hr & Hs1). fold (nonce_map (Ins u)) in Hr.
    rewrite (bindM_step _ _ _ _ _ Hr). set (l := range_nonces (nonce_map (Ins u))).
    assert (l ≡ₚ map_to_list (nonce_map (Ins u))) as Hp by apply range_nonces_to_list.
    assert (forall a n, (a, n) ∈ l <-> exists i, i ∈ Ins u /\ EI_Address i = a /\ EI_Nonce i = n) as Hmem
      by (intros a n; rewrite Hp, elem_of_map_to_list; by apply nonce_map_lookup).
    eexists. split; [done|]. intros a.
    destruct (setNonces_run l s1 a) as (HB & HN & HO).
    + rewrite Hp. apply NoDup_fst_map_to_list.
    + apply list.Forall_forall. intros [b n] (i & Hi & _ & <-)%Hmem. simpl.
      rewrite list.Forall_forall in Hl. apply (Hl i Hi).
    + destruct (Hs1 a) as [HB1 HN1]. split_and!; [by rewrite <- HB1| |].
      * intros i Hi Ha. apply HN, Hmem. eauto.
      * intros Hna. rewrite <- HN1. apply HO. intros ((b & n) & -> & (i & Hi & Ha & _)%Hmem)%list_elem_of_fmap.
        apply Hna. simpl. rewrite <- Ha. by apply list_elem_of_fmap_2.
  - intros Hf. destruct (Herr Hf) as (e & s' & He). exists e, s'. unfold mbind, StM_bind. by rewrite He.
Qed.


(** C24. No replay: once an export is applied, every well-formed export that spends a nonce it
    spent, the export itself included, is refused by the resulting state. *)
Theorem export_no_replay ctx u u' s i i' :
  wf_export ctx u -> wf_export ctx u' -> fst (Export_EVMStateTransfer ctx u s) = Ok tt ->
  i ∈ Ins u -> i' ∈ Ins u' -> EI_Address i' = EI_Address i -> EI_Nonce i' = EI_Nonce i ->
  is_Err (fst (Export_EVMStateTransfer ctx u' (snd (Export_EVMStateTransfer ctx u s)))) = true.
Proof.
  intros Hwf Hwf' Hrun Hi Hi' Ha Hn.
  destruct (Export_EVMStateTransfer_run ctx u s Hwf) as [Hok Herr].
  destruct (decide (Forall (funds s) (Ins u))) as [Hf|Hf].
  2: { destruct (Herr Hf) as (e & s' & E). by rewrite E in Hrun. }
  destruct (Hok Hf) as (s1 & -> & Hs1). cbn [snd].
  destruct (Export_EVMStateTransfer_run ctx u' s1 Hwf') as [_ Herr'].
  destruct Herr' as (e & s2 & ->); [|done]. intros Hf'. rewrite list.Forall_forall in Hf'.
  destruct (Hf' i' Hi') as [_ Hnonce]. destruct (Hs1 (EI_Address i)) as (_ & Hset & _).
  rewrite Ha, (Hset i Hi eq_refl), Hn in Hnonce.
  destruct (wf_export_inputs ctx u Hwf) as [Hl _]. rewrite list.Forall_forall in Hl.
  destruct (Hl i Hi) as (_ & _ & Hu). unfold is_u64 in Hu.
  destruct (Z.eq_dec (EI_Nonce i) (2 ^ 64 - 1)) as [E|E].
  - rewrite E in Hnonce. discriminate Hnonce.
  - rewrite Z.mod_small in Hnonce; lia.
Qed.

(** The state transfer of a well-formed import credits each recipient with exactly the
    amounts of the outputs that name it, and changes no nonce. *)
Theorem import_transfer ctx u s a :
  Import_Verify ctx (Some u) = Ok tt -> Forall (fun o => is_u64 (EO_Amount o)) (Outs u) ->
  let s' := Import_EVMStateTransfer ctx u s in
  GetBalance s' a = (GetBalance s a + credit (Outs u) a) mod 2 ^ 256 /\ GetNonce s' a = GetNonce s a.
Proof.
  intros HV Hu. apply Import_Verify_Ok in HV as (_ & Ho & _).
  unfold Import_EVMStateTransfer, credit, total. revert s.
  induction Ho as [|o outs [Ha _] _ IH]; intros s.
  { cbn [fold_left foldr]. rewrite Z.add_0_r, Z.mod_small by apply GetBalance_u256. done. }
  inversion Hu as [|? ? Hm Hul]; subst. cbn [fold_left foldr].
  rewrite bool_decide_eq_true_2, scaled_u256 by done.
  destruct (IH Hul (AddBalance s (EO_Address o) (EO_Amount o * X2CRate))) as [-> ->].
  rewrite GetBalance_AddBalance, GetNonce_AddBalance. split; [|done]. case_decide as Hc.
  - subst a. rewrite bool_decide_eq_true_2 by done. rewrite Zplus_mod_idemp_l. f_equal. lia.
  - rewrite bool_decide_eq_false_2 by done. done.
Qed.

End Transfer.

(** ** Shared memory *)

Section Shared.
Context {UL : UtxoLib} {PL : PackerLib} {PS : PackerSpec}.

Lemma exportElements_lookup txID k outs elems i out :
  length txID = 32%nat -> 0 <= k -> k + Z.of_nat (length outs) < 2 ^ 32 ->
  Forall valid_TransferableOutput outs -> exportElements txID k outs = Ok elems ->
  outs !! i = Some out ->
  let utxo := mkUTXO txID (k + Z.of_nat i) (TO_AssetID out) (TO_Out out) in
  exists el, elems !! i = Some el /\ EL_Key el = InputID txID (k + Z.of_nat i) /\
    Codec_Unmarshal (EL_Value el) D_UTXO = Ok (CodecVersion, V_UTXO utxo).
Proof.
  intros Hid. revert k elems i.
  induction outs as [|o outs IH]; intros k elems i Hk Hb Hv HE Hi; [by rewrite lookup_nil in Hi|].
  inversion Hv as [|? ? [Ha Ho] Hvl]; subst. cbn [exportElements] in HE. cbn [length] in Hb.
  rewrite (Z.mod_small k) in HE by lia.
  apply bind_Ok in HE as (bs & HM & HE). apply bind_Ok in HE as (els & HEl & HE).
  injection HE as <-. destruct i as [|i].
  - injection Hi as ->. eexists. rewrite Z.add_0_r. split; [done|]. split; [done|].
    apply Marshal_Ok in HM as (body & He & -> & Hl); [|done]. apply Unmarshal_Ok.
    split_and!; [done|done|]. exists body. split; [done|]. split; [|done].
    split_and!; [done|unfold is_u32; simpl; lia|done|done].
  - replace (k + Z.of_nat (S i)) with (k + 1 + Z.of_nat i) by lia.
    exact (IH (k + 1) els i ltac:(lia) ltac:(lia) Hvl HEl Hi).
Qed.

(** What an accepted export puts in shared memory is what the destination chain reads: the
    element of the i-th output has the key of UTXO i of the transaction, and its bytes
    decode to exactly that UTXO. *)
Theorem export_elements_decode u dest reqs i out :
  length (md_id (EX_Metadata u)) = 32%nat -> Z.of_nat (length (ExportedOutputs u)) < 2 ^ 32 ->
  Forall valid_TransferableOutput (ExportedOutputs u) ->
  Export_AtomicOps u = Ok (dest, reqs) -> ExportedOutputs u !! i = Some out ->
  let txID := md_id (EX_Metadata u) in
  dest = DestinationChain u /\ RemoveRequests reqs = [] /\
  exists el, PutRequests reqs !! i = Some el /\ EL_Key el = InputID txID (Z.of_nat i) /\
    Codec_Unmarshal (EL_Value el) D_UTXO =
    Ok (CodecVersion, V_UTXO (mkUTXO txID (Z.of_nat i) (TO_AssetID out) (TO_Out out))).
Proof.
  intros Hid Hl Hv HO Hi txID. apply bind_Ok in HO as (els & HE & HO). injection HO as <- <-.
  split; [done|]. split; [done|].
  exact (exportElements_lookup txID 0 (ExportedOutputs u) els i out Hid ltac:(lia) Hl Hv HE Hi).
Qed.

End Shared.

(** ** Instances of the libraries, and runs *)

Module Witness.
Import PackerConcrete Deps.Concrete extstate extstate.Concrete.

Fixpoint adjacent {A} (cmp : A -> A -> Z) (l : list A) : bool :=
  match l with
  | x :: (y :: _) as l' => (cmp x y <? 0) && adjacent cmp l'
  | _ => true
  end.

#[local] Instance utxolib : UtxoLib := {|
  InputID txID i := be_encode 28 (be_decode txID) ++ be_encode 4 i;
  TransferableInput_Verify _ := Ok tt;
  TransferableOutput_Verify _ := Ok tt;
  Cost i := match i with
            | TransferInput _ sigs => Ok (Z.of_nat (length sigs) * 1000)
            | OtherIn _ => Err (errors_New "cost")
            end;
  CostPerSignature := 1000;
  Addresses o := match o with TransferOutput _ _ _ addrs => Some addrs | OtherOut _ => None end;
  SameChain a b := if bool_decide (a = b) then Err (errors_New "same chain") else Ok tt;
  PlatformChainID := ID_Empty;
  TransferableInput_Compare x y := bytes.Compare (TI_TxID x) (TI_TxID y);
  IsSortedTransferableOutputs _ := true;
  SortTransferableOutputs l := l;
  IsSortedAndUnique A cmp l := adjacent cmp l;
  utils_Sort A cmp l := sort.Sort (fun x y => cmp x y <? 0) l;
  ID_Hex id := id
|}.

#[local] Instance utxolib_spec : UtxoLibSpec.
Proof.
  split.
  - intros. unfold InputID, utxolib. by rewrite length_app, !length_be_encode.
  - done.
  - done.
  - intros A cmp l. simpl. induction l as [|x [|y l] IH]; intros i a b Hs Hi Hj; [done|by destruct i|].
    apply andb_true_iff in Hs as [Hxy Hs]. destruct i as [|i].
    + injection Hi as <-. injection Hj as <-. lia.
    + by apply (IH i).
  - done.
  - intros. apply sort.Sort_Permutation.
Qed.

#[local] Instance keychain : Keychain byte := {|
  EVMAddress k := replicate 20 k;
  SignHash k _ := Ok (replicate 65 k);
  Spend o _ := match o with
               | TransferOutput amt _ _ _ =>
                   if decide (is_u64 amt) then Ok (Some (TransferInput amt [0]), [Byte.x01])
                   else Err (errors_New "spend")
               | OtherOut _ => Err (errors_New "spend")
               end;
  SortTransferableInputsWithSigners ins signers := (ins, signers)
|}.

#[local] Instance keychain_spec : KeychainSpec.
Proof.
  split; [intros; apply length_replicate| |done].
  intros [amt l t a|amt] time i ks; simpl; [|done]. case_decide; [|done]. by intros [= <- _].
Qed.

#[local] Instance ranges : AtomicRange := {|
  range_amounts m := map_to_list m;
  range_nonces m := map_to_list m
|}.

#[local] Instance ranges_spec : AtomicRangeSpec.
Proof. by split. Qed.

Definition lux : ID := replicate 32 Byte.x0c.
Definition ctx0 : Context_ := mkContext 1 (replicate 32 Byte.x0a) lux.
Definition dest0 : ID := replicate 32 Byte.x0b.
Definition hash0 (bs : list byte) : ID := be_encode 32 (be_decode bs).
Definition alice : Address := replicate 20 Byte.x01.
Definition bob : Address := replicate 20 Byte.x02.
Definition state1 : StateDB Geth :=
  New (mkGeth ∅ {[alice := 3000000000000; bob := 9000000000000000]} {[alice := 5]}).

Definition export_run : result Tx :=
  NewExportTx hash0 ctx0 state1 lux 1000000 dest0 (replicate 20 Byte.x09) (Some 25000000000)
    [Byte.x01; Byte.x02].

Definition u_of (r : result Tx) : UnsignedExportTx :=
  match r with
  | Ok (mkTx (Some (ExportTx u)) _) => u
  | _ => mkExport Metadata_zero 0 [] [] [] []
  end.
Definition export1 : UnsignedExportTx := u_of export_run.

Definition tx_of (r : result Tx) : Tx := match r with Ok tx => tx | _ => mkTx None [] end.

Lemma export_conflicts_iff_witness :
  Export_InputUTXOs export1 ## Export_InputUTXOs export1 <->
  ~ exists i j, i ∈ Ins export1 /\ j ∈ Ins export1 /\ EI_Address i = EI_Address j /\ EI_Nonce i = EI_Nonce j.
Proof.
  assert (Forall wf_input (Ins export1)) as Hi.
  { assert (Ins export1 = [mkEVMInput bob 1280750 lux 0]) as -> by (vm_compute; reflexivity).
    constructor; [|constructor]. split; [reflexivity|closed_u64]. }
  exact (export_conflicts_iff export1 export1 Hi Hi).
Defined.


Definition utxo1 : UTXO :=
  mkUTXO (replicate 32 Byte.x07) 0 lux (TransferOutput 5000000 0 1 [replicate 20 Byte.x01]).
Definition import_run : result Tx :=
  NewImportTx hash0 ctx0 0 dest0 alice (Some 25000000000) [utxo1].

Lemma NewImportTx_exact_fee_witness :
  import_run = Ok (tx_of import_run) /\
  Forall (fun u => forall i ks, Spend (UTXO_Out u) 0 = Ok (Some i, ks) ->
            UTXO_AssetID u = ctx_UTXOAssetID ctx0) [utxo1] /\
  exists u gas, Unsigned (tx_of import_run) = Some (ImportTx u) /\ Tx_GasUsed (tx_of import_run) true = Ok gas /\
    CalculateDynamicFee gas (Some 25000000000) = Ok (fee_of gas 25000000000) /\
    Outs u = [mkEVMOutput alice (imported (ctx_UTXOAssetID ctx0) (ImportedInputs u) - fee_of gas 25000000000)
                (ctx_UTXOAssetID ctx0)] /\
    Tx_Burned (tx_of import_run) (ctx_UTXOAssetID ctx0) = Ok (fee_of gas 25000000000).
Proof.
  assert (import_run = Ok (tx_of import_run)) as Hrun by (vm_compute; reflexivity).
  split; [exact Hrun|].
  apply (NewImportTx_exact_fee hash0 ctx0 0 dest0 alice 25000000000 [utxo1] (tx_of import_run));
    [reflexivity|reflexivity|lia|exact Hrun].
Defined.

Lemma wf_export1 : wf_export ctx0 export1.
Proof.
  split; [vm_compute; reflexivity|].
  assert (Ins export1 = [mkEVMInput bob 1280750 lux 0]) as -> by (vm_compute; reflexivity).
  constructor; [|constructor]. split; closed_u64.
Defined.


Lemma export_no_replay_witness :
  is_Err (fst (Export_EVMStateTransfer ctx0 export1
                 (snd (Export_EVMStateTransfer ctx0 export1 state1)))) = true.
Proof.
  assert (mkEVMInput bob 1280750 lux 0 ∈ Ins export1) as Hi.
  { assert (Ins export1 = [mkEVMInput bob 1280750 lux 0]) as -> by (vm_compute; reflexivity).
    apply list_elem_of_here. }
  apply (export_no_replay ctx0 export1 export1 state1 (mkEVMInput bob 1280750 lux 0)
           (mkEVMInput bob 1280750 lux 0) wf_export1 wf_export1);
    [vm_compute; reflexivity|exact Hi|exact Hi|reflexivity|reflexivity].
Defined.

Definition import1 : UnsignedImportTx :=
  match tx_of import_run with
  | mkTx (Some (ImportTx u)) _ => u
  | _ => mkImport Metadata_zero 0 [] [] [] []
  end.

Lemma import_transfer_witness :
  let s' := Import_EVMStateTransfer ctx0 import1 state1 in
  GetBalance s' alice = (GetBalance state1 alice + credit (Outs import1) alice) mod 2 ^ 256 /\
  GetNonce s' alice = GetNonce state1 alice.
Proof.
  assert (Forall (fun o => is_u64 (EO_Amount o)) (Outs import1)) as Ho.
  { assert (EO_Amount <$> Outs import1 = [4719250]) as E by (vm_compute; reflexivity).
    apply (list.Forall_fmap EO_Amount is_u64). rewrite E. constructor; [closed_u64|constructor]. }
  apply (import_transfer ctx0 import1 state1 alice); [vm_compute; reflexivity|exact Ho].
Defined.

Lemma export_elements_decode_witness :
  let txID := md_id (EX_Metadata export1) in
  let reqs := match Export_AtomicOps export1 with Ok (_, r) => r | _ => mkRequests [] [] end in
  DestinationChain export1 = DestinationChain export1 /\ RemoveRequests reqs = [] /\
  exists el, PutRequests reqs !! 0%nat = Some el /\ EL_Key el = InputID txID (Z.of_nat 0) /\
    Codec_Unmarshal (EL_Value el) D_UTXO =
    Ok (CodecVersion, V_UTXO (mkUTXO txID (Z.of_nat 0) lux (TransferOutput 1000000 0 1 [replicate 20 Byte.x09]))).
Proof.
  set (out := mkTransferableOutput lux (TransferOutput 1000000 0 1 [replicate 20 Byte.x09])).
  assert (ExportedOutputs export1 = [out]) as Eo by (vm_compute; reflexivity).
  assert (Forall valid_TransferableOutput (ExportedOutputs export1)) as Hv.
  { rewrite Eo. wire.Witness.closed_valid. }
  intros txID reqs.
  assert (Export_AtomicOps export1 = Ok (DestinationChain export1, reqs)) as HO
    by (vm_compute; reflexivity).
  apply (export_elements_decode export1 (DestinationChain export1) reqs 0 out);
    [vm_compute; reflexivity|rewrite Eo; reflexivity|exact Hv|exact HO|rewrite Eo; reflexivity].
Defined.

End Witness.

End atomicspec.
