(* ===== verification/Store.v ===== *)
(** * The stores behind the atomic state

    The packages the atomic repository, trie and backend are written against:
    [luxfi/database] ([versiondb] with [prefixdb] views), the shared memory of
    [luxfi/vm/chains/atomic], and geth's [trie] and [triedb]. All of them live in one
    process and on one disk (the trie database is itself stored under a prefix of the
    versioned database), so their state is one type [W] that every operation is given.

    The operations are classes; [StoreModel] is the abstract content of a store and
    [StoreSpec] the documented behaviour of the operations on it. *)

From Stdlib Require Import Sorting.Sorted.
From S2P Require Import Prelude GoStd AtomicTypes.
Import atomic.

(** A key-value map, and the entries an iterator yields. *)
Abbreviation KV := (gmap (list byte) (list byte)).
Definition Entry : Type := list byte * list byte.

(** [versiondb.Database] seen through [prefixdb.New(prefix, db)], the helpers of
    [luxfi/database] and [ids.ToID]. An iterator is the list of what it yields and its
    final [Error()]. *)
Class VersionDB (W Batch : Type) := {
  db_Get : W -> list byte -> list byte -> result (list byte);
  db_Put : list byte -> list byte -> list byte -> StM W unit;
  db_Delete : list byte -> list byte -> StM W unit;
  db_NewIteratorWithStart : W -> list byte -> list byte -> list Entry * option error;
  db_Commit : StM W unit;
  db_CommitBatch : W -> result Batch;
  PackUInt64 : Z -> list byte;
  ParseUInt64 : list byte -> result Z;
  ToID : list byte -> result ID
}.

(** [luxatomic.SharedMemory] and [luxatomic.WriteAll] *)
Class SharedMemory (W Batch : Type) := {
  sm_Get : W -> ID -> list (list byte) -> result (list (list byte));
  sm_Apply : gmap ID Requests -> list Batch -> StM W unit;
  WriteAll : Batch -> list Batch -> StM W unit
}.

(** geth's [trie.Trie] ([T], with its [trienode.NodeSet] [N]) and [triedb.Database]. *)
Class TrieLib (W T N : Type) := {
  EmptyRootHash : Hash;
  (** [ethdb.IdealBatchSize] *)
  IdealBatchSize : Z;
  trie_New : Hash -> W -> result T;
  trie_Update : list byte -> list byte -> StM T unit;
  trie_Hash : T -> Hash;
  trie_Commit : T -> Hash * option N;
  trie_Iterator : T -> list byte -> result (list Entry * option error);
  triedb_Update : Hash -> N -> StM W unit;
  triedb_Commit : Hash -> StM W unit;
  triedb_Reference : Hash -> W -> W;
  triedb_Dereference : Hash -> W -> W;
  triedb_Size : W -> Z;
  triedb_Cap : Z -> StM W unit
}.

Definition ErrNotFound : error := errors_New "database.ErrNotFound".

(** [common.BytesToHash]: the last 32 bytes, padded on the left. *)
Definition BytesToHash (b : list byte) : Hash := be_encode 32 (be_decode b).

Lemma BytesToHash_id h : length h = 32%nat -> BytesToHash h = h.
Proof. apply be_encode_decode'. Qed.

(** ** Iteration in key order *)

Definition key_lt (x y : Entry) : Prop := bytes.Compare (fst x) (fst y) < 0.

(** [l] is the part of [m] at or after [start], in the order of the keys. *)
Definition entries_from (start : list byte) (m : KV) (l : list Entry) : Prop :=
  StronglySorted key_lt l /\
  forall k v, (k, v) ∈ l <-> m !! k = Some v /\ bytes.Compare start k <= 0.

Definition entries (start : list byte) (m : KV) : list Entry :=
  sort.Sort (fun x y => bytes.Compare (fst x) (fst y) <? 0)
    (filter (fun e => bytes.Compare start (fst e) <= 0) (map_to_list m)).

Lemma key_lt_asym x y : key_lt x y -> ~ key_lt y x.
Proof. unfold key_lt. pose proof (bytes.Compare_antisym (fst x) (fst y)). lia. Qed.

Lemma sorted_unique l l' : StronglySorted key_lt l -> StronglySorted key_lt l' ->
  (forall e, e ∈ l <-> e ∈ l') -> l = l'.
Proof.
  revert l'. induction l as [|x l IH]; intros [|y l'] Hl Hl' He.
  - done.
  - by destruct (not_elem_of_nil y); apply He, list_elem_of_here.
  - by destruct (not_elem_of_nil x); apply He, list_elem_of_here.
  - inversion_clear Hl as [|? ? Hl0 Hx]. inversion_clear Hl' as [|? ? Hl0' Hy].
    rewrite list.Forall_forall in Hx, Hy. assert (x = y) as <-.
    { assert (x ∈ y :: l') as [|H1]%elem_of_cons by apply He, list_elem_of_here; [done|].
      assert (y ∈ x :: l) as [|H2]%elem_of_cons by apply He, list_elem_of_here; [done|].
      by destruct (key_lt_asym _ _ (Hx _ H2)); apply Hy. }
    f_equal. apply IH; [done..|]. intros e. specialize (He e). rewrite !elem_of_cons in He. split; intros Hin.
    + destruct He as [[->|] _]; [by right| |done]. by destruct (key_lt_asym x x); apply Hx.
    + destruct He as [_ [->|]]; [by right| |done]. by destruct (key_lt_asym x x); apply Hy.
Qed.

(** There is one iteration of a map, and it can be taken up at any of its entries. *)
Lemma entries_from_unique start m l l' : entries_from start m l -> entries_from start m l' -> l = l'.
Proof.
  intros [S1 E1] [S2 E2]. apply sorted_unique; [done..|]. intros [k v]. by rewrite E1, E2.
Qed.

Lemma StronglySorted_app_inv l1 e l2 : StronglySorted key_lt (l1 ++ e :: l2) ->
  StronglySorted key_lt (e :: l2) /\ Forall (fun x => key_lt x e) l1.
Proof.
  induction l1 as [|x l1 IH]; cbn [app]; [done|]. inversion_clear 1 as [|? ? Hl Hx].
  destruct (IH Hl) as [H1 H2]. split; [done|]. constructor; [|done].
  rewrite list.Forall_forall in Hx. apply Hx, elem_of_app. right. apply list_elem_of_here.
Qed.

Lemma entries_from_suffix start m l1 e l2 :
  entries_from start m (l1 ++ e :: l2) -> entries_from (fst e) m (e :: l2).
Proof.
  intros [HS HE]. destruct (StronglySorted_app_inv l1 e l2 HS) as [S2 F1]. split; [done|].
  inversion S2 as [|? ? _ Hgt]. subst. rewrite list.Forall_forall in F1, Hgt. intros k v. split.
  - intros Hin. split; [apply HE, elem_of_app; by right|].
    apply elem_of_cons in Hin as [<-|Hin]; [cbn; by rewrite bytes.Compare_refl|].
    apply Hgt in Hin. unfold key_lt in Hin. cbn in Hin. lia.
  - intros [Hm Hle]. assert ((k, v) ∈ l1 ++ e :: l2) as Hin.
    { apply HE. split; [done|]. eapply bytes.Compare_le_trans; [|exact Hle].
      destruct e as [k0 v0]. eapply HE, elem_of_app. right. apply list_elem_of_here. }
    apply elem_of_app in Hin as [Hin%F1|Hin]; [|done]. unfold key_lt in Hin. cbn in Hin.
    pose proof (bytes.Compare_antisym (fst e) k). lia.
Qed.

(** ** Content of a store *)

(** [view]: the content of the database under a prefix; [durable]: what a restart finds.
    [inbound] and [outbound]: what a peer chain put for this one, and conversely.
    [opens]: the content of the trie a root can be opened at; [held w r n]: at least [n]
    references protect the root [r]. [trie_ok]: a trie whose nodes can be read;
    [origin] and [opened]: the root it was opened at and its content then. *)
Class StoreModel (W T St : Type) := {
  healthy : W -> Prop;
  view : W -> list byte -> KV;
  durable : W -> list byte -> KV;
  inbound : W -> ID -> St;
  outbound : W -> ID -> St;
  st_get : list byte -> St -> option (list byte);
  st_remove : list byte -> St -> option St;
  st_put : Element -> St -> option St;
  trie_ok : T -> Prop;
  contents : T -> KV;
  origin : T -> Hash;
  opened : T -> KV;
  trie_root : KV -> Hash;
  opens : W -> Hash -> option KV;
  held : W -> Hash -> nat -> Prop
}.

(** A loop with a partial step. *)
Fixpoint ofold {A S} (f : A -> S -> option S) (l : list A) (s : S) : option S :=
  match l with
  | [] => Some s
  | x :: l' => s' ← f x s; ofold f l' s'
  end.

Lemma ofold_app {A S} (f : A -> S -> option S) l k s :
  ofold f (l ++ k) s = ofold f l s ≫= ofold f k.
Proof. revert s. induction l as [|x l IH]; intros s; [done|]. simpl. by destruct (f x s); [apply IH|]. Qed.

Lemma ofold_1 {A S} (f : A -> S -> option S) x s : ofold f [x] s = f x s.
Proof. cbn. by destruct (f x s). Qed.

Section Model.
Context {W T St : Type} {SM : StoreModel W T St}.

Definition shared (w : W) (c : ID) : St * St := (inbound w c, outbound w c).

(** The effect of the requests made of one peer chain: values it put are consumed,
    values for it are put; the two directions are separate. *)
Definition apply_requests (r : Requests) (s : St * St) : option (St * St) :=
  i ← ofold st_remove (RemoveRequests r) (fst s);
  o ← ofold st_put (PutRequests r) (snd s);
  Some (i, o).

Definition keeps_tries (w w' : W) : Prop :=
  forall q, (forall m, opens w q = Some m -> opens w' q = Some m) /\
            (forall n, held w q n -> held w' q n).

Definition keeps_shared (w w' : W) : Prop := forall c, shared w' c = shared w c.

(** The tries that can be opened afterwards could be before, apart from [ms]. *)
Definition gains (ms : list KV) (w w' : W) : Prop :=
  forall q m, opens w' q = Some m -> opens w q = Some m \/ m ∈ ms /\ q = trie_root m.

(** A step of the store that adds the tries [ms] at most: the store stays usable, the
    shared memory is untouched and the tries are kept. *)
Definition adds (ms : list KV) (w w' : W) : Prop :=
  healthy w' /\ keeps_shared w w' /\ keeps_tries w w' /\ gains ms w w'.

Definition db_step : W -> W -> Prop := adds [].

Lemma keeps_tries_trans w1 w2 w3 : keeps_tries w1 w2 -> keeps_tries w2 w3 -> keeps_tries w1 w3.
Proof. intros H1 H2 q. destruct (H1 q), (H2 q). naive_solver. Qed.

Lemma keeps_shared_trans w1 w2 w3 : keeps_shared w1 w2 -> keeps_shared w2 w3 -> keeps_shared w1 w3.
Proof. intros H1 H2 c. by rewrite H2, H1. Qed.

Lemma gains_refl ms w : gains ms w w.
Proof. intros q m. by left. Qed.

Lemma gains_trans ms ms' w1 w2 w3 : gains ms w1 w2 -> gains ms' w2 w3 -> gains (ms ++ ms') w1 w3.
Proof.
  intros H1 H2 q m [Ho|[Hm Hq]]%H2; [apply H1 in Ho as [?|[Hm Hq]]; [by left|]|].
  - right. split; [|done]. apply elem_of_app. by left.
  - right. split; [|done]. apply elem_of_app. by right.
Qed.

Lemma db_step_refl w : healthy w -> db_step w w.
Proof. intros Hh. split; [done|]. split; [by intros c|]. split; [by intros q|apply gains_refl]. Qed.

Lemma adds_trans ms ms' w1 w2 w3 : adds ms w1 w2 -> adds ms' w2 w3 -> adds (ms ++ ms') w1 w3.
Proof.
  intros (_ & S1 & T1 & G1) (Hh & S2 & T2 & G2). split; [done|]. split; [by eapply keeps_shared_trans|].
  split; [by eapply keeps_tries_trans|by eapply gains_trans].
Qed.

Lemma db_step_trans w1 w2 w3 : db_step w1 w2 -> db_step w2 w3 -> db_step w1 w3.
Proof. apply (adds_trans [] []). Qed.

(** One reference to the root [r] released: a root with a reference left stays. *)
Definition released (r : Hash) (w w' : W) : Prop :=
  healthy w' /\ keeps_shared w w' /\
  (forall n m, held w r (S (S n)) -> opens w r = Some m -> held w' r (S n) /\ opens w' r = Some m) /\
  (forall q n m, q <> r -> held w q (S n) -> opens w q = Some m ->
     held w' q (S n) /\ opens w' q = Some m) /\
  gains [] w w'.

Lemma db_step_released r w1 w2 w3 : db_step w1 w2 -> released r w2 w3 -> released r w1 w3.
Proof.
  intros (_ & S1 & T1 & G1) (Hh & S2 & R1 & R2 & G2).
  split; [done|]. split; [by eapply keeps_shared_trans|]. split; [|split].
  - intros n m Hn Ho. apply R1; by apply T1.
  - intros q n m Hq Hn Ho. apply R2; [done|by apply T1..].
  - by apply (gains_trans [] [] w1 w2).
Qed.

End Model.

(** ** Documented behaviour *)

Class StoreSpec {W Batch T N St : Type} {DB : VersionDB W Batch} {MEM : SharedMemory W Batch}
    {TL : TrieLib W T N} {SM : StoreModel W T St} (trie_prefix : list byte) : Prop := {
  PackUInt64_eq h : PackUInt64 h = be_encode 8 h;
  ParseUInt64_eq b : length b = 8%nat -> ParseUInt64 b = Ok (be_decode b);
  ToID_eq b : length b = 32%nat -> ToID b = Ok b;

  Get_spec w p k : healthy w ->
    db_Get w p k = match view w p !! k with Some x => Ok x | None => Err ErrNotFound end;
  Put_spec w p k x : healthy w -> p <> trie_prefix ->
    exists w', db_Put p k x w = (Ok tt, w') /\ db_step w w' /\
      view w' p = <[k := x]> (view w p) /\ (forall q, q <> p -> view w' q = view w q);
  Delete_spec w p k : healthy w -> p <> trie_prefix ->
    exists w', db_Delete p k w = (Ok tt, w') /\ db_step w w' /\
      view w' p = delete k (view w p) /\ (forall q, q <> p -> view w' q = view w q);
  Iterator_spec w p start : healthy w ->
    exists l, db_NewIteratorWithStart w p start = (l, None) /\ entries_from start (view w p) l;
  Commit_spec w : healthy w ->
    exists w', db_Commit w = (Ok tt, w') /\ db_step w w' /\
      (forall p, view w' p = view w p /\ durable w' p = view w p);
  CommitBatch_spec w : healthy w -> exists b, db_CommitBatch w = Ok b;

  sm_Get_spec w c keys : healthy w ->
    match mapM (fun k => st_get k (inbound w c)) keys with
    | Some vals => sm_Get w c keys = Ok vals
    | None => exists e, sm_Get w c keys = Err e
    end;
  (** the operations and the batches are written together *)
  Apply_spec w ops bs b : healthy w -> db_CommitBatch w = Ok b ->
    (forall c r, ops !! c = Some r -> is_Some (apply_requests r (shared w c))) ->
    exists w', sm_Apply ops (bs ++ [b]) w = (Ok tt, w') /\ healthy w' /\
      (forall p, view w' p = view w p /\ durable w' p = view w p) /\
      (keeps_tries w w' /\ gains [] w w') /\
      (forall c, Some (shared w' c) =
         match ops !! c with Some r => apply_requests r (shared w c) | None => Some (shared w c) end);
  WriteAll_spec w b0 b : healthy w -> db_CommitBatch w = Ok b ->
    exists w', WriteAll b0 [b] w = (Ok tt, w') /\ db_step w w' /\
      (forall p, view w' p = view w p /\ durable w' p = view w p);

  EmptyRootHash_eq : EmptyRootHash = trie_root ∅;
  trie_root_length m : length (trie_root m) = 32%nat;
  trie_root_nonzero m : trie_root m <> Hash_zero;
  opens_root w r m : healthy w -> opens w r = Some m -> r = Hash_zero /\ m = ∅ \/ r = trie_root m;
  opens_empty w : healthy w -> opens w EmptyRootHash = Some ∅ /\ opens w Hash_zero = Some ∅;
  held_0 w r : held w r 0;
  held_le w r n n' : held w r n -> (n' <= n)%nat -> held w r n';
  held_empty w n : healthy w -> held w EmptyRootHash n /\ held w Hash_zero n;
  trie_New_spec w r m : healthy w -> opens w r = Some m ->
    exists t, trie_New r w = Ok t /\ trie_ok t /\ contents t = m /\ origin t = r /\ opened t = m;
  trie_Update_spec t k v : trie_ok t -> v <> [] ->
    exists t', trie_Update k v t = (Ok tt, t') /\ trie_ok t' /\
      contents t' = <[k := v]> (contents t) /\ origin t' = origin t /\ opened t' = opened t;
  trie_Hash_spec t : trie_ok t -> trie_Hash t = trie_root (contents t);
  trie_Commit_root t : trie_ok t -> fst (trie_Commit t) = trie_root (contents t);
  (** no nodes: nothing changed since the trie was opened *)
  trie_Commit_nil t : trie_ok t -> snd (trie_Commit t) = None -> contents t = opened t;
  trie_Iterator_spec t start : trie_ok t ->
    exists l, trie_Iterator t start = Ok (l, None) /\ entries_from start (contents t) l;

  (** the nodes of a changed trie, added on top of the trie it was opened at; two
      contents with one root would be a hash collision *)
  triedb_Update_spec w t n : healthy w -> trie_ok t -> snd (trie_Commit t) = Some n ->
    opens w (origin t) = Some (opened t) ->
    (forall m, opens w (trie_root (contents t)) = Some m -> m = contents t) ->
    exists w', triedb_Update (trie_root (contents t)) n w = (Ok tt, w') /\ adds [contents t] w w' /\
      opens w' (trie_root (contents t)) = Some (contents t) /\
      (forall p, p <> trie_prefix -> view w' p = view w p);
  triedb_Commit_spec w r : healthy w -> is_Some (opens w r) ->
    exists w', triedb_Commit r w = (Ok tt, w') /\ db_step w w' /\ (forall n, held w' r n) /\
      (forall p, p <> trie_prefix -> view w' p = view w p);
  triedb_Cap_spec w c : healthy w ->
    exists w', triedb_Cap c w = (Ok tt, w') /\ db_step w w' /\
      (forall p, p <> trie_prefix -> view w' p = view w p);
  triedb_Reference_spec w r : healthy w ->
    let w' := triedb_Reference r w in
    db_step w w' /\ (forall p, view w' p = view w p) /\
    (is_Some (opens w r) -> forall n, held w r n -> held w' r (S n));
  triedb_Dereference_spec w r : healthy w ->
    released r w (triedb_Dereference r w) /\
    (forall p, view (triedb_Dereference r w) p = view w p)
}.
