(* ===== verification/AtomicRepo.v ===== *)
(** * The atomic transaction repository

    [plugin/evm/atomic/state/atomic_repository.go]: the indexes of the accepted atomic
    transactions by transaction ID and by height, kept under prefixes of the versioned
    database, and the migration that builds the height index. *)

From S2P Require Import Prelude GoStd Packer AtomicTypes AtomicCodec AtomicFormat ExtState AtomicTx AtomicTxSpec Store.
Import atomic codec wire atomictx.

Module repo.

Definition bytes_of (s : string) : list byte := String.list_byte_of_string s.

Definition atomicTxIDDBPrefix : list byte := bytes_of "atomicTxDB".
Definition atomicHeightTxDBPrefix : list byte := bytes_of "atomicHeightTxDB".
Definition atomicRepoMetadataDBPrefix : list byte := bytes_of "atomicRepoMetadataDB".
Definition atomicTrieDBPrefix : list byte := bytes_of "atomicTrieDB".
Definition atomicTrieMetaDBPrefix : list byte := bytes_of "atomicTrieMetaDB".
Definition appliedSharedMemoryCursorKey : list byte := bytes_of "atomicTrieLastAppliedToSharedMemory".
Definition maxIndexedHeightKey : list byte := bytes_of "maxIndexedAtomicTxHeight".

(** [10 * constants.MiB] *)
Definition repoCommitSizeCap : Z := 10 * 1024 * 1024.

Section Repo.
Context {W Batch : Type} {DB : VersionDB W Batch} {UL : UtxoLib} {PL : PackerLib}.
Context (ComputeHash256 : list byte -> ID).

(** Several transactions are copied and sorted by [Tx.Compare]. The sort compares every
    element, so a transaction without its unsigned part is a nil dereference. *)
Definition sortTxs (txs : list Tx) : result (list Tx) :=
  if (1 <? length txs)%nat then
    _ ← check_all (fun tx => _ ← Tx_ID tx; Ok tt) txs;
    Ok (utils_Sort (fun x y => match Tx_Compare x y with Ok c => c | _ => 0 end) txs)
  else Ok txs.

(** ** Reading *)

Definition GetIndexHeight (w : W) : result Z :=
  indexHeightBytes ← db_Get w atomicRepoMetadataDBPrefix maxIndexedHeightKey;
  _ ← fail_if (negb (length indexHeightBytes =? 8)%nat)
        (errors_New "unexpected length for indexHeightBytes");
  Ok (be_decode indexHeightBytes).

(** The packer's error is not looked at: the transaction bytes are then empty. *)
Definition GetByTxID (txID : ID) (w : W) : result (Tx * Z) :=
  indexedTxBytes ← db_Get w atomicTxIDDBPrefix txID;
  _ ← fail_if (length indexedTxBytes <? 8)%nat (errors_New "acceptedAtomicTxDB entry too short");
  r ← fst ((height ← UnpackLong; txBytes ← UnpackBytes; mret (height, txBytes))
           (mkPacker indexedTxBytes 0 0 None));
  tx ← ExtractAtomicTx ComputeHash256 (snd r);
  Ok (tx, fst r).

Definition getByHeightBytes (heightBytes : list byte) (w : W) : result (list Tx) :=
  txsBytes ← db_Get w atomicHeightTxDBPrefix heightBytes;
  ExtractAtomicTxsBatch ComputeHash256 txsBytes.

Definition GetByHeight (height : Z) (w : W) : result (list Tx) :=
  getByHeightBytes (be_encode 8 height) w.

Definition IterateByHeight (height : Z) (w : W) : list Entry * option error :=
  db_NewIteratorWithStart w atomicHeightTxDBPrefix (be_encode 8 height).

(** ** Writing *)

(** The value is packed into a buffer of its final size. *)
Definition indexTxByID (heightBytes : list byte) (tx : Tx) : StM W unit :=
  txBytes ← lift (Codec_Marshal CodecVersion (V_Tx (Some tx)));
  let heightTxPacker := snd ((_ ← PackFixedBytes heightBytes; PackBytes txBytes)
        (mkPacker (replicate (8 + 4 + length txBytes) Byte.x00) 0 0 None)) in
  txID ← lift (Tx_ID tx);
  db_Put atomicTxIDDBPrefix txID (Bytes heightTxPacker).

Definition indexTxsAtHeight (heightBytes : list byte) (txs : list Tx) : StM W unit :=
  txsBytes ← lift (Codec_Marshal CodecVersion (V_Txs (Some <$> txs)));
  db_Put atomicHeightTxDBPrefix heightBytes txsBytes.

(** One transaction of [write]; on a bonus block an existing entry is kept. *)
Definition writeTx (heightBytes : list byte) (bonus : bool) (tx : Tx) : StM W unit :=
  skip ← (if bonus then
            readM (fun w =>
              id ← Tx_ID tx;
              match GetByTxID id w with
              | Ok _ => Ok true
              | Err e => if bool_decide (e = ErrNotFound) then Ok false else Err e
              | Panic => Panic
              end)
          else mret false);
  if skip : bool then mret tt else indexTxByID heightBytes tx.

Definition write (height : Z) (txs : list Tx) (bonus : bool) : StM W unit :=
  txs ← lift (sortTxs txs);
  let heightBytes := be_encode 8 height in
  _ ← (if (0 <? length txs)%nat then
         _ ← for_each (writeTx heightBytes bonus) txs;
         indexTxsAtHeight heightBytes txs
       else mret tt);
  db_Put atomicRepoMetadataDBPrefix maxIndexedHeightKey heightBytes.

Definition Write (height : Z) (txs : list Tx) : StM W unit := write height txs false.
Definition WriteBonus (height : Z) (txs : list Tx) : StM W unit := write height txs true.

(** ** Migration to the height index *)

Fixpoint containsID (id : ID) (txs : list Tx) : result bool :=
  match txs with
  | [] => Ok false
  | existingTx :: txs' =>
      existingID ← Tx_ID existingTx;
      if bool_decide (existingID = id) then Ok true else containsID id txs'
  end.

Definition appendTxToHeightIndex (heightBytes : list byte) (tx : Tx) : StM W unit :=
  txs ← readM (fun w =>
          match getByHeightBytes heightBytes w with
          | Err e => if bool_decide (e = ErrNotFound) then Ok [] else Err e
          | r => r
          end);
  id ← lift (Tx_ID tx);
  found ← lift (containsID id txs);
  if found : bool then mret tt else indexTxsAtHeight heightBytes (txs ++ [tx]).

(** The loop over the transactions by ID; [pending] is [pendingBytesApproximation]. The
    length test is for the height only, the slice expression also skips the length of
    the transaction. *)
Fixpoint reindex (es : list Entry) (pending : Z) : StM W unit :=
  match es with
  | [] => mret tt
  | (_, iterValue) :: es' =>
      if (length iterValue <? 8)%nat
      then lift (Err (errors_New "atomic tx DB iterator value had invalid length")) else
      let heightBytes := take 8 iterValue in
      if (length iterValue <? 8 + 4)%nat then lift Panic else
      let txBytes := drop (8 + 4) iterValue in
      tx ← lift (ExtractAtomicTx ComputeHash256 txBytes);
      _ ← appendTxToHeightIndex heightBytes tx;
      lastTxID ← lift (Tx_ID tx);
      let pending := pending + Z.of_nat (length txBytes) in
      if repoCommitSizeCap <? pending then
        _ ← db_Put atomicRepoMetadataDBPrefix maxIndexedHeightKey lastTxID;
        _ ← db_Commit;
        reindex es' 0
      else reindex es' pending
  end.

(** Where the migration starts; [None] when it is complete. *)
Definition migrationStart (w : W) : result (option ID) :=
  let invalid := errors_New "found invalid value at max indexed height" in
  indexHeightBytes ← match db_Get w atomicRepoMetadataDBPrefix maxIndexedHeightKey with
                     | Err e => if bool_decide (e = ErrNotFound) then Ok [] else Err invalid
                     | r => r
                     end;
  if (length indexHeightBytes =? 0)%nat then Ok (Some ID_Empty)
  else if (length indexHeightBytes =? 32)%nat then id ← ToID indexHeightBytes; Ok (Some id)
  else if (length indexHeightBytes =? 8)%nat then Ok None
  else Err invalid.

Definition initializeHeightIndex (lastAcceptedHeight : Z) : StM W unit :=
  start ← readM migrationStart;
  match start with
  | None => mret tt
  | Some lastTxID =>
      iter ← readM (fun w => Ok (db_NewIteratorWithStart w atomicTxIDDBPrefix lastTxID));
      _ ← reindex (fst iter) 0;
      _ ← match snd iter with
          | Some e => lift (Err (errorf_w "atomic tx DB iterator errored while initializing atomic trie" e))
          | None => mret tt
          end;
      _ ← db_Put atomicRepoMetadataDBPrefix maxIndexedHeightKey (be_encode 8 lastAcceptedHeight);
      db_Commit
  end.

(** [NewAtomicTxRepository]: the struct holds the database handles only. *)
Definition NewAtomicTxRepository (lastAcceptedHeight : Z) : StM W unit :=
  initializeHeightIndex lastAcceptedHeight.

End Repo.

(** ** Stored transactions *)

Definition tx_id (tx : Tx) : list byte :=
  match Unsigned tx with Some u => md_id (get_Metadata u) | None => ID_Empty end.
Definition tx_bytes (tx : Tx) : list byte :=
  match Unsigned tx with Some u => md_bytes (get_Metadata u) | None => [] end.

(** The value of the index by ID. *)
Definition tx_entry (height : Z) (tx : Tx) : list byte :=
  be_encode 8 height ++ be_encode 4 (Z.of_nat (length (tx_bytes tx))) ++ tx_bytes tx.

Section Parsed.
Context {PL : PackerLib} {PS : PackerSpec} (h : list byte -> ID).

(** A transaction as the node holds it: parsed from its bytes. *)
Definition parsed (tx : Tx) : Prop := exists bytes, ExtractAtomicTx h bytes = Ok tx.

(** The batch can be marshalled. *)
Definition fits_batch (txs : list Tx) : Prop :=
  len_u32 txs /\ exists body, enc_slice enc_Tx txs = Some body /\
    Z.of_nat (length (message body)) <= maxAtomicMessageSize.

Lemma enc_initialized t : enc_Tx (initialized h t) = enc_Tx t.
Proof. destruct t as [[utx|] creds]; [|done]. unfold enc_Tx. simpl. by rewrite enc_set_Metadata. Qed.

Lemma parsed_inv tx : parsed tx -> exists t body, tx = initialized h t /\
  fresh_Tx t /\ valid_Tx t /\ enc_Tx t = Some body /\ tx_bytes tx = message body /\
  tx_id tx = h (message body) /\ is_Some (Unsigned tx) /\
  Z.of_nat (length (message body)) <= maxAtomicMessageSize.
Proof.
  intros [bytes HE]. apply ExtractAtomicTx_Ok in HE as (t & body & -> & [[Hf Hv] He] & -> & Hl).
  exists t, body. destruct t as [[utx|] creds]; [|done].
  unfold initialized, tx_bytes, tx_id. rewrite He. by destruct utx.
Qed.

Lemma parsed_facts tx : parsed tx ->
  Tx_ID tx = Ok (tx_id tx) /\ tx_id tx = h (tx_bytes tx) /\
  Codec_Marshal CodecVersion (V_Tx (Some tx)) = Ok (tx_bytes tx) /\
  ExtractAtomicTx h (tx_bytes tx) = Ok tx /\ Z.of_nat (length (tx_bytes tx)) <= maxAtomicMessageSize.
Proof.
  intros (t & body & -> & Hf & Hv & He & Hb & Hi & [u Hu] & Hl)%parsed_inv. rewrite Hb, Hi. split_and!.
  - rewrite <- Hi. unfold Tx_ID, tx_id, dispatch. rewrite Hu. by destruct u.
  - done.
  - apply Marshal_Ok; [done|]. exists body. split_and!; [|done|done]. simpl. by rewrite enc_initialized.
  - apply ExtractAtomicTx_Ok. by exists t, body.
  - done.
Qed.

Lemma enc_batch txs : enc_slice (fun tx => tx ≫= enc_Tx) (Some <$> txs) = enc_slice enc_Tx txs.
Proof. by apply enc_slice_fmap. Qed.

(** A batch of them is read back from what is marshalled. *)
Lemma batch_facts txs : Forall parsed txs -> txs <> [] -> fits_batch txs ->
  exists bytes, Codec_Marshal CodecVersion (V_Txs (Some <$> txs)) = Ok bytes /\
    ExtractAtomicTxsBatch h bytes = Ok txs.
Proof.
  intros Hp Hne [Hlen (body & He & Hl)]. exists (message body). split.
  - apply Marshal_Ok; [done|]. exists body. split_and!; [|done..]. simpl. by rewrite enc_batch.
  - apply ExtractAtomicTxsBatch_Ok.
    assert (exists ts, txs = initialized h <$> ts /\
              Forall (fun tx => fresh_Tx tx /\ valid_Tx tx) ts) as (ts & -> & Hts).
    { clear -Hp PS. induction Hp as [|tx txs Hx _ (ts & -> & Hts)]; [by exists []|].
      apply parsed_inv in Hx as (t & body & -> & Hf & Hv & _). exists (t :: ts).
      split; [done|]. by constructor. }
    exists ts, body. split; [done|]. split; [by intros ->|]. split; [|done]. split; [split|].
    + unfold len_u32 in *. by rewrite length_fmap in Hlen.
    + done.
    + rewrite <- He. symmetry. apply enc_slice_fmap, enc_initialized.
Qed.

Lemma encodes_Permutation {A} (enc : A -> option (list byte)) xs ys bs :
  xs ≡ₚ ys -> encodes enc xs = Some bs ->
  exists bs', encodes enc ys = Some bs' /\ length bs' = length bs.
Proof.
  intros HP. revert bs.
  induction HP as [|x xs ys _ IH|x y xs|xs ys zs _ IH1 _ IH2]; intros bs He.
  - by exists bs.
  - apply oapp_Some in He as (b1 & b2 & H1 & H2 & ->). apply IH in H2 as (b2' & H2 & Hl).
    exists (b1 ++ b2'). split; [by apply oapp_Some; exists b1, b2'|]. rewrite !length_app. lia.
  - apply oapp_Some in He as (b1 & b2 & H1 & H2 & ->). apply oapp_Some in H2 as (b3 & b4 & H3 & H4 & ->).
    exists (b3 ++ b1 ++ b4). split; [|rewrite !length_app; lia].
    apply oapp_Some. exists b3, (b1 ++ b4). split_and!; [done| |done]. by apply oapp_Some; exists b1, b4.
  - apply IH1 in He as (b1 & He & Hl). apply IH2 in He as (b2 & He & Hl2). exists b2. split; [done|lia].
Qed.

Lemma encodes_app {A} (enc : A -> option (list byte)) xs ys :
  encodes enc (xs ++ ys) = oapp (encodes enc xs) (encodes enc ys).
Proof.
  induction xs as [|x xs IH]; [cbn [app]; by destruct (encodes enc ys)|].
  change (oapp (enc x) (encodes enc (xs ++ ys)) = oapp (oapp (enc x) (encodes enc xs)) (encodes enc ys)).
  by rewrite IH, oapp_assoc.
Qed.

Lemma fits_batch_prefix txs txs' : fits_batch (txs ++ txs') -> fits_batch txs.
Proof.
  intros [Hlen (body & He & Hl)]. unfold len_u32 in *. rewrite length_app in *.
  apply oapp_Some in He as (b1 & b2 & [= <-] & He & ->).
  rewrite encodes_app in He. apply oapp_Some in He as (b3 & b4 & H3 & _ & ->).
  split; [unfold len_u32; lia|]. unfold message in *. rewrite !length_app, !length_be_encode in Hl.
  eexists. split; [by apply oapp_Some; eexists _, b3|]. rewrite !length_app, !length_be_encode. lia.
Qed.

Lemma fits_batch_Permutation txs txs' : txs ≡ₚ txs' -> fits_batch txs -> fits_batch txs'.
Proof.
  intros HP [Hlen (body & He & Hl)]. pose proof (Permutation_length HP) as Hn.
  split; [unfold len_u32 in *; by rewrite <- Hn|].
  apply oapp_Some in He as (b1 & b2 & H1 & H2 & ->).
  destruct (encodes_Permutation enc_Tx txs txs' b2) as (b2' & H2' & Hl'); [done..|].
  exists (b1 ++ b2'). split.
  - unfold enc_slice. rewrite <- Hn. by apply oapp_Some; exists b1, b2'.
  - unfold message in *. rewrite !length_app in *. lia.
Qed.

Context {UL : UtxoLib} {US : UtxoLibSpec}.

Lemma sortTxs_Ok txs : Forall parsed txs -> exists sorted, sortTxs txs = Ok sorted /\ sorted ≡ₚ txs.
Proof.
  intros Hp. unfold sortTxs. destruct (1 <? length txs)%nat; [|by exists txs].
  assert (check_all (fun tx => _ ← Tx_ID tx; Ok tt) txs = Ok tt) as ->.
  { apply atomicspec.check_all_Ok. eapply list.Forall_impl; [exact Hp|]. intros tx Hx.
    by destruct (parsed_facts tx Hx) as [-> _]. }
  eexists. split; [done|]. apply utils_Sort_Permutation.
Qed.

End Parsed.

Section Spec.
Context {W Batch T N St : Type} {DB : VersionDB W Batch} {MEM : SharedMemory W Batch}
  {TL : TrieLib W T N} {SM : StoreModel W T St} {SS : StoreSpec atomicTrieDBPrefix}.
Context {UL : UtxoLib} {US : UtxoLibSpec} {PL : PackerLib} {PS : PackerSpec} (h : list byte -> ID).

(** The prefixes are distinct. *)
Lemma prefixes : NoDup [atomicTxIDDBPrefix; atomicHeightTxDBPrefix; atomicRepoMetadataDBPrefix;
                        atomicTrieDBPrefix; atomicTrieMetaDBPrefix].
Proof. by apply (bool_decide_unpack _). Qed.

Lemma indexTxByID_run height tx w : healthy w -> parsed h tx ->
  exists w', indexTxByID (be_encode 8 height) tx w = (Ok tt, w') /\ db_step w w' /\
    view w' atomicTxIDDBPrefix = <[tx_id tx := tx_entry height tx]> (view w atomicTxIDDBPrefix) /\
    (forall q, q <> atomicTxIDDBPrefix -> view w' q = view w q).
Proof.
  intros Hh Hp. destruct (parsed_facts h tx Hp) as (Hid & _ & Hm & _ & Hl).
  unfold indexTxByID. rewrite lift_bind, Hm.
  set (r := replicate (8 + 4 + length (tx_bytes tx)) Byte.x00).
  assert (length r = 8 + 4 + length (tx_bytes tx))%nat as Hr by apply length_replicate.
  change (mkPacker r 0 0 None) with (presized [] r 0).
  rewrite (bindM_step _ _ _ _ _ (Packs_presized _ _ [] r 0 (PackFixedBytes_spec (be_encode 8 height))
             ltac:(rewrite length_be_encode; lia))).
  rewrite PackBytes_presized by (rewrite length_drop, length_be_encode; lia).
  rewrite lift_bind, Hid. cbn [snd presized Bytes].
  rewrite (drop_ge (drop _ r)), app_nil_r by (rewrite length_drop, length_be_encode; lia).
  apply Put_spec; done.
Qed.

Lemma GetByTxID_entry w height tx : healthy w -> parsed h tx -> is_u64 height ->
  view w atomicTxIDDBPrefix !! tx_id tx = Some (tx_entry height tx) ->
  GetByTxID h (tx_id tx) w = Ok (tx, height).
Proof.
  intros Hh Hp Hu Hv. destruct (parsed_facts h tx Hp) as (_ & _ & _ & HE & Hl).
  unfold GetByTxID. rewrite Get_spec, Hv by done. cbn [mbind result_bind].
  set (e := tx_entry height tx).
  assert (length e = 12 + length (tx_bytes tx))%nat as He
    by (unfold e, tx_entry; rewrite !length_app, !length_be_encode; lia).
  destruct (Nat.ltb_spec (length e) 8); [lia|]. cbn [fail_if].
  set (p0 := mkPacker e 0 0 None). set (n := be_encode 4 (Z.of_nat (length (tx_bytes tx)))).
  assert (readable p0) as Hr by done.
  assert (remaining p0 = be_encode 8 height ++ n ++ tx_bytes tx ++ []) as R0
    by by rewrite app_nil_r.
  rewrite (bindM_step _ _ _ _ _ (parses_complete _ _ parses_Long p0 height _ _ Hr (conj Hu eq_refl) R0)).
  apply remaining_advance_app in R0; [|done]. rewrite (app_assoc n) in R0.
  assert (encoded len_u32 enc_bytes (tx_bytes tx) (n ++ tx_bytes tx)) as Hb.
  { unfold maxAtomicMessageSize in Hl. split; [unfold len_u32; lia|].
    unfold enc_bytes. by rewrite Z.mod_small by lia. }
  rewrite (bindM_step _ _ _ _ _ (parses_complete _ _ parses_Bytes _ _ _ _ (readable_advance _ _ Hr) Hb R0)).
  simpl. by rewrite HE.
Qed.

(** ** The repository's invariant *)

(** The index by ID holds parsed transactions under their own IDs with the height of a
    block; the index by height holds non-empty batches of them. *)
Definition repo_ok (w : W) : Prop :=
  (forall id v, view w atomicTxIDDBPrefix !! id = Some v ->
     exists tx height, parsed h tx /\ is_u64 height /\ id = tx_id tx /\ v = tx_entry height tx) /\
  (forall hb v, view w atomicHeightTxDBPrefix !! hb = Some v ->
     exists height txs, is_u64 height /\ hb = be_encode 8 height /\ Forall (parsed h) txs /\
       ExtractAtomicTxsBatch h v = Ok txs).

Lemma GetByTxID_spec w id : healthy w -> repo_ok w ->
  match view w atomicTxIDDBPrefix !! id with
  | Some v => exists tx height, parsed h tx /\ is_u64 height /\ id = tx_id tx /\
                v = tx_entry height tx /\ GetByTxID h id w = Ok (tx, height)
  | None => GetByTxID h id w = Err ErrNotFound
  end.
Proof.
  intros Hh [Hi _]. destruct (view w atomicTxIDDBPrefix !! id) as [v|] eqn:Ev.
  - destruct (Hi _ _ Ev) as (tx & height & Hp & Hu & -> & ->). exists tx, height.
    split_and!; [done..|]. by apply GetByTxID_entry.
  - unfold GetByTxID. by rewrite Get_spec, Ev by done.
Qed.

(** What [writeTx] does to the index by ID. *)
Definition index_tx (bonus : bool) (height : Z) (m : KV) (tx : Tx) : KV :=
  if bonus && bool_decide (is_Some (m !! tx_id tx)) then m else <[tx_id tx := tx_entry height tx]> m.

Lemma writeTx_run height bonus tx w : healthy w -> repo_ok w -> parsed h tx ->
  exists w', writeTx h (be_encode 8 height) bonus tx w = (Ok tt, w') /\ db_step w w' /\
    view w' atomicTxIDDBPrefix = index_tx bonus height (view w atomicTxIDDBPrefix) tx /\
    (forall q, q <> atomicTxIDDBPrefix -> view w' q = view w q).
Proof.
  intros Hh Hi Hp. unfold writeTx, index_tx. destruct bonus; [|by apply indexTxByID_run].
  destruct (parsed_facts h tx Hp) as (Hid & _). unfold readM, mbind at 1, StM_bind at 1.
  rewrite Hid. cbn [mbind result_bind]. pose proof (GetByTxID_spec w (tx_id tx) Hh Hi) as HG.
  destruct (view w atomicTxIDDBPrefix !! tx_id tx) as [v|] eqn:Ev.
  - destruct HG as (tx' & height' & _ & _ & _ & _ & ->). exists w.
    rewrite bool_decide_eq_true_2 by eauto. split_and!; [done|by apply db_step_refl|done..].
  - rewrite HG. rewrite bool_decide_eq_true_2 by done. rewrite bool_decide_eq_false_2 by (by intros []).
    by apply indexTxByID_run.
Qed.

Lemma repo_ok_index w w' bonus height tx : repo_ok w -> parsed h tx -> is_u64 height ->
  view w' atomicTxIDDBPrefix = index_tx bonus height (view w atomicTxIDDBPrefix) tx ->
  view w' atomicHeightTxDBPrefix = view w atomicHeightTxDBPrefix -> repo_ok w'.
Proof.
  intros [H1 H2] Hp Hu Hv Hv'. split; [|by rewrite Hv'].
  rewrite Hv. unfold index_tx. destruct (_ && _); [done|]. intros id v.
  destruct (decide (id = tx_id tx)) as [->|Hne]; [|rewrite lookup_insert_ne by done; by apply H1].
  rewrite lookup_insert_eq. intros [= <-]. by exists tx, height.
Qed.

Lemma writeTxs_run height bonus txs w : healthy w -> repo_ok w -> Forall (parsed h) txs ->
  is_u64 height ->
  exists w', for_each (writeTx h (be_encode 8 height) bonus) txs w = (Ok tt, w') /\ db_step w w' /\
    repo_ok w' /\
    view w' atomicTxIDDBPrefix = fold_left (index_tx bonus height) txs (view w atomicTxIDDBPrefix) /\
    (forall q, q <> atomicTxIDDBPrefix -> view w' q = view w q).
Proof.
  intros Hh Hi Hp Hu. revert w Hh Hi. induction Hp as [|tx txs Hx _ IH]; intros w Hh Hi.
  - exists w. split_and!; [done|by apply db_step_refl|done..].
  - destruct (writeTx_run height bonus tx w) as (w1 & E1 & D1 & V1 & F1); [done..|].
    destruct (IH w1) as (w2 & E2 & D2 & I2 & V2 & F2); [apply D1|by eapply repo_ok_index; eauto|].
    exists w2. cbn [for_each fold_left]. rewrite (bindM_step _ _ _ _ _ E1). split_and!; try done.
    + by eapply db_step_trans.
    + by rewrite V2, V1.
    + intros q Hq. by rewrite F2, F1.
Qed.

Lemma index_height w height : is_u64 height ->
  db_Get w atomicRepoMetadataDBPrefix maxIndexedHeightKey = Ok (be_encode 8 height) ->
  GetIndexHeight w = Ok height /\ migrationStart w = Ok None.
Proof.
  intros Hu HG. unfold GetIndexHeight, migrationStart. rewrite HG. cbn [mbind result_bind].
  rewrite length_be_encode. cbn [Nat.eqb negb fail_if]. by rewrite be_decode_encode.
Qed.

Lemma indexTxsAtHeight_run height txs w : healthy w -> Forall (parsed h) txs -> txs <> [] ->
  fits_batch txs ->
  exists bs w', indexTxsAtHeight (be_encode 8 height) txs w = (Ok tt, w') /\ db_step w w' /\
    ExtractAtomicTxsBatch h bs = Ok txs /\
    view w' atomicHeightTxDBPrefix = <[be_encode 8 height := bs]> (view w atomicHeightTxDBPrefix) /\
    (forall q, q <> atomicHeightTxDBPrefix -> view w' q = view w q).
Proof.
  intros Hh Hp Hne Hf. destruct (batch_facts h txs) as (bs & Hm & HE); [done..|].
  destruct (Put_spec w atomicHeightTxDBPrefix (be_encode 8 height) bs) as (w' & EP & D & V & F); [done..|].
  exists bs, w'. unfold indexTxsAtHeight. rewrite lift_bind, Hm. by split_and!.
Qed.

(** The outcome of [write], in terms of the content of the database. *)
Lemma write_run height txs bonus w : healthy w -> repo_ok w -> Forall (parsed h) txs ->
  fits_batch txs -> is_u64 height ->
  exists w' sorted bs, write h height txs bonus w = (Ok tt, w') /\ sorted ≡ₚ txs /\
    db_step w w' /\ repo_ok w' /\
    view w' atomicTxIDDBPrefix = fold_left (index_tx bonus height) sorted (view w atomicTxIDDBPrefix) /\
    view w' atomicHeightTxDBPrefix =
      (if decide (txs = []) then view w atomicHeightTxDBPrefix
       else <[be_encode 8 height := bs]> (view w atomicHeightTxDBPrefix)) /\
    (txs <> [] -> ExtractAtomicTxsBatch h bs = Ok sorted) /\
    view w' atomicRepoMetadataDBPrefix =
      <[maxIndexedHeightKey := be_encode 8 height]> (view w atomicRepoMetadataDBPrefix) /\
    view w' atomicTrieMetaDBPrefix = view w atomicTrieMetaDBPrefix.
Proof.
  intros Hh Hi Hp Hf Hu. destruct (sortTxs_Ok h txs Hp) as (sorted & Hs & HP).
  unfold write. rewrite lift_bind, Hs.
  destruct (decide (txs = [])) as [->|Hne].
  { apply Permutation_nil_r in HP as ->. cbn [length Nat.ltb Nat.leb].
    destruct (Put_spec w atomicRepoMetadataDBPrefix maxIndexedHeightKey (be_encode 8 height))
      as (w' & EP & D & V & F); [done..|].
    exists w', [], []. assert (repo_ok w') by (unfold repo_ok; by rewrite !F).
    rewrite !F by done. split; [exact EP|]. do 3 (split; [done|]). split_and!; try done. by apply F. }
  assert (sorted <> []) as Hne' by (intros ->; by apply Permutation_nil_l in HP).
  assert (Forall (parsed h) sorted) as Hp' by by rewrite HP.
  destruct sorted as [|s0 srt]; [done|]. cbn [length Nat.ltb Nat.leb]. set (sorted := s0 :: srt) in *.
  destruct (writeTxs_run height bonus sorted w) as (w1 & E1 & D1 & I1 & V1 & F1); [done..|].
  destruct (indexTxsAtHeight_run height sorted w1) as (bs & w2 & E2 & D2 & HE & V2 & F2);
    [apply D1|done|done|by apply (fits_batch_Permutation txs)|].
  destruct (Put_spec w2 atomicRepoMetadataDBPrefix maxIndexedHeightKey (be_encode 8 height))
    as (w3 & E3 & D3 & V3 & F3); [apply D2|done|].
  exists w3, sorted, bs. split.
  { erewrite (bindM_step (_ ← _; _)); [exact E3|]. by rewrite (bindM_step _ _ _ _ _ E1). }
  split; [done|]. split; [by do 2 (eapply db_step_trans; [done|])|]. split.
  { split; [rewrite F3, F2 by done; apply I1|]. rewrite F3, V2, F1 by done. intros hb v.
    destruct (decide (hb = be_encode 8 height)) as [->|Hhb].
    - rewrite lookup_insert_eq. intros [= <-]. by exists height, sorted.
    - rewrite lookup_insert_ne by done. apply Hi. }
  split; [by rewrite F3, F2, V1 by done|]. split; [by rewrite F3, V2, F1 by done|].
  split; [done|]. split; [by rewrite V3, F2, F1 by done|by rewrite F3, F2, F1 by done].
Qed.

Lemma index_tx_other bonus height m tx id : id <> tx_id tx -> index_tx bonus height m tx !! id = m !! id.
Proof. intros Hne. unfold index_tx. destruct (_ && _); [done|]. by rewrite lookup_insert_ne. Qed.

Lemma index_txs_other bonus height txs m id : id ∉ tx_id <$> txs ->
  fold_left (index_tx bonus height) txs m !! id = m !! id.
Proof.
  revert m. induction txs as [|tx txs IH]; intros m; [done|]. rewrite fmap_cons, not_elem_of_cons.
  intros [Hne Hn]. cbn [fold_left]. rewrite IH by done. by apply index_tx_other.
Qed.

(** The entry of a transaction that is written: the existing one on a bonus block. *)
Lemma index_txs_lookup bonus height txs m tx : tx ∈ txs ->
  (forall tx', tx' ∈ txs -> tx_id tx' = tx_id tx -> tx' = tx) ->
  fold_left (index_tx bonus height) txs m !! tx_id tx =
  match m !! tx_id tx with
  | Some v => Some (if bonus then v else tx_entry height tx)
  | None => Some (tx_entry height tx)
  end.
Proof.
  revert m. induction txs as [|x txs IH]; intros m Hin Hinj; [by apply not_elem_of_nil in Hin|].
  cbn [fold_left]. set (m' := index_tx bonus height m x).
  destruct (decide (tx_id tx ∈ tx_id <$> txs)) as [Ht|Ht].
  - apply list_elem_of_fmap in Ht as (y & Hy & Ht).
    rewrite (Hinj y) in Ht; [|by apply list_elem_of_further|done].
    rewrite IH; [|done|intros tx' Hx'; by apply Hinj, list_elem_of_further].
    unfold m'. destruct (decide (tx_id x = tx_id tx)) as [E|E].
    + rewrite (Hinj x (list_elem_of_here _ _) E). unfold index_tx.
      destruct bonus; cbn [andb]; [|by rewrite lookup_insert_eq; destruct (m !! tx_id tx)].
      destruct (m !! tx_id tx) as [v|] eqn:Em.
      * rewrite bool_decide_eq_true_2 by eauto. by rewrite Em.
      * rewrite bool_decide_eq_false_2 by (by intros []). by rewrite lookup_insert_eq.
    + by rewrite index_tx_other.
  - apply elem_of_cons in Hin as [->|Hin]; [|by apply (list_elem_of_fmap_2 tx_id) in Hin].
    rewrite index_txs_other by done. unfold m', index_tx. destruct (m !! tx_id x) as [v|] eqn:Em.
    + destruct bonus; cbn [andb]; [|by rewrite lookup_insert_eq].
      by rewrite bool_decide_eq_true_2 by eauto.
    + rewrite bool_decide_eq_false_2 by (by intros []). rewrite andb_false_r. by rewrite lookup_insert_eq.
Qed.

Lemma be_encode_8_inj a b : is_u64 a -> is_u64 b -> be_encode 8 a = be_encode 8 b -> a = b.
Proof. intros Ha Hb He%(f_equal be_decode). by rewrite !be_decode_encode in He. Qed.

(** C31. Writing the transactions of an accepted block succeeds, keeps the repository
    well formed, and makes them readable: the block's height returns them all, in a fixed
    order, each ID returns its transaction with the height (on a bonus block a
    transaction that was already indexed keeps its entry), and nothing else changes. *)
Theorem write_read height txs bonus w :
  healthy w -> repo_ok w -> Forall (parsed h) txs -> fits_batch txs -> is_u64 height ->
  (forall tx tx', tx ∈ txs -> tx' ∈ txs -> tx_id tx = tx_id tx' -> tx = tx') ->
  exists w' sorted, write h height txs bonus w = (Ok tt, w') /\ healthy w' /\ repo_ok w' /\
    sorted ≡ₚ txs /\ GetIndexHeight w' = Ok height /\
    GetByHeight h height w' = (if decide (txs = []) then GetByHeight h height w else Ok sorted) /\
    (forall height', is_u64 height' -> height' <> height -> GetByHeight h height' w' = GetByHeight h height' w) /\
    (forall tx, tx ∈ txs -> GetByTxID h (tx_id tx) w' =
       match GetByTxID h (tx_id tx) w with
       | Ok r => Ok (if bonus then r else (tx, height))
       | _ => Ok (tx, height)
       end) /\
    (forall id, id ∉ tx_id <$> txs -> GetByTxID h id w' = GetByTxID h id w).
Proof.
  intros Hh Hi Hp Hf Hu Hinj.
  destruct (write_run height txs bonus w) as (w' & sorted & bs & EW & HP & D & I' & V1 & V2 & HE & V3 & _);
    [done..|]. pose proof D as (Hh' & _).
  exists w', sorted. do 4 (split; [done|]). split.
  { apply index_height; [done|]. by rewrite Get_spec, V3, lookup_insert_eq. }
  split.
  { unfold GetByHeight, getByHeightBytes. rewrite !Get_spec, V2 by done.
    destruct (decide (txs = [])); [done|]. rewrite lookup_insert_eq. by apply HE. }
  split.
  { intros height' Hu' Hne. unfold GetByHeight, getByHeightBytes. rewrite !Get_spec, V2 by done.
    destruct (decide (txs = [])); [done|]. rewrite lookup_insert_ne; [done|].
    by intros E%be_encode_8_inj. }
  split.
  - intros tx Hin. assert (parsed h tx) as Htx by by eapply list.Forall_forall in Hp.
    pose proof (GetByTxID_spec w (tx_id tx) Hh Hi) as HG.
    pose proof (index_txs_lookup bonus height sorted (view w atomicTxIDDBPrefix) tx) as HL.
    rewrite <- V1 in HL. rewrite HP in HL. specialize (HL Hin).
    assert (forall tx', tx' ∈ sorted -> tx_id tx' = tx_id tx -> tx' = tx) as Hs
      by (intros tx'; rewrite HP; intros ??; by apply Hinj).
    specialize (HL Hs). destruct (view w atomicTxIDDBPrefix !! tx_id tx) as [v|] eqn:Ev.
    + destruct HG as (t & ht & Ht & Hht & Eid & -> & ->). destruct bonus.
      * rewrite Eid in HL |- *. by apply GetByTxID_entry.
      * by apply GetByTxID_entry.
    + rewrite HG. by apply GetByTxID_entry.
  - intros id Hid. unfold GetByTxID. rewrite !Get_spec, V1 by done.
    rewrite index_txs_other; [done|]. by rewrite HP.
Qed.

(** ** The migration *)

(** The transactions indexed at a height. *)
Definition txs_at (w : W) (height : Z) : list Tx :=
  match GetByHeight h height w with Ok txs => txs | _ => [] end.

Definition append_tx (txs : list Tx) (tx : Tx) : list Tx :=
  if bool_decide (tx_id tx ∈ tx_id <$> txs) then txs else txs ++ [tx].

(** The transactions of a height among entries of the index by ID. *)
Definition migrated (height : Z) (es : list Entry) : list Tx :=
  flat_map (fun e : Entry =>
    if be_decode (take 8 (snd e)) =? height
    then match ExtractAtomicTx h (drop 12 (snd e)) with Ok tx => [tx] | _ => [] end
    else []) es.

Lemma getByHeight_ok w height : healthy w -> repo_ok w ->
  Forall (parsed h) (txs_at w height) /\
  (GetByHeight h height w = Ok (txs_at w height) \/
   GetByHeight h height w = Err ErrNotFound /\ txs_at w height = []).
Proof.
  intros Hh [_ Hi]. unfold txs_at, GetByHeight, getByHeightBytes. rewrite Get_spec by done.
  destruct (view w atomicHeightTxDBPrefix !! be_encode 8 height) as [v|] eqn:Ev; [|by auto].
  destruct (Hi _ _ Ev) as (height' & txs & _ & _ & Hp & HE). cbn [mbind result_bind].
  rewrite HE. auto.
Qed.

Lemma containsID_Ok (id : list byte) txs : Forall (parsed h) txs ->
  containsID id txs = Ok (bool_decide (id ∈ tx_id <$> txs)).
Proof.
  induction 1 as [|tx txs Hx _ IH]; [done|]. cbn [containsID].
  destruct (parsed_facts h tx Hx) as [-> _]. cbn [mbind result_bind]. rewrite IH, fmap_cons.
  destruct (decide (tx_id tx = id)) as [<-|Hne].
  - rewrite !bool_decide_eq_true_2; [done|by apply list_elem_of_here|done].
  - rewrite (bool_decide_eq_false_2 (tx_id tx = id)) by done. f_equal. apply bool_decide_ext.
    rewrite elem_of_cons. naive_solver.
Qed.

Lemma appendTx_run w height tx : healthy w -> repo_ok w -> parsed h tx -> is_u64 height ->
  fits_batch (append_tx (txs_at w height) tx) ->
  exists w', appendTxToHeightIndex h (be_encode 8 height) tx w = (Ok tt, w') /\ db_step w w' /\
    repo_ok w' /\ txs_at w' height = append_tx (txs_at w height) tx /\
    (forall height', is_u64 height' -> height' <> height -> txs_at w' height' = txs_at w height') /\
    (forall q, q <> atomicHeightTxDBPrefix -> view w' q = view w q).
Proof.
  intros Hh Hi Hp Hu Hf. destruct (getByHeight_ok w height Hh Hi) as [Hps HG].
  unfold appendTxToHeightIndex. unfold readM, mbind at 1, StM_bind at 1.
  assert (match getByHeightBytes h (be_encode 8 height) w with
          | Err e => if bool_decide (e = ErrNotFound) then Ok [] else Err e
          | r => r end = Ok (txs_at w height)) as ->.
  { unfold GetByHeight in HG. destruct HG as [->|[-> ->]]; done. }
  destruct (parsed_facts h tx Hp) as [Hid _]. rewrite lift_bind, Hid, lift_bind, containsID_Ok by done.
  unfold append_tx in *. case_bool_decide as Hin.
  { exists w. split; [done|]. split; [by apply db_step_refl|]. done. }
  assert (Forall (parsed h) (txs_at w height ++ [tx])) as Hps'
    by (apply list.Forall_app; split; [done|by apply list.Forall_singleton]).
  destruct (indexTxsAtHeight_run height (txs_at w height ++ [tx]) w) as (bs & w' & E & D & HE & V & F);
    [done|done|by destruct (txs_at w height)|done|]. pose proof D as [Hh' _].
  exists w'. split; [done|]. split; [done|]. split.
  { split; [rewrite F by done; apply Hi|]. rewrite V. intros hb v.
    destruct (decide (hb = be_encode 8 height)) as [->|Hhb].
    - rewrite lookup_insert_eq. intros [= <-]. by exists height, (txs_at w height ++ [tx]).
    - rewrite lookup_insert_ne by done. apply Hi. }
  split; [|split; [|done]].
  - unfold txs_at at 1, GetByHeight, getByHeightBytes. rewrite Get_spec, V, lookup_insert_eq by done.
    cbn [mbind result_bind]. by rewrite HE.
  - intros height' Hu' Hne. unfold txs_at, GetByHeight, getByHeightBytes. rewrite !Get_spec, V by done.
    rewrite lookup_insert_ne; [done|]. by intros E'%be_encode_8_inj.
Qed.

Lemma append_tx_prefix txs tx : exists k, append_tx txs tx = txs ++ k.
Proof. unfold append_tx. case_bool_decide; [exists []; by rewrite app_nil_r|by exists [tx]]. Qed.

Lemma append_txs_prefix l txs : exists k, fold_left append_tx l txs = txs ++ k.
Proof.
  revert txs. induction l as [|tx l IH]; intros txs; [exists []; by rewrite app_nil_r|].
  cbn [fold_left]. destruct (append_tx_prefix txs tx) as [k ->], (IH (txs ++ k)) as [k' ->].
  exists (k ++ k'). by rewrite app_assoc.
Qed.

Definition entry_ok (e : Entry) : Prop :=
  exists tx height, parsed h tx /\ is_u64 height /\ snd e = tx_entry height tx.

Lemma tx_entry_parts height tx : is_u64 height ->
  length (tx_entry height tx) = (12 + length (tx_bytes tx))%nat /\
  take 8 (tx_entry height tx) = be_encode 8 height /\ drop 12 (tx_entry height tx) = tx_bytes tx.
Proof.
  intros Hu. unfold tx_entry. split_and!.
  - rewrite !length_app, !length_be_encode. lia.
  - by rewrite take_app_length' by (by rewrite length_be_encode).
  - rewrite app_assoc, drop_app_length'; [done|]. by rewrite length_app, !length_be_encode.
Qed.

Lemma tx_entry_inj height tx height' tx' : is_u64 height -> is_u64 height' ->
  parsed h tx -> parsed h tx' -> tx_entry height tx = tx_entry height' tx' ->
  height = height' /\ tx = tx'.
Proof.
  intros Hu Hu' Hp Hp' He.
  destruct (tx_entry_parts height tx Hu) as (_ & H8 & H12), (tx_entry_parts height' tx' Hu') as (_ & H8' & H12').
  rewrite He, H8' in H8. rewrite He, H12' in H12. split; [by apply be_encode_8_inj|].
  destruct (parsed_facts h tx Hp) as (_ & _ & _ & HE & _), (parsed_facts h tx' Hp') as (_ & _ & _ & HE' & _).
  congruence.
Qed.

(** The periodic commit of the loop leaves both indexes alone. *)
Lemma reindex_commit es pending id w1 : healthy w1 ->
  exists w2 p, (if repoCommitSizeCap <? pending then
      _ ← db_Put atomicRepoMetadataDBPrefix maxIndexedHeightKey id; _ ← db_Commit; reindex h es 0
    else reindex h es pending) w1 = reindex h es p w2 /\ db_step w1 w2 /\
    view w2 atomicTxIDDBPrefix = view w1 atomicTxIDDBPrefix /\
    view w2 atomicHeightTxDBPrefix = view w1 atomicHeightTxDBPrefix.
Proof.
  intros Hh. case_test; [|exists w1, pending; split; [done|by split; [apply db_step_refl|]]].
  destruct (Put_spec w1 atomicRepoMetadataDBPrefix maxIndexedHeightKey id)
    as (wa & Ea & Da & Va & Fa); [done|done|].
  destruct (Commit_spec wa) as (wb & Eb & Db & Vb); [apply Da|]. exists wb, 0.
  rewrite (bindM_step _ _ _ _ _ Ea), (bindM_step _ _ _ _ _ Eb). split; [done|].
  split; [by eapply db_step_trans|]. rewrite !(proj1 (Vb _)), !Fa by done. done.
Qed.

Lemma reindex_run es pending w : healthy w -> repo_ok w -> Forall entry_ok es ->
  (forall height, is_u64 height ->
     fits_batch (fold_left append_tx (migrated height es) (txs_at w height))) ->
  exists w', reindex h es pending w = (Ok tt, w') /\ db_step w w' /\ repo_ok w' /\
    (forall height, is_u64 height ->
       txs_at w' height = fold_left append_tx (migrated height es) (txs_at w height)) /\
    view w' atomicTxIDDBPrefix = view w atomicTxIDDBPrefix.
Proof.
  intros Hh Hi Hes. revert w pending Hh Hi.
  induction Hes as [|[k v] es (tx & height & Hp & Hu & Hv) _ IH]; intros w pending Hh Hi Hf.
  { exists w. split; [done|]. by split; [apply db_step_refl|]. }
  cbn [snd] in Hv. subst v. destruct (tx_entry_parts height tx Hu) as (Hl & H8 & H12).
  destruct (parsed_facts h tx Hp) as (Hid & _ & _ & HE & _).
  assert (forall height', is_u64 height' -> migrated height' ((k, tx_entry height tx) :: es) =
    if decide (height' = height) then tx :: migrated height' es else migrated height' es) as Hm.
  { intros height' Hu'. unfold migrated at 1. cbn [flat_map snd]. rewrite H8, H12, HE.
    rewrite be_decode_encode by done. case_test; case_decide; try done; congruence. }
  destruct (appendTx_run w height tx) as (w1 & E1 & D1 & I1 & T1 & T1' & F1); [done..| |].
  { specialize (Hf height Hu). rewrite Hm, decide_True in Hf by done. cbn [fold_left] in Hf.
    destruct (append_txs_prefix (migrated height es) (append_tx (txs_at w height) tx)) as [k' Hk'].
    rewrite Hk' in Hf. by apply fits_batch_prefix in Hf. }
  assert (forall height', is_u64 height' ->
    fold_left append_tx (migrated height' es) (txs_at w1 height') =
    fold_left append_tx (migrated height' ((k, tx_entry height tx) :: es)) (txs_at w height')) as Hstep.
  { intros height' Hu'. rewrite Hm by done. case_decide as Hd; [subst height'; by rewrite T1|].
    by rewrite T1'. }
  cbn [reindex]. destruct (Nat.ltb_spec (length (tx_entry height tx)) 8); [lia|].
  destruct (Nat.ltb_spec (length (tx_entry height tx)) (8 + 4)); [lia|].
  rewrite H8. change (8 + 4)%nat with 12%nat. rewrite H12, lift_bind, HE.
  rewrite (bindM_step _ _ _ _ _ E1), lift_bind, Hid.
  destruct (reindex_commit es (pending + Z.of_nat (length (tx_bytes tx))) (tx_id tx) w1)
    as (w2 & p & -> & D2 & V2 & V2'); [apply D1|].
  assert (forall height', txs_at w2 height' = txs_at w1 height') as T2.
  { intros height'. unfold txs_at, GetByHeight, getByHeightBytes.
    by rewrite !Get_spec, V2' by (apply D1 || apply D2). }
  destruct (IH w2 p) as (w' & E' & D' & I' & T' & V'); [apply D2| | |].
  - unfold repo_ok. by rewrite V2, V2'.
  - intros height' Hu'. rewrite T2, Hstep by done. by apply Hf.
  - exists w'. split; [done|]. split; [by do 2 (eapply db_step_trans; [done|])|]. split; [done|]. split.
    + intros height' Hu'. by rewrite T', T2, Hstep.
    + by rewrite V', V2, F1.
Qed.

Lemma append_tx_NoDup txs tx : NoDup (tx_id <$> txs) -> NoDup (tx_id <$> append_tx txs tx).
Proof.
  intros Hn. unfold append_tx. case_bool_decide as Hin; [done|].
  rewrite fmap_app. apply list.NoDup_app. split_and!; [done| |apply NoDup_singleton].
  intros x Hx Hx'%list_elem_of_singleton. by subst x.
Qed.

Lemma append_txs_spec l txs :
  (forall tx, tx ∈ fold_left append_tx l txs -> tx ∈ txs \/ tx ∈ l) /\
  (forall tx, tx ∈ l -> tx_id tx ∈ tx_id <$> fold_left append_tx l txs) /\
  (NoDup (tx_id <$> txs) -> NoDup (tx_id <$> fold_left append_tx l txs)).
Proof.
  revert txs. induction l as [|x l IH]; intros txs; cbn [fold_left].
  - split_and!; [by left|by intros tx Hx%not_elem_of_nil|done].
  - destruct (IH (append_tx txs x)) as (I1 & I2 & I3). split_and!.
    + intros tx Htx. apply I1 in Htx as [Htx|Htx]; [|by right; apply list_elem_of_further].
      unfold append_tx in Htx. case_bool_decide; [by left|].
      apply elem_of_app in Htx as [Htx|Htx%list_elem_of_singleton]; [by left|].
      subst. right. apply list_elem_of_here.
    + intros tx [->|Htx]%elem_of_cons; [|by apply I2].
      destruct (append_txs_prefix l (append_tx txs x)) as [k ->]. rewrite fmap_app. apply elem_of_app. left.
      unfold append_tx. case_bool_decide; [done|]. rewrite fmap_app. apply elem_of_app. right.
      by apply list_elem_of_singleton.
    + intros Hn. by apply I3, append_tx_NoDup.
Qed.

Lemma elem_of_migrated height es tx : Forall entry_ok es -> is_u64 height ->
  tx ∈ migrated height es <-> parsed h tx /\ exists id, (id, tx_entry height tx) ∈ es.
Proof.
  intros Hes Hu. induction Hes as [|[k v] es (tx' & height' & Hp & Hu' & Hv) _ IH].
  { split; [by intros Hx%not_elem_of_nil|by intros (_ & ? & Hx%not_elem_of_nil)]. }
  cbn [snd] in Hv. subst v. destruct (tx_entry_parts height' tx' Hu') as (_ & H8 & H12).
  destruct (parsed_facts h tx' Hp) as (_ & _ & _ & HE & _).
  unfold migrated. cbn [flat_map snd]. rewrite elem_of_app. fold (migrated height es).
  rewrite IH, H8, H12, HE, be_decode_encode by done.
  split.
  - intros [Hx|(Ht & id & Hin)]; [|by split; [|exists id; apply list_elem_of_further]].
    destruct (Z.eqb_spec height' height) as [->|]; [|by apply not_elem_of_nil in Hx].
    apply list_elem_of_singleton in Hx as ->. split; [done|]. exists k. apply list_elem_of_here.
  - intros (Ht & id & [Hin|Hin]%elem_of_cons); [left|right; eauto].
    apply (f_equal snd) in Hin. apply tx_entry_inj in Hin as [-> ->]; [|done..].
    rewrite Z.eqb_refl. by apply list_elem_of_singleton.
Qed.

(** C32. The migration to the height index, from scratch or resumed at a transaction ID, ends
    with every transaction from there on indexed at its height, once, with nothing made
    up and nothing already indexed lost; the result is on disk and marked complete at the
    last accepted height, so that a second start does nothing. *)
Theorem migration_completes last w start :
  healthy w -> repo_ok w -> migrationStart w = Ok (Some start) -> is_u64 last ->
  (forall es height, entries_from start (view w atomicTxIDDBPrefix) es -> is_u64 height ->
     fits_batch (fold_left append_tx (migrated height es) (txs_at w height))) ->
  exists w', initializeHeightIndex h last w = (Ok tt, w') /\ healthy w' /\ repo_ok w' /\
    (forall p, durable w' p = view w' p) /\ GetIndexHeight w' = Ok last /\
    migrationStart w' = Ok None /\
    (forall height, is_u64 height ->
       (exists k, txs_at w' height = txs_at w height ++ k) /\
       (NoDup (tx_id <$> txs_at w height) -> NoDup (tx_id <$> txs_at w' height)) /\
       (forall (id : list byte) tx, GetByTxID h id w = Ok (tx, height) -> bytes.Compare start id <= 0 ->
          id ∈ tx_id <$> txs_at w' height) /\
       (forall tx, tx ∈ txs_at w' height ->
          tx ∈ txs_at w height \/ GetByTxID h (tx_id tx) w = Ok (tx, height))).
Proof.
  intros Hh Hi Hst Hu Hf.
  destruct (Iterator_spec w atomicTxIDDBPrefix start Hh) as (es & EI & Hes).
  assert (Forall entry_ok es) as Hok.
  { apply list.Forall_forall. intros [k v] Hin. apply Hes in Hin as [Hin _].
    apply Hi in Hin as (tx & height & ? & ? & _ & ->). by exists tx, height. }
  destruct (reindex_run es 0 w) as (w1 & E1 & D1 & I1 & T1 & V1); [done..|by intros; apply Hf|].
  destruct (Put_spec w1 atomicRepoMetadataDBPrefix maxIndexedHeightKey (be_encode 8 last))
    as (w2 & E2 & D2 & V2 & F2); [apply D1|done|].
  destruct (Commit_spec w2) as (w' & E3 & D3 & V3); [apply D2|]. pose proof D3 as [Hh' _].
  assert (db_Get w' atomicRepoMetadataDBPrefix maxIndexedHeightKey = Ok (be_encode 8 last)) as HG.
  { by rewrite Get_spec, (proj1 (V3 _)), V2, lookup_insert_eq. }
  assert (forall height, txs_at w' height = txs_at w1 height) as T'.
  { intros height. unfold txs_at, GetByHeight, getByHeightBytes.
    rewrite !Get_spec by (done || apply D1). by rewrite (proj1 (V3 _)), F2. }
  exists w'. split.
  { unfold initializeHeightIndex. rewrite (bindM_step _ _ w (Some start) w) by (unfold readM; by rewrite Hst).
    rewrite (bindM_step _ _ w (es, None) w) by (unfold readM; by rewrite EI).
    cbn [fst snd]. rewrite (bindM_step _ _ _ _ _ E1). by rewrite (bindM_step _ _ w1 tt w1), (bindM_step _ _ _ _ _ E2). }
  split; [done|]. split.
  { unfold repo_ok. rewrite !(proj1 (V3 _)), !F2 by done. apply I1. }
  split; [intros p; by rewrite (proj1 (V3 p)), (proj2 (V3 p))|].
  split; [by apply index_height|]. split; [by apply (index_height w' last)|].
  intros height Hu'. rewrite T', T1 by done.
  destruct (append_txs_spec (migrated height es) (txs_at w height)) as (A1 & A2 & A3).
  split; [apply append_txs_prefix|]. split; [done|]. split.
  - intros id tx HGx Hge. pose proof (GetByTxID_spec w id Hh Hi) as HS.
    destruct (view w atomicTxIDDBPrefix !! id) as [v|] eqn:Ev; [|congruence].
    destruct HS as (tx' & ht & Hp & _ & -> & -> & HG'). rewrite HG' in HGx. injection HGx as -> ->.
    apply A2, elem_of_migrated; [done..|]. split; [done|]. exists (tx_id tx). by apply Hes.
  - intros tx [Htx|Htx]%A1; [by left|right]. apply elem_of_migrated in Htx as (Hp & id & Hin); [|done..].
    apply Hes in Hin as [Hin _]. pose proof (proj1 Hi _ _ Hin) as (tx' & ht & Hp' & Hu2 & -> & He).
    apply tx_entry_inj in He as [-> ->]; [|done..].
    by apply GetByTxID_entry.
Qed.

End Spec.

End repo.
