(* ===== verification/AtomicTrie.v ===== *)
(** * The atomic trie

    [plugin/evm/atomic/state/atomic_trie.go] and [atomic_trie_iterator.go]: the trie of
    shared-memory operations by height and peer chain, its commits at fixed heights, and
    the iterator over it. *)

From Stdlib Require Import Sorting.Sorted.
From S2P Require Import Prelude GoStd Packer AtomicTypes AtomicCodec AtomicFormat Store AtomicRepo.
Import atomic codec wire repo.

(** The order of [range] over a map of requests. *)
Class OpsRange := { range_ops : gmap ID Requests -> list (ID * Requests) }.
Class OpsRangeSpec {R : OpsRange} : Prop := { range_ops_to_list m : range_ops m ≡ₚ map_to_list m }.

Module trie.

Definition TrieKeyLength : nat := 8 + 32.
(** [64 * constants.MiB] *)
Definition atomicTrieMemoryCap : Z := 64 * 1024 * 1024.
Definition lastCommittedKey : list byte := bytes_of "atomicTrieLastCommittedBlock".

(** The struct without its database handles. *)
Record AtomicTrie := mkAtomicTrie {
  commitInterval : Z;
  lastCommittedRoot : Hash;
  lastCommittedHeight : Z;
  lastAcceptedRoot : Hash;
  memoryCap : Z
}.

(** [blockNumber % 0] panics. *)
Definition nearestCommitHeight (blockNumber commitInterval : Z) : result Z :=
  if commitInterval =? 0 then Panic else Ok (blockNumber - blockNumber mod commitInterval).

Section Trie.
Context {W Batch T N : Type} {DB : VersionDB W Batch} {TL : TrieLib W T N} {PL : PackerLib} {RO : OpsRange}.

Definition lastCommittedRootIfExists (w : W) : result (Hash * Z) :=
  match db_Get w atomicTrieMetaDBPrefix lastCommittedKey with
  | Err e => if bool_decide (e = ErrNotFound) then Ok (Hash_zero, 0) else Err e
  | Panic => Panic
  | Ok lastCommittedHeightBytes =>
      height ← wrap_err "expected value at lastCommittedKey to be a valid uint64"
                 (ParseUInt64 lastCommittedHeightBytes);
      hash ← wrap_err "committed hash does not exist for committed height"
               (db_Get w atomicTrieMetaDBPrefix lastCommittedHeightBytes);
      Ok (BytesToHash hash, height)
  end.

Definition getRoot (height : Z) (w : W) : result Hash :=
  if height =? 0 then Ok EmptyRootHash else
  match db_Get w atomicTrieMetaDBPrefix (PackUInt64 height) with
  | Err e => if bool_decide (e = ErrNotFound) then Ok Hash_zero else Err e
  | Panic => Panic
  | Ok hash => Ok (BytesToHash hash)
  end.

Definition newAtomicTrie (lastAcceptedHeight commitHeightInterval : Z) (w : W) : result AtomicTrie :=
  r ← lastCommittedRootIfExists w;
  let '(root, height) := r in
  let root := if bool_decide (root = Hash_zero) then EmptyRootHash else root in
  r ← (if lastAcceptedHeight <? height then
         height ← nearestCommitHeight lastAcceptedHeight commitHeightInterval;
         root ← getRoot height w;
         Ok (root, height)
       else Ok (root, height));
  Ok (mkAtomicTrie commitHeightInterval (fst r) (snd r) (fst r) atomicTrieMemoryCap).

Definition OpenTrie (root : Hash) (w : W) : result T := trie_New root w.

(** ** Operations, on the struct and the store *)

Abbreviation TrieM := (StM (AtomicTrie * W)).

Definition setCommitted (root : Hash) (height : Z) : TrieM unit := fun '(a, w) =>
  (Ok tt, (mkAtomicTrie (commitInterval a) root height (lastAcceptedRoot a) (memoryCap a), w)).

Definition updateLastCommitted (root : Hash) (height : Z) : TrieM unit :=
  let heightBytes := PackUInt64 height in
  _ ← on_snd (db_Put atomicTrieMetaDBPrefix heightBytes root);
  _ ← on_snd (db_Put atomicTrieMetaDBPrefix lastCommittedKey heightBytes);
  setCommitted root height.

Definition Commit (height : Z) (root : Hash) : TrieM unit :=
  _ ← on_snd (triedb_Commit root);
  updateLastCommitted root height.

Definition LastCommitted (a : AtomicTrie) : Hash * Z := (lastCommittedRoot a, lastCommittedHeight a).

Definition Root (height : Z) (st : AtomicTrie * W) : result Hash := getRoot height (snd st).

(** The key is packed into a buffer of its final size. *)
Definition trieKey (height : Z) (blockchainID : ID) : list byte :=
  Bytes (snd ((_ ← PackLong height; PackFixedBytes blockchainID)
              (mkPacker (replicate TrieKeyLength Byte.x00) 0 0 None))).

Definition UpdateTrie (height : Z) (atomicOps : gmap ID Requests) : StM T unit :=
  for_each (fun '(blockchainID, requests) =>
    valueBytes ← lift (Codec_Marshal CodecVersion (V_Requests requests));
    trie_Update (trieKey height blockchainID) valueBytes) (range_ops atomicOps).

(** The reference, and the cap on the memory the trie database uses. *)
Definition referenceAndCap (root : Hash) : TrieM unit := fun '(a, w) =>
  let w := triedb_Reference root w in
  if triedb_Size w <=? memoryCap a then (Ok tt, (a, w)) else
  wrapM "failed to cap atomic trie for root" (on_snd (triedb_Cap (memoryCap a - IdealBatchSize))) (a, w).

Definition InsertTrie (nodes : option N) (root : Hash) : TrieM unit :=
  _ ← match nodes with
      | Some nodes => on_snd (triedb_Update root nodes)
      | None => mret tt
      end;
  referenceAndCap root.

(** [for nextCommitHeight := ...; nextCommitHeight < height; nextCommitHeight += interval],
    whether a commit was made. *)
Fixpoint commitSkipped (fuel : nat) (height nextCommitHeight : Z) (hasCommitted : bool)
    : TrieM bool :=
  if nextCommitHeight <? height then
    match fuel with
    | O => lift (Err out_of_fuel)
    | S fuel' => fun st =>
        (_ ← Commit nextCommitHeight (lastAcceptedRoot (fst st));
         commitSkipped fuel' height ((nextCommitHeight +u commitInterval (fst st))%word) true) st
    end
  else mret hasCommitted.

(** The reference to the previous root is released. *)
Definition setAccepted (root : Hash) : TrieM unit := fun '(a, w) =>
  (Ok tt,
   (mkAtomicTrie (commitInterval a) (lastCommittedRoot a) (lastCommittedHeight a) root (memoryCap a),
    triedb_Dereference (lastAcceptedRoot a) w)).

(** One iteration per multiple of the interval below [height]. *)
Definition AcceptTrie (height : Z) (root : Hash) : TrieM bool := fun st =>
  let interval := commitInterval (fst st) in
  (hasCommitted ← commitSkipped (S (Z.to_nat (height / interval))) height
                    ((lastCommittedHeight (fst st) +u interval)%word) false;
   hasCommitted ← (if interval =? 0 then lift Panic
                   else if height mod interval =? 0 then _ ← Commit height root; mret true
                   else mret hasCommitted);
   _ ← setAccepted root;
   mret hasCommitted) st.

Definition RejectTrie (root : Hash) : TrieM unit := fun '(a, w) =>
  (Ok tt, (a, triedb_Dereference root w)).

(** ** [atomicTrieIterator] *)

(** [it_rest]: what the underlying iterator has still to yield; [it_Err]: its error at the end. *)
Record atomicTrieIterator := mkIterator {
  it_rest : list Entry;
  it_Err : option error;
  it_key : list byte;
  it_atomicOps : option Requests;
  it_blockchainID : ID;
  it_blockNumber : Z;
  it_err : option error
}.

Definition NewAtomicTrieIterator (l : list Entry) (e : option error) : atomicTrieIterator :=
  mkIterator l e [] None ID_Empty 0 None.

Definition Iterator (root : Hash) (cursor : list byte) (w : W) : result atomicTrieIterator :=
  t ← trie_New root w;
  iter ← trie_Iterator t cursor;
  Ok (NewAtomicTrieIterator (fst iter) (snd iter)).

Definition resetFields (rest : list Entry) (Err : option error) (err : option error) : atomicTrieIterator :=
  mkIterator rest Err [] None ID_Empty 0 err.

Definition it_Next (it : atomicTrieIterator) : bool * atomicTrieIterator :=
  match it_rest it with
  | [] => (false, resetFields [] (it_Err it) (it_Err it))
  | (key, value) :: rest =>
      if negb (length key =? TrieKeyLength)%nat
      then (false, resetFields rest (it_Err it)
                     (Some (errors_New "expected atomic trie key length"))) else
      let blockNumber := be_decode (take 8 key) in
      match ToID (drop 8 key) with
      | Err e => (false, resetFields rest (it_Err it) (Some e))
      | Panic => (false, resetFields rest (it_Err it) None)
      | Ok blockchainID =>
          match Codec_Unmarshal value D_Requests with
          | Ok (_, V_Requests requests) =>
              (true, mkIterator rest (it_Err it) key (Some requests) blockchainID blockNumber (it_err it))
          | Err e => (false, resetFields rest (it_Err it) (Some e))
          | _ => (false, resetFields rest (it_Err it) None)
          end
      end
  end.

End Trie.

Section Spec.
Context {W Batch T N St : Type} {DB : VersionDB W Batch} {MEM : SharedMemory W Batch}
  {TL : TrieLib W T N} {SM : StoreModel W T St} {SS : StoreSpec atomicTrieDBPrefix}.
Context {PL : PackerLib} {PS : PackerSpec} {RO : OpsRange} {ROS : OpsRangeSpec}.

(** ** Committed roots *)

Lemma getRoot_view k w : healthy w ->
  getRoot k w = Ok (if k =? 0 then EmptyRootHash else
    match view w atomicTrieMetaDBPrefix !! be_encode 8 k with
    | Some hash => BytesToHash hash | None => Hash_zero end).
Proof.
  intros Hh. unfold getRoot. destruct (k =? 0); [done|]. rewrite PackUInt64_eq, Get_spec by done.
  by destruct (view w atomicTrieMetaDBPrefix !! be_encode 8 k).
Qed.

Lemma Commit_run a w height root : healthy w -> is_Some (opens w root) -> length root = 32%nat ->
  is_u64 height ->
  exists w', Commit height root (a, w) =
      (Ok tt, (mkAtomicTrie (commitInterval a) root height (lastAcceptedRoot a) (memoryCap a), w')) /\
    db_step w w' /\ (forall n, held w' root n) /\
    (forall p, p <> atomicTrieDBPrefix -> p <> atomicTrieMetaDBPrefix -> view w' p = view w p) /\
    (forall k, k <> 0 -> is_u64 k ->
       getRoot k w' = if decide (k = height) then Ok root else getRoot k w).
Proof.
  intros Hh Ho Hl Hu. unfold Commit, updateLastCommitted. rewrite PackUInt64_eq.
  destruct (triedb_Commit_spec w root Hh Ho) as (w1 & E1 & D1 & HH & F1).
  destruct (Put_spec w1 atomicTrieMetaDBPrefix (be_encode 8 height) root) as (w2 & E2 & D2 & V2 & F2);
    [apply D1|done|].
  destruct (Put_spec w2 atomicTrieMetaDBPrefix lastCommittedKey (be_encode 8 height))
    as (w3 & E3 & D3 & V3 & F3); [apply D2|done|].
  exists w3. split.
  { unfold on_snd, mbind, StM_bind. cbn [fst snd]. rewrite E1. cbn [fst snd]. rewrite E2.
    cbn [fst snd]. by rewrite E3. }
  split; [by do 2 (eapply db_step_trans; [done|])|]. split.
  { intros n. by apply D3, D2. }
  split; [intros p Hp Hp'; by rewrite F3, F2, F1|].
  intros k Hk0 Hk. rewrite !getRoot_view by (done || apply D3). rewrite V3, V2, F1 by done.
  destruct (Z.eqb_spec k 0); [done|]. rewrite lookup_insert_ne.
  - case_decide as Hd; [subst k; rewrite lookup_insert_eq; by rewrite BytesToHash_id|].
    rewrite lookup_insert_ne; [done|]. intros He. apply Hd. symmetry. by apply be_encode_8_inj.
  - intros He%(f_equal length). by rewrite length_be_encode in He.
Qed.

(** The fields [Commit] changes. *)
Definition with_committed (a : AtomicTrie) (root : Hash) (height : Z) : AtomicTrie :=
  mkAtomicTrie (commitInterval a) root height (lastAcceptedRoot a) (memoryCap a).

(** The loop commits the previous root at every multiple of the interval it skips. *)
Lemma commitSkipped_run fuel height next hc a w :
  healthy w -> is_Some (opens w (lastAcceptedRoot a)) -> length (lastAcceptedRoot a) = 32%nat ->
  0 < commitInterval a -> 0 < next -> height + commitInterval a < 2 ^ 64 ->
  height <= next + commitInterval a * Z.of_nat fuel ->
  exists w', commitSkipped fuel height next hc (a, w) =
      (Ok (hc || (next <? height)),
       (if next <? height
        then with_committed a (lastAcceptedRoot a)
               (next + commitInterval a * ((height - 1 - next) / commitInterval a))
        else a, w')) /\
    db_step w w' /\
    (forall p, p <> atomicTrieDBPrefix -> p <> atomicTrieMetaDBPrefix -> view w' p = view w p) /\
    (forall k, k <> 0 -> is_u64 k -> getRoot k w' =
       if decide (next <= k < height /\ (k - next) mod commitInterval a = 0)
       then Ok (lastAcceptedRoot a) else getRoot k w).
Proof.
  set (ci := commitInterval a).
  revert next hc a w ci. induction fuel as [|fuel IH]; intros next hc a w ci Hh Ho Hl Hci Hn Hb Hf;
    cbn [commitSkipped]; destruct (Z.ltb_spec next height) as [Hlt|Hge].
  1: lia. 1, 3: exists w; split; [by rewrite orb_false_r|]; split; [by apply db_step_refl|];
    split; [done|]; intros k _ _; rewrite decide_False by (intros [? _]; lia); done.
  cbn [fst]. fold ci.
  destruct (Commit_run a w next (lastAcceptedRoot a)) as (w1 & E1 & D1 & _ & F1 & R1);
    [done..|unfold is_u64; lia|].
  rewrite (bindM_step _ _ _ _ _ E1). rewrite Z.mod_small by lia.
  set (a1 := mkAtomicTrie _ _ _ _ _).
  destruct (IH (next + ci) true a1 w1) as (w' & E' & D' & F' & R'); [apply D1| |done|done|lia|done|cbn; lia|].
  { cbn. destruct Ho as [m Ho]. exists m. by apply D1. }
  cbn [commitInterval lastAcceptedRoot a1] in E', R'. fold ci in E', R'.
  exists w'. split.
  { rewrite E'. f_equal; [f_equal; by rewrite orb_true_r|f_equal].
    destruct (Z.ltb_spec (next + ci) height) as [H2|H2]; unfold with_committed; cbn; f_equal.
    - replace (height - 1 - next) with (height - 1 - (next + ci) + 1 * ci) by lia.
      rewrite Z.div_add by lia. lia.
    - rewrite Z.div_small by lia. lia. }
  split; [by eapply db_step_trans|]. split; [intros p Hp Hp'; by rewrite F', F1|].
  intros k Hk0 Hk. rewrite R', R1 by done.
  replace (k - (next + ci)) with (k - next + (-1) * ci) by lia. rewrite Z.mod_add by lia.
  destruct (decide (k = next)) as [->|Hkn].
  - rewrite Z.sub_diag, Z.mod_0_l by lia. rewrite decide_False by (intros [? _]; lia). by rewrite decide_True by lia.
  - destruct (decide (next <= k < height /\ (k - next) mod ci = 0)) as [[Hr Hm]|Hno].
    + rewrite decide_True; [done|]. split; [|done].
      apply Z.mod_divide in Hm as [z Hz]; [|lia]. assert (0 < z) by nia. assert (ci <= z * ci) by nia. lia.
    + rewrite decide_False; [done|]. intros [Hr Hm]. apply Hno. split; [lia|done].
Qed.

Lemma next_multiple ci L height : 0 < ci -> L mod ci = 0 -> L <= height ->
  (if L + ci <? height then L + ci + ci * ((height - 1 - (L + ci)) / ci) else L) =
  (if height mod ci =? 0 then (if L <? height then height - ci else L) else height - height mod ci).
Proof.
  intros Hci HL Hle. apply Z.mod_divide in HL as [l ->]; [|lia].
  pose proof (Z.div_mod height ci ltac:(lia)) as Hd. pose proof (Z.mod_pos_bound height ci Hci) as Hm.
  set (q := height / ci) in *. set (r := height mod ci) in *.
  destruct (Z.eqb_spec r 0) as [Hr|Hr].
  - destruct (Z.ltb_spec (l * ci + ci) height) as [H1|H1].
    + destruct (Z.ltb_spec (l * ci) height); [|lia].
      replace (height - 1 - (l * ci + ci)) with (ci - 1 + (q - l - 2) * ci) by lia.
      rewrite Z.div_add, Z.div_small by lia. lia.
    + destruct (Z.ltb_spec (l * ci) height); [|lia]. assert (q = l + 1) as Hq by nia. rewrite Hq in Hd. lia.
  - destruct (Z.ltb_spec (l * ci + ci) height) as [H1|H1].
    + replace (height - 1 - (l * ci + ci)) with (r - 1 + (q - l - 1) * ci) by lia.
      rewrite Z.div_add, Z.div_small by lia. lia.
    + assert (q = l) as Hq by nia. rewrite Hq in Hd. lia.
Qed.

(** The trie after [AcceptTrie]. *)
Definition accepted (a : AtomicTrie) (height : Z) (root : Hash) : AtomicTrie :=
  let ci := commitInterval a in
  mkAtomicTrie ci
    (if height mod ci =? 0 then root
     else if lastCommittedHeight a + ci <? height then lastAcceptedRoot a else lastCommittedRoot a)
    (height - height mod ci) root (memoryCap a).

(** A trie whose commits are in step: the last one at a multiple of the interval. *)
Definition in_step (a : AtomicTrie) (w : W) (height : Z) : Prop :=
  0 < commitInterval a /\ height + commitInterval a < 2 ^ 64 /\
  0 <= lastCommittedHeight a <= height /\ lastCommittedHeight a mod commitInterval a = 0 /\
  is_Some (opens w (lastAcceptedRoot a)) /\ length (lastAcceptedRoot a) = 32%nat.

(** The commit at a multiple of the interval. *)
Lemma commitLast_run a w ci height root hc :
  healthy w -> is_Some (opens w root) -> length root = 32%nat -> is_u64 height -> 0 < ci ->
  exists w', (if ci =? 0 then lift Panic
              else if height mod ci =? 0 then _ ← Commit height root; mret true
              else mret hc) (a, w) =
      (Ok (hc || (height mod ci =? 0)),
       (if height mod ci =? 0 then with_committed a root height else a, w')) /\ db_step w w' /\
    (forall p, p <> atomicTrieDBPrefix -> p <> atomicTrieMetaDBPrefix -> view w' p = view w p) /\
    (forall k, k <> 0 -> is_u64 k -> k mod ci = 0 ->
       getRoot k w' = if decide (k = height) then Ok root else getRoot k w).
Proof.
  intros Hh Ho Hl Hu Hci. destruct (Z.eqb_spec ci 0); [lia|].
  destruct (Z.eqb_spec (height mod ci) 0) as [Hm|Hm].
  - destruct (Commit_run a w height root) as (w' & E & D & _ & F & R); [done..|].
    exists w'. rewrite (bindM_step _ _ _ _ _ E), orb_true_r. split; [done|]. split; [done|].
    split; [done|]. intros k Hk Hku _. by apply R.
  - exists w. rewrite orb_false_r. split; [done|]. split; [by apply db_step_refl|]. split; [done|].
    intros k Hk Hku Hkm. rewrite decide_False; [done|congruence].
Qed.

(** The multiples of the interval the loop goes through. *)
Lemma skipped_multiples ci L height k : 0 < ci -> L mod ci = 0 -> k mod ci = 0 ->
  (L + ci <= k < height /\ (k - (L + ci)) mod ci = 0) <-> L < k < height.
Proof.
  intros Hci HL Hk. split; [intros [? _]; lia|]. intros [H1 H2]. split.
  - apply Z.mod_divide in HL as [l ->]; [|lia]. apply Z.mod_divide in Hk as [z ->]; [|lia].
    split; [|done]. assert (l < z) by nia. nia.
  - by rewrite Zminus_mod, Hk, Zplus_mod, HL, Z_mod_same_full.
Qed.

Lemma AcceptTrie_run a w height root :
  healthy w -> in_step a w height -> is_Some (opens w root) -> length root = 32%nat ->
  exists w', AcceptTrie height root (a, w) =
      (Ok ((lastCommittedHeight a + commitInterval a <? height) || (height mod commitInterval a =? 0)),
       (accepted a height root, w')) /\
    released (lastAcceptedRoot a) w w' /\
    (forall p, p <> atomicTrieDBPrefix -> p <> atomicTrieMetaDBPrefix -> view w' p = view w p) /\
    (forall k, k <> 0 -> is_u64 k -> k mod commitInterval a = 0 -> getRoot k w' =
       if decide (lastCommittedHeight a < k < height) then Ok (lastAcceptedRoot a)
       else if decide (k = height) then Ok root else getRoot k w).
Proof.
  intros Hh (Hci & Hb & HL & HLm & Hoa & Hla) Ho Hl. unfold AcceptTrie, accepted. cbn [fst].
  set (ci := commitInterval a) in *. set (L := lastCommittedHeight a) in *.
  rewrite (Z.mod_small (L + ci)) by lia.
  destruct (commitSkipped_run (S (Z.to_nat (height / ci))) height (L + ci) false a w)
    as (w1 & E1 & D1 & F1 & R1); [done|done|done|done|lia|done| |].
  { fold ci. rewrite Nat2Z.inj_succ, Z2Nat.id by (apply Z.div_pos; lia).
    pose proof (Z.div_mod height ci ltac:(lia)). pose proof (Z.mod_pos_bound height ci Hci). lia. }
  fold ci in E1, R1. rewrite (bindM_step _ _ _ _ _ E1). cbn [orb].
  set (a1 := if L + ci <? height then _ else _) in *. pose proof D1 as [Hh1 _].
  destruct (commitLast_run a1 w1 ci height root (L + ci <? height)) as (w2 & E2 & D2 & F2 & R2);
    [done|destruct Ho as [m Ho]; exists m; by apply D1|done|unfold is_u64; lia|done|].
  rewrite (bindM_step _ _ _ _ _ E2).
  destruct (triedb_Dereference_spec w2 (lastAcceptedRoot a)) as [D3 V3]; [apply D2|].
  exists (triedb_Dereference (lastAcceptedRoot a) w2). split.
  { pose proof (next_multiple ci L height Hci HLm ltac:(lia)) as Hnm. subst a1.
    unfold setAccepted, mbind, StM_bind.
    destruct (Z.eqb_spec (height mod ci) 0) as [Hm|Hm]; [rewrite Hm, Z.sub_0_r|];
      destruct (L + ci <? height); try done; cbn; fold L; by rewrite Hnm. }
  split; [eapply db_step_released; [|exact D3]; by eapply db_step_trans|].
  split; [intros p Hp Hp'; by rewrite V3, F2, F1|].
  intros k Hk Hku Hkm. assert (getRoot k (triedb_Dereference (lastAcceptedRoot a) w2) = getRoot k w2) as ->.
  { rewrite !getRoot_view by (apply D2 || apply D3). by rewrite V3. }
  rewrite R2, R1 by done. pose proof (skipped_multiples ci L height k Hci HLm Hkm) as Hs.
  destruct (decide (k = height)) as [->|Hkh].
  - by rewrite (decide_False (P := L < height < height)) by lia.
  - by rewrite (decide_ext _ _ _ _ Hs).
Qed.

(** ** Inserting operations *)

Lemma trieKey_eq height (cid : list byte) : length cid = 32%nat ->
  trieKey height cid = be_encode 8 height ++ cid.
Proof.
  intros Hc. unfold trieKey. change (mkPacker _ 0 0 None) with (presized [] (replicate TrieKeyLength Byte.x00) 0).
  rewrite (bindM_step _ _ _ _ _ (Packs_presized _ _ [] (replicate TrieKeyLength Byte.x00) 0
             (PackLong_spec height) ltac:(rewrite length_be_encode; cbv; lia))).
  rewrite (Packs_presized _ _ _ _ _ (PackFixedBytes_spec cid))
    by (rewrite length_be_encode, Hc; cbv; lia).
  cbn [snd presized Bytes]. rewrite length_be_encode, Hc.
  change (drop 32 (drop 8 (replicate TrieKeyLength Byte.x00))) with (@nil byte). by rewrite app_nil_r.
Qed.

(** The value stored for requests, and the requests that can be stored. *)
Definition request_bytes (r : Requests) : list byte := message (default [] (enc_Requests r)).

Definition storable (r : Requests) : Prop :=
  valid_Requests r /\ is_Some (enc_Requests r) /\
  Z.of_nat (length (request_bytes r)) <= maxAtomicMessageSize.

Definition ops_ok (ops : gmap ID Requests) : Prop :=
  forall c r, ops !! c = Some r -> length c = 32%nat /\ storable r.

Definition op_entry (height : Z) (op : ID * Requests) : Entry :=
  (be_encode 8 height ++ fst op, request_bytes (snd op)).

(** The trie with the operations of a height put in. *)
Definition put_ops (height : Z) (ops : gmap ID Requests) (m : KV) : KV :=
  list_to_map (op_entry height <$> map_to_list ops) ∪ m.

Lemma op_entry_keys height (l : list (ID * Requests)) :
  NoDup (l.*1) -> NoDup ((op_entry height <$> l).*1).
Proof.
  intros Hn. rewrite <- list_fmap_compose.
  change (fst ∘ op_entry height) with ((app (be_encode 8 height)) ∘ (fst : ID * Requests -> ID)).
  rewrite list_fmap_compose. apply NoDup_fmap_2; [|done]. intros x y. apply app_inv_head.
Qed.

Lemma fold_insert (l : list Entry) (m : KV) : NoDup (l.*1) ->
  fold_left (fun m e => <[fst e := snd e]> m) l m = list_to_map l ∪ m.
Proof.
  revert m. induction l as [|[k v] l IH]; intros m Hn; cbn [fold_left].
  - symmetry. apply (map_empty_union m).
  - rewrite fmap_cons in Hn. apply list.NoDup_cons in Hn as [Hk Hn]. rewrite IH by done.
    change (list_to_map ((k, v) :: l) : KV) with (<[k := v]> (list_to_map l : KV)). cbn [fst snd]. rewrite <- insert_union_r.
    + by rewrite insert_union_l.
    + by apply not_elem_of_list_to_map_1.
Qed.

Lemma storable_marshals r : storable r ->
  Codec_Marshal CodecVersion (V_Requests r) = Ok (request_bytes r) /\ request_bytes r <> [].
Proof.
  intros (_ & [body He] & Hl). unfold request_bytes in *. rewrite He in *. cbn [default] in *. split; [|done].
  apply Marshal_Ok; [done|]. by exists body.
Qed.

Lemma UpdateTrie_run height ops t : trie_ok t -> ops_ok ops ->
  exists t', UpdateTrie height ops t = (Ok tt, t') /\ trie_ok t' /\
    (origin t' = origin t /\ opened t' = opened t) /\ contents t' = put_ops height ops (contents t).
Proof.
  intros Ht Hops. unfold UpdateTrie, put_ops.
  assert (NoDup ((range_ops ops).*1)) as Hn
    by (rewrite range_ops_to_list; apply NoDup_fst_map_to_list).
  rewrite <- (list_to_map_proper (op_entry height <$> range_ops ops)); first last.
  { by rewrite range_ops_to_list. }
  { by apply op_entry_keys. }
  rewrite <- fold_insert by by apply op_entry_keys.
  assert (Forall (fun op : ID * Requests => length op.1 = 32%nat /\ storable op.2) (range_ops ops)) as Hall.
  { rewrite range_ops_to_list. apply list.Forall_forall. intros [c r] Hin%elem_of_map_to_list. by apply Hops. }
  clear Hn. revert t Ht. induction Hall as [|[c r] l [Hc Hr] _ IH]; intros t Ht; [by exists t|].
  cbn [fst snd] in Hc, Hr. destruct (storable_marshals r Hr) as [Hm Hne].
  destruct (trie_Update_spec t (be_encode 8 height ++ c) (request_bytes r) Ht Hne) as (t1 & E1 & Ht1 & C1 & O1 & P1).
  destruct (IH t1 Ht1) as (t' & E' & Ht' & [O' P'] & C'). exists t'. split.
  - cbn [for_each]. erewrite bindM_step; [exact E'|]. rewrite lift_bind, Hm, trieKey_eq by done. done.
  - split; [done|]. split; [split; congruence|]. by rewrite C', C1.
Qed.

Lemma referenceAndCap_run a w root : healthy w -> is_Some (opens w root) ->
  exists w', referenceAndCap root (a, w) = (Ok tt, (a, w')) /\ db_step w w' /\
    (forall n, held w root n -> held w' root (S n)) /\
    (forall p, p <> atomicTrieDBPrefix -> view w' p = view w p).
Proof.
  intros Hh Ho. unfold referenceAndCap. destruct (triedb_Reference_spec w root Hh) as (D & V & HR).
  set (w1 := triedb_Reference root w) in *. destruct (triedb_Size w1 <=? memoryCap a).
  - exists w1. split; [done|]. split; [done|]. split; [by apply HR|]. intros p _. apply V.
  - destruct (triedb_Cap_spec w1 (memoryCap a - IdealBatchSize)) as (w2 & E2 & D2 & F2); [apply D|].
    exists w2. split; [unfold wrapM, on_snd; cbn [fst snd]; by rewrite E2|].
    split; [by eapply db_step_trans|]. split; [intros n Hn; by apply D2, HR|].
    intros p Hp. by rewrite F2, V.
Qed.

(** The trie stays available with one more reference. *)
Lemma InsertTrie_run a w t :
  healthy w -> trie_ok t -> opens w (origin t) = Some (opened t) ->
  (forall m, opens w (trie_root (contents t)) = Some m -> m = contents t) ->
  exists w', InsertTrie (snd (trie_Commit t)) (trie_root (contents t)) (a, w) = (Ok tt, (a, w')) /\
    adds [contents t] w w' /\ opens w' (trie_root (contents t)) = Some (contents t) /\
    (forall n, held w (trie_root (contents t)) n -> held w' (trie_root (contents t)) (S n)) /\
    (forall p, p <> atomicTrieDBPrefix -> view w' p = view w p).
Proof.
  intros Hh Ht Ho Hcol. set (root := trie_root (contents t)) in *. unfold InsertTrie.
  assert (exists w1, (match snd (trie_Commit t) with
                      | Some nodes => on_snd (triedb_Update root nodes) | None => mret tt end) (a, w) =
                     (Ok tt, (a, w1)) /\ adds [contents t] w w1 /\ opens w1 root = Some (contents t) /\
                     (forall p, p <> atomicTrieDBPrefix -> view w1 p = view w p))
    as (w1 & E1 & D1 & O1 & F1).
  { destruct (snd (trie_Commit t)) as [n|] eqn:En.
    - destruct (triedb_Update_spec w t n) as (w1 & E1 & D1 & O1 & F1); [done..|].
      exists w1. unfold on_snd. cbn [fst snd]. fold root in E1. by rewrite E1.
    - exists w. split; [done|].
      split; [split; [done|]; split; [by intros c|]; split; [by intros q|apply gains_refl]|].
      split; [|done]. subst root.
      rewrite (trie_Commit_nil t Ht En) in *.
      destruct (opens_root _ _ _ Hh Ho) as [[_ E0]|E0]; [|by rewrite <- E0].
      rewrite E0, <- EmptyRootHash_eq. by apply opens_empty. }
  rewrite (bindM_step _ _ _ _ _ E1).
  destruct (referenceAndCap_run a w1 root) as (w' & E2 & D2 & H2 & F2); [apply D1|by eauto|].
  exists w'. split; [done|]. split; [by apply (adds_trans [_] [] w w1)|]. split; [by apply D2|].
  split; [intros n Hn; by apply H2, D1|]. intros p Hp. by rewrite F2, F1.
Qed.

End Spec.

End trie.
