(* ===== verification/AtomicBackend.v ===== *)
(** * The atomic backend

    [plugin/evm/atomic/state/atomic_backend.go] and [atomic_state.go]: the tries of the
    blocks that are verified and not yet decided, their acceptance and rejection, the
    initialization of the trie from the repository, and the application of synced
    operations to shared memory. *)

From Stdlib Require Import Sorting.Sorted.
From S2P Require Import Prelude GoStd Packer AtomicTypes AtomicCodec AtomicFormat ExtState AtomicTx AtomicTxSpec Store AtomicRepo AtomicTrie.
Import atomic codec wire atomictx repo trie.

Module backend.

Definition sharedMemoryApplyBatchSize : Z := 10000.

(** The struct of [atomic_state.go], without its pointer to the backend. *)
Record atomicState := mkAtomicState {
  as_blockHash : Hash;
  as_blockHeight : Z;
  as_txs : list Tx;
  as_atomicOps : gmap ID Requests;
  as_atomicRoot : Hash
}.

(** A nil map of bonus blocks reads as an empty one. *)
Record AtomicBackend := mkBackend {
  bonusBlocks : gmap Z ID;
  atomicTrie : AtomicTrie;
  lastAcceptedHash : Hash;
  verifiedRoots : gmap Hash atomicState
}.

Definition with_trie (b : AtomicBackend) (a : AtomicTrie) : AtomicBackend :=
  mkBackend (bonusBlocks b) a (lastAcceptedHash b) (verifiedRoots b).
Definition with_verified (b : AtomicBackend) (m : gmap Hash atomicState) : AtomicBackend :=
  mkBackend (bonusBlocks b) (atomicTrie b) (lastAcceptedHash b) m.

(** ** Merging operations *)

Definition mergeAtomicOpsToMap (output : gmap ID Requests) (chainID : ID) (requests : Requests)
    : gmap ID Requests :=
  match output !! chainID with
  | Some request =>
      <[chainID := mkRequests (RemoveRequests request ++ RemoveRequests requests)
                              (PutRequests request ++ PutRequests requests)]> output
  | None => <[chainID := requests]> output
  end.

Section Backend.
Context {W Batch T N : Type} {DB : VersionDB W Batch} {MEM : SharedMemory W Batch} {TL : TrieLib W T N}.
Context {UL : UtxoLib} {PL : PackerLib} {RO : OpsRange} (ComputeHash256 : list byte -> ID).

Abbreviation BackendM := (StM (AtomicBackend * W)).

Definition on_trie {A} (m : StM (AtomicTrie * W) A) : BackendM A := fun '(b, w) =>
  let '(r, (a, w)) := m (atomicTrie b, w) in (r, (with_trie b a, w)).
Definition on_store {A} (m : StM W A) : BackendM A := on_snd m.
Definition get_backend : BackendM AtomicBackend := fun '(b, w) => (Ok b, (b, w)).
Definition put_backend (b : AtomicBackend) : BackendM unit := fun '(_, w) => (Ok tt, (b, w)).

Fixpoint mergeAll (txs : list Tx) (output : gmap ID Requests) : result (gmap ID Requests) :=
  match txs with
  | [] => Ok output
  | tx :: txs' =>
      ops ← Tx_AtomicOps tx;
      mergeAll txs' (mergeAtomicOpsToMap output (fst ops) (snd ops))
  end.

Definition mergeAtomicOps (txs : list Tx) : result (gmap ID Requests) :=
  txs ← sortTxs txs;
  mergeAll txs ∅.

(** ** The blocks that are verified and not decided *)

Definition IsBonus (b : AtomicBackend) (blockHeight : Z) (blockHash : Hash) : bool :=
  match bonusBlocks b !! blockHeight with
  | Some bonusID => bool_decide (bonusID = blockHash)
  | None => false
  end.

Definition AddBonusBlock (height : Z) (blockID : ID) (b : AtomicBackend) : AtomicBackend :=
  mkBackend (<[height := blockID]> (bonusBlocks b)) (atomicTrie b) (lastAcceptedHash b) (verifiedRoots b).

Definition GetVerifiedAtomicState (b : AtomicBackend) (blockHash : Hash) : result atomicState :=
  match verifiedRoots b !! blockHash with
  | Some state => Ok state
  | None => Err (errors_New "cannot access atomic state for block")
  end.

Definition getAtomicRootAt (b : AtomicBackend) (blockHash : Hash) : result Hash :=
  if bool_decide (blockHash = lastAcceptedHash b) then Ok (lastAcceptedRoot (atomicTrie b)) else
  state ← GetVerifiedAtomicState b blockHash;
  Ok (as_atomicRoot state).

Definition SetLastAccepted (hash : Hash) (b : AtomicBackend) : AtomicBackend :=
  mkBackend (bonusBlocks b) (atomicTrie b) hash (verifiedRoots b).

(** The trie is updated, and kept only when the block has a hash. *)
Definition InsertTxs (blockHash : Hash) (blockHeight : Z) (parentHash : Hash) (txs : list Tx)
    : BackendM Hash :=
  b ← get_backend;
  parentRoot ← lift (getAtomicRootAt b parentHash);
  tr ← on_store (readM (OpenTrie parentRoot));
  atomicOps ← lift (mergeAtomicOps txs);
  tr ← lift (let '(r, tr) := UpdateTrie blockHeight atomicOps tr in _ ← r; Ok tr);
  if bool_decide (blockHash = Hash_zero) then mret (trie_Hash tr) else
  let '(root, nodes) := trie_Commit tr in
  _ ← on_trie (InsertTrie nodes root);
  b ← get_backend;
  _ ← put_backend (with_verified b
        (<[blockHash := mkAtomicState blockHash blockHeight txs atomicOps root]> (verifiedRoots b)));
  mret root.

(** [atomicState.Accept] *)
Definition Accept (a : atomicState) (commitBatch : Batch) : BackendM unit :=
  b ← get_backend;
  let isBonus := IsBonus b (as_blockHeight a) (as_blockHash a) in
  _ ← on_store (if isBonus then WriteBonus ComputeHash256 (as_blockHeight a) (as_txs a)
                else Write ComputeHash256 (as_blockHeight a) (as_txs a));
  _ ← on_trie (AcceptTrie (as_blockHeight a) (as_atomicRoot a));
  b ← get_backend;
  _ ← put_backend (mkBackend (bonusBlocks b) (atomicTrie b) (as_blockHash a)
                     (delete (as_blockHash a) (verifiedRoots b)));
  atomicChangesBatch ← on_store (readM (fun w =>
    wrap_err "could not create commit batch in atomicState accept" (db_CommitBatch w)));
  on_store (if isBonus then WriteAll commitBatch [atomicChangesBatch]
            else sm_Apply (as_atomicOps a) [commitBatch; atomicChangesBatch]).

(** [atomicState.Reject] *)
Definition Reject (a : atomicState) : BackendM unit :=
  b ← get_backend;
  _ ← put_backend (with_verified b (delete (as_blockHash a) (verifiedRoots b)));
  on_trie (RejectTrie (as_atomicRoot a)).

(** ** Initialization from the repository *)

(** The loop over the heights of the repository: the last height seen. *)
Fixpoint indexHeights (es : list Entry) (tr : T) (height : Z) : BackendM Z :=
  match es with
  | [] => mret height
  | (key, value) :: es' =>
      if (length key <? 8)%nat then lift Panic else
      let height := be_decode (take 8 key) in
      txs ← lift (ExtractAtomicTxs ComputeHash256 value true);
      combinedOps ← lift (mergeAtomicOps txs);
      tr ← lift (let '(r, tr) := UpdateTrie height combinedOps tr in _ ← r; Ok tr);
      let '(root, nodes) := trie_Commit tr in
      _ ← on_trie (InsertTrie nodes root);
      isCommit ← on_trie (AcceptTrie height root);
      _ ← (if isCommit : bool then on_store db_Commit else mret tt);
      tr ← on_store (readM (OpenTrie root));
      indexHeights es' tr height
  end.

Definition initialize (lastAcceptedHeight : Z) : BackendM unit :=
  b ← get_backend;
  let '(lastCommittedRoot, lastCommittedHeight) := LastCommitted (atomicTrie b) in
  iter ← on_store (readM (fun w => Ok (IterateByHeight ((lastCommittedHeight +u 1)%word) w)));
  tr ← on_store (readM (OpenTrie lastCommittedRoot));
  height ← indexHeights (fst iter) tr lastCommittedHeight;
  _ ← match snd iter with Some e => lift (Err e) | None => mret tt end;
  if height <? lastAcceptedHeight then
    b ← get_backend;
    let root := lastAcceptedRoot (atomicTrie b) in
    _ ← on_trie (InsertTrie None root);
    _ ← on_trie (AcceptTrie lastAcceptedHeight root);
    mret tt
  else mret tt.

(** ** Applying synced operations to shared memory *)

Definition MarkApplyToSharedMemoryCursor (previousLastAcceptedHeight : Z) : StM W unit :=
  db_Put atomicTrieMetaDBPrefix appliedSharedMemoryCursorKey
    (PackUInt64 ((previousLastAcceptedHeight +u 1)%word)).

(** [batch, err := a.repo.db.CommitBatch(); a.sharedMemory.Apply(batchOps, batch)] *)
Definition applyBatch (batchOps : gmap ID Requests) : StM W unit :=
  batch ← readM db_CommitBatch;
  wrapM "failed committing shared memory operations" (sm_Apply batchOps [batch]).

(** The loop over the trie; [pending] is [putRequests + removeRequests]. It returns the
    operations not applied yet. *)
Fixpoint applyLoop (fuel : nat) (bonus : gmap Z ID) (lastAcceptedBlock : Z) (it : atomicTrieIterator)
    (batchOps : gmap ID Requests) (pending : Z) : StM W (atomicTrieIterator * gmap ID Requests) :=
  match fuel with
  | O => lift (Err out_of_fuel)
  | S fuel' =>
      let '(more, it) := it_Next it in
      if negb more then mret (it, batchOps) else
      let height := it_blockNumber it in
      if lastAcceptedBlock <? height then mret (it, batchOps) else
      if bool_decide (is_Some (bonus !! height))
      then applyLoop fuel' bonus lastAcceptedBlock it batchOps pending else
      match it_atomicOps it with
      | None => lift Panic
      | Some atomicOps =>
          let pending := pending + Z.of_nat (length (PutRequests atomicOps))
                                 + Z.of_nat (length (RemoveRequests atomicOps)) in
          let batchOps := mergeAtomicOpsToMap batchOps (it_blockchainID it) atomicOps in
          if sharedMemoryApplyBatchSize <? pending then
            _ ← db_Put atomicTrieMetaDBPrefix appliedSharedMemoryCursorKey (it_key it);
            _ ← applyBatch batchOps;
            applyLoop fuel' bonus lastAcceptedBlock it ∅ 0
          else applyLoop fuel' bonus lastAcceptedBlock it batchOps pending
      end
  end.

(** A cursor longer than a height names the last operation applied, which is skipped. *)
Definition cursorIterator (root : Hash) (cursor : list byte) (w : W) : result atomicTrieIterator :=
  if (length cursor <? 8)%nat then Panic else
  it ← Iterator root cursor w;
  if (8 <? length cursor)%nat then
    _ ← ToID (drop 8 cursor);
    Ok (snd (it_Next it))
  else Ok it.

Definition ApplyToSharedMemory (b : AtomicBackend) (lastAcceptedBlock : Z) : StM W unit :=
  cursor ← readM (fun w =>
    match db_Get w atomicTrieMetaDBPrefix appliedSharedMemoryCursorKey with
    | Ok cursor => Ok (Some cursor)
    | Err e => if bool_decide (e = ErrNotFound) then Ok None else Err e
    | Panic => Panic
    end);
  match cursor with
  | None => mret tt
  | Some sharedMemoryCursor =>
      it ← readM (cursorIterator (lastCommittedRoot (atomicTrie b)) sharedMemoryCursor);
      r ← applyLoop (S (length (it_rest it))) (bonusBlocks b) lastAcceptedBlock it ∅ 0;
      _ ← match it_err (fst r) with Some e => lift (Err e) | None => mret tt end;
      _ ← db_Delete atomicTrieMetaDBPrefix appliedSharedMemoryCursorKey;
      applyBatch (snd r)
  end.

Definition initialized_backend (b : AtomicBackend) (lastAcceptedHeight : Z) : StM W AtomicBackend :=
  fun w => let '(r, (b, w)) := initialize lastAcceptedHeight (b, w) in ((_ ← r; Ok b), w).

Definition NewAtomicBackend (bonus : gmap Z ID) (lastAcceptedHeight : Z) (lastAccepted : Hash)
    (commitInterval : Z) : StM W AtomicBackend :=
  a ← readM (newAtomicTrie lastAcceptedHeight commitInterval);
  let b := mkBackend bonus a lastAccepted ∅ in
  _ ← ApplyToSharedMemory b lastAcceptedHeight;
  initialized_backend b lastAcceptedHeight.

End Backend.

(** ** References to the tries *)

Definition count (r : Hash) (m : gmap Hash atomicState) : nat :=
  size (filter (fun kv : Hash * atomicState => as_atomicRoot kv.2 = r) m).

(** How many users a root has: the undecided blocks, and the last accepted one. *)
Definition uses (b : AtomicBackend) (r : Hash) : nat :=
  (if decide (lastAcceptedRoot (atomicTrie b) = r) then 1 else 0) + count r (verifiedRoots b).

Lemma count_insert r h s m :
  (count r (<[h := s]> m) <= count r m + if decide (as_atomicRoot s = r) then 1 else 0)%nat.
Proof.
  unfold count. rewrite map_filter_insert. cbn [snd]. case_decide.
  - rewrite map_size_insert. destruct (_ !! _); unfold id; lia.
  - rewrite map_filter_delete, map_size_delete. destruct (_ !! _); unfold id; lia.
Qed.

Lemma count_delete r h s m : m !! h = Some s ->
  (count r m = count r (delete h m) + if decide (as_atomicRoot s = r) then 1 else 0)%nat.
Proof.
  intros Hm. unfold count. rewrite map_filter_delete, map_size_delete.
  destruct (decide (as_atomicRoot s = r)) as [Hr|Hr].
  - assert (filter (fun kv : Hash * atomicState => as_atomicRoot kv.2 = r) m !! h = Some s) as Hf
      by by apply map_lookup_filter_Some.
    rewrite Hf. assert (size (filter (fun kv : Hash * atomicState => as_atomicRoot kv.2 = r) m) <> 0)%nat.
    { intros H0%map_size_empty_inv. by rewrite H0 in Hf. }
    lia.
  - assert (filter (fun kv : Hash * atomicState => as_atomicRoot kv.2 = r) m !! h = None) as ->; [|unfold id; lia].
    apply map_lookup_filter_None. right. intros x Hx. rewrite Hm in Hx. by injection Hx as <-.
Qed.

Section Spec.
Context {W Batch T N St : Type} {DB : VersionDB W Batch} {MEM : SharedMemory W Batch}
  {TL : TrieLib W T N} {SM : StoreModel W T St} {SS : StoreSpec atomicTrieDBPrefix}.
Context {UL : UtxoLib} {US : UtxoLibSpec} {PL : PackerLib} {PS : PackerSpec} {RO : OpsRange}
  {ROS : OpsRangeSpec} (h : list byte -> ID).

(** Every user of a root holds a reference to it. *)
Definition refs_ok (u : Hash -> nat) (w : W) : Prop :=
  forall r n, u r = S n -> held w r (S n) /\ is_Some (opens w r) /\ length r = 32%nat.

Lemma refs_ok_keeps u w w' : keeps_tries w w' -> refs_ok u w -> refs_ok u w'.
Proof.
  intros Hk Hr r n Hu. destruct (Hr r n Hu) as (Hh & [m Ho] & Hl).
  split; [by apply Hk|]. split; [exists m; by apply Hk|done].
Qed.

Lemma refs_ok_released u u' r0 w w' : released r0 w w' ->
  (forall r, u r = u' r + if decide (r0 = r) then 1 else 0)%nat -> refs_ok u w -> refs_ok u' w'.
Proof.
  intros (_ & _ & R1 & R2 & _) Hu Hr r n Hn. specialize (Hu r). destruct (decide (r0 = r)) as [<-|Hne].
  - destruct (Hr r0 (S n)) as (Hh & [m Ho] & Hl); [lia|].
    destruct (R1 n m Hh Ho) as [Hh' Ho']. split; [done|]. split; [by exists m|done].
  - destruct (Hr r n) as (Hh & [m Ho] & Hl); [lia|].
    destruct (R2 r n m ltac:(done) Hh Ho) as [Hh' Ho']. split; [done|]. split; [by exists m|done].
Qed.

Lemma refs_ok_le u u' w : refs_ok u w -> (forall r, u' r <= u r)%nat -> refs_ok u' w.
Proof.
  intros Hr Hle r n Hn. specialize (Hle r). destruct (u r) as [|k] eqn:Ek; [lia|].
  destruct (Hr r k Ek) as (Hk & Ho & Hl). split; [|done]. eapply held_le; [done|lia].
Qed.

(** A root inserted once more has one more user. *)
Lemma refs_ok_insert u w w' m : refs_ok u w -> keeps_tries w w' -> opens w' (trie_root m) = Some m ->
  (forall n, held w (trie_root m) n -> held w' (trie_root m) (S n)) ->
  refs_ok (fun r => u r + if decide (trie_root m = r) then 1 else 0)%nat w'.
Proof.
  intros Hr Hk Ho Hh r n. case_decide as Hd.
  - subst r. intros Hn. split; [|split; [by eauto|apply trie_root_length]].
    destruct (u (trie_root m)) as [|k] eqn:Ek.
    + assert (n = 0)%nat as -> by lia. apply Hh, held_0.
    + destruct (Hr _ k Ek) as (Hk' & _). eapply held_le; [by apply Hh|lia].
  - rewrite Nat.add_0_r. by apply (refs_ok_keeps u w).
Qed.

(** ** The backend's invariant *)

(** [lastHeight]: the height of the last accepted block. *)
Definition backend_ok (b : AtomicBackend) (w : W) (lastHeight : Z) : Prop :=
  healthy w /\ repo_ok h w /\ refs_ok (uses b) w /\
  0 < commitInterval (atomicTrie b) /\ 0 <= lastHeight /\
  lastCommittedHeight (atomicTrie b) = lastHeight - lastHeight mod commitInterval (atomicTrie b) /\
  forall bh s, verifiedRoots b !! bh = Some s ->
    as_blockHash s = bh /\ Forall (parsed h) (as_txs s) /\ fits_batch (as_txs s) /\
    is_u64 (as_blockHeight s).

(** Two contents with one root would be a hash collision. *)
Definition no_collision (w : W) (m : KV) : Prop :=
  forall m', opens w (trie_root m) = Some m' -> m' = m.

Lemma uses_pos b bh r : getAtomicRootAt b bh = Ok r -> (0 < uses b r)%nat.
Proof.
  unfold getAtomicRootAt, uses, GetVerifiedAtomicState. case_bool_decide.
  - intros [= <-]. rewrite decide_True by done. lia.
  - destruct (verifiedRoots b !! bh) as [s|] eqn:E; [|done]. intros [= <-].
    rewrite (count_delete _ _ _ _ E), (decide_True (P := as_atomicRoot s = _)) by done. lia.
Qed.

(** A block known to the backend has a trie that can be opened. *)
Lemma root_opens b w H bh r : backend_ok b w H -> getAtomicRootAt b bh = Ok r ->
  exists m, opens w r = Some m.
Proof.
  intros (_ & _ & Hr & _) Hg%uses_pos. destruct (uses b r) as [|n] eqn:En; [lia|].
  by destruct (Hr r n En) as (_ & ? & _).
Qed.

(** The steps of [BackendM]. *)
Lemma get_backend_bind {A} (k : AtomicBackend -> StM (AtomicBackend * W) A) b w :
  (get_backend ≫= k) (b, w) = k b (b, w).
Proof. done. Qed.

Lemma put_backend_bind {A} b' (k : unit -> StM (AtomicBackend * W) A) b w :
  (put_backend b' ≫= k) (b, w) = k tt (b', w).
Proof. done. Qed.

Lemma on_trie_bind {A B} (m : StM (AtomicTrie * W) A) (k : A -> StM (AtomicBackend * W) B) b w x a' w' :
  m (atomicTrie b, w) = (Ok x, (a', w')) -> (on_trie m ≫= k) (b, w) = k x (with_trie b a', w').
Proof. intros Hm. unfold on_trie, mbind, StM_bind. by rewrite Hm. Qed.

Lemma on_store_bind {A B} (m : StM W A) (k : A -> StM (AtomicBackend * W) B) b w x w' :
  m w = (Ok x, w') -> (on_store m ≫= k) (b, w) = k x (b, w').
Proof. intros Hm. unfold on_store, on_snd, mbind, StM_bind. cbn [fst snd]. by rewrite Hm. Qed.

Lemma with_trie_id b : with_trie b (atomicTrie b) = b.
Proof. by destruct b. Qed.

(** The root of a block is that of its parent's trie with the block's operations put at
    its height; with a hash, the block is tracked and its trie kept. *)
Lemma InsertTxs_run b w H bh height parent pr m0 txs ops :
  backend_ok b w H -> getAtomicRootAt b parent = Ok pr -> opens w pr = Some m0 ->
  mergeAtomicOps txs = Ok ops -> ops_ok ops -> no_collision w (put_ops height ops m0) ->
  let m := put_ops height ops m0 in
  exists w', InsertTxs bh height parent txs (b, w) =
      (Ok (trie_root m),
       if decide (bh = Hash_zero) then (b, w) else
       (with_verified b (<[bh := mkAtomicState bh height txs ops (trie_root m)]> (verifiedRoots b)), w')) /\
    adds [m] w w' /\ opens w' (trie_root m) = Some m /\
    (forall n, held w (trie_root m) n -> held w' (trie_root m) (S n)) /\
    (forall p, p <> atomicTrieDBPrefix -> view w' p = view w p).
Proof.
  intros Hb Hpr Ho Hm Hops Hcol m. pose proof Hb as (Hh & _).
  destruct (trie_New_spec w pr m0 Hh Ho) as (t & ET & Ht & Hc & Hor & Hop).
  destruct (UpdateTrie_run height ops t Ht Hops) as (t' & EU & Ht' & [Hor' Hop'] & Hc').
  rewrite Hc in Hc'. fold m in Hc'.
  destruct (InsertTrie_run (atomicTrie b) w t') as (w' & EI & D & Ho' & Hh' & F);
    [done|done|by rewrite Hor', Hor, Hop', Hop|by rewrite Hc'|].
  rewrite Hc' in *. exists w'. split; [|done].
  unfold InsertTxs. rewrite get_backend_bind, lift_bind, Hpr.
  erewrite on_store_bind by (unfold readM, OpenTrie; by rewrite ET).
  rewrite lift_bind, Hm, lift_bind, EU. cbn [mbind result_bind].
  destruct (decide (bh = Hash_zero)) as [->|Hne].
  - rewrite bool_decide_eq_true_2 by done. cbn. unfold mret, StM_ret. by rewrite trie_Hash_spec, Hc'.
  - rewrite bool_decide_eq_false_2 by done.
    rewrite (surjective_pairing (trie_Commit t')), trie_Commit_root, Hc' by done.
    erewrite on_trie_bind by exact EI. rewrite with_trie_id. done.
Qed.

Lemma verify_ok b w H bh height parent txs pr m0 ops :
  backend_ok b w H -> getAtomicRootAt b parent = Ok pr -> opens w pr = Some m0 ->
  mergeAtomicOps txs = Ok ops -> ops_ok ops -> no_collision w (put_ops height ops m0) ->
  bh <> Hash_zero -> Forall (parsed h) txs -> fits_batch txs -> is_u64 height ->
  exists b' w', InsertTxs bh height parent txs (b, w) = (Ok (trie_root (put_ops height ops m0)), (b', w')) /\
    backend_ok b' w' H /\ getAtomicRootAt b' bh =
      (if decide (bh = lastAcceptedHash b) then getAtomicRootAt b bh
       else Ok (trie_root (put_ops height ops m0))) /\
    b' = with_verified b (<[bh := mkAtomicState bh height txs ops
           (trie_root (put_ops height ops m0))]> (verifiedRoots b)) /\
    view w' atomicTrieMetaDBPrefix = view w atomicTrieMetaDBPrefix.
Proof.
  intros Hb Hpr Ho Hm Hops Hcol Hbh Hp Hf Hu.
  destruct (InsertTxs_run b w H bh height parent pr m0 txs ops) as (w' & EI & D & Ho' & Hh' & F); [done..|].
  rewrite decide_False in EI by done. eexists _, w'. split; [exact EI|].
  destruct Hb as (Hh & Hrep & Hr & Hci & HH & HL & Hv). set (root := trie_root (put_ops height ops m0)) in *.
  split.
  { split; [apply D|]. split; [by unfold repo_ok; rewrite !F|]. split; [|split; [done|split; [done|split; [done|]]]].
    - eapply refs_ok_le; [by apply (refs_ok_insert (uses b) w w' (put_ops height ops m0)); [|apply D|..]|].
      intros r. unfold uses. cbn [with_verified atomicTrie verifiedRoots].
      pose proof (count_insert r bh (mkAtomicState bh height txs ops root) (verifiedRoots b)) as Hc.
      cbn [as_atomicRoot] in Hc. fold root. lia.
    - intros bh' s. cbn [with_verified verifiedRoots].
      destruct (decide (bh' = bh)) as [->|Hne]; [|rewrite lookup_insert_ne by done; by apply Hv].
      rewrite lookup_insert_eq. intros [= <-]. by split_and!. }
  split; [|by split; [|apply F]].
  unfold getAtomicRootAt, GetVerifiedAtomicState. cbn [with_verified lastAcceptedHash verifiedRoots].
  case_decide as Hd; [by rewrite bool_decide_eq_true_2|]. rewrite bool_decide_eq_false_2 by done.
  by rewrite lookup_insert_eq.
Qed.

Lemma reject_ok b w H bh s : backend_ok b w H -> verifiedRoots b !! bh = Some s ->
  exists w', Reject s (b, w) = (Ok tt, (with_verified b (delete bh (verifiedRoots b)), w')) /\
    backend_ok (with_verified b (delete bh (verifiedRoots b))) w' H /\
    view w' atomicTrieMetaDBPrefix = view w atomicTrieMetaDBPrefix.
Proof.
  intros (Hh & Hrep & Hr & Hci & HH & HL & Hv) Hs. destruct (Hv bh s Hs) as (Hbh & _).
  destruct (triedb_Dereference_spec w (as_atomicRoot s) Hh) as [HR HV].
  exists (triedb_Dereference (as_atomicRoot s) w). split.
  { unfold Reject. rewrite get_backend_bind, put_backend_bind, Hbh. done. }
  split; [|apply HV]. split; [apply HR|]. split; [by unfold repo_ok; rewrite !HV|]. split.
  - eapply refs_ok_released; [exact HR| |exact Hr]. intros r. unfold uses.
    cbn [with_verified atomicTrie verifiedRoots]. rewrite (count_delete r bh s) by done. lia.
  - split; [done|]. split; [done|]. split; [done|]. intros bh' s'. cbn [with_verified verifiedRoots].
    intros [_ Hs']%lookup_delete_Some. by apply Hv.
Qed.

(** The effect of the operations of a block on the shared memory. *)
Definition shared_effect (ops : gmap ID Requests) (w w' : W) : Prop :=
  forall c, Some (shared w' c) =
    match ops !! c with Some r => apply_requests r (shared w c) | None => Some (shared w c) end.

Definition applicable (ops : gmap ID Requests) (w : W) : Prop :=
  forall c r, ops !! c = Some r -> is_Some (apply_requests r (shared w c)).

(** The pending changes are written, with the operations unless the block is a bonus. *)
Lemma flush_run (isBonus : bool) ops commitBatch w : healthy w -> (isBonus = false -> applicable ops w) ->
  exists b w', db_CommitBatch w = Ok b /\
    (if isBonus then WriteAll commitBatch [b] else sm_Apply ops [commitBatch; b]) w = (Ok tt, w') /\
    healthy w' /\ keeps_tries w w' /\ (forall p, view w' p = view w p /\ durable w' p = view w p) /\
    (if isBonus then keeps_shared w w' else shared_effect ops w w').
Proof.
  intros Hh Ha. destruct (CommitBatch_spec w Hh) as [b Hb]. exists b. destruct isBonus.
  - destruct (WriteAll_spec w commitBatch b Hh Hb) as (w' & E & D & V). exists w'. by destruct D as (? & ? & ? & ?).
  - destruct (Apply_spec w ops [commitBatch] b Hh Hb (Ha eq_refl)) as (w' & E & H' & V & [K _] & S). by exists w'.
Qed.

(** The backend after a block is accepted. *)
Definition accept_backend (b : AtomicBackend) (s : atomicState) : AtomicBackend :=
  mkBackend (bonusBlocks b) (accepted (atomicTrie b) (as_blockHeight s) (as_atomicRoot s))
    (as_blockHash s) (delete (as_blockHash s) (verifiedRoots b)).

Lemma uses_verified b bh s : verifiedRoots b !! bh = Some s -> (0 < count (as_atomicRoot s) (verifiedRoots b))%nat.
Proof. intros Hs. rewrite (count_delete _ _ _ _ Hs), decide_True by done. lia. Qed.

Lemma in_use b w H r : backend_ok b w H -> (0 < uses b r)%nat -> is_Some (opens w r) /\ length r = 32%nat.
Proof.
  intros (_ & _ & Hr & _) Hu. destruct (uses b r) as [|n] eqn:En; [lia|].
  by destruct (Hr r n En) as (_ & ? & ?).
Qed.

Lemma last_in_use b : (0 < uses b (lastAcceptedRoot (atomicTrie b)))%nat.
Proof. unfold uses. rewrite decide_True by done. lia. Qed.

Lemma accept_uses b bh s r : verifiedRoots b !! bh = Some s -> as_blockHash s = bh ->
  (uses b r = uses (accept_backend b s) r +
     if decide (lastAcceptedRoot (atomicTrie b) = r) then 1 else 0)%nat.
Proof.
  intros Hs Hbh. unfold uses, accept_backend.
  cbn [atomicTrie verifiedRoots accepted lastAcceptedRoot]. rewrite Hbh, (count_delete r bh s) by done. lia.
Qed.

Lemma accept_ok b w H bh s commitBatch :
  backend_ok b w H -> verifiedRoots b !! bh = Some s -> H < as_blockHeight s ->
  as_blockHeight s + commitInterval (atomicTrie b) < 2 ^ 64 ->
  (IsBonus b (as_blockHeight s) bh = false -> applicable (as_atomicOps s) w) ->
  exists w1 w2 w', Accept h s commitBatch (b, w) = (Ok tt, (accept_backend b s, w')) /\
    backend_ok (accept_backend b s) w' (as_blockHeight s) /\
    write h (as_blockHeight s) (as_txs s) (IsBonus b (as_blockHeight s) bh) w = (Ok tt, w1) /\
    healthy w1 /\ healthy w2 /\ healthy w' /\
    (forall p, p <> atomicTrieDBPrefix -> p <> atomicTrieMetaDBPrefix -> view w2 p = view w1 p) /\
    (forall k, k <> 0 -> is_u64 k -> k mod commitInterval (atomicTrie b) = 0 -> getRoot k w2 =
       if decide (lastCommittedHeight (atomicTrie b) < k < as_blockHeight s)
       then Ok (lastAcceptedRoot (atomicTrie b))
       else if decide (k = as_blockHeight s) then Ok (as_atomicRoot s) else getRoot k w1) /\
    view w1 atomicTrieMetaDBPrefix = view w atomicTrieMetaDBPrefix /\
    (forall p, view w' p = view w2 p /\ durable w' p = view w2 p) /\
    (if IsBonus b (as_blockHeight s) bh then keeps_shared w w' else shared_effect (as_atomicOps s) w w').
Proof.
  intros Hb Hs HH Hmax Hap. pose proof Hb as (Hh & Hrep & Hr & Hci & H0 & HL & Hv).
  destruct (Hv bh s Hs) as (Hbh & Hp & Hf & Hu). set (isB := IsBonus b (as_blockHeight s) bh) in *.
  destruct (write_run h (as_blockHeight s) (as_txs s) isB w)
    as (w1 & sorted & bs & E1 & _ & D1 & R1 & _ & _ & _ & _ & VM); [done..|].
  pose proof (Z.mod_pos_bound H (commitInterval (atomicTrie b)) Hci).
  pose proof (Z.mod_le H (commitInterval (atomicTrie b)) H0 Hci).
  assert (in_step (atomicTrie b) w1 (as_blockHeight s)) as Hst.
  { destruct (in_use b w H _ Hb (last_in_use b)) as [[m Ho] Hl]. split_and!; try done; try lia.
    - rewrite HL. rewrite Zminus_mod_idemp_r, Z.sub_diag. done.
    - exists m. by apply D1. }
  assert (is_Some (opens w1 (as_atomicRoot s)) /\ length (as_atomicRoot s) = 32%nat) as [Ho Hl].
  { destruct (in_use b w H (as_atomicRoot s) Hb) as [[m Ho] Hl].
    - unfold uses. pose proof (uses_verified b bh s Hs). lia.
    - split; [exists m; by apply D1|done]. }
  destruct (AcceptTrie_run (atomicTrie b) w1 (as_blockHeight s) (as_atomicRoot s))
    as (w2 & E2 & R2 & F2 & G2); [apply D1|done..|]. pose proof R2 as (Hh2 & S2 & _).
  destruct (flush_run isB (as_atomicOps s) commitBatch w2) as (cb & w' & EC & E3 & Hh' & K3 & V3 & S3);
    [done| |].
  { intros Hn c r Hc. rewrite S2. destruct D1 as (_ & S1 & _). rewrite S1. by apply Hap. }
  exists w1, w2, w'. split.
  { unfold Accept. rewrite get_backend_bind, Hbh. fold isB.
    erewrite on_store_bind by (unfold WriteBonus, Write; destruct isB; exact E1).
    erewrite on_trie_bind by exact E2. rewrite get_backend_bind, put_backend_bind.
    erewrite on_store_bind by (unfold readM; by rewrite EC). unfold on_store, on_snd. cbn [fst snd].
    rewrite E3. unfold accept_backend. by rewrite Hbh. }
  assert (forall p, p <> atomicTrieDBPrefix -> p <> atomicTrieMetaDBPrefix -> view w' p = view w1 p) as V'.
  { intros p Hp1 Hp2. by rewrite (proj1 (V3 p)), F2. }
  split.
  { split; [done|]. split; [unfold repo_ok; rewrite !V' by done; exact R1|]. split.
    - eapply refs_ok_keeps; [exact K3|]. eapply refs_ok_released; [exact R2| |].
      + intros r. by apply (accept_uses b bh s).
      + by eapply refs_ok_keeps; [apply D1|].
    - split; [done|]. split; [lia|]. split; [done|]. intros bh' s'.
      cbn [accept_backend verifiedRoots]. intros [_ Hs']%lookup_delete_Some. by apply Hv. }
  split; [done|]. split; [apply D1|]. split; [done|]. split; [done|]. split; [done|]. split; [done|].
  split; [done|]. split; [done|]. assert (keeps_shared w w2) as Sw by (eapply keeps_shared_trans; [apply D1|done]).
  destruct isB; [by eapply keeps_shared_trans|]. intros c. rewrite S3, !Sw. done.
Qed.


(** ** Histories of blocks *)

Inductive event :=
| EvVerify (bh : Hash) (height : Z) (parent : Hash) (txs : list Tx)
| EvAccept (bh : Hash) (commitBatch : Batch)
| EvReject (bh : Hash).

(** What the block extension calls for each event. *)
Definition exec (ev : event) : StM (AtomicBackend * W) unit :=
  match ev with
  | EvVerify bh height parent txs => _ ← InsertTxs bh height parent txs; mret tt
  | EvAccept bh commitBatch =>
      b ← get_backend; s ← lift (GetVerifiedAtomicState b bh); Accept h s commitBatch
  | EvReject bh => b ← get_backend; s ← lift (GetVerifiedAtomicState b bh); Reject s
  end.

(** A block is verified on a known parent; a verified block above the last accepted one
    is accepted when the values it consumes are there; a verified block is rejected. *)
Definition permitted (ev : event) (b : AtomicBackend) (w : W) (H : Z) : Prop :=
  match ev with
  | EvVerify bh height parent txs =>
      bh <> Hash_zero /\ is_u64 height /\ Forall (parsed h) txs /\ fits_batch txs /\
      exists ops pr, mergeAtomicOps txs = Ok ops /\ ops_ok ops /\ getAtomicRootAt b parent = Ok pr /\
        forall m0, opens w pr = Some m0 -> no_collision w (put_ops height ops m0)
  | EvAccept bh _ => exists s, verifiedRoots b !! bh = Some s /\ H < as_blockHeight s /\
      as_blockHeight s + commitInterval (atomicTrie b) < 2 ^ 64 /\
      (IsBonus b (as_blockHeight s) bh = false -> applicable (as_atomicOps s) w)
  | EvReject bh => is_Some (verifiedRoots b !! bh)
  end.

(** The accepted blocks, the newest first, by height and root. *)
Definition record_event (ev : event) (b : AtomicBackend) (hist : list (Z * Hash)) : list (Z * Hash) :=
  match ev with
  | EvAccept bh _ =>
      match verifiedRoots b !! bh with
      | Some s => (as_blockHeight s, as_atomicRoot s) :: hist
      | None => hist
      end
  | _ => hist
  end.

Definition last_height (H0 : Z) (hist : list (Z * Hash)) : Z :=
  match hist with [] => H0 | (height, _) :: _ => height end.

(** The root at a height: that of the last block accepted at or below it. *)
Fixpoint root_at (r0 : Hash) (hist : list (Z * Hash)) (k : Z) : Hash :=
  match hist with
  | [] => r0
  | (height, root) :: hist' => if height <=? k then root else root_at r0 hist' k
  end.

Inductive history (H0 : Z) : AtomicBackend -> W -> list (Z * Hash) -> AtomicBackend -> W ->
    list (Z * Hash) -> Prop :=
| history_nil b w hist : history H0 b w hist b w hist
| history_step ev b w hist r b1 w1 b' w' hist' :
    permitted ev b w (last_height H0 hist) -> exec ev (b, w) = (r, (b1, w1)) ->
    history H0 b1 w1 (record_event ev b hist) b' w' hist' -> history H0 b w hist b' w' hist'.

(** An event the consensus engine may send never fails, keeps the invariant, and moves
    the committed roots only when it accepts a block. *)
Lemma exec_ok ev b w H0 hist : backend_ok b w (last_height H0 hist) ->
  permitted ev b w (last_height H0 hist) ->
  exists b' w', exec ev (b, w) = (Ok tt, (b', w')) /\
    backend_ok b' w' (last_height H0 (record_event ev b hist)) /\
    commitInterval (atomicTrie b') = commitInterval (atomicTrie b) /\
    match record_event ev b [] with
    | [] => lastAcceptedRoot (atomicTrie b') = lastAcceptedRoot (atomicTrie b) /\
        forall k, getRoot k w' = getRoot k w
    | (height, root) :: _ => last_height H0 hist < height /\ lastAcceptedRoot (atomicTrie b') = root /\
        forall k, k <> 0 -> is_u64 k -> k mod commitInterval (atomicTrie b) = 0 -> getRoot k w' =
          if decide (lastCommittedHeight (atomicTrie b) < k < height)
          then Ok (lastAcceptedRoot (atomicTrie b))
          else if decide (k = height) then Ok root else getRoot k w
    end.
Proof.
  intros Hb HP. pose proof Hb as [Hh _].
  destruct ev as [bh height parent txs|bh cb|bh]; cbn [exec permitted record_event] in *.
  - destruct HP as (Hbh & Hu & Hp & Hf & ops & pr & Hm & Hops & Hpr & Hcol).
    destruct (root_opens b w _ parent pr Hb Hpr) as [m0 Ho].
    destruct (verify_ok b w (last_height H0 hist) bh height parent txs pr m0 ops)
      as (b' & w' & E & Hb' & _ & -> & VM); [done|done|done|done|done|by apply Hcol|done..|].
    eexists _, w'. rewrite (bindM_step _ _ _ _ _ E). split; [done|]. split; [done|]. split; [done|].
    split; [done|]. intros k. rewrite !getRoot_view by (done || apply Hb'). by rewrite VM.
  - destruct HP as (s & Hs & HH & Hmax & Hap).
    destruct (accept_ok b w (last_height H0 hist) bh s cb)
      as (w1 & w2 & w' & E & Hb' & _ & Hh1 & Hh2 & Hh' & _ & G2 & VM & V' & _); [done..|].
    exists (accept_backend b s), w'. rewrite get_backend_bind, lift_bind. unfold GetVerifiedAtomicState.
    rewrite Hs. split; [done|]. split; [done|]. split; [done|]. split; [done|]. split; [done|].
    intros k Hk Hku Hkm. assert (getRoot k w' = getRoot k w2) as ->
      by (rewrite !getRoot_view by done; by rewrite (proj1 (V' _))).
    rewrite G2 by done. repeat case_decide; try done. rewrite !getRoot_view by done. by rewrite VM.
  - destruct HP as [s Hs]. destruct (reject_ok b w (last_height H0 hist) bh s) as (w' & E & Hb' & VM); [done..|].
    eexists _, w'. rewrite get_backend_bind, lift_bind. unfold GetVerifiedAtomicState. rewrite Hs.
    split; [done|]. split; [done|]. split; [done|]. split; [done|].
    intros k. rewrite !getRoot_view by (done || apply Hb'). by rewrite VM.
Qed.

Lemma history_ok H0 b w hist b' w' hist' : history H0 b w hist b' w' hist' ->
  backend_ok b w (last_height H0 hist) -> backend_ok b' w' (last_height H0 hist').
Proof.
  induction 1 as [|ev b w hist r b1 w1 b' w' hist' HP HE _ IH]; [done|]. intros Hb.
  destruct (exec_ok ev b w H0 hist Hb HP) as (b2 & w2 & HE' & Hb2 & _).
  rewrite HE in HE'. injection HE' as -> -> ->. by apply IH.
Qed.

(** C12. However blocks are verified, accepted and rejected, no event of the consensus engine
    ever fails: every undecided block and the last accepted one keep a trie that can be
    opened, so that a child of any of them can be verified, and a verified block can be
    accepted or rejected. *)
Theorem backend_never_stuck H0 b0 w0 b w hist ev :
  backend_ok b0 w0 H0 -> history H0 b0 w0 [] b w hist ->
  (forall bh r, getAtomicRootAt b bh = Ok r -> exists t, OpenTrie r w = Ok t) /\
  (permitted ev b w (last_height H0 hist) -> exists st', exec ev (b, w) = (Ok tt, st')).
Proof.
  intros H0ok Hh. apply history_ok in Hh; [|done]. split.
  - intros bh r Hr. destruct (root_opens b w _ bh r Hh Hr) as [m Ho].
    destruct (trie_New_spec w r m) as (t & Ht & _); [apply Hh|done|]. by exists t.
  - intros HP. destruct (exec_ok ev b w H0 hist Hh HP) as (b' & w' & HE & _). by eexists.
Qed.

Lemma root_at_last r0 H0 hist k : last_height H0 hist <= k ->
  root_at r0 hist k = match hist with [] => r0 | (_, root) :: _ => root end.
Proof. destruct hist as [|[height root] hist]; [done|]. cbn. case_test; [done|lia]. Qed.

Section Roots.
Context (H0 : Z) (b0 : AtomicBackend) (w0 : W) (k : Z).
#[local] Abbreviation r0 := (lastAcceptedRoot (atomicTrie b0)).

Definition roots_inv (b : AtomicBackend) (w : W) (hist : list (Z * Hash)) : Prop :=
  backend_ok b w (last_height H0 hist) /\
  commitInterval (atomicTrie b) = commitInterval (atomicTrie b0) /\ H0 <= last_height H0 hist /\
  lastAcceptedRoot (atomicTrie b) = match hist with [] => r0 | (_, r) :: _ => r end /\
  getRoot k w = if decide (H0 < k <= last_height H0 hist) then Ok (root_at r0 hist k) else getRoot k w0.

(** No multiple of the interval lies between its last multiple and the height. *)
Lemma next_commit ci H : 0 < ci -> k mod ci = 0 -> H - H mod ci < k -> H < k.
Proof.
  intros Hci Hkm Hk. pose proof (Z.div_mod H ci ltac:(lia)) as Hd. pose proof (Z.mod_pos_bound H ci Hci).
  apply Z.mod_divide in Hkm as [z ->]; [|lia]. set (q := H / ci) in *. assert (q < z) by nia. nia.
Qed.

Lemma roots_step ev b w hist b' w' r : is_u64 k -> k <> 0 -> k mod commitInterval (atomicTrie b0) = 0 ->
  roots_inv b w hist -> permitted ev b w (last_height H0 hist) -> exec ev (b, w) = (r, (b', w')) ->
  roots_inv b' w' (record_event ev b hist).
Proof.
  intros Hku Hk0 Hkm (Hb & Hci & HH & Hlar & HG) HP HE.
  destruct (exec_ok ev b w H0 hist Hb HP) as (b2 & w2 & HE' & Hb2 & Hci2 & Hroots).
  rewrite HE in HE'. injection HE' as -> -> ->. split; [done|]. split; [congruence|].
  assert (record_event ev b hist = hist /\ record_event ev b [] = [] \/
    exists height root, record_event ev b hist = (height, root) :: hist /\
      record_event ev b [] = [(height, root)]) as [[E1 E2]|(height & root & E1 & E2)].
  { destruct ev as [| |]; cbn [record_event]; eauto. destruct (verifiedRoots b !! bh); eauto. }
  - rewrite E2 in Hroots. destruct Hroots as [Hr1 Hr2]. rewrite E1, Hr1, Hr2. done.
  - rewrite E2 in Hroots. destruct Hroots as (Hlt & Hr1 & Hr2). rewrite E1. cbn [last_height root_at].
    split; [lia|]. split; [done|]. rewrite Hr2, Hlar, HG by (done || by rewrite Hci).
    destruct Hb as (_ & _ & _ & Hpos & Hnn & HL & _). rewrite HL, Hci. rewrite Hci in Hpos.
    pose proof (next_commit _ (last_height H0 hist) Hpos Hkm) as Hnext.
    pose proof (Z.mod_pos_bound (last_height H0 hist) _ Hpos).
    destruct (Z.leb_spec height k); repeat case_decide; try lia; try done.
    by rewrite (root_at_last _ H0) by lia.
Qed.

(** C29. Every multiple of the commit interval that is passed gets a committed root, and it is
    the root of the last block accepted at or below that height, however the blocks were
    verified, accepted and rejected in between; roots committed earlier are not changed. *)
Theorem committed_roots b w hist :
  backend_ok b0 w0 H0 -> history H0 b0 w0 [] b w hist ->
  is_u64 k -> k <> 0 -> k mod commitInterval (atomicTrie b0) = 0 ->
  getRoot k w = if decide (H0 < k <= last_height H0 hist) then Ok (root_at r0 hist k) else getRoot k w0.
Proof.
  intros H0ok Hh Hku Hk0 Hkm.
  assert (roots_inv b0 w0 []) as Hinv.
  { split; [done|]. do 3 (split; [done|]). cbn [last_height]. by rewrite decide_False by lia. }
  enough (roots_inv b w hist) as (_ & _ & _ & _ & ?) by done.
  assert (forall b1 w1 h1, history H0 b1 w1 h1 b w hist -> roots_inv b1 w1 h1 -> roots_inv b w hist) as Hg.
  { induction 1; [done|]. eauto using roots_step. }
  by eapply Hg.
Qed.

End Roots.

(** ** Operations applied to shared memory *)

(** An entry of the trie, as the iterator reads it. *)
Definition op_height (e : Entry) : Z := be_decode (take 8 (fst e)).
Definition op_chain (e : Entry) : ID := drop 8 (fst e).
Definition op_requests (e : Entry) : Requests :=
  match Codec_Unmarshal (snd e) D_Requests with
  | Ok (_, V_Requests r) => r
  | _ => mkRequests [] []
  end.

Definition entry_wf (e : Entry) : Prop :=
  length (fst e) = TrieKeyLength /\ exists version r, Codec_Unmarshal (snd e) D_Requests = Ok (version, V_Requests r).

(** The operations to apply, in order: up to the last accepted block, bonus blocks left out. *)
Fixpoint todo (bonus : gmap Z ID) (last : Z) (es : list Entry) : list (ID * Requests) :=
  match es with
  | [] => []
  | e :: es' =>
      if last <? op_height e then [] else
      if bool_decide (is_Some (bonus !! op_height e)) then todo bonus last es'
      else (op_chain e, op_requests e) :: todo bonus last es'
  end.

(** The requests made of one chain. *)
Definition chain_ops (c : ID) (l : list (ID * Requests)) : list Requests :=
  snd <$> filter (fun op : ID * Requests => fst op = c) l.

(** The requests applied one after the other. *)
Definition apply_all (l : list (ID * Requests)) (w : W) (c : ID) : option (St * St) :=
  ofold apply_requests (chain_ops c l) (shared w c).

Definition batch_of (l : list (ID * Requests)) : gmap ID Requests :=
  fold_left (fun m op => mergeAtomicOpsToMap m (fst op) (snd op)) l ∅.

Lemma chain_ops_app c l k : chain_ops c (l ++ k) = chain_ops c l ++ chain_ops c k.
Proof. unfold chain_ops. by rewrite list.filter_app, fmap_app. Qed.

Lemma apply_requests_app i1 p1 i2 p2 (s : St * St) :
  apply_requests (mkRequests (i1 ++ i2) (p1 ++ p2)) s =
  apply_requests (mkRequests i1 p1) s ≫= apply_requests (mkRequests i2 p2).
Proof.
  unfold apply_requests. cbn [RemoveRequests PutRequests]. rewrite !ofold_app.
  destruct (ofold st_remove i1 s.1) as [i|]; [|done]. cbn [mbind option_bind].
  destruct (ofold st_put p1 s.2) as [o|]; cbn [mbind option_bind fst snd]; [done|].
  by destruct (ofold st_remove i2 i).
Qed.

(** Merging the operations of a batch and applying them together is applying them one
    after the other. *)
Lemma batch_effect l c (s : St * St) :
  match batch_of l !! c with Some r => apply_requests r s | None => Some s end =
  ofold apply_requests (chain_ops c l) s.
Proof.
  unfold batch_of. induction l as [|[c' r] l IH] using rev_ind; [done|].
  rewrite fold_left_app. cbn [fold_left fst snd]. rewrite chain_ops_app, ofold_app, <- IH. clear IH.
  set (m := fold_left _ l ∅). unfold mergeAtomicOpsToMap.
  destruct (decide (c' = c)) as [->|Hne].
  - assert (chain_ops c [(c, r)] = [r]) as -> by (unfold chain_ops; by rewrite filter_cons_True).
    destruct (m !! c) as [r0|] eqn:Em; rewrite lookup_insert_eq.
    + rewrite apply_requests_app. destruct r0 as [i0 p0], r as [i p].
      cbn [RemoveRequests PutRequests]. destruct (apply_requests (mkRequests i0 p0) s); [|done].
      cbn [mbind option_bind]. by rewrite ofold_1.
    + cbn [mbind option_bind]. by rewrite ofold_1.
  - assert (chain_ops c [(c', r)] = []) as -> by (unfold chain_ops; by rewrite filter_cons_False).
    destruct (m !! c'); rewrite lookup_insert_ne by done; cbn; by destruct (m !! c) as [r1|];
      [destruct (apply_requests r1 s)|].
Qed.

Definition iter_at (es : list Entry) (it : atomicTrieIterator) : Prop :=
  it_rest it = es /\ it_Err it = None /\ it_err it = None.

Lemma it_Next_cons e es it : iter_at (e :: es) it -> entry_wf e ->
  exists it', it_Next it = (true, it') /\ iter_at es it' /\ it_key it' = fst e /\
    it_blockNumber it' = op_height e /\ it_blockchainID it' = op_chain e /\
    it_atomicOps it' = Some (op_requests e).
Proof.
  intros (Hr & HE & He) (Hl & version & r & HU). unfold it_Next, op_requests. rewrite Hr, HE, He, HU.
  destruct e as [k v]. cbn [fst snd] in *. rewrite Hl. cbn [Nat.eqb negb].
  rewrite HU, ToID_eq by (rewrite length_drop, Hl; done). eexists. split; [done|]. done.
Qed.

Lemma it_Next_nil it : iter_at [] it -> exists it', it_Next it = (false, it') /\ it_err it' = None.
Proof. intros (Hr & HE & He). unfold it_Next. rewrite Hr, HE. by eexists. Qed.

Lemma applyBatch_run w l : healthy w -> (forall c, is_Some (apply_all l w c)) ->
  exists w', applyBatch (batch_of l) w = (Ok tt, w') /\ healthy w' /\ keeps_tries w w' /\
    (forall p, view w' p = view w p /\ durable w' p = view w p) /\
    forall c, apply_all l w c = Some (shared w' c).
Proof.
  intros Hh Ha. destruct (CommitBatch_spec w Hh) as [cb Hcb].
  destruct (Apply_spec w (batch_of l) [] cb Hh Hcb) as (w' & E & Hh' & V & [K _] & S).
  { intros c r Hc. specialize (Ha c). unfold apply_all in Ha. rewrite <- batch_effect, Hc in Ha. done. }
  exists w'. split.
  - unfold applyBatch. rewrite (bindM_step _ _ w cb w) by (unfold readM; by rewrite Hcb).
    unfold wrapM. cbn [app] in E. by rewrite E.
  - split; [done|]. split; [done|]. split; [done|]. intros c. unfold apply_all. by rewrite S, batch_effect.
Qed.

(** The stores the loop leaves on disk, one after each batch: what a crash can find. *)
Fixpoint flush_states (fuel : nat) (bonus : gmap Z ID) (last : Z) (it : atomicTrieIterator)
    (batchOps : gmap ID Requests) (pending : Z) (w : W) : list W :=
  match fuel with
  | O => []
  | S fuel' =>
      let '(more, it) := it_Next it in
      if negb more then [] else
      let height := it_blockNumber it in
      if last <? height then [] else
      if bool_decide (is_Some (bonus !! height))
      then flush_states fuel' bonus last it batchOps pending w else
      match it_atomicOps it with
      | None => []
      | Some atomicOps =>
          let pending := pending + Z.of_nat (length (PutRequests atomicOps))
                                 + Z.of_nat (length (RemoveRequests atomicOps)) in
          let batchOps := mergeAtomicOpsToMap batchOps (it_blockchainID it) atomicOps in
          if sharedMemoryApplyBatchSize <? pending then
            let '(_, w') := (_ ← db_Put atomicTrieMetaDBPrefix appliedSharedMemoryCursorKey (it_key it);
                             applyBatch batchOps) w in
            w' :: flush_states fuel' bonus last it ∅ 0 w'
          else flush_states fuel' bonus last it batchOps pending w
      end
  end.

(** The cursor is moved and the batch applied, together. *)
Lemma flush_cursor w l key : healthy w -> (forall c, is_Some (apply_all l w c)) ->
  exists w1 w', db_Put atomicTrieMetaDBPrefix appliedSharedMemoryCursorKey key w = (Ok tt, w1) /\
    applyBatch (batch_of l) w1 = (Ok tt, w') /\ healthy w' /\ keeps_tries w w' /\
    (forall p, durable w' p = view w' p) /\
    view w' atomicTrieMetaDBPrefix = <[appliedSharedMemoryCursorKey := key]> (view w atomicTrieMetaDBPrefix) /\
    (forall p, p <> atomicTrieMetaDBPrefix -> view w' p = view w p) /\
    forall c, apply_all l w c = Some (shared w' c).
Proof.
  intros Hh Ha.
  destruct (Put_spec w atomicTrieMetaDBPrefix appliedSharedMemoryCursorKey key)
    as (w1 & E1 & (Hh1 & S1 & K1 & _) & V1 & F1); [done..|].
  assert (forall c, apply_all l w1 c = apply_all l w c) as HA by (intros c; unfold apply_all; by rewrite S1).
  destruct (applyBatch_run w1 l) as (w' & E2 & Hh' & K2 & V2 & S2); [done|intros c; by rewrite HA|].
  exists w1, w'. split; [done|]. split; [done|]. split; [done|]. split; [by eapply keeps_tries_trans|].
  split; [intros p; by rewrite (proj1 (V2 p)), (proj2 (V2 p))|]. split; [by rewrite (proj1 (V2 _))|].
  split; [intros p Hp; by rewrite (proj1 (V2 p)), F1|]. intros c. by rewrite <- HA.
Qed.

Lemma batch_of_snoc l c r : mergeAtomicOpsToMap (batch_of l) c r = batch_of (l ++ [(c, r)]).
Proof. unfold batch_of. by rewrite fold_left_app. Qed.

Lemma apply_all_app l k w w' c : apply_all l w c = Some (shared w' c) ->
  apply_all (l ++ k) w c = apply_all k w' c.
Proof. unfold apply_all. rewrite chain_ops_app, ofold_app. by intros ->. Qed.

Lemma apply_all_prefix l k w c : is_Some (apply_all (l ++ k) w c) -> is_Some (apply_all l w c).
Proof.
  unfold apply_all. rewrite chain_ops_app, ofold_app. destruct (ofold apply_requests (chain_ops c l) _); [eauto|].
  by intros [? ?].
Qed.

Lemma applyLoop_run bonus last es : Forall entry_wf es -> forall fuel it acc pending w,
  (length es < fuel)%nat -> iter_at es it -> healthy w ->
  (forall c, is_Some (apply_all (acc ++ todo bonus last es) w c)) ->
  exists it' acc' w', applyLoop fuel bonus last it (batch_of acc) pending w = (Ok (it', batch_of acc'), w') /\
    it_err it' = None /\ healthy w' /\ keeps_tries w w' /\
    (forall c, apply_all (acc ++ todo bonus last es) w c = apply_all acc' w' c).
Proof.
  induction 1 as [|e es He _ IH]; intros [|fuel] it acc pending w Hf Hit Hh Ha; try (cbn in Hf; lia).
  - cbn [applyLoop]. destruct (it_Next_nil it Hit) as (it' & -> & Herr). cbn [negb].
    exists it', acc, w. split; [done|]. split; [done|]. split; [done|]. split; [by intros q|].
    intros c. cbn [todo]. by rewrite app_nil_r.
  - cbn [applyLoop]. destruct (it_Next_cons e es it Hit He) as (it1 & -> & Hit1 & Hk & Hn & Hc & Ho).
    cbn [negb]. rewrite Hn. cbn [todo] in *. destruct (last <? op_height e) eqn:El.
    { exists it1, acc, w. split; [done|]. split; [apply Hit1|]. split; [done|]. split; [by intros q|].
      intros c. by rewrite app_nil_r. }
    case_bool_decide as Hb; [apply IH; [cbn in Hf; lia|done..]|].
    rewrite Ho, Hc, Hk, batch_of_snoc. set (acc1 := acc ++ [(op_chain e, op_requests e)]).
    assert (acc ++ (op_chain e, op_requests e) :: todo bonus last es = acc1 ++ todo bonus last es) as Eacc
      by (unfold acc1; by rewrite <- app_assoc).
    rewrite Eacc in Ha |- *. case_test; [|apply IH; [cbn in Hf; lia|done..]].
    destruct (flush_cursor w acc1 (fst e)) as (w1 & w2 & E1 & E2 & Hh2 & K2 & _ & _ & _ & S2);
      [done|intros c; by eapply apply_all_prefix|].
    rewrite (bindM_step _ _ _ _ _ E1), (bindM_step _ _ _ _ _ E2).
    destruct (IH fuel it1 [] 0 w2) as (it' & acc' & w' & E' & Herr & Hh' & K' & S');
      [cbn in Hf; lia|done|done| |].
    { intros c. cbn [app]. rewrite <- (apply_all_app acc1 _ w w2) by done. apply Ha. }
    exists it', acc', w'. split; [exact E'|]. split; [done|]. split; [done|].
    split; [by eapply keeps_tries_trans|]. intros c. rewrite <- S'. by apply apply_all_app.
Qed.

(** After each batch the store holds, on disk, the effect of the operations up to the one
    the cursor names. *)
Lemma flush_states_spec bonus last es : Forall entry_wf es -> forall fuel it acc pending w w2,
  iter_at es it -> healthy w -> (forall c, is_Some (apply_all (acc ++ todo bonus last es) w c)) ->
  w2 ∈ flush_states fuel bonus last it (batch_of acc) pending w ->
  exists es1 e es2, es = es1 ++ e :: es2 /\
    todo bonus last es = todo bonus last (es1 ++ [e]) ++ todo bonus last es2 /\
    (forall p, durable w2 p = view w2 p) /\
    view w2 atomicTrieMetaDBPrefix !! appliedSharedMemoryCursorKey = Some (fst e) /\
    forall c, apply_all (acc ++ todo bonus last (es1 ++ [e])) w c = Some (shared w2 c).
Proof.
  induction 1 as [|e es He _ IH]; intros [|fuel] it acc pending w w2 Hit Hh Ha Hin;
    try (by apply not_elem_of_nil in Hin); cbn [flush_states] in Hin.
  { destruct (it_Next_nil it Hit) as (it' & Hn & _). rewrite Hn in Hin. by apply not_elem_of_nil in Hin. }
  destruct (it_Next_cons e es it Hit He) as (it1 & Hnx & Hit1 & Hk & Hn & Hc & Ho).
  rewrite Hnx in Hin. cbn [negb] in Hin. rewrite Hn in Hin. cbn [todo] in *.
  destruct (last <? op_height e) eqn:El; [by apply not_elem_of_nil in Hin|].
  case_bool_decide as Hb.
  { edestruct (IH fuel it1 acc pending w w2) as (es1 & e1 & es2 & -> & Ht & Hd & Hv & HS); [done..|].
    exists (e :: es1), e1, es2. cbn [app todo]. rewrite El, bool_decide_eq_true_2 by done. done. }
  rewrite Ho, Hc, Hk, batch_of_snoc in Hin. set (op := (op_chain e, op_requests e)) in *.
  set (acc1 := acc ++ [op]) in *.
  assert (forall l, acc ++ op :: l = acc1 ++ l) as Eacc by (intros l; unfold acc1; by rewrite <- app_assoc).
  assert (forall k w0 w3 a, w3 ∈ flush_states fuel bonus last it1 (batch_of a) k w0 -> healthy w0 ->
    (forall c, is_Some (apply_all (a ++ todo bonus last es) w0 c)) ->
    (forall c l, apply_all (acc1 ++ l) w c = apply_all (a ++ l) w0 c) ->
    exists es1 e0 es2, e :: es = es1 ++ e0 :: es2 /\
      op :: todo bonus last es = todo bonus last (es1 ++ [e0]) ++ todo bonus last es2 /\
      (forall p, durable w3 p = view w3 p) /\
      view w3 atomicTrieMetaDBPrefix !! appliedSharedMemoryCursorKey = Some (fst e0) /\
      forall c, apply_all (acc ++ todo bonus last (es1 ++ [e0])) w c = Some (shared w3 c)) as Hrest.
  { intros k w0 w3 a Hin' Hh0 Ha0 Heq.
    edestruct (IH fuel it1 a k w0 w3) as (es1 & e1 & es2 & -> & Ht & Hd & Hv & HS); [done..|].
    exists (e :: es1), e1, es2. cbn [app todo]. rewrite El, bool_decide_eq_false_2 by done. fold op.
    rewrite Ht. split; [done|]. split; [done|]. split; [done|]. split; [done|]. intros c.
    by rewrite Eacc, Heq. }
  rewrite Eacc in Ha. destruct (_ <? _) in Hin; [|by eapply Hrest].
  destruct (flush_cursor w acc1 (fst e)) as (w1 & wf & E1 & E2 & Hhf & _ & Vd & VM & _ & S2);
    [done|intros c; by eapply apply_all_prefix|].
  rewrite (bindM_step _ _ _ _ _ E1), E2 in Hin. apply elem_of_cons in Hin as [->|Hin].
  - exists [], e, es. cbn [app todo]. rewrite El, bool_decide_eq_false_2 by done. fold op.
    split; [done|]. split; [done|]. split; [done|]. split; [by rewrite VM, lookup_insert_eq|].
    intros c. fold acc1. apply S2.
  - eapply (Hrest 0 wf w2 []); [done|done| |].
    + intros c. cbn [app]. rewrite <- (apply_all_app acc1 _ w wf) by done. apply Ha.
    + intros c l. by apply apply_all_app.
Qed.

(** The entries come in the order of their heights, so that stopping at the first one
    above the last accepted block leaves out exactly those above it. *)
Definition pending_ops (bonus : gmap Z ID) (last : Z) (es : list Entry) : list (ID * Requests) :=
  (fun e => (op_chain e, op_requests e)) <$>
    filter (fun e => op_height e <= last /\ bonus !! op_height e = None) es.

Lemma todo_pending bonus last es : StronglySorted key_lt es -> Forall entry_wf es ->
  todo bonus last es = pending_ops bonus last es.
Proof.
  unfold pending_ops. induction 1 as [|e es _ IH Hlt]; [done|]. inversion_clear 1 as [|? ? He Hwf].
  cbn [todo]. destruct (Z.ltb_spec last (op_height e)) as [Hl|Hl].
  - rewrite filter_cons_False by lia.
    assert (filter (fun e => op_height e <= last /\ bonus !! op_height e = None) es = []) as ->; [|done].
    apply elem_of_nil_inv. intros x [[Hxl _] Hx]%list_elem_of_filter.
    rewrite list.Forall_forall in Hlt, Hwf. specialize (Hlt x Hx). specialize (Hwf x Hx).
    apply (bytes.Compare_take 8) in Hlt; [|rewrite (proj1 He) || rewrite (proj1 Hwf); cbv; lia..].
    unfold op_height in *. lia.
  - case_bool_decide as Hb.
    + rewrite filter_cons_False; [by apply IH|]. intros [_ Hn]. rewrite Hn in Hb. by destruct Hb.
    + rewrite filter_cons_True; [rewrite fmap_cons; f_equal; by apply IH|].
      split; [done|]. by apply eq_None_not_Some.
Qed.

(** A cursor that is a height starts there; one that is a key starts after it. *)
Definition after_cursor (cursor : list byte) (es : list Entry) : list Entry :=
  if (8 <? length cursor)%nat then drop 1 es else es.

Lemma ApplyToSharedMemory_run b last w cursor m es :
  healthy w -> view w atomicTrieMetaDBPrefix !! appliedSharedMemoryCursorKey = Some cursor ->
  length cursor = 8%nat \/ length cursor = TrieKeyLength ->
  opens w (lastCommittedRoot (atomicTrie b)) = Some m -> entries_from cursor m es -> Forall entry_wf es ->
  (forall c, is_Some (apply_all (todo (bonusBlocks b) last (after_cursor cursor es)) w c)) ->
  exists w', ApplyToSharedMemory b last w = (Ok tt, w') /\ healthy w' /\
    (forall c, apply_all (todo (bonusBlocks b) last (after_cursor cursor es)) w c = Some (shared w' c)) /\
    view w' atomicTrieMetaDBPrefix !! appliedSharedMemoryCursorKey = None /\
    (forall p, durable w' p = view w' p).
Proof.
  intros Hh Hc Hlen Ho Hes Hwf Ha.
  destruct (trie_New_spec w _ m Hh Ho) as (t & ET & Ht & Hct & _).
  destruct (trie_Iterator_spec t cursor Ht) as (es' & EI & Hes'). rewrite Hct in Hes'.
  rewrite (entries_from_unique _ _ _ _ Hes' Hes) in EI. clear es' Hes'.
  assert (exists it, cursorIterator (lastCommittedRoot (atomicTrie b)) cursor w = Ok it /\
            iter_at (after_cursor cursor es) it) as (it & Eit & Hit).
  { unfold cursorIterator, Iterator, after_cursor. rewrite ET. cbn [mbind result_bind]. rewrite EI. cbn [fst snd].
    destruct Hlen as [Hl|Hl]; rewrite Hl; cbn [Nat.ltb Nat.leb TrieKeyLength Nat.add].
    - eexists. split; [done|]. done.
    - rewrite ToID_eq by (rewrite length_drop, Hl; done). eexists. split; [done|].
      destruct es as [|e es]; [done|]. inversion_clear Hwf.
      cbn [fst snd]. destruct (it_Next_cons e es (NewAtomicTrieIterator (e :: es) None)) as (it' & -> & Hit' & _); done. }
  assert (Forall entry_wf (after_cursor cursor es)) as Hwf'
    by (unfold after_cursor; destruct (8 <? length cursor)%nat; [by apply Forall_drop|done]).
  destruct (applyLoop_run (bonusBlocks b) last _ Hwf' (S (length (it_rest it))) it [] 0 w)
    as (it' & acc & w1 & E1 & Herr & Hh1 & _ & S1); [rewrite (proj1 Hit); lia|done..|].
  destruct (Delete_spec w1 atomicTrieMetaDBPrefix appliedSharedMemoryCursorKey Hh1)
    as (w2 & E2 & (Hh2 & S2 & _) & V2 & _); [done|].
  assert (forall c, apply_all acc w2 c = apply_all acc w1 c) as HA by (intros c; unfold apply_all; by rewrite S2).
  destruct (applyBatch_run w2 acc Hh2) as (w' & E3 & Hh' & _ & V3 & S3).
  { intros c. rewrite HA, <- S1. apply Ha. }
  exists w'. split.
  { unfold ApplyToSharedMemory. erewrite bindM_step by (unfold readM; by rewrite Get_spec, Hc).
    cbv beta iota.     erewrite bindM_step by (unfold readM; by rewrite Eit).
    rewrite (bindM_step _ _ _ _ _ E1). cbn [fst snd]. rewrite Herr.
    by rewrite (bindM_step _ _ w1 tt w1), (bindM_step _ _ _ _ _ E2). }
  split; [done|]. split; [intros c; rewrite <- S3, HA; apply S1|].
  split; [rewrite (proj1 (V3 _)), V2; apply lookup_delete_eq|].
  intros p. by rewrite (proj1 (V3 p)), (proj2 (V3 p)).
Qed.

(** The state a restart finds after a crash: what was on disk. *)
Definition restarts (w w' : W) : Prop :=
  healthy w' /\ keeps_shared w w' /\ forall p, view w' p = durable w p.


(** ** Initialization *)

(** The root of an inserted trie is accepted, without going through a verified block. *)
Lemma accept_inserted b w H w1 height m ms :
  backend_ok b w H -> adds ms w w1 -> (forall p, p <> atomicTrieDBPrefix -> view w1 p = view w p) ->
  opens w1 (trie_root m) = Some m -> (forall n, held w (trie_root m) n -> held w1 (trie_root m) (S n)) ->
  H < height -> height + commitInterval (atomicTrie b) < 2 ^ 64 ->
  let b' := with_trie b (accepted (atomicTrie b) height (trie_root m)) in
  exists w2 c, on_trie (AcceptTrie height (trie_root m)) (b, w1) = (Ok c, (b', w2)) /\
    backend_ok b' w2 height /\ opens w2 (trie_root m) = Some m /\ gains ms w w2 /\
    (forall p, p <> atomicTrieDBPrefix -> p <> atomicTrieMetaDBPrefix -> view w2 p = view w p).
Proof.
  intros Hb D F Ho Hh1 HH Hmax b'. pose proof Hb as (Hh & Hrep & Hr & Hci & H0 & HL & Hv).
  pose proof (Z.mod_pos_bound H (commitInterval (atomicTrie b)) Hci).
  pose proof (Z.mod_le H (commitInterval (atomicTrie b)) H0 Hci).
  pose proof (refs_ok_insert (uses b) w w1 m Hr (proj1 (proj2 (proj2 D))) Ho Hh1) as Hr1.
  assert (in_step (atomicTrie b) w1 height) as Hst.
  { destruct (in_use b w H _ Hb (last_in_use b)) as [[m' Ho'] Hl]. split_and!; try done; try lia.
    - by rewrite HL, Zminus_mod_idemp_r, Z.sub_diag.
    - exists m'. by apply D. }
  destruct (AcceptTrie_run (atomicTrie b) w1 height (trie_root m)) as (w2 & E2 & R2 & F2 & _);
    [apply D|done|by eauto|apply trie_root_length|]. pose proof R2 as (Hh2 & _ & R2a & R2b & G2).
  exists w2. eexists. split; [unfold on_trie; by rewrite E2|]. split; [|split; [|split]].
  - split; [done|]. split; [unfold repo_ok; rewrite !F2, !F by done; exact Hrep|]. split; [|split; [done|split; [lia|done]]].
    eapply refs_ok_released; [exact R2| |exact Hr1]. intros r. cbn beta. unfold uses.
    cbn [b' with_trie atomicTrie verifiedRoots accepted lastAcceptedRoot]. lia.
  - pose proof (last_in_use b) as Hlu.
    destruct (decide (trie_root m = lastAcceptedRoot (atomicTrie b))) as [E|Hne].
    + destruct (uses b (trie_root m)) as [|k] eqn:Ek; [rewrite <- E in Hlu; lia|].
      destruct (Hr1 (trie_root m) (S k)) as (Hk & _); [cbn beta; rewrite decide_True, Ek by done; lia|].
      rewrite <- E in R2a. by apply (R2a k).
    + destruct (Hr1 (trie_root m) (uses b (trie_root m))) as (Hk & _); [rewrite decide_True by done; lia|].
      by apply (R2b _ (uses b (trie_root m))).
  - rewrite <- (app_nil_r ms). eapply gains_trans; [apply D|exact G2].
  - intros p Hp1 Hp2. by rewrite F2, F.
Qed.

(** An entry of the repository's height index, the operations of its block, and the trie
    with them put in. *)
Definition block_ops (e : Entry) : gmap ID Requests :=
  match (txs ← ExtractAtomicTxs h (snd e) true; mergeAtomicOps txs) with Ok ops => ops | _ => ∅ end.

Definition indexed_ok (e : Entry) : Prop :=
  length (fst e) = 8%nat /\ exists txs ops, ExtractAtomicTxs h (snd e) true = Ok txs /\
    mergeAtomicOps txs = Ok ops /\ ops_ok ops.

Definition put_block (m : KV) (e : Entry) : KV := put_ops (op_height e) (block_ops e) m.

Fixpoint last_indexed (H : Z) (es : list Entry) : Z :=
  match es with [] => H | e :: es' => last_indexed (op_height e) es' end.

(** The tries the loop goes through. *)
Fixpoint stages (m : KV) (es : list Entry) : list KV :=
  match es with [] => [] | e :: es' => put_block m e :: stages (put_block m e) es' end.

(** No two of the tries share a root, nor does one with another trie of the database. *)
Definition collision_free (w : W) (ms : list KV) : Prop :=
  forall m, m ∈ ms -> no_collision w m /\ forall m', m' ∈ ms -> trie_root m = trie_root m' -> m = m'.

Lemma collision_free_step w w' m ms : collision_free w (m :: ms) -> gains [m] w w' -> collision_free w' ms.
Proof.
  intros Hc G m1 Hm1. destruct (Hc m1) as [Hn Hp]; [by apply list_elem_of_further|]. split.
  - intros m2 [Ho|[->%list_elem_of_singleton E]]%G; [by apply Hn|]. symmetry. apply Hp; [|done]. apply list_elem_of_here.
  - intros m2 Hm2. apply Hp. by apply list_elem_of_further.
Qed.

(** The part of the loop's state that stays. *)
Definition same_frame (b b' : AtomicBackend) : Prop :=
  bonusBlocks b' = bonusBlocks b /\ lastAcceptedHash b' = lastAcceptedHash b /\
  verifiedRoots b' = verifiedRoots b /\
  commitInterval (atomicTrie b') = commitInterval (atomicTrie b).

Lemma indexHeight_run e es b w H tr m :
  backend_ok b w H -> trie_ok tr -> contents tr = m -> opened tr = m ->
  origin tr = lastAcceptedRoot (atomicTrie b) ->
  opens w (lastAcceptedRoot (atomicTrie b)) = Some m -> indexed_ok e -> H < op_height e ->
  op_height e + commitInterval (atomicTrie b) < 2 ^ 64 -> no_collision w (put_block m e) ->
  exists b' w' tr', indexHeights h (e :: es) tr H (b, w) = indexHeights h es tr' (op_height e) (b', w') /\
    same_frame b b' /\ backend_ok b' w' (op_height e) /\ trie_ok tr' /\ contents tr' = put_block m e /\ opened tr' = put_block m e /\
    origin tr' = lastAcceptedRoot (atomicTrie b') /\
    lastAcceptedRoot (atomicTrie b') = trie_root (put_block m e) /\
    opens w' (lastAcceptedRoot (atomicTrie b')) = Some (put_block m e) /\ gains [put_block m e] w w'.
Proof.
  intros Hb Ht Hc Hop Hor Ho (Hl & txs & ops & HE & HM & Hops) HH Hmax Hcol. pose proof Hb as (Hh & _).
  assert (block_ops e = ops) as Hbo by (unfold block_ops; by rewrite HE; cbn; rewrite HM).
  destruct (UpdateTrie_run (op_height e) ops tr Ht Hops) as (t & EU & Ht' & [Hor' Hop'] & Hc').
  assert (contents t = put_block m e) as Hct by (unfold put_block; by rewrite Hbo, <- Hc).
  destruct (InsertTrie_run (atomicTrie b) w t Hh Ht') as (w1 & EI & D & Ho1 & Hh1 & F);
    [by rewrite Hor', Hor, Hop', Hop|by rewrite Hct|]. rewrite Hct in *.
  destruct (accept_inserted b w H w1 (op_height e) (put_block m e) [put_block m e])
    as (w2 & c & E2 & Hb2 & Ho2 & G2 & F2); [done..|].
  set (b' := with_trie b _) in *.
  assert (exists w3, (if c : bool then on_store db_Commit else mret tt) (b', w2) = (Ok tt, (b', w3)) /\
            db_step w2 w3 /\ forall p, view w3 p = view w2 p) as (w3 & E3 & D3 & V3).
  { destruct c; [|exists w2; split; [done|by split; [apply db_step_refl, Hb2|]]].
    destruct (Commit_spec w2) as (w3 & E3 & D3 & V3); [apply Hb2|]. exists w3.
    split; [unfold on_store, on_snd; cbn [fst snd]; by rewrite E3|]. split; [done|]. intros p. apply V3. }
  assert (opens w3 (trie_root (put_block m e)) = Some (put_block m e)) as Ho3 by by apply D3.
  destruct (trie_New_spec w3 (trie_root (put_block m e)) (put_block m e)) as (tr' & ET & Htr & Hctr & Hortr & Hoptr);
    [apply D3|done|].
  exists b', w3, tr'. split; [|split; [done|split; [|by split_and!; [..|apply (gains_trans [_] [] w w2); [|apply D3]]]]].
  - destruct e as [key value]. cbn [indexHeights]. cbn [fst snd] in *. destruct (Nat.ltb_spec (length key) 8); [lia|].
    rewrite lift_bind, HE, lift_bind, HM, lift_bind. unfold op_height in EU. cbn [fst] in EU. rewrite EU.
    cbn [mbind result_bind]. rewrite (surjective_pairing (trie_Commit t)), trie_Commit_root, Hct by done.
    erewrite (on_trie_bind (InsertTrie _ _)) by exact EI. rewrite with_trie_id.
    rewrite (bindM_step _ _ _ _ _ E2), (bindM_step _ _ _ _ _ E3).
    erewrite on_store_bind by (unfold readM, OpenTrie; by rewrite ET). done.
  - destruct Hb2 as (_ & Hrep2 & Hr2 & Hrest). split; [apply D3|]. split; [unfold repo_ok; by rewrite !V3|].
    split; [|done]. eapply refs_ok_keeps; [apply D3|done].
Qed.

Lemma indexHeights_run es : Forall indexed_ok es -> forall b w H tr m,
  backend_ok b w H -> trie_ok tr -> contents tr = m -> opened tr = m ->
  origin tr = lastAcceptedRoot (atomicTrie b) -> lastAcceptedRoot (atomicTrie b) = trie_root m -> opens w (lastAcceptedRoot (atomicTrie b)) = Some m ->
  StronglySorted Z.lt (H :: (op_height <$> es)) ->
  Forall (fun e => op_height e + commitInterval (atomicTrie b) < 2 ^ 64) es ->
  collision_free w (stages m es) ->
  exists b' w', indexHeights h es tr H (b, w) = (Ok (last_indexed H es), (b', w')) /\
    same_frame b b' /\ backend_ok b' w' (last_indexed H es) /\
    lastAcceptedRoot (atomicTrie b') = trie_root (fold_left put_block es m) /\
    opens w' (lastAcceptedRoot (atomicTrie b')) = Some (fold_left put_block es m).
Proof.
  induction 1 as [|e es He _ IH]; intros b w H tr m Hb Ht Hc Hop Hor Hlar Ho HS Hmax Hcol.
  { exists b, w. by split. }
  inversion_clear HS as [|? ? HS' Hgt]. inversion_clear Hgt as [|? ? HH _].
  inversion_clear Hmax as [|? ? Hm1 Hm2].
  destruct (indexHeight_run e es b w H tr m) as (b1 & w1 & tr1 & E1 & Fr & Hb1 & Ht1 & Hc1 & Hop1 & Hor1 & Hlar1 & Ho1 & G1);
    [done..|by apply Hcol, list_elem_of_here|].
  destruct (IH b1 w1 (op_height e) tr1 (put_block m e)) as (b' & w' & E & Fr' & Hb' & Ho');
    [done..|by rewrite (proj2 (proj2 (proj2 Fr)))|by eapply collision_free_step|].
  exists b', w'. rewrite E1. split; [done|]. split; [|done].
  destruct Fr as (? & ? & ? & ?), Fr' as (? & ? & ? & ?). split_and!; congruence.
Qed.

(** The heights an iteration of the index from [L + 1] goes through. *)
Lemma indexed_sorted w L es : 0 <= L < MaxUint64 -> Forall indexed_ok es ->
  entries_from (be_encode 8 (L + 1)) (view w atomicHeightTxDBPrefix) es ->
  StronglySorted Z.lt (L :: (op_height <$> es)).
Proof.
  intros HL Hok [HS HE]. constructor.
  - clear -HS Hok. induction HS as [|e es _ IH Hlt]; [constructor|]. inversion_clear Hok as [|? ? He Hok'].
    rewrite fmap_cons. constructor; [by apply IH|]. apply list.Forall_fmap, list.Forall_forall.
    rewrite list.Forall_forall in Hlt, Hok'. intros x Hx. specialize (Hlt x Hx). destruct (Hok' x Hx) as [Hlx _].
    destruct He as [Hle _]. unfold key_lt in Hlt. apply bytes.Compare_be_decode in Hlt; [|congruence].
    unfold op_height. cbn. by rewrite !take_ge by lia.
  - apply list.Forall_fmap, list.Forall_forall. intros [k v] Hin.
    rewrite list.Forall_forall in Hok. destruct (Hok _ Hin) as [Hk _]. cbn [fst] in Hk.
    apply HE in Hin as [_ Hle]. unfold op_height. cbn. rewrite take_ge by lia.
    destruct (decide (bytes.Compare (be_encode 8 (L + 1)) k = 0)) as [<-%bytes.Compare_eq|Hne].
    + rewrite be_decode_encode by (unfold MaxUint64 in *; lia). lia.
    + assert (bytes.Compare (be_encode 8 (L + 1)) k < 0) as HC by lia.
      apply bytes.Compare_be_decode in HC; [|by rewrite length_be_encode].
      rewrite be_decode_encode in HC by (unfold MaxUint64 in *; lia). lia.
Qed.

(** C30. Starting a node brings the trie up to date: from the last committed root, the
    operations of every later height of the repository are put in, in order, and the
    result, up to the last accepted height, is the last accepted trie; the backend's
    invariant holds from then on. *)
Theorem initialize_catches_up b w lastHeight m es :
  let L := lastCommittedHeight (atomicTrie b) in
  backend_ok b w L -> lastCommittedRoot (atomicTrie b) = trie_root m ->
  lastAcceptedRoot (atomicTrie b) = trie_root m -> opens w (trie_root m) = Some m -> L < MaxUint64 ->
  entries_from (be_encode 8 (L + 1)) (view w atomicHeightTxDBPrefix) es -> Forall indexed_ok es ->
  Forall (fun e => op_height e + commitInterval (atomicTrie b) < 2 ^ 64) es ->
  lastHeight + commitInterval (atomicTrie b) < 2 ^ 64 ->
  collision_free w (stages m es) ->
  exists b' w', initialize h lastHeight (b, w) = (Ok tt, (b', w')) /\ same_frame b b' /\
    backend_ok b' w' (Z.max lastHeight (last_indexed L es)) /\
    opens w' (lastAcceptedRoot (atomicTrie b')) = Some (fold_left put_block es m).
Proof.
  intros L Hb Hlcr Hlar Ho HL Hes Hok Hmax Hlast Hcol.
  pose proof Hb as (Hh & _ & _ & _ & HL0 & _).
  destruct (Iterator_spec w atomicHeightTxDBPrefix (be_encode 8 (L + 1)) Hh) as (es' & EI & Hes').
  rewrite (entries_from_unique _ _ _ _ Hes' Hes) in EI. clear es' Hes'.
  destruct (trie_New_spec w (trie_root m) m Hh Ho) as (tr & ET & Ht & Hct & Hor & Hop).
  destruct (indexHeights_run es Hok b w L tr m) as (b1 & w1 & E1 & Fr & Hb1 & Hr1 & Ho1);
    [done|done|done|done|by rewrite Hor|done|by rewrite Hlar|by apply (indexed_sorted w)|done|done|].
  set (M := fold_left put_block es m) in *.
  assert (initialize h lastHeight (b, w) =
    (if last_indexed L es <? lastHeight then
       b ← get_backend;
       _ ← on_trie (InsertTrie None (lastAcceptedRoot (atomicTrie b)));
       _ ← on_trie (AcceptTrie lastHeight (lastAcceptedRoot (atomicTrie b)));
       mret tt
     else mret tt) (b1, w1)) as ->.
  { unfold initialize, LastCommitted. rewrite get_backend_bind. cbn beta iota. fold L.
    rewrite (Z.mod_small (L + 1)) by (unfold MaxUint64 in *; lia).
    erewrite on_store_bind by (unfold readM, IterateByHeight; by rewrite EI).
    erewrite on_store_bind by (unfold readM, OpenTrie; by rewrite Hlcr, ET).
    cbn [fst snd]. rewrite (bindM_step _ _ _ _ _ E1). done. }
  destruct (Z.ltb_spec (last_indexed L es) lastHeight) as [Hlt|Hge].
  - rewrite get_backend_bind. rewrite Hr1 in *.
    destruct (referenceAndCap_run (atomicTrie b1) w1 (trie_root M)) as (w2 & E2 & D2 & H2 & F2);
      [apply Hb1|by eauto|].
    erewrite on_trie_bind by exact E2. rewrite with_trie_id.
    destruct (accept_inserted b1 w1 (last_indexed L es) w2 lastHeight M [])
      as (w3 & c & E3 & Hb3 & Ho3 & _); [done|done|done|by apply D2|done|done| |].
    { by rewrite (proj2 (proj2 (proj2 Fr))). }
    rewrite (bindM_step _ _ _ _ _ E3). eexists _, w3. split; [done|]. split; [done|].
    rewrite Z.max_l by lia. done.
  - exists b1, w1. split; [done|]. split; [done|]. rewrite Z.max_r by lia. done.
Qed.

End Spec.

End backend.
