(* ===== verification/StoreConcrete.v ===== *)
(** * An in-memory store

    An instance of the interfaces of [Store]: maps for the database and its disk, sets of
    values for the shared memory, and a trie database that counts references. It shows
    that the laws of [StoreSpec] can hold together and lets the theorems proved against
    the interface be applied to concrete runs. *)

From Stdlib Require Import Sorting.Sorted.
From S2P Require Import Prelude GoStd AtomicTypes Store AtomicRepo.
Import atomic repo.

Module StoreConcrete.

(** ** Sorted iteration *)

Abbreviation less := (fun x y : Entry => bytes.Compare (fst x) (fst y) <? 0).

Lemma key_lt_trans x y z : key_lt x y -> key_lt y z -> key_lt x z.
Proof. apply bytes.Compare_lt_trans. Qed.

Lemma insert_sorted x l : x.1 ∉ l.*1 -> StronglySorted key_lt l -> StronglySorted key_lt (sort.insert less x l).
Proof.
  intros Hx HS. induction HS as [|y l HS IH Hy]; [repeat constructor|].
  rewrite fmap_cons, not_elem_of_cons in Hx. destruct Hx as [Hne Hx]. cbn [sort.insert].
  destruct (Z.ltb_spec (bytes.Compare x.1 y.1) 0) as [Hlt|Hge].
  - constructor; [by constructor|]. constructor; [done|]. eapply list.Forall_impl; [exact Hy|].
    intros z Hz. by eapply key_lt_trans.
  - constructor; [by apply IH|]. rewrite sort.insert_Permutation. constructor; [|done].
    unfold key_lt. rewrite bytes.Compare_antisym.
    assert (bytes.Compare x.1 y.1 <> 0) by (intros E%bytes.Compare_eq; done). lia.
Qed.

Lemma Sort_sorted l : NoDup (l.*1) -> StronglySorted key_lt (sort.Sort less l).
Proof.
  unfold sort.Sort.
  enough (forall acc, NoDup ((l ++ acc).*1) -> StronglySorted key_lt acc ->
            StronglySorted key_lt (fold_left (fun acc x => sort.insert less x acc) l acc)) as Hg.
  { intros Hn. apply Hg; [by rewrite app_nil_r|constructor]. }
  induction l as [|x l IH]; intros acc Hn HS; [done|]. cbn [fold_left].
  rewrite fmap_app, fmap_cons in Hn. apply list.NoDup_cons in Hn as [Hx Hn].
  apply IH; [|by apply insert_sorted; [apply not_elem_of_app in Hx as [_ Hx]|]].
  rewrite fmap_app, (sort.insert_Permutation less x acc), fmap_cons, <- Permutation_middle.
  by apply list.NoDup_cons.
Qed.

Lemma NoDup_keys_filter (P : Entry -> Prop) `{forall x, Decision (P x)} l : NoDup (l.*1) -> NoDup ((filter P l).*1).
Proof.
  induction l as [|x l IH]; [done|]. rewrite fmap_cons. intros [Hx Hn]%list.NoDup_cons.
  destruct (decide (P x)); [rewrite filter_cons_True by done|rewrite filter_cons_False by done; by apply IH].
  rewrite fmap_cons. apply list.NoDup_cons. split; [|by apply IH]. intros (y & Hy & Hin)%list_elem_of_fmap.
  apply Hx, list_elem_of_fmap. exists y. split; [done|]. by apply list_elem_of_filter in Hin as [_ ?].
Qed.

Lemma entries_spec start m : entries_from start m (entries start m).
Proof.
  unfold entries. split.
  - apply Sort_sorted, NoDup_keys_filter, NoDup_fst_map_to_list.
  - intros k v. rewrite sort.Sort_Permutation, list_elem_of_filter, elem_of_map_to_list. cbn. tauto.
Qed.

Lemma entries_from_single start k v : bytes.Compare start k <= 0 -> entries_from start {[ k := v ]} [(k, v)].
Proof.
  intros Hle. split; [repeat constructor|]. intros k' v'.
  rewrite list_elem_of_singleton, lookup_singleton_Some. naive_solver.
Qed.

(** ** The store *)

(** [dirty]: the tries in memory with their references; [saved]: those on disk. *)
Record World := mkWorld {
  opn : bool;
  mem : gmap (list byte) KV;
  disk : gmap (list byte) KV;
  peers : gmap ID (KV * KV);
  dirty : gmap Hash (KV * nat);
  saved : gmap Hash KV
}.

Definition ErrClosed : error := errors_New "database.ErrClosed".
Definition ErrMissing : error := errors_New "missing".

Definition with_mem (w : World) m := mkWorld (opn w) m (disk w) (peers w) (dirty w) (saved w).
Definition with_disk (w : World) d := mkWorld (opn w) (mem w) d (peers w) (dirty w) (saved w).
Definition with_dirty (w : World) d := mkWorld (opn w) (mem w) (disk w) (peers w) d (saved w).

(** A trie is its content, and what it was opened at. *)
Record Trie := mkTrie { t_origin : Hash; t_opened : KV; t_contents : KV }.

(** A 32-byte digest of a map: its keys and the sizes of its values. *)
Definition digest (m : KV) : Z :=
  fold_left (fun acc e => (acc * 257 + be_decode e.1 * 2 ^ 32 + Z.of_nat (length e.2)) mod (2 ^ 248 - 237))
    (map_to_list m) 7.
Definition root_of (m : KV) : Hash := Byte.x01 :: be_encode 31 (digest m).

Definition opens_at (w : World) (r : Hash) : option KV :=
  if decide (r = Hash_zero \/ r = root_of ∅) then Some ∅ else
  match saved w !! r with
  | Some m => Some m
  | None => fst <$> dirty w !! r
  end.

Definition referenced (w : World) (r : Hash) (n : nat) : Prop :=
  n = 0%nat \/ r = Hash_zero \/ r = root_of ∅ \/ is_Some (saved w !! r) \/
  exists m k, dirty w !! r = Some (m, k) /\ (n <= k)%nat.

(** Values are consumed once. *)
#[export] Instance model : StoreModel World Trie KV := {|
  healthy w := opn w = true /\ (forall r m, saved w !! r = Some m -> r = root_of m) /\
    (forall r m k, dirty w !! r = Some (m, k) -> r = root_of m) /\
    (forall r m m' k, saved w !! r = Some m -> dirty w !! r = Some (m', k) -> m' = m);
  view w p := default ∅ (mem w !! p);
  durable w p := default ∅ (disk w !! p);
  inbound w c := (default (∅, ∅) (peers w !! c)).1;
  outbound w c := (default (∅, ∅) (peers w !! c)).2;
  st_get k s := s !! k;
  st_remove k s := _ ← s !! k; Some (delete k s);
  st_put e s := Some (<[EL_Key e := EL_Value e]> s);
  trie_ok _ := True;
  contents := t_contents;
  origin := t_origin;
  opened := t_opened;
  trie_root := root_of;
  opens := opens_at;
  held := referenced
|}.

Definition if_open {A} (m : StM World A) : StM World A := fun w =>
  if opn w then m w else (Err ErrClosed, w).

#[export] Instance database : VersionDB World (gmap (list byte) KV) := {|
  db_Get w p k := if opn w then
      match default ∅ (mem w !! p) !! k with Some x => Ok x | None => Err ErrNotFound end
    else Err ErrClosed;
  db_Put p k x := if_open (fun w => (Ok tt, with_mem w (<[p := <[k := x]> (default ∅ (mem w !! p))]> (mem w))));
  db_Delete p k := if_open (fun w => (Ok tt, with_mem w (<[p := delete k (default ∅ (mem w !! p))]> (mem w))));
  db_NewIteratorWithStart w p start := (entries start (default ∅ (mem w !! p)), None);
  db_Commit := if_open (fun w => (Ok tt, with_disk w (mem w)));
  db_CommitBatch w := if opn w then Ok (mem w) else Err ErrClosed;
  PackUInt64 := be_encode 8;
  ParseUInt64 b := if (length b =? 8)%nat then Ok (be_decode b) else Err (errors_New "wrong size");
  ToID b := if (length b =? 32)%nat then Ok b else Err (errors_New "wrong size")
|}.

Definition write_batches (w : World) (bs : list (gmap (list byte) KV)) : World :=
  with_disk w (fold_left (fun _ b => b) bs (disk w)).

#[export] Instance sharedmem : SharedMemory World (gmap (list byte) KV) := {|
  sm_Get w c keys :=
    match mapM (fun k => st_get k (inbound w c)) keys with Some vals => Ok vals | None => Err ErrMissing end;
  sm_Apply ops bs := if_open (fun w =>
    if decide (map_Forall (fun c r => is_Some (apply_requests r (shared w c))) ops) then
      let w := write_batches w bs in
      (Ok tt, mkWorld (opn w) (mem w) (disk w)
                (map_imap (fun c r => apply_requests r (shared w c)) ops ∪ peers w) (dirty w) (saved w))
    else (Err ErrMissing, w));
  WriteAll b bs := if_open (fun w => (Ok tt, write_batches w (b :: bs)))
|}.

#[export] Instance tries : TrieLib World Trie KV := {|
  EmptyRootHash := root_of ∅;
  IdealBatchSize := 100 * 1024;
  trie_New r w := match opens_at w r with Some m => Ok (mkTrie r m m) | None => Err ErrMissing end;
  trie_Update k v := fun t => (Ok tt, mkTrie (t_origin t) (t_opened t)
    (if decide (v = []) then delete k (t_contents t) else <[k := v]> (t_contents t)));
  trie_Hash t := root_of (t_contents t);
  trie_Commit t := (root_of (t_contents t),
                    if decide (t_contents t = t_opened t) then None else Some (t_contents t));
  trie_Iterator t start := Ok (entries start (t_contents t), None);
  triedb_Update r m := if_open (fun w =>
    (Ok tt, match opens_at w r with Some _ => w | None => with_dirty w (<[r := (m, 0%nat)]> (dirty w)) end));
  triedb_Commit r := if_open (fun w =>
    (Ok tt, match dirty w !! r with
            | Some (m, _) => mkWorld (opn w) (mem w) (disk w) (peers w) (dirty w) (<[r := m]> (saved w))
            | None => w
            end));
  triedb_Reference r w :=
    match dirty w !! r with Some (m, k) => with_dirty w (<[r := (m, S k)]> (dirty w)) | None => w end;
  triedb_Dereference r w :=
    match dirty w !! r with
    | Some (m, S (S k)) => with_dirty w (<[r := (m, S k)]> (dirty w))
    | Some (_, _) => with_dirty w (delete r (dirty w))
    | None => w
    end;
  triedb_Size w := Z.of_nat (size (dirty w));
  triedb_Cap _ := if_open (fun w => (Ok tt, w))
|}.

(** ** The laws *)

Lemma with_dirty_opens w d q : d !! q = dirty w !! q -> opens_at (with_dirty w d) q = opens_at w q.
Proof. intros E. unfold opens_at. cbn. by rewrite E. Qed.

Lemma with_dirty_referenced w d q n : d !! q = dirty w !! q -> referenced (with_dirty w d) q n <-> referenced w q n.
Proof. intros E. unfold referenced. cbn. by rewrite E. Qed.

Lemma same_tries w w' : dirty w' = dirty w -> saved w' = saved w -> keeps_tries w w'.
Proof. intros E1 E2 q. cbn. unfold opens_at, referenced. rewrite E1, E2. done. Qed.

Lemma same_opens w w' : (forall q, opens_at w' q = opens_at w q) -> gains [] w w'.
Proof. intros E q m Ho. left. cbn in *. by rewrite <- E. Qed.

Lemma same_db_step w w' : opn w' = opn w -> peers w' = peers w -> dirty w' = dirty w -> saved w' = saved w ->
  healthy w -> db_step w w'.
Proof.
  intros E0 E1 E2 E3 Hh. split; [cbn in *; by rewrite E0, E2, E3|]. split; [intros c; unfold shared; cbn; by rewrite E1|].
  split; [by apply same_tries|]. apply same_opens. intros q. unfold opens_at. by rewrite E2, E3.
Qed.

Lemma opens_cases w r m : opens_at w r = Some m ->
  m = ∅ /\ (r = Hash_zero \/ r = root_of ∅) \/ saved w !! r = Some m \/ exists k, dirty w !! r = Some (m, k).
Proof.
  unfold opens_at. case_decide; [intros [= <-]; by left|].
  destruct (saved w !! r) as [m'|]; [intros [= <-]; by right; left|].
  destruct (dirty w !! r) as [[m' k]|]; [|done]. intros [= <-]. right. right. by exists k.
Qed.

Lemma put_view w p kv q : view (with_mem w (<[p := kv]> (mem w))) q = if decide (q = p) then kv else view w q.
Proof.
  cbn. case_decide as Hd; [subst; by rewrite lookup_insert_eq|by rewrite lookup_insert_ne].
Qed.

Lemma update_law w m : healthy w -> (forall m', opens_at w (root_of m) = Some m' -> m' = m) ->
  let w' := match opens_at w (root_of m) with
            | Some _ => w | None => with_dirty w (<[root_of m := (m, 0%nat)]> (dirty w)) end in
  adds [m] w w' /\ opens_at w' (root_of m) = Some m.
Proof.
  intros Hh Hc. cbn. destruct (opens_at w (root_of m)) as [m'|] eqn:Eo.
  { rewrite (Hc m' eq_refl) in Eo. split; [|done].
    split; [done|]. split; [by intros c|]. split; [by intros q|apply gains_refl]. }
  assert (saved w !! root_of m = None /\ dirty w !! root_of m = None /\ ~ (root_of m = Hash_zero \/ root_of m = root_of ∅))
    as (Es & Ed & Ez).
  { unfold opens_at in Eo. case_decide; [done|]. destruct (saved w !! root_of m); [done|].
    by destruct (dirty w !! root_of m). }
  set (w' := with_dirty _ _). split.
  - split; [|split; [by intros c|split]].
    + destruct Hh as (H1 & H2 & H3 & H4). split_and!; [done|done| |].
      * intros r m1 k. cbn. destruct (decide (r = root_of m)) as [->|Hne].
        -- rewrite lookup_insert_eq. intros [= <- _]. done.
        -- rewrite lookup_insert_ne by done. apply H3.
      * intros r m1 m2 k Hs. cbn. destruct (decide (r = root_of m)) as [->|Hne]; [cbn in Hs; congruence|].
        rewrite lookup_insert_ne by done. by apply H4.
    + intros q. destruct (decide (q = root_of m)) as [->|Hne].
      * split; [intros m1; cbn; congruence|]. intros n. cbn. unfold referenced. rewrite Es, Ed.
        intros [->|[?|[?|[[? ?]|(? & ? & ? & _)]]]]; [by left|tauto|tauto|done|done].
      * split; [intros m1|intros n]; cbn; unfold w';
          [rewrite with_dirty_opens|rewrite with_dirty_referenced]; (done || by rewrite lookup_insert_ne).
    + intros q m1 Ho. cbn in *. destruct (decide (q = root_of m)) as [->|Hne].
      * unfold w', opens_at in Ho. cbn in Ho. rewrite decide_False, Es, lookup_insert_eq in Ho by done.
        injection Ho as <-. right. by split; [apply list_elem_of_singleton|].
      * left. rewrite <- Ho. symmetry. apply with_dirty_opens. by rewrite lookup_insert_ne.
  - unfold w', opens_at. cbn. rewrite decide_False by done. rewrite Es, lookup_insert_eq. done.
Qed.

Lemma commit_law w r : healthy w -> is_Some (opens_at w r) ->
  let w' := match dirty w !! r with
            | Some (m, _) => mkWorld (opn w) (mem w) (disk w) (peers w) (dirty w) (<[r := m]> (saved w))
            | None => w end in
  db_step w w' /\ (forall n, referenced w' r n).
Proof.
  intros Hh [m Ho] w'. destruct (dirty w !! r) as [[m1 k]|] eqn:Ed.
  - destruct Hh as (H1 & H2 & H3 & H4). split.
    + split; [|split; [by intros c|split]].
      * split_and!; [done| |done|]; cbn.
        -- intros q mq. destruct (decide (q = r)) as [->|Hne]; [|rewrite lookup_insert_ne by done; apply H2].
           rewrite lookup_insert_eq. intros [= <-]. by apply (H3 r m1 k).
        -- intros q mq mq' kq. destruct (decide (q = r)) as [->|Hne]; [|rewrite lookup_insert_ne by done; apply H4].
           rewrite lookup_insert_eq. intros [= <-]. cbn. rewrite Ed. by intros [= <- _].
      * intros q. cbn. unfold w', opens_at, referenced. cbn. destruct (decide (q = r)) as [->|Hne].
        -- rewrite lookup_insert_eq. split; [|intros n; eauto 10]. case_decide; [done|].
           destruct (saved w !! r) as [m2|] eqn:Es; [|by rewrite Ed].
           intros m3 [= <-]. f_equal. by apply (H4 r m2 m1 k).
        -- by rewrite lookup_insert_ne.
      * apply same_opens. intros q. unfold w', opens_at. cbn. destruct (decide (q = r)) as [->|Hne];
          [rewrite lookup_insert_eq, Ed|by rewrite lookup_insert_ne]. case_decide; [done|].
        destruct (saved w !! r) as [m2|] eqn:Es; [|done]. f_equal. by apply (H4 r m2 m1 k).
    + intros n. unfold referenced, w'. cbn. rewrite lookup_insert_eq. eauto 10.
  - split; [by apply db_step_refl|]. intros n. unfold w', referenced.
    destruct (opens_cases _ _ _ Ho) as [[_ [?|?]]|[Hs|[k Hk]]]; [tauto|tauto|rewrite Hs; eauto 10|congruence].
Qed.

Lemma if_open_ok {A} (m : StM World A) w : healthy w -> if_open m w = m w.
Proof. intros [Hh _]. unfold if_open. by rewrite Hh. Qed.

(** Changing the count of one trie in memory. *)
Lemma count_healthy w r m k k' : healthy w -> dirty w !! r = Some (m, k) ->
  healthy (with_dirty w (<[r := (m, k')]> (dirty w))).
Proof.
  intros (H1 & H2 & H3 & H4) Ed. split_and!; [done|done| |]; cbn.
  - intros q mq kq. destruct (decide (q = r)) as [->|Hne]; [|rewrite lookup_insert_ne by done; apply H3].
    rewrite lookup_insert_eq. intros [= <- _]. by apply (H3 r m k).
  - intros q m1 m2 k2 Hs. destruct (decide (q = r)) as [->|Hne]; [|rewrite lookup_insert_ne by done; by apply H4].
    rewrite lookup_insert_eq. intros [= <- _]. by apply (H4 r m1 m k).
Qed.

Lemma count_opens w r m k k' q : dirty w !! r = Some (m, k) ->
  opens_at (with_dirty w (<[r := (m, k')]> (dirty w))) q = opens_at w q.
Proof.
  intros Ed. unfold opens_at. cbn. destruct (decide (q = r)) as [->|Hne]; [by rewrite lookup_insert_eq, Ed|].
  by rewrite lookup_insert_ne.
Qed.

Lemma reference_law w r : healthy w ->
  let w' := triedb_Reference r w in
  db_step w w' /\ (forall p, view w' p = view w p) /\
  (is_Some (opens w r) -> forall n, held w r n -> held w' r (S n)).
Proof.
  intros Hh. cbn [triedb_Reference tries]. destruct (dirty w !! r) as [[m k]|] eqn:Ed; cbn zeta.
  - split; [|split; [done|]].
    + split; [by eapply count_healthy|]. split; [by intros c|].
      split; [|apply same_opens; intros q; by erewrite count_opens]. intros q.
      split; [intros m1; cbn; by erewrite count_opens|]. intros n. cbn. unfold referenced. cbn.
      destruct (decide (q = r)) as [->|Hne]; [|by rewrite lookup_insert_ne].
      rewrite lookup_insert_eq, Ed. intros [->|[?|[?|[?|(m1 & k1 & [= <- <-] & Hle)]]]]; [tauto..|].
      do 4 right. eexists _, _. split; [done|]. lia.
    + intros _ n. cbn. unfold referenced. cbn. rewrite lookup_insert_eq, Ed.
      intros [->|[?|[?|[?|(m1 & k1 & [= <- <-] & Hle)]]]]; [|tauto..|];
        do 4 right; eexists _, _; (split; [done|]); lia.
  - split; [by apply db_step_refl|]. split; [done|]. intros [m Ho] n _. cbn in Ho |- *. unfold referenced.
    destruct (opens_cases _ _ _ Ho) as [[_ [?|?]]|[Hs|[k Hk]]]; [tauto|tauto|rewrite Hs; eauto 10|congruence].
Qed.

Lemma kept_opens w d r : r = Hash_zero \/ r = root_of ∅ \/ is_Some (saved w !! r) ->
  opens_at (with_dirty w d) r = opens_at w r.
Proof.
  intros Hr. unfold opens_at. destruct (decide (r = Hash_zero \/ r = root_of ∅)); [done|].
  destruct Hr as [?|[?|[m Hs]]]; [tauto|tauto|]. cbn [saved with_dirty]. by rewrite Hs.
Qed.

Lemma dereference_law w r : healthy w ->
  released r w (triedb_Dereference r w) /\ (forall p, view (triedb_Dereference r w) p = view w p).
Proof.
  intros Hh. cbn [triedb_Dereference tries]. destruct (dirty w !! r) as [[m k]|] eqn:Ed.
  - assert (forall d, (forall q, q <> r -> d !! q = dirty w !! q) -> forall q n m, q <> r -> held w q (S n) ->
      opens w q = Some m -> held (with_dirty w d) q (S n) /\ opens (with_dirty w d) q = Some m) as Hother.
    { intros d Hd q n m1 Hq Hr Ho. cbn. rewrite with_dirty_opens, with_dirty_referenced by (by apply Hd). done. }
    assert (forall n, held w r (S (S n)) -> (2 <= k)%nat \/ r = Hash_zero \/ r = root_of ∅ \/ is_Some (saved w !! r)) as Hk.
    { intros n. cbn. unfold referenced. rewrite Ed.
      intros [?|[?|[?|[?|(? & ? & [= <- <-] & Hle)]]]]; [done|tauto..|left; lia]. }
    assert (forall d, (forall q, q <> r -> d !! q = dirty w !! q) ->
      (d !! r = None \/ exists k', d !! r = Some (m, k')) -> gains [] w (with_dirty w d)) as Hgain.
    { intros d Hd Hr q m1. cbn. left. destruct (decide (q = r)) as [->|Hne]; [|by rewrite <- (with_dirty_opens w d) by (by apply Hd)].
      unfold opens_at in *. cbn in *. rewrite Ed. case_decide; [done|]. destruct (saved w !! r); [done|].
      by destruct Hr as [Hr|[k' Hr]]; rewrite Hr in *. }
    assert (forall d, healthy (with_dirty w d) -> (d !! r = None \/ exists k', d !! r = Some (m, k')) -> (forall q, q <> r -> d !! q = dirty w !! q) ->
      (forall n m1, held w r (S (S n)) -> opens w r = Some m1 ->
         held (with_dirty w d) r (S n) /\ opens (with_dirty w d) r = Some m1) ->
      released r w (with_dirty w d) /\ (forall p, view (with_dirty w d) p = view w p)) as Hgoal.
    { intros d Hd Hn Hq Hr. split; [|done]. split; [done|]. split; [by intros c|]. split; [done|].
      split; [by apply Hother|by apply Hgain]. }
    assert ((k < 2)%nat -> released r w (with_dirty w (delete r (dirty w))) /\
      (forall p, view (with_dirty w (delete r (dirty w))) p = view w p)) as Hdel.
    { intros Hk2. apply Hgoal.
      - destruct Hh as (H1 & H2 & H3 & H4); split_and!; [done|done| |]; cbn.
        + intros q mq kq [_ Hq]%lookup_delete_Some. by apply (H3 q mq kq).
        + intros q m1 m2 k2 Hs [_ Hq]%lookup_delete_Some. by apply (H4 q m1 m2 k2).
      - left. by rewrite lookup_delete_eq.
      - intros q Hq. by rewrite lookup_delete_ne.
      - intros n m1 Hr Ho. apply Hk in Hr as [?|Hr]; [lia|]. split; [unfold held; cbn; unfold referenced; tauto|].
        cbn. by rewrite kept_opens. }
    destruct k as [|[|k]]; [apply Hdel; lia..|]. apply Hgoal.
    + by eapply count_healthy.
    + right. exists (S k). by rewrite lookup_insert_eq.
    + intros q Hq. by rewrite lookup_insert_ne.
    + intros n m1 Hr Ho. cbn. erewrite count_opens by done. split; [|done]. cbn in Hr. unfold referenced in *. cbn.
      rewrite lookup_insert_eq. rewrite Ed in Hr.
      destruct Hr as [?|[?|[?|[?|(? & ? & [= <- <-] & Hle)]]]]; [done|tauto..|].
      do 4 right. eexists _, _. split; [done|]. lia.
  - split; [|done]. split; [done|]. split; [by intros c|]. split; [|by split; [|apply gains_refl]].
    intros n m Hr Ho. split; [|done]. cbn in *. unfold referenced in *. rewrite Ed in *.
    destruct Hr as [?|[?|[?|[?|(? & ? & ? & _)]]]]; [done|tauto..|done].
Qed.

Lemma apply_law w ops bs : healthy w ->
  (forall c r, ops !! c = Some r -> is_Some (apply_requests r (shared w c))) ->
  exists w', sm_Apply ops (bs ++ [mem w]) w = (Ok tt, w') /\ healthy w' /\
    (forall p, view w' p = view w p /\ durable w' p = view w p) /\ (keeps_tries w w' /\ gains [] w w') /\
    (forall c, Some (shared w' c) =
       match ops !! c with Some r => apply_requests r (shared w c) | None => Some (shared w c) end).
Proof.
  intros Hh Ha. cbn [sm_Apply sharedmem]. unfold if_open. rewrite (proj1 Hh), decide_True by done.
  eexists. split; [done|]. split; [done|]. split.
  { intros p. split; [done|]. cbn. by rewrite fold_left_app. }
  split; [by split; [apply same_tries|apply same_opens]|]. intros c. unfold shared at 1. cbn [inbound outbound model peers].
  rewrite lookup_union, map_lookup_imap. destruct (ops !! c) as [r|] eqn:Eo; cbn [mbind option_bind].
  - change (shared (write_batches w (bs ++ [mem w])) c) with (shared w c).
    destruct (Ha c r Eo) as [[i o] Hs]. rewrite Hs. by destruct (peers (write_batches w (bs ++ [mem w])) !! c).
  - unfold shared. cbn. by destruct (peers w !! c) as [[]|].
Qed.

#[export] Instance spec p : StoreSpec (W := World) p.
Proof.
  split; try done.
  - intros b Hl. cbn. by rewrite Hl.
  - intros b Hl. cbn. by rewrite Hl.
  - intros w q k Hh. cbn. by rewrite (proj1 Hh).
  - intros w q k x Hh _. cbn [db_Put database]. unfold if_open. rewrite (proj1 Hh). eexists. split; [done|].
    split; [by apply same_db_step|]. split; [by rewrite put_view, decide_True|].
    intros q' Hq. by rewrite put_view, decide_False.
  - intros w q k Hh _. cbn [db_Delete database]. unfold if_open. rewrite (proj1 Hh). eexists. split; [done|].
    split; [by apply same_db_step|]. split; [by rewrite put_view, decide_True|].
    intros q' Hq. by rewrite put_view, decide_False.
  - intros w q start Hh. eexists. split; [done|]. apply entries_spec.
  - intros w Hh. cbn. unfold if_open. rewrite (proj1 Hh). eexists. split; [done|].
    split; [by apply same_db_step|]. done.
  - intros w Hh. exists (mem w). cbn. by rewrite (proj1 Hh).
  - intros w c keys Hh. cbn [sm_Get sharedmem]. destruct (mapM _ keys); [done|by eexists].
  - intros w ops bs b Hh Hb Ha. cbn in Hb. rewrite (proj1 Hh) in Hb. injection Hb as <-. by apply apply_law.
  - intros w b0 b Hh Hb. cbn in Hb. rewrite (proj1 Hh) in Hb. injection Hb as <-. cbn. unfold if_open.
    rewrite (proj1 Hh). eexists. split; [done|]. split; [by apply same_db_step|]. done.
  - intros w r m (_ & H2 & H3 & _) Ho. apply opens_cases in Ho as [[-> [?|?]]|[Hs|[k Hk]]];
      [by left|by right|right; by apply H2|right; by apply (H3 r m k)].
  - intros w r. by left.
  - intros w r n n' Hr Hle. cbn in *. unfold referenced in *.
    destruct Hr as [?|[?|[?|[?|(m & k & ? & ?)]]]]; [left; lia|tauto..|].
    do 4 right. exists m, k. split; [done|lia].
  - intros w n _. cbn. unfold referenced. tauto.
  - intros w r m Hh Ho. cbn in Ho |- *. rewrite Ho. eexists. by split.
  - intros t k v _ Hv. eexists. split; [done|]. cbn. by rewrite decide_False.
  - intros t _. cbn. by case_decide.
  - intros t start _. eexists. split; [done|]. apply entries_spec.
  - intros w t n Hh _ Hn Ho Hc. cbn in Hn, Hc |- *. case_decide; [done|]. injection Hn as <-. unfold if_open.
    rewrite (proj1 Hh). destruct (update_law w (t_contents t) Hh Hc) as [D O]. eexists. split; [done|].
    split; [done|]. split; [done|]. intros q _. by destruct (opens_at w (root_of (t_contents t))).
  - intros w r Hh Ho. cbn [triedb_Commit tries]. rewrite if_open_ok by done. destruct (commit_law w r Hh Ho) as [D HR].
    eexists. split; [done|]. split; [exact D|]. split; [exact HR|].
    intros q _. by destruct (dirty w !! r) as [[]|].
  - intros w c Hh. cbn [triedb_Cap tries]. unfold if_open. rewrite (proj1 Hh). eexists. split; [done|].
    split; [by apply db_step_refl|done].
  - apply reference_law.
  - apply dereference_law.
Qed.

End StoreConcrete.
