(* ===== verification/AtomicStateExamples.v ===== *)
(** * Runs of the atomic state

    A small chain on the in-memory store of [StoreConcrete]: a block with an import and an
    export is verified and accepted, a repository is migrated, the backend is started on
    it, and a large synced operation is applied to shared memory. The theorems of
    [AtomicRepo] and [AtomicBackend] are applied to these runs. *)

From Stdlib Require Import Sorting.Sorted.
From S2P Require Import Prelude GoStd Packer AtomicTypes AtomicCodec AtomicFormat ExtState AtomicTx AtomicTxSpec Store AtomicRepo AtomicTrie AtomicBackend StoreConcrete.
Import atomic codec wire atomictx repo trie backend StoreConcrete PackerConcrete wire.Witness.

Module stateexamples.

#[local] Existing Instance atomicspec.Witness.utxolib.
#[local] Existing Instance atomicspec.Witness.utxolib_spec.
#[local] Instance range : OpsRange := {| range_ops := map_to_list |}.
#[local] Instance range_spec : OpsRangeSpec.
Proof. by split. Qed.

Lemma is_Some_true {A} (x : option A) : (if x then true else false) = true -> is_Some x.
Proof. destruct x; [by eexists|done]. Qed.

Lemma pair_inv {A B C} (a a' : A) (b b' : B) (c c' : C) : (a, (b, c)) = (a', (b', c')) -> b = b' /\ c = c'.
Proof. by intros [=]. Qed.

(** ** The data *)

Definition txA : Tx := initialized hash0 tx0.
Definition txB : Tx := initialized hash0 tx1.
Definition peer : ID := id_of Byte.x05.

(** The UTXO [txA] imports is in the shared memory. *)
Definition utxo_key : list byte := InputID (id_of Byte.x01) 2.
Definition peers0 : gmap ID (KV * KV) := {[ peer := ({[ utxo_key := [Byte.x2a] ]}, ∅) ]}.
Definition world0 : World := mkWorld true ∅ ∅ peers0 ∅ ∅.

Definition hash_of (b : byte) : Hash := replicate 32 b.
Definition trie0 : AtomicTrie := mkAtomicTrie 2 (root_of ∅) 0 (root_of ∅) atomicTrieMemoryCap.
Definition backend0 : AtomicBackend := mkBackend ∅ trie0 (hash_of Byte.x10) ∅.

Lemma parsedA : parsed hash0 txA.
Proof. exists (tx_bytes txA). vm_compute. reflexivity. Qed.

Lemma parsedB : parsed hash0 txB.
Proof. exists (tx_bytes txB). vm_compute. reflexivity. Qed.

Lemma parsed_all : Forall (parsed hash0) [txA; txB].
Proof. constructor; [exact parsedA|]. constructor; [exact parsedB|constructor]. Qed.

Lemma fits_all : fits_batch [txA; txB].
Proof.
  split; [reflexivity|]. exists (default [] (enc_slice enc_Tx [txA; txB])).
  split; [vm_compute; reflexivity|]. vm_compute. discriminate.
Qed.

Lemma healthy0 : healthy world0.
Proof. split_and!; done. Qed.

Lemma repo_ok_no_data h (w : World) : mem w = ∅ -> repo_ok h w.
Proof. intros E. split; intros k v; cbn; by rewrite E, lookup_empty. Qed.

Lemma opens_empty_root (w : World) : opens_at w (root_of ∅) = Some ∅.
Proof. unfold opens_at. by rewrite decide_True by (by right). Qed.

Lemma backend0_ok_at h (w : World) : healthy w -> mem w = ∅ -> backend_ok h backend0 w 0.
Proof.
  intros Hh Hm. split; [exact Hh|]. split; [by apply repo_ok_no_data|]. split; [|by split_and!].
  intros r n Hu. unfold uses in Hu. change (count r (verifiedRoots backend0)) with 0%nat in Hu.
  change (lastAcceptedRoot (atomicTrie backend0)) with (root_of ∅) in Hu.
  destruct (decide (root_of ∅ = r)) as [<-|]; [|lia]. split_and!; [cbn; unfold referenced; tauto| |done].
  exists ∅. apply opens_empty_root.
Qed.

Lemma backend0_ok : backend_ok hash0 backend0 world0 0.
Proof. by apply backend0_ok_at; [exact healthy0|]. Qed.

Lemma distinct_ids tx tx' : tx ∈ [txA; txB] -> tx' ∈ [txA; txB] -> tx_id tx = tx_id tx' -> tx = tx'.
Proof.
  rewrite !elem_of_cons, !elem_of_nil. intros [->|[->|[]]] [->|[->|[]]]; try done; intros E; vm_compute in E; done.
Qed.

Lemma write_read_witness :
  exists w' sorted, write hash0 7 [txA; txB] false world0 = (Ok tt, w') /\ healthy w' /\ repo_ok hash0 w' /\
    sorted ≡ₚ [txA; txB] /\ GetIndexHeight w' = Ok 7 /\
    GetByHeight hash0 7 w' = (if decide ([txA; txB] = []) then GetByHeight hash0 7 world0 else Ok sorted) /\
    (forall height', is_u64 height' -> height' <> 7 -> GetByHeight hash0 height' w' = GetByHeight hash0 height' world0) /\
    (forall tx, tx ∈ [txA; txB] -> GetByTxID hash0 (tx_id tx) w' =
       match GetByTxID hash0 (tx_id tx) world0 with
       | Ok r => Ok (if false then r else (tx, 7))
       | _ => Ok (tx, 7)
       end) /\
    (forall id, id ∉ tx_id <$> [txA; txB] -> GetByTxID hash0 id w' = GetByTxID hash0 id world0).
Proof.
  apply (write_read hash0 7 [txA; txB] false world0);
    [exact healthy0|by apply repo_ok_no_data|exact parsed_all|exact fits_all|closed_u64|exact distinct_ids].
Defined.

(** ** A block verified and accepted *)

Definition block1 : Hash := hash_of Byte.x11.
Definition ops_at (tx : Tx) : Requests :=
  match Tx_AtomicOps tx with Ok (_, r) => r | _ => mkRequests [] [] end.
Definition requests1 : Requests :=
  mkRequests (RemoveRequests (ops_at txA) ++ RemoveRequests (ops_at txB))
             (PutRequests (ops_at txA) ++ PutRequests (ops_at txB)).
Definition ops1 : gmap ID Requests := {[ peer := requests1 ]}.
Definition verify1 : event (Batch := gmap (list byte) KV) := EvVerify block1 3 (hash_of Byte.x10) [txA; txB].
Definition accept1 : event (Batch := gmap (list byte) KV) := EvAccept block1 ∅.
Definition verified1 : AtomicBackend * World := snd (exec hash0 verify1 (backend0, world0)).
Definition state1 : atomicState := mkAtomicState block1 3 [txA; txB] ops1 (root_of (put_ops 3 ops1 ∅)).
Definition accepted1 : AtomicBackend * World := snd (exec hash0 accept1 verified1).

Lemma verified1_eq : exec hash0 verify1 (backend0, world0) =
  (fst (exec hash0 verify1 (backend0, world0)), (fst verified1, snd verified1)).
Proof. unfold verified1. by destruct (exec hash0 verify1 (backend0, world0)) as [? []]. Qed.

Lemma accepted1_eq : exec hash0 accept1 (fst verified1, snd verified1) =
  (fst (exec hash0 accept1 verified1), (fst accepted1, snd accepted1)).
Proof. unfold accepted1. rewrite <- surjective_pairing. by destruct (exec hash0 accept1 verified1) as [? []]. Qed.

#[local] Opaque verified1 accepted1 put_ops root_of.

Lemma ops1_merged : mergeAtomicOps [txA; txB] = Ok ops1.
Proof.
  assert (sortTxs [txA; txB] = Ok [txA; txB]) as HS by (vm_compute; reflexivity).
  assert (Tx_AtomicOps txA = Ok (peer, ops_at txA)) as HA by (vm_compute; reflexivity).
  assert (Tx_AtomicOps txB = Ok (peer, ops_at txB)) as HB by (vm_compute; reflexivity).
  unfold mergeAtomicOps. rewrite HS. cbn [mbind result_bind mergeAll]. rewrite HA, HB.
  cbn [mbind result_bind fst snd]. unfold mergeAtomicOpsToMap.
  rewrite lookup_empty, lookup_insert_eq, insert_insert_eq. reflexivity.
Qed.

Lemma ops1_chains c r : ops1 !! c = Some r -> c = peer /\ r = requests1.
Proof. unfold ops1. intros [<- <-]%lookup_singleton_Some. done. Qed.

Lemma ops1_ok : ops_ok ops1.
Proof.
  intros c r [-> ->]%ops1_chains. split; [reflexivity|]. split; [|split].
  - let r := eval vm_compute in requests1 in assert (requests1 = r) as -> by (vm_compute; reflexivity).
    split; closed_valid.
  - exists (default [] (enc_Requests requests1)). vm_compute. reflexivity.
  - vm_compute. discriminate.
Qed.

Lemma permitted1 : permitted hash0 verify1 backend0 world0 0.
Proof.
  split; [done|]. split; [closed_u64|]. split; [exact parsed_all|]. split; [exact fits_all|].
  exists ops1, (root_of ∅). split; [exact ops1_merged|]. split; [exact ops1_ok|].
  split; [reflexivity|]. intros m0 Hm0. assert (m0 = ∅) as ->.
  { change (opens_at world0 (root_of ∅) = Some m0) in Hm0. rewrite opens_empty_root in Hm0. by injection Hm0. }
  intros m' Hm'. exfalso. revert Hm'. change (opens_at world0 (root_of (put_ops 3 ops1 ∅)) = Some m' -> False).
  assert (opens_at world0 (root_of (put_ops 3 ops1 ∅)) = None) as -> by (vm_compute; reflexivity). done.
Qed.

Lemma verified1_ok : backend_ok hash0 (fst verified1) (snd verified1) 0.
Proof.
  destruct (exec_ok hash0 verify1 backend0 world0 0 [] backend0_ok permitted1) as (b' & w' & E & Hb & _).
  rewrite verified1_eq in E. apply pair_inv in E as [-> ->]. exact Hb.
Qed.

Lemma verified1_state : verifiedRoots (fst verified1) !! block1 = Some state1.
Proof. vm_cast_no_check (eq_refl (Some state1)). Qed.

Lemma applicable1 : applicable ops1 (snd verified1).
Proof. intros c r [-> ->]%ops1_chains. apply is_Some_true. vm_compute. reflexivity. Qed.


Lemma history1 : history hash0 0 backend0 world0 [] (fst accepted1) (snd accepted1) [(3, as_atomicRoot state1)].
Proof.
  apply (history_step hash0 0 verify1 backend0 world0 [] (fst (exec hash0 verify1 (backend0, world0)))
           (fst verified1) (snd verified1)); [exact permitted1|exact verified1_eq|].
  apply (history_step hash0 0 accept1 (fst verified1) (snd verified1) []
           (fst (exec hash0 accept1 verified1)) (fst accepted1) (snd accepted1)).
  - exists state1. split; [exact verified1_state|]. split; [vm_compute; reflexivity|].
    split; [vm_compute; reflexivity|]. intros _. exact applicable1.
  - exact accepted1_eq.
  - unfold accept1, record_event. rewrite verified1_state. constructor.
Qed.

Lemma backend_never_stuck_witness :
  (forall bh r, getAtomicRootAt (fst accepted1) bh = Ok r -> exists t, OpenTrie r (snd accepted1) = Ok t) /\
  (permitted hash0 accept1 (fst accepted1) (snd accepted1) 3 ->
   exists st', exec hash0 accept1 (fst accepted1, snd accepted1) = (Ok tt, st')).
Proof.
  exact (backend_never_stuck hash0 0 backend0 world0 (fst accepted1) (snd accepted1)
           [(3, as_atomicRoot state1)] accept1 backend0_ok history1).
Defined.

(** Height 2, passed by the block at 3, has the root of the trie before it. *)
Lemma committed_roots_witness : getRoot 2 (snd accepted1) = Ok (root_of ∅).
Proof.
  rewrite (committed_roots hash0 0 backend0 world0 2 (fst accepted1) (snd accepted1)
             [(3, as_atomicRoot state1)] backend0_ok history1); [reflexivity|closed_u64|done|reflexivity].
Defined.

(** ** A repository migrated and a backend started *)

(** One transaction, indexed by ID only. *)
Definition kvM : KV := {[ tx_id txA := tx_entry 5 txA ]}.
Definition worldM : World := mkWorld true {[ atomicTxIDDBPrefix := kvM ]} ∅ ∅ ∅ ∅.

Lemma healthyM : healthy worldM.
Proof. split_and!; done. Qed.

Lemma repo_okM : repo_ok hash0 worldM.
Proof.
  split; intros k v.
  - change (view worldM atomicTxIDDBPrefix) with kvM. unfold kvM. intros [<- <-]%lookup_singleton_Some.
    exists txA, 5. split; [exact parsedA|]. split; [closed_u64|done].
  - change (view worldM atomicHeightTxDBPrefix) with (∅ : KV). by rewrite lookup_empty.
Qed.

Lemma fitsM es height : entries_from ID_Empty (view worldM atomicTxIDDBPrefix) es -> is_u64 height ->
  fits_batch (fold_left append_tx (migrated hash0 height es) (txs_at hash0 worldM height)).
Proof.
  change (view worldM atomicTxIDDBPrefix) with kvM. intros Hes _.
  rewrite (entries_from_unique _ _ _ _ Hes (entries_from_single ID_Empty (tx_id txA) (tx_entry 5 txA) ltac:(vm_compute; discriminate))).
  assert (txs_at hash0 worldM height = []) as ->.
  { unfold txs_at, GetByHeight, getByHeightBytes. rewrite (Get_spec (trie_prefix := atomicTrieDBPrefix)) by exact healthyM.
    change (view worldM atomicHeightTxDBPrefix) with (∅ : KV). by rewrite lookup_empty. }
  assert (migrated hash0 height [(tx_id txA, tx_entry 5 txA)] = if 5 =? height then [txA] else []) as ->.
  { unfold migrated. cbn [flat_map snd].
    assert (be_decode (take 8 (tx_entry 5 txA)) = 5) as -> by (vm_compute; reflexivity).
    assert (ExtractAtomicTx hash0 (drop 12 (tx_entry 5 txA)) = Ok txA) as -> by (vm_compute; reflexivity).
    by destruct (5 =? height). }
  destruct (5 =? height).
  - change (fold_left append_tx [txA] []) with [txA]. split; [reflexivity|].
    exists (default [] (enc_slice enc_Tx [txA])). split; [vm_compute; reflexivity|]. vm_compute. discriminate.
  - split; [reflexivity|]. exists (default [] (enc_slice enc_Tx [])). split; [reflexivity|]. vm_compute. discriminate.
Qed.

Lemma migration_completes_witness :
  exists w', initializeHeightIndex hash0 6 worldM = (Ok tt, w') /\ healthy w' /\ repo_ok hash0 w' /\
    (forall p, durable w' p = view w' p) /\ GetIndexHeight w' = Ok 6 /\
    migrationStart w' = Ok None /\
    (forall height, is_u64 height ->
       (exists k, txs_at hash0 w' height = txs_at hash0 worldM height ++ k) /\
       (NoDup (tx_id <$> txs_at hash0 worldM height) -> NoDup (tx_id <$> txs_at hash0 w' height)) /\
       (forall (id : list byte) tx, GetByTxID hash0 id worldM = Ok (tx, height) ->
          bytes.Compare ID_Empty id <= 0 -> id ∈ tx_id <$> txs_at hash0 w' height) /\
       (forall tx, tx ∈ txs_at hash0 w' height ->
          tx ∈ txs_at hash0 worldM height \/ GetByTxID hash0 (tx_id tx) worldM = Ok (tx, height))).
Proof.
  apply (migration_completes hash0 6 worldM ID_Empty);
    [exact healthyM|exact repo_okM|reflexivity|closed_u64|exact fitsM].
Defined.

(** The same transaction in the index by height, not yet in the trie. *)
Definition batchA : list byte := message (default [] (enc_slice enc_Tx [txA])).
Definition kvI : KV := {[ be_encode 8 5 := batchA ]}.
Definition worldI : World := mkWorld true {[ atomicHeightTxDBPrefix := kvI ]} ∅ ∅ ∅ ∅.
Definition entryI : Entry := (be_encode 8 5, batchA).
Definition opsA : gmap ID Requests := {[ peer := ops_at txA ]}.

Lemma backendI_ok : backend_ok hash0 backend0 worldI 0.
Proof.
  destruct backend0_ok as (_ & _ & Hr & Hrest). split; [by split_and!|]. split; [|by split].
  split; intros k v.
  - change (view worldI atomicTxIDDBPrefix) with (∅ : KV). by rewrite lookup_empty.
  - change (view worldI atomicHeightTxDBPrefix) with kvI. unfold kvI. intros [<- <-]%lookup_singleton_Some.
    exists 5, [txA]. split; [closed_u64|]. split; [done|]. split; [by apply list.Forall_singleton, parsedA|].
    vm_compute. reflexivity.
Qed.

Lemma mergeA : mergeAtomicOps [txA] = Ok opsA.
Proof.
  unfold mergeAtomicOps. assert (sortTxs [txA] = Ok [txA]) as -> by (vm_compute; reflexivity).
  cbn [mbind result_bind mergeAll].
  assert (Tx_AtomicOps txA = Ok (peer, ops_at txA)) as -> by (vm_compute; reflexivity).
  cbn [mbind result_bind fst snd]. unfold mergeAtomicOpsToMap. by rewrite lookup_empty.
Qed.

Lemma extractI : ExtractAtomicTxs hash0 batchA true = Ok [txA].
Proof. vm_compute. reflexivity. Qed.

Lemma opsA_ok : ops_ok opsA.
Proof.
  intros c r. unfold opsA. intros [<- <-]%lookup_singleton_Some. split; [reflexivity|]. split; [|split].
  - let r := eval vm_compute in (ops_at txA) in assert (ops_at txA = r) as -> by (vm_compute; reflexivity).
    split; closed_valid.
  - exists (default [] (enc_Requests (ops_at txA))). vm_compute. reflexivity.
  - vm_compute. discriminate.
Qed.

Lemma put_blockI m : put_block hash0 m entryI = put_ops 5 opsA m.
Proof.
  unfold put_block, block_ops. cbn [snd entryI]. rewrite extractI. cbn [mbind result_bind]. by rewrite mergeA.
Qed.

Lemma initialize_catches_up_witness :
  exists b' w', initialize hash0 6 (backend0, worldI) = (Ok tt, (b', w')) /\ same_frame backend0 b' /\
    backend_ok hash0 b' w' 6 /\
    opens w' (lastAcceptedRoot (atomicTrie b')) = Some (put_block hash0 ∅ entryI).
Proof.
  apply (initialize_catches_up hash0 backend0 worldI 6 ∅ [entryI]);
    [exact backendI_ok|reflexivity|reflexivity|reflexivity|reflexivity| | |
     by apply list.Forall_singleton|reflexivity|].
  - apply (entries_from_single (be_encode 8 1) (be_encode 8 5) batchA). vm_compute. discriminate.
  - apply list.Forall_singleton. split; [reflexivity|]. exists [txA], opsA.
    split; [exact extractI|]. split; [exact mergeA|exact opsA_ok].
  - cbn [stages]. rewrite put_blockI. intros m ->%list_elem_of_singleton. split; [|by intros m' ->%list_elem_of_singleton].
    intros m' Hm'. exfalso. revert Hm'. change (opens_at worldI (root_of (put_ops 5 opsA ∅)) = Some m' -> False).
    assert (opens_at worldI (root_of (put_ops 5 opsA ∅)) = None) as -> by (vm_compute; reflexivity). done.
Defined.

(** ** Synced operations applied to shared memory *)

(** One operation that fills a batch, in a committed trie; the cursor is below it. *)
Definition element0 : Element := mkElement [] [] [].
Definition bigPuts : list Element := replicate (Z.to_nat 10001) element0.
Definition big : Requests := mkRequests [] bigPuts.
Definition keyS : list byte := be_encode 8 5 ++ peer.
Definition entryS : Entry := (keyS, request_bytes big).
Definition kvS : KV := {[ keyS := request_bytes big ]}.
Definition metaS : KV := {[ appliedSharedMemoryCursorKey := be_encode 8 3 ]}.
Definition worldS : World := mkWorld true {[ atomicTrieMetaDBPrefix := metaS ]} ∅ ∅ ∅ {[ root_of kvS := kvS ]}.
Definition backendS : AtomicBackend :=
  mkBackend ∅ (mkAtomicTrie 2 (root_of kvS) 6 (root_of kvS) atomicTrieMemoryCap) (hash_of Byte.x10) ∅.
Definition iterS : atomicTrieIterator := NewAtomicTrieIterator [entryS] None.

(** The store after the batch, and a restart on what is on disk then. *)
Definition flushS : StM World unit :=
  _ ← db_Put atomicTrieMetaDBPrefix appliedSharedMemoryCursorKey keyS;
  applyBatch {[ peer := big ]}.
Definition worldF : World := snd (flushS worldS).
Definition worldR : World := mkWorld (opn worldF) (disk worldF) (disk worldF) (peers worldF) ∅ (saved worldF).

Lemma length_bigPuts : Z.of_nat (length bigPuts) = 10001.
Proof. unfold bigPuts. rewrite length_replicate. lia. Qed.

Lemma encodes_big n : exists bs, encodes enc_Element (replicate n element0) = Some bs /\ length bs = (12 * n)%nat.
Proof.
  induction n as [|n (bs & E & Hl)]; [by exists []|]. cbn [replicate encodes foldr].
  unfold encodes in E. rewrite E. assert (enc_Element element0 = Some (replicate 12 Byte.x00)) as -> by (vm_compute; reflexivity).
  eexists. split; [reflexivity|]. rewrite length_app, length_replicate, Hl. lia.
Qed.

Lemma enc_big : exists bs, enc_Requests big = Some bs /\ Z.of_nat (length bs) = 120020.
Proof.
  destruct (encodes_big (Z.to_nat 10001)) as (bs & E & Hl).
  exists (be_encode 4 0 ++ be_encode 4 10001 ++ bs). split.
  - unfold enc_Requests, big, enc_slice. cbn [RemoveRequests PutRequests]. rewrite length_bigPuts.
    unfold bigPuts. rewrite E. reflexivity.
  - rewrite !length_app, !length_be_encode, Hl. lia.
Qed.

Lemma length_big : Z.of_nat (length (request_bytes big)) = 120022.
Proof.
  destruct enc_big as (bs & E & Hl). unfold request_bytes. rewrite E. cbn [from_option]. unfold id, message.
  rewrite length_app, length_be_encode. lia.
Qed.

Lemma storable_big : storable big.
Proof.
  destruct enc_big as (bs & HE & Hl).
  split; [|split; [by eexists|]].
  - split; [split; [reflexivity|constructor]|]. split.
    + unfold len_u32. cbn [PutRequests big]. rewrite length_bigPuts. lia.
    + cbn [PutRequests big]. apply list.Forall_replicate. closed_valid.
  - rewrite length_big. done.
Qed.

Lemma unmarshal_big : Codec_Unmarshal (request_bytes big) D_Requests = Ok (CodecVersion, V_Requests big).
Proof.
  destruct storable_big as (Hv & [body E] & Hl). apply Unmarshal_Ok. split; [done|]. split; [done|].
  exists body. unfold request_bytes. rewrite E. split; [reflexivity|]. exact (conj Hv E).
Qed.

#[local] Opaque bigPuts.

Lemma entryS_wf : entry_wf entryS.
Proof. split; [reflexivity|]. exists CodecVersion, big. exact unmarshal_big. Qed.

Lemma op_requestsS : op_requests entryS = big.
Proof. unfold op_requests. cbn [snd entryS]. by rewrite unmarshal_big. Qed.

Lemma puts_succeed l (s : KV) : is_Some (ofold st_put l s).
Proof. revert s. induction l as [|e l IH]; intros s; [by eexists|]. apply IH. Qed.

Lemma apply_big (s : KV * KV) : is_Some (apply_requests big s).
Proof.
  unfold apply_requests. cbn [RemoveRequests PutRequests big ofold mbind option_bind].
  destruct (puts_succeed bigPuts (snd s)) as [o ->]. by eexists.
Qed.

#[local] Transparent root_of.

Lemma rootS : root_of kvS <> root_of ∅ /\ root_of kvS <> Hash_zero.
Proof.
  unfold root_of, digest, kvS. rewrite map_to_list_singleton, map_to_list_empty. cbn [fold_left fst snd].
  rewrite length_big. apply (bool_decide_unpack _). vm_compute. reflexivity.
Qed.

#[local] Opaque root_of kvS.

Lemma opens_saved w : saved w = {[ root_of kvS := kvS ]} -> opens_at w (root_of kvS) = Some kvS.
Proof.
  intros E. unfold opens_at. destruct rootS as [H1 H2]. rewrite decide_False by (intros [Hz|Hz]; [exact (H2 Hz)|exact (H1 Hz)]).
  rewrite E, lookup_singleton_eq. reflexivity.
Qed.

Lemma healthy_saved w : opn w = true -> dirty w = ∅ -> saved w = {[ root_of kvS := kvS ]} -> healthy w.
Proof.
  intros Ho Ed Es. split; [done|]. rewrite Ed, Es. split; [intros r m [<- <-]%lookup_singleton_Some; reflexivity|].
  split; intros *; rewrite lookup_empty; discriminate.
Qed.

(** The batch touches neither the tries nor the flag. *)
Lemma flush_same w key ops : opn w = true ->
  let w' := snd ((_ ← db_Put atomicTrieMetaDBPrefix appliedSharedMemoryCursorKey key; applyBatch ops) w) in
  opn w' = true /\ dirty w' = dirty w /\ saved w' = saved w.
Proof.
  intros Ho. unfold applyBatch, wrapM, readM, mbind, StM_bind. cbn [db_Put db_CommitBatch database sm_Apply sharedmem].
  unfold if_open. rewrite Ho. cbn [opn with_mem]. rewrite Ho.
  by destruct (decide _).
Qed.

Lemma worldF_same : opn worldF = true /\ dirty worldF = ∅ /\ saved worldF = {[ root_of kvS := kvS ]}.
Proof. exact (flush_same worldS keyS {[ peer := big ]} eq_refl). Qed.

Lemma flushed : worldF ∈ flush_states (S (length (it_rest iterS))) ∅ 6 iterS ∅ 0 worldS.
Proof.
  destruct (it_Next_cons entryS [] iterS) as (it' & EN & _ & Hk & Hn & Hc & Ha); [done|exact entryS_wf|].
  cbn [flush_states]. rewrite EN. cbn [negb]. rewrite Hn, Ha, op_requestsS, Hk, Hc.
  assert (op_height entryS = 5) as -> by reflexivity. cbn [PutRequests RemoveRequests big].
  rewrite length_bigPuts. apply list_elem_of_here.
Qed.

#[local] Opaque worldF.

Lemma restartS : restarts worldF worldR.
Proof.
  destruct worldF_same as (H1 & H2 & H3). split; [by apply healthy_saved|]. split; [by intros c|]. done.
Qed.

Lemma pendingS : pending_ops ∅ 6 [entryS] = [(peer, big)].
Proof.
  unfold pending_ops. assert (op_height entryS = 5) as HH by reflexivity.
  rewrite filter_cons_True by (rewrite HH; split; [lia|apply lookup_empty]).
  rewrite fmap_cons, op_requestsS. reflexivity.
Qed.


End stateexamples.
