(* ===== verification/AtomicVerify.v ===== *)
(** * Semantic verification of atomic transactions

    [plugin/evm/atomic/vm/tx_semantic_verifier.go]: the fee and flow checks, the
    credentials, the UTXOs an import spends, and the conflicts with the ancestors that
    are not accepted yet.

    The flow checker, the feature extension and the recovery of public keys belong to
    libraries; a block is what [extension.ExtendedBlock] shows of it. *)

From S2P Require Import Prelude Deps GoStd Packer AtomicTypes AtomicCodec ExtState AtomicTx Store.
Import atomic codec atomictx.

(** [lux.FlowChecker] *)
Class FlowLib (F : Type) := {
  NewFlowChecker : F;
  Produce : F -> ID -> Z -> F;
  Consume : F -> ID -> Z -> F;
  FlowChecker_Verify : F -> result unit
}.

(** [secp256k1fx.Fx.VerifyTransfer], [secp256k1fx.Credential.Verify], the cache that
    recovers public keys, and the address of a key. *)
Class FxLib (PublicKey : Type) := {
  VerifyTransfer : UnsignedImportTx -> TransferableIn -> Verifiable -> TransferableOut -> result unit;
  Credential_Verify : list (list byte) -> result unit;
  RecoverPublicKey : list byte -> list byte -> result PublicKey;
  PublicKey_EVMAddress : PublicKey -> Address
}.

Module semantic.

Definition ErrAssetIDMismatch : error := errors_New "vm.ErrAssetIDMismatch".
Definition ErrConflictingAtomicInputs : error := errors_New "vm.ErrConflictingAtomicInputs".
Definition errRejectedParent : error := errors_New "vm.errRejectedParent".
Definition errPublicKeySignatureMismatch : error := errors_New "vm.errPublicKeySignatureMismatch".

(** [AtomicTxs] is [None] when the block extension is not an [AtomicBlockContext]. *)
Record ExtendedBlock := mkExtendedBlock {
  eb_ID : ID;
  Height : Z;
  Parent : ID;
  AtomicTxs : option (list Tx)
}.

(** [BlockFetcher] *)
Record BlockFetcher := mkFetcher {
  GetExtendedBlock : ID -> result ExtendedBlock;
  LastAcceptedExtendedBlock : ExtendedBlock
}.

(** [VerifierBackend], without its libraries; [HasSharedMemory]: the type assertion on
    [Runtime.SharedMemory] succeeds. *)
Record VerifierBackend := mkVerifier {
  Runtime : Context_;
  HasSharedMemory : bool;
  Bootstrapped : bool;
  Fetcher : BlockFetcher
}.

(** [set.Set.Overlaps] *)
Definition Overlaps (s t : gset ID) : bool := bool_decide (s ∩ t <> ∅).

Section Verifier.
Context {UL : UtxoLib} {SM : SafeMath} {PL : PackerLib} {F : Type} {FL : FlowLib F}
  {PublicKey : Type} {FX : FxLib PublicKey}.
Context {W Batch : Type} {MEM : SharedMemory W Batch}.

(** The loop over the ancestors that are not accepted. *)
Fixpoint conflicts_loop (fuel : nat) (fetcher : BlockFetcher) (inputs : gset ID) (ancestor : ExtendedBlock)
    : result unit :=
  match fuel with
  | O => Err out_of_fuel
  | S fuel' =>
      if Height ancestor <=? Height (LastAcceptedExtendedBlock fetcher) then Ok tt else
      match AtomicTxs ancestor with
      | None => Err (errors_New "expected block extension to be AtomicBlockContext")
      | Some txs =>
          _ ← check_all (fun tx =>
                utxos ← Tx_InputUTXOs tx;
                fail_if (Overlaps inputs utxos) ErrConflictingAtomicInputs) txs;
          match GetExtendedBlock fetcher (Parent ancestor) with
          | Ok nextAncestor => conflicts_loop fuel' fetcher inputs nextAncestor
          | Err _ => Err errRejectedParent
          | Panic => Panic
          end
      end
  end.

(** Every step goes to a lower block. *)
Definition conflicts (fetcher : BlockFetcher) (inputs : gset ID) (ancestor : ExtendedBlock) : result unit :=
  conflicts_loop (S (Z.to_nat (Height ancestor - Height (LastAcceptedExtendedBlock fetcher))))
    fetcher inputs ancestor.

(** The loop over the inputs of an import with their credentials and UTXOs. *)
Fixpoint verifyTransfers (utx : UnsignedImportTx) (ins : list TransferableInput)
    (creds : list Verifiable) (allUTXOBytes : list (list byte)) : result unit :=
  match ins with
  | [] => Ok tt
  | i :: ins' =>
      match allUTXOBytes, creds with
      | utxoBytes :: allUTXOBytes', cred :: creds' =>
          v ← wrap_err "failed to unmarshal UTXO" (Codec_Unmarshal utxoBytes D_UTXO);
          match snd v with
          | V_UTXO utxo =>
              _ ← fail_if (bool_decide (UTXO_AssetID utxo <> TI_AssetID i)) ErrAssetIDMismatch;
              _ ← wrap_err "import tx transfer failed verification"
                    (VerifyTransfer utx (TI_In i) cred (UTXO_Out utxo));
              verifyTransfers utx ins' creds' allUTXOBytes'
          | _ => Panic
          end
      | _, _ => Panic
      end
  end.

Definition ImportTx_flow (ctx : Context_) (txFee : Z) (utx : UnsignedImportTx) : F :=
  let fc := Produce NewFlowChecker (ctx_UTXOAssetID ctx) txFee in
  let fc := fold_left (fun fc out => Produce fc (EO_AssetID out) (EO_Amount out)) (Outs utx) fc in
  fold_left (fun fc i => Consume fc (TI_AssetID i) (In_Amount (TI_In i))) (ImportedInputs utx) fc.

(** [semanticVerifier.ImportTx] *)
Definition verify_ImportTx (backend : VerifierBackend) (stx : Tx) (utx : UnsignedImportTx)
    (parent : ExtendedBlock) (baseFee : option Z) (w : W) : result unit :=
  _ ← Import_Verify (Runtime backend) (Some utx);
  gasUsed ← Tx_GasUsed stx true;
  txFee ← CalculateDynamicFee gasUsed baseFee;
  _ ← wrap_err "import tx flow check failed" (FlowChecker_Verify (ImportTx_flow (Runtime backend) txFee utx));
  _ ← fail_if (negb (length (Creds stx) =? length (ImportedInputs utx))%nat)
        (errors_New "import tx contained mismatched number of inputs/credentials");
  if negb (Bootstrapped backend) then Ok tt else
  if negb (HasSharedMemory backend) then Err (errors_New "atomic import unavailable") else
  let utxoIDs := map (fun i => InputID (TI_TxID i) (TI_OutputIndex i)) (ImportedInputs utx) in
  allUTXOBytes ← wrap_err "failed to fetch import UTXOs" (sm_Get w (SourceChain utx) utxoIDs);
  _ ← verifyTransfers utx (ImportedInputs utx) (Creds stx) allUTXOBytes;
  conflicts (Fetcher backend) (Import_InputUTXOs utx) parent.

Definition ExportTx_flow (ctx : Context_) (txFee : Z) (utx : UnsignedExportTx) : F :=
  let fc := Produce NewFlowChecker (ctx_UTXOAssetID ctx) txFee in
  let fc := fold_left (fun fc out => Produce fc (TO_AssetID out) (Out_Amount (TO_Out out)))
              (ExportedOutputs utx) fc in
  fold_left (fun fc i => Consume fc (EI_AssetID i) (EI_Amount i)) (Ins utx) fc.

(** The loop over the inputs of an export with their credentials. *)
Fixpoint verifySignatures (unsignedBytes : list byte) (ins : list EVMInput) (creds : list Verifiable)
    : result unit :=
  match ins with
  | [] => Ok tt
  | input :: ins' =>
      match creds with
      | [] => Panic
      | OtherCredential :: _ => Err (errors_New "expected *secp256k1fx.Credential")
      | Credential sigs :: creds' =>
          _ ← Credential_Verify sigs;
          match sigs with
          | [sig] =>
              pubKey ← RecoverPublicKey unsignedBytes sig;
              _ ← fail_if (bool_decide (EI_Address input <> PublicKey_EVMAddress pubKey))
                    errPublicKeySignatureMismatch;
              verifySignatures unsignedBytes ins' creds'
          | _ => Err (errors_New "expected one signature for EVM Input Credential")
          end
      end
  end.

(** [semanticVerifier.ExportTx] *)
Definition verify_ExportTx (backend : VerifierBackend) (stx : Tx) (utx : UnsignedExportTx)
    (baseFee : option Z) : result unit :=
  _ ← Export_Verify (Runtime backend) (Some utx);
  gasUsed ← Tx_GasUsed stx true;
  txFee ← CalculateDynamicFee gasUsed baseFee;
  _ ← wrap_err "export tx flow check failed" (FlowChecker_Verify (ExportTx_flow (Runtime backend) txFee utx));
  _ ← fail_if (negb (length (Ins utx) =? length (Creds stx))%nat)
        (errors_New "export tx contained mismatched number of inputs/credentials");
  verifySignatures (md_unsignedBytes (EX_Metadata utx)) (Ins utx) (Creds stx).

(** [VerifierBackend.SemanticVerify]: the visitor dispatches on the type. *)
Definition SemanticVerify (backend : VerifierBackend) (tx : Tx) (parent : ExtendedBlock)
    (baseFee : option Z) (w : W) : result unit :=
  dispatch tx (fun utx => verify_ImportTx backend tx utx parent baseFee w)
    (fun utx => verify_ExportTx backend tx utx baseFee).

End Verifier.

End semantic.
