(* ===== verification/AtomicVM.v ===== *)
(** * The atomic VM

    [plugin/evm/atomic/vm]: the callbacks of the consensus engine ([vm.go]), which build
    the atomic part of a block from the mempool and verify that of a received block, and
    the block extension ([block_extension.go]), which carries a block through its
    verification, acceptance and rejection.

    The chain configuration selects no behaviour here and is left out; the blocks and
    their parents come from the inner VM, an argument. *)

From S2P Require Import Prelude Deps GoStd Lp176 CustomTypes Header Consensus TxHeap Mempool Packer AtomicTypes AtomicCodec ExtState AtomicTx Store AtomicRepo AtomicTrie AtomicBackend AtomicVerify.
Import atomic codec atomictx extstate repo trie backend semantic.

Module atomicvm.

(** [40 * constants.KiB] *)
Definition targetAtomicTxsSize : Z := 40 * 1024.
Definition maxAtomicTxMempoolGas : Z := AtomicGasLimit.

Definition errNilEthBlock : error := errors_New "vm.errNilEthBlock".
Definition ErrMissingUTXOs : error := errors_New "vm.ErrMissingUTXOs".
Definition ErrEmptyBlock : error := errors_New "vm.ErrEmptyBlock".

(** The parts of [VM] the code reads: [HasBlock] is [Blockchain().HasBlock]. *)
Record VM := mkVM {
  vm_Runtime : Context_;
  vm_HasSharedMemory : bool;
  vm_bootstrapped : bool;
  vm_Fetcher : BlockFetcher;
  HasBlock : Hash -> Z -> bool
}.

Definition NewVerifierBackend (vm : VM) : VerifierBackend :=
  mkVerifier (vm_Runtime vm) (vm_HasSharedMemory vm) (vm_bootstrapped vm) (vm_Fetcher vm).

Definition SignedBytes (tx : Tx) : list byte :=
  match Unsigned tx with Some u => md_bytes (get_Metadata u) | None => [] end.

(** The transactions of the pool have their unsigned part: [tx.ID()] is the first thing
    the pool calls. *)
#[export] Instance atomicPoolTx {UL : UtxoLib} {SM : SafeMath} {PL : PackerLib} : PoolTx Tx := {|
  Mempool.Tx_ID := tx_id;
  Mempool.Tx_InputUTXOs tx := match atomictx.Tx_InputUTXOs tx with Ok utxos => utxos | _ => ∅ end;
  Mempool.Tx_GasUsed := atomictx.Tx_GasUsed;
  Mempool.Tx_Burned := atomictx.Tx_Burned
|}.

Section VM.
Context {UL : UtxoLib} {SM : SafeMath} {PL : PackerLib} {RG : AtomicRange} {GL : GasLib}
  {F : Type} {FL : FlowLib F} {PublicKey : Type} {FX : FxLib PublicKey}.
Context {W Batch T N : Type} {DB : VersionDB W Batch} {MEM : SharedMemory W Batch} {TL : TrieLib W T N}
  {RO : OpsRange}.
Context {Cache Bloom : Type} {LC : LRU Tx Cache} {BF : BloomFilter Tx Bloom} {ROT : RangeOrder Tx}.
Context {G : Type} {GDB : GethStateDB G} {SN : Snapshots G}.
Context (ComputeHash256 : list byte -> ID) (Header_Hash : types.Header -> Hash).

(** What a callback can change: the mempool, the backend (nil while the VM starts), the
    store behind it, and the state it is called on. *)
Record VMState := mkVMState {
  vs_mempool : txpool.Mempool Tx Cache Bloom;
  vs_backend : option AtomicBackend;
  vs_world : W;
  vs_db : G
}.

Definition with_pool (s : VMState) (t : txpool.Txs Tx Cache) : VMState :=
  mkVMState (txpool.set_Txs (vs_mempool s) t) (vs_backend s) (vs_world s) (vs_db s).
Definition with_statedb (s : VMState) (g : G) : VMState :=
  mkVMState (vs_mempool s) (vs_backend s) (vs_world s) g.

Definition vs_pool (s : VMState) : txpool.Txs Tx Cache := txpool.mp_Txs (vs_mempool s).
Definition update_pool (f : txpool.Txs Tx Cache -> txpool.Txs Tx Cache) : StM VMState unit := fun s =>
  (Ok tt, with_pool s (f (vs_pool s))).
Definition on_statedb {A} (m : StM G A) : StM VMState A := fun s =>
  let '(r, g) := m (vs_db s) in (r, with_statedb s g).
Definition on_backend {A} (b : AtomicBackend) (m : StM (AtomicBackend * W) A) : StM VMState A := fun s =>
  let '(r, (b, w)) := m (b, vs_world s) in (r, mkVMState (vs_mempool s) (Some b) w (vs_db s)).

(** [newStateDBWrapper(extstate.New(statedb))] works on [statedb] itself. *)
Definition wrapped {A} (m : StM (StateDB G) A) : StM G A := fun g =>
  let '(r, s) := m (New g) in (r, db s).

(** ** Verification of transactions *)

Definition verifyTx (vm : VM) (tx : Tx) (parentHash : Hash) (baseFee : option Z) (w : W) : StM G unit :=
  parent ← lift (wrap_err "failed to get parent block" (GetExtendedBlock (vm_Fetcher vm) parentHash));
  _ ← lift (SemanticVerify (NewVerifierBackend vm) tx parent baseFee w);
  wrapped (Tx_EVMStateTransfer (vm_Runtime vm) tx).

Fixpoint verifyTxs_loop (vm : VM) (ancestor : ExtendedBlock) (baseFee : option Z) (w : W) (txs : list Tx)
    (inputs : gset ID) : result unit :=
  match txs with
  | [] => Ok tt
  | tx :: txs' =>
      _ ← wrap_err "invalid block due to failed semantic verify"
            (SemanticVerify (NewVerifierBackend vm) tx ancestor baseFee w);
      txInputs ← atomictx.Tx_InputUTXOs tx;
      if Overlaps inputs txInputs then Err ErrConflictingAtomicInputs
      else verifyTxs_loop vm ancestor baseFee w txs' (inputs ∪ txInputs)
  end.

Definition verifyTxs (vm : VM) (txs : list Tx) (parentHash : Hash) (baseFee : option Z) (height : Z) (w : W)
    : result unit :=
  if negb (HasBlock vm parentHash ((height -u 1)%word)) then Err errRejectedParent else
  match GetExtendedBlock (vm_Fetcher vm) parentHash with
  | Ok ancestor => verifyTxs_loop vm ancestor baseFee w txs ∅
  | Err _ => Err errRejectedParent
  | Panic => Panic
  end.

(** [verifyTxAtTip]: the preferred block, its state and the clock are arguments. *)
Definition verifyTxAtTip (vm : VM) (preferredBlock : types.Header) (StateAt : Hash -> result G)
    (timestamp : Z) (w : W) (tx : Tx) : result unit :=
  _ ← fail_if (targetAtomicTxsSize <? Z.of_nat (length (SignedBytes tx)))
        (errors_New "tx size exceeds total atomic txs size target");
  gasUsed ← atomictx.Tx_GasUsed tx true;
  _ ← fail_if (maxAtomicTxMempoolGas <? gasUsed)
        (errors_New "tx gas usage exceeds maximum allowed mempool gas usage");
  preferredState ← wrap_err "failed to retrieve block state at tip while verifying atomic tx"
                     (StateAt (types.Root preferredBlock));
  nextBaseFee ← wrap_err "failed to calculate base fee" (header.EstimateNextBaseFee preferredBlock timestamp);
  fst (verifyTx vm tx (Header_Hash preferredBlock) (Some nextBaseFee) w preferredState).

(** ** Building *)

(** [verifyTx] under a snapshot, to which a failure reverts. *)
Definition tryTx (vm : VM) (hdr : types.Header) (tx : Tx) : StM VMState bool := fun s =>
  let '(snapshot, g) := Snapshot (vs_db s) in
  match verifyTx vm tx (types.ParentHash hdr) (types.BaseFee hdr) (vs_world s) g with
  | (Ok _, g) => (Ok true, with_statedb s g)
  | (Err _, g) =>
      (Ok false, with_statedb (with_pool s (txpool.DiscardCurrentTx (vs_pool s) (tx_id tx)))
                   (RevertToSnapshot snapshot g))
  | (Panic, g) => (Panic, with_statedb s g)
  end.

Definition nextTx : StM VMState (option Tx) := fun s =>
  let '(r, t) := txpool.NextTx (vs_pool s) in (r, with_pool s t).

(** [preBatchOnFinalizeAndAssemble], which nothing calls any more. Each turn of the loop
    takes a transaction out of the heap. *)
Fixpoint preBatch_loop (fuel : nat) (vm : VM) (hdr : types.Header) : StM VMState (option (list byte * Z * Z)) :=
  match fuel with
  | O => lift (Err out_of_fuel)
  | S fuel' =>
      next ← nextTx;
      match next with
      | None => mret None
      | Some tx =>
          ok ← tryTx vm hdr tx;
          if negb (ok : bool) then preBatch_loop fuel' vm hdr else
          match Codec_Marshal CodecVersion (V_Tx (Some tx)) with
          | Ok atomicTxBytes =>
              c ← lift (BlockFeeContribution tx true (ctx_UTXOAssetID (vm_Runtime vm)) (types.BaseFee hdr));
              mret (Some (atomicTxBytes, fst c, snd c))
          | Err e =>
              _ ← update_pool (fun t => txpool.DiscardCurrentTx t (tx_id tx));
              lift (Err (errorf_w "failed to marshal atomic transaction" e))
          | Panic => lift Panic
          end
      end
  end.

(** The heap is what the loops run through. *)
Definition heap_fuel (s : VMState) : nat := S (txheap.Len (txpool.txHeap (vs_pool s))).

Definition emptyBlock {Transaction} (txs : list Transaction)
    : StM VMState (list byte * option Z * option Z) :=
  if (length txs =? 0)%nat then lift (Err ErrEmptyBlock) else mret ([], None, None).

Definition preBatchOnFinalizeAndAssemble {Transaction} (vm : VM) (hdr : types.Header) (txs : list Transaction)
    : StM VMState (list byte * option Z * option Z) := fun s =>
  (r ← preBatch_loop (heap_fuel s) vm hdr;
   match r with
   | Some (atomicTxBytes, contribution, gasUsed) => mret (atomicTxBytes, Some contribution, Some gasUsed)
   | None => emptyBlock txs
   end) s.

(** The variables of the batch loop. *)
Record batch := mkBatch {
  batchAtomicTxs : list Tx;
  batchAtomicUTXOs : gset ID;
  batchContribution : Z;
  batchGasUsed : Z;
  batch_size : Z
}.

Definition add_to_batch (acc : batch) (tx : Tx) (utxos : gset ID) (contribution gasUsed txSize : Z) : batch :=
  mkBatch (batchAtomicTxs acc ++ [tx]) (batchAtomicUTXOs acc ∪ utxos)
    (batchContribution acc + contribution) (batchGasUsed acc + gasUsed) (batch_size acc + txSize).

Fixpoint postBatch_loop (fuel : nat) (vm : VM) (hdr : types.Header) (atomicGasLimit : Z) (acc : batch)
    : StM VMState batch :=
  match fuel with
  | O => lift (Err out_of_fuel)
  | S fuel' =>
      next ← nextTx;
      match next with
      | None => mret acc
      | Some tx =>
          let txSize := Z.of_nat (length (SignedBytes tx)) in
          if targetAtomicTxsSize <? batch_size acc + txSize then
            _ ← update_pool (fun t => txpool.CancelCurrentTx t (tx_id tx));
            mret acc
          else
          c ← lift (BlockFeeContribution tx true (ctx_UTXOAssetID (vm_Runtime vm)) (types.BaseFee hdr));
          let '(txContribution, txGasUsed) := c in
          if negb (utils.BigLessOrEqualUint64 (Some (batchGasUsed acc + txGasUsed)) atomicGasLimit) then
            _ ← update_pool (fun t => txpool.CancelCurrentTx t (tx_id tx));
            mret acc
          else
          utxos ← lift (atomictx.Tx_InputUTXOs tx);
          if Overlaps (batchAtomicUTXOs acc) utxos then
            _ ← update_pool (fun t => txpool.DiscardCurrentTx t (tx_id tx));
            postBatch_loop fuel' vm hdr atomicGasLimit acc
          else
          ok ← tryTx vm hdr tx;
          postBatch_loop fuel' vm hdr atomicGasLimit
            (if (ok : bool) then add_to_batch acc tx utxos txContribution txGasUsed txSize else acc)
      end
  end.

Definition postBatchOnFinalizeAndAssemble {Transaction} (vm : VM) (hdr parent : types.Header)
    (txs : list Transaction) : StM VMState (list byte * option Z * option Z) := fun s =>
  (atomicGasLimit ← lift (header.RemainingAtomicGasCapacity parent hdr);
   acc ← postBatch_loop (heap_fuel s) vm hdr atomicGasLimit (mkBatch [] ∅ 0 0 0);
   if (0 <? length (batchAtomicTxs acc))%nat then
     match Codec_Marshal CodecVersion (V_Txs (Some <$> batchAtomicTxs acc)) with
     | Ok atomicTxBytes => mret (atomicTxBytes, Some (batchContribution acc), Some (batchGasUsed acc))
     | Err e =>
         _ ← update_pool txpool.DiscardCurrentTxs;
         lift (Err (errorf_w "failed to marshal batch of atomic transactions" e))
     | Panic => lift Panic
     end
   else emptyBlock txs) s.

Definition onFinalizeAndAssemble {Transaction} (vm : VM) (hdr parent : types.Header) (txs : list Transaction)
    : StM VMState (list byte * option Z * option Z) :=
  postBatchOnFinalizeAndAssemble vm hdr parent txs.

(** ** Verification of a block *)

(** The loop over the transactions: contribution and gas so far. *)
Fixpoint transferTxs (vm : VM) (baseFee : option Z) (txs : list Tx) (contribution gasUsed : Z)
    : StM G (Z * Z) :=
  match txs with
  | [] => mret (contribution, gasUsed)
  | tx :: txs' =>
      _ ← wrapped (Tx_EVMStateTransfer (vm_Runtime vm) tx);
      c ← lift (BlockFeeContribution tx true (ctx_UTXOAssetID (vm_Runtime vm)) baseFee);
      transferTxs vm baseFee txs' (contribution + fst c) (gasUsed + snd c)
  end.

(** The backend's part: nothing while the VM starts. *)
Definition insertBlock (vm : VM) (hdr : types.Header) (txs : list Tx) : StM VMState unit := fun s =>
  match vs_backend s with
  | None => (Ok tt, s)
  | Some b =>
      let number := u64 (types.Number hdr) in
      (_ ← (if IsBonus b number (Header_Hash hdr) then mret tt
            else lift (verifyTxs vm txs (types.ParentHash hdr) (types.BaseFee hdr) number (vs_world s)));
       _ ← on_backend b (InsertTxs (Header_Hash hdr) number (types.ParentHash hdr) txs);
       mret tt) s
  end.

(** [extData]: [customtypes.BlockExtData(block)]. *)
Definition onExtraStateChange (vm : VM) (extData : list byte) (hdr parent : types.Header)
    : StM VMState (option Z * option Z) :=
  txs ← lift (ExtractAtomicTxs ComputeHash256 extData true);
  _ ← insertBlock vm hdr txs;
  if (length txs =? 0)%nat then mret (None, None) else
  c ← on_statedb (transferTxs vm (types.BaseFee hdr) txs 0 0);
  let '(contribution, gasUsed) := c in
  atomicGasLimit ← lift (header.RemainingAtomicGasCapacity parent hdr);
  if negb (utils.BigLessOrEqualUint64 (Some gasUsed) atomicGasLimit)
  then lift (Err (errors_New "atomic gas used exceeds atomic gas limit"))
  else mret (Some contribution, Some gasUsed).

End VM.

End atomicvm.
