(* ===== verification/AtomicBlock.v ===== *)
(** * The block extension

    [plugin/evm/atomic/vm/block_extension.go], and the parts of [vm.go] around it: the
    outcome of building a block, the status of a transaction and the shared memory used
    when there is none. A block extension is its block and its atomic transactions. *)

From S2P Require Import Prelude Deps GoStd Lp176 CustomTypes Header Consensus TxHeap Mempool Packer AtomicTypes AtomicCodec ExtState AtomicTx Store AtomicRepo AtomicTrie AtomicBackend AtomicVerify AtomicVM.
Import atomic codec atomictx extstate repo trie backend semantic atomicvm.

(** [atomic.Status] of [status.go] *)
Inductive Status := Unknown | Dropped | Processing | Accepted.

Module blockext.

(** [vmerrors] *)
Definition ErrGenerateBlockFailed : error := errors_New "vmerrors.ErrGenerateBlockFailed".
Definition ErrBlockVerificationFailed : error := errors_New "vmerrors.ErrBlockVerificationFailed".
Definition ErrWrapBlockFailed : error := errors_New "vmerrors.ErrWrapBlockFailed".

Section Block.
Context {UL : UtxoLib} {SM : SafeMath} {PL : PackerLib}.
Context {W Batch T N : Type} {DB : VersionDB W Batch} {MEM : SharedMemory W Batch} {TL : TrieLib W T N}
  {RO : OpsRange}.
Context {Cache Bloom : Type} {LC : LRU Tx Cache} {BF : BloomFilter Tx Bloom} {ROT : RangeOrder Tx}.
Context {G Transaction : Type}.
Context (ComputeHash256 : list byte -> ID) (Header_Hash : types.Header -> Hash) (rlpHash : list byte -> Hash).

#[local] Abbreviation VMState := (@VMState W Cache Bloom G).

(** [blockExtension] with what it reads of its [ExtendedBlock]. *)
Record blockExtension := mkBlockExtension {
  be_atomicTxs : list Tx;
  be_ID : ID;
  be_Height : Z;
  be_ethBlock : option (Block Transaction)
}.

Definition NewBlockExtension (id : ID) (height : Z) (ethBlock : option (Block Transaction))
    : ExtM blockExtension :=
  match ethBlock with
  | None => lift (Err errNilEthBlock)
  | Some b =>
      extData ← BlockExtData b;
      atomicTxs ← lift (ExtractAtomicTxs ComputeHash256 (default [] extData) true);
      mret (mkBlockExtension atomicTxs id height ethBlock)
  end.

Fixpoint sumGasUsed (txs : list Tx) (totalGasUsed : Z) : result Z :=
  match txs with
  | [] => Ok totalGasUsed
  | tx :: txs' =>
      gasUsed ← atomictx.Tx_GasUsed tx true;
      totalGasUsed ← Add64 totalGasUsed gasUsed;
      sumGasUsed txs' totalGasUsed
  end.

Definition SyntacticVerify (be : blockExtension) : ExtM unit :=
  match be_ethBlock be with
  | None => lift (Err errNilEthBlock)
  | Some ethBlock =>
      l ← GetHeaderExtra Header_Hash (block_Header ethBlock);
      headerExtra ← load l;
      extraData ← BlockExtData ethBlock;
      if bool_decide (HE_ExtDataHash headerExtra <> CalcExtDataHash rlpHash (default [] extraData))
      then lift (Err (errors_New "extra data hash mismatch")) else
      if (length (block_Transactions ethBlock) =? 0)%nat && (length (be_atomicTxs be) =? 0)%nat
      then lift (Err ErrEmptyBlock) else
      totalGasUsed ← lift (sumGasUsed (be_atomicTxs be) 0);
      if negb (utils.BigEqualUint64 (HE_ExtDataGasUsed headerExtra) totalGasUsed)
      then lift (Err (errors_New "invalid extDataGasUsed")) else mret tt
  end.

(** [verifyUTXOsPresent] *)
Definition verifyUTXOsPresent (vm : VM) (b : AtomicBackend) (be : blockExtension) (w : W) : result unit :=
  if IsBonus b (be_Height be) (be_ID be) then Ok tt else
  if negb (vm_HasSharedMemory vm) then Ok tt else
  check_all (fun tx =>
    ops ← atomictx.Tx_AtomicOps tx;
    match sm_Get w (fst ops) (RemoveRequests (snd ops)) with
    | Ok _ => Ok tt
    | Err _ => Err (errorf_w "%s" ErrMissingUTXOs)
    | Panic => Panic
    end) (be_atomicTxs be).

(** A nil backend is a nil dereference. *)
Definition SemanticVerify (vm : VM) (be : blockExtension) (s : VMState) : result unit :=
  if vm_bootstrapped vm then
    match vs_backend s with
    | Some b => verifyUTXOsPresent vm b be (vs_world s)
    | None => Panic
    end
  else Ok tt.

Definition on_verified (bh : Hash) (m : atomicState -> StM (AtomicBackend * W) unit) : StM VMState unit :=
  fun s =>
  match vs_backend s with
  | None => (Panic, s)
  | Some b => on_backend b (state ← lift (GetVerifiedAtomicState b bh); m state) s
  end.

Definition Accept (be : blockExtension) (acceptedBatch : Batch) : StM VMState unit :=
  _ ← update_pool (fun t => fold_left txpool.RemoveTx (be_atomicTxs be) t);
  on_verified (be_ID be) (fun state => backend.Accept ComputeHash256 state acceptedBatch).

(** One transaction of a rejected block: an error of [AddRemoteTx] is only logged. *)
Definition reissueTx (tx : Tx) : StM VMState unit := fun s =>
  let m := txpool.set_Txs (vs_mempool s) (txpool.RemoveTx (vs_pool s) tx) in
  let '(r, m) := txpool.AddRemoteTx m tx in
  (match r with Panic => Panic | _ => Ok tt end, mkVMState m (vs_backend s) (vs_world s) (vs_db s)).

Definition Reject (be : blockExtension) : StM VMState unit :=
  _ ← for_each reissueTx (be_atomicTxs be);
  on_verified (be_ID be) backend.Reject.

(** The error of [Reject] is dropped. *)
Definition CleanupVerified (be : blockExtension) : StM VMState unit := fun s =>
  match be_ethBlock be, vs_backend s with
  | Some ethBlock, Some b =>
      match GetVerifiedAtomicState b (Header_Hash (block_Header ethBlock)) with
      | Ok state => let '(r, s) := on_backend b (backend.Reject state) s in
                    (match r with Panic => Panic | _ => Ok tt end, s)
      | _ => (Ok tt, s)
      end
  | _, _ => (Panic, s)
  end.

(** [VM.BuildBlockWithContext]: the inner VM builds, then the pool settles. *)
Definition BuildBlockWithContext {A} (inner : StM VMState A) : StM VMState A := fun s =>
  let '(r, s) := inner s in
  let t := vs_pool s in
  (r, with_pool s
        match r with
        | Ok _ => txpool.IssueCurrentTxs t
        | Err err =>
            if errors_Is err ErrGenerateBlockFailed || errors_Is err ErrBlockVerificationFailed
            then txpool.CancelCurrentTxs t
            else if errors_Is err ErrWrapBlockFailed then txpool.DiscardCurrentTxs t
            else t
        | Panic => t
        end).

(** [VM.GetAtomicTx]: the transaction, its status and its height. *)
Definition GetAtomicTx (txID : ID) (s : VMState) : result (option Tx * Status * Z) :=
  match GetByTxID ComputeHash256 txID (vs_world s) with
  | Ok (tx, height) => Ok (Some tx, Accepted, height)
  | Panic => Panic
  | Err e =>
      if negb (bool_decide (e = ErrNotFound)) then Err e else
      match txpool.GetTx (vs_pool s) txID with
      | (tx, true, true) => Ok (tx, Dropped, 0)
      | (tx, false, true) => Ok (tx, Processing, 0)
      | _ => Ok (None, Unknown, 0)
      end
  end.

End Block.

(** [noopSharedMemory]: values are not looked up, operations are dropped and the batches
    are written. *)
Section Noop.
Context {W Batch : Type} {MEM : SharedMemory W Batch}.

Definition noop_Get (keys : list (list byte)) : result (list (list byte)) := Ok (replicate (length keys) []).

Definition noop_Apply (ops : gmap ID Requests) (batches : list Batch) : StM W unit :=
  match batches with
  | [] => mret tt
  | b :: bs => WriteAll b bs
  end.

(** Its [WriteAll] is the library's. *)
Definition noopSharedMemory : SharedMemory W Batch := {|
  sm_Get w c keys := noop_Get keys;
  sm_Apply := noop_Apply;
  WriteAll := WriteAll
|}.
End Noop.

End blockext.
