(* ===== verification/AtomicVerifySpec.v ===== *)
(** * What semantic verification establishes

    A transaction that passes pays its fee; an import conflicts with no ancestor that is
    not accepted yet; the transactions of a verified block share no input. *)

From S2P Require Import Prelude Deps GoStd Lp176 CustomTypes Header Consensus TxHeap Mempool Packer AtomicTypes AtomicCodec AtomicFormat ExtState AtomicTx AtomicTxSpec Store AtomicRepo AtomicTrie AtomicBackend AtomicVerify AtomicVM.
Import atomic codec wire atomictx atomicspec semantic atomicvm.

(** Everything produced, then everything consumed. *)
Definition run_flow {F} {FL : FlowLib F} (produced consumed : list (ID * Z)) : F :=
  fold_left (fun fc e => Consume fc (fst e) (snd e)) consumed
    (fold_left (fun fc e => Produce fc (fst e) (snd e)) produced NewFlowChecker).

(** No asset is produced beyond what is consumed, and no sum overflows. *)
Class FlowLibSpec {F} {FL : FlowLib F} : Prop := {
  FlowChecker_sound P C aid :
    Forall (fun e : ID * Z => is_u64 (snd e)) P -> Forall (fun e : ID * Z => is_u64 (snd e)) C ->
    FlowChecker_Verify (run_flow P C) = Ok tt ->
    total fst snd aid P <= total fst snd aid C <= MaxUint64
}.

Module verifyspec.

(** ** Conflicts with ancestors *)

(** Blocks are found under their ID, and a parent is below its children. *)
Definition known (f : BlockFetcher) (b : ExtendedBlock) : Prop := GetExtendedBlock f (eb_ID b) = Ok b.

Record fetcher_ok (f : BlockFetcher) : Prop := {
  fetched_known id b : GetExtendedBlock f id = Ok b -> eb_ID b = id;
  fetched_lower b b' : known f b -> Height (LastAcceptedExtendedBlock f) < Height b ->
    GetExtendedBlock f (Parent b) = Ok b' -> Height b' < Height b
}.

(** The ancestors of a block, itself included, that are above the last accepted one. *)
Inductive processing (f : BlockFetcher) : ExtendedBlock -> list ExtendedBlock -> Prop :=
| processing_accepted b : Height b <= Height (LastAcceptedExtendedBlock f) -> processing f b []
| processing_step b b' l : Height (LastAcceptedExtendedBlock f) < Height b ->
    GetExtendedBlock f (Parent b) = Ok b' -> processing f b' l -> processing f b (b :: l).

Section Conflicts.
Context {UL : UtxoLib} {PL : PackerLib}.

(** The block spends none of the inputs. *)
Definition spends_none (inputs : gset ID) (b : ExtendedBlock) : Prop :=
  exists txs, AtomicTxs b = Some txs /\
    Forall (fun tx => exists utxos, Tx_InputUTXOs tx = Ok utxos /\ inputs ## utxos) txs.

Lemma Overlaps_false s t : Overlaps s t = false <-> s ## t.
Proof.
  unfold Overlaps. rewrite bool_decide_eq_false. split.
  - intros H%dec_stable. by apply disjoint_intersection_L.
  - intros H%disjoint_intersection_L Hn. by apply Hn.
Qed.

Lemma check_block inputs txs :
  check_all (fun tx => utxos ← Tx_InputUTXOs tx; fail_if (Overlaps inputs utxos) ErrConflictingAtomicInputs) txs
    = Ok tt <->
  Forall (fun tx => exists utxos, Tx_InputUTXOs tx = Ok utxos /\ inputs ## utxos) txs.
Proof.
  rewrite check_all_Ok. apply Forall_proper; [|done]. intros tx. rewrite bind_Ok_iff.
  setoid_rewrite fail_if_Ok_iff. by setoid_rewrite Overlaps_false.
Qed.

Lemma conflicts_loop_Ok f inputs b fuel : fetcher_ok f -> known f b ->
  (Z.to_nat (Height b - Height (LastAcceptedExtendedBlock f)) < fuel)%nat ->
  conflicts_loop fuel f inputs b = Ok tt <->
  exists l, processing f b l /\ Forall (spends_none inputs) l.
Proof.
  intros Hf. revert b. induction fuel as [|fuel IH]; intros b Hk Hfuel; [lia|]. cbn [conflicts_loop].
  destruct (Z.leb_spec (Height b) (Height (LastAcceptedExtendedBlock f))) as [Hle|Hgt].
  { split; [|done]. intros _. exists []. split; [by constructor|constructor]. }
  transitivity (spends_none inputs b /\ exists b', GetExtendedBlock f (Parent b) = Ok b' /\
    exists l, processing f b' l /\ Forall (spends_none inputs) l).
  - unfold spends_none at 1. destruct (AtomicTxs b) as [txs|]; [|naive_solver].
    rewrite bind_unit_iff, check_block.
    destruct (GetExtendedBlock f (Parent b)) as [b'|e|] eqn:Eg; [|naive_solver..].
    rewrite IH; [naive_solver| |].
    + unfold known. by rewrite (fetched_known f Hf _ _ Eg).
    + pose proof (fetched_lower f Hf b b' Hk Hgt Eg). lia.
  - split.
    + intros (Hs & b' & Eg & l & Hl & Hall). exists (b :: l). split; [by econstructor|by constructor].
    + intros (l & Hl & Hall). inversion Hl as [|? b' l' _ Eg Hl']; subst; [lia|]. inversion_clear Hall.
      split; [done|]. exists b'. split; [done|]. by exists l'.
Qed.


Lemma processing_unique f b l l' : processing f b l -> processing f b l' -> l = l'.
Proof.
  intros Hl. revert l'. induction Hl as [b Hle|b b' l Hgt Eg _ IH]; intros l' Hl'.
  - inversion Hl'; [done|lia].
  - inversion Hl' as [|? b1 l1 _ Eg1 Hl1]; subst; [lia|]. rewrite Eg in Eg1. injection Eg1 as <-. by rewrite (IH l1).
Qed.

End Conflicts.

(** ** Fees *)

Section Fees.
Context {UL : UtxoLib} {SM : SafeMath} {SMS : SafeMathSpec SM} {PL : PackerLib} {F : Type} {FL : FlowLib F}
  {FS : FlowLibSpec} {PublicKey : Type} {FX : FxLib PublicKey}.
Context {W Batch : Type} {MEM : SharedMemory W Batch}.

Lemma total_map {A} asset amount aid (l : list A) :
  total fst snd aid ((fun x => (asset x, amount x)) <$> l) = total asset amount aid l.
Proof. unfold total. by induction l as [|x l IH]; [|rewrite fmap_cons; cbn; f_equal]. Qed.

Lemma fold_map {A B S} (g : A -> B) (f : S -> B -> S) l s :
  fold_left f (g <$> l) s = fold_left (fun s x => f s (g x)) l s.
Proof. revert s. induction l as [|x l IH]; intros s; [done|]. apply IH. Qed.

(** The flow check of [oa]/[om] outputs against [ia]/[im] inputs with a fee. *)
Lemma flow_covers_fee {A B} (oa : A -> ID) om (ia : B -> ID) im aid fee outs ins :
  is_u64 fee -> Forall (fun x => is_u64 (om x)) outs -> Forall (fun x => is_u64 (im x)) ins ->
  FlowChecker_Verify (run_flow ((aid, fee) :: ((fun x => (oa x, om x)) <$> outs)) ((fun x => (ia x, im x)) <$> ins))
    = Ok tt ->
  (spent ← sumAsset oa om aid outs 0; input ← sumAsset ia im aid ins 0; Sub64 input spent) =
    Ok (total ia im aid ins - total oa om aid outs) /\
  fee <= total ia im aid ins - total oa om aid outs <= MaxUint64.
Proof.
  intros Hf Ho Hi HV. apply (FlowChecker_sound _ _ aid) in HV; first last.
  { by apply list.Forall_fmap. }
  { constructor; [done|]. by apply list.Forall_fmap. }
  assert (0 <= total oa om aid outs) by (apply total_nonneg; eapply list.Forall_impl; [exact Ho|u64_lia]).
  unfold total at 1 in HV. cbn [foldr fst snd] in HV. rewrite bool_decide_eq_true_2 in HV by done.
  fold (total (A := ID * Z) fst snd aid ((fun x => (oa x, om x)) <$> outs)) in HV.
  rewrite !total_map in HV. split; [|u64_lia]. apply Burned_Ok; [done..|]. u64_lia.
Qed.

Lemma is_u64_amounts_import u : valid_Import u ->
  Forall (fun o => is_u64 (EO_Amount o)) (Outs u) /\
  Forall (fun i => is_u64 ((In_Amount ∘ TI_In) i)) (ImportedInputs u).
Proof.
  intros (_ & _ & _ & [_ Hi] & [_ Ho]). split; eapply list.Forall_impl; try done; cbn.
  - intros o Hv. apply Hv.
  - intros i (_ & _ & _ & Hv). destruct (TI_In i); [apply Hv|done].
Qed.

Lemma is_u64_amounts_export u : valid_Export u ->
  Forall (fun o => is_u64 ((Out_Amount ∘ TO_Out) o)) (ExportedOutputs u) /\
  Forall (fun i => is_u64 (EI_Amount i)) (Ins u).
Proof.
  intros (_ & _ & _ & [_ Hi] & [_ Ho]). split; eapply list.Forall_impl; try done; cbn.
  - intros o [_ Hv]. destruct (TO_Out o); [apply Hv|done].
  - intros i Hv. apply Hv.
Qed.

Lemma SemanticVerify_Ok backend tx parent baseFee w : valid_Tx tx ->
  SemanticVerify backend tx parent baseFee w = Ok tt ->
  exists gas fee burned, Tx_Verify (Runtime backend) tx = Ok tt /\ Tx_GasUsed tx true = Ok gas /\
    CalculateDynamicFee gas baseFee = Ok fee /\
    Tx_Burned tx (ctx_UTXOAssetID (Runtime backend)) = Ok burned /\ fee <= burned <= MaxUint64.
Proof.
  intros Hv. unfold SemanticVerify, Tx_Verify, Tx_Burned, dispatch. unfold valid_Tx in Hv.
  destruct (Unsigned tx) as [[u|u]|] eqn:Eu; [| |done]; destruct Hv as [Hv _]; intros HS.
  - unfold verify_ImportTx in HS. apply bind_Ok in HS as ([] & HV & HS). apply bind_Ok in HS as (gas & HG & HS).
    apply bind_Ok in HS as (fee & HF & HS). apply bind_Ok in HS as ([] & HFC%wrap_err_Ok & _).
    apply CalculateDynamicFee_Ok in HF as HF'. destruct HF' as (b & -> & _ & Hu).
    destruct (is_u64_amounts_import u Hv) as [Ho Hi].
    destruct (flow_covers_fee EO_AssetID EO_Amount TI_AssetID (In_Amount ∘ TI_In)
                (ctx_UTXOAssetID (Runtime backend)) fee (Outs u) (ImportedInputs u)) as [HB Hle]; [done..| |].
    + unfold run_flow. cbn [fold_left fst snd]. by rewrite !fold_map.
    + eexists gas, fee, _. split_and!; [done|done|done|exact HB|lia..].
  - unfold verify_ExportTx in HS. apply bind_Ok in HS as ([] & HV & HS). apply bind_Ok in HS as (gas & HG & HS).
    apply bind_Ok in HS as (fee & HF & HS). apply bind_Ok in HS as ([] & HFC%wrap_err_Ok & _).
    apply CalculateDynamicFee_Ok in HF as HF'. destruct HF' as (b & -> & _ & Hu).
    destruct (is_u64_amounts_export u Hv) as [Ho Hi].
    destruct (flow_covers_fee TO_AssetID (Out_Amount ∘ TO_Out) EI_AssetID EI_Amount
                (ctx_UTXOAssetID (Runtime backend)) fee (ExportedOutputs u) (Ins u)) as [HB Hle]; [done..| |].
    + unfold run_flow. cbn [fold_left fst snd]. by rewrite !fold_map.
    + eexists gas, fee, _. split_and!; [done|done|done|exact HB|lia..].
Qed.

(** C15. A transaction that passes semantic verification is well formed and burns at least the
    dynamic fee of its gas: its contribution to the block fee is what it burns beyond it,
    and is never negative. *)
Theorem verified_pays_fee backend tx parent bf w : valid_Tx tx -> 0 < bf ->
  SemanticVerify backend tx parent (Some bf) w = Ok tt ->
  Tx_Verify (Runtime backend) tx = Ok tt /\
  exists gas burned, Tx_GasUsed tx true = Ok gas /\
    Tx_Burned tx (ctx_UTXOAssetID (Runtime backend)) = Ok burned /\ fee_of gas bf <= burned /\
    BlockFeeContribution tx true (ctx_UTXOAssetID (Runtime backend)) (Some bf) =
      Ok ((burned - fee_of gas bf) * X2CRate, gas).
Proof.
  intros Hv Hbf HS. destruct (SemanticVerify_Ok _ _ _ _ _ Hv HS) as (gas & fee & burned & HV & HG & HF & HB & Hle).
  split; [done|]. exists gas, burned. split; [done|]. split; [done|].
  pose proof HF as (b & [= <-] & Hfee & Hu)%CalculateDynamicFee_Ok. subst fee. split; [lia|].
  unfold BlockFeeContribution. destruct (Z.leb_spec bf 0); [lia|]. rewrite HG. cbn [mbind result_bind].
  rewrite HF. cbn [mbind result_bind]. rewrite HB. cbn [mbind result_bind].
  destruct (Z.ltb_spec burned (fee_of gas bf)); [lia|].
  rewrite (Z.mod_small (burned - fee_of gas bf)) by (unfold MaxUint64, is_u64 in *; lia). done.
Qed.

End Fees.

(** ** The transactions of a block *)

Section Block.
Context {UL : UtxoLib} {SM : SafeMath} {PL : PackerLib} {F : Type} {FL : FlowLib F}
  {PublicKey : Type} {FX : FxLib PublicKey}.
Context {W Batch : Type} {MEM : SharedMemory W Batch}.

(** No transaction spends one of the inputs, or an input of one before it. *)
Fixpoint disjoint_inputs (inputs : gset ID) (txs : list Tx) : Prop :=
  match txs with
  | [] => True
  | tx :: txs' => exists utxos, Tx_InputUTXOs tx = Ok utxos /\ inputs ## utxos /\
      disjoint_inputs (inputs ∪ utxos) txs'
  end.

Lemma disjoint_inputs_app inputs l k : disjoint_inputs inputs (l ++ k) <->
  exists us, disjoint_inputs inputs l /\ Forall2 (fun tx u => Tx_InputUTXOs tx = Ok u) l us /\
    disjoint_inputs (inputs ∪ ⋃ us) k.
Proof.
  revert inputs. induction l as [|tx l IH]; intros inputs; cbn.
  - split.
    + intros Hk. exists []. rewrite union_list_nil, union_empty_r_L. by split_and!.
    + intros (us & _ & Hf & Hk). inversion Hf; subst. by rewrite union_list_nil, union_empty_r_L in Hk.
  - setoid_rewrite IH. split.
    + intros (u & Hu & Hd & us & Hl & Hf & Hk). exists (u :: us). split; [by exists u|]. split; [by constructor|].
      by rewrite union_list_cons, union_assoc_L.
    + intros (us & (u & Hu & Hd & Hl) & Hf & Hk). inversion Hf as [|? u' ? us' Hu' Hf']; subst.
      rewrite Hu in Hu'. injection Hu' as <-. exists u. split; [done|]. split; [done|]. exists us'.
      split; [done|]. split; [done|]. by rewrite union_list_cons, union_assoc_L in Hk.
Qed.

Lemma verifyTxs_loop_Ok vm b baseFee w txs inputs :
  verifyTxs_loop vm b baseFee w txs inputs = Ok tt <->
  Forall (fun tx => SemanticVerify (NewVerifierBackend vm) tx b baseFee w = Ok tt) txs /\
  disjoint_inputs inputs txs.
Proof.
  revert inputs. induction txs as [|tx txs IH]; intros inputs; cbn [verifyTxs_loop disjoint_inputs]; [by split|].
  rewrite bind_unit_iff, list.Forall_cons, wrap_err_Ok_iff, bind_Ok_iff. split.
  - intros (HS & u & Hu & HI). destruct (Overlaps inputs u) eqn:EO; [done|]. apply Overlaps_false in EO.
    apply IH in HI as [? ?]. split; [done|]. by exists u.
  - intros [[HS HF] (u & Hu & Hd & HI)]. split; [done|]. exists u. split; [done|].
    apply Overlaps_false in Hd as ->. by apply IH.
Qed.

End Block.

End verifyspec.
