(* ===== verification/AtomicVMSpec.v ===== *)
(** * Building and verifying agree

    What [postBatchOnFinalizeAndAssemble] puts in a block, [onExtraStateChange] accepts on
    another node, with the same effect on the state. States are compared up to an
    equivalence: reverting to a snapshot restores what can be read, not the journal. *)

From S2P Require Import Prelude Deps GoStd Lp176 CustomTypes Header Consensus TxHeap Mempool Packer AtomicTypes AtomicCodec AtomicFormat ExtState AtomicTx AtomicTxSpec Store AtomicRepo AtomicTrie AtomicBackend AtomicVerify AtomicVM AtomicVerifySpec.
Import atomic codec wire atomictx atomicspec extstate repo trie backend semantic atomicvm verifyspec.

(** ** Equivalent states *)

(** The operations of [atomic.StateDB] do not tell equivalent states apart. *)
Class AtomicStateEquiv (S : Type) {DB : AtomicStateDB S} {E : Equiv S} : Prop := {
  #[global] ase_equivalence :: Equivalence (≡@{S});
  #[global] AddBalance_proper :: Proper ((≡) ==> (=) ==> (=) ==> (≡)) AddBalance;
  #[global] AddBalanceMultiCoin_proper :: Proper ((≡) ==> (=) ==> (=) ==> (=) ==> (≡)) AddBalanceMultiCoin;
  #[global] SubBalance_proper :: Proper ((≡) ==> (=) ==> (=) ==> (≡)) SubBalance;
  #[global] SubBalanceMultiCoin_proper :: Proper ((≡) ==> (=) ==> (=) ==> (=) ==> (≡)) SubBalanceMultiCoin;
  #[global] GetBalance_proper :: Proper ((≡) ==> (=) ==> (=)) GetBalance;
  #[global] GetBalanceMultiCoin_proper :: Proper ((≡) ==> (=) ==> (=) ==> (=)) GetBalanceMultiCoin;
  #[global] GetNonce_proper :: Proper ((≡) ==> (=) ==> (=)) GetNonce;
  #[global] SetNonce_proper :: Proper ((≡) ==> (=) ==> (=) ==> (≡)) SetNonce
}.

(** A preorder that every change of the state follows. *)
Class AtomicStateSteps (S : Type) {DB : AtomicStateDB S} (R : relation S) : Prop := {
  #[global] ass_preorder :: PreOrder R;
  AddBalance_step s a x : R s (AddBalance s a x);
  AddBalanceMultiCoin_step s a c x : R s (AddBalanceMultiCoin s a c x);
  SubBalance_step s a x : R s (SubBalance s a x);
  SubBalanceMultiCoin_step s a c x : R s (SubBalanceMultiCoin s a c x);
  SetNonce_step s a n : R s (SetNonce s a n)
}.

(** Two runs with the same result and equivalent states. *)
Definition agree {S A} `{Equiv S} (x y : result A * S) : Prop := fst x = fst y /\ snd x ≡ snd y.

(** ** geth's state *)

(** One change of the state. *)
Inductive geth_step {G} {GDB : GethStateDB G} : relation G :=
| step_AddBalance g a x : geth_step g (geth_AddBalance g a x)
| step_SubBalance g a x : geth_step g (geth_SubBalance g a x)
| step_SetState g a k v : geth_step g (geth_SetState g a k v)
| step_SetNonce g a n : geth_step g (geth_SetNonce g a n).

(** Reverting to a snapshot undoes the changes made since. *)
Class GethEquiv (G : Type) {GDB : GethStateDB G} {SN : Snapshots G} {E : Equiv G} : Prop := {
  #[global] ge_equivalence :: Equivalence (≡@{G});
  #[global] geth_GetState_proper :: Proper ((≡) ==> (=) ==> (=) ==> (=)) geth_GetState;
  #[global] geth_SetState_proper :: Proper ((≡) ==> (=) ==> (=) ==> (=) ==> (≡)) geth_SetState;
  #[global] geth_GetBalance_proper :: Proper ((≡) ==> (=) ==> (=)) geth_GetBalance;
  #[global] geth_AddBalance_proper :: Proper ((≡) ==> (=) ==> (=) ==> (≡)) geth_AddBalance;
  #[global] geth_SubBalance_proper :: Proper ((≡) ==> (=) ==> (=) ==> (≡)) geth_SubBalance;
  #[global] geth_GetNonce_proper :: Proper ((≡) ==> (=) ==> (=)) geth_GetNonce;
  #[global] geth_SetNonce_proper :: Proper ((≡) ==> (=) ==> (=) ==> (≡)) geth_SetNonce;
  Snapshot_equiv g : snd (Snapshot g) ≡ g;
  RevertToSnapshot_equiv g g' :
    rtc geth_step (snd (Snapshot g)) g' -> RevertToSnapshot (fst (Snapshot g)) g' ≡ g
}.

Module vmspec.

Section Transfer.
Context {S : Type} {DB : AtomicStateDB S}.

Section Equivalent.
Context {E : Equiv S} {ASE : AtomicStateEquiv S}.

Lemma agree_bind {A B} (m m' : result A * S) (k : A -> StM S B) :
  agree m m' -> (forall a s s', s ≡ s' -> agree (k a s) (k a s')) ->
  agree (match m with (Ok a, s) => k a s | (Err e, s) => (Err e, s) | (Panic, s) => (Panic, s) end)
        (match m' with (Ok a, s) => k a s | (Err e, s) => (Err e, s) | (Panic, s) => (Panic, s) end).
Proof.
  intros [Hr Hs] Hk. destruct m as [r s], m' as [r' s']. cbn in Hr, Hs. subst r'.
  destruct r; [by apply Hk|by split..].
Qed.

Lemma Import_respects ctx u s s' : s ≡ s' -> Import_EVMStateTransfer ctx u s ≡ Import_EVMStateTransfer ctx u s'.
Proof.
  unfold Import_EVMStateTransfer. revert s s'. induction (Outs u) as [|o l IH]; intros s s' Hs; [done|].
  cbn [fold_left]. apply IH. case_bool_decide; by rewrite Hs.
Qed.

Lemma exportInput_respects ctx i s s' : s ≡ s' -> agree (exportInput ctx i s) (exportInput ctx i s').
Proof.
  intros Hs. unfold exportInput. rewrite !(GetBalance_proper _ _ Hs _ _ eq_refl).
  rewrite !(GetBalanceMultiCoin_proper _ _ Hs _ _ eq_refl _ _ eq_refl).
  case_bool_decide; destruct (_ <? _); try by split.
  - assert (SubBalance s (EI_Address i) ((EI_Amount i * X2CRate) mod 2 ^ 256) ≡
            SubBalance s' (EI_Address i) ((EI_Amount i * X2CRate) mod 2 ^ 256)) as Hs1 by by rewrite Hs.
    rewrite (GetNonce_proper _ _ Hs1 _ _ eq_refl). by destruct (negb _).
  - assert (SubBalanceMultiCoin s (EI_Address i) (EI_AssetID i) (EI_Amount i) ≡
            SubBalanceMultiCoin s' (EI_Address i) (EI_AssetID i) (EI_Amount i)) as Hs1 by by rewrite Hs.
    rewrite (GetNonce_proper _ _ Hs1 _ _ eq_refl). by destruct (negb _).
Qed.

Lemma exportInputs_respects ctx ins addrs s s' : s ≡ s' ->
  agree (exportInputs ctx ins addrs s) (exportInputs ctx ins addrs s').
Proof.
  revert addrs s s'. induction ins as [|i ins IH]; intros addrs s s' Hs; [by split|].
  cbn [exportInputs]. apply agree_bind; [by apply exportInput_respects|]. intros [] s1 s1'. apply IH.
Qed.

Lemma setNonces_respects l s s' : s ≡ s' -> agree (setNonces l s) (setNonces l s').
Proof.
  intros Hs. split; [done|]. unfold setNonces. cbn [snd]. revert s s' Hs.
  induction l as [|[a n] l IH]; intros s s' Hs; [done|]. cbn [fold_left]. apply IH. by rewrite Hs.
Qed.

Lemma Tx_EVMStateTransfer_respects {RG : AtomicRange} ctx tx s s' : s ≡ s' ->
  agree (Tx_EVMStateTransfer ctx tx s) (Tx_EVMStateTransfer ctx tx s').
Proof.
  intros Hs. unfold Tx_EVMStateTransfer. destruct (Unsigned tx) as [[u|u]|]; [| |by split].
  - split; [done|]. by apply Import_respects.
  - unfold Export_EVMStateTransfer. apply agree_bind; [by apply exportInputs_respects|].
    intros addrs. apply setNonces_respects.
Qed.

End Equivalent.

Section Steps.
Context (R : relation S) {ASS : AtomicStateSteps S R}.

Lemma exportInput_steps ctx i s : R s (snd (exportInput ctx i s)).
Proof.
  unfold exportInput. case_bool_decide; destruct (_ <? _); cbn; try done; destruct (negb _); cbn;
    apply SubBalance_step || apply SubBalanceMultiCoin_step.
Qed.

Lemma exportInputs_steps ctx ins addrs s : R s (snd (exportInputs ctx ins addrs s)).
Proof.
  revert addrs s. induction ins as [|i ins IH]; intros addrs s; [done|]. cbn [exportInputs].
  unfold mbind, StM_bind. pose proof (exportInput_steps ctx i s) as HR.
  destruct (exportInput ctx i s) as [[]  s1]; [|done..]. etransitivity; [exact HR|apply IH].
Qed.

Lemma fold_steps {A} (f : S -> A -> S) l s : (forall s x, R s (f s x)) -> R s (fold_left f l s).
Proof.
  intros Hf. revert s. induction l as [|x l IH]; intros s; [done|]. cbn [fold_left].
  etransitivity; [apply Hf|apply IH].
Qed.

Lemma Tx_EVMStateTransfer_steps {RG : AtomicRange} ctx tx s : R s (snd (Tx_EVMStateTransfer ctx tx s)).
Proof.
  unfold Tx_EVMStateTransfer. destruct (Unsigned tx) as [[u|u]|]; [| |done]; cbn [snd].
  - apply fold_steps. intros s1 o. case_bool_decide; [apply AddBalance_step|apply AddBalanceMultiCoin_step].
  - unfold Export_EVMStateTransfer, mbind, StM_bind. pose proof (exportInputs_steps ctx (Ins u) ∅ s) as HR.
    destruct (exportInputs ctx (Ins u) ∅ s) as [[addrs| |] s1]; [|done..]. etransitivity; [exact HR|].
    apply fold_steps. intros s2 [a n]. apply SetNonce_step.
Qed.

End Steps.
End Transfer.

(** ** The wrapped state *)

Section Wrapped.
Context {G : Type} {GDB : GethStateDB G} {SN : Snapshots G} {E : Equiv G} {GE : GethEquiv G}.

#[export] Instance StateDB_equiv : Equiv (StateDB G) := fun s s' =>
  db s ≡ db s' /\ predicateStorageSlots s = predicateStorageSlots s'.

#[export] Instance stateDBWrapper_equiv : AtomicStateEquiv (StateDB G).
Proof.
  assert (Proper ((≡) ==> (=) ==> (=) ==> (=)) (ext_GetBalanceMultiCoin (G := G))) as HG.
  { intros s s' [Hs _] ? a -> ? c ->. unfold ext_GetBalanceMultiCoin. by rewrite Hs. }
  split.
  - split; [by intros s|intros s s' [? ?]; by split|].
    intros s1 s2 s3 [H1 H2] [H3 H4]. split; [by rewrite H1|congruence].
  - intros s s' [H1 H2] ? a -> ? x ->. split; cbn; [by rewrite H1|done].
  - intros s s' Hs ? a -> ? c -> ? x ->. cbn. unfold ext_AddBalanceMultiCoin, SetState.
    rewrite (HG _ _ Hs _ _ eq_refl _ _ eq_refl). destruct Hs as [H1 H2].
    destruct (Z.sgn x =? 0); split; cbn; try done; by rewrite H1.
  - intros s s' [H1 H2] ? a -> ? x ->. split; cbn; [by rewrite H1|done].
  - intros s s' Hs ? a -> ? c -> ? x ->. cbn. unfold ext_SubBalanceMultiCoin, SetState.
    rewrite (HG _ _ Hs _ _ eq_refl _ _ eq_refl). pose proof Hs as [H1 H2].
    destruct (Z.sgn x =? 0); [done|]. split; cbn; [by rewrite H1|done].
  - intros s s' [H1 H2] ? a ->. cbn. by rewrite H1.
  - exact HG.
  - intros s s' [H1 H2] ? a ->. cbn. by rewrite H1.
  - intros s s' [H1 H2] ? a -> ? x ->. split; cbn; [by rewrite H1|done].
Qed.

Definition db_steps : relation (StateDB G) := fun s s' => rtc geth_step (db s) (db s').

#[export] Instance stateDBWrapper_steps : AtomicStateSteps (StateDB G) db_steps.
Proof.
  split; unfold db_steps; cbn.
  - split; [by intros s|intros s1 s2 s3 H1 H2; by etransitivity].
  - intros. apply rtc_once. constructor.
  - intros. unfold ext_AddBalanceMultiCoin. destruct (Z.sgn x =? 0); apply rtc_once; constructor.
  - intros. apply rtc_once. constructor.
  - intros. unfold ext_SubBalanceMultiCoin. destruct (Z.sgn x =? 0); [done|]. apply rtc_once. constructor.
  - intros. apply rtc_once. constructor.
Qed.

(** The effect of a transaction on geth's state. *)
Lemma wrapped_respects {RG : AtomicRange} ctx tx (g g' : G) : g ≡ g' ->
  agree (wrapped (Tx_EVMStateTransfer ctx tx) g) (wrapped (Tx_EVMStateTransfer ctx tx) g').
Proof.
  intros Hg. assert (New g ≡ New g') as HN by by split.
  pose proof (Tx_EVMStateTransfer_respects ctx tx _ _ HN) as [H1 [H2 _]]. unfold wrapped, agree in *.
  by destruct (Tx_EVMStateTransfer ctx tx (New g)), (Tx_EVMStateTransfer ctx tx (New g')).
Qed.

Lemma wrapped_steps {RG : AtomicRange} ctx tx (g : G) :
  rtc geth_step g (snd (wrapped (Tx_EVMStateTransfer ctx tx) g)).
Proof.
  pose proof (Tx_EVMStateTransfer_steps db_steps ctx tx (New g)) as HR. unfold wrapped, db_steps in *.
  by destruct (Tx_EVMStateTransfer ctx tx (New g)).
Qed.

End Wrapped.

(** ** Building *)

Section Building.
Context {UL : UtxoLib} {SM : SafeMath} {PL : PackerLib} {PS : PackerSpec} {RG : AtomicRange} {GL : GasLib}
  {F : Type} {FL : FlowLib F} {PublicKey : Type} {FX : FxLib PublicKey}.
Context {W Batch : Type} {MEM : SharedMemory W Batch}.
Context {Cache Bloom : Type} {LC : LRU Tx Cache} {ROT : RangeOrder Tx} {ROS : RangeOrderSpec Tx}.
Context {G : Type} {GDB : GethStateDB G} {SN : Snapshots G} {E : Equiv G} {GE : GethEquiv G}.
Context (h : list byte -> ID) (vm : VM) (hdr : types.Header).

Notation VMState := (VMState (W := W) (Cache := Cache) (Bloom := Bloom) (G := G)).
Notation aid := (ctx_UTXOAssetID (vm_Runtime vm)).
Notation bf := (types.BaseFee hdr).

(** The pool holds transactions the node has parsed. *)
Definition pool_ok (s : VMState) : Prop :=
  txpool.places_wf (vs_pool s) /\ map_Forall (fun _ tx => parsed h tx) (txpool.pool (vs_pool s)).

(** Only the pool and the state change. *)
Definition same_store (s s' : VMState) : Prop :=
  vs_backend s' = vs_backend s /\ vs_world s' = vs_world s.

#[local] Instance same_store_trans : Transitive same_store.
Proof. unfold same_store. intros s1 s2 s3 [? ?] [? ?]. split; congruence. Qed.

(** The transaction is verified on the parent of the block. *)
Definition passes (w : W) (tx : Tx) : Prop :=
  exists parent, GetExtendedBlock (vm_Fetcher vm) (types.ParentHash hdr) = Ok parent /\
    SemanticVerify (NewVerifierBackend vm) tx parent bf w = Ok tt.

Lemma update_pool_bind {A} f (k : unit -> StM VMState A) s :
  (update_pool f ≫= k) s = k tt (with_pool s (f (vs_pool s))).
Proof. done. Qed.

Lemma nextTx_run s : pool_ok s ->
  nextTx s = (Ok None, s) \/
  exists tx s', nextTx s = (Ok (Some tx), s') /\ parsed h tx /\ pool_ok s' /\ same_store s s' /\ vs_db s' = vs_db s /\
    txpool.currentTxs (vs_pool s') !! Mempool.Tx_ID tx = Some tx /\ (heap_fuel s' < heap_fuel s)%nat.
Proof.
  intros [Hw Hp]. unfold nextTx. pose proof (txpool.NextTx_spec _ Hw) as HN.
  destruct (txpool.NextTx (vs_pool s)) as [[[tx|]|e|] t] eqn:EN; [|..|done|done].
  - right. destruct HN as (price & Hh & _ & Hw' & Hpool & _ & Hc). exists tx, (with_pool s t).
    split; [done|]. split.
    { apply (Hp (Mempool.Tx_ID tx)). by rewrite txpool.lookup_pool, Hh. }
    split; [split; [done|]; change (vs_pool (with_pool s t)) with t; by rewrite Hpool|].
    split; [done|]. split; [done|]. split; [done|]. pose proof (txpool.NextTx_shrinks _ _ _ Hw EN).
    unfold heap_fuel. change (vs_pool (with_pool s t)) with t. lia.
  - destruct HN as [-> _]. left. by destruct s as [[] ? ? ?].
Qed.

Lemma discard_ok s tx : pool_ok s -> txpool.currentTxs (vs_pool s) !! Mempool.Tx_ID tx = Some tx ->
  let t := txpool.DiscardCurrentTx (vs_pool s) (tx_id tx) in
  pool_ok (with_pool s t) /\ heap_fuel (with_pool s t) = heap_fuel s.
Proof.
  intros [Hw Hp] Hc t. unfold t, txpool.DiscardCurrentTx. change (tx_id tx : ID) with (Mempool.Tx_ID tx). rewrite Hc.
  destruct (txpool.discardCurrentTx_spec _ _ Hw Hc) as (Hw' & Hpool & _).
  split; [split; [done|]|done]. cbn. rewrite Hpool. by apply map_Forall_delete.
Qed.

Lemma verifyTx_steps tx parentHash baseFee w (g : G) :
  rtc geth_step g (snd (verifyTx vm tx parentHash baseFee w g)).
Proof.
  unfold verifyTx. rewrite lift_bind. destruct (wrap_err _ _) as [parent|e|]; [|done..].
  rewrite lift_bind. destruct (SemanticVerify _ _ _ _ _) as [[]|e|]; [|done..]. apply wrapped_steps.
Qed.

(** A transaction is tried: it passes and takes effect, or it is dropped and the state is
    as before. *)
Lemma tryTx_cases s tx : pool_ok s -> txpool.currentTxs (vs_pool s) !! Mempool.Tx_ID tx = Some tx ->
  match tryTx vm hdr tx s with
  | (Ok true, s') => passes (vs_world s) tx /\ vs_pool s' = vs_pool s /\ same_store s s' /\
      exists g, wrapped (Tx_EVMStateTransfer (vm_Runtime vm) tx) (vs_db s) = (Ok tt, g) /\ vs_db s' ≡ g
  | (Ok false, s') => pool_ok s' /\ same_store s s' /\ vs_db s' ≡ vs_db s /\ heap_fuel s' = heap_fuel s
  | _ => True
  end.
Proof.
  intros Hp Hc. unfold tryTx. pose proof (Snapshot_equiv (vs_db s)) as HS.
  pose proof (RevertToSnapshot_equiv (vs_db s)) as HR. destruct (Snapshot (vs_db s)) as [n g0]. cbn [fst snd] in *.
  pose proof (verifyTx_steps tx (types.ParentHash hdr) bf (vs_world s) g0) as Hst.
  destruct (verifyTx _ _ _ _ _ _) as [[[]|e|] g] eqn:EV; [| |done]; cbn [snd] in Hst.
  - unfold verifyTx in EV. rewrite lift_bind in EV. destruct (wrap_err _ _) as [parent|e|] eqn:EP; [|done..].
    apply wrap_err_Ok in EP. rewrite lift_bind in EV.
    destruct (SemanticVerify _ _ _ _ _) as [[]|e|] eqn:ES; [|done..].
    split; [by exists parent|]. split; [done|]. split; [done|].
    pose proof (wrapped_respects (vm_Runtime vm) tx _ _ HS) as [H1 H2]. rewrite EV in H1, H2. cbn in H1, H2.
    destruct (wrapped _ (vs_db s)) as [r g']. cbn in H1, H2. subst r. by exists g'.
  - destruct (discard_ok s tx Hp Hc) as [Hp' Hf]. split; [exact Hp'|]. split; [done|]. split; [by apply HR|exact Hf].
Qed.

(** The transactions added to a batch, by their effect. *)
Record extends (lim : Z) (acc acc' : batch) (s s' : VMState) (l : list Tx) : Prop := {
  ext_txs : batchAtomicTxs acc' = batchAtomicTxs acc ++ l;
  ext_parsed : Forall (parsed h) l;
  ext_passes : Forall (passes (vs_world s)) l;
  ext_disjoint : disjoint_inputs (batchAtomicUTXOs acc) l;
  ext_state : exists g, transferTxs vm bf l (batchContribution acc) (batchGasUsed acc) (vs_db s) =
      (Ok (batchContribution acc', batchGasUsed acc'), g) /\ vs_db s' ≡ g;
  ext_limit : l = [] \/ utils.BigLessOrEqualUint64 (Some (batchGasUsed acc')) lim = true;
  ext_size : batch_size acc' = batch_size acc + foldr (fun tx n => Z.of_nat (length (SignedBytes tx)) + n) 0 l;
  ext_target : l = [] \/ batch_size acc' <= targetAtomicTxsSize;
  ext_store : same_store s s'
}.

Lemma transferTxs_respects l c n (g g' : G) : g ≡ g' -> agree (transferTxs vm bf l c n g) (transferTxs vm bf l c n g').
Proof.
  revert c n g g'. induction l as [|tx l IH]; intros c n g g' Hg; [by split|]. cbn [transferTxs].
  apply agree_bind; [by apply wrapped_respects|]. intros _ g1 g1' Hg1. rewrite !lift_bind.
  destruct (BlockFeeContribution _ _ _ _) as [[]|e|]; [by apply IH|by split..].
Qed.

Lemma extends_refl lim acc s s' : same_store s s' -> vs_db s' ≡ vs_db s -> extends lim acc acc s s' [].
Proof.
  intros Hs Hdb. split; cbn; try (by left) || done; [by rewrite app_nil_r|by exists (vs_db s)|lia].
Qed.

(** A dropped transaction leaves no trace. *)
Lemma extends_skip lim acc acc' s s1 s' l :
  same_store s s1 -> vs_db s1 ≡ vs_db s -> extends lim acc acc' s1 s' l -> extends lim acc acc' s s' l.
Proof.
  intros Hs Hdb X. pose proof Hs as [_ Hw]. destruct X as [H1 H2 H3 H4 (g & Hg & Hgs) H6 H7 H8 H9].
  split; try done; [by rewrite <- Hw| |by etransitivity].
  destruct (transferTxs_respects l (batchContribution acc) (batchGasUsed acc) _ _ Hdb) as [E1 E2].
  rewrite Hg in E1, E2. destruct (transferTxs vm bf l _ _ (vs_db s)) as [r g']. cbn in E1, E2. subst r.
  exists g'. split; [done|]. by rewrite Hgs.
Qed.

Lemma extends_add lim acc acc' s s1 s' l tx utxos c n g :
  let size := Z.of_nat (length (SignedBytes tx)) in
  parsed h tx -> passes (vs_world s) tx -> Tx_InputUTXOs tx = Ok utxos -> batchAtomicUTXOs acc ## utxos ->
  BlockFeeContribution tx true aid bf = Ok (c, n) ->
  utils.BigLessOrEqualUint64 (Some (batchGasUsed acc + n)) lim = true ->
  batch_size acc + size <= targetAtomicTxsSize ->
  wrapped (Tx_EVMStateTransfer (vm_Runtime vm) tx) (vs_db s) = (Ok tt, g) -> vs_db s1 ≡ g -> same_store s s1 ->
  extends lim (add_to_batch acc tx utxos c n size) acc' s1 s' l -> extends lim acc acc' s s' (tx :: l).
Proof.
  intros size Hp Ht Hu Hd HB HL Hsz HW Hg Hs X. pose proof Hs as [_ Hw].
  destruct X as [H1 H2 H3 H4 (g' & Hg' & Hgs) H6 H7 H8 H9]. cbn in *. split; cbn.
  - by rewrite H1, <- app_assoc.
  - by constructor.
  - constructor; [done|]. by rewrite <- Hw.
  - by exists utxos.
  - destruct (transferTxs_respects l (batchContribution acc + c) (batchGasUsed acc + n) _ _ Hg) as [E1 E2].
    rewrite Hg' in E1, E2. unfold mbind, StM_bind. rewrite HW. cbn. rewrite HB. cbn.
    destruct (transferTxs vm bf l _ _ g) as [r g2]. cbn in E1, E2. subst r. exists g2. split; [done|]. by rewrite Hgs.
  - right. destruct H6 as [->|H6]; [|done]. cbn in Hg'. by injection Hg' as _ <- _.
  - lia.
  - right. destruct H8 as [->|H8]; [|done]. cbn in H7. lia.
  - by etransitivity.
Qed.

Lemma postBatch_loop_spec fuel lim acc s acc' s' : pool_ok s ->
  postBatch_loop fuel vm hdr lim acc s = (Ok acc', s') -> exists l, extends lim acc acc' s s' l.
Proof.
  revert acc s. induction fuel as [|fuel IH]; intros acc s Hp; [done|]. cbn [postBatch_loop].
  destruct (nextTx_run s Hp) as [EN|(tx & s1 & EN & Htx & Hp1 & Hs1 & Hdb1 & Hc & _)];
    rewrite (bindM_step _ _ _ _ _ EN).
  { intros [= <- <-]. exists []. by apply extends_refl. }
  assert (forall t, extends lim acc acc s (with_pool s1 t) []) as Hstop.
  { intros t. apply extends_refl; [exact Hs1|]. cbn. by rewrite Hdb1. }
  destruct (Z.ltb_spec targetAtomicTxsSize (batch_size acc + Z.of_nat (length (SignedBytes tx)))) as [|Hsz].
  { intros [= <- <-]. exists []. apply Hstop. }
  rewrite lift_bind. destruct (BlockFeeContribution _ _ _ _) as [[c n]|e|] eqn:EB; [|done..].
  destruct (utils.BigLessOrEqualUint64 _ lim) eqn:EL; cbn [negb].
  2: { intros [= <- <-]. exists []. apply Hstop. }
  rewrite lift_bind. destruct (Tx_InputUTXOs tx) as [utxos|e|] eqn:EU; [|done..].
  destruct (Overlaps (batchAtomicUTXOs acc) utxos) eqn:EO.
  { destruct (discard_ok s1 tx Hp1 Hc) as [Hp2 _]. rewrite update_pool_bind.
    intros [l X]%IH; [|exact Hp2]. exists l. eapply extends_skip; [..|exact X]; [exact Hs1|]. cbn. by rewrite Hdb1. }
  apply Overlaps_false in EO. pose proof (tryTx_cases s1 tx Hp1 Hc) as HT. unfold mbind, StM_bind.
  pose proof Hs1 as [_ Hw1]. destruct (tryTx vm hdr tx s1) as [[[|]|e|] s2]; [| |done..].
  - destruct HT as (Hpass & Hpool & Hs2 & g & Hg & Hdb2). intros [l X]%IH; [|by unfold pool_ok; rewrite Hpool].
    exists (tx :: l). rewrite Hw1 in Hpass. rewrite Hdb1 in Hg. eapply extends_add; try done. by etransitivity.
  - destruct HT as (Hp2 & Hs2 & Hdb2 & _). intros [l X]%IH; [|done]. exists l.
    eapply extends_skip; [..|exact X]; [by etransitivity|]. by rewrite Hdb2, Hdb1.
Qed.

(** Building ends: the loop takes at most as many turns as the heap has transactions, so
    that any larger bound gives the same result. *)
Theorem build_terminates fuel lim acc s : pool_ok s -> (heap_fuel s <= fuel)%nat ->
  postBatch_loop fuel vm hdr lim acc s = postBatch_loop (heap_fuel s) vm hdr lim acc s.
Proof.
  enough (forall n acc s k, pool_ok s -> (heap_fuel s <= n)%nat -> (heap_fuel s <= k)%nat ->
    postBatch_loop n vm hdr lim acc s = postBatch_loop k vm hdr lim acc s) as H by (intros; by apply H).
  clear acc s fuel. intros n. induction n as [|n IH]; intros acc s [|k] Hp Hn Hk; [unfold heap_fuel in *; lia..|].
  cbn [postBatch_loop].
  destruct (nextTx_run s Hp) as [EN|(tx & s1 & EN & Htx & Hp1 & Hs1 & Hdb1 & Hc & Hf)];
    rewrite !(bindM_step _ _ _ _ _ EN); [done|].
  destruct (targetAtomicTxsSize <? _); [done|].
  rewrite !lift_bind. destruct (BlockFeeContribution _ _ _ _) as [[c m]|e|]; [|done..].
  destruct (utils.BigLessOrEqualUint64 _ lim); [|done]. cbn [negb].
  rewrite !lift_bind. destruct (Tx_InputUTXOs tx) as [utxos|e|]; [|done..].
  destruct (Overlaps (batchAtomicUTXOs acc) utxos).
  { destruct (discard_ok s1 tx Hp1 Hc) as [Hp2 Hf2]. rewrite !update_pool_bind.
    apply IH; [exact Hp2|rewrite Hf2; lia..]. }
  pose proof (tryTx_cases s1 tx Hp1 Hc) as HT. unfold mbind, StM_bind.
  destruct (tryTx vm hdr tx s1) as [[[|]|e|] s2]; [| |done..].
  - destruct HT as (_ & Hpool & _). unfold heap_fuel, pool_ok in *. apply IH; rewrite Hpool; [done|lia..].
  - destruct HT as (Hp2 & _ & _ & Hf2). apply IH; [done|lia..].
Qed.

(** Giving back the only current transaction leaves the pool as it was. *)
Lemma cancel_only (t : txpool.Txs Tx Cache) tx price : txpool.places_wf t ->
  txpool.currentTxs t = {[ Mempool.Tx_ID tx := tx ]} -> txpool.atomicTxGasPrice t tx = Ok price ->
  txheap.pending (txpool.txHeap (txpool.CancelCurrentTxs t)) !! Mempool.Tx_ID tx = Some (price, tx) /\
  txpool.pool (txpool.CancelCurrentTxs t) = txpool.pool t.
Proof.
  intros Hw Hc Hpr. assert (txpool.currentTxs t !! Mempool.Tx_ID tx = Some tx) as Hl
    by by rewrite Hc, lookup_singleton_eq.
  destruct (txpool.current_tx_pool t _ _ Hw Hl) as (Hp & Hi & Hpool).
  destruct (txheap.Push_new Mempool.Tx_ID (txpool.txHeap t) tx price (txpool.pl_heap t Hw) Hp) as [_ Hp'].
  assert (range_map (txpool.currentTxs t) = [(Mempool.Tx_ID tx, tx)]) as HR.
  { apply Permutation_singleton_r. by rewrite range_map_to_list, Hc, map_to_list_singleton. }
  unfold txpool.CancelCurrentTxs. rewrite HR. cbn [fold_left].
  assert (forall t' : txpool.Txs Tx Cache, txpool.txHeap (if bool_decide (0 < txheap.Len (txpool.txHeap t'))%nat
    then txpool.addPending t' else t') = txpool.txHeap t' /\
    txpool.pool (if bool_decide (0 < txheap.Len (txpool.txHeap t'))%nat then txpool.addPending t' else t') =
    txpool.pool t') as Hadd by (intros t'; by case_bool_decide).
  destruct (Hadd (txpool.cancelTx t tx)) as [-> ->].
  destruct (txpool.cancelTx_spec t tx Hw Hl) as (_ & _ & HP). unfold txpool.cancelTx in *. rewrite Hpr in *.
  cbn [txpool.txHeap txpool.set_currentTxs txpool.set_txHeap] in *.
  split; [by rewrite Hp', lookup_insert_eq|]. destruct HP as [[? _]|[HP _]]; [done|].
  apply (f_equal (.!! Mempool.Tx_ID tx)) in HP. rewrite lookup_delete_eq, txpool.lookup_pool in HP.
  cbn [txpool.txHeap txpool.set_currentTxs txpool.set_txHeap] in HP. by rewrite Hp', lookup_insert_eq in HP.
Qed.

(** A transaction at the top of the pool whose fee no longer covers the base fee makes
    every build fail, the other transactions regardless; it is not dropped but given back
    to the pool, and the next build meets it again. *)
Theorem underpriced_tx_fails_build {Transaction} parent (txs : list Transaction) (s : VMState) tx t lim b gas fee burned :
  txpool.places_wf (vs_pool s) -> txpool.currentTxs (vs_pool s) = ∅ -> txpool.UTXOAssetID (vs_pool s) = aid ->
  txpool.NextTx (vs_pool s) = (Ok (Some tx), t) -> Z.of_nat (length (SignedBytes tx)) <= targetAtomicTxsSize ->
  header.RemainingAtomicGasCapacity parent hdr = Ok lim -> bf = Some b -> 0 < b ->
  Tx_GasUsed tx true = Ok gas -> gas <> 0 -> CalculateDynamicFee gas bf = Ok fee ->
  Tx_Burned tx aid = Ok burned -> burned < fee ->
  postBatchOnFinalizeAndAssemble vm hdr parent txs s = (Err (errors_New "insufficient LUX burned"), with_pool s t) /\
  txheap.pending (txpool.txHeap (txpool.CancelCurrentTxs t)) !! Mempool.Tx_ID tx = Some (burned / gas, tx) /\
  txpool.pool (txpool.CancelCurrentTxs t) = txpool.pool (vs_pool s).
Proof.
  intros Hw Hc Ha HN Hsz HL Hbf Hb HG Hg HF HB Hlt. split.
  - assert (nextTx s = (Ok (Some tx), with_pool s t)) as EN by (unfold nextTx; by rewrite HN).
    assert (postBatch_loop (heap_fuel s) vm hdr lim (mkBatch [] ∅ 0 0 0) s =
      (Err (errors_New "insufficient LUX burned"), with_pool s t)) as EL; first last.
    { unfold postBatchOnFinalizeAndAssemble. rewrite lift_bind, HL. unfold mbind, StM_bind. by rewrite EL. }
    unfold heap_fuel. cbn [postBatch_loop]. rewrite (bindM_step _ _ _ _ _ EN). cbn [batch_size].
    destruct (Z.ltb_spec targetAtomicTxsSize (0 + Z.of_nat (length (SignedBytes tx)))) as [|_]; [lia|].
    rewrite lift_bind. unfold BlockFeeContribution. rewrite Hbf. destruct (Z.leb_spec b 0); [lia|].
    rewrite HG. cbn [mbind result_bind]. rewrite <- Hbf, HF. cbn [mbind result_bind]. rewrite HB.
    cbn [mbind result_bind]. destruct (Z.ltb_spec burned fee); [done|lia].
  - pose proof (txpool.NextTx_spec _ Hw) as HS. rewrite HN in HS. destruct HS as (price & _ & _ & Hw' & Hpool & _).
    rewrite <- Hpool. apply cancel_only; [done|..].
    + unfold txpool.NextTx in HN. case_bool_decide; [|done]. destruct (txheap.PopMax _) as [h1 [tx1|]]; [|done].
      injection HN as -> <-. cbn. by rewrite Hc.
    + unfold txpool.atomicTxGasPrice. assert (txpool.UTXOAssetID t = aid) as ->.
      { unfold txpool.NextTx in HN. case_bool_decide; [|done]. destruct (txheap.PopMax _) as [h1 [tx1|]]; [|done].
        by injection HN as -> <-. }
      change (Mempool.Tx_GasUsed tx true) with (Tx_GasUsed tx true). rewrite HG. cbn [mbind result_bind].
      rewrite (proj2 (Z.eqb_neq _ _) Hg). cbn [fail_if mbind result_bind].
      change (Mempool.Tx_Burned tx aid) with (Tx_Burned tx aid). by rewrite HB.
Qed.

End Building.

(** ** What is built is accepted *)

Section Agreement.
Context {UL : UtxoLib} {US : UtxoLibSpec} {SM : SafeMath} {PL : PackerLib} {PS : PackerSpec} {RG : AtomicRange}
  {GL : GasLib} {F : Type} {FL : FlowLib F} {PublicKey : Type} {FX : FxLib PublicKey}.
Context {W Batch T N St : Type} {DB : VersionDB W Batch} {MEM : SharedMemory W Batch}
  {TL : TrieLib W T N} {STM : StoreModel W T St} {SS : StoreSpec atomicTrieDBPrefix}
  {RO : OpsRange} {ROS : OpsRangeSpec}.
Context {Cache Bloom : Type} {LC : LRU Tx Cache} {ROT : RangeOrder Tx} {ROTS : RangeOrderSpec Tx}.
Context {G : Type} {GDB : GethStateDB G} {SN : Snapshots G} {E : Equiv G} {GE : GethEquiv G}.
Context (h : list byte -> ID) (Header_Hash : types.Header -> Hash).

Notation VMState := (VMState (W := W) (Cache := Cache) (Bloom := Bloom) (G := G)).

(** A transaction counts for its bytes. *)
Lemma parsed_size tx : parsed h tx -> exists body, enc_Tx tx = Some body /\
  Z.of_nat (length (SignedBytes tx)) = 2 + Z.of_nat (length body).
Proof.
  intros (t & body & -> & _ & _ & He & Hb & _)%parsed_inv. exists body. split; [by rewrite enc_initialized|].
  change (SignedBytes (initialized h t)) with (tx_bytes (initialized h t)). rewrite Hb.
  unfold message. rewrite length_app, length_be_encode. lia.
Qed.

(** Transactions within the size target of a block are marshalled together. *)
Lemma target_fits l : Forall (parsed h) l ->
  foldr (fun tx n => Z.of_nat (length (SignedBytes tx)) + n) 0 l <= targetAtomicTxsSize -> fits_batch l.
Proof.
  intros Hl Hs.
  assert (exists bs, encodes enc_Tx l = Some bs /\ 2 * Z.of_nat (length l) + Z.of_nat (length bs) <=
    foldr (fun tx n => Z.of_nat (length (SignedBytes tx)) + n) 0 l) as (bs & Hbs & Hle).
  { clear Hs. induction Hl as [|tx l Htx _ (bs & Hbs & Hle)]; [by exists []|].
    destruct (parsed_size tx Htx) as (body & He & Hn). exists (body ++ bs).
    split; [by apply oapp_Some; exists body, bs|]. cbn [foldr length]. rewrite length_app. lia. }
  change targetAtomicTxsSize with 40960 in Hs. split; [unfold len_u32; lia|].
  eexists. split; [by apply oapp_Some; eexists _, bs|]. unfold message.
  rewrite !length_app, !length_be_encode. change maxAtomicMessageSize with 1048576. lia.
Qed.

(** Verification reads the store only through the shared memory. *)
Lemma SemanticVerify_world backend tx parent baseFee w w' :
  (forall c k, sm_Get w' c k = sm_Get w c k) ->
  SemanticVerify backend tx parent baseFee w' = SemanticVerify backend tx parent baseFee w.
Proof.
  intros Hw. unfold SemanticVerify, dispatch. destruct (Unsigned tx) as [[u|u]|]; try done.
  unfold verify_ImportTx. by rewrite Hw.
Qed.

(** Transactions that passed one by one pass as a block. *)
Lemma verifyTxs_Ok vm hdr w w' l b : (forall c k, sm_Get w' c k = sm_Get w c k) ->
  Forall (passes vm hdr w) l -> disjoint_inputs ∅ l ->
  HasBlock vm (types.ParentHash hdr) ((u64 (types.Number hdr) -u 1)%word) = true ->
  GetExtendedBlock (vm_Fetcher vm) (types.ParentHash hdr) = Ok b ->
  verifyTxs vm l (types.ParentHash hdr) (types.BaseFee hdr) (u64 (types.Number hdr)) w' = Ok tt.
Proof.
  intros Hw Hl Hd Hb EG. unfold verifyTxs. rewrite Hb, EG. apply verifyTxs_loop_Ok. split; [|done].
  eapply list.Forall_impl; [exact Hl|]. intros tx (b' & EG' & HS). rewrite EG in EG'. injection EG' as <-.
  by rewrite (SemanticVerify_world _ _ _ _ w w').
Qed.

(** The backend takes the block in, and keeps it until it is decided. *)
Definition holds_block (b : option AtomicBackend) (w : W) (H : Z) (bh : Hash) (txs : list Tx) : Prop :=
  match b with
  | None => True
  | Some b => backend_ok h b w H /\ exists st, verifiedRoots b !! bh = Some st /\ as_txs st = txs
  end.

Lemma insertBlock_run vm hdr txs (s : VMState) H :
  verifyTxs vm txs (types.ParentHash hdr) (types.BaseFee hdr) (u64 (types.Number hdr)) (vs_world s) = Ok tt ->
  (forall b, vs_backend s = Some b -> backend_ok h b (vs_world s) H /\
     permitted (Batch := Batch) h
       (EvVerify (Header_Hash hdr) (u64 (types.Number hdr)) (types.ParentHash hdr) txs) b (vs_world s) H) ->
  exists s', insertBlock Header_Hash vm hdr txs s = (Ok tt, s') /\ vs_db s' = vs_db s /\
    holds_block (vs_backend s') (vs_world s') H (Header_Hash hdr) txs.
Proof.
  intros HV Hb. unfold insertBlock. destruct (vs_backend s) as [b|] eqn:Eb; [|exists s; by rewrite Eb].
  destruct (Hb b eq_refl) as [Hok (Hbh & Hu & Hp & Hf & ops & pr & Hm & Hops & Hpr & Hcol)].
  destruct (root_opens h b (vs_world s) H _ pr Hok Hpr) as [m0 Ho].
  destruct (verify_ok h b (vs_world s) H (Header_Hash hdr) (u64 (types.Number hdr)) (types.ParentHash hdr) txs pr m0 ops)
    as (b' & w' & EI & Hb' & _ & -> & _); [done|done|done|done|done|by apply Hcol|done..|].
  eexists (mkVMState (vs_mempool s) (Some _) w' (vs_db s)). split; [|split]; first last.
  - cbn. split; [exact Hb'|]. eexists. split; [apply lookup_insert_eq|done].
  - done.
  - assert (forall m : StM VMState unit, (if IsBonus b (u64 (types.Number hdr)) (Header_Hash hdr) then mret tt
      else lift (verifyTxs vm txs (types.ParentHash hdr) (types.BaseFee hdr) (u64 (types.Number hdr)) (vs_world s)))
      ≫= (fun _ => m) = m) as -> by (intros m; rewrite HV; by destruct (IsBonus _ _ _)).
    unfold mbind, StM_bind, on_backend. by rewrite EI.
Qed.

(** A header being built and the header of the block it ends up in. *)
Definition same_block (hdr hdr' : types.Header) : Prop :=
  types.ParentHash hdr' = types.ParentHash hdr /\ types.BaseFee hdr' = types.BaseFee hdr /\
  types.Time hdr' = types.Time hdr /\ types.GasUsed hdr' = types.GasUsed hdr.

(** What a successful build puts in the block. *)
Lemma build_cases {Transaction} vm hdr parent (txs : list Transaction) (s s' : VMState) r : pool_ok h s ->
  postBatchOnFinalizeAndAssemble vm hdr parent txs s = (Ok r, s') ->
  exists lim acc l s1, header.RemainingAtomicGasCapacity parent hdr = Ok lim /\
    extends h vm hdr lim (mkBatch [] ∅ 0 0 0) acc s s1 l /\ fits_batch l /\ s' = s1 /\
    (l = [] /\ txs <> [] /\ r = ([], None, None) \/
     l <> [] /\ exists bytes, r = (bytes, Some (batchContribution acc), Some (batchGasUsed acc)) /\
       ExtractAtomicTxs h bytes true = Ok l).
Proof.
  intros Hp. unfold postBatchOnFinalizeAndAssemble. rewrite lift_bind.
  destruct (header.RemainingAtomicGasCapacity parent hdr) as [lim|e|]; [|done..].
  intros (acc & s1 & EL & ER)%bindM_run. destruct (postBatch_loop_spec h vm hdr _ _ _ _ _ _ Hp EL) as [l X].
  exists lim, acc, l, s1. split; [done|]. split; [done|]. pose proof (ext_txs _ _ _ _ _ _ _ _ _ X) as Htx.
  cbn in Htx. rewrite Htx in ER. assert (fits_batch l) as Hfit.
  { apply target_fits; [apply X|]. pose proof (ext_size _ _ _ _ _ _ _ _ _ X) as Hs. cbn in Hs.
    destruct (ext_target _ _ _ _ _ _ _ _ _ X) as [->|Ht]; [done|lia]. }
  split; [done|]. destruct l as [|tx l].
  - cbn in ER. unfold emptyBlock in ER. destruct txs; [done|]. injection ER as <- <-. split; [done|]. by left.
  - destruct (batch_facts h (tx :: l)) as (bytes & EM & EX); [apply X|done|done|]. rewrite EM in ER.
    injection ER as <- <-. split; [done|]. right. split; [done|]. exists bytes. split; [done|].
    unfold ExtractAtomicTxs. pose proof EX as (ts & body & _ & _ & _ & -> & _)%ExtractAtomicTxsBatch_Ok. done.
Qed.

(** C5. A block that a node builds is accepted, with the same fee contribution and atomic gas
    and the same resulting state, by a node with the same view of the chain and of the
    shared memory: the atomic transactions survive the encoding, pass verification
    together, fit the atomic gas limit, and their block is kept until it is decided. *)
Theorem built_block_verifies {Transaction} vm hdr hdr' parent (txs : list Transaction)
    (s s' sv : VMState) extData contribution gasUsed H pb :
  pool_ok h s ->
  postBatchOnFinalizeAndAssemble vm hdr parent txs s = (Ok (extData, contribution, gasUsed), s') ->
  same_block hdr hdr' -> vs_db sv ≡ vs_db s -> (forall c k, sm_Get (vs_world sv) c k = sm_Get (vs_world s) c k) ->
  GetExtendedBlock (vm_Fetcher vm) (types.ParentHash hdr') = Ok pb ->
  HasBlock vm (types.ParentHash hdr') ((u64 (types.Number hdr') -u 1)%word) = true ->
  (forall b atomicTxs, vs_backend sv = Some b -> ExtractAtomicTxs h extData true = Ok atomicTxs ->
     backend_ok h b (vs_world sv) H /\
     permitted (Batch := Batch) h
       (EvVerify (Header_Hash hdr') (u64 (types.Number hdr')) (types.ParentHash hdr') atomicTxs) b (vs_world sv) H) ->
  exists sv' atomicTxs, onExtraStateChange h Header_Hash vm extData hdr' parent sv = (Ok (contribution, gasUsed), sv') /\
    vs_db sv' ≡ vs_db s' /\ ExtractAtomicTxs h extData true = Ok atomicTxs /\
    holds_block (vs_backend sv') (vs_world sv') H (Header_Hash hdr') atomicTxs.
Proof.
  intros Hp HB (Hph & Hbf & Htime & Hgas) Hdb Hw HG HH Hbk.
  destruct (build_cases vm hdr parent txs s s' _ Hp HB) as (lim & acc & l & s1 & EC & X & _ & -> & Hr).
  assert (ExtractAtomicTxs h extData true = Ok l) as EX
    by (destruct Hr as [(-> & _ & [= -> -> ->])|(_ & bytes & [= -> -> ->] & EX)]; done).
  destruct (insertBlock_run vm hdr' l sv H) as (sv1 & EI & Hdb1 & Hhold).
  { apply (verifyTxs_Ok vm hdr' (vs_world s) _ l pb); try done; [|apply X].
    eapply list.Forall_impl; [exact (ext_passes _ _ _ _ _ _ _ _ _ X)|]. unfold passes. by rewrite Hph, Hbf. }
  { intros b Eb. by apply Hbk. }
  unfold onExtraStateChange. rewrite lift_bind, EX, (bindM_step _ _ _ _ _ EI).
  destruct (ext_state _ _ _ _ _ _ _ _ _ X) as (g & Hg & Hgs). cbn [batchContribution batchGasUsed] in Hg.
  destruct Hr as [(-> & _ & [= -> -> ->])|(Hne & bytes & [= -> -> ->] & _)].
  { cbn in Hg. injection Hg as _ _ <-. exists sv1, []. rewrite Hdb1. by rewrite Hgs, Hdb. }
  rewrite (proj2 (Nat.eqb_neq _ _)) by by destruct l.
  destruct (transferTxs_respects vm hdr l 0 0 (vs_db sv1) (vs_db s)) as [E1 E2]; [by rewrite Hdb1|].
  rewrite Hg in E1, E2. cbn in E1, E2. rewrite <- Hbf in E1, E2.
  destruct (transferTxs vm _ l 0 0 (vs_db sv1)) as [r g'] eqn:ET. cbn in E1, E2. subst r.
  rewrite (bindM_step _ _ _ (batchContribution acc, batchGasUsed acc) (with_statedb sv1 g'))
    by (unfold on_statedb; by rewrite ET).
  rewrite lift_bind. unfold header.RemainingAtomicGasCapacity in *. rewrite Htime, Hgas, EC.
  destruct (ext_limit _ _ _ _ _ _ _ _ _ X) as [->|HL]; [done|]. rewrite HL.
  eexists _, l. split; [done|]. split; [by rewrite Hgs|]. by split.
Qed.

End Agreement.

(** ** The transactions the pool holds *)

(** The pool's requirement holds of parsed transactions: with a hash that does not collide
    on their bytes, the ID determines the transaction. *)
Definition ParsedTx {PL : PackerLib} (h : list byte -> ID) : Type := { tx : Tx | parsed h tx }.

Class NoCollisions {PL : PackerLib} (h : list byte -> ID) : Prop :=
  id_bytes tx tx' : parsed h tx -> parsed h tx' -> tx_id tx = tx_id tx' -> tx_bytes tx = tx_bytes tx'.

Section ParsedPool.
Context {UL : UtxoLib} {SM : SafeMath} {PL : PackerLib} {PS : PackerSpec} (h : list byte -> ID).

#[export] Instance parsedPoolTx : PoolTx (ParsedTx h) := {|
  Mempool.Tx_ID tx := Mempool.Tx_ID (`tx);
  Mempool.Tx_InputUTXOs tx := Mempool.Tx_InputUTXOs (`tx);
  Mempool.Tx_GasUsed tx := Mempool.Tx_GasUsed (`tx);
  Mempool.Tx_Burned tx := Mempool.Tx_Burned (`tx)
|}.

#[export] Instance parsedPoolTx_spec : NoCollisions h -> PoolTxSpec (ParsedTx h).
Proof.
  intros HN. split. intros [t1 H1] [t2 H2] Heq. unfold Mempool.Tx_InputUTXOs, parsedPoolTx. cbn [proj1_sig].
  destruct (parsed_facts h t1 H1) as (_ & _ & _ & E1 & _), (parsed_facts h t2 H2) as (_ & _ & _ & E2 & _).
  rewrite (HN t1 t2 H1 H2 Heq) in E1. rewrite E1 in E2. by injection E2 as ->.
Qed.

End ParsedPool.

End vmspec.
