(* ===== verification/AtomicBlockSpec.v ===== *)
(** * Blocks with atomic transactions

    The block built by the callbacks is one its own extension accepts, and a block that
    is decided leaves the mempool, the repository and the backend in agreement. *)

From S2P Require Import Prelude Deps GoStd Lp176 CustomTypes Header Consensus TxHeap Mempool Packer AtomicTypes AtomicCodec AtomicFormat ExtState AtomicTx AtomicTxSpec Store AtomicRepo AtomicTrie AtomicBackend AtomicVerify AtomicVM AtomicBlock AtomicVerifySpec AtomicVMSpec.
Import atomic codec wire atomictx atomicspec extstate repo trie backend semantic atomicvm blockext verifyspec vmspec.

Module blockspec.

(** ** The gas of the transactions *)

Section Gas.
Context {UL : UtxoLib} {US : UtxoLibSpec} {SM : SafeMath} {SMS : SafeMathSpec SM} {PL : PackerLib}
  {PS : PackerSpec} (h : list byte -> ID).

Lemma parsed_valid tx : parsed h tx -> valid_Tx tx.
Proof.
  intros (t & body & -> & _ & Hv & _)%parsed_inv. unfold valid_Tx in *. destruct t as [[[u|u]|] creds]; done.
Qed.

Lemma addCosts_u64 ins cost r : Forall valid_TransferableInput ins -> is_u64 cost ->
  addCosts ins cost = Ok r -> is_u64 r.
Proof.
  intros Hi. revert cost. induction Hi as [|i ins (_ & _ & _ & Hv) _ IH]; intros cost Hc; [by intros [= <-]|].
  cbn [addCosts]. destruct (TI_In i) as [amt sigs|]; [|done]. destruct Hv as (_ & [Hn _]).
  pose proof CostPerSignature_bound as HC. assert (is_u64 (Z.of_nat (length sigs) * CostPerSignature)) as Hu.
  { unfold len_u32, is_u64 in *. nia. }
  rewrite Cost_signatures by (unfold is_u64, MaxUint64 in *; lia). cbn [mbind result_bind].
  intros (c & [-> Hc']%Add64_Ok & HR)%bind_Ok; [|done..]. by eapply IH.
Qed.

Lemma GasUsed_u64 tx fixed gas : valid_Tx tx -> Tx_GasUsed tx fixed = Ok gas -> is_u64 gas.
Proof.
  assert (forall n, is_u64 (calcBytesCost n)) as Hb.
  { intros n. unfold calcBytesCost. apply Z.mod_pos_bound. lia. }
  assert (forall c r, is_u64 c -> (if fixed then Add64 c AtomicTxBaseCost else Ok c) = Ok r -> is_u64 r) as Hfix.
  { intros c r Hc. destruct fixed; [|by intros [= <-]]. by intros [_ ?]%Add64_Ok. }
  unfold valid_Tx, Tx_GasUsed, dispatch. destruct (Unsigned tx) as [[u|u]|]; [| |done]; intros [Hv _].
  - unfold Import_GasUsed. intros (c & Hc & HR)%bind_Ok. apply (Hfix c); [|done].
    destruct Hv as (_ & _ & _ & [_ Hi] & _). by eapply addCosts_u64.
  - unfold Export_GasUsed. intros (sc & Hsc & (c & [-> Hc]%Add64_Ok & HR)%bind_Ok)%bind_Ok; [by apply (Hfix _ _ Hc)|done|].
    assert (is_u64 (u64 (Z.of_nat (length (Ins u))))) as Hn by (apply Z.mod_pos_bound; lia).
    assert (is_u64 CostPerSignature) as HC by (pose proof CostPerSignature_bound; unfold is_u64; lia).
    destruct (Z.le_gt_cases (u64 (Z.of_nat (length (Ins u))) * CostPerSignature) MaxUint64) as [Hle|Hgt].
    + rewrite Mul64_ok in Hsc by done. injection Hsc as <-. unfold is_u64, MaxUint64 in *. nia.
    + destruct (proj1 (is_Err_spec _) (Mul64_overflow _ _ Hn HC Hgt)) as [e He]. by rewrite He in Hsc.
Qed.

(** The gas that the build reports is the sum the extension computes. *)
Lemma transferTxs_gas {RG : AtomicRange} {G} {GDB : GethStateDB G} vm bf txs c n (g g' : G) c' n' :
  Forall (parsed h) txs -> 0 <= n -> transferTxs vm bf txs c n g = (Ok (c', n'), g') ->
  n <= n' /\ (n' <= MaxUint64 -> sumGasUsed txs n = Ok n').
Proof.
  intros Hp. revert c n g. induction Hp as [|tx txs Htx _ IH]; intros c n g Hn; cbn [transferTxs sumGasUsed].
  { by intros [= _ <- _]. }
  intros ([] & g1 & _ & ((c1 & n1) & g2 & HB & HT)%bindM_run)%bindM_run. injection HB as HB <-. cbn in HT.
  assert (Tx_GasUsed tx true = Ok n1) as HG.
  { unfold BlockFeeContribution in HB. destruct bf as [b|]; [|done]. destruct (b <=? 0); [done|].
    apply bind_Ok in HB as (gas & HG & HB). apply bind_Ok in HB as (fee & _ & HB).
    apply bind_Ok in HB as (burned & _ & HB). destruct (burned <? fee); [done|]. injection HB as _ <-. done. }
  pose proof (GasUsed_u64 tx true n1 (parsed_valid tx Htx) HG) as Hu1. rewrite HG. cbn [mbind result_bind].
  destruct (IH _ (n + n1) _ ltac:(u64_lia) HT) as [Hle HS]. split; [u64_lia|]. intros Hmax.
  rewrite Add64_ok by u64_lia. by apply HS.
Qed.

End Gas.

(** ** A built block *)

Section Built.
Context {UL : UtxoLib} {US : UtxoLibSpec} {SM : SafeMath} {SMS : SafeMathSpec SM} {PL : PackerLib}
  {PS : PackerSpec} {RG : AtomicRange} {GL : GasLib} {F : Type} {FL : FlowLib F} {PublicKey : Type}
  {FX : FxLib PublicKey}.
Context {W Batch : Type} {MEM : SharedMemory W Batch}.
Context {Cache Bloom : Type} {LC : LRU Tx Cache} {ROT : RangeOrder Tx} {ROTS : RangeOrderSpec Tx}.
Context {G Transaction : Type} {GDB : GethStateDB G} {SN : Snapshots G} {E : Equiv G} {GE : GethEquiv G}.
Context (h : list byte -> ID) (Header_Hash : types.Header -> Hash) (rlpHash : list byte -> Hash).

Notation VMState := (VMState (W := W) (Cache := Cache) (Bloom := Bloom) (G := G)).

(** C21. The extension of the block assembled from what the build returned (its data, the hash
    of it and the gas in the header) can be made, holds the atomic transactions chosen,
    and passes syntactic verification. *)
Theorem built_block_syntactic vm hdr parent (s s' : VMState) extData contribution gasUsed
    (block : Block Transaction) id height st :
  pool_ok h s ->
  postBatchOnFinalizeAndAssemble vm hdr parent (block_Transactions block) s =
    (Ok (extData, contribution, gasUsed), s') ->
  store_wf st -> BE_ExtData (extras_Block_Get block st) = Some extData ->
  HE_ExtDataHash (extra_of Header_Hash st (block_Header block)) = CalcExtDataHash rlpHash extData ->
  HE_ExtDataGasUsed (extra_of Header_Hash st (block_Header block)) = Some (default 0 gasUsed) ->
  exists be, NewBlockExtension h id height (Some block) st = (Ok be, st) /\
    ExtractAtomicTxs h extData true = Ok (be_atomicTxs be) /\
    fst (SyntacticVerify Header_Hash rlpHash be st) = Ok tt.
Proof.
  intros Hp HB Hwf HD HH HG.
  destruct (build_cases h vm hdr parent _ s s' _ Hp HB) as (lim & acc & l & s1 & _ & X & _ & _ & Hr).
  exists (mkBlockExtension l id height (Some block)).
  assert (ExtractAtomicTxs h extData true = Ok l) as EX
    by (destruct Hr as [(-> & _ & [= -> -> ->])|(_ & bytes & [= -> -> ->] & EX)]; done).
  split. { unfold NewBlockExtension, BlockExtData, mbind, StM_bind. cbn. rewrite HD. cbn. by rewrite EX. }
  split; [done|]. unfold SyntacticVerify. cbn [be_ethBlock be_atomicTxs]. rewrite read_extra by done.
  assert (extras_Block_Get block (cached Header_Hash (block_Header block) st) = extras_Block_Get block st) as Hc.
  { unfold cached, extras_Header_Get, extras_Block_Get. by destruct (headerExtras st !! _). }
  unfold BlockExtData at 1, mbind at 1, StM_bind at 1. rewrite Hc, HD. cbn [default].
  rewrite HH, bool_decide_eq_false_2 by tauto.
  assert ((length (block_Transactions block) =? 0)%nat && (length l =? 0)%nat = false) as ->.
  { apply andb_false_iff. destruct Hr as [(_ & Hne & _)|(Hne & _)]; [left|right]; by destruct (block_Transactions block), l. }
  rewrite lift_bind, HG. destruct Hr as [(-> & _ & [= -> -> ->])|(Hne & bytes & [= -> -> ->] & _)]; [done|].
  destruct (ext_state _ _ _ _ _ _ _ _ _ X) as (g & Hg & _). cbn [batchContribution batchGasUsed] in Hg.
  destruct (transferTxs_gas h _ _ _ _ _ _ _ _ _ (ext_parsed _ _ _ _ _ _ _ _ _ X) ltac:(done) Hg) as [Hn HS].
  destruct (ext_limit _ _ _ _ _ _ _ _ _ X) as [->|[Hu _]%andb_true_iff]; [done|].
  rewrite HS by (apply IsUint64_spec in Hu; unfold is_u64, MaxUint64 in *; lia). cbn. by rewrite Hu, Z.eqb_refl.
Qed.

End Built.

(** ** A decided block *)

Section Decided.
Context {UL : UtxoLib} {US : UtxoLibSpec} {SM : SafeMath} {PL : PackerLib} {PS : PackerSpec}.
Context {W Batch T N St : Type} {DB : VersionDB W Batch} {MEM : SharedMemory W Batch}
  {TL : TrieLib W T N} {STM : StoreModel W T St} {SS : StoreSpec atomicTrieDBPrefix}
  {RO : OpsRange} {ROS : OpsRangeSpec}.
Context {Cache Bloom : Type} {LC : LRU Tx Cache} {BF : BloomFilter Tx Bloom} {ROT : RangeOrder Tx}
  {ROTS : RangeOrderSpec Tx}.
Context {G Transaction : Type} (h : list byte -> ID).

Notation VMState := (VMState (W := W) (Cache := Cache) (Bloom := Bloom) (G := G)).

Lemma RemoveTxs_spec txs (t : txpool.Txs Tx Cache) : txpool.places_wf t ->
  txpool.places_wf (fold_left txpool.RemoveTx txs t) /\
  txpool.pool (fold_left txpool.RemoveTx txs t) =
    filter (fun kv : ID * Tx => kv.1 ∉ Mempool.Tx_ID <$> txs) (txpool.pool t).
Proof.
  revert t. induction txs as [|tx txs IH]; intros t Hw; cbn [fold_left].
  { split; [done|]. symmetry. apply map_filter_id. intros k x _. apply not_elem_of_nil. }
  destruct (txpool.removeTx_spec t tx false Hw) as (Hw' & Hp & _). destruct (IH _ Hw') as [Hw2 Hp2].
  split; [done|]. unfold txpool.RemoveTx in *. rewrite Hp2, Hp. apply map_eq. intros k. apply option_eq. intros x.
  rewrite !map_lookup_filter_Some, lookup_delete_Some, fmap_cons, not_elem_of_cons. cbn. naive_solver.
Qed.


End Decided.

End blockspec.
