(* ===== verification/AtomicVMExamples.v ===== *)
(** * Runs of the atomic VM

    An import is admitted to the pool, built into a block, verified and accepted; the
    libraries are small executable versions that satisfy what is assumed of them. The
    theorems of [AtomicVerifySpec], [AtomicVMSpec] and [AtomicBlockSpec] are applied to
    these runs. *)

From S2P Require Import Prelude Deps GoStd Lp176 CustomTypes Header Consensus TxHeap Mempool Packer AtomicTypes AtomicCodec AtomicFormat ExtState AtomicTx AtomicTxSpec Store AtomicRepo AtomicTrie AtomicBackend StoreConcrete AtomicStateExamples AtomicVerify AtomicVM AtomicBlock AtomicVerifySpec AtomicVMSpec AtomicBlockSpec.
Import atomic codec wire atomictx atomicspec extstate repo trie backend semantic atomicvm blockext verifyspec vmspec blockspec.
Import PackerConcrete Deps.Concrete extstate.Concrete StoreConcrete atomicspec.Witness header.HeaderWitness.

Module vmexamples.

#[local] Existing Instance utxolib.
#[local] Existing Instance utxolib_spec.
#[local] Existing Instance ranges.
#[local] Existing Instance stateexamples.range.
#[local] Existing Instance stateexamples.range_spec.

(** ** The libraries *)

(** The flow checker keeps what it is told. *)
#[local] Instance flows : FlowLib (list (ID * Z) * list (ID * Z)) := {|
  NewFlowChecker := ([], []);
  Produce fc aid x := (fc.1 ++ [(aid, x)], fc.2);
  Consume fc aid x := (fc.1, fc.2 ++ [(aid, x)]);
  FlowChecker_Verify fc :=
    if forallb (fun e : ID * Z => (total fst snd e.1 fc.1 <=? total fst snd e.1 fc.2) &&
                         (total fst snd e.1 fc.2 <=? MaxUint64)) (fc.1 ++ fc.2)
    then Ok tt else Err (errors_New "insufficient funds")
|}.

Lemma total_absent (aid : ID) (l : list (ID * Z)) : aid ∉ l.*1 -> total fst snd aid l = 0.
Proof.
  induction l as [|[a x] l IH]; [done|]. rewrite fmap_cons, not_elem_of_cons. intros [Hne Hn].
  unfold total in *. cbn [foldr fst snd] in *. rewrite bool_decide_eq_false_2 by (cbn in Hne; congruence). by apply IH.
Qed.

Lemma run_flow_eq P C : run_flow P C = (P, C).
Proof.
  unfold run_flow.
  assert (forall Q fc, fold_left (fun fc e => Produce fc (fst e) (snd e)) Q fc = (fc.1 ++ Q, fc.2)) as HP.
  { induction Q as [|[a x] Q IH]; intros [p c]; cbn [fold_left]; [by rewrite app_nil_r|].
    rewrite IH. cbn. by rewrite <- app_assoc. }
  assert (forall Q fc, fold_left (fun fc e => Consume fc (fst e) (snd e)) Q fc = (fc.1, fc.2 ++ Q)) as HC.
  { induction Q as [|[a x] Q IH]; intros [p c]; cbn [fold_left]; [by rewrite app_nil_r|].
    rewrite IH. cbn. by rewrite <- app_assoc. }
  by rewrite HP, HC.
Qed.

#[local] Instance flows_spec : FlowLibSpec.
Proof.
  split. intros P C aid _ _. rewrite run_flow_eq. cbn.
  destruct (forallb _ _) eqn:EF; [|done]. intros _. rewrite forallb_forall in EF.
  destruct (decide (aid ∈ (P ++ C).*1)) as [(e & -> & He)%list_elem_of_fmap|Hn].
  - apply list_elem_of_In in He. apply EF, andb_true_iff in He as [H1%Z.leb_le H2%Z.leb_le]. done.
  - rewrite fmap_app, not_elem_of_app in Hn. destruct Hn. rewrite !total_absent by done. done.
Qed.

(** A signature is the signer's name repeated. *)
#[local] Instance fx : FxLib byte := {|
  VerifyTransfer _ i _ o := if In_Amount i =? Out_Amount o then Ok tt else Err (errors_New "mismatched amounts");
  Credential_Verify _ := Ok tt;
  RecoverPublicKey _ sig := match sig with b :: _ => Ok b | [] => Err (errors_New "recover") end;
  PublicKey_EVMAddress k := replicate 20 k
|}.

#[local] Instance pool_cache : LRU Tx (gmap ID Tx) := {|
  cache_Get c k := c !! k;
  cache_Put c k t := <[k := t]> c;
  cache_Evict c k := delete k c
|}.
#[local] Instance pool_bloom : BloomFilter Tx (list Tx) := {|
  bloom_Add b t := t :: b;
  ResetBloomFilterIfNeeded b n := (Ok false, b)
|}.
#[local] Instance pool_order : RangeOrder Tx := {| range_set s := elements s; range_map m := map_to_list m |}.
#[local] Instance pool_order_spec : RangeOrderSpec Tx.
Proof. by split. Qed.

(** A state with the states its snapshots were taken of. *)
Definition DB : Type := Geth * list Geth.

#[local] Instance db_geth : GethStateDB DB := {|
  geth_GetState s := geth_GetState s.1;
  geth_SetState s a k v := (geth_SetState s.1 a k v, s.2);
  geth_GetBalance s := geth_GetBalance s.1;
  geth_AddBalance s a x := (geth_AddBalance s.1 a x, s.2);
  geth_SubBalance s a x := (geth_SubBalance s.1 a x, s.2);
  geth_GetNonce s := geth_GetNonce s.1;
  geth_SetNonce s a n := (geth_SetNonce s.1 a n, s.2)
|}.

#[local] Instance db_snapshots : Snapshots DB := {|
  Snapshot s := (Z.of_nat (length s.2), (s.1, s.2 ++ [s.1]));
  RevertToSnapshot n s := (default s.1 (s.2 !! Z.to_nat n), take (Z.to_nat n) s.2)
|}.

#[local] Instance db_equiv : Equiv DB := fun s s' => s.1 = s'.1.

#[local] Instance db_geth_equiv : GethEquiv DB.
Proof.
  split; try (intros s s' E; repeat intro; subst; unfold equiv, db_equiv in *; cbn; by rewrite E).
  - unfold equiv, db_equiv. split; repeat intro; congruence.
  - done.
  - intros [g l] s' Hr. unfold equiv, db_equiv. cbn. assert (s'.2 = l ++ [g]) as ->.
    { cbn in Hr. remember (g, l ++ [g]) as s0 eqn:E0. assert (s0.2 = l ++ [g]) as H0 by by rewrite E0.
      clear E0. revert H0. induction Hr as [|s1 s2 s3 Hs _ IH]; intros H1; [done|]. apply IH. by destruct Hs. }
    by rewrite Nat2Z.id, list_lookup_middle.
Qed.

(** ** The chain *)

Definition importTx : Tx := tx_of import_run.
Definition fee25 : Z := 25000000000.

Definition hdr1 : types.Header :=
  types.mkHeader (replicate 32 Byte.x10) Hash_zero [] Hash_zero Hash_zero Hash_zero [] (Some 1) 1
    10000000 21000 110 [] Hash_zero [] (Some fee25) None None None None None (Some 0).

Definition block0 : ExtendedBlock := mkExtendedBlock (replicate 32 Byte.x10) 0 (replicate 32 Byte.x0f) (Some []).
Definition fetcher0 : BlockFetcher :=
  mkFetcher (fun id => if bool_decide (id = replicate 32 Byte.x10) then Ok block0 else Err (errors_New "not found")) block0.
Definition vm0 : VM := mkVM ctx0 true true fetcher0 (fun _ _ => true).

Definition utxo1_bytes : list byte :=
  match Codec_Marshal CodecVersion (V_UTXO utxo1) with Ok bs => bs | _ => [] end.
Definition utxo1_key : list byte := InputID (UTXO_TxID utxo1) 0.
Definition world1 : World := mkWorld true ∅ ∅ {[ dest0 := ({[ utxo1_key := utxo1_bytes ]}, ∅) ]} ∅ ∅.

Definition empty_pool : txpool.Txs Tx (gmap ID Tx) := txpool.NewTxs lux 10 ∅.
Definition pool1 : txpool.Txs Tx (gmap ID Tx) := txpool.addTx_insert empty_pool importTx 24.
Definition db1 : DB := (mkGeth ∅ ∅ ∅, []).
Definition vs1 : VMState (Bloom := list Tx) :=
  mkVMState (txpool.mkMempool pool1 [] None) (Some stateexamples.backend0) world1 db1.

Definition hash_header (hdr : types.Header) : Hash := replicate 31 Byte.x11 ++ be_encode 1 (types.Number hdr).
Definition txhash : list byte -> ID := atomicspec.Witness.hash0.

Lemma parsed1 : parsed txhash importTx.
Proof. exists (tx_bytes importTx). vm_compute. reflexivity. Qed.

Lemma insert_places tx price : let t := txpool.addTx_insert empty_pool tx price in
  txpool.places_wf t /\ txpool.pool t = {[ Mempool.Tx_ID tx := tx ]}.
Proof.
  destruct (txpool.addTx_insert_places empty_pool tx price) as (Hw & Hp & _); [|done|].
  - split; try done; [apply txheap.newTxHeap_wf|..]; intros k; try (by rewrite lookup_empty); intros [x Hx];
      by rewrite lookup_empty in Hx.
  - by split.
Qed.

Lemma pool1_ok : pool_ok txhash vs1.
Proof.
  destruct (insert_places importTx 24) as [Hw Hp]. split; [exact Hw|]. change (vs_pool vs1) with pool1. unfold pool1.
  rewrite Hp. apply map_Forall_singleton. exact parsed1.
Qed.

(** ** The theorems at these runs *)

Lemma fetcher0_ok : fetcher_ok fetcher0.
Proof.
  split.
  - intros id b. cbn. case_bool_decide; [|done]. by intros [= <-].
  - intros b b' Hk Hlt. unfold known in Hk. cbn in Hk. case_bool_decide; [|done]. injection Hk as <-. cbn in Hlt. lia.
Qed.


Lemma verified_pays_fee_witness :
  Tx_Verify ctx0 importTx = Ok tt /\
  exists gas burned, Tx_GasUsed importTx true = Ok gas /\ Tx_Burned importTx lux = Ok burned /\
    fee_of gas fee25 <= burned /\
    BlockFeeContribution importTx true lux (Some fee25) = Ok ((burned - fee_of gas fee25) * X2CRate, gas).
Proof.
  apply (verified_pays_fee (NewVerifierBackend vm0) importTx block0 fee25 world1);
    [exact (parsed_valid txhash importTx parsed1)|reflexivity|vm_compute; reflexivity].
Defined.

(** *** Building *)

Definition data_of {S} (r : result (list byte * option Z * option Z) * S) : list byte :=
  match fst r with Ok (extData, _, _) => extData | _ => [] end.
Definition contribution_of {S} (r : result (list byte * option Z * option Z) * S) : option Z :=
  match fst r with Ok (_, c, _) => c | _ => None end.
Definition gas_of {S} (r : result (list byte * option Z * option Z) * S) : option Z :=
  match fst r with Ok (_, _, n) => n | _ => None end.

Lemma parts {S} (r : result (list byte * option Z * option Z) * S) : is_Ok (fst r) = true ->
  r = (Ok (data_of r, contribution_of r, gas_of r), snd r).
Proof. by destruct r as [[[[]]| |]]. Qed.

Definition built1 : result (list byte * option Z * option Z) * VMState :=
  postBatchOnFinalizeAndAssemble vm0 hdr1 genesis [0] vs1.
Lemma built1_def : postBatchOnFinalizeAndAssemble vm0 hdr1 genesis [0] vs1 = built1.
Proof. reflexivity. Qed.
#[local] Opaque built1.
Definition extData1 : list byte := data_of built1.
Definition contribution1 : option Z := contribution_of built1.
Definition gas1 : option Z := gas_of built1.

Lemma built1_eq : built1 = (Ok (extData1, contribution1, gas1), snd built1).
Proof.
  assert (is_Ok (fst built1) = true) as H by (vm_compute; reflexivity).
  unfold extData1, contribution1, gas1. exact (parts built1 H).
Qed.

Lemma extracted1 : ExtractAtomicTxs txhash extData1 true = Ok [importTx].
Proof. vm_compute. reflexivity. Qed.

Definition ops1 : gmap ID Requests := {[ dest0 := mkRequests [utxo1_key] [] ]}.

Lemma vm_ops1_merged : mergeAtomicOps [importTx] = Ok ops1.
Proof.
  unfold mergeAtomicOps. assert (sortTxs [importTx] = Ok [importTx]) as -> by (vm_compute; reflexivity).
  cbn [mbind result_bind mergeAll].
  assert (Tx_AtomicOps importTx = Ok (dest0, mkRequests [utxo1_key] [])) as -> by (vm_compute; reflexivity).
  cbn [mbind result_bind fst snd]. unfold mergeAtomicOpsToMap. by rewrite lookup_empty.
Qed.

Lemma vm_ops1_ok : ops_ok ops1.
Proof.
  unfold ops1. intros c r [<- <-]%lookup_singleton_Some. split; [reflexivity|]. split; [|split].
  - split; wire.Witness.closed_valid.
  - eexists. vm_compute. reflexivity.
  - vm_compute. discriminate.
Qed.

Lemma healthy1 : healthy world1.
Proof. split_and!; done. Qed.

Lemma vm_permitted1 : permitted (Batch := gmap (list byte) KV) txhash
  (EvVerify (hash_header hdr1) (u64 (types.Number hdr1)) (types.ParentHash hdr1) [importTx])
  stateexamples.backend0 world1 0.
Proof.
  split; [vm_compute; discriminate|]. split; [closed_u64|]. split; [by apply list.Forall_singleton, parsed1|].
  split; [apply target_fits with (h := txhash); [by apply list.Forall_singleton, parsed1|vm_compute; discriminate]|].
  exists ops1, (root_of ∅). split; [exact vm_ops1_merged|]. split; [exact vm_ops1_ok|]. split; [reflexivity|].
  intros m0 Hm0. assert (m0 = ∅) as ->.
  { change (opens_at world1 (root_of ∅) = Some m0) in Hm0.
    rewrite stateexamples.opens_empty_root in Hm0. by injection Hm0. }
  intros m' Hm'. exfalso. revert Hm'.
  change (opens_at world1 (root_of (put_ops 1 ops1 ∅)) = Some m' -> False).
  assert (opens_at world1 (root_of (put_ops 1 ops1 ∅)) = None) as -> by (vm_compute; reflexivity). done.
Qed.

#[local] Opaque built1 extData1 contribution1 gas1 vs1.

Lemma built_block_verifies_witness :
  exists sv' atomicTxs,
    onExtraStateChange txhash hash_header vm0 extData1 hdr1 genesis vs1 = (Ok (contribution1, gas1), sv') /\
    vs_db sv' ≡ vs_db (snd built1) /\ ExtractAtomicTxs txhash extData1 true = Ok atomicTxs /\
    holds_block txhash (vs_backend sv') (vs_world sv') 0 (hash_header hdr1) atomicTxs.
Proof.
  apply (built_block_verifies txhash hash_header vm0 hdr1 hdr1 genesis [0] vs1 (snd built1) vs1
           extData1 contribution1 gas1 0 block0).
  - exact pool1_ok.
  - rewrite built1_def. exact built1_eq.
  - by split_and!.
  - reflexivity.
  - done.
  - vm_compute. reflexivity.
  - reflexivity.
  - intros b atomicTxs [= <-]. rewrite extracted1. intros [= <-].
    split; [by apply stateexamples.backend0_ok_at; [exact healthy1|]|exact vm_permitted1].
Defined.

Lemma build_terminates_witness :
  postBatch_loop 5 vm0 hdr1 9000000 (mkBatch [] ∅ 0 0 0) vs1 =
  postBatch_loop (heap_fuel vs1) vm0 hdr1 9000000 (mkBatch [] ∅ 0 0 0) vs1.
Proof.
  apply (build_terminates txhash vm0 hdr1 5 9000000 (mkBatch [] ∅ 0 0 0) vs1); [exact pool1_ok|].
  assert (heap_fuel vs1 = 2%nat) as -> by (vm_compute; reflexivity). lia.
Defined.

(** *** The extension of the built block *)

Definition rlp0 (data : list byte) : Hash := be_encode 32 (be_decode data).
Definition block1 : Block Z := mkBlock 1 hdr1 [0] [].
Definition extra1 : HeaderExtra := mkHeaderExtra (CalcExtDataHash rlp0 extData1) (Some (default 0 gas1)) (Some 0).
Definition extras1 : ExtrasStore :=
  mkStore {[ 1%positive := extra1 ]} {[ headerKey hash_header hdr1 := 1%positive ]}
    {[ 1%positive := mkBlockBodyExtra 0 (Some extData1) ]} 2.

Lemma extras1_wf : store_wf extras1.
Proof.
  split; cbn; intros k.
  - intros l [_ <-]%lookup_singleton_Some. by rewrite lookup_singleton_eq.
  - intros [x [<- _]%lookup_singleton_Some]. done.
Qed.

Lemma extras1_extra : extra_of hash_header extras1 hdr1 = extra1.
Proof.
  unfold extra_of. change (headerExtras extras1) with ({[ headerKey hash_header hdr1 := 1%positive ]} : gmap Hash positive).
  rewrite lookup_singleton_eq. unfold deref. cbn. by rewrite lookup_singleton_eq.
Qed.

Lemma built_block_syntactic_witness :
  exists be, NewBlockExtension txhash (hash_header hdr1) 1 (Some block1) extras1 = (Ok be, extras1) /\
    ExtractAtomicTxs txhash extData1 true = Ok (be_atomicTxs be) /\
    fst (blockext.SyntacticVerify hash_header rlp0 be extras1) = Ok tt.
Proof.
  apply (built_block_syntactic txhash hash_header rlp0 vm0 hdr1 genesis vs1 (snd built1)
           extData1 contribution1 gas1 block1 (hash_header hdr1) 1 extras1).
  - exact pool1_ok.
  - cbn [block_Transactions block1]. rewrite built1_def. exact built1_eq.
  - exact extras1_wf.
  - unfold extras_Block_Get. cbn. by rewrite lookup_singleton_eq.
  - cbn [block_Header block1]. by rewrite extras1_extra.
  - cbn [block_Header block1]. by rewrite extras1_extra.
Defined.

(** *** An underpriced transaction *)

(** The base fee doubles. *)
Definition hdr2 : types.Header :=
  types.mkHeader (replicate 32 Byte.x10) Hash_zero [] Hash_zero Hash_zero Hash_zero [] (Some 1) 1
    10000000 21000 110 [] Hash_zero [] (Some (2 * fee25)) None None None None None (Some 0).

Lemma pair_of {A B} (x : A * B) a : fst x = a -> x = (a, snd x).
Proof. by destruct x; intros <-. Qed.

Definition taken1 : txpool.Txs Tx (gmap ID Tx) := snd (txpool.NextTx pool1).

Lemma taken1_eq : txpool.NextTx pool1 = (Ok (Some importTx), taken1).
Proof.
  assert (fst (txpool.NextTx pool1) = Ok (Some importTx)) as H by (vm_compute; reflexivity).
  exact (pair_of (txpool.NextTx pool1) _ H).
Qed.

Lemma underpriced_tx_fails_build_witness :
  postBatchOnFinalizeAndAssemble vm0 hdr2 genesis [0] vs1 =
    (Err (errors_New "insufficient LUX burned"), with_pool vs1 taken1) /\
  txheap.pending (txpool.txHeap (txpool.CancelCurrentTxs taken1)) !! Mempool.Tx_ID importTx =
    Some (280750 / 11230, importTx) /\
  txpool.pool (txpool.CancelCurrentTxs taken1) = txpool.pool pool1.
Proof.
  apply (underpriced_tx_fails_build vm0 hdr2 genesis [0] vs1 importTx taken1 9979000 (2 * fee25) 11230 561500 280750).
  - exact (proj1 (insert_places importTx 24)).
  - reflexivity.
  - reflexivity.
  - exact taken1_eq.
  - vm_compute. discriminate.
  - vm_compute. reflexivity.
  - reflexivity.
  - reflexivity.
  - vm_compute. reflexivity.
  - discriminate.
  - vm_compute. reflexivity.
  - vm_compute. reflexivity.
  - lia.
Defined.

(** *** An accepted block *)

#[local] Opaque stateexamples.verified1.

Definition vs2 : VMState (Bloom := list Tx) :=
  mkVMState (txpool.mkMempool (txpool.addTx_insert empty_pool stateexamples.txA 5) [] None)
    (Some (fst stateexamples.verified1)) (snd stateexamples.verified1) db1.
Definition be2 : blockExtension (Transaction := Z) :=
  mkBlockExtension [stateexamples.txA; stateexamples.txB] stateexamples.block1 3 None.


End vmexamples.
