(* ===== verification/Predicate.v ===== *)
(** * Predicates

    [predicate]: how the bytes of a predicate are packed into an access list
    ([predicate_bytes.go]), and the results of predicate verification a block carries in
    its header ([predicate_results.go]); [utils/bytes.go], which both use.

    geth's [common.RightPadBytes] and [common.TrimRightZeroes] are a parameter with their
    documented behaviour. *)

From S2P Require Import Prelude GoStd ExtState.
Import extstate.

(** ** [utils/bytes.go] *)

Module byteutils.

(** The loop of [IncrOne], [index] being the one after the byte looked at. *)
Fixpoint IncrOne_loop (index : nat) (bytes : list byte) : list byte :=
  match index with
  | O => bytes
  | S i =>
      let b := Z_of_byte (default Byte.x00 (bytes !! i)) in
      if b <? 255 then <[i := byte_of_Z (b + 1)]> bytes
      else IncrOne_loop i (<[i := Byte.x00]> bytes)
  end.

Definition IncrOne (bytes : list byte) : list byte := IncrOne_loop (length bytes) bytes.

(** [copy(hashes[i][:], b[start:])] on a zeroed array. *)
Definition hash_at (b : list byte) (i : nat) : Hash :=
  let src := take 32 (drop (i * 32) b) in src ++ replicate (32 - length src) Byte.x00.

Definition BytesToHashSlice (b : list byte) : list Hash :=
  hash_at b <$> seq 0 ((length b + 31) / 32).

(** [IncrOne] adds one to the bytes read as a big-endian number, and wraps around. *)
Lemma IncrOne_loop_spec i bytes : (i <= length bytes)%nat ->
  exists hi, length hi = i /\ IncrOne_loop i bytes = hi ++ drop i bytes /\
    be_decode hi = (be_decode (take i bytes) + 1) mod 256 ^ Z.of_nat i.
Proof.
  revert bytes. induction i as [|i IH]; intros bytes Hi.
  { exists []. split; [done|]. split; [by rewrite drop_0|]. done. }
  cbn [IncrOne_loop]. destruct (lookup_lt_is_Some_2 bytes i ltac:(lia)) as [b Hb]. rewrite Hb. cbn [from_option]. unfold id.
  assert (forall l, be_decode (l ++ [b]) = be_decode l * 256 + Z_of_byte b) as Hsnoc.
  { intros l. unfold be_decode. by rewrite fold_left_app. }
  pose proof (Z_of_byte_bound b) as Hbb. rewrite (take_S_r bytes i b Hb), Hsnoc, Nat2Z.inj_succ, Z.pow_succ_r by lia.
  pose proof (be_decode_bound (take i bytes)) as Hbd. rewrite length_take_le in Hbd by lia.
  destruct (Z.ltb_spec (Z_of_byte b) 255) as [Hlt|Hge].
  - exists (take i bytes ++ [byte_of_Z (Z_of_byte b + 1)]). split; [rewrite length_app, length_take_le by lia; cbn; lia|].
    split. { rewrite <- app_assoc. by apply insert_take_drop; lia. }
    unfold be_decode at 1. rewrite fold_left_app. cbn. fold (be_decode (take i bytes)).
    rewrite Z_of_byte_of_Z, Z.mod_small by lia. rewrite Z.mod_small; nia.
  - destruct (IH (<[i := Byte.x00]> bytes)) as (hi & Hl & E & Hd); [rewrite length_insert; lia|].
    exists (hi ++ [Byte.x00]). split; [rewrite length_app; cbn; lia|]. split.
    { rewrite E. rewrite (drop_S (<[i := Byte.x00]> bytes) Byte.x00 i)
        by (apply list_lookup_insert_eq; lia). rewrite drop_insert_lt by lia. by rewrite <- app_assoc. }
    unfold be_decode at 1. rewrite fold_left_app. cbn. fold (be_decode hi). rewrite Hd, take_insert_ge by lia.
    replace (Z_of_byte b) with 255 by lia. change (Z_of_byte Byte.x00) with 0. rewrite Z.add_0_r.
    set (x := be_decode (take i bytes)). set (n := 256 ^ Z.of_nat i) in *.
    replace (x * 256 + 255 + 1) with ((x + 1) * 256) by ring.
    rewrite (Z.mul_comm 256 n), Zmult_mod_distr_r. done.
Qed.

Lemma IncrOne_spec bytes : length (IncrOne bytes) = length bytes /\
  be_decode (IncrOne bytes) = (be_decode bytes + 1) mod 256 ^ Z.of_nat (length bytes).
Proof.
  destruct (IncrOne_loop_spec (length bytes) bytes ltac:(lia)) as (hi & Hl & E & Hd). unfold IncrOne.
  rewrite E, drop_all, app_nil_r. split; [done|]. by rewrite Hd, firstn_all.
Qed.

End byteutils.

(** ** [predicate_bytes.go] *)

(** [common.RightPadBytes] and [common.TrimRightZeroes] *)
Class PadLib := {
  RightPadBytes : list byte -> nat -> list byte;
  TrimRightZeroes : list byte -> list byte
}.

Class PadLibSpec {PD : PadLib} : Prop := {
  RightPadBytes_pads s l : (length s <= l)%nat ->
    RightPadBytes s l = s ++ replicate (l - length s) Byte.x00;
  TrimRightZeroes_trims s : exists n, s = TrimRightZeroes s ++ replicate n Byte.x00 /\
    list.last (TrimRightZeroes s) <> Some Byte.x00
}.

Module predicate.
Import byteutils.

Definition EndByte : byte := Byte.xff.

Definition ErrInvalidAllZeroBytes : error := errors_New "predicate.ErrInvalidAllZeroBytes".
Definition ErrInvalidPadding : error := errors_New "predicate.ErrInvalidPadding".
Definition ErrInvalidEndDelimiter : error := errors_New "predicate.ErrInvalidEndDelimiter".

Section Pack.
Context {PD : PadLib}.

Definition PackPredicate (predicateBytes : list byte) : list byte :=
  let predicateBytes := predicateBytes ++ [EndByte] in
  RightPadBytes predicateBytes ((length predicateBytes + 31) / 32 * 32).

Definition UnpackPredicate (paddedPredicate : list byte) : result (list byte) :=
  let trimmedPredicateBytes := TrimRightZeroes paddedPredicate in
  if (length trimmedPredicateBytes =? 0)%nat then Err (errorf_w "%w: 0x%x" ErrInvalidAllZeroBytes) else
  let expectedPaddedLength := ((length trimmedPredicateBytes + 31) / 32 * 32)%nat in
  if negb (expectedPaddedLength =? length paddedPredicate)%nat
  then Err (errorf_w "%w: got length (%d), expected length (%d)" ErrInvalidPadding) else
  match trimmedPredicateBytes !! (length trimmedPredicateBytes - 1)%nat with
  | None => Panic
  | Some b =>
      if bool_decide (b <> EndByte) then Err ErrInvalidEndDelimiter
      else Ok (take (length trimmedPredicateBytes - 1) trimmedPredicateBytes)
  end.

Context {PDS : PadLibSpec}.

Lemma trim_unique s t n : s = t ++ replicate n Byte.x00 -> list.last t <> Some Byte.x00 -> TrimRightZeroes s = t.
Proof.
  intros E Ht. destruct (TrimRightZeroes_trims s) as (k & E' & Ht'). rewrite E in E' at 1.
  set (t' := TrimRightZeroes s) in *. clearbody t'. clear s E. revert n k E'.
  assert (forall n k, (n < k)%nat -> t ++ replicate n Byte.x00 = t' ++ replicate k Byte.x00 -> False) as Hlt.
  { intros n k Hnk E. replace k with (k - n - 1 + S n)%nat in E by lia.
    rewrite replicate_add, app_assoc in E. change (replicate (S n) Byte.x00) with ([Byte.x00] ++ replicate n Byte.x00) in E.
    rewrite app_assoc in E. apply app_inj_2 in E as [E _]; [|done]. rewrite E, last_snoc in Ht. done. }
  assert (forall n k, (k < n)%nat -> t ++ replicate n Byte.x00 = t' ++ replicate k Byte.x00 -> False) as Hgt.
  { intros n k Hnk E. replace n with (n - k - 1 + S k)%nat in E by lia.
    rewrite replicate_add, app_assoc in E. change (replicate (S k) Byte.x00) with ([Byte.x00] ++ replicate k Byte.x00) in E.
    rewrite app_assoc in E. apply app_inj_2 in E as [E _]; [|done]. rewrite <- E, last_snoc in Ht'. done. }
  intros n k E. destruct (Nat.lt_trichotomy n k) as [H|[<-|H]]; [by edestruct Hlt| |by edestruct Hgt].
  by apply app_inj_2 in E as [-> _].
Qed.

Lemma pad_up n : (n <= (n + 31) / 32 * 32)%nat.
Proof. pose proof (Nat.div_mod_eq (n + 31) 32). pose proof (Nat.mod_upper_bound (n + 31) 32). lia. Qed.

(** The packing of predicates is exact: [UnpackPredicate] returns a message for its packed
    form and for nothing else. *)
Theorem UnpackPredicate_iff padded predicateBytes :
  UnpackPredicate padded = Ok predicateBytes <-> padded = PackPredicate predicateBytes.
Proof.
  unfold UnpackPredicate, PackPredicate. split.
  - destruct (TrimRightZeroes_trims padded) as (n & E & Ht). set (t := TrimRightZeroes padded) in *.
    destruct (Nat.eqb_spec (length t) 0); [done|]. destruct (Nat.eqb_spec ((length t + 31) / 32 * 32) (length padded)) as [Hl|]; [|done].
    cbn [negb]. destruct (t !! (length t - 1)%nat) as [b|] eqn:Eb; [|done]. case_bool_decide as Hb; [done|].
    subst b. intros [= <-].
    assert (take (length t - 1) t ++ [EndByte] = t) as Et.
    { rewrite <- (take_S_r t _ _ Eb). apply take_ge. lia. }
    rewrite Et, RightPadBytes_pads by apply pad_up. rewrite E at 1. f_equal. f_equal.
    rewrite Hl, E, length_app, length_replicate. lia.
  - intros ->. set (t := predicateBytes ++ [EndByte]).
    assert (length t = S (length predicateBytes)) as Hlt by (unfold t; rewrite length_app; cbn; lia).
    rewrite RightPadBytes_pads by apply pad_up.
    rewrite (trim_unique _ t _ eq_refl) by (unfold t; by rewrite last_snoc).
    destruct (Nat.eqb_spec (length t) 0); [lia|]. rewrite length_app, length_replicate.
    pose proof (pad_up (length t)). rewrite (proj2 (Nat.eqb_eq _ _)) by lia. cbn [negb]. rewrite Hlt.
    replace (S (length predicateBytes) - 1)%nat with (length predicateBytes) by lia. unfold t.
    rewrite list_lookup_middle by done. rewrite bool_decide_eq_false_2 by tauto. by rewrite take_app_length.
Qed.

End Pack.

(** ** [predicate_results.go] *)

Definition Version : Z := 0.
Definition MaxResultsSize : Z := 1024 * 1024.
Definition hashLen : Z := 32.
Definition addrLen : Z := 20.

Definition errShortBuffer : error := errors_New "predicate.errShortBuffer".
Definition errBadVersion : error := errors_New "predicate.errBadVersion".
Definition errTooLarge : error := errors_New "predicate.errTooLarge".

(** By address, and by transaction hash. *)
Abbreviation TxResults := (gmap (list byte) (list byte)).
Abbreviation Results := (gmap (list byte) TxResults).

Definition NewResults : Results := ∅.

(** [Results.GetPredicateResults] and [Results.GetResults], which are the same. *)
Definition GetResults (r : Results) (txHash address : list byte) : list byte :=
  match r !! txHash with
  | None => []
  | Some txResults => default [] (txResults !! address)
  end.

Definition SetTxResults (r : Results) (txHash : list byte) (txResults : TxResults) : Results :=
  if (size txResults =? 0)%nat then delete txHash r else <[txHash := txResults]> r.

Definition DeleteTxResults (r : Results) (txHash : list byte) : Results := delete txHash r.

(** [b[off : off+n]] *)
Definition slice (b : list byte) (off n : Z) : result (list byte) :=
  if (off + n <=? Z.of_nat (length b)) then Ok (take (Z.to_nat n) (drop (Z.to_nat off) b)) else Panic.

(** [binary.BigEndian.UintN(b[off : off+n])] *)
Definition read_uint (b : list byte) (off n : Z) : result Z :=
  s ← slice b off n; Ok (be_decode s).

Definition len (b : list byte) : Z := Z.of_nat (length b).

(** The two loops of [ParseResults]. The offset stays below [MaxResultsSize] plus what a
    [uint32] can add, so that its additions do not wrap. *)
Fixpoint parseInner (n : nat) (b : list byte) (off : Z) (txRes : TxResults) : result (TxResults * Z) :=
  match n with
  | O => Ok (txRes, off)
  | S n' =>
      _ ← fail_if (len b <? off + addrLen + 4) errShortBuffer;
      addr ← slice b off addrLen;
      let off := off + addrLen in
      bytesLen ← read_uint b off 4;
      let off := off + 4 in
      _ ← fail_if (len b <? off + bytesLen) errShortBuffer;
      val ← slice b off bytesLen;
      parseInner n' b (off + bytesLen) (<[addr := val]> txRes)
  end.

Fixpoint parseOuter (n : nat) (b : list byte) (off : Z) (res : Results) : result (Results * Z) :=
  match n with
  | O => Ok (res, off)
  | S n' =>
      _ ← fail_if (len b <? off + hashLen + 4) errShortBuffer;
      hash ← slice b off hashLen;
      let off := off + hashLen in
      innerN ← read_uint b off 4;
      let off := off + 4 in
      inner ← parseInner (Z.to_nat innerN) b off ∅;
      parseOuter n' b (snd inner) (<[hash := fst inner]> res)
  end.

Definition ParseResults (b : list byte) : result Results :=
  _ ← fail_if (len b <? 2) errShortBuffer;
  _ ← fail_if (MaxResultsSize <? len b) errTooLarge;
  ver ← read_uint b 0 2;
  _ ← fail_if (negb (ver =? Version)) (errorf_w "%w: got %d want %d" errBadVersion);
  _ ← fail_if (len b <? 6) errShortBuffer;
  outerN ← read_uint b 2 4;
  res ← parseOuter (Z.to_nat outerN) b 6 ∅;
  Ok (fst res).

Definition inner_size (inner : TxResults) : Z :=
  map_fold (fun _ v size => size + (addrLen + 4 + len v)) 0 inner.
Definition results_size (r : Results) : Z :=
  map_fold (fun _ inner size => size + (hashLen + 4 + inner_size inner)) 6 r.

(** [sort.Slice] of the keys of a map by [bytes.Compare]. *)
Definition sorted_keys {A} (m : gmap (list byte) A) : list (list byte) :=
  sort.Sort (fun x y => bytes.Compare x y <? 0) (map_to_list m).*1.

(** [for _, key := range keys { ... m[key] ... }] *)
Definition entries_bytes {A} (f : list byte -> A -> list byte) (d : A) (m : gmap (list byte) A)
    (keys : list (list byte)) : list byte :=
  flat_map (fun key => f key (default d (m !! key))) keys.

Definition addr_bytes (addr val : list byte) : list byte :=
  addr ++ be_encode 4 (len val) ++ val.
Definition inner_bytes (inner : TxResults) : list byte :=
  entries_bytes addr_bytes [] inner (sorted_keys inner).
Definition hash_bytes (hash : list byte) (inner : TxResults) : list byte :=
  hash ++ be_encode 4 (Z.of_nat (size inner)) ++ inner_bytes inner.

(** The buffer has the size of what is written to it from left to right. *)
Definition Results_Bytes (r : Results) : result (list byte) :=
  if MaxResultsSize <? results_size r then Err errTooLarge else
  Ok (be_encode 2 Version ++ be_encode 4 (Z.of_nat (size r)) ++
      entries_bytes hash_bytes ∅ r (sorted_keys r)).

(** *** Writing, then reading *)

(** The hashes and the addresses are arrays; the lengths are written in 32 bits. *)
Definition results_ok (r : Results) : Prop :=
  map_Forall (fun hash inner => length hash = 32%nat /\
    map_Forall (fun addr (v : list byte) => length addr = 20%nat) inner) r.

Lemma elem_of_sorted_keys {A} (m : gmap (list byte) A) k : k ∈ sorted_keys m <-> is_Some (m !! k).
Proof.
  unfold sorted_keys. rewrite sort.Sort_Permutation, list_elem_of_fmap. split.
  - intros ([k' v] & -> & Hin%elem_of_map_to_list). by exists v.
  - intros [v Hv]. exists (k, v). split; [done|]. by apply elem_of_map_to_list.
Qed.

Lemma length_sorted_keys {A} (m : gmap (list byte) A) : length (sorted_keys m) = size m.
Proof. unfold sorted_keys. by rewrite sort.Sort_Permutation, length_fmap, length_map_to_list. Qed.

(** Inserting the entries of a map in any order of its keys gives the map. *)
Lemma insert_keys {A} (d : A) (m : gmap (list byte) A) :
  fold_left (fun acc k => <[k := default d (m !! k)]> acc) (sorted_keys m) ∅ = m.
Proof.
  assert (forall ks (acc : gmap (list byte) A) k, fold_left (fun acc k => <[k := default d (m !! k)]> acc) ks acc !! k =
    if decide (k ∈ ks) then Some (default d (m !! k)) else acc !! k) as HL.
  { induction ks as [|x ks IH]; intros acc k; cbn [fold_left]; [by rewrite decide_False by apply not_elem_of_nil|].
    rewrite IH. destruct (decide (k ∈ ks)) as [Hin|Hn]; [by rewrite decide_True by by right|].
    destruct (decide (x = k)) as [->|Hne]; [by rewrite lookup_insert_eq, decide_True by by left|].
    rewrite lookup_insert_ne, decide_False; [done| |done]. rewrite elem_of_cons. naive_solver. }
  apply map_eq. intros k. rewrite HL. case_decide as Hk.
  - apply elem_of_sorted_keys in Hk as [v ->]. done.
  - rewrite elem_of_sorted_keys in Hk. rewrite lookup_empty. symmetry. by apply eq_None_not_Some.
Qed.

Lemma slice_app pre x rest : slice (pre ++ x ++ rest) (len pre) (len x) = Ok x.
Proof.
  unfold slice, len. rewrite !length_app. destruct (Z.leb_spec (Z.of_nat (length pre) + Z.of_nat (length x))
    (Z.of_nat (length pre + (length x + length rest)))); [|lia].
  by rewrite !Nat2Z.id, drop_app_length, take_app_length.
Qed.

Lemma read_uint_app pre n v rest : 0 <= v < 256 ^ Z.of_nat n ->
  read_uint (pre ++ be_encode n v ++ rest) (len pre) (Z.of_nat n) = Ok v.
Proof.
  intros Hv. unfold read_uint. pose proof (slice_app pre (be_encode n v) rest) as HS.
  unfold len at 2 in HS. rewrite length_be_encode in HS. rewrite HS. cbn. by rewrite be_decode_encode.
Qed.

Lemma len_app a b : len (a ++ b) = len a + len b.
Proof. unfold len. rewrite length_app. lia. Qed.

Lemma entries_bytes_cons {A} f (d : A) m k ks :
  entries_bytes f d m (k :: ks) = f k (default d (m !! k)) ++ entries_bytes f d m ks.
Proof. done. Qed.

Lemma parseInner_keys (inner : TxResults) pre ks rest (acc : TxResults) :
  Forall (fun a : list byte => length a = 20%nat /\ len (default [] (inner !! a)) < 2 ^ 32) ks ->
  parseInner (length ks) (pre ++ entries_bytes addr_bytes [] inner ks ++ rest) (len pre) acc =
    Ok (fold_left (fun (m : TxResults) a => <[a := default [] (inner !! a)]> m) ks acc,
        len pre + len (entries_bytes addr_bytes [] inner ks)).
Proof.
  intros Hks. revert pre acc. induction Hks as [|a ks [Ha Hv] _ IH]; intros pre acc.
  { cbn. by rewrite Z.add_0_r. }
  rewrite entries_bytes_cons. cbn [length parseInner fold_left]. set (v := default [] (inner !! a)) in *.
  set (tl := entries_bytes addr_bytes [] inner ks ++ rest).
  assert (pre ++ (addr_bytes a v ++ entries_bytes addr_bytes [] inner ks) ++ rest =
    pre ++ a ++ be_encode 4 (len v) ++ v ++ tl) as -> by (unfold tl, addr_bytes; by rewrite <- !app_assoc).
  set (b := pre ++ a ++ be_encode 4 (len v) ++ v ++ tl).
  assert (len a = addrLen) as Hla by (unfold len; by rewrite Ha).
  assert (len (be_encode 4 (len v)) = 4) as Hl4 by (unfold len; by rewrite length_be_encode).
  assert (len b = len pre + addrLen + 4 + len v + len tl) as Hb by (unfold b; rewrite !len_app, Hla, Hl4; lia).
  assert (0 <= len v /\ 0 <= len tl) as [? ?] by (unfold len; lia).
  assert (slice b (len pre) addrLen = Ok a) as E1 by (unfold b; rewrite <- Hla; apply slice_app).
  assert (read_uint b (len pre + addrLen) 4 = Ok (len v)) as E2.
  { unfold b. rewrite <- Hla, <- len_app, app_assoc. apply (read_uint_app (pre ++ a) 4).
    change (256 ^ Z.of_nat 4) with (2 ^ 32). lia. }
  assert (slice b (len pre + addrLen + 4) (len v) = Ok v) as E3.
  { unfold b. rewrite <- Hla, <- Hl4, <- !len_app, (app_assoc pre), (app_assoc (pre ++ a)). apply slice_app. }
  destruct (Z.ltb_spec (len b) (len pre + addrLen + 4)); [lia|]. cbn [fail_if mbind result_bind].
  rewrite E1. cbn [mbind result_bind]. rewrite E2. cbn [mbind result_bind].
  destruct (Z.ltb_spec (len b) (len pre + addrLen + 4 + len v)); [lia|]. cbn [fail_if mbind result_bind].
  rewrite E3. cbn [mbind result_bind].
  assert (b = (pre ++ addr_bytes a v) ++ tl) as -> by (unfold b, addr_bytes; by rewrite <- !app_assoc).
  assert (len pre + addrLen + 4 + len v = len (pre ++ addr_bytes a v)) as ->
    by (unfold addr_bytes; rewrite !len_app, Hla, Hl4; lia).
  unfold tl. rewrite IH, !len_app. f_equal. f_equal. lia.
Qed.

(** The values fit the 32-bit lengths. *)
Definition fits_u32 (r : Results) : Prop :=
  Z.of_nat (size r) < 2 ^ 32 /\ map_Forall (fun _ inner => Z.of_nat (size inner) < 2 ^ 32 /\
    map_Forall (fun _ v => len v < 2 ^ 32) inner) r.

Lemma parseOuter_keys (r : Results) pre hs rest (acc : Results) : results_ok r -> fits_u32 r ->
  Forall (fun h : list byte => is_Some (r !! h)) hs ->
  parseOuter (length hs) (pre ++ entries_bytes hash_bytes ∅ r hs ++ rest) (len pre) acc =
    Ok (fold_left (fun (m : Results) h => <[h := default ∅ (r !! h)]> m) hs acc,
        len pre + len (entries_bytes hash_bytes ∅ r hs)).
Proof.
  intros Hr [_ Hsz] Hhs. revert pre acc. induction Hhs as [|h hs [inner Hi] _ IH]; intros pre acc.
  { cbn. by rewrite Z.add_0_r. }
  destruct (Hr h inner Hi) as [Hh Ha]. destruct (Hsz h inner Hi) as [Hn Hv].
  rewrite entries_bytes_cons. cbn [length parseOuter fold_left]. rewrite Hi. cbn [from_option]. unfold id.
  set (tl := entries_bytes hash_bytes ∅ r hs ++ rest). set (n := Z.of_nat (size inner)) in *.
  assert (pre ++ (hash_bytes h inner ++ entries_bytes hash_bytes ∅ r hs) ++ rest =
    pre ++ h ++ be_encode 4 n ++ inner_bytes inner ++ tl) as -> by (unfold tl, hash_bytes; by rewrite <- !app_assoc).
  set (b := pre ++ h ++ be_encode 4 n ++ inner_bytes inner ++ tl).
  assert (len h = hashLen) as Hlh by (unfold len; by rewrite Hh).
  assert (len (be_encode 4 n) = 4) as Hl4 by (unfold len; by rewrite length_be_encode).
  assert (len pre + hashLen + 4 <= len b) as Hb by (unfold b; rewrite !len_app, Hlh, Hl4; unfold len; lia).
  assert (slice b (len pre) hashLen = Ok h) as E1 by (unfold b; rewrite <- Hlh; apply slice_app).
  assert (read_uint b (len pre + hashLen) 4 = Ok n) as E2.
  { unfold b. rewrite <- Hlh, <- len_app, app_assoc. apply (read_uint_app (pre ++ h) 4).
    change (256 ^ Z.of_nat 4) with (2 ^ 32). unfold n. lia. }
  destruct (Z.ltb_spec (len b) (len pre + hashLen + 4)); [lia|]. cbn [fail_if mbind result_bind].
  rewrite E1. cbn [mbind result_bind]. rewrite E2. cbn [mbind result_bind].
  assert (b = (pre ++ h ++ be_encode 4 n) ++ inner_bytes inner ++ tl) as -> by (unfold b; by rewrite <- !app_assoc).
  assert (len pre + hashLen + 4 = len (pre ++ h ++ be_encode 4 n)) as -> by (rewrite !len_app, Hlh, Hl4; lia).
  assert (Z.to_nat n = length (sorted_keys inner)) as -> by (unfold n; by rewrite Nat2Z.id, length_sorted_keys).
  pose proof (parseInner_keys inner (pre ++ h ++ be_encode 4 n) (sorted_keys inner) tl ∅) as EP.
  fold (inner_bytes inner) in EP. rewrite EP; clear EP.
  2: { apply list.Forall_forall. intros a [v Hav]%elem_of_sorted_keys. rewrite Hav. by split; [apply (Ha a v)|apply (Hv a v)]. }
  cbn [mbind result_bind fst snd]. rewrite insert_keys, <- len_app, app_assoc.
  unfold tl. rewrite IH. f_equal. f_equal. unfold hash_bytes. fold n. rewrite !len_app. lia.
Qed.

(** The size computed beforehand is the size written. *)
Lemma fold_size {A} (f : list byte -> A -> list byte) (g : list byte -> A -> Z) d (m : gmap (list byte) A) z :
  map_Forall (fun k v => g k v = len (f k v)) m ->
  map_fold (fun k v n => n + g k v) z m = z + len (entries_bytes f d m (sorted_keys m)).
Proof.
  intros Hg. rewrite map_fold_foldr.
  assert (len (entries_bytes f d m (sorted_keys m)) = len (entries_bytes f d m (map_to_list m).*1)) as ->.
  { unfold sorted_keys, entries_bytes, len. f_equal. apply Permutation_length, Permutation_flat_map, sort.Sort_Permutation. }
  assert (Forall (fun kv => m !! kv.1 = Some kv.2) (map_to_list m)) as Hl.
  { apply list.Forall_forall. intros [k v]. by rewrite elem_of_map_to_list. }
  induction Hl as [|[k v] l Hkv _ IH]; [cbn; unfold len; cbn; lia|].
  rewrite fmap_cons, entries_bytes_cons, len_app. cbn [foldr uncurry fst]. cbn in Hkv. rewrite IH, Hkv.
  cbn [from_option]. unfold id. rewrite (Hg k v Hkv). lia.
Qed.

Lemma inner_size_eq (inner : TxResults) : map_Forall (fun a (_ : list byte) => length a = 20%nat) inner ->
  inner_size inner = len (inner_bytes inner).
Proof.
  intros Ha. unfold inner_size, inner_bytes. rewrite (fold_size addr_bytes _ []); [done|].
  intros a v Hav. unfold addr_bytes. rewrite !len_app. unfold len at 2 3. rewrite length_be_encode, (Ha a v Hav).
  unfold addrLen. lia.
Qed.

Lemma results_size_eq (r : Results) : results_ok r ->
  results_size r = 6 + len (entries_bytes hash_bytes ∅ r (sorted_keys r)).
Proof.
  intros Hr. unfold results_size. rewrite (fold_size hash_bytes _ ∅); [done|].
  intros hash inner Hi. destruct (Hr hash inner Hi) as [Hh Ha]. rewrite (inner_size_eq inner Ha).
  unfold hash_bytes. rewrite !len_app. unfold len at 2 3. rewrite length_be_encode, Hh. unfold hashLen. lia.
Qed.

Lemma entries_size {A} f (d : A) m k v : m !! k = Some v -> len (f k v) <= len (entries_bytes f d m (sorted_keys m)).
Proof.
  intros Hk. assert (k ∈ sorted_keys m) as (l1 & l2 & ->)%list_elem_of_split by (apply elem_of_sorted_keys; by exists v).
  unfold entries_bytes. rewrite flat_map_app, len_app. cbn. rewrite Hk, len_app. cbn. unfold id, len. lia.
Qed.

Lemma entries_count {A} f (d : A) m c : 0 <= c -> map_Forall (fun k v => c <= len (f k v)) m ->
  c * Z.of_nat (size m) <= len (entries_bytes f d m (sorted_keys m)).
Proof.
  intros Hc Hm. rewrite <- length_sorted_keys.
  assert (Forall (fun k : list byte => exists v, m !! k = Some v) (sorted_keys m)) as Hks
    by (apply list.Forall_forall; intros k; by rewrite elem_of_sorted_keys).
  induction Hks as [|k ks [v Hk] _ IH]; [unfold len; cbn; lia|]. rewrite entries_bytes_cons, len_app, Hk. cbn [from_option length].
  unfold id. pose proof (Hm k v Hk) as H. rewrite Nat2Z.inj_succ, Z.mul_succ_r. cbv beta in H. lia.
Qed.

Lemma size_fits (r : Results) : results_ok r -> results_size r <= MaxResultsSize -> fits_u32 r.
Proof.
  intros Hr Hs. rewrite results_size_eq in Hs by done. unfold MaxResultsSize in Hs. split.
  - assert (4 * Z.of_nat (size r) <= len (entries_bytes hash_bytes ∅ r (sorted_keys r))); [|lia].
    apply entries_count; [lia|]. intros h inner Hi. unfold hash_bytes, len. rewrite !length_app, length_be_encode. lia.
  - intros h inner Hi. destruct (Hr h inner Hi) as [Hh Ha]. pose proof (entries_size hash_bytes ∅ r h inner Hi) as He.
    unfold hash_bytes in He at 1. rewrite !len_app in He.
    assert (len (inner_bytes inner) < 2 ^ 32) as Hb by (unfold len in *; lia). unfold inner_bytes in Hb. split.
    + assert (4 * Z.of_nat (size inner) <= len (entries_bytes addr_bytes [] inner (sorted_keys inner))); [|lia].
      apply entries_count; [lia|]. intros a v Hav. unfold addr_bytes, len. rewrite !length_app, length_be_encode. lia.
    + intros a v Hav. pose proof (entries_size addr_bytes [] inner a v Hav) as Hl. unfold addr_bytes in Hl at 1.
      rewrite !len_app in Hl. unfold len in *. lia.
Qed.

(** The results a block carries are read back as they were: [Bytes] fails exactly when
    they exceed the size limit, and [ParseResults] inverts it. *)
Theorem Results_roundtrip (r : Results) : results_ok r ->
  match Results_Bytes r with
  | Ok bytes => len bytes = results_size r /\ ParseResults bytes = Ok r
  | Err e => e = errTooLarge /\ MaxResultsSize < results_size r
  | Panic => False
  end.
Proof.
  intros Hr. unfold Results_Bytes. destruct (Z.ltb_spec MaxResultsSize (results_size r)) as [|Hs]; [done|].
  pose proof (size_fits r Hr Hs) as Hf. set (body := entries_bytes hash_bytes ∅ r (sorted_keys r)).
  set (n := Z.of_nat (size r)). set (b := be_encode 2 Version ++ be_encode 4 n ++ body).
  assert (len b = results_size r) as Hl.
  { rewrite results_size_eq by done. unfold b. rewrite !len_app. fold body. unfold len at 1 2. rewrite !length_be_encode. lia. }
  split; [done|]. unfold ParseResults. pose proof (results_size_eq r Hr) as Hs6. fold body in Hs6.
  assert (0 <= len body) by (unfold len; lia).
  destruct (Z.ltb_spec (len b) 2); [lia|]. destruct (Z.ltb_spec MaxResultsSize (len b)); [lia|].
  cbn [fail_if mbind result_bind].
  assert (read_uint b 0 2 = Ok Version) as -> by (apply (read_uint_app [] 2); done).
  cbn [mbind result_bind negb fail_if Z.eqb Version]. destruct (Z.ltb_spec (len b) 6); [lia|]. cbn [fail_if mbind result_bind].
  assert (read_uint b 2 4 = Ok n) as ->.
  { apply (read_uint_app (be_encode 2 Version) 4). change (256 ^ Z.of_nat 4) with (2 ^ 32). destruct Hf. unfold n. lia. }
  cbn [mbind result_bind].
  assert (Z.to_nat n = length (sorted_keys r)) as -> by (unfold n; by rewrite Nat2Z.id, length_sorted_keys).
  assert (b = (be_encode 2 Version ++ be_encode 4 n) ++ body ++ []) as -> by (unfold b; by rewrite app_nil_r, <- app_assoc).
  change 6 with (len (be_encode 2 Version ++ be_encode 4 n)). unfold body. rewrite parseOuter_keys; [|done..|].
  - cbn [mbind result_bind fst]. by rewrite insert_keys.
  - apply list.Forall_forall. intros k. apply elem_of_sorted_keys.
Qed.

(** *** Any input *)

Lemma slice_in b off n : off + n <= len b -> exists s, slice b off n = Ok s.
Proof. intros H. unfold slice. fold (len b). destruct (Z.leb_spec (off + n) (len b)); [by eexists|lia]. Qed.

Lemma read_uint_in b off n : off + n <= len b -> exists v, read_uint b off n = Ok v.
Proof. intros [s Hs]%slice_in. unfold read_uint. rewrite Hs. by eexists. Qed.

Lemma parseInner_total n b off acc : parseInner n b off acc <> Panic.
Proof.
  revert off acc. induction n as [|n IH]; intros off acc; cbn [parseInner]; [done|].
  destruct (Z.ltb_spec (len b) (off + addrLen + 4)); [done|]. cbn [fail_if mbind result_bind].
  destruct (slice_in b off addrLen) as [a ->]; [lia|]. cbn [mbind result_bind].
  destruct (read_uint_in b (off + addrLen) 4) as [v ->]; [lia|]. cbn [mbind result_bind].
  destruct (Z.ltb_spec (len b) (off + addrLen + 4 + v)); [done|]. cbn [fail_if mbind result_bind].
  destruct (slice_in b (off + addrLen + 4) v) as [x ->]; [lia|]. apply IH.
Qed.

Lemma parseOuter_total n b off acc : parseOuter n b off acc <> Panic.
Proof.
  revert off acc. induction n as [|n IH]; intros off acc; cbn [parseOuter]; [done|].
  destruct (Z.ltb_spec (len b) (off + hashLen + 4)); [done|]. cbn [fail_if mbind result_bind].
  destruct (slice_in b off hashLen) as [a ->]; [lia|]. cbn [mbind result_bind].
  destruct (read_uint_in b (off + hashLen) 4) as [v ->]; [lia|]. cbn [mbind result_bind].
  pose proof (parseInner_total (Z.to_nat v) b (off + hashLen + 4) ∅) as Hp.
  destruct (parseInner _ _ _ _) as [r|e|]; [apply IH|done|done].
Qed.

(** [ParseResults] never reads outside its input. *)
Lemma ParseResults_total b : ParseResults b <> Panic.
Proof.
  unfold ParseResults. destruct (Z.ltb_spec (len b) 2); [done|]. destruct (MaxResultsSize <? len b); [done|].
  cbn [fail_if mbind result_bind]. destruct (read_uint_in b 0 2) as [v ->]; [lia|]. cbn [mbind result_bind].
  destruct (v =? Version); [|done]. cbn [negb fail_if mbind result_bind].
  destruct (Z.ltb_spec (len b) 6); [done|]. cbn [fail_if mbind result_bind].
  destruct (read_uint_in b 2 4) as [n ->]; [lia|]. cbn [mbind result_bind].
  pose proof (parseOuter_total (Z.to_nat n) b 6 ∅) as Hp. by destruct (parseOuter _ _ _ _).
Qed.

(** ** Instances and runs *)

Module Witness.

Fixpoint trim (l : list byte) : list byte :=
  match l with
  | [] => []
  | b :: l' => match trim l' with
               | [] => if bool_decide (b = Byte.x00) then [] else [b]
               | t => b :: t
               end
  end.

#[local] Instance pads : PadLib := {|
  RightPadBytes s l := s ++ replicate (l - length s) Byte.x00;
  TrimRightZeroes := trim
|}.

#[local] Instance pads_spec : PadLibSpec.
Proof.
  split; [done|]. intros s. cbn. induction s as [|b s (n & E & Hl)]; [by exists 0%nat|]. cbn.
  destruct (trim s) as [|x t] eqn:Et.
  - case_bool_decide as Hb.
    + subst b. exists (S n). split; [|done]. by rewrite E at 1.
    + exists n. split; [by rewrite E at 1|]. cbn. congruence.
  - exists n. split; [by rewrite E at 1|]. by destruct t.
Qed.

Lemma UnpackPredicate_iff_witness :
  UnpackPredicate (PackPredicate [Byte.x01; Byte.x00]) = Ok [Byte.x01; Byte.x00].
Proof. apply (UnpackPredicate_iff (PackPredicate [Byte.x01; Byte.x00]) [Byte.x01; Byte.x00]). reflexivity. Defined.

Definition results1 : Results := {[ replicate 32 Byte.x01 := {[ replicate 20 Byte.x02 := [Byte.x01; Byte.x02; Byte.x03] ]} ]}.

Lemma Results_roundtrip_witness :
  match Results_Bytes results1 with
  | Ok bytes => len bytes = results_size results1 /\ ParseResults bytes = Ok results1
  | Err e => e = errTooLarge /\ MaxResultsSize < results_size results1
  | Panic => False
  end.
Proof.
  apply (Results_roundtrip results1). apply map_Forall_singleton. split; [reflexivity|].
  apply map_Forall_singleton. reflexivity.
Defined.

End Witness.

End predicate.
