(* ===== verification/Transition.v ===== *)
(** * The state transition of a message

    [core/state_transition.go] and [core/gaspool.go]: the intrinsic gas, the purchase of
    gas, the checks before execution and the settlement after it; and
    [core/predicate_check.go], which verifies the predicates of a transaction.

    The EVM itself (geth's [vm.EVM]: [Create], [Call], [Prepare]) and [holiman/uint256] are
    parameters. A [*big.Int] that may be nil is an option; an access list that is nil and
    an empty one cost the same. *)

From S2P Require Import Prelude Deps ExtState Fees Predicate.
Import extstate predicate.

(** [uint256.FromBig], with its overflow flag, and [Int.Mul] *)
Class U256Lib := {
  FromBig : Z -> Z * bool;
  U256_Mul : Z -> Z -> Z
}.

Class U256LibSpec {UI : U256Lib} : Prop := {
  FromBig_fits z : 0 <= z < 2 ^ 256 -> FromBig z = (z, false);
  FromBig_overflows z : 2 ^ 256 <= z -> snd (FromBig z) = true;
  U256_Mul_wraps a b : U256_Mul a b = (a * b) mod 2 ^ 256
}.

(** The methods of [vm.StateDB] used here and not in [GethStateDB] *)
Class VMStateDB (S : Type) := {
  vm_GetCodeHash : S -> Address -> Hash;
  vm_GetRefund : S -> Z
}.

Module core.

(** ** Gas pool *)

Definition ErrGasLimitReached : error := errors_New "core.ErrGasLimitReached".

(** The pool is a [uint64]. *)
Definition AddGas (gp amount : Z) : result Z :=
  if MaxUint64 - amount <? gp then Panic else Ok (gp + amount).

Definition SubGas (gp amount : Z) : result Z :=
  if gp <? amount then Err ErrGasLimitReached else Ok (gp - amount).

(** ** Rules *)

(** [precompileconfig.PredicateContext]: the context of the proposer's block, a pointer.
    [ConsensusCtx], the same for every call of a node, is left to the predicaters. *)
Record PredicateContext (Ctx : Type) := mkPredicateContext { ProposerVMBlockCtx : option Ctx }.
Arguments mkPredicateContext {Ctx}.
Arguments ProposerVMBlockCtx {Ctx}.

(** [precompileconfig.Predicater] *)
Record Predicater (Ctx : Type) := mkPredicater {
  PredicateGas : list byte -> result Z;
  VerifyPredicate : PredicateContext Ctx -> list byte -> result unit
}.
Arguments mkPredicater {Ctx}.
Arguments PredicateGas {Ctx}.
Arguments VerifyPredicate {Ctx}.

Record Rules (Ctx : Type) := mkRules {
  IsHomestead : bool;
  IsIstanbul : bool;
  IsShanghai : bool;
  Predicaters : gmap Address (Predicater Ctx)
}.
Arguments mkRules {Ctx}.
Arguments IsHomestead {Ctx}.
Arguments IsIstanbul {Ctx}.
Arguments IsShanghai {Ctx}.
Arguments Predicaters {Ctx}.

Definition PredicatersExist {Ctx} (rules : Rules Ctx) : bool := (0 <? size (Predicaters rules))%nat.
Definition PredicaterExists {Ctx} (rules : Rules Ctx) (addr : Address) : bool :=
  bool_decide (is_Some (Predicaters rules !! addr)).

(** ** Intrinsic gas *)

Definition TxGas : Z := 21000.
Definition TxGasContractCreation : Z := 53000.
Definition TxDataZeroGas : Z := 4.
Definition TxDataNonZeroGasFrontier : Z := 68.
Definition TxDataNonZeroGasEIP2028 : Z := 16.
Definition InitCodeWordGas : Z := 2.
Definition TxAccessListAddressGas : Z := 2400.
Definition TxAccessListStorageKeyGas : Z := 1900.
Definition MaxCodeSize : Z := 24576.
Definition MaxInitCodeSize : Z := 2 * MaxCodeSize.

Definition ErrGasUintOverflow : error := errors_New "core.ErrGasUintOverflow".
Definition ErrIntrinsicGas : error := errors_New "core.ErrIntrinsicGas".

Definition toWordSize (size : Z) : Z :=
  if MaxUint64 - 31 <? size then MaxUint64 / 32 + 1 else (size + 31) / 32.

Section Gas.
Context {SM : SafeMath} {Ctx : Type}.
Local Open Scope word_scope.

(** [cmath.SafeAdd] with [ErrGasUintOverflow] *)
Definition addGas (gas more : Z) : result Z :=
  let '(totalGas, overflow) := SafeAdd gas more in
  if overflow : bool then Err ErrGasUintOverflow else Ok totalGas.

Fixpoint predicatedGas (rules : Rules Ctx) (accessList : list AccessTuple) (gas : Z) : result Z :=
  match accessList with
  | [] => Ok gas
  | accessTuple :: rest =>
      totalGas ←
        match Predicaters rules !! AT_Address accessTuple with
        | None =>
            addGas gas (TxAccessListAddressGas +u
                        u64 (Z.of_nat (length (StorageKeys accessTuple))) *u TxAccessListStorageKeyGas)
        | Some predicaterContract =>
            predicateGas ← PredicateGas predicaterContract (HashSliceToBytes (StorageKeys accessTuple));
            addGas gas predicateGas
        end;
      predicatedGas rules rest totalGas
  end.

(** [accessList.StorageKeys()] *)
Definition storageKeys (accessList : list AccessTuple) : nat :=
  list_sum (length ∘ StorageKeys <$> accessList).

Definition accessListGas (rules : Rules Ctx) (accessList : list AccessTuple) : result Z :=
  if negb (PredicatersExist rules) then
    Ok (u64 (Z.of_nat (length accessList)) *u TxAccessListAddressGas +u
        u64 (Z.of_nat (storageKeys accessList)) *u TxAccessListStorageKeyGas)
  else predicatedGas rules accessList 0.

(** [if (math.MaxUint64-gas)/price < n { return 0, ErrGasUintOverflow }; gas += n * price] *)
Definition chargeGas (gas price n : Z) : result Z :=
  if (MaxUint64 - gas) / price <? n then Err ErrGasUintOverflow else Ok (gas +u n *u price).

Definition nonZero (data : list byte) : Z :=
  Z.of_nat (length (filter (fun b => b <> Byte.x00) data)).

(** The gas of the data and, for a creation, of its init code. *)
Definition dataGas (gas : Z) (data : list byte) (isContractCreation : bool) (rules : Rules Ctx) : result Z :=
  let dataLen := Z.of_nat (length data) in
  if 0 <? dataLen then
    let nz := nonZero data in
    let nonZeroGas := if IsIstanbul rules then TxDataNonZeroGasEIP2028 else TxDataNonZeroGasFrontier in
    gas ← chargeGas gas nonZeroGas nz;
    let z := dataLen - nz in
    gas ← chargeGas gas TxDataZeroGas z;
    if isContractCreation && IsShanghai rules then chargeGas gas InitCodeWordGas (toWordSize dataLen)
    else Ok gas
  else Ok gas.

Definition IntrinsicGas (data : list byte) (accessList : list AccessTuple) (isContractCreation : bool)
    (rules : Rules Ctx) : result Z :=
  let gas := if isContractCreation && IsHomestead rules then TxGasContractCreation else TxGas in
  gas ← dataGas gas data isContractCreation rules;
  accessGas ← accessListGas rules accessList;
  addGas gas accessGas.

End Gas.

(** ** Messages *)

Record Message := mkMessage {
  To : option Address;
  From : Address;
  MNonce : Z;
  Value : Z;
  GasLimit : Z;
  GasPrice : Z;
  GasFeeCap : option Z;
  GasTipCap : option Z;
  Data : list byte;
  AccessList : list AccessTuple;
  BlobGasFeeCap : option Z;
  BlobHashes : option (list Hash);
  SkipAccountChecks : bool
}.

(** [types.Transaction] by its accessors; the blobs of the sidecar, if there is one *)
Record Transaction := mkTransaction {
  tx_Hash : Hash;
  tx_Nonce : Z;
  tx_Gas : Z;
  tx_GasPrice : Z;
  tx_GasFeeCap : Z;
  tx_GasTipCap : Z;
  tx_To : option Address;
  tx_Value : Z;
  tx_Data : list byte;
  tx_AccessList : list AccessTuple;
  tx_BlobHashes : option (list Hash);
  tx_BlobGasFeeCap : option Z;
  tx_Type : Z;
  tx_Size : Z;
  tx_Sidecar : option (list (list byte));
  tx_Protected : bool
}.

(** [types.Sender] is an argument; the message is returned with its error. *)
Definition TransactionToMessage (Sender : Transaction -> result Address) (tx : Transaction)
    (baseFee : option Z) : result Message :=
  let gasPrice :=
    match baseFee with
    | None => tx_GasPrice tx
    | Some baseFee =>
        let gasPrice := tx_GasTipCap tx + baseFee in
        if tx_GasFeeCap tx <? gasPrice then tx_GasFeeCap tx else gasPrice
    end in
  from ← Sender tx;
  Ok (mkMessage (tx_To tx) from (tx_Nonce tx) (tx_Value tx) (tx_Gas tx) gasPrice (Some (tx_GasFeeCap tx))
        (Some (tx_GasTipCap tx)) (tx_Data tx) (tx_AccessList tx) (tx_BlobGasFeeCap tx) (tx_BlobHashes tx) false).

(** [ExecutionResult] *)
Record ExecutionResult := mkExecutionResult {
  UsedGas : Z;
  RefundedGas : Z;
  VMErr : option error;
  ReturnData : list byte
}.

Definition Failed (result : ExecutionResult) : bool := bool_decide (is_Some (VMErr result)).

Definition ErrExecutionReverted : error := errors_New "vm.ErrExecutionReverted".

Definition Return (result : ExecutionResult) : list byte :=
  match VMErr result with Some _ => [] | None => ReturnData result end.
Definition Revert (result : ExecutionResult) : list byte :=
  match VMErr result with
  | Some e => if bool_decide (e = ErrExecutionReverted) then ReturnData result else []
  | None => []
  end.

(** ** The transition *)

Definition ErrNonceTooHigh : error := errors_New "core.ErrNonceTooHigh".
Definition ErrNonceTooLow : error := errors_New "core.ErrNonceTooLow".
Definition ErrNonceMax : error := errors_New "core.ErrNonceMax".
Definition ErrInsufficientFundsForTransfer : error := errors_New "core.ErrInsufficientFundsForTransfer".
Definition ErrInsufficientFunds : error := errors_New "core.ErrInsufficientFunds".
Definition ErrTipAboveFeeCap : error := errors_New "core.ErrTipAboveFeeCap".
Definition ErrTipVeryHigh : error := errors_New "core.ErrTipVeryHigh".
Definition ErrFeeCapVeryHigh : error := errors_New "core.ErrFeeCapVeryHigh".
Definition ErrFeeCapTooLow : error := errors_New "core.ErrFeeCapTooLow".
Definition ErrSenderNoEOA : error := errors_New "core.ErrSenderNoEOA".
Definition ErrBlobFeeCapTooLow : error := errors_New "core.ErrBlobFeeCapTooLow".
Definition ErrMissingBlobHashes : error := errors_New "core.ErrMissingBlobHashes".
Definition ErrBlobTxCreate : error := errors_New "core.ErrBlobTxCreate".
Definition ErrMaxInitCodeSizeExceeded : error := errors_New "vm.ErrMaxInitCodeSizeExceeded".
Definition EmptyCodeHash : Hash :=
  be_encode 32 0xc5d2460186f7233c927e7db2dcc703c0e500b653ca82273b7bfad8045d85a470.

(** [vm.EVM] with what the transition reads of its context; [Create] and [Call] return the
    output, the gas left and the EVM's error. *)
Record EVM (S Ctx : Type) := mkEVM {
  evm_IsCancun : bool;
  evm_IsLondon : bool;
  NoBaseFee : bool;
  BaseFee : option Z;
  BlobBaseFee : option Z;
  Coinbase : Address;
  evm_Rules : Rules Ctx;
  evm_Prepare : Message -> S -> S;
  Create : Address -> list byte -> Z -> Z -> S -> (list byte * Z * option error) * S;
  Call : Address -> Address -> list byte -> Z -> Z -> S -> (list byte * Z * option error) * S
}.
Arguments mkEVM {S Ctx}.
Arguments evm_IsCancun {S Ctx}.
Arguments evm_IsLondon {S Ctx}.
Arguments NoBaseFee {S Ctx}.
Arguments BaseFee {S Ctx}.
Arguments BlobBaseFee {S Ctx}.
Arguments Coinbase {S Ctx}.
Arguments evm_Rules {S Ctx}.
Arguments evm_Prepare {S Ctx}.
Arguments Create {S Ctx}.
Arguments Call {S Ctx}.

(** [*x] of a pointer that may be nil. *)
Definition deref_opt {A} (x : option A) : result A := match x with Some a => Ok a | None => Panic end.

(** [big.Int.BitLen] *)
Definition BitLen (z : Z) : Z := if z =? 0 then 0 else Z.log2 (Z.abs z) + 1.

Section Transition.
Context {SM : SafeMath} {UI : U256Lib} {S Ctx : Type} {GDB : GethStateDB S} {DB : VMStateDB S}.
Context (IsValidVersionedHash : Hash -> bool).
Local Open Scope word_scope.

(** [StateTransition], the gas pool it points to included. *)
Record StateTransition := mkST {
  st_gp : Z;
  gasRemaining : Z;
  initialGas : Z;
  st_state : S
}.

Abbreviation TransM := (StM StateTransition).

Definition NewStateTransition (gp : Z) (state : S) : StateTransition := mkST gp 0 0 state.

Definition set_gp (gp : Z) : TransM unit := fun st =>
  (Ok tt, mkST gp (gasRemaining st) (initialGas st) (st_state st)).
Definition set_gasRemaining (gas : Z) : TransM unit := fun st =>
  (Ok tt, mkST (st_gp st) gas (initialGas st) (st_state st)).
Definition set_initialGas (gas : Z) : TransM unit := fun st =>
  (Ok tt, mkST (st_gp st) (gasRemaining st) gas (st_state st)).
Definition update_state (f : S -> S) : TransM unit := fun st =>
  (Ok tt, mkST (st_gp st) (gasRemaining st) (initialGas st) (f (st_state st))).
Definition get : TransM StateTransition := fun st => (Ok st, st).

Definition gasUsed (st : StateTransition) : Z := initialGas st -u gasRemaining st.

Definition blobGasUsed (msg : Message) : Z :=
  u64 (Z.of_nat (length (default [] (BlobHashes msg))) * eip4844.BlobTxBlobGasPerBlob).

(** [CanTransfer] of [core/evm.go], which every block context uses. *)
Definition CanTransfer (db : S) (addr : Address) (amount : Z) : bool := amount <=? geth_GetBalance db addr.

(** What the sender must own and what is taken, before the comparison. *)
Definition gasCost (evm : EVM S Ctx) (msg : Message) : result (Z * Z) :=
  let mgval := GasLimit msg * GasPrice msg in
  let balanceCheck :=
    match GasFeeCap msg with
    | Some gasFeeCap => GasLimit msg * gasFeeCap + Value msg
    | None => mgval
    end in
  if evm_IsCancun evm && (0 <? blobGasUsed msg) then
    blobGasFeeCap ← deref_opt (BlobGasFeeCap msg);
    blobBaseFee ← deref_opt (BlobBaseFee evm);
    Ok (balanceCheck + blobGasUsed msg * blobGasFeeCap, mgval + blobGasUsed msg * blobBaseFee)
  else Ok (balanceCheck, mgval).

Definition buyGas (evm : EVM S Ctx) (msg : Message) : TransM unit :=
  cost ← lift (gasCost evm msg);
  let '(balanceCheck, mgval) := cost in
  let '(balanceCheckU256, overflow) := FromBig balanceCheck in
  if overflow : bool then lift (Err (errorf_w "required balance exceeds 256 bits" ErrInsufficientFunds)) else
  st ← get;
  if geth_GetBalance (st_state st) (From msg) <? balanceCheckU256
  then lift (Err (errorf_w "address %v have %v want %v" ErrInsufficientFunds)) else
  gp ← lift (SubGas (st_gp st) (GasLimit msg));
  _ ← set_gp gp;
  _ ← set_gasRemaining (gasRemaining st +u GasLimit msg);
  _ ← set_initialGas (GasLimit msg);
  update_state (fun s => geth_SubBalance s (From msg) (fst (FromBig mgval))).

(** The account checks of [preCheck]. *)
Definition checkAccount (msg : Message) (s : S) : result unit :=
  let stNonce := geth_GetNonce s (From msg) in
  if stNonce <? MNonce msg then Err (errorf_w "address %v, tx: %d state: %d" ErrNonceTooHigh)
  else if MNonce msg <? stNonce then Err (errorf_w "address %v, tx: %d state: %d" ErrNonceTooLow)
  else if stNonce +u 1 <? stNonce then Err (errorf_w "address %v, nonce: %d" ErrNonceMax)
  else
    let codeHash := vm_GetCodeHash s (From msg) in
    if negb (bool_decide (codeHash = Hash_zero)) && negb (bool_decide (codeHash = EmptyCodeHash))
    then Err (errorf_w "address %v, codehash: %s" ErrSenderNoEOA)
    else Ok tt.

(** The fee checks of [preCheck]; the methods of a nil [*big.Int] panic. *)
Definition checkFees (evm : EVM S Ctx) (msg : Message) : result unit :=
  let checks :=
    feeCap ← deref_opt (GasFeeCap msg);
    if 256 <? BitLen feeCap then Err (errorf_w "maxFeePerGas bit length: %d" ErrFeeCapVeryHigh) else
    tipCap ← deref_opt (GasTipCap msg);
    if 256 <? BitLen tipCap then Err (errorf_w "maxPriorityFeePerGas bit length: %d" ErrTipVeryHigh) else
    if feeCap <? tipCap then Err (errorf_w "maxPriorityFeePerGas: %s, maxFeePerGas: %s" ErrTipAboveFeeCap) else
    baseFee ← deref_opt (BaseFee evm);
    if feeCap <? baseFee then Err (errorf_w "maxFeePerGas: %s, baseFee: %s" ErrFeeCapTooLow)
    else Ok tt in
  if NoBaseFee evm then
    feeCap ← deref_opt (GasFeeCap msg);
    if BitLen feeCap =? 0 then
      tipCap ← deref_opt (GasTipCap msg);
      if BitLen tipCap =? 0 then Ok tt else checks
    else checks
  else checks.

(** The blob checks of [preCheck]. *)
Definition checkBlobHashes (msg : Message) : result unit :=
  match BlobHashes msg with
  | None => Ok tt
  | Some hashes =>
      match To msg with
      | None => Err ErrBlobTxCreate
      | Some _ =>
          if (length hashes =? 0)%nat then Err ErrMissingBlobHashes
          else if forallb IsValidVersionedHash hashes then Ok tt
          else Err (errors_New "blob %d has invalid hash version")
      end
  end.

Definition checkBlobFee (evm : EVM S Ctx) (msg : Message) : result unit :=
  if evm_IsCancun evm && (0 <? blobGasUsed msg) then
    let check :=
      feeCap ← deref_opt (BlobGasFeeCap msg);
      blobBaseFee ← deref_opt (BlobBaseFee evm);
      if feeCap <? blobBaseFee then Err (errorf_w "address %v blobGasFeeCap: %v, blobBaseFee: %v" ErrBlobFeeCapTooLow)
      else Ok tt in
    if NoBaseFee evm then
      feeCap ← deref_opt (BlobGasFeeCap msg);
      if BitLen feeCap =? 0 then Ok tt else check
    else check
  else Ok tt.

Definition preCheck (evm : EVM S Ctx) (msg : Message) : TransM unit :=
  st ← get;
  _ ← lift (if SkipAccountChecks msg then Ok tt else checkAccount msg (st_state st));
  _ ← lift (if evm_IsLondon evm then checkFees evm msg else Ok tt);
  _ ← lift (checkBlobHashes msg);
  _ ← lift (checkBlobFee evm msg);
  buyGas evm msg.

(** [uint256.MustFromBig] *)
Definition MustFromBig (z : Z) : result Z :=
  let '(v, overflow) := FromBig z in if overflow : bool then Panic else Ok v.

Definition refundGas (msg : Message) (skipRefund : bool) : TransM Z :=
  st ← get;
  let refund := if skipRefund then 0 else Z.min (gasUsed st / 2) (vm_GetRefund (st_state st)) in
  _ ← set_gasRemaining (if skipRefund then gasRemaining st else gasRemaining st +u refund);
  st ← get;
  price ← lift (MustFromBig (GasPrice msg));
  _ ← update_state (fun s => geth_AddBalance s (From msg) (U256_Mul (gasRemaining st) price));
  gp ← lift (AddGas (st_gp st) (gasRemaining st));
  _ ← set_gp gp;
  mret refund.

(** The run of the EVM: the creation of a contract, or the increment of the nonce and the call. *)
Definition execute (evm : EVM S Ctx) (msg : Message) (value : Z) : TransM (list byte * option error) :=
  fun st =>
    let s := st_state st in
    let '(ret, gas, vmerr, s') :=
      match To msg with
      | None => Create evm (From msg) (Data msg) (gasRemaining st) value s
      | Some to =>
          let s := geth_SetNonce s (From msg) (geth_GetNonce s (From msg) +u 1) in
          Call evm (From msg) to (Data msg) (gasRemaining st) value s
      end in
    (Ok (ret, vmerr), mkST (st_gp st) gas (initialGas st) s').

Definition TransitionDb (evm : EVM S Ctx) (msg : Message) : TransM ExecutionResult :=
  _ ← preCheck evm msg;
  let rules := evm_Rules evm in
  let contractCreation := bool_decide (To msg = None) in
  gas ← lift (IntrinsicGas (Data msg) (AccessList msg) contractCreation rules);
  st ← get;
  if gasRemaining st <? gas then lift (Err (errorf_w "have %d, want %d" ErrIntrinsicGas)) else
  _ ← set_gasRemaining (gasRemaining st -u gas);
  let '(value, overflow) := FromBig (Value msg) in
  if overflow : bool then lift (Err (errorf_w "address %v" ErrInsufficientFundsForTransfer)) else
  if negb (value =? 0) && negb (CanTransfer (st_state st) (From msg) value)
  then lift (Err (errorf_w "address %v" ErrInsufficientFundsForTransfer)) else
  if IsShanghai rules && contractCreation && (MaxInitCodeSize <? Z.of_nat (length (Data msg)))
  then lift (Err (errorf_w "code size %v limit %v" ErrMaxInitCodeSizeExceeded)) else
  _ ← update_state (evm_Prepare evm msg);
  out ← execute evm msg value;
  let '(ret, vmerr) := out in
  let '(price, overflow) := FromBig (GasPrice msg) in
  if overflow : bool then lift (Err ErrGasUintOverflow) else
  gasRefund ← refundGas msg true;
  st ← get;
  let fee := U256_Mul (gasUsed st) price in
  _ ← update_state (fun s => geth_AddBalance s (Coinbase evm) fee);
  mret (mkExecutionResult (gasUsed st) gasRefund vmerr ret).

Definition ApplyMessage (evm : EVM S Ctx) (msg : Message) (gp : Z) (s : S)
    : result ExecutionResult * StateTransition :=
  TransitionDb evm msg (NewStateTransition gp s).

End Transition.

End core.
