(* ===== verification/TransitionSpec.v ===== *)
(** * The accounts of a message: what a transition costs, takes and returns

    The intrinsic gas is the exact sum of its parts, or an overflow error; a message that
    does not pass the checks leaves the state and the gas pool as they were; a message
    that is applied pays for the gas it used, and its transition creates no value. *)

From S2P Require Import Prelude Deps GoStd ExtState Fees Predicate Transition.
Import extstate predicate core.

Module corespec.

(** ** Intrinsic gas *)

Section Intrinsic.
Context {SM : SafeMath} {SMs : SafeMathSpec SM} {Ctx : Type}.
Implicit Types rules : Rules Ctx.

(** The cost of an entry of the access list: the price of its address and keys, or what the
    predicater asks. *)
Definition tuple_cost rules (t : AccessTuple) (c : Z) : Prop :=
  match Predicaters rules !! AT_Address t with
  | None => c = TxAccessListAddressGas + Z.of_nat (length (StorageKeys t)) * TxAccessListStorageKeyGas
  | Some p => PredicateGas p (HashSliceToBytes (StorageKeys t)) = Ok c
  end /\ is_u64 c.

Definition base_cost (creation : bool) rules : Z :=
  if creation && IsHomestead rules then 53000 else 21000.
Definition byte_cost rules (b : byte) : Z :=
  if bool_decide (b = Byte.x00) then 4 else if IsIstanbul rules then 16 else 68.
Definition word_cost (creation : bool) rules (len : nat) : Z :=
  if creation && IsShanghai rules then 2 * ((Z.of_nat len + 31) / 32) else 0.

Definition sum (l : list Z) : Z := foldr Z.add 0 l.

Definition intrinsic_cost (data : list byte) (costs : list Z) (creation : bool) rules : Z :=
  base_cost creation rules + sum (byte_cost rules <$> data) + word_cost creation rules (length data) + sum costs.

Definition bounded (gas : Z) : result Z :=
  if gas <=? MaxUint64 then Ok gas else Err ErrGasUintOverflow.

Lemma addGas_bounded gas more : is_u64 gas -> is_u64 more -> addGas gas more = bounded (gas + more).
Proof.
  intros Hg Hm. unfold addGas, bounded. case_test.
  - by rewrite SafeAdd_ok.
  - pose proof (SafeAdd_overflow gas more Hg Hm) as Ho.
    destruct (SafeAdd gas more) as [t o]. cbn in Ho. rewrite Ho by lia. done.
Qed.

Lemma chargeGas_bounded gas price n :
  is_u64 gas -> 0 < price -> 0 <= n -> chargeGas gas price n = bounded (gas + n * price).
Proof.
  intros [Hg Hg'] Hp Hn. unfold chargeGas, bounded.
  pose proof (Z.mul_div_le (MaxUint64 - gas) price Hp).
  pose proof (Z.mul_succ_div_gt (MaxUint64 - gas) price Hp).
  assert (0 <= (MaxUint64 - gas) / price) by (apply Z.div_pos; unfold MaxUint64 in *; lia).
  do 2 case_test; try done; try (exfalso; nia).
  unfold MaxUint64 in *.
  rewrite (u64_small (n * price)) by (unfold is_u64; nia). by rewrite u64_small by (unfold is_u64; nia).
Qed.

Lemma bounded_cases gas : 0 <= gas ->
  (bounded gas = Ok gas /\ is_u64 gas) \/ (bounded gas = Err ErrGasUintOverflow /\ MaxUint64 < gas).
Proof. unfold bounded, is_u64, MaxUint64. case_test; [left|right]; (split; [done|lia]). Qed.

Lemma sum_nonneg l : Forall is_u64 l -> 0 <= sum l.
Proof. induction 1 as [|c l [Hc _] _ IH]; unfold sum in *; cbn; lia. Qed.

Lemma tuple_costs_u64 rules ts costs : Forall2 (tuple_cost rules) ts costs -> Forall is_u64 costs.
Proof. induction 1 as [|t c ts cs [_ Hc] _ IH]; constructor; done. Qed.

Lemma predicatedGas_bounded rules ts costs gas :
  Forall2 (tuple_cost rules) ts costs -> is_u64 gas ->
  predicatedGas rules ts gas = bounded (gas + sum costs).
Proof.
  intros Hc. revert gas. induction Hc as [|t c ts cs [Ht Hu] Hts IH]; intros gas Hg; cbn [predicatedGas].
  - destruct (bounded_cases (gas + 0)) as [[Hb _]|[_ Hb]]; cbn [sum foldr].
    + unfold is_u64 in Hg; lia.
    + rewrite Hb. f_equal. lia.
    + unfold is_u64, MaxUint64 in *; lia.
  - pose proof (sum_nonneg _ (tuple_costs_u64 _ _ _ Hts)) as Hs. cbn [sum foldr]. fold (sum cs).
    assert (Hstep : match Predicaters rules !! AT_Address t with
      | None => addGas gas (u64 (TxAccessListAddressGas +
                  u64 (u64 (Z.of_nat (length (StorageKeys t))) * TxAccessListStorageKeyGas)))
      | Some p => g ← PredicateGas p (HashSliceToBytes (StorageKeys t)); addGas gas g
      end = bounded (gas + c)).
    { destruct (Predicaters rules !! AT_Address t) as [p|].
      - rewrite Ht. cbn. by apply addGas_bounded.
      - unfold TxAccessListAddressGas, TxAccessListStorageKeyGas in *. unfold is_u64 in Hu.
        rewrite (u64_small (Z.of_nat _)) by (unfold is_u64; lia).
        rewrite (u64_small (_ * 1900)) by (unfold is_u64; lia).
        rewrite (u64_small (2400 + _)) by (unfold is_u64; lia). subst c. by apply addGas_bounded. }
    rewrite Hstep. destruct (bounded_cases (gas + c)) as [[-> Hu']|[-> Hu']].
    + unfold is_u64 in *; lia.
    + cbn. rewrite IH by done. by rewrite Z.add_assoc.
    + cbn. unfold bounded. case_test; [lia|done].
Qed.

Lemma no_predicaters_lookup rules a : PredicatersExist rules = false -> Predicaters rules !! a = None.
Proof.
  unfold PredicatersExist. rewrite Nat.ltb_ge. intros Hs.
  assert (Predicaters rules = ∅) as -> by (apply map_size_empty_iff; lia). apply lookup_empty.
Qed.

Lemma plain_costs rules ts costs :
  PredicatersExist rules = false -> Forall2 (tuple_cost rules) ts costs ->
  sum costs = Z.of_nat (length ts) * TxAccessListAddressGas + Z.of_nat (storageKeys ts) * TxAccessListStorageKeyGas.
Proof.
  intros Hno. unfold storageKeys.
  induction 1 as [|t c ts cs [Ht _] _ IH]; [done|].
  rewrite no_predicaters_lookup in Ht by done. cbn [sum foldr fmap list_fmap length list_sum].
  fold (sum cs). rewrite IH, Ht. cbn -[Z.of_nat TxAccessListAddressGas TxAccessListStorageKeyGas].
  change (foldr Init.Nat.add 0%nat) with list_sum.
  unfold TxAccessListAddressGas, TxAccessListStorageKeyGas. lia.
Qed.

(** Without predicates the list is priced in one step, on unchecked [uint64] arithmetic: it
    is exact as long as the list costs less than [2^64]. *)
Lemma accessListGas_bounded rules ts costs :
  Forall2 (tuple_cost rules) ts costs -> (PredicatersExist rules = false -> is_u64 (sum costs)) ->
  accessListGas rules ts = bounded (sum costs).
Proof.
  intros Hc Hsum. unfold accessListGas. destruct (PredicatersExist rules) eqn:He; cbn [negb].
  - rewrite (predicatedGas_bounded _ _ costs) by (done || unfold is_u64; lia). done.
  - specialize (Hsum eq_refl). pose proof (plain_costs _ _ _ He Hc) as Hs.
    destruct (bounded_cases (sum costs)) as [[-> _]|[_ Hb]].
    + apply sum_nonneg. by eapply tuple_costs_u64.
    + unfold TxAccessListAddressGas, TxAccessListStorageKeyGas, is_u64 in *. f_equal.
      rewrite (u64_small (Z.of_nat (length ts))) by (unfold is_u64; lia).
      rewrite (u64_small (Z.of_nat (storageKeys ts))) by (unfold is_u64; lia).
      rewrite (u64_small (_ * 2400)) by (unfold is_u64; lia).
      rewrite (u64_small (_ * 1900)) by (unfold is_u64; lia).
      rewrite u64_small by (unfold is_u64; lia). lia.
    + unfold is_u64, MaxUint64 in *; lia.
Qed.

(** The cost of the data: the nonzero bytes, then the others. *)
Lemma data_cost rules (data : list byte) (nonZeroGas := if IsIstanbul rules then 16 else 68) :
  0 <= nonZero data <= Z.of_nat (length data) /\
  sum (byte_cost rules <$> data) = nonZero data * nonZeroGas + (Z.of_nat (length data) - nonZero data) * 4.
Proof.
  unfold nonZero. induction data as [|b data [Hb IH]]; [done|].
  unfold sum in *. rewrite fmap_cons. cbn [foldr]. rewrite IH, filter_cons. unfold byte_cost, nonZeroGas.
  destruct (decide (b <> Byte.x00)) as [Hn|Hn].
  - rewrite bool_decide_eq_false_2 by done. cbn [length]. split; [lia|]. destruct (IsIstanbul rules); lia.
  - rewrite bool_decide_eq_true_2 by (by destruct (decide (b = Byte.x00))). cbn [length].
    split; [lia|]. destruct (IsIstanbul rules); lia.
Qed.

Lemma bounded_bind gas more (k : Z -> result Z) :
  0 <= gas -> 0 <= more -> (is_u64 gas -> k gas = bounded (gas + more)) ->
  (x ← bounded gas; k x) = bounded (gas + more).
Proof.
  intros Hg Hm Hk. destruct (bounded_cases gas Hg) as [[-> Hu]|[-> Hu]]; cbn; [by apply Hk|].
  unfold bounded. case_test; [lia|done].
Qed.

Lemma dataGas_bounded rules gas (data : list byte) (creation : bool) :
  is_u64 gas -> Z.of_nat (length data) < 2 ^ 63 ->
  dataGas gas data creation rules =
  bounded (gas + sum (byte_cost rules <$> data) + word_cost creation rules (length data)).
Proof.
  intros Hg Hd. destruct (data_cost rules data) as [Hn ->]. unfold dataGas, word_cost.
  assert (toWordSize (Z.of_nat (length data)) = (Z.of_nat (length data) + 31) / 32) as ->.
  { unfold toWordSize, MaxUint64. case_test; [lia|done]. }
  assert (Hpos : 0 <= (Z.of_nat (length data) + 31) / 32) by (apply Z.div_pos; lia).
  change (if IsIstanbul rules then TxDataNonZeroGasEIP2028 else TxDataNonZeroGasFrontier)
    with (if IsIstanbul rules then 16 else 68).
  set (price := if IsIstanbul rules then 16 else 68).
  assert (Hp : 0 < price) by (unfold price; destruct (IsIstanbul rules); lia).
  pose proof Hg as Hg'. unfold is_u64 in Hg'. case_test.
  - rewrite chargeGas_bounded by (done || lia). rewrite Z.add_assoc, <- (Z.add_assoc (gas + _)).
    apply bounded_bind; [nia|destruct (creation && _); nia|]. intros Hu.
    rewrite chargeGas_bounded by (done || lia). rewrite Z.add_assoc.
    apply bounded_bind; [unfold TxDataZeroGas, is_u64 in *; nia|destruct (creation && _); lia|].
    intros Hu'. destruct (creation && IsShanghai rules).
    + rewrite chargeGas_bounded by (done || lia). f_equal. unfold InitCodeWordGas. lia.
    + rewrite Z.add_0_r. unfold bounded, is_u64, MaxUint64 in *. case_test; [done|lia].
  - assert (length data = 0%nat) as Hl by lia. rewrite Hl in *.
    assert (nonZero data = 0) as -> by lia. cbn. destruct (creation && _); cbn; rewrite !Z.add_0_r;
      unfold bounded, MaxUint64; case_test; done || lia.
Qed.


(** The predicaters return [uint64]s. *)
Definition rules_ok rules : Prop :=
  forall a p data g, Predicaters rules !! a = Some p -> PredicateGas p data = Ok g -> is_u64 g.

Lemma bounded_Ok gas g : 0 <= gas -> bounded gas = Ok g -> g = gas /\ is_u64 g.
Proof. intros Hg Hb. destruct (bounded_cases gas Hg) as [[Hb' Hu]|[Hb' _]]; rewrite Hb' in Hb; inv_result; done. Qed.

Lemma addGas_Ok gas more g : is_u64 gas -> is_u64 more -> addGas gas more = Ok g -> g = gas + more /\ is_u64 g.
Proof.
  intros Hg Hm. rewrite addGas_bounded by done. intros H.
  by apply bounded_Ok in H; [|unfold is_u64 in *; lia].
Qed.

Lemma predicatedGas_u64 rules ts gas g :
  rules_ok rules -> is_u64 gas -> predicatedGas rules ts gas = Ok g -> is_u64 g.
Proof.
  intros Hr. revert gas. induction ts as [|t ts IH]; intros gas Hg; cbn [predicatedGas]; intros H;
    inv_result; [done|]. eapply IH; [|done].
  destruct (Predicaters rules !! AT_Address t) as [p|] eqn:Hp; inv_result.
  - match goal with Hc : addGas _ _ = Ok _ |- _ => apply addGas_Ok in Hc as [_ ?]; [done..|] end. by eapply Hr.
  - match goal with Hc : addGas _ _ = Ok _ |- _ => apply addGas_Ok in Hc as [_ ?]; [done..|] end. apply is_u64_mod.
Qed.

Lemma chargeGas_u64 gas price n g : chargeGas gas price n = Ok g -> is_u64 g.
Proof. unfold chargeGas. case_test; intros Hc; inv_result. apply is_u64_mod. Qed.

Lemma IntrinsicGas_u64 rules data ts creation g :
  rules_ok rules -> IntrinsicGas data ts creation rules = Ok g -> is_u64 g.
Proof.
  unfold IntrinsicGas. intros Hr H. apply bind_Ok in H as (base & Hbase & H).
  apply bind_Ok in H as (access & Haccess & H).
  refine (proj2 (addGas_Ok _ _ _ _ _ H)).
  - unfold dataGas in Hbase. revert Hbase. case_test; [|destruct (creation && _); intros; inv_result; closed_u64].
    intros Hbase. inv_result. destruct (creation && IsShanghai rules); inv_result; by eapply chargeGas_u64.
  - unfold accessListGas in Haccess. destruct (negb _); inv_result; [apply is_u64_mod|].
    by eapply predicatedGas_u64; [| |done].
Qed.

End Intrinsic.

(** ** The checks and the purchase of gas *)

Section Checks.
Context {SM : SafeMath} {UI : U256Lib} {S Ctx : Type} {GDB : GethStateDB S} {DB : VMStateDB S}.
Context (IsValidVersionedHash : Hash -> bool).
Implicit Types (evm : EVM S Ctx) (msg : Message) (st : @StateTransition S).

(** The state once the gas is bought. *)
Definition bought msg (mgval : Z) st : StateTransition :=
  mkST (st_gp st - GasLimit msg) (u64 (gasRemaining st + GasLimit msg)) (GasLimit msg)
    (geth_SubBalance (st_state st) (From msg) (fst (FromBig mgval))).

Lemma buyGas_iff evm msg st st' :
  buyGas evm msg st = (Ok tt, st') <->
  exists balanceCheck mgval,
    gasCost evm msg = Ok (balanceCheck, mgval) /\
    snd (FromBig balanceCheck) = false /\
    fst (FromBig balanceCheck) <= geth_GetBalance (st_state st) (From msg) /\
    GasLimit msg <= st_gp st /\ st' = bought msg mgval st.
Proof.
  unfold buyGas. rewrite lift_bind. destruct (gasCost evm msg) as [[bc mg]|e|].
  2, 3: split; [done|by intros (? & ? & [=] & _)].
  destruct (FromBig bc) as [v o] eqn:Hv. destruct o.
  { split; [done|]. intros (? & ? & [= <- <-] & Ho & _). by rewrite Hv in Ho. }
  unfold get. rewrite (bindM_step (fun st => (Ok st, st)) _ st st st eq_refl).
  destruct (Z.ltb_spec (geth_GetBalance (st_state st) (From msg)) v).
  { split; [done|]. intros (? & ? & [= <- <-] & _ & Hb & _). rewrite Hv in Hb. cbn in Hb. lia. }
  rewrite lift_bind. unfold SubGas. destruct (Z.ltb_spec (st_gp st) (GasLimit msg)).
  { split; [done|]. intros (? & ? & _ & _ & _ & Hg & _). lia. }
  split.
  - intros [= <-]. exists bc, mg. rewrite Hv. cbn. split_and!; try done; lia.
  - intros (? & ? & [= <- <-] & _ & _ & _ & ->). done.
Qed.

Lemma buyGas_fails evm msg st r st' : buyGas evm msg st = (r, st') -> r <> Ok tt -> st' = st.
Proof.
  unfold buyGas. rewrite lift_bind. destruct (gasCost evm msg) as [[bc mg]|e|]; [|by intros [= <- <-]..].
  destruct (FromBig bc) as [v o]. destruct o; [by intros [= <- <-]|].
  unfold get. rewrite (bindM_step (fun st => (Ok st, st)) _ st st st eq_refl).
  case_test; [by intros [= <- <-]|].
  rewrite lift_bind. destruct (SubGas (st_gp st) (GasLimit msg)) as [gp|e|]; intros [= <- <-] ?; done.
Qed.

Lemma fst_Ok_iff {A} (m : result A * @StateTransition S) a : fst m = Ok a <-> exists st', m = (Ok a, st').
Proof. destruct m as [r st']. cbn. split; [by intros ->; exists st'|by intros (? & [= -> _])]. Qed.

Lemma preCheck_iff evm msg st st' :
  preCheck IsValidVersionedHash evm msg st = (Ok tt, st') <->
  (SkipAccountChecks msg = false -> checkAccount msg (st_state st) = Ok tt) /\
  (evm_IsLondon evm = true -> checkFees evm msg = Ok tt) /\
  checkBlobHashes IsValidVersionedHash msg = Ok tt /\ checkBlobFee evm msg = Ok tt /\
  buyGas evm msg st = (Ok tt, st').
Proof.
  unfold preCheck, get. rewrite (bindM_step (fun st => (Ok st, st)) _ st st st eq_refl).
  rewrite lift_bind. destruct (SkipAccountChecks msg).
  2: destruct (checkAccount msg (st_state st)) as [[]|e|]; [|naive_solver..].
  all: cbv beta iota; rewrite lift_bind; destruct (evm_IsLondon evm).
  1, 3: destruct (checkFees evm msg) as [[]|e|]; [|naive_solver..].
  all: cbv beta iota; rewrite lift_bind; destruct (checkBlobHashes _ msg) as [[]|e|]; [|naive_solver..];
    cbv beta iota; rewrite lift_bind; destruct (checkBlobFee evm msg) as [[]|e|]; naive_solver.
Qed.

Lemma preCheck_fails evm msg st r st' :
  preCheck IsValidVersionedHash evm msg st = (r, st') -> r <> Ok tt -> st' = st.
Proof.
  unfold preCheck, get. rewrite (bindM_step (fun st => (Ok st, st)) _ st st st eq_refl).
  rewrite lift_bind. destruct (if SkipAccountChecks msg then _ else _) as [[]|e|]; [|naive_solver..].
  rewrite lift_bind. destruct (if evm_IsLondon evm then _ else _) as [[]|e|]; [|naive_solver..].
  rewrite lift_bind. destruct (checkBlobHashes _ msg) as [[]|e|]; [|naive_solver..].
  rewrite lift_bind. destruct (checkBlobFee evm msg) as [[]|e|]; [|naive_solver..].
  apply buyGas_fails.
Qed.

Lemma preCheck_no_panic evm msg st st' :
  (evm_IsLondon evm = true -> checkFees evm msg <> Panic) -> checkBlobFee evm msg = Ok tt ->
  gasCost evm msg <> Panic -> preCheck IsValidVersionedHash evm msg st = (Panic, st') -> False.
Proof.
  intros Hf Hb Hc. unfold preCheck, get. rewrite (bindM_step (fun st => (Ok st, st)) _ st st st eq_refl).
  rewrite lift_bind. destruct (if SkipAccountChecks msg then _ else _) as [[]|e|] eqn:Ha; [|done|].
  2: { destruct (SkipAccountChecks msg); [done|]. unfold checkAccount in Ha. repeat case_test; try done.
       revert Ha. do 2 case_bool_decide; cbn; repeat case_test; done. }
  rewrite lift_bind. destruct (if evm_IsLondon evm then _ else _) as [[]|e|] eqn:Hl; [|done|].
  2: { destruct (evm_IsLondon evm); [by apply Hf in Hl|done]. }
  rewrite lift_bind. destruct (checkBlobHashes _ msg) as [[]|e|] eqn:Hh; [|done|].
  2: { unfold checkBlobHashes in Hh. destruct (BlobHashes msg), (To msg); try done.
       destruct (length _ =? 0)%nat; [done|]. by destruct (forallb _ _). }
  rewrite lift_bind, Hb. unfold buyGas. rewrite lift_bind. destruct (gasCost evm msg) as [[bc mg]|e|]; [|done..].
  destruct (FromBig bc) as [v []]; [done|]. unfold get. rewrite (bindM_step (fun st => (Ok st, st)) _ st st st eq_refl).
  case_test; [done|]. rewrite lift_bind. unfold SubGas. case_test; done.
Qed.

(** The state the EVM starts from. *)
Definition prepared evm msg (gas : Z) st : StateTransition :=
  mkST (st_gp st) (u64 (gasRemaining st - gas)) (initialGas st) (evm_Prepare evm msg (st_state st)).

(** The state after the settlement: the gas left is paid back at the price it was bought, the
    gas used goes to the coinbase. *)
Definition settled evm msg (price gp : Z) st : StateTransition :=
  mkST gp (gasRemaining st) (initialGas st)
    (geth_AddBalance (geth_AddBalance (st_state st) (From msg) (U256_Mul (gasRemaining st) price))
       (Coinbase evm) (U256_Mul (gasUsed st) price)).

(** The guards between the purchase of the gas and the run. *)
Definition runnable evm msg (gas value : Z) st : Prop :=
  IntrinsicGas (Data msg) (AccessList msg) (bool_decide (To msg = None)) (evm_Rules evm) = Ok gas /\
  gas <= gasRemaining st /\ FromBig (Value msg) = (value, false) /\
  (value = 0 \/ value <= geth_GetBalance (st_state st) (From msg)) /\
  (IsShanghai (evm_Rules evm) = true -> To msg = None -> Z.of_nat (length (Data msg)) <= MaxInitCodeSize).

Lemma settle_step evm msg price st (ret : list byte) vmerr r st' :
  FromBig (GasPrice msg) = (price, false) ->
  (gasRefund ← refundGas msg true;
   st ← get;
   _ ← update_state (fun s => geth_AddBalance s (Coinbase evm) (U256_Mul (gasUsed st) price));
   mret (mkExecutionResult (gasUsed st) gasRefund vmerr ret)) st = (Ok r, st') <->
  exists gp, AddGas (st_gp st) (gasRemaining st) = Ok gp /\
    r = mkExecutionResult (gasUsed st) 0 vmerr ret /\ st' = settled evm msg price gp st.
Proof.
  intros Hp. unfold refundGas, MustFromBig. rewrite Hp.
  unfold mbind, StM_bind, get, set_gasRemaining, lift, update_state, set_gp, mret, StM_ret. cbn.
  destruct (AddGas (st_gp st) (gasRemaining st)) as [gp|e|]; cbn.
  - split; [intros [= <- <-]; exists gp; done|intros (? & [= <-] & -> & ->); done].
  - split; [done|by intros (? & [=] & _)].
  - split; [done|by intros (? & [=] & _)].
Qed.

Lemma TransitionDb_iff evm msg st r st' :
  TransitionDb IsValidVersionedHash evm msg st = (Ok r, st') <->
  exists st1 gas value price ret vmerr st2 gp,
    preCheck IsValidVersionedHash evm msg st = (Ok tt, st1) /\ runnable evm msg gas value st1 /\
    execute evm msg value (prepared evm msg gas st1) = (Ok (ret, vmerr), st2) /\
    FromBig (GasPrice msg) = (price, false) /\ AddGas (st_gp st2) (gasRemaining st2) = Ok gp /\
    r = mkExecutionResult (gasUsed st2) 0 vmerr ret /\ st' = settled evm msg price gp st2.
Proof.
  unfold TransitionDb, runnable. split.
  - intros H. apply bindM_run in H as ([] & st1 & Hpre & H). rewrite lift_bind in H.
    destruct (IntrinsicGas _ _ _ _) as [gas|e|] eqn:Hgas; [|discriminate H..].
    apply bindM_run in H as (? & ? & [= <- <-] & H).
    destruct (Z.ltb_spec (gasRemaining st1) gas) as [|Hle]; [discriminate H|].
    apply bindM_run in H as ([] & ? & [= <-] & H).
    destruct (FromBig (Value msg)) as [value o] eqn:Hval. destruct o; [discriminate H|].
    destruct (negb (value =? 0) && negb (CanTransfer (st_state st1) (From msg) value)) eqn:Hcan; [discriminate H|].
    destruct (IsShanghai (evm_Rules evm) && _ && _) eqn:Hsize; [discriminate H|].
    apply bindM_run in H as ([] & ? & [= <-] & H).
    apply bindM_run in H as ([ret vmerr] & st2 & Hexec & H).
    destruct (FromBig (GasPrice msg)) as [price o] eqn:Hp. destruct o; [discriminate H|].
    apply settle_step in H as (gp & Hgp & -> & ->); [|done].
    exists st1, gas, value, price, ret, vmerr, st2, gp. split_and!; try done.
    + unfold CanTransfer in Hcan. destruct (Z.eqb_spec value 0); [by left|right].
      cbn in Hcan. by apply negb_false_iff, Z.leb_le in Hcan.
    + intros Hs Hto. rewrite Hs, (bool_decide_eq_true_2 _ Hto) in Hsize. cbn in Hsize. lia.
  - intros (st1 & gas & value & price & ret & vmerr & st2 & gp & Hpre & (Hgas & Hle & Hval & Hcan & Hsize) &
      Hexec & Hp & Hgp & -> & ->).
    rewrite (bindM_step _ _ _ _ _ Hpre), lift_bind, Hgas.
    rewrite (bindM_step get _ st1 st1 st1 eq_refl).
    destruct (Z.ltb_spec (gasRemaining st1) gas); [lia|]. rewrite Hval.
    rewrite (bindM_step (set_gasRemaining _) _ st1 tt _ eq_refl).
    replace (negb (value =? 0) && negb (CanTransfer (st_state st1) (From msg) value)) with false.
    2: { symmetry. unfold CanTransfer. destruct (Z.eqb_spec value 0); [done|].
         destruct Hcan; [done|]. cbn. apply negb_false_iff. lia. }
    replace (IsShanghai (evm_Rules evm) && _ && _) with false.
    2: { symmetry. destruct (IsShanghai (evm_Rules evm)); [|done]. case_bool_decide; [|done].
         cbn. apply Z.ltb_ge. auto. }
    rewrite (bindM_step (update_state _) _ _ tt _ eq_refl), (bindM_step _ _ _ _ _ Hexec), Hp.
    apply settle_step; [done|]. by exists gp.
Qed.

End Checks.

(** ** Accounts *)

(** The sum of the balances of a state, and how the operations move it; balances are kept
    modulo [2^256]. *)
Class SupplySpec {S : Type} {GDB : GethStateDB S} (supply : S -> Z) : Prop := {
  balance_le_supply s a : 0 <= geth_GetBalance s a <= supply s;
  supply_SubBalance s a v : 0 <= v <= geth_GetBalance s a -> supply (geth_SubBalance s a v) = supply s - v;
  supply_AddBalance s a v : 0 <= v -> supply s + v < 2 ^ 256 -> supply (geth_AddBalance s a v) = supply s + v;
  supply_SetNonce s a n : supply (geth_SetNonce s a n) = supply s
}.

(** What geth's EVM promises: a run returns no more gas than it was given, and creates no
    balance (a self-destruct can burn some). *)
Class EVMSpec {S Ctx : Type} (supply : S -> Z) (evm : EVM S Ctx) : Prop := {
  Prepare_supply msg s : supply (evm_Prepare evm msg s) = supply s;
  Create_gas from data gas value s ret left vmerr s' :
    0 <= gas -> Create evm from data gas value s = (ret, left, vmerr, s') -> 0 <= left <= gas;
  Create_supply from data gas value s ret left vmerr s' :
    Create evm from data gas value s = (ret, left, vmerr, s') -> supply s' <= supply s;
  Call_gas from to data gas value s ret left vmerr s' :
    0 <= gas -> Call evm from to data gas value s = (ret, left, vmerr, s') -> 0 <= left <= gas;
  Call_supply from to data gas value s ret left vmerr s' :
    Call evm from to data gas value s = (ret, left, vmerr, s') -> supply s' <= supply s
}.

Section Accounts.
Context {SM : SafeMath} {SMs : SafeMathSpec SM} {UI : U256Lib} {UIs : U256LibSpec}.
Context {S Ctx : Type} {GDB : GethStateDB S} {DB : VMStateDB S} {GS : GethStateDBSpec S}.
Context (IsValidVersionedHash : Hash -> bool).
Context (supply : S -> Z) {SS : SupplySpec supply} (evm : EVM S Ctx) {ES : EVMSpec supply evm}.
Implicit Types (msg : Message) (st : @StateTransition S).

(** The blob fee: what the blobs of the message cost, which nobody receives. *)
Definition blobFee msg : Z :=
  if evm_IsCancun evm && (0 <? blobGasUsed msg) then blobGasUsed msg * default 0 (BlobBaseFee evm) else 0.

Lemma blobFee_nonneg msg :
  (evm_IsCancun evm = true -> 0 <= default 0 (BlobBaseFee evm)) -> 0 <= blobFee msg.
Proof.
  intros Hb. unfold blobFee. pose proof (is_u64_mod (Z.of_nat (length (default [] (BlobHashes msg))) *
    eip4844.BlobTxBlobGasPerBlob)) as [Hn _]. destruct (evm_IsCancun evm); cbn; [|done].
  specialize (Hb eq_refl). case_test; [|done]. unfold blobGasUsed in *. nia.
Qed.

(** A message of a block: [GasPrice] is the effective price, at most the fee cap. *)
Definition well_priced msg : Prop :=
  is_u64 (GasLimit msg) /\ 0 <= GasPrice msg /\ 0 <= Value msg /\
  exists feeCap, GasFeeCap msg = Some feeCap /\ GasPrice msg <= feeCap.

Lemma FromBig_small z v : 0 <= z -> FromBig z = (v, false) -> v = z /\ z < 2 ^ 256.
Proof.
  intros Hz Hf. destruct (Z.lt_ge_cases z (2 ^ 256)) as [Hlt|Hge].
  - rewrite FromBig_fits in Hf by lia. by injection Hf.
  - pose proof (FromBig_overflows z Hge) as Ho. by rewrite Hf in Ho.
Qed.

Lemma execute_run msg value st ret vmerr st2 :
  0 <= gasRemaining st -> execute evm msg value st = (Ok (ret, vmerr), st2) ->
  st_gp st2 = st_gp st /\ initialGas st2 = initialGas st /\ 0 <= gasRemaining st2 <= gasRemaining st /\
  supply (st_state st2) <= supply (st_state st).
Proof.
  intros Hg. unfold execute. destruct (To msg) as [to|].
  - destruct (Call evm _ _ _ _ _ _) as [[[ret' left] err'] s'] eqn:He. intros [= <- <- <-]. cbn.
    pose proof (Call_gas _ _ _ _ _ _ _ _ _ _ Hg He). apply Call_supply in He.
    rewrite supply_SetNonce in He. done.
  - destruct (Create evm _ _ _ _ _) as [[[ret' left] err'] s'] eqn:He. intros [= <- <- <-]. cbn.
    pose proof (Create_gas _ _ _ _ _ _ _ _ _ Hg He). apply Create_supply in He. done.
Qed.

(** What a passed purchase has taken. *)
Lemma bought_spec msg st st1 :
  well_priced msg -> NoBaseFee evm = false -> checkBlobFee evm msg = Ok tt ->
  (evm_IsCancun evm = true -> 0 <= default 0 (BlobBaseFee evm)) ->
  buyGas evm msg st = (Ok tt, st1) ->
  let paid := GasLimit msg * GasPrice msg + blobFee msg in
  GasLimit msg <= st_gp st /\ 0 <= paid < 2 ^ 256 /\ paid <= geth_GetBalance (st_state st) (From msg) /\
  st1 = mkST (st_gp st - GasLimit msg) (u64 (gasRemaining st + GasLimit msg)) (GasLimit msg)
          (geth_SubBalance (st_state st) (From msg) paid).
Proof.
  intros (Hu & Hp & Hval & cap & Hcap & Hle) Hno Hblob Hbase Hb paid.
  apply buyGas_iff in Hb as (bc & mg & Hcost & Ho & Hbal & Hgp & ->).
  assert (Hpaid : 0 <= paid <= bc /\ mg = paid).
  { unfold gasCost in Hcost. rewrite Hcap in Hcost. unfold paid, blobFee in *.
    unfold checkBlobFee in Hblob. rewrite Hno in Hblob. unfold is_u64 in Hu.
    assert (0 <= blobGasUsed msg) by apply is_u64_mod.
    destruct (evm_IsCancun evm && (0 <? blobGasUsed msg)) eqn:Hc; inv_result; [|nia].
    apply andb_true_iff in Hc as [Hc _]. specialize (Hbase Hc).
    destruct (BlobGasFeeCap msg) as [c|], (BlobBaseFee evm) as [b|]; cbn in *; inv_result; try done.
    match goal with H : context [?x <? ?y] |- _ => destruct (Z.ltb_spec x y) end; inv_result. nia. }
  destruct Hpaid as [Hpaid ->]. destruct (FromBig bc) as [v o] eqn:Hv. cbn in Ho, Hbal. subst o.
  apply FromBig_small in Hv as [-> Hlt]; [|lia].
  split_and!; try lia. unfold bought. rewrite FromBig_fits by lia. done.
Qed.

Lemma transition_run msg (gp : Z) (s : S) r st :
  well_priced msg -> rules_ok (evm_Rules evm) -> is_u64 gp -> supply s < 2 ^ 256 -> NoBaseFee evm = false ->
  (evm_IsCancun evm = true -> 0 <= default 0 (BlobBaseFee evm)) ->
  ApplyMessage IsValidVersionedHash evm msg gp s = (Ok r, st) ->
  exists gas value s1 ret left vmerr s2,
    IntrinsicGas (Data msg) (AccessList msg) (bool_decide (To msg = None)) (evm_Rules evm) = Ok gas /\
    s1 = evm_Prepare evm msg
           (geth_SubBalance s (From msg) (GasLimit msg * GasPrice msg + blobFee msg)) /\
    execute evm msg value (mkST (gp - GasLimit msg) (GasLimit msg - gas) (GasLimit msg) s1) =
      (Ok (ret, vmerr), mkST (gp - GasLimit msg) left (GasLimit msg) s2) /\
    r = mkExecutionResult (GasLimit msg - left) 0 vmerr ret /\
    gas <= UsedGas r <= GasLimit msg /\ GasLimit msg <= gp /\
    st = mkST (gp - UsedGas r) left (GasLimit msg)
           (geth_AddBalance (geth_AddBalance s2 (From msg) (left * GasPrice msg))
              (Coinbase evm) (UsedGas r * GasPrice msg)) /\
    supply (st_state st) <= supply s - blobFee msg.
Proof.
  intros Hw Hr Hgp Hs Hno Hbase Happly.
  apply TransitionDb_iff in Happly as (st1 & gas & value & price & ret & vmerr & st2 & gp' & Hpre & Hrun &
    Hexec & Hprice & Hadd & -> & ->).
  apply preCheck_iff in Hpre as (_ & _ & _ & Hblob & Hbuy).
  destruct (bought_spec _ _ _ Hw Hno Hblob Hbase Hbuy) as (Hle & Hpaid & Hbal & ->).
  destruct Hrun as (Hgas & Hgle & Hval & _). pose proof (IntrinsicGas_u64 _ _ _ _ _ Hr Hgas) as Hgu.
  pose proof Hw as (Hu & Hp & _). apply FromBig_small in Hprice as [-> Hplt]; [|done].
  unfold prepared in Hexec. cbn [st_gp gasRemaining initialGas st_state NewStateTransition] in *.
  rewrite Z.add_0_l, (u64_small (GasLimit msg)) in Hexec, Hgle by done.
  rewrite (u64_small (GasLimit msg - gas)) in Hexec by u64_lia.
  pose proof Hexec as Hexec'. apply execute_run in Hexec' as (Hgp2 & Hig & Hleft & Hsup); [|cbn; u64_lia].
  cbn in Hgp2, Hig, Hleft, Hsup. destruct st2 as [gp2 left ig s2]. cbn in *. subst gp2 ig.
  assert (Hused : gasUsed (mkST (gp - GasLimit msg) left (GasLimit msg) s2) = GasLimit msg - left)
    by (unfold gasUsed; cbn; apply u64_small; u64_lia).
  unfold AddGas in Hadd. destruct (Z.ltb_spec (MaxUint64 - left) (gp - GasLimit msg)); [u64_lia|]. inv_result.
  eexists gas, value, _, ret, left, vmerr, s2. rewrite Hused. cbn. unfold settled. rewrite Hused. cbn.
  pose proof (blobFee_nonneg msg Hbase) as Hbf.
  assert (Hl : 0 <= left * GasPrice msg <= GasLimit msg * GasPrice msg) by (unfold is_u64 in *; nia).
  assert (Hul : (GasLimit msg - left) * GasPrice msg = GasLimit msg * GasPrice msg - left * GasPrice msg) by ring.
  rewrite !U256_Mul_wraps, (Z.mod_small (left * _)), (Z.mod_small ((_ - left) * _)) by lia.
  split_and!; try done; try lia.
  - f_equal. lia.
  - rewrite Prepare_supply, supply_SubBalance in Hsup by lia.
    rewrite !supply_AddBalance by (rewrite ?supply_AddBalance; lia). lia.
Qed.

(** C20. A message that is applied pays for exactly the gas it used: the intrinsic gas is
    part of it, the rest is what the EVM run used; the gas left is paid back at the price it was
    bought for and returned to the pool, the gas used goes to the coinbase at the same price,
    nothing is refunded, and the whole transition creates no balance: the supply falls by
    at least the blob fee. *)
Theorem transition_accounts msg (gp : Z) (s : S) r st :
  well_priced msg -> rules_ok (evm_Rules evm) -> is_u64 gp -> supply s < 2 ^ 256 -> NoBaseFee evm = false ->
  (evm_IsCancun evm = true -> 0 <= default 0 (BlobBaseFee evm)) ->
  ApplyMessage IsValidVersionedHash evm msg gp s = (Ok r, st) ->
  exists gas value s1 ret left vmerr s2,
    IntrinsicGas (Data msg) (AccessList msg) (bool_decide (To msg = None)) (evm_Rules evm) = Ok gas /\
    s1 = evm_Prepare evm msg
           (geth_SubBalance s (From msg) (GasLimit msg * GasPrice msg + blobFee msg)) /\
    execute evm msg value (mkST (gp - GasLimit msg) (GasLimit msg - gas) (GasLimit msg) s1) =
      (Ok (ret, vmerr), mkST (gp - GasLimit msg) left (GasLimit msg) s2) /\
    r = mkExecutionResult (GasLimit msg - left) 0 vmerr ret /\
    gas <= UsedGas r <= GasLimit msg /\ GasLimit msg <= gp /\
    st = mkST (gp - UsedGas r) left (GasLimit msg)
           (geth_AddBalance (geth_AddBalance s2 (From msg) (left * GasPrice msg))
              (Coinbase evm) (UsedGas r * GasPrice msg)) /\
    supply (st_state st) <= supply s - blobFee msg.
Proof. apply transition_run. Qed.

Lemma BitLen_small z : 0 <= z < 2 ^ 256 -> BitLen z <= 256.
Proof.
  intros Hz. unfold BitLen. case_test; [lia|]. rewrite Z.abs_eq by lia.
  assert (Z.log2 z < 256) by (apply Z.log2_lt_pow2; lia). lia.
Qed.

Lemma checkAccount_iff msg s :
  is_u64 (MNonce msg) ->
  checkAccount msg s = Ok tt <->
  geth_GetNonce s (From msg) = MNonce msg /\ MNonce msg < MaxUint64 /\
  (vm_GetCodeHash s (From msg) = Hash_zero \/ vm_GetCodeHash s (From msg) = EmptyCodeHash).
Proof.
  intros Hn. unfold checkAccount. set (n := geth_GetNonce s (From msg)).
  assert (Hu : is_u64 n) by apply geth_GetNonce_u64.
  case_test; [split; [done|lia]|]. case_test; [split; [done|lia]|]. assert (n = MNonce msg) as Hnm by lia.
  case_test.
  - split; [done|]. intros (_ & Hm & _). rewrite u64_small in * by u64_lia. lia.
  - assert (n < MaxUint64).
    { destruct (Z.eq_dec n MaxUint64) as [He|]; [|u64_lia].
      rewrite He in *. match goal with H : _ <= u64 _ |- _ => vm_compute in H; congruence end. }
    do 2 case_bool_decide; cbn; naive_solver lia.
Qed.

Lemma checkFees_iff msg baseFee feeCap tipCap :
  NoBaseFee evm = false -> BaseFee evm = Some baseFee -> GasFeeCap msg = Some feeCap -> GasTipCap msg = Some tipCap ->
  0 <= tipCap -> feeCap < 2 ^ 256 ->
  checkFees evm msg = Ok tt <-> tipCap <= feeCap /\ baseFee <= feeCap.
Proof.
  intros Hno Hb Hf Ht Htip Hcap. unfold checkFees. rewrite Hno, Hb, Hf, Ht. cbn.
  destruct (Z.ltb_spec 256 (BitLen feeCap)) as [Hl|Hl].
  { split; [done|]. intros [? ?]. pose proof (BitLen_small feeCap). lia. }
  destruct (Z.ltb_spec 256 (BitLen tipCap)) as [Hl'|Hl'].
  { split; [done|]. intros [? ?]. pose proof (BitLen_small tipCap). lia. }
  do 2 (case_test; [split; [done|lia]|]). split; [lia|done].
Qed.

(** C37. Admission of a message of a block (no blobs): it passes [preCheck] exactly when its
    nonce is the account's, can be incremented, the sender has no code, the tip is at most
    the fee cap, the fee cap covers the base fee, the sender owns the value and the gas at the
    fee cap, and the pool holds the gas. A message that does not pass changes neither the
    state nor the pool, and is refused with an error, never a panic. *)
Theorem preCheck_admits msg st baseFee feeCap tipCap :
  evm_IsLondon evm = true -> NoBaseFee evm = false -> BaseFee evm = Some baseFee ->
  SkipAccountChecks msg = false -> BlobHashes msg = None ->
  GasFeeCap msg = Some feeCap -> GasTipCap msg = Some tipCap -> 0 <= tipCap -> feeCap < 2 ^ 256 ->
  is_u64 (MNonce msg) -> is_u64 (GasLimit msg) -> 0 <= baseFee -> 0 <= Value msg ->
  (fst (preCheck IsValidVersionedHash evm msg st) = Ok tt <->
   geth_GetNonce (st_state st) (From msg) = MNonce msg /\ MNonce msg < MaxUint64 /\
   (vm_GetCodeHash (st_state st) (From msg) = Hash_zero \/
    vm_GetCodeHash (st_state st) (From msg) = EmptyCodeHash) /\
   tipCap <= feeCap /\ baseFee <= feeCap /\
   GasLimit msg * feeCap + Value msg <= geth_GetBalance (st_state st) (From msg) /\
   GasLimit msg <= st_gp st) /\
  (fst (preCheck IsValidVersionedHash evm msg st) <> Ok tt ->
   is_Err (fst (preCheck IsValidVersionedHash evm msg st)) = true /\
   snd (preCheck IsValidVersionedHash evm msg st) = st).
Proof.
  intros Hl Hno Hbase Hskip Hblob Hcap Htip Htip0 Hcap256 Hn Hg Hb0 Hv.
  assert (Hcost : gasCost evm msg = Ok (GasLimit msg * feeCap + Value msg, GasLimit msg * GasPrice msg)).
  { unfold gasCost, blobGasUsed. rewrite Hcap, Hblob. cbn. by rewrite andb_false_r. }
  assert (Hbf : checkBlobFee evm msg = Ok tt)
    by (unfold checkBlobFee, blobGasUsed; rewrite Hblob; cbn; by rewrite andb_false_r).
  assert (Hbh : checkBlobHashes IsValidVersionedHash msg = Ok tt)
    by (unfold checkBlobHashes; by rewrite Hblob).
  split.
  - pose proof (checkFees_iff msg _ _ _ Hno Hbase Hcap Htip Htip0 Hcap256) as Hfees.
    pose proof (checkAccount_iff msg (st_state st) Hn) as Hacc.
    pose proof (geth_GetBalance_u256 (st_state st) (From msg)) as Hbal.
    rewrite fst_Ok_iff. split.
    + intros (st' & (Ha & Hf & _ & _ & Hbuy)%preCheck_iff).
      apply buyGas_iff in Hbuy as (bc & mg & Hc & Ho & Hle & Hgp & ->).
      rewrite Hcost in Hc. injection Hc as <- <-. destruct (FromBig _) as [v o] eqn:HF. cbn in Ho, Hle. subst o.
      apply Hfees in Hf as [? ?]; [|done]. apply Hacc in Ha; [|done].
      apply FromBig_small in HF as [-> _]; [|unfold is_u64 in Hg; nia]. naive_solver.
    + intros (H1 & H2 & H3 & H4 & H5 & H6 & H7). eexists. apply preCheck_iff.
      split_and!; try done; [by intros; apply Hacc|by intros; apply Hfees|].
      apply buyGas_iff. exists (GasLimit msg * feeCap + Value msg), (GasLimit msg * GasPrice msg).
      rewrite (FromBig_fits (GasLimit msg * feeCap + Value msg)) by (unfold is_u64 in Hg; nia). done.
  - intros Hr. destruct (preCheck _ evm msg st) as [r st'] eqn:Hpre. cbn in *.
    split; [|by eapply preCheck_fails].
    destruct r as [[]|e|]; [done|done|]. exfalso. revert Hpre. apply preCheck_no_panic; [|done|].
    + intros _. unfold checkFees. rewrite Hno, Hbase, Hcap, Htip. cbn. repeat case_test; done.
    + by rewrite Hcost.
Qed.

End Accounts.

End corespec.
