(* ===== verification/TransitionExamples.v ===== *)
(** * Runs of the state transition

    A small EVM over a concrete state database: a call moves its value and uses some gas, a
    creation uses all of it. The theorems of [TransitionSpec] are applied to a transfer. *)

From S2P Require Import Prelude Deps GoStd ExtState Fees Predicate Transition TransitionSpec.
Import extstate predicate core corespec.
Import Deps.Concrete extstate.Concrete.

Module coreexamples.

#[export] Instance u256 : U256Lib := {|
  FromBig z := (z mod 2 ^ 256, negb ((0 <=? z) && (z <? 2 ^ 256)));
  U256_Mul a b := (a * b) mod 2 ^ 256
|}.

#[export] Instance u256_spec : U256LibSpec.
Proof.
  split; intros; cbn -[Z.pow].
  - rewrite Z.mod_small by done. destruct (Z.leb_spec 0 z), (Z.ltb_spec z (2 ^ 256)); (done || lia).
  - destruct (Z.leb_spec 0 z), (Z.ltb_spec z (2 ^ 256)); (done || lia).
  - done.
Qed.

#[export] Instance geth_vm : VMStateDB Geth := {|
  vm_GetCodeHash _ _ := EmptyCodeHash;
  vm_GetRefund _ := 0
|}.

(** ** The supply *)

Definition supply (s : Geth) : Z := map_fold (fun _ v acc => v mod 2 ^ 256 + acc) 0 (balances s).

Lemma fold_delete (m : gmap Address Z) a :
  map_fold (fun _ v acc => v mod 2 ^ 256 + acc) 0 m =
  default 0 (m !! a) mod 2 ^ 256 + map_fold (fun _ v acc => v mod 2 ^ 256 + acc) 0 (delete a m).
Proof.
  destruct (m !! a) as [v|] eqn:E.
  - rewrite <- (insert_delete_id m a v E) at 1. rewrite map_fold_insert_L; [done| |apply lookup_delete_eq].
    intros. lia.
  - rewrite delete_id by done. cbn [default from_option]. rewrite Z.mod_0_l by lia. lia.
Qed.

Lemma supply_insert s a v :
  supply (mkGeth (storage s) (<[a := v]> (balances s)) (nonces s)) =
  supply s - geth_GetBalance s a + v mod 2 ^ 256.
Proof.
  unfold supply. cbn [balances geth_GetBalance geth]. rewrite (fold_delete _ a), (fold_delete (balances s) a).
  rewrite delete_insert_eq, lookup_insert_eq. cbn [default from_option]. unfold id. lia.
Qed.

Lemma fold_nonneg (m : gmap Address Z) : 0 <= map_fold (fun _ v acc => v mod 2 ^ 256 + acc) 0 m.
Proof.
  apply (map_fold_weak_ind (fun r _ => 0 <= r)); [done|]. intros i x m' r _ Hr.
  pose proof (Z.mod_pos_bound x (2 ^ 256) ltac:(lia)). lia.
Qed.

#[export] Instance supply_spec : SupplySpec supply.
Proof.
  split; intros.
  - split; [apply geth_GetBalance_u256|]. unfold supply. rewrite (fold_delete _ a). cbn [geth_GetBalance geth].
    pose proof (fold_nonneg (delete a (balances s))). lia.
  - cbn [geth_SubBalance geth]. rewrite supply_insert. cbn [geth_GetBalance geth] in *.
    rewrite <- Zminus_mod_idemp_l, (Z.mod_small (_ mod _ - v)); [lia|].
    pose proof (Z.mod_pos_bound (default 0 (balances s !! a)) (2 ^ 256) ltac:(lia)). lia.
  - cbn [geth_AddBalance geth]. rewrite supply_insert. cbn [geth_GetBalance geth] in *.
    assert (default 0 (balances s !! a) mod 2 ^ 256 <= supply s).
    { unfold supply. rewrite (fold_delete _ a). pose proof (fold_nonneg (delete a (balances s))). lia. }
    rewrite <- Zplus_mod_idemp_l, (Z.mod_small (_ mod _ + v)); [lia|].
    pose proof (Z.mod_pos_bound (default 0 (balances s !! a)) (2 ^ 256) ltac:(lia)). lia.
  - done.
Qed.

(** ** An EVM *)

(** A call moves its value, if the sender owns it, and uses at most 700 gas. *)
Definition call0 (from to : Address) (data : list byte) (gas value : Z) (s : Geth)
    : (list byte * Z * option error) * Geth :=
  if value <=? geth_GetBalance s from then
    (([], Z.max 0 (gas - 700), None), geth_AddBalance (geth_SubBalance s from value) to value)
  else (([], 0, Some (errors_New "insufficient balance")), s).

Definition evm0 : EVM Geth unit :=
  mkEVM false true false (Some 10) None (replicate 20 Byte.x0c) (mkRules true true true ∅)
    (fun _ s => s) (fun _ _ gas _ s => (([], 0, Some ErrExecutionReverted), s))
    (fun from to data gas value s => call0 from to data gas (Z.abs value) s).

Lemma supply_AddBalance_le s a v : 0 <= v -> supply (geth_AddBalance s a v) <= supply s + v.
Proof.
  intros Hv. cbn [geth_AddBalance geth]. rewrite supply_insert. cbn [geth_GetBalance geth].
  rewrite <- Zplus_mod_idemp_l.
  pose proof (Z.mod_pos_bound (default 0 (balances s !! a)) (2 ^ 256) ltac:(lia)).
  assert ((default 0 (balances s !! a) mod 2 ^ 256 + v) mod 2 ^ 256 <= default 0 (balances s !! a) mod 2 ^ 256 + v)
    by (apply Z.mod_le; lia). lia.
Qed.

Lemma call0_supply from to data gas value s :
  0 <= value -> supply (snd (call0 from to data gas value s)) <= supply s.
Proof.
  intros Hv. unfold call0. case_test; cbn [snd]; [|done].
  rewrite supply_AddBalance_le, supply_SubBalance by lia. lia.
Qed.

#[export] Instance evm0_spec : EVMSpec supply evm0.
Proof.
  split; cbn [evm0 Create Call evm_Prepare]; intros.
  - done.
  - match goal with H : _ = (_, _, _, _) |- _ => injection H as <- <- <- <- end. lia.
  - match goal with H : _ = (_, _, _, _) |- _ => injection H as <- <- <- <- end. done.
  - revert H0. unfold call0. case_test; intros [= <- <- <- <-]; lia.
  - pose proof (call0_supply from to data gas (Z.abs value) s ltac:(lia)) as Hs. by rewrite H in Hs.
Qed.

(** ** A transfer *)

Definition alice : Address := replicate 20 Byte.x0a.
Definition bob : Address := replicate 20 Byte.x0b.
Definition genesis : Geth := mkGeth ∅ {[ alice := 10 ^ 9; bob := 5 ]} ∅.

Definition transfer_tx : Transaction :=
  mkTransaction (replicate 32 Byte.x01) 0 30000 20 20 3 (Some bob) 1000 [Byte.x00; Byte.x07]
    [mkAccessTuple bob [Hash_zero]] None None 2 200 None true.

Definition transfer_msg : Message :=
  mkMessage (Some bob) alice 0 1000 30000 13 (Some 20) (Some 3) [Byte.x00; Byte.x07]
    [mkAccessTuple bob [Hash_zero]] None None false.

Lemma transfer_msg_of_tx : TransactionToMessage (fun _ => Ok alice) transfer_tx (Some 10) = Ok transfer_msg.
Proof. reflexivity. Qed.

Definition evm0_rules : Rules unit := evm_Rules evm0.


Definition no_blobs (_ : Hash) : bool := false.
Definition transfer_run := ApplyMessage no_blobs evm0 transfer_msg 8000000 genesis.
Definition transfer_result : ExecutionResult :=
  match fst transfer_run with Ok r => r | _ => mkExecutionResult 0 0 None [] end.

Lemma transition_accounts_witness :
  UsedGas transfer_result = 26020 /\
  supply (st_state (snd transfer_run)) <= supply genesis.
Proof.
  split; [vm_compute; reflexivity|].
  destruct (transition_accounts no_blobs supply evm0 transfer_msg 8000000 genesis transfer_result (snd transfer_run))
    as (gas & value & s1 & ret & left & vmerr & s2 & _ & _ & _ & _ & _ & _ & _ & Hs).
  - split_and!; [closed_u64|vm_compute; congruence|vm_compute; congruence|]. exists 20. done.
  - intros a p data g Hp. cbn in Hp. by rewrite lookup_empty in Hp.
  - closed_u64.
  - vm_compute; reflexivity.
  - reflexivity.
  - done.
  - vm_compute; reflexivity.
  - by rewrite Z.sub_0_r in Hs.
Defined.

Lemma preCheck_admits_witness :
  fst (preCheck no_blobs evm0 transfer_msg (NewStateTransition 8000000 genesis)) = Ok tt /\
  is_Err (fst (preCheck no_blobs evm0 transfer_msg (NewStateTransition 29999 genesis))) = true.
Proof.
  split.
  - refine (proj2 (proj1 (preCheck_admits no_blobs evm0 transfer_msg (NewStateTransition 8000000 genesis) 10 20 3
      _ _ _ _ _ _ _ _ _ _ _ _ _)) _); try reflexivity; try closed_u64.
    split_and!; try reflexivity; try (vm_compute; congruence). by right.
  - refine (proj1 (proj2 (preCheck_admits no_blobs evm0 transfer_msg (NewStateTransition 29999 genesis) 10 20 3
      _ _ _ _ _ _ _ _ _ _ _ _ _) _)); try reflexivity; try closed_u64.
Defined.

End coreexamples.
