(* ===== verification/Upgrades.v ===== *)
(** * Precompile modules and network upgrades

    [precompile/modules]: the registry of stateful precompiles; [params/extras]: the upgrades
    that enable and disable them, the check of a configuration and the configurations that
    activate between two blocks; [params/config_extras.go]: the precompiles of a rule set;
    [core/state_processor_ext.go]: the activation in the state.

    A precompile's configuration ([precompileconfig.Config]) and its [Configure] are
    parameters: they are the precompile's own. *)

From S2P Require Import Prelude GoStd ExtState.

(** [precompileconfig.Config]; [Verify] is applied to the one chain configuration, and a
    configuration that also implements [Predicater] or [Accepter] says so. *)
Class PrecompileConfig (C : Type) := {
  Key : C -> string;
  Timestamp : C -> option Z;
  IsDisabled : C -> bool;
  Config_Verify : C -> result unit
}.

Module utils_range.

(** [utils.AddressRange] *)
Record AddressRange := mkRange { Start : Address; End : Address }.

Definition Contains (a : AddressRange) (addr : Address) : bool :=
  (0 <=? bytes.Compare addr (Start a)) && (bytes.Compare addr (End a) <=? 0).

End utils_range.

Module modules.
Import utils_range.

(** [BigToAddress]: addresses are 20 bytes. *)
Definition reservedRanges : list AddressRange := [
  mkRange (be_encode 20 (0x01 * 256 ^ 19)) (be_encode 20 (0x01 * 256 ^ 19 + 0xff));
  mkRange (be_encode 20 (0x02 * 256 ^ 19)) (be_encode 20 (0x02 * 256 ^ 19 + 0xff));
  mkRange (be_encode 20 (0x03 * 256 ^ 19)) (be_encode 20 (0x03 * 256 ^ 19 + 0xff));
  mkRange (be_encode 20 0x10000) (be_encode 20 0x1ffff)
].

Definition ReservedAddress (addr : Address) : bool :=
  existsb (fun reservedRange => Contains reservedRange addr) reservedRanges.

(** [Module]: the configurator is of a type of its own, applied in the activation. *)
Record Module (Cfg : Type) := mkModule {
  ConfigKey : string;
  Mod_Address : Address;
  Configurator : Cfg
}.
Arguments mkModule {Cfg}.
Arguments ConfigKey {Cfg}.
Arguments Mod_Address {Cfg}.
Arguments Configurator {Cfg}.

Section Registry.
Context {Cfg : Type} (BlackholeAddr : Address).

(** [moduleArray.Less] *)
Definition Less (u v : Module Cfg) : bool := bytes.Compare (Mod_Address u) (Mod_Address v) <? 0.

Definition insertSortedByAddress (data : list (Module Cfg)) (stm : Module Cfg) : list (Module Cfg) :=
  sort.Sort Less (data ++ [stm]).

(** The loop over the registered modules. *)
Fixpoint checkUnique (stm : Module Cfg) (registered : list (Module Cfg)) : result unit :=
  match registered with
  | [] => Ok tt
  | registeredModule :: rest =>
      if bool_decide (ConfigKey registeredModule = ConfigKey stm)
      then Err (errors_New "name %s already used by a stateful precompile")
      else if bool_decide (Mod_Address registeredModule = Mod_Address stm)
      then Err (errors_New "address %s already used by a stateful precompile")
      else checkUnique stm rest
  end.

Definition RegisterModule (stm : Module Cfg) (registeredModules : list (Module Cfg))
    : result (list (Module Cfg)) :=
  let address := Mod_Address stm in
  if bool_decide (address = BlackholeAddr) then Err (errors_New "address %s overlaps with blackhole address")
  else if negb (ReservedAddress address) then Err (errors_New "address %s not in a reserved range")
  else
    _ ← checkUnique stm registeredModules;
    Ok (insertSortedByAddress registeredModules stm).

Definition GetPrecompileModuleByAddress (registeredModules : list (Module Cfg)) (address : Address)
    : option (Module Cfg) :=
  List.find (fun stm => bool_decide (Mod_Address stm = address)) registeredModules.

Definition GetPrecompileModule (registeredModules : list (Module Cfg)) (key : string) : option (Module Cfg) :=
  List.find (fun stm => bool_decide (ConfigKey stm = key)) registeredModules.

End Registry.

End modules.

Module extras.
Import modules.

(** ** Forks by timestamp *)

Definition isTimestampForked (s : option Z) (head : Z) : bool :=
  match s with None => false | Some s => s <=? head end.

Definition configTimestampEqual (x y : option Z) : bool :=
  match x, y with
  | None, None => true
  | Some x, Some y => x =? y
  | _, _ => false
  end.

Definition isForkTimestampIncompatible (s1 s2 : option Z) (head : Z) : bool :=
  (isTimestampForked s1 head || isTimestampForked s2 head) && negb (configTimestampEqual s1 s2).

Definition IsForkTransition (fork parent : option Z) (current : Z) : bool :=
  let parentForked := match parent with Some parent => isTimestampForked fork parent | None => false end in
  let currentForked := isTimestampForked fork current in
  negb parentForked && currentForked.

(** ** Precompile upgrades *)

Section Upgrades.
Context {C Cfg : Type} {PC : PrecompileConfig C}.
Implicit Types (upgrades : list C) (registered : list (Module Cfg)).

(** [lastUpgradeData] *)
Record lastUpgradeData := mkLast { blockTimestamp : Z; disabled : bool }.

(** The loop of [verifyPrecompileUpgrades] with its variables. *)
Fixpoint verify_loop upgrades (lastPrecompileUpgrades : gmap string lastUpgradeData)
    (previousUpgradeTimestamp : option Z) : result unit :=
  match upgrades with
  | [] => Ok tt
  | upgrade :: rest =>
      let key := Key upgrade in
      let '(wasDisabled, lastTimestamp) :=
        match lastPrecompileUpgrades !! key with
        | None => (true, None)
        | Some last => (disabled last, Some (blockTimestamp last))
        end in
      match Timestamp upgrade with
      | None => Err (errors_New "PrecompileUpgrade (%s) at [%d]: block timestamp cannot be nil ")
      | Some upgradeTimestamp =>
          if match previousUpgradeTimestamp with Some p => upgradeTimestamp <? p | None => false end
          then Err (errors_New "PrecompileUpgrade (%s) at [%d]: config block timestamp (%v) < previous timestamp (%v)")
          else if Bool.eqb wasDisabled (IsDisabled upgrade)
          then Err (errors_New "PrecompileUpgrade (%s) at [%d]: disable should be [%v]")
          else if match lastTimestamp with Some l => upgradeTimestamp <=? l | None => false end
          then Err (errors_New "PrecompileUpgrade (%s) at [%d]: config block timestamp (%v) <= previous timestamp (%v) of same key")
          else
            _ ← Config_Verify upgrade;
            verify_loop rest
              (<[key := mkLast upgradeTimestamp (IsDisabled upgrade)]> lastPrecompileUpgrades)
              (Some upgradeTimestamp)
      end
  end.

Definition verifyPrecompileUpgrades upgrades : result unit := verify_loop upgrades ∅ None.

(** [ChainConfig.Verify] *)
Definition Verify upgrades : result unit :=
  wrap_err "invalid precompile upgrades" (verifyPrecompileUpgrades upgrades).

Definition GetActivatingPrecompileConfigs registered (address : Address) (from : option Z) (to : Z)
    upgrades : list C :=
  match GetPrecompileModuleByAddress registered address with
  | None => []
  | Some module =>
      List.filter (fun upgrade => bool_decide (Key upgrade = ConfigKey module) &&
                                  IsForkTransition (Timestamp upgrade) from to) upgrades
  end.

Definition GetActivePrecompileConfig registered upgrades (address : Address) (timestamp : Z) : option C :=
  list.last (GetActivatingPrecompileConfigs registered address None timestamp upgrades).

Definition IsPrecompileEnabled registered upgrades (address : Address) (timestamp : Z) : bool :=
  match GetActivePrecompileConfig registered upgrades address timestamp with
  | Some config => negb (IsDisabled config)
  | None => false
  end.

(** [EnabledStatefulPrecompiles] *)
Definition EnabledStatefulPrecompiles registered upgrades (timestamp : Z) : gmap string C :=
  fold_left (fun configs module =>
    match GetActivePrecompileConfig registered upgrades (Mod_Address module) timestamp with
    | Some config => if negb (IsDisabled config) then <[ConfigKey module := config]> configs else configs
    | None => configs
    end) registered ∅.

(** [constructRulesExtra]: the map of the precompiles; the maps of the predicaters and of the
    accepters take the configurations that implement the interface. *)
Definition rulePrecompiles {P : Type} (as_interface : C -> option P) registered upgrades (timestamp : Z)
    : gmap Address P :=
  fold_left (fun rules module =>
    match GetActivePrecompileConfig registered upgrades (Mod_Address module) timestamp with
    | Some config =>
        if negb (IsDisabled config) then
          match as_interface config with Some p => <[Mod_Address module := p]> rules | None => rules end
        else rules
    | None => rules
    end) registered ∅.

End Upgrades.

End extras.

(** ** Activation in the state *)

(** The methods of geth's [state.StateDB] the activation uses beside [GethStateDB]. *)
Class ActivationStateDB (S : Type) := {
  act_SelfDestruct : S -> Address -> S;
  act_Finalise : bool -> S -> S;
  act_SetCode : S -> Address -> list byte -> S
}.

Module activation.
Import modules extras.

(** [core.BlockContext] *)
Record BlockContext := mkBlockContext { bctx_number : Z; bctx_timestamp : Z }.
Definition NewBlockContext (number timestamp : Z) : BlockContext := mkBlockContext number timestamp.

Section Activation.
Context {C S : Type} {PC : PrecompileConfig C} {GDB : GethStateDB S} {AS : ActivationStateDB S}.

(** [Configure] works on [extstate.New(statedb)], which shares the database. *)
Definition Configure : Type := C -> BlockContext -> StM (extstate.StateDB S) unit.

Definition run_Configure (configure : Configure) (config : C) (blockContext : BlockContext) : StM S unit :=
  fun s => let '(r, w) := configure config blockContext (extstate.New s) in (r, extstate.db w).

(** One activating configuration of a module. *)
Definition activate (module : Module Configure) (blockContext : BlockContext) (activatingConfig : C)
    : StM S unit := fun s =>
  let address := Mod_Address module in
  if IsDisabled activatingConfig
  then (Ok tt, act_Finalise true (act_SelfDestruct s address))
  else
    let s := geth_SetNonce s address 1 in
    let s := act_SetCode s address [Byte.x01] in
    wrapM "could not configure precompile, name: %s, reason"
      (run_Configure (Configurator module) activatingConfig blockContext) s.

Definition ApplyPrecompileActivations (registered : list (Module Configure)) (upgrades : list C)
    (parentTimestamp : option Z) (blockContext : BlockContext) : StM S unit :=
  for_each (fun module =>
    for_each (activate module blockContext)
      (GetActivatingPrecompileConfigs registered (Mod_Address module) parentTimestamp
         (bctx_timestamp blockContext) upgrades)) registered.

Definition ApplyUpgrades := ApplyPrecompileActivations.

End Activation.

End activation.
