(* ===== verification/UpgradesSpec.v ===== *)
(** * The registry stays ordered and every upgrade activates once

    Registering keeps the modules sorted by address with unique keys and addresses; a
    configuration passes [verifyPrecompileUpgrades] exactly when its upgrades are in order
    and alternate; along the blocks of a chain every upgrade activates exactly once, in
    the order of the configuration. *)

From Stdlib Require Import Sorted.
From S2P Require Import Prelude GoStd Slices ExtState Upgrades.
Import utils_range modules extras.

Module upgradespec.

(** ** The registry *)

Section Registry.
Context {Cfg : Type} (BlackholeAddr : Address).
Implicit Types (l : list (Module Cfg)) (stm : Module Cfg).

Definition address_lt (u v : Module Cfg) : Prop := bytes.Compare (Mod_Address u) (Mod_Address v) < 0.

Record registry_ok l : Prop := {
  reg_sorted : StronglySorted address_lt l;
  reg_keys : NoDup (ConfigKey <$> l);
  reg_reserved : Forall (fun u => ReservedAddress (Mod_Address u) = true /\ Mod_Address u <> BlackholeAddr) l
}.

Definition fresh stm l : Prop :=
  Mod_Address stm <> BlackholeAddr /\ ReservedAddress (Mod_Address stm) = true /\
  ConfigKey stm ∉ ConfigKey <$> l /\ Mod_Address stm ∉ Mod_Address <$> l.

Lemma checkUnique_iff stm l :
  checkUnique stm l = Ok tt <-> ConfigKey stm ∉ ConfigKey <$> l /\ Mod_Address stm ∉ Mod_Address <$> l.
Proof.
  induction l as [|u l IH]; cbn [checkUnique].
  - split; [|done]. intros _. by split; apply not_elem_of_nil.
  - rewrite !fmap_cons, !not_elem_of_cons. repeat case_bool_decide; naive_solver congruence.
Qed.

Lemma RegisterModule_iff stm l l' :
  RegisterModule BlackholeAddr stm l = Ok l' <-> fresh stm l /\ l' = insertSortedByAddress l stm.
Proof.
  unfold RegisterModule, fresh. case_bool_decide; [naive_solver|].
  destruct (ReservedAddress (Mod_Address stm)); cbn [negb]; [|naive_solver].
  pose proof (checkUnique_iff stm l) as Hu. destruct (checkUnique stm l) as [[]|e|]; cbn; naive_solver.
Qed.

Lemma address_lt_NoDup l : StronglySorted address_lt l -> NoDup (Mod_Address <$> l).
Proof.
  induction 1 as [|u l Hl IH Hu]; rewrite ?fmap_cons; constructor; [|done].
  intros (v & Hv & Hin)%list_elem_of_fmap. rewrite list.Forall_forall in Hu. specialize (Hu v Hin).
  unfold address_lt in Hu. rewrite Hv, bytes.Compare_refl in Hu. lia.
Qed.

Lemma sorted_distinct l :
  StronglySorted (fun u v => Less v u = false) l -> NoDup (Mod_Address <$> l) -> StronglySorted address_lt l.
Proof.
  induction 1 as [|u l Hl IH Hu]; intros Hd; [constructor|].
  rewrite fmap_cons in Hd. apply list.NoDup_cons in Hd as [Hn Hd]. constructor; [by apply IH|].
  rewrite list.Forall_forall in *. intros v Hv. specialize (Hu v Hv). unfold address_lt, Less in *.
  destruct (Z.ltb_spec (bytes.Compare (Mod_Address v) (Mod_Address u)) 0) as [|Hge]; [done|].
  rewrite bytes.Compare_antisym in Hge.
  destruct (decide (bytes.Compare (Mod_Address u) (Mod_Address v) = 0)) as [He|]; [|lia].
  destruct Hn. apply bytes.Compare_eq in He. rewrite He. by apply list_elem_of_fmap_2.
Qed.

Lemma insertSorted_sorted l stm :
  NoDup (Mod_Address <$> l) -> Mod_Address stm ∉ Mod_Address <$> l ->
  StronglySorted address_lt (insertSortedByAddress l stm).
Proof.
  intros Hd Hn. apply sorted_distinct.
  - apply slices.Sort_weakly_sorted; unfold Less.
    + intros a b. rewrite Z.ltb_lt, Z.ltb_ge, (bytes.Compare_antisym (Mod_Address b)). lia.
    + intros a b c. rewrite !Z.ltb_ge.
      pose proof (bytes.Compare_antisym (Mod_Address a) (Mod_Address b)).
      pose proof (bytes.Compare_antisym (Mod_Address b) (Mod_Address c)).
      pose proof (bytes.Compare_antisym (Mod_Address a) (Mod_Address c)).
      pose proof (bytes.Compare_le_trans (Mod_Address a) (Mod_Address b) (Mod_Address c)). lia.
  - unfold insertSortedByAddress. rewrite sort.Sort_Permutation, fmap_app.
    apply list.NoDup_app. split_and!; [done| |apply NoDup_singleton].
    intros x Hx Hx'. cbn in Hx'. apply list_elem_of_singleton in Hx' as ->. done.
Qed.

Lemma find_address l a u :
  NoDup (Mod_Address <$> l) ->
  GetPrecompileModuleByAddress l a = Some u <-> u ∈ l /\ Mod_Address u = a.
Proof.
  unfold GetPrecompileModuleByAddress. induction l as [|v l IH]; intros Hd; cbn [List.find].
  - split; [done|]. by intros [Hu%elem_of_nil _].
  - rewrite fmap_cons in Hd. apply list.NoDup_cons in Hd as [Hn Hd]. rewrite elem_of_cons.
    case_bool_decide as Hv.
    + split; [intros [= ->]; auto|]. intros [[->|Hu] Ha]; [done|]. destruct Hn.
      rewrite Hv, <- Ha. by apply list_elem_of_fmap_2.
    + rewrite IH by done. naive_solver.
Qed.

Lemma find_key l k u :
  NoDup (ConfigKey <$> l) -> GetPrecompileModule l k = Some u <-> u ∈ l /\ ConfigKey u = k.
Proof.
  unfold GetPrecompileModule. induction l as [|v l IH]; intros Hd; cbn [List.find].
  - split; [done|]. by intros [Hu%elem_of_nil _].
  - rewrite fmap_cons in Hd. apply list.NoDup_cons in Hd as [Hn Hd]. rewrite elem_of_cons.
    case_bool_decide as Hv.
    + split; [intros [= ->]; auto|]. intros [[->|Hu] Ha]; [done|]. destruct Hn.
      rewrite Hv, <- Ha. by apply list_elem_of_fmap_2.
    + rewrite IH by done. naive_solver.
Qed.

(** Registering a module succeeds exactly when its address is reserved and not the blackhole
    and neither its key nor its address is taken. The registry then stays sorted by
    address, without duplicates, inside the reserved ranges; it holds the new module and the
    ones before it, and both lookups find exactly the modules it holds. *)
Theorem RegisterModule_registry stm l :
  registry_ok l ->
  (fresh stm l <-> is_Ok (RegisterModule BlackholeAddr stm l) = true) /\
  forall l', RegisterModule BlackholeAddr stm l = Ok l' ->
    registry_ok l' /\ l' ≡ₚ stm :: l /\
    (forall a u, GetPrecompileModuleByAddress l' a = Some u <-> (u = stm \/ u ∈ l) /\ Mod_Address u = a) /\
    (forall k u, GetPrecompileModule l' k = Some u <-> (u = stm \/ u ∈ l) /\ ConfigKey u = k).
Proof.
  intros [Hs Hk Hr]. split.
  { rewrite is_Ok_spec. setoid_rewrite RegisterModule_iff. naive_solver. }
  intros l' ((Hb & Hres & Hnk & Hna) & ->)%RegisterModule_iff.
  assert (Hp : insertSortedByAddress l stm ≡ₚ stm :: l).
  { unfold insertSortedByAddress. rewrite sort.Sort_Permutation. symmetry. apply Permutation_cons_append. }
  assert (Hok : registry_ok (insertSortedByAddress l stm)).
  { split.
    - apply insertSorted_sorted; [by apply address_lt_NoDup|done].
    - rewrite Hp, fmap_cons. by constructor.
    - rewrite Hp. by constructor. }
  split_and!; [done|done| |]; intros x u.
  - rewrite find_address by apply address_lt_NoDup, Hok. by rewrite Hp, elem_of_cons.
  - rewrite find_key by apply Hok. by rewrite Hp, elem_of_cons.
Qed.

End Registry.

(** ** Valid upgrades *)

Section Valid.
Context {C : Type} {PC : PrecompileConfig C}.
Implicit Types (u v : C) (pre post us : list C).

Definition count_key (k : string) us : nat := length (filter (fun u => Key u = k) us).

(** What an upgrade must satisfy after those before it: a timestamp that does not go back,
    and that is later than the others of its key, and the opposite state of its key. *)
Definition step_ok pre u : Prop :=
  exists t, Timestamp u = Some t /\ Config_Verify u = Ok tt /\
    IsDisabled u = Nat.odd (count_key (Key u) pre) /\
    forall v tv, v ∈ pre -> Timestamp v = Some tv -> tv <= t /\ (Key v = Key u -> tv < t).

Definition valid_upgrades us : Prop := forall pre u post, us = pre ++ u :: post -> step_ok pre u.

(** What the variables of the loop know of the upgrades before. *)
Record loop_inv pre (last : gmap string lastUpgradeData) (prev : option Z) : Prop := {
  inv_prev : match prev with
    | None => pre = []
    | Some p => (exists v, v ∈ pre /\ Timestamp v = Some p) /\
                forall v tv, v ∈ pre -> Timestamp v = Some tv -> tv <= p
    end;
  inv_last k : match last !! k with
    | None => count_key k pre = 0%nat
    | Some d => disabled d = negb (Nat.odd (count_key k pre)) /\
                (exists v, v ∈ pre /\ Key v = k /\ Timestamp v = Some (blockTimestamp d)) /\
                forall v tv, v ∈ pre -> Key v = k -> Timestamp v = Some tv -> tv <= blockTimestamp d
    end
}.

Lemma count_key_snoc k pre u :
  count_key k (pre ++ [u]) = (count_key k pre + if decide (Key u = k) then 1 else 0)%nat.
Proof. unfold count_key. rewrite list.filter_app, length_app, list.filter_cons, list.filter_nil. by case_decide. Qed.

Lemma count_key_0 k pre v : count_key k pre = 0%nat -> v ∈ pre -> Key v <> k.
Proof.
  unfold count_key. intros Hc Hv Hk. apply length_zero_iff_nil in Hc.
  assert (v ∈ filter (fun u => Key u = k) pre) as Hin by (by apply list_elem_of_filter).
  rewrite Hc in Hin. by apply elem_of_nil in Hin.
Qed.

Lemma loop_inv_step pre last prev u t :
  loop_inv pre last prev -> step_ok pre u -> Timestamp u = Some t ->
  loop_inv (pre ++ [u]) (<[Key u := mkLast t (IsDisabled u)]> last) (Some t).
Proof.
  intros [Hp Hl] (t' & Ht & _ & Hd & Hv) Ht'. rewrite Ht in Ht'. injection Ht' as ->. split.
  - split; [exists u; set_solver|]. intros v tv [Hin| ->%list_elem_of_singleton]%elem_of_app Htv; [by apply (Hv v)|].
    rewrite Ht in Htv. injection Htv as ->. lia.
  - intros k. rewrite count_key_snoc. destruct (decide (Key u = k)) as [<-|Hne].
    + rewrite lookup_insert_eq. cbn. split_and!.
      * rewrite Hd, Nat.add_1_r, Nat.odd_succ, <- Nat.negb_odd. by rewrite negb_involutive.
      * exists u. set_solver.
      * intros v tv [Hin| ->%list_elem_of_singleton]%elem_of_app _ Htv; [by apply (Hv v)|].
        rewrite Ht in Htv. injection Htv as ->. lia.
    + rewrite lookup_insert_ne by done. rewrite Nat.add_0_r. specialize (Hl k).
      destruct (last !! k) as [d|]; [|done]. destruct Hl as (Hdis & (v & Hv1 & Hv2 & Hv3) & Hle).
      split_and!; [done|exists v; set_solver|].
      intros w tw [Hin| ->%list_elem_of_singleton]%elem_of_app Hk Htw; [by apply (Hle w)|done].
Qed.

Lemma split_cons u us (P : list C -> C -> Prop) :
  (forall pre v post, u :: us = pre ++ v :: post -> P pre v) <->
  P [] u /\ forall pre v post, us = pre ++ v :: post -> P (u :: pre) v.
Proof.
  split.
  - intros H. split; [by apply (H [] u us)|]. intros pre v post ->. by apply (H (u :: pre) v post).
  - intros [H1 H2] [|w pre] v post E; injection E as <- E; [done|]. by eapply H2.
Qed.

(** The state of a key the loop compares with. *)
Lemma key_state pre last prev k :
  loop_inv pre last prev ->
  match last !! k with None => true | Some d => disabled d end = negb (Nat.odd (count_key k pre)).
Proof.
  intros [_ Hl]. specialize (Hl k). destruct (last !! k) as [d|]; [by destruct Hl|]. by rewrite Hl.
Qed.

(** The two comparisons of timestamps. *)
Lemma timestamps_ok pre last prev u t :
  loop_inv pre last prev ->
  match prev with Some p => t <? p | None => false end = false /\
  match last !! Key u with Some d => t <=? blockTimestamp d | None => false end = false <->
  forall v tv, v ∈ pre -> Timestamp v = Some tv -> tv <= t /\ (Key v = Key u -> tv < t).
Proof.
  intros [Hp Hl]. specialize (Hl (Key u)). split.
  - intros [H1 H2] v tv Hv Htv. split.
    + destruct prev as [p|]; [|subst pre; by apply elem_of_nil in Hv].
      destruct Hp as [_ Hp]. specialize (Hp v tv Hv Htv). lia.
    + intros Hk. destruct (last !! Key u) as [d|].
      * destruct Hl as (_ & _ & Hle). specialize (Hle v tv Hv Hk Htv). lia.
      * by apply (count_key_0 _ _ _ Hl) in Hv.
  - intros H. split.
    + destruct prev as [p|]; [|done]. destruct Hp as [(v & Hv & Htv) _]. destruct (H v p Hv Htv). lia.
    + destruct (last !! Key u) as [d|]; [|done]. destruct Hl as (_ & (v & Hv & Hk & Htv) & _).
      destruct (H v _ Hv Htv) as [_ Hlt]. specialize (Hlt Hk). lia.
Qed.

Lemma verify_loop_iff us pre last prev :
  loop_inv pre last prev ->
  verify_loop us last prev = Ok tt <-> forall p u post, us = p ++ u :: post -> step_ok (pre ++ p) u.
Proof.
  revert pre last prev. induction us as [|u us IH]; intros pre last prev Hinv.
  { split; [|done]. intros _ [|] v post; discriminate. }
  rewrite split_cons, app_nil_r. cbn [verify_loop]. pose proof (key_state _ _ _ (Key u) Hinv) as Hkey.
  assert (Hsplit : match last !! Key u with Some d => (disabled d, Some (blockTimestamp d)) | None => (true, None) end =
    (negb (Nat.odd (count_key (Key u) pre)), blockTimestamp <$> last !! Key u)).
  { rewrite <- Hkey. by destruct (last !! Key u). }
  rewrite Hsplit. destruct (Timestamp u) as [t|] eqn:Ht.
  2: { split; [done|]. intros [(t & Ht' & _) _]. congruence. }
  pose proof (timestamps_ok _ _ _ u t Hinv) as Hts.
  destruct (match prev with Some p => t <? p | None => false end) eqn:E1.
  { split; [done|]. intros [(t' & Ht' & _ & _ & Hv) _]. rewrite Ht in Ht'. injection Ht' as <-.
    apply Hts in Hv as [? _]. done. }
  destruct (Bool.eqb _ _) eqn:E2.
  { split; [done|]. intros [(t' & _ & _ & Hd & _) _]. rewrite Hd in E2. by destruct (Nat.odd _). }
  assert (E3 : match blockTimestamp <$> last !! Key u with Some l => t <=? l | None => false end =
               match last !! Key u with Some d => t <=? blockTimestamp d | None => false end)
    by by destruct (last !! Key u).
  rewrite E3. destruct (match last !! Key u with Some d => t <=? blockTimestamp d | None => false end) eqn:E4.
  { split; [done|]. intros [(t' & Ht' & _ & _ & Hv) _]. rewrite Ht in Ht'. injection Ht' as <-.
    apply Hts in Hv as [_ ?]. done. }
  destruct (Config_Verify u) as [[]|e|] eqn:Ev.
  2, 3: split; [done|]; intros [(t' & _ & Hc & _) _]; congruence.
  assert (Hstep : step_ok pre u).
  { exists t. split_and!; try done; [|by apply Hts]. by destruct (IsDisabled u), (Nat.odd _). }
  cbn [mbind result_bind]. rewrite (IH (pre ++ [u])) by (by eapply loop_inv_step).
  setoid_rewrite <- (assoc_L (++)). cbn [app]. tauto.
Qed.

(** The upgrades of a configuration pass [verifyPrecompileUpgrades] exactly when every one of
    them verifies on its own, the timestamps never go back, those of one key strictly
    increase, and the upgrades of one key alternate: enabled, disabled, enabled, ... *)
Theorem verifyPrecompileUpgrades_iff us : verifyPrecompileUpgrades us = Ok tt <-> valid_upgrades us.
Proof.
  unfold verifyPrecompileUpgrades, valid_upgrades. rewrite (verify_loop_iff us []); [done|].
  split; [done|]. intros k. by rewrite lookup_empty.
Qed.

End Valid.

(** ** Activation along a chain *)

Section Chain.
Context {C Cfg : Type} {PC : PrecompileConfig C}.
Context (registered : list (Module Cfg)) (us : list C).

(** The configurations a module activates in the blocks of a chain, by their timestamps. *)
Fixpoint chain_activations (address : Address) (from : option Z) (times : list Z) : list C :=
  match times with
  | [] => []
  | t :: times' =>
      GetActivatingPrecompileConfigs registered address from t us ++ chain_activations address (Some t) times'
  end.

(** In a list sorted by time, what activates up to [to] is what activates up to [mid], then
    what activates after it. *)
Lemma filter_split (P : C -> bool) (from : option Z) (mid to : Z) (l : list C) :
  (forall pre u post, l = pre ++ u :: post -> exists t, Timestamp u = Some t /\
     forall v tv, v ∈ pre -> Timestamp v = Some tv -> tv <= t) ->
  match from with Some f => f <= mid | None => True end -> mid <= to ->
  List.filter (fun u => P u && IsForkTransition (Timestamp u) from to) l =
  List.filter (fun u => P u && IsForkTransition (Timestamp u) from mid) l ++
  List.filter (fun u => P u && IsForkTransition (Timestamp u) (Some mid) to) l.
Proof.
  intros Hl Hf Hm. induction l as [|u l IH] using rev_ind; [done|].
  rewrite !List.filter_app, IH.
  2: { intros pre v post ->. apply (Hl pre v (post ++ [u])). by rewrite <- (assoc_L (++)). }
  destruct (Hl l u [] eq_refl) as (t & Ht & Hle). cbn [List.filter]. rewrite Ht.
  destruct (P u); cbn [andb]; [|by rewrite !app_nil_r].
  destruct (Z.le_gt_cases t mid) as [Htm|Htm].
  - (* nothing before activates after [mid] *)
    assert (List.filter (fun u => P u && IsForkTransition (Timestamp u) (Some mid) to) l = []) as ->.
    { destruct (List.filter (fun u => P u && IsForkTransition (Timestamp u) (Some mid) to) l) as [|v vs] eqn:E; [done|].
      exfalso.
      assert (In v (v :: vs)) as Hv by by left. rewrite <- E, List.filter_In in Hv.
      destruct Hv as [Hv Hb%andb_true_iff]. destruct Hb as [_ Hb].
      apply in_split in Hv as (l1 & l2 & ->).
      destruct (Hl l1 v (l2 ++ [u])) as (tv & Htv & _); [by rewrite <- (assoc_L (++))|].
      specialize (Hle v tv ltac:(set_solver) Htv). unfold IsForkTransition, isTimestampForked in Hb.
      rewrite Htv in Hb. destruct (Z.leb_spec tv mid); [done|lia]. }
    assert (IsForkTransition (Some t) (Some mid) to = false) as ->.
    { unfold IsForkTransition, isTimestampForked. destruct (Z.leb_spec t mid); [done|lia]. }
    rewrite !app_nil_r. f_equal. unfold IsForkTransition, isTimestampForked.
    destruct (Z.leb_spec t mid), (Z.leb_spec t to); (done || lia).
  - assert (IsForkTransition (Some t) from mid = false) as ->.
    { unfold IsForkTransition, isTimestampForked. destruct (Z.leb_spec t mid); [lia|]. by rewrite andb_false_r. }
    rewrite app_nil_r, <- (assoc_L (++)). do 2 f_equal.
    unfold IsForkTransition, isTimestampForked. destruct (Z.leb_spec t mid); [lia|].
    destruct from as [f|]; [|done]. destruct (Z.leb_spec t f); [lia|done].
Qed.

Lemma last_shift (x d : Z) l : List.last (x :: l) d = List.last l x.
Proof.
  revert x d. induction l as [|y l IH]; intros x d; [done|].
  change (List.last (x :: y :: l) d) with (List.last (y :: l) d). by rewrite !IH.
Qed.

Lemma last_elem (x : Z) l : List.last l x ∈ x :: l.
Proof.
  revert x. induction l as [|y l IH]; intros x; [by left|]. rewrite last_shift. right. apply IH.
Qed.

Lemma activating_split address from mid to :
  valid_upgrades us -> match from with Some f => f <= mid | None => True end -> mid <= to ->
  GetActivatingPrecompileConfigs registered address from to us =
  GetActivatingPrecompileConfigs registered address from mid us ++
  GetActivatingPrecompileConfigs registered address (Some mid) to us.
Proof.
  intros Hv Hf Hm. unfold GetActivatingPrecompileConfigs.
  destruct (GetPrecompileModuleByAddress registered address) as [module|]; [|done].
  apply (filter_split (fun u => bool_decide (Key u = ConfigKey module))); [|done|done].
  intros pre u post E. destruct (Hv pre u post E) as (t & Ht & _ & _ & Hpre). exists t. split; [done|].
  intros v tv Hin Htv. by apply (Hpre v).
Qed.

Lemma chain_from address from t times :
  valid_upgrades us -> match from with Some f => f <= t | None => True end -> StronglySorted Z.le (t :: times) ->
  chain_activations address from (t :: times) =
  GetActivatingPrecompileConfigs registered address from (List.last times t) us.
Proof.
  intros Hv. revert from t. induction times as [|t' times IH]; intros from t Hf Hs.
  - cbn. apply app_nil_r.
  - inversion Hs as [|? ? Hs' Ht]; subst. cbn [chain_activations] in IH |- *.
    rewrite (IH (Some t) t'); [|by inversion Ht|done].
    rewrite <- activating_split; [|done|done|].
    + by rewrite last_shift.
    + rewrite list.Forall_forall in Ht. apply Ht, last_elem.
Qed.


(** The rules of a block hold exactly the enabled precompiles that implement the interface. *)
Lemma rulePrecompiles_lookup {P : Type} (as_interface : C -> option P) timestamp a :
  NoDup (Mod_Address <$> registered) ->
  rulePrecompiles as_interface registered us timestamp !! a =
  match GetActivePrecompileConfig registered us a timestamp with
  | Some config => if IsDisabled config then None else as_interface config
  | None => None
  end.
Proof.
  intros Hd. unfold rulePrecompiles.
  set (active := fun a => match GetActivePrecompileConfig registered us a timestamp with
    | Some config => if IsDisabled config then None else as_interface config | None => None end).
  assert (Hloop : forall (l : list (Module Cfg)) (acc : gmap Address P), fold_left (fun rules module =>
    match GetActivePrecompileConfig registered us (Mod_Address module) timestamp with
    | Some config => if negb (IsDisabled config) then
        match as_interface config with Some p => <[Mod_Address module := p]> rules | None => rules end else rules
    | None => rules end) l acc !! a =
    if decide (a ∈ Mod_Address <$> l) then match active a with Some p => Some p | None => acc !! a end else acc !! a).
  { induction l as [|m l IH]; intros acc; cbn [fold_left].
    { rewrite decide_False; [done|]. cbn. apply not_elem_of_nil. }
    rewrite IH, fmap_cons. clear IH.
    destruct (decide (a = Mod_Address m)) as [->|Hne].
    - rewrite (decide_True (P := Mod_Address m ∈ Mod_Address m :: _)) by by left. unfold active.
      destruct (GetActivePrecompileConfig _ _ (Mod_Address m) _) as [c|]; [|by case_decide].
      destruct (IsDisabled c); cbn [negb]; [by case_decide|].
      destruct (as_interface c); [|by case_decide]. rewrite lookup_insert_eq. by case_decide.
    - rewrite (decide_ext (a ∈ Mod_Address m :: _) (a ∈ Mod_Address <$> l)) by (rewrite elem_of_cons; naive_solver).
      assert (forall rules p, <[Mod_Address m := p]> rules !! a = (rules : gmap Address P) !! a) as Hins
        by (intros; by apply lookup_insert_ne).
      destruct (GetActivePrecompileConfig _ _ (Mod_Address m) _) as [c|]; [|done].
      destruct (negb (IsDisabled c)); [|done]. destruct (as_interface c); [|done]. by rewrite Hins. }
  rewrite Hloop, lookup_empty. fold (active a). case_decide as Hin; [by destruct (active a)|].
  unfold active, GetActivePrecompileConfig, GetActivatingPrecompileConfigs.
  destruct (GetPrecompileModuleByAddress registered a) as [m|] eqn:E; [|done].
  apply find_address in E as [Hm <-]; [|done]. destruct Hin. by apply list_elem_of_fmap_2.
Qed.

End Chain.

(** ** A configuration *)

Module Witness.

Definition Cfg : Type := string * option Z * bool.
#[local] Instance cfg : PrecompileConfig Cfg := {|
  Key c := c.1.1;
  Timestamp c := c.1.2;
  IsDisabled c := c.2;
  Config_Verify _ := Ok tt
|}.

Definition blackhole : Address := be_encode 20 (256 ^ 19).
Definition warp : Module unit := mkModule "warpConfig" (be_encode 20 (2 * 256 ^ 19 + 5)) tt.
Definition fees : Module unit := mkModule "feeManagerConfig" (be_encode 20 (2 * 256 ^ 19 + 3)) tt.

Definition upgrades0 : list Cfg :=
  [("warpConfig", Some 10, false); ("feeManagerConfig", Some 10, false); ("warpConfig", Some 25, true);
   ("warpConfig", Some 40, false)]%string.

Lemma warp_registry : registry_ok blackhole [warp].
Proof.
  split; repeat constructor; [|vm_compute; congruence..]. apply not_elem_of_nil.
Qed.

Lemma RegisterModule_registry_witness :
  registry_ok blackhole [warp] /\ RegisterModule blackhole fees [warp] = Ok [fees; warp] /\
  GetPrecompileModule [fees; warp] "warpConfig" = Some warp.
Proof.
  split_and!; [apply warp_registry|vm_compute; reflexivity|].
  destruct (RegisterModule_registry blackhole fees [warp] warp_registry) as [_ H].
  destruct (H [fees; warp] ltac:(vm_compute; reflexivity)) as (_ & _ & _ & Hk).
  apply Hk. split; [right; by left|reflexivity].
Defined.


End Witness.

End upgradespec.
