(* ===== verification/Processor.v ===== *)
(** * The block processor and the block validator

    [core/evm.go]: the context a block gives to the EVM; [core/state_processor.go]: the
    execution of the transactions of a block; [core/predicate_check.go]: the predicates of a
    transaction; [core/block_validator.go]: the body and the result of a block.

    Parameters: geth's [vm.EVM] and [state.StateDB], the sender of a transaction, the
    derivation of roots, blooms and addresses, [luxfi/math/set]. *)

From S2P Require Import Prelude Deps ExtState Fees CustomTypes Header Consensus Predicate Transition Upgrades.
Import extstate predicate core.

(** The methods of geth's [state.StateDB] the processor uses beside the classes before. *)
Class ProcStateDB (L S : Type) := {
  ps_SetTxContext : Hash -> Z -> S -> S;
  ps_TxIndex : S -> Z;
  ps_GetLogs : S -> Hash -> Z -> Hash -> Z -> list L;
  ps_AddAddressToAccessList : S -> Address -> S;
  ps_IntermediateRoot : S -> bool -> Hash * S
}.

(** [set.NewBits], [Add], [Bytes], [BitsFromBytes], [Contains] *)
Class BitsLib := {
  Bits : Type;
  NewBits : Bits;
  Bits_Add : Bits -> Z -> Bits;
  Bits_Bytes : Bits -> list byte;
  BitsFromBytes : list byte -> Bits;
  Bits_Contains : Bits -> Z -> bool
}.

Class BitsLibSpec {BL : BitsLib} : Prop := {
  Contains_New i : Bits_Contains NewBits i = false;
  Contains_Add b i j : 0 <= i -> 0 <= j -> Bits_Contains (Bits_Add b i) j = (i =? j) || Bits_Contains b j;
  Contains_Bytes b i : 0 <= i -> Bits_Contains (BitsFromBytes (Bits_Bytes b)) i = Bits_Contains b i
}.

(** ** The context of a block *)

(** [vm.BlockContext] and [vm.TxContext] *)
Record BlockContext := mkBlockContext {
  bc_GetHash : Z -> Hash;
  bc_Coinbase : Address;
  bc_BlockNumber : Z;
  bc_Time : Z;
  bc_Difficulty : Z;
  bc_BaseFee : option Z;
  bc_BlobBaseFee : option Z;
  bc_GasLimit : Z;
  bc_Random : option Hash
}.

Record TxContext := mkTxContext {
  Origin : Address;
  tc_GasPrice : Z;
  tc_BlobHashes : option (list Hash);
  BlobFeeCap : option Z
}.

(** The fork predicates of [params.ChainConfig] and its rules. *)
Record ChainConfig (Ctx : Type) := mkChainConfig {
  cc_IsCancun : Z -> Z -> bool;
  cc_IsLondon : Z -> bool;
  cc_IsByzantium : Z -> bool;
  cc_IsEIP158 : Z -> bool;
  cc_IsEIP155 : Z -> bool;
  cc_Rules : Z -> Z -> Rules Ctx
}.
Arguments cc_IsCancun {Ctx}.
Arguments cc_IsLondon {Ctx}.
Arguments cc_IsByzantium {Ctx}.
Arguments cc_IsEIP158 {Ctx}.
Arguments cc_IsEIP155 {Ctx}.
Arguments cc_Rules {Ctx}.

(** geth's EVM: [StateDB.Prepare], and [Create] and [Call] in a block and transaction context *)
Class EVMLib (S Ctx : Type) := {
  lib_Prepare : Rules Ctx -> Address -> Address -> option Address -> list AccessTuple -> S -> S;
  lib_Create : BlockContext -> TxContext -> Address -> list byte -> Z -> Z -> S -> (list byte * Z * option error) * S;
  lib_Call : BlockContext -> TxContext -> Address -> Address -> list byte -> Z -> Z -> S -> (list byte * Z * option error) * S
}.

Module processor.

Section Context_.
Context (GetHeader : Hash -> Z -> option types.Header) (blobFuel : nat).
Local Open Scope word_scope.

(** [GetHashFn]: the closure with its cache. The loop ends within as many steps as there are
    blocks between; [None] is an exhausted fuel. *)
Fixpoint getHash_loop (fuel : nat) (n : Z) (lastKnownHash : Hash) (lastKnownNumber : Z)
    (cache : list Hash) : option (Hash * list Hash) :=
  match fuel with
  | O => None
  | S fuel' =>
      match GetHeader lastKnownHash lastKnownNumber with
      | None => Some (Hash_zero, cache)
      | Some header =>
          let cache := cache ++ [types.ParentHash header] in
          let lastKnownHash := types.ParentHash header in
          let lastKnownNumber := types.Number header -u 1 in
          if n =? lastKnownNumber then Some (lastKnownHash, cache)
          else getHash_loop fuel' n lastKnownHash lastKnownNumber cache
      end
  end.

Definition GetHashFn (ref : types.Header) (n : Z) (cache : list Hash) : option (Hash * list Hash) :=
  let number := types.Number ref in
  if number <=? n then Some (Hash_zero, cache) else
  let cache := match cache with [] => [types.ParentHash ref] | _ => cache end in
  let idx := number -u n -u 1 in
  match cache !! Z.to_nat idx with
  | Some h => Some (h, cache)
  | None =>
      getHash_loop (Z.to_nat number) n (List.last cache Hash_zero) (number -u Z.of_nat (length cache)) cache
  end.

(** The answer does not depend on what the cache holds; the context takes the closure with
    an empty one. *)
Definition NewEVMBlockContext (header : types.Header) (author : option Address) : result BlockContext :=
  let beneficiary := default (types.Coinbase header) author in
  match types.Difficulty header with
  | None => Panic
  | Some difficulty =>
      Ok (mkBlockContext
            (fun n => match GetHashFn header n [] with Some (h, _) => h | None => Hash_zero end)
            beneficiary (types.Number header) (types.Time header) difficulty (types.BaseFee header)
            (excessBlobGas ← types.ExcessBlobGas header; eip4844.CalcBlobFee blobFuel excessBlobGas)
            (types.GasLimit header)
            (if difficulty =? 0 then Some (types.MixDigest header) else None))
  end.

Definition NewEVMBlockContextWithPredicateResults (header : types.Header) (author : option Address)
    (predicateBytes : list byte) : result BlockContext :=
  NewEVMBlockContext header author.

End Context_.

Definition NewEVMTxContext (msg : Message) : TxContext :=
  mkTxContext (From msg) (GasPrice msg) (BlobHashes msg) (BlobGasFeeCap msg).

(** [vm.NewEVM] and [SetTxContext] *)
Definition NewEVM {S Ctx : Type} {EL : EVMLib S Ctx} (config : ChainConfig Ctx) (noBaseFee : bool)
    (context : BlockContext) (txContext : TxContext) : EVM S Ctx :=
  let num := bc_BlockNumber context in
  let rules := cc_Rules config num (bc_Time context) in
  mkEVM (cc_IsCancun config num (bc_Time context)) (cc_IsLondon config num) noBaseFee
    (bc_BaseFee context) (bc_BlobBaseFee context) (bc_Coinbase context) rules
    (fun msg => lib_Prepare rules (From msg) (bc_Coinbase context) (To msg) (AccessList msg))
    (lib_Create context txContext) (lib_Call context txContext).

(** ** Predicates of a transaction *)

Definition ErrMissingPredicateContext : error := errors_New "core.ErrMissingPredicateContext".

Section Predicates.
Context {SM : SafeMath} {BL : BitsLib} {Ctx : Type}.

(** The bit of each predicate that does not verify. *)
Fixpoint verify_predicates (predicater : Predicater Ctx) (ctx : PredicateContext Ctx)
    (predicates : list (list byte)) (i : Z) (bitset : Bits) : result Bits :=
  match predicates with
  | [] => Ok bitset
  | p :: rest =>
      match VerifyPredicate predicater ctx p with
      | Ok _ => verify_predicates predicater ctx rest (i + 1) bitset
      | Err _ => verify_predicates predicater ctx rest (i + 1) (Bits_Add bitset i)
      | Panic => Panic
      end
  end.

(** The loop over the map: each address sets its own entry, so the order does not matter;
    a panic of any of them is one of the whole. *)
Definition predicate_results (rules : Rules Ctx) (ctx : PredicateContext Ctx)
    (arguments : gmap Address (list (list byte))) : result TxResults :=
  map_fold (fun address predicates acc =>
    results ← acc;
    match Predicaters rules !! address with
    | None => Panic
    | Some predicater =>
        bitset ← verify_predicates predicater ctx predicates 0 NewBits;
        Ok (<[address := Bits_Bytes bitset]> results)
    end) (Ok ∅) arguments.

Definition CheckPredicates (rules : Rules Ctx) (predicateContext : option (PredicateContext Ctx))
    (tx : Transaction) : result TxResults :=
  intrinsicGas ← IntrinsicGas (tx_Data tx) (tx_AccessList tx) (bool_decide (tx_To tx = None)) rules;
  if tx_Gas tx <? intrinsicGas
  then Err (errorf_w "for predicate verification (%d) < intrinsic gas (%d)" ErrIntrinsicGas) else
  if negb (PredicatersExist rules) then Ok ∅ else
  let predicateArguments := PreparePredicateStorageSlots (PredicaterExists rules) (tx_AccessList tx) in
  if (size predicateArguments =? 0)%nat then Ok ∅ else
  match predicateContext with
  | Some ctx =>
      match ProposerVMBlockCtx ctx with
      | Some _ => predicate_results rules ctx predicateArguments
      | None => Err ErrMissingPredicateContext
      end
  | None => Err ErrMissingPredicateContext
  end.

End Predicates.

(** ** Receipts *)

(** [types.Receipt] *)
Record Receipt (L : Type) := mkReceipt {
  r_Type : Z;
  r_PostState : list byte;
  r_Status : Z;
  r_CumulativeGasUsed : Z;
  r_Bloom : list byte;
  r_Logs : list L;
  r_TxHash : Hash;
  r_ContractAddress : Address;
  r_GasUsed : Z;
  r_BlobGasUsed : Z;
  r_BlobGasPrice : option Z;
  r_BlockHash : Hash;
  r_BlockNumber : Z;
  r_TransactionIndex : Z
}.
Arguments mkReceipt {L}.
Arguments r_Type {L}.
Arguments r_PostState {L}.
Arguments r_Status {L}.
Arguments r_CumulativeGasUsed {L}.
Arguments r_Bloom {L}.
Arguments r_Logs {L}.
Arguments r_TxHash {L}.
Arguments r_ContractAddress {L}.
Arguments r_GasUsed {L}.
Arguments r_BlobGasUsed {L}.
Arguments r_BlobGasPrice {L}.
Arguments r_BlockHash {L}.
Arguments r_BlockNumber {L}.
Arguments r_TransactionIndex {L}.

Definition ReceiptStatusFailed : Z := 0.
Definition ReceiptStatusSuccessful : Z := 1.
Definition BlobTxType : Z := 3.
Definition Address_zero : Address := replicate 20 Byte.x00.

(** ** Execution *)

Section Execution.
Context {SM : SafeMath} {UI : U256Lib} {S Ctx L : Type}.
Context {GDB : GethStateDB S} {DB : VMStateDB S} {AS : ActivationStateDB S} {PS : ProcStateDB L S}.
Context {EL : EVMLib S Ctx}.
Context (IsValidVersionedHash : Hash -> bool).
Context (CreateBloom : list L -> list byte) (CreateAddress : Address -> Z -> Address).
Context (config : ChainConfig Ctx).
Local Open Scope word_scope.

(** The gas pool, the gas used so far and the state: what the calls share by pointer. *)
Record Exec := mkExec { ex_gp : Z; ex_usedGas : Z; ex_state : S }.

(** [applyTransaction], without the tracer hooks. *)
Definition applyTransaction (msg : Message) (blockNumber : Z) (blockHash : Hash) (blockTime : Z)
    (tx : Transaction) (evm : EVM S Ctx) : StM Exec (Receipt L) := fun st =>
  match ApplyMessage IsValidVersionedHash evm msg (ex_gp st) (ex_state st) with
  | (Ok result, trans) =>
      let statedb := st_state trans in
      let '(root, statedb) :=
        if cc_IsByzantium config blockNumber then ([], act_Finalise true statedb)
        else ps_IntermediateRoot statedb (cc_IsEIP158 config blockNumber) in
      let usedGas := ex_usedGas st +u UsedGas result in
      let isBlob := tx_Type tx =? BlobTxType in
      let logs := ps_GetLogs statedb (tx_Hash tx) blockNumber blockHash blockTime in
      let receipt := mkReceipt (tx_Type tx) root
        (if Failed result then ReceiptStatusFailed else ReceiptStatusSuccessful) usedGas
        (CreateBloom logs) logs (tx_Hash tx)
        (match To msg with None => CreateAddress (From msg) (tx_Nonce tx) | Some _ => Address_zero end)
        (UsedGas result)
        (if isBlob then u64 (Z.of_nat (length (default [] (tx_BlobHashes tx))) * eip4844.BlobTxBlobGasPerBlob) else 0)
        (if isBlob then BlobBaseFee evm else None)
        blockHash blockNumber (ps_TxIndex statedb) in
      (Ok receipt, mkExec (st_gp trans) usedGas statedb)
  | (Err e, trans) => (Err e, mkExec (st_gp trans) (ex_usedGas st) (st_state trans))
  | (Panic, trans) => (Panic, mkExec (st_gp trans) (ex_usedGas st) (st_state trans))
  end.

Context (Sender : Transaction -> result Address).

(** [ApplyTransaction]; the header's hash is an argument. *)
Definition ApplyTransaction (noBaseFee : bool) (blockContext : BlockContext) (header : types.Header)
    (headerHash : Hash) (tx : Transaction) : StM Exec (Receipt L) :=
  msg ← lift (TransactionToMessage Sender tx (types.BaseFee header));
  applyTransaction msg (types.Number header) headerHash (types.Time header) tx
    (NewEVM config noBaseFee blockContext (NewEVMTxContext msg)).

(** [ProcessBeaconBlockRoot]: the system call, whose result is dropped. *)
Definition SystemAddress : Address := be_encode 20 0xfffffffffffffffffffffffffffffffffffffffe.
Definition BeaconRootsStorageAddress : Address := be_encode 20 0x000F3df6D732807Ef1319fB7B8bB8522d0Beac02.

Definition ProcessBeaconBlockRoot (beaconRoot : Hash) (context : BlockContext) (statedb : S) : S :=
  let statedb := ps_AddAddressToAccessList statedb BeaconRootsStorageAddress in
  let '(_, statedb) := lib_Call context (mkTxContext SystemAddress 0 None None) SystemAddress
                         BeaconRootsStorageAddress beaconRoot 30000000 0 statedb in
  act_Finalise true statedb.

(** The loop over the transactions of a block; the errors name the transaction. *)
Fixpoint process_txs (noBaseFee : bool) (context : BlockContext) (header : types.Header) (blockHash : Hash) (i : Z)
    (txs : list Transaction) : StM Exec (list (Receipt L)) :=
  match txs with
  | [] => mret []
  | tx :: rest =>
      msg ← lift (wrap_err "could not apply tx %d [%v]" (TransactionToMessage Sender tx (types.BaseFee header)));
      _ ← (fun st => (Ok tt, mkExec (ex_gp st) (ex_usedGas st) (ps_SetTxContext (tx_Hash tx) i (ex_state st))));
      receipt ← wrapM "could not apply tx %d [%v]"
        (applyTransaction msg (types.Number header) blockHash (types.Time header) tx
           (NewEVM config noBaseFee context (NewEVMTxContext msg)));
      receipts ← process_txs noBaseFee context header blockHash (i + 1) rest;
      mret (receipt :: receipts)
  end.

(** [StateProcessor.Process], with the precompile upgrades of the configuration and the
    consensus engine of [Consensus]. *)
Context {GL : GasLib} {C : Type} {PC : PrecompileConfig C}.
Context (registered : list (modules.Module (@activation.Configure C S))) (upgrades : list C).
Context (GetHeader : Hash -> Z -> option types.Header) (blobFuel : nat).
Context (Header_Hash : types.Header -> Hash) (EffectiveGasTip : Transaction -> Z -> result Z).

Definition Process (eng : dummy.DummyEngine) (block : Block Transaction) (parent : types.Header)
    (statedb : S) (noBaseFee : bool) : ExtM (list (Receipt L) * list L * Z * S) :=
  let header := block_Header block in
  let blockHash := Header_Hash header in
  gp ← lift (AddGas 0 (types.GasLimit header));
  let '(r, statedb) := activation.ApplyUpgrades registered upgrades (Some (types.Time parent))
                         (activation.NewBlockContext (types.Number header) (types.Time header)) statedb in
  _ ← lift r;
  context ← lift (NewEVMBlockContext GetHeader blobFuel header None);
  let statedb :=
    match types.ParentBeaconRoot header with
    | Some beaconRoot => ProcessBeaconBlockRoot beaconRoot context statedb
    | None => statedb
    end in
  let '(r, st) := process_txs noBaseFee context header blockHash 0 (block_Transactions block)
                    (mkExec gp 0 statedb) in
  receipts ← lift r;
  statedb ← wrapM "engine finalization check failed"
    (dummy.Finalize Header_Hash EffectiveGasTip r_GasUsed eng block parent (ex_state st) receipts);
  mret (receipts, flat_map r_Logs receipts, ex_usedGas st, statedb).

(** ** Validation *)

Context (HasBlockAndState HasBlock : Hash -> Z -> bool) (GetBlockByNumber : Z -> option (Block Transaction)).
Context (CalcUncleHash : list types.Header -> Hash) (DeriveSha_txs : list Transaction -> Hash).
Context (DeriveSha_receipts : list (Receipt L) -> Hash) (MergeBloom : list (Receipt L) -> list byte).

Definition ErrKnownBlock : error := errors_New "core.ErrKnownBlock".
Definition ErrPrunedAncestor : error := errors_New "consensus.ErrPrunedAncestor".

Fixpoint countBlobs (txs : list Transaction) (blobs : Z) : result Z :=
  match txs with
  | [] => Ok blobs
  | tx :: rest =>
      let blobs := blobs + Z.of_nat (length (default [] (tx_BlobHashes tx))) in
      match tx_Sidecar tx with
      | Some _ => Err (errors_New "unexpected blob sidecar in transaction at index %d")
      | None => countBlobs rest blobs
      end
  end.

(** The genesis exception for the first block included. *)
Definition checkAncestor (block : Block Transaction) : result unit :=
  let parentHash := types.ParentHash (block_Header block) in
  let number := types.Number (block_Header block) in
  if HasBlockAndState parentHash (number -u 1) then Ok tt
  else if negb (HasBlock parentHash (number -u 1)) then Err consensus.ErrUnknownAncestor
  else if number =? 1 then
    match GetBlockByNumber 0 with
    | Some genesis =>
        if bool_decide (Header_Hash (block_Header genesis) = parentHash) then Ok tt else Err ErrPrunedAncestor
    | None => Err ErrPrunedAncestor
    end
  else Err ErrPrunedAncestor.

Definition ValidateBody (block : Block Transaction) : result unit :=
  let header := block_Header block in
  if HasBlockAndState (Header_Hash header) (types.Number header) then Err ErrKnownBlock else
  _ ← dummy.VerifyUncles block;
  _ ← fail_if (negb (bool_decide (CalcUncleHash (block_Uncles block) = types.UncleHash header)))
        (errors_New "uncle root hash mismatch (header value %x, calculated %x)");
  _ ← fail_if (negb (bool_decide (DeriveSha_txs (block_Transactions block) = types.TxHash header)))
        (errors_New "transaction root hash mismatch (header value %x, calculated %x)");
  blobs ← countBlobs (block_Transactions block) 0;
  _ ← match types.BlobGasUsed header with
      | Some used =>
          fail_if (negb (blobs =? used / eip4844.BlobTxBlobGasPerBlob))
            (errors_New "blob gas used mismatch (header %v, calculated %v)")
      | None => fail_if (0 <? blobs) (errors_New "data blobs present in block body")
      end;
  checkAncestor block.

Definition ValidateState (block : Block Transaction) (statedb : S) (receipts : list (Receipt L))
    (usedGas : Z) : result unit :=
  let header := block_Header block in
  _ ← fail_if (negb (types.GasUsed header =? usedGas)) (errors_New "invalid gas used (remote: %d local: %d)");
  _ ← fail_if (negb (bool_decide (MergeBloom receipts = types.Bloom header)))
        (errors_New "invalid bloom (remote: %x  local: %x)");
  _ ← fail_if (negb (bool_decide (DeriveSha_receipts receipts = types.ReceiptHash header)))
        (errors_New "invalid receipt root hash (remote: %x local: %x)");
  let '(root, _) := ps_IntermediateRoot statedb (cc_IsEIP158 config (types.Number header)) in
  fail_if (negb (bool_decide (types.Root header = root)))
    (errors_New "invalid merkle root (remote: %x local: %x) dberr: %w").

End Execution.

(** ** The gas limit towards a target *)

Definition GasLimitBoundDivisor : Z := 1024.
Definition MinGasLimit : Z := 5000.

Section GasLimit.
Local Open Scope word_scope.

Definition CalcGasLimit (parentGasUsed parentGasLimit gasFloor gasCeil : Z) : Z :=
  let contrib := (parentGasUsed +u parentGasUsed / 2) / GasLimitBoundDivisor in
  let decay := parentGasLimit / GasLimitBoundDivisor -u 1 in
  let limit := parentGasLimit -u decay +u contrib in
  let limit := if limit <? MinGasLimit then MinGasLimit else limit in
  if limit <? gasFloor then
    let limit := parentGasLimit +u decay in
    if gasFloor <? limit then gasFloor else limit
  else if gasCeil <? limit then
    let limit := parentGasLimit -u decay in
    if limit <? gasCeil then gasCeil else limit
  else limit.

End GasLimit.

End processor.
