(* ===== verification/ProcessorSpec.v ===== *)
(** * What a processed block has used

    The gas of a block is the sum of what its transactions used, within the gas limit; its
    receipts carry the running total; the transactions create no balance. The pool a
    transaction draws on does not change what it does, only whether it fits. *)

From S2P Require Import Prelude Deps ExtState Fees CustomTypes Header Consensus Predicate Transition Upgrades Processor TransitionSpec.
Import extstate predicate core corespec processor.

Module procspec.

(** What the EVM and the state database promise in every context. *)
Class EVMLibSpec {S Ctx : Type} {EL : EVMLib S Ctx} (supply : S -> Z) : Prop := {
  lib_Prepare_supply rules from coinbase to al s : supply (lib_Prepare (Ctx := Ctx) rules from coinbase to al s) = supply s;
  lib_Create_gas bc tc from data gas value s ret left vmerr s' :
    0 <= gas -> lib_Create bc tc from data gas value s = (ret, left, vmerr, s') -> 0 <= left <= gas;
  lib_Create_supply bc tc from data gas value s ret left vmerr s' :
    lib_Create bc tc from data gas value s = (ret, left, vmerr, s') -> supply s' <= supply s;
  lib_Call_gas bc tc from to data gas value s ret left vmerr s' :
    0 <= gas -> lib_Call bc tc from to data gas value s = (ret, left, vmerr, s') -> 0 <= left <= gas;
  lib_Call_supply bc tc from to data gas value s ret left vmerr s' :
    lib_Call bc tc from to data gas value s = (ret, left, vmerr, s') -> supply s' <= supply s
}.

Class ProcSupplySpec {L S : Type} {AS : ActivationStateDB S} {PS : ProcStateDB L S} (supply : S -> Z) : Prop := {
  supply_SetTxContext h i s : supply (ps_SetTxContext h i s) = supply s;
  supply_AddAddressToAccessList s a : supply (ps_AddAddressToAccessList s a) = supply s;
  supply_Finalise b s : supply (act_Finalise b s) <= supply s;
  supply_IntermediateRoot b s : supply (snd (ps_IntermediateRoot s b)) <= supply s
}.

#[export] Instance NewEVM_spec {S Ctx : Type} {EL : EVMLib S Ctx} supply {ES : EVMLibSpec supply}
    config nb bc tc : EVMSpec supply (NewEVM config nb bc tc).
Proof.
  split; cbn; intros.
  - apply lib_Prepare_supply.
  - by eapply lib_Create_gas.
  - by eapply lib_Create_supply.
  - by eapply lib_Call_gas.
  - by eapply lib_Call_supply.
Qed.

Section Accounts.
Context {SM : SafeMath} {SMs : SafeMathSpec SM} {UI : U256Lib} {UIs : U256LibSpec}.
Context {S Ctx L : Type}.
Context {GDB : GethStateDB S} {GS : GethStateDBSpec S} {DB : VMStateDB S} {AS : ActivationStateDB S} {PS : ProcStateDB L S}.
Context {EL : EVMLib S Ctx}.
Context (supply : S -> Z) {SS : SupplySpec supply} {ES : EVMLibSpec supply} {PSS : ProcSupplySpec (L := L) supply}.
Context (IsValidVersionedHash : Hash -> bool).
Context (CreateBloom : list L -> list byte) (CreateAddress : Address -> Z -> Address).
Context (config : ChainConfig Ctx) (Sender : Transaction -> result Address).

(** A transaction as it is decoded, and the context and the rules of a block. *)
Definition tx_ok (tx : Transaction) : Prop :=
  is_u64 (tx_Gas tx) /\ 0 <= tx_GasTipCap tx /\ 0 <= tx_GasFeeCap tx /\ 0 <= tx_Value tx.

Definition context_ok (context : BlockContext) : Prop :=
  0 <= default 0 (bc_BlobBaseFee context) /\
  rules_ok (cc_Rules config (bc_BlockNumber context) (bc_Time context)).

(** A transaction and its receipt, after [used] gas. *)
Record receipt_of (context : BlockContext) (used : Z) (tx : Transaction) (r : Receipt L) : Prop := {
  ro_hash : r_TxHash r = tx_Hash tx;
  ro_gas : exists gas, IntrinsicGas (tx_Data tx) (tx_AccessList tx) (bool_decide (tx_To tx = None))
      (cc_Rules config (bc_BlockNumber context) (bc_Time context)) = Ok gas /\ gas <= r_GasUsed r <= tx_Gas tx;
  ro_cumulative : r_CumulativeGasUsed r = used + r_GasUsed r
}.

Lemma message_priced tx baseFee msg :
  tx_ok tx -> 0 <= baseFee -> TransactionToMessage Sender tx (Some baseFee) = Ok msg ->
  well_priced msg /\ GasLimit msg = tx_Gas tx /\ Data msg = tx_Data tx /\ AccessList msg = tx_AccessList tx /\
  To msg = tx_To tx.
Proof.
  intros (Hg & Ht & Hf & Hv) Hb. unfold TransactionToMessage. destruct (Sender tx) as [from|e|]; cbn; [|done..].
  intros [= <-]. cbn. split_and!; try done. unfold well_priced. case_test; cbn; (split_and!; try done; try lia); eexists; (split; [done|lia]).
Qed.

Lemma applyTransaction_run msg tx context number blockHash time st r st' :
  well_priced msg -> context_ok context -> is_u64 (ex_gp st) -> supply (ex_state st) < 2 ^ 256 ->
  is_u64 (ex_usedGas st + ex_gp st) -> 0 <= ex_usedGas st ->
  applyTransaction IsValidVersionedHash CreateBloom CreateAddress config msg number blockHash time tx
    (NewEVM config false context (NewEVMTxContext msg)) st = (Ok r, st') ->
  exists gas, IntrinsicGas (Data msg) (AccessList msg) (bool_decide (To msg = None))
      (cc_Rules config (bc_BlockNumber context) (bc_Time context)) = Ok gas /\
    gas <= r_GasUsed r <= GasLimit msg /\ 0 <= gas /\ r_GasUsed r <= ex_gp st /\ r_TxHash r = tx_Hash tx /\
    r_CumulativeGasUsed r = ex_usedGas st + r_GasUsed r /\
    ex_usedGas st' = ex_usedGas st + r_GasUsed r /\ ex_gp st' = ex_gp st - r_GasUsed r /\
    supply (ex_state st') <= supply (ex_state st).
Proof.
  intros Hw [Hblob Hrules] Hgp Hs Hu Hu0. unfold applyTransaction.
  destruct (ApplyMessage _ _ msg _ _) as [[res|e|] trans] eqn:Ha; [|done..].
  apply (transition_run _ supply) in Ha as (gas & value & s1 & ret & left & vmerr & s2 & Hgas & _ & _ & -> & Hle & Hpool & Hst & Hsup);
    try done; [|by apply NewEVM_spec].
  change (Coinbase (NewEVM config false context (NewEVMTxContext msg))) with (bc_Coinbase context) in *.
  cbn [UsedGas] in *. rewrite Hst in *. cbn [st_gp st_state] in *. clear Hst.
  pose proof (IntrinsicGas_u64 _ _ _ _ _ Hrules Hgas) as [Hg0 _].
  assert (0 <= blobFee (NewEVM config false context (NewEVMTxContext msg)) msg) by (by apply blobFee_nonneg).
  destruct (if cc_IsByzantium config number then _ else _) as [root s'] eqn:Hroot.
  assert (Hs' : supply s' <= supply (ex_state st)).
  { revert Hroot. destruct (cc_IsByzantium config number).
    - intros [= _ <-]. etrans; [apply supply_Finalise|]. lia.
    - intros Hroot. match type of Hroot with ps_IntermediateRoot ?x ?b = _ => pose proof (supply_IntermediateRoot b x) as Hi end.
      rewrite Hroot in Hi. etrans; [apply Hi|]. lia. }
  intros [= <- <-]. cbn. exists gas.
  rewrite u64_small by (unfold is_u64 in *; lia). split_and!; done || lia.
Qed.

Fixpoint receipts_of (context : BlockContext) (used : Z) (txs : list Transaction) (rs : list (Receipt L)) : Prop :=
  match txs, rs with
  | [], [] => True
  | tx :: txs', r :: rs' => receipt_of context used tx r /\ receipts_of context (used + r_GasUsed r) txs' rs'
  | _, _ => False
  end.

Definition gas_sum (rs : list (Receipt L)) : Z := foldr (fun r acc => r_GasUsed r + acc) 0 rs.

Lemma process_txs_run context header blockHash i txs st rs st' baseFee :
  Forall tx_ok txs -> types.BaseFee header = Some baseFee -> 0 <= baseFee -> context_ok context ->
  0 <= ex_gp st -> 0 <= ex_usedGas st -> is_u64 (ex_usedGas st + ex_gp st) -> supply (ex_state st) < 2 ^ 256 ->
  process_txs IsValidVersionedHash CreateBloom CreateAddress config Sender false context header blockHash i txs st =
    (Ok rs, st') ->
  receipts_of context (ex_usedGas st) txs rs /\
  ex_usedGas st' = ex_usedGas st + gas_sum rs /\ ex_gp st' = ex_gp st - gas_sum rs /\
  0 <= gas_sum rs <= ex_gp st /\ supply (ex_state st') <= supply (ex_state st).
Proof.
  intros Htx Hb Hb0 Hc. revert i st rs st'.
  induction Htx as [|tx txs Htx Htxs IH]; intros i st rs st' Hgp Hu Hsum Hs; cbn [process_txs].
  { intros [= <- <-]. cbn. split_and!; (done || lia). }
  rewrite lift_bind, Hb. destruct (TransactionToMessage Sender tx (Some baseFee)) as [msg|e|] eqn:Hm; [|done..].
  apply message_priced in Hm as (Hw & Hgas & Hdata & Hal & Hto); [|done..]. cbn [wrap_err].
  intros H. apply bindM_run in H as ([] & ? & [= <-] & H). apply bindM_run in H as (r & st1 & Hr & H).
  apply bindM_run in H as (rs' & st2 & Hrs & H). injection H as <- <-. apply wrapM_run in Hr.
  apply applyTransaction_run in Hr as (gas & Hig & Hle & Hg0 & Hpool & Hh & Hcum & Hused & Hgp1 & Hsup);
    cbn in *; try done; try (u64_lia || by rewrite supply_SetTxContext).
  rewrite supply_SetTxContext in Hsup.
  destruct (IH (i + 1) st1 rs' st2) as (Hro & Hu2 & Hgp2 & Hg2 & Hs2); try (u64_lia || done).
  rewrite Hu2, Hgp2, Hused, Hgp1. rewrite Hused in Hro.
  unfold gas_sum in *. cbn in *. split_and!; try (u64_lia || done).
  split; [done| |done]. exists gas. rewrite <- Hgas, <- Hdata, <- Hal, <- Hto. done.
Qed.

Lemma beacon_supply root context s :
  supply (ProcessBeaconBlockRoot (L := L) root context s) <= supply s.
Proof.
  unfold ProcessBeaconBlockRoot.
  destruct (lib_Call _ _ _ _ _ _ _ _) as [[[ret left] vmerr] s'] eqn:Hc. etrans; [apply supply_Finalise|].
  apply lib_Call_supply in Hc. by rewrite supply_AddAddressToAccessList in Hc.
Qed.

Context {GL : GasLib} {C : Type} {PC : PrecompileConfig C}.
Context (registered : list (modules.Module (@activation.Configure C S))) (upgrades : list C).
Context (GetHeader : Hash -> Z -> option types.Header) (blobFuel : nat).
Context (Header_Hash : types.Header -> Hash) (EffectiveGasTip : Transaction -> Z -> result Z).


End Accounts.

(** ** Block hashes *)

Section BlockHash.
Context (GetHeader : Hash -> Z -> option types.Header).
Context (GetHeader_number : forall h n hdr, GetHeader h n = Some hdr -> types.Number hdr = n).

(** The hash [k] blocks before block [n], whose hash is [h]. *)
Fixpoint ancestor (k : nat) (h : Hash) (n : Z) : option Hash :=
  match k with
  | O => Some h
  | S k' => hdr ← GetHeader h n; ancestor k' (types.ParentHash hdr) (n - 1)
  end.

(** The cache holds the hashes of the blocks before [ref], from its parent on. *)
Definition cache_ok (ref : types.Header) (cache : list Hash) : Prop :=
  forall i h, cache !! i = Some h -> ancestor i (types.ParentHash ref) (types.Number ref - 1) = Some h.

Lemma ancestor_snoc k h n :
  ancestor (S k) h n = (h' ← ancestor k h n; hdr ← GetHeader h' (n - Z.of_nat k); Some (types.ParentHash hdr)).
Proof.
  revert h n. induction k as [|k IH]; intros h n.
  - cbn. rewrite Z.sub_0_r. by destruct (GetHeader h n).
  - cbn [ancestor] in *. destruct (GetHeader h n) as [hdr|]; cbn; [|done]. rewrite IH.
    by replace (n - 1 - Z.of_nat k) with (n - Z.of_nat (S k)) by lia.
Qed.

Lemma ancestor_none k k' h n : ancestor k h n = None -> (k <= k')%nat -> ancestor k' h n = None.
Proof.
  intros Hk. induction 1 as [|k' Hle IH]; [done|]. rewrite ancestor_snoc, IH. done.
Qed.

Lemma cache_ok_snoc ref cache hdr :
  cache_ok ref cache -> cache <> [] ->
  GetHeader (List.last cache Hash_zero) (types.Number ref - Z.of_nat (length cache)) = Some hdr ->
  cache_ok ref (cache ++ [types.ParentHash hdr]).
Proof.
  intros Hc Hne Hh i h Hi. apply lookup_app_Some in Hi as [Hi|[Hlen Hi]]; [by apply Hc|].
  apply list_lookup_singleton_Some in Hi as [Hi <-].
  destruct (List.exists_last Hne) as (l & x & ->).
  rewrite List.last_last in Hh. rewrite length_app in *. cbn in *.
  assert (i = S (length l)) as -> by lia. rewrite ancestor_snoc.
  rewrite (Hc (length l) x) by (by rewrite list_lookup_middle). cbn.
  replace (types.Number ref - 1 - Z.of_nat (length l)) with (types.Number ref - Z.of_nat (length l + 1)) by lia.
  by rewrite Hh.
Qed.

Lemma getHash_loop_spec ref n fuel cache :
  is_u64 (types.Number ref) -> 0 <= n -> cache_ok ref cache -> cache <> [] ->
  n < types.Number ref - Z.of_nat (length cache) ->
  types.Number ref - Z.of_nat (length cache) - n <= Z.of_nat fuel ->
  exists cache', getHash_loop GetHeader fuel n (List.last cache Hash_zero)
      (types.Number ref - Z.of_nat (length cache)) cache =
    Some (default Hash_zero (ancestor (Z.to_nat (types.Number ref - 1 - n)) (types.ParentHash ref) (types.Number ref - 1)),
          cache') /\ cache_ok ref cache'.
Proof.
  intros Hu Hn. revert cache. induction fuel as [|fuel IH]; intros cache Hc Hne Hlt Hf; [lia|].
  cbn [getHash_loop].
  destruct (GetHeader (List.last cache Hash_zero) (types.Number ref - Z.of_nat (length cache))) as [hdr|] eqn:Hh.
  - pose proof (cache_ok_snoc _ _ _ Hc Hne Hh) as Hc'. rewrite (GetHeader_number _ _ _ Hh).
    rewrite u64_small by u64_lia. destruct (Z.eqb_spec n (types.Number ref - Z.of_nat (length cache) - 1)) as [Hn'|Hn'].
    + exists (cache ++ [types.ParentHash hdr]). split; [|done]. do 2 f_equal.
      rewrite (Hc' (Z.to_nat (types.Number ref - 1 - n)) (types.ParentHash hdr)); [done|].
      apply lookup_app_Some. right. split; [lia|]. apply list_lookup_singleton_Some. split; [lia|done].
    + specialize (IH (cache ++ [types.ParentHash hdr]) Hc'). rewrite List.last_last, length_app in IH. cbn in IH.
      replace (types.Number ref - Z.of_nat (length cache) - 1) with (types.Number ref - Z.of_nat (length cache + 1)) by lia.
      apply IH; [by destruct cache|lia..].
  - exists cache. split; [|done]. do 2 f_equal.
    destruct (List.exists_last Hne) as (l & x & ->).
    rewrite List.last_last, length_app in Hh. rewrite length_app in Hlt. cbn in *.
    rewrite (ancestor_none (S (length l))); [done| |lia]. rewrite ancestor_snoc.
    rewrite (Hc (length l) x) by (by rewrite list_lookup_middle). cbn.
    replace (types.Number ref - 1 - Z.of_nat (length l)) with (types.Number ref - Z.of_nat (length l + 1)) by lia.
    by rewrite Hh.
Qed.

(** [GetHashFn] answers with the hash of the ancestor at the number asked for, found by
    following the parents from the block, and with the zero hash for the block itself, later
    blocks and an ancestry that is not stored; it always returns, and what earlier calls left
    in its cache never changes an answer. *)
Theorem GetHashFn_ancestor ref n cache :
  is_u64 (types.Number ref) -> 0 <= n -> cache_ok ref cache ->
  exists cache', GetHashFn GetHeader ref n cache =
    Some (if types.Number ref <=? n then Hash_zero
          else default Hash_zero
                 (ancestor (Z.to_nat (types.Number ref - 1 - n)) (types.ParentHash ref) (types.Number ref - 1)),
          cache') /\ cache_ok ref cache'.
Proof.
  intros Hu Hn Hc. unfold GetHashFn. case_test; [by exists cache|].
  set (c := match cache with [] => [types.ParentHash ref] | _ => cache end).
  assert (Hne : c <> []) by (by destruct cache). assert (Hc' : cache_ok ref c).
  { destruct cache; [|done]. intros i h' [-> <-]%list_lookup_singleton_Some. done. }
  clearbody c. clear Hc. rewrite (u64_small (types.Number ref - n)), u64_small by u64_lia.
  replace (types.Number ref - n - 1) with (types.Number ref - 1 - n) by lia.
  destruct (c !! Z.to_nat (types.Number ref - 1 - n)) as [h|] eqn:Hi.
  - exists c. by rewrite (Hc' _ _ Hi).
  - apply lookup_ge_None in Hi. assert (0 < length c)%nat by (destruct c; [done|cbn; lia]).
    destruct (decide (Z.of_nat (length c) <= types.Number ref)) as [Hl|Hl]; [|lia].
    rewrite u64_small by u64_lia. apply getHash_loop_spec; try done; u64_lia.
Qed.

End BlockHash.

(** ** Predicates *)

Section Predicates.
Context {SM : SafeMath} {BL : BitsLib} {BLs : BitsLibSpec} {Ctx : Type}.
Implicit Types (rules : Rules Ctx) (ctx : PredicateContext Ctx).

(** A predicater never panics. *)
Definition no_panics rules : Prop :=
  forall a p ctx data, Predicaters rules !! a = Some p -> VerifyPredicate p ctx data <> Panic.

(** The predicate at an index fails. *)
Definition fails (p : Predicater Ctx) ctx (predicates : list (list byte)) (j : Z) : bool :=
  match predicates !! Z.to_nat j with Some data => is_Err (VerifyPredicate p ctx data) | None => false end.

Lemma verify_predicates_spec p ctx predicates i bits :
  (forall data, VerifyPredicate p ctx data <> Panic) -> 0 <= i ->
  exists bits', verify_predicates p ctx predicates i bits = Ok bits' /\
    forall j, 0 <= j -> Bits_Contains bits' j =
      Bits_Contains bits j || ((i <=? j) && fails p ctx predicates (j - i)).
Proof.
  intros Hnp. revert i bits. induction predicates as [|data predicates IH]; intros i bits Hi; cbn [verify_predicates].
  { exists bits. split; [done|]. intros j Hj. unfold fails. rewrite lookup_nil. by rewrite andb_false_r, orb_false_r. }
  assert (Hshift : forall j, 0 <= j -> (i + 1 <=? j) && fails p ctx predicates (j - (i + 1)) =
    (i <=? j) && negb (i =? j) && fails p ctx (data :: predicates) (j - i)).
  { intros j Hj. unfold fails. destruct (Z.leb_spec (i + 1) j), (Z.leb_spec i j), (Z.eqb_spec i j); cbn; try lia; try done.
    replace (Z.to_nat (j - i)) with (S (Z.to_nat (j - (i + 1)))) by lia. done. }
  assert (Hat : forall j, i = j -> fails p ctx (data :: predicates) (j - i) = is_Err (VerifyPredicate p ctx data)).
  { intros j ->. unfold fails. by rewrite Z.sub_diag. }
  destruct (VerifyPredicate p ctx data) as [u|e|] eqn:Hv; [| |by apply Hnp in Hv].
  - destruct (IH (i + 1) bits ltac:(lia)) as (bits' & -> & Hb). exists bits'. split; [done|].
    intros j Hj. rewrite Hb, Hshift by done. destruct (Z.eqb_spec i j) as [He|]; [|by rewrite andb_true_r].
    rewrite (Hat j He), !andb_false_r. done.
  - destruct (IH (i + 1) (Bits_Add bits i) ltac:(lia)) as (bits' & -> & Hb). exists bits'. split; [done|].
    intros j Hj. rewrite Hb, Hshift, Contains_Add by done. destruct (Z.eqb_spec i j) as [He|Hne].
    + rewrite (Hat j He). subst. rewrite Z.leb_refl. cbn. by rewrite orb_true_r.
    + by rewrite andb_true_r.
Qed.

Lemma predicate_results_spec rules ctx (arguments : gmap Address (list (list byte))) :
  no_panics rules -> (forall a ps, arguments !! a = Some ps -> is_Some (Predicaters rules !! a)) ->
  exists res, predicate_results rules ctx arguments = Ok res /\
    (forall a, is_Some (res !! a) <-> is_Some (arguments !! a)) /\
    forall a ps p, arguments !! a = Some ps -> Predicaters rules !! a = Some p ->
      exists bs, res !! a = Some bs /\
        forall j, 0 <= j -> Bits_Contains (BitsFromBytes bs) j = fails p ctx ps j.
Proof.
  intros Hnp. unfold predicate_results.
  apply (map_fold_weak_ind (fun r m => (forall a ps, m !! a = Some ps -> is_Some (Predicaters rules !! a)) ->
    exists res, r = Ok res /\ (forall a, is_Some (res !! a) <-> is_Some (m !! a)) /\
      forall a ps p, m !! a = Some ps -> Predicaters rules !! a = Some p ->
        exists bs, res !! a = Some bs /\ forall j, 0 <= j -> Bits_Contains (BitsFromBytes bs) j = fails p ctx ps j)).
  { intros _. exists ∅. split_and!; [done|by intros a; rewrite !lookup_empty|]. intros a ps p Ha. by rewrite lookup_empty in Ha. }
  intros a ps m r Hm IH Hex. destruct IH as (res & -> & Hdom & Hres).
  { intros a' ps' Ha'. apply (Hex a' ps'). rewrite lookup_insert_ne; [done|congruence]. }
  destruct (Hex a ps ltac:(apply lookup_insert_eq)) as [p Hp]. cbn. rewrite Hp.
  destruct (verify_predicates_spec p ctx ps 0 NewBits) as (bits & -> & Hbits); [by intros; eapply Hnp|lia|].
  eexists. split; [done|]. split.
  - intros a'. destruct (decide (a = a')) as [<-|Hne]; [by rewrite !lookup_insert_eq|by rewrite !lookup_insert_ne].
  - intros a' ps' p' Ha' Hp'. destruct (decide (a = a')) as [<-|Hne].
    + assert (Some ps = Some ps') as [= <-] by (rewrite <- Ha'; symmetry; apply lookup_insert_eq).
      rewrite Hp in Hp'. injection Hp' as <-. rewrite lookup_insert_eq. eexists. split; [done|]. intros j Hj. rewrite Contains_Bytes, Hbits, Contains_New by done. cbn.
      rewrite Z.sub_0_r. destruct (Z.leb_spec 0 j); [done|lia].
    + rewrite lookup_insert_ne by done. apply (Hres a' ps' p'); [|done].
      rewrite <- Ha'. symmetry. by apply lookup_insert_ne.
Qed.

(** The predicates of an address in the access list of a transaction. *)
Definition predicates_of (tx : Transaction) (a : Address) : list (list byte) :=
  (HashSliceToBytes ∘ StorageKeys) <$> filter (fun t => AT_Address t = a) (tx_AccessList tx).

Lemma slots_lookup rules (l : list AccessTuple) a ps :
  PreparePredicateStorageSlots (PredicaterExists rules) l !! a = Some ps ->
  is_Some (Predicaters rules !! a) /\ ps <> [].
Proof.
  revert ps. unfold PreparePredicateStorageSlots. induction l as [|t l IH] using rev_ind; intros ps.
  { cbn. by rewrite lookup_empty. }
  rewrite fold_left_app. cbn [fold_left]. unfold PredicaterExists at 1.
  case_bool_decide as Hp; cbn [negb]; [|apply IH].
  destruct (decide (AT_Address t = a)) as [<-|Hne].
  - rewrite lookup_insert_eq. intros [= <-]. split; [done|]. by destruct (default [] _).
  - rewrite lookup_insert_ne by done. apply IH.
Qed.

Lemma slots_iff rules tx a ps :
  PreparePredicateStorageSlots (PredicaterExists rules) (tx_AccessList tx) !! a = Some ps <->
  is_Some (Predicaters rules !! a) /\ ps = predicates_of tx a /\ ps <> [].
Proof.
  pose proof (PreparePredicateStorageSlots_lookup (PredicaterExists rules) (tx_AccessList tx) a) as Hl.
  fold (predicates_of tx a) in Hl. split.
  - intros Ha. destruct (slots_lookup _ _ _ _ Ha) as [Hp Hne]. rewrite Ha in Hl. unfold PredicaterExists in Hl.
    rewrite bool_decide_eq_true_2 in Hl by done. done.
  - intros (Hp & -> & Hne). unfold PredicaterExists in Hl at 2. rewrite bool_decide_eq_true_2 in Hl by done.
    destruct (PreparePredicateStorageSlots _ _ !! a); cbn in Hl; [by rewrite Hl|by subst].
Qed.


End Predicates.

End procspec.
