(* ===== verification/Ordering.v ===== *)
(** * The order of the miner

    [miner/ordering.go]: the pending transactions of each account in the order of their
    nonces, and a heap of the first of each account, best paying first and oldest first among
    equals; with the lazy transactions of [core/txpool/subpool.go].

    The order in which Go iterates over a map is a parameter. *)

From S2P Require Import Prelude GoStd Transition.
Import core.

(** [for k, v := range m] of Go: every entry once, in an order the language leaves open. *)
Class MapRange (V : Type) := range_entries : gmap Address V -> list (Address * V).
Class MapRangeSpec (V : Type) {MR : MapRange V} : Prop :=
  range_entries_perm (m : gmap Address V) : range_entries m ≡ₚ map_to_list m.

Module txpool.

(** [LazyTransaction]; [Pool] is the [Get] method of its resolver, [Time] an instant in
    nanoseconds, the fee caps are [uint256.Int]s. *)
Record LazyTransaction := mkLazy {
  Pool : Hash -> option Transaction;
  LHash : Hash;
  Tx : option Transaction;
  LTime : Z;
  LGasFeeCap : Z;
  LGasTipCap : Z;
  LGas : Z;
  LBlobGas : Z
}.

Definition Resolve (ltx : LazyTransaction) : option Transaction :=
  match Tx ltx with
  | Some tx => Some tx
  | None => Pool ltx (LHash ltx)
  end.

End txpool.
Import txpool.

Module ordering.

Definition ErrGasFeeCapTooLow : error := errors_New "types.ErrGasFeeCapTooLow".

Record txWithMinerFee := mkTxWithMinerFee {
  tx : LazyTransaction;
  from : Address;
  fees : Z
}.

(** The subtraction of [uint256.Int]s is within range, after the comparison. *)
Definition newTxWithMinerFee (tx : LazyTransaction) (from : Address) (baseFee : option Z)
    : result txWithMinerFee :=
  match baseFee with
  | None => Ok (mkTxWithMinerFee tx from (LGasTipCap tx))
  | Some baseFee =>
      if LGasFeeCap tx <? baseFee then Err ErrGasFeeCapTooLow else
      let tip := LGasFeeCap tx - baseFee in
      let tip := if LGasTipCap tx <? tip then LGasTipCap tx else tip in
      Ok (mkTxWithMinerFee tx from tip)
  end.

(** ** [txByPriceAndTime] *)

Abbreviation txByPriceAndTime := (list txWithMinerFee).

Definition Less (s : txByPriceAndTime) (i j : nat) : bool :=
  match s !! i, s !! j with
  | Some a, Some b =>
      if fees a =? fees b then LTime (tx a) <? LTime (tx b) else fees b <? fees a
  | _, _ => false
  end.

Definition Pop_last (s : txByPriceAndTime) : txByPriceAndTime * option txWithMinerFee :=
  match s !! (length s - 1)%nat with
  | None => (s, None)
  | Some x => (take (length s - 1) s, Some x)
  end.

#[export] Instance txByPriceAndTime_heap : heap.Interface txByPriceAndTime txWithMinerFee := {
  heap.Len := length;
  heap.Less := Less;
  heap.Swap s i j := heap.swap i j s;
  heap.Push s x := s ++ [x];
  heap.Pop := Pop_last
}.

(** ** [transactionsByPriceAndNonce] *)

(** The signer is stored and never read. *)
Record transactionsByPriceAndNonce := mkTransactions {
  txs : gmap Address (list LazyTransaction);
  heads : txByPriceAndTime;
  baseFee : option Z
}.

Section Operations.
Context {UI : U256Lib} {MR : MapRange (list LazyTransaction)}.

(** The body of the loop of the constructor; the first of an empty list panics. *)
Definition add_account (baseFee : option Z) (acc : gmap Address (list LazyTransaction) * txByPriceAndTime)
    (entry : Address * list LazyTransaction) : result (gmap Address (list LazyTransaction) * txByPriceAndTime) :=
  let '(txs, heads) := acc in
  let '(from, accTxs) := entry in
  match accTxs with
  | [] => Panic
  | tx :: rest =>
      match newTxWithMinerFee tx from baseFee with
      | Ok wrapped => Ok (<[from := rest]> txs, heads ++ [wrapped])
      | Err _ => Ok (delete from txs, heads)
      | Panic => Panic
      end
  end.

Fixpoint add_accounts (baseFee : option Z) (acc : gmap Address (list LazyTransaction) * txByPriceAndTime)
    (entries : list (Address * list LazyTransaction)) : result (gmap Address (list LazyTransaction) * txByPriceAndTime) :=
  match entries with
  | [] => Ok acc
  | entry :: rest => acc ← add_account baseFee acc entry; add_accounts baseFee acc rest
  end.

Definition newTransactionsByPriceAndNonce (txs : gmap Address (list LazyTransaction)) (baseFee : option Z)
    : result transactionsByPriceAndNonce :=
  baseFeeUint ← match baseFee with
                | Some baseFee => v ← MustFromBig baseFee; Ok (Some v)
                | None => Ok None
                end;
  '(txs, heads) ← add_accounts baseFeeUint (txs, []) (range_entries txs);
  Ok (mkTransactions txs (heap.heap_Init heads) baseFeeUint).

Definition Peek (t : transactionsByPriceAndNonce) : option (LazyTransaction * Z) :=
  head ← heads t !! 0%nat; Some (tx head, fees head).

(** [heap.Pop] of an empty heap panics. *)
Definition Pop (t : transactionsByPriceAndNonce) : result transactionsByPriceAndNonce :=
  match heads t with
  | [] => Panic
  | _ => Ok (mkTransactions (txs t) (fst (heap.heap_Pop (heads t))) (baseFee t))
  end.

Definition Shift (t : transactionsByPriceAndNonce) : result transactionsByPriceAndNonce :=
  match heads t with
  | [] => Panic
  | head :: _ =>
      let acc := from head in
      match txs t !! acc with
      | Some (next :: rest) =>
          match newTxWithMinerFee next acc (baseFee t) with
          | Ok wrapped =>
              Ok (mkTransactions (<[acc := rest]> (txs t)) (heap.heap_Fix (<[0%nat := wrapped]> (heads t)) 0) (baseFee t))
          | Err _ => Pop t
          | Panic => Panic
          end
      | _ => Pop t
      end
  end.

Definition Empty (t : transactionsByPriceAndNonce) : bool := (length (heads t) =? 0)%nat.

(** A nil map is an empty one to its readers. *)
Definition Clear (t : transactionsByPriceAndNonce) : transactionsByPriceAndNonce :=
  mkTransactions ∅ [] (baseFee t).

End Operations.

End ordering.
