(* ===== verification/OrderingSpec.v ===== *)
(** * What the order of the miner promises

    The heap of the heads and the map of the rest implement a map from each account to its
    queue: the head with the highest tip is on top, oldest first among equals; [Shift] goes on
    with the next transaction of the account if it pays the base fee, [Pop] drops the account. *)

From S2P Require Import Prelude GoStd Slices Transition Ordering.
Import core txpool ordering.

Module orderingspec.

(** ** Keys of the heap *)

(** An instant, in nanoseconds, is below the range of the type; the tip counts first. *)
Definition MaxTime : Z := 2 ^ 96.
Definition time_ok (ltx : LazyTransaction) : Prop := 0 <= LTime ltx < MaxTime.
Definition key (h : txWithMinerFee) : Z := LTime (tx h) - fees h * MaxTime.
Definition timely (l : txByPriceAndTime) : Prop := Forall (fun h => time_ok (tx h)) l.

Lemma key_lt a b : time_ok (tx a) -> time_ok (tx b) ->
  key a < key b <-> fees b < fees a \/ (fees a = fees b /\ LTime (tx a) < LTime (tx b)).
Proof.
  unfold time_ok, key. intros Ha Hb. destruct (Z.lt_trichotomy (fees a) (fees b)) as [H|[H|H]].
  - split; [|lia]. intros Hk. nia.
  - rewrite H. lia.
  - split; [lia|]. intros _. nia.
Qed.

Lemma key_le a b : time_ok (tx a) -> time_ok (tx b) ->
  key a <= key b <-> fees b < fees a \/ (fees a = fees b /\ LTime (tx a) <= LTime (tx b)).
Proof. intros Ha Hb. pose proof (key_lt b a Hb Ha). lia. Qed.

Definition less_tx (a b : txWithMinerFee) : bool :=
  if fees a =? fees b then LTime (tx a) <? LTime (tx b) else fees b <? fees a.

Lemma less_key a b : time_ok (tx a) -> time_ok (tx b) -> less_tx a b = (key a <? key b).
Proof.
  intros Ha Hb. pose proof (key_lt a b Ha Hb) as Hk. unfold less_tx.
  destruct (Z.eqb_spec (fees a) (fees b)); apply eq_bool_prop_intro; rewrite !Is_true_true, !Z.ltb_lt; lia.
Qed.

(** ** The operations of the heap *)

Definition heap_ok : txByPriceAndTime -> Prop := slices.heap_ok (fun h => time_ok (tx h)) key.

Lemma init_ok l : timely l -> heap_ok (heap.heap_Init l) /\ heap.heap_Init l ≡ₚ l.
Proof. apply (slices.slice_init_ok less_tx _ _ less_key). Qed.

Lemma fix_root_ok x l y : heap_ok (x :: l) -> time_ok (tx y) ->
  heap_ok (heap.heap_Fix (y :: l) 0) /\ heap.heap_Fix (y :: l) 0 ≡ₚ y :: l.
Proof. apply (slices.slice_fix_root_ok less_tx _ _ less_key). Qed.

Lemma pop_ok x l : heap_ok (x :: l) ->
  heap_ok (fst (heap.heap_Pop (x :: l))) /\ fst (heap.heap_Pop (x :: l)) ≡ₚ l.
Proof.
  intros Ho. destruct (slices.slice_pop_ok less_tx _ _ less_key x l Ho) as (l' & Hp & Hok & Hl).
  assert (E : heap.heap_Pop (x :: l) = (l', Some x)) by exact Hp. by rewrite E.
Qed.

Lemma head_best x l y : heap_ok (x :: l) -> y ∈ x :: l -> key x <= key y.
Proof. apply slices.head_min. Qed.

(** ** The queues *)

(** What a transaction pays to the miner, if it pays the base fee at all. *)
Definition payable (baseFee : option Z) (ltx : LazyTransaction) : bool :=
  match baseFee with None => true | Some b => b <=? LGasFeeCap ltx end.
Definition tip (baseFee : option Z) (ltx : LazyTransaction) : Z :=
  match baseFee with None => LGasTipCap ltx | Some b => Z.min (LGasTipCap ltx) (LGasFeeCap ltx - b) end.

Abbreviation Queues := (gmap Address (list LazyTransaction)).

(** The accounts whose first transaction pays the base fee. *)
Definition starts (baseFee : option Z) (q : list LazyTransaction) : Prop :=
  match q with ltx :: _ => payable baseFee ltx = true | [] => False end.
#[export] Instance starts_dec b q : Decision (starts b q).
Proof. destruct q; cbn; apply _. Defined.
Definition start (baseFee : option Z) (m : Queues) : Queues := filter (fun e => starts baseFee e.2) m.

(** The queue of an account without its first transaction. *)
Definition advance (baseFee : option Z) (a : Address) (q : Queues) : Queues :=
  match q !! a with
  | Some (_ :: rest) => if decide (starts baseFee rest) then <[a := rest]> q else delete a q
  | _ => q
  end.

Lemma newTxWithMinerFee_spec ltx a b :
  newTxWithMinerFee ltx a b =
  if payable b ltx then Ok (mkTxWithMinerFee ltx a (tip b ltx)) else Err ErrGasFeeCapTooLow.
Proof.
  unfold newTxWithMinerFee, payable, tip. destruct b as [b|]; [|done].
  destruct (Z.ltb_spec (LGasFeeCap ltx) b), (Z.leb_spec b (LGasFeeCap ltx)); try lia; try done.
  do 2 f_equal. case_test; lia.
Qed.

(** The collection holds each account once, wrapped as the constructor wraps it. *)
Record wf (t : transactionsByPriceAndNonce) : Prop := {
  wf_froms : NoDup (from <$> heads t);
  wf_heads : Forall (fun h => h = mkTxWithMinerFee (tx h) (from h) (tip (baseFee t) (tx h)) /\
                              payable (baseFee t) (tx h) = true) (heads t);
  wf_heap : heap_ok (heads t);
  wf_times : map_Forall (fun _ q => Forall time_ok q) (txs t)
}.

Definition entry (rest : Queues) (h : txWithMinerFee) : Address * list LazyTransaction :=
  (from h, tx h :: default [] (rest !! from h)).
Definition view (t : transactionsByPriceAndNonce) : Queues := list_to_map (entry (txs t) <$> heads t).

Lemma entries_fst rest (l : txByPriceAndTime) : (entry rest <$> l).*1 = from <$> l.
Proof. by rewrite <- list_fmap_compose. Qed.

Lemma lookup_view t a q : NoDup (from <$> heads t) ->
  view t !! a = Some q <-> exists h, h ∈ heads t /\ from h = a /\ q = tx h :: default [] (txs t !! a).
Proof.
  intros Hn. unfold view. rewrite <- elem_of_list_to_map by (by rewrite entries_fst).
  rewrite list_elem_of_fmap. unfold entry. split.
  - intros (h & [= -> ->] & Hh). by exists h.
  - intros (h & Hh & <- & ->). by exists h.
Qed.

Lemma view_perm t l : NoDup (from <$> heads t) -> l ≡ₚ heads t ->
  view (mkTransactions (txs t) l (baseFee t)) = view t.
Proof.
  intros Hn Hp. unfold view. cbn. apply list_to_map_proper; [by rewrite entries_fst, Hp|by rewrite Hp].
Qed.

(** The heads after the first, and the queues of their accounts. *)
Lemma view_tail t h l : wf t -> heads t = h :: l ->
  view t = <[from h := tx h :: default [] (txs t !! from h)]> (view (mkTransactions (txs t) l (baseFee t))) /\
  view (mkTransactions (txs t) l (baseFee t)) = delete (from h) (view t).
Proof.
  intros Hw Hh. unfold view. rewrite Hh. cbn. split; [done|]. rewrite delete_insert_id; [done|].
  apply not_elem_of_list_to_map_1. rewrite entries_fst. pose proof (wf_froms t Hw) as Hn. rewrite Hh in Hn.
  by apply list.NoDup_cons in Hn as [? _].
Qed.

(** Changing the rest of an account that has no head changes nothing. *)
Lemma view_other rest a q l b : a ∉ (from <$> l) ->
  view (mkTransactions (<[a := q]> rest) l b) = view (mkTransactions rest l b).
Proof.
  intros Ha. unfold view. cbn. f_equal. apply list_fmap_ext. intros i h Hi. unfold entry.
  rewrite lookup_insert_ne; [done|]. intros ->. apply Ha, list_elem_of_fmap. exists h. split; [done|].
  by eapply list_elem_of_lookup_2.
Qed.

Lemma wf_sub t l rest : wf t -> (exists h, heads t ≡ₚ h :: l) -> heap_ok l ->
  map_Forall (fun _ q => Forall time_ok q) rest -> wf (mkTransactions rest l (baseFee t)).
Proof.
  intros Hw [h Hp] Ho Hr. split; cbn; [| |done|done].
  - pose proof (wf_froms t Hw) as Hn. rewrite Hp in Hn. by apply list.NoDup_cons in Hn as [_ ?].
  - pose proof (wf_heads t Hw) as Hf. rewrite Hp in Hf. by apply list.Forall_cons in Hf as [_ ?].
Qed.

Lemma Pop_view t h l : wf t -> heads t = h :: l ->
  exists t', Pop t = Ok t' /\ wf t' /\ baseFee t' = baseFee t /\ view t' = delete (from h) (view t).
Proof.
  intros Hw Hh. unfold Pop. rewrite Hh. eexists. split; [done|].
  pose proof (wf_heap t Hw) as Ho. rewrite Hh in Ho. destruct (pop_ok h l Ho) as [Ho' Hp].
  assert (Hw' : wf (mkTransactions (txs t) (fst (heap.heap_Pop (h :: l))) (baseFee t))).
  { apply wf_sub; [done| |done|apply Hw]. exists h. by rewrite Hh, Hp. }
  split; [done|]. split; [done|]. destruct (view_tail t h l Hw Hh) as [_ <-].
  apply (view_perm (mkTransactions (txs t) l (baseFee t))); [|done]. cbn. pose proof (wf_froms t Hw) as Hn. rewrite Hh in Hn. by apply list.NoDup_cons in Hn as [_ ?].
Qed.

Lemma Shift_view t h l : wf t -> heads t = h :: l ->
  exists t', Shift t = Ok t' /\ wf t' /\ baseFee t' = baseFee t /\ view t' = advance (baseFee t) (from h) (view t).
Proof.
  intros Hw Hh. pose proof (Pop_view t h l Hw Hh) as HPop. destruct (view_tail t h l Hw Hh) as [Hv Htail].
  assert (Hq : view t !! from h = Some (tx h :: default [] (txs t !! from h))) by (rewrite Hv; apply lookup_insert_eq).
  unfold Shift, advance. rewrite Hh, Hq. destruct (txs t !! from h) as [[|next rest]|] eqn:Ht; cbn [default from_option id];
    [by rewrite decide_False by (intros [])| |by rewrite decide_False by (intros [])].
  rewrite newTxWithMinerFee_spec. destruct (payable (baseFee t) next) eqn:Hpay; [|by rewrite decide_False by (cbn; congruence)].
  rewrite decide_True by done. eexists. split; [done|]. cbn [list_insert insert].
  pose proof (wf_heap t Hw) as Ho. rewrite Hh in Ho. pose proof (wf_times t Hw _ _ Ht) as Hnt.
  set (w := mkTxWithMinerFee next (from h) (tip (baseFee t) next)).
  destruct (fix_root_ok h l w Ho) as [Ho' Hp]; [by inversion Hnt|].
  pose proof (wf_froms t Hw) as Hn. pose proof (wf_heads t Hw) as Hf. rewrite Hh in Hn, Hf.
  set (t1 := mkTransactions (<[from h := rest]> (txs t)) (w :: l) (baseFee t)).
  assert (Hn1 : NoDup (from <$> heads t1)) by done.
  split; [|split; [done|]].
  - split; cbn [heads txs baseFee]; [by rewrite Hp|rewrite Hp|done|].
    + apply list.Forall_cons. apply list.Forall_cons in Hf as [_ Hf]. done.
    + apply map_Forall_insert_2; [by inversion Hnt|apply Hw].
  - etrans; [apply (view_perm t1); [done|apply Hp]|]. unfold t1.
    assert (view t1 = <[from h := next :: default [] (<[from h := rest]> (txs t) !! from h)]>
      (view (mkTransactions (<[from h := rest]> (txs t)) l (baseFee t)))) as Ht1 by done.
    fold t1. rewrite Ht1.
    rewrite lookup_insert_eq, view_other, Htail by (by apply list.NoDup_cons in Hn as [? _]). cbn.
    by rewrite insert_delete_eq.
Qed.

(** ** The construction *)


Definition wrap (b : option Z) (e : Address * list LazyTransaction) : option txWithMinerFee :=
  match e.2 with
  | ltx :: _ => if payable b ltx then Some (mkTxWithMinerFee ltx e.1 (tip b ltx)) else None
  | [] => None
  end.

Lemma add_accounts_spec b l : NoDup l.*1 -> Forall (fun e => e.2 <> []) l -> forall (m : Queues) hs,
  exists m', add_accounts b (m, hs) l = Ok (m', hs ++ omap (wrap b) l) /\
    (forall a q, (a, q) ∈ l -> m' !! a = if decide (starts b q) then Some (tail q) else None) /\
    (forall a, a ∉ l.*1 -> m' !! a = m !! a).
Proof.
  intros Hn Hq. induction Hq as [|[a [|x r]] l He Hq IH]; intros m hs; [|done|].
  { exists m. cbn. rewrite app_nil_r. split_and!; [done| |done]. intros a q Ha. by apply not_elem_of_nil in Ha. }
  apply list.NoDup_cons in Hn as [Ha Hn]. cbn [add_accounts add_account]. rewrite newTxWithMinerFee_spec.
  assert (Hstep : exists m1 hs1, (if payable b x then Ok (<[a := r]> m, hs ++ [mkTxWithMinerFee x a (tip b x)])
      else Ok (delete a m, hs)) = @Ok (Queues * txByPriceAndTime) (m1, hs1) /\ hs1 = hs ++ omap (wrap b) [(a, x :: r)] /\
      (m1 !! a = if decide (starts b (x :: r)) then Some r else None) /\ forall a', a <> a' -> m1 !! a' = m !! a').
  { cbn. unfold wrap. cbn. destruct (payable b x) eqn:Hp; eexists _, _; (split; [done|]).
    - rewrite decide_True by done. split_and!; [done|apply lookup_insert_eq|intros; by apply lookup_insert_ne].
    - rewrite decide_False by congruence. rewrite app_nil_r. split_and!; [done|apply lookup_delete_eq|intros; by apply lookup_delete_ne]. }
  destruct Hstep as (m1 & hs1 & Hs & -> & Hm1 & Hother).
  replace (match (if payable b x then Ok _ else Err ErrGasFeeCapTooLow) with Ok _ => _ | Err _ => _ | Panic => _ end)
    with (@Ok (Queues * txByPriceAndTime) (m1, hs ++ omap (wrap b) [(a, x :: r)])) by (rewrite <- Hs; by destruct (payable b x)).
  cbn [mbind result_bind]. destruct (IH Hn m1 (hs ++ omap (wrap b) [(a, x :: r)])) as (m' & -> & Hin & Hout).
  exists m'. rewrite <- app_assoc, <- omap_app. split_and!; [done| |].
  - intros a' q' [[= -> ->]|Hl]%elem_of_cons; [|by apply Hin]. by rewrite Hout.
  - intros a' Ha'. cbn in Ha'. apply not_elem_of_cons in Ha' as [Hne Ha']. rewrite Hout by done. by apply Hother.
Qed.

Section Collection.
Context {UI : U256Lib} {UIs : U256LibSpec} {MR : MapRange (list LazyTransaction)} {MRs : MapRangeSpec (list LazyTransaction)}.

(** The pool hands out accounts with their transactions, and a base fee of 256 bits. *)
Definition queues_ok (m : Queues) : Prop := map_Forall (fun _ q => q <> [] /\ Forall time_ok q) m.
Definition baseFee_ok (b : option Z) : Prop := match b with Some z => 0 <= z < 2 ^ 256 | None => True end.

Lemma MustFromBig_ok z : 0 <= z < 2 ^ 256 -> MustFromBig z = Ok z.
Proof. intros Hz. unfold MustFromBig. by rewrite FromBig_fits. Qed.

Lemma elem_of_entries (m : Queues) a q : (a, q) ∈ range_entries m <-> m !! a = Some q.
Proof. by rewrite range_entries_perm, elem_of_map_to_list. Qed.

Lemma wrapped_spec (m : Queues) b h : h ∈ omap (wrap b) (range_entries m) <->
  exists r, m !! from h = Some (tx h :: r) /\ payable b (tx h) = true /\ h = mkTxWithMinerFee (tx h) (from h) (tip b (tx h)).
Proof.
  rewrite list_elem_of_omap. unfold wrap. split.
  - intros ([a [|x r]] & Ha & Hw); cbn in Hw; [done|]. destruct (payable b x) eqn:Hp; [|done]. injection Hw as <-. cbn.
    exists r. by rewrite elem_of_entries in Ha.
  - intros (r & Hr & Hp & ->). cbn in *. exists (from h, tx h :: r). cbn. rewrite Hp. by rewrite elem_of_entries.
Qed.

Lemma wrapped_NoDup b (l : list (Address * list LazyTransaction)) : NoDup l.*1 -> NoDup (from <$> omap (wrap b) l).
Proof.
  intros Hn. induction l as [|[a [|x r]] l IH]; [constructor| |]; cbn in Hn; apply list.NoDup_cons in Hn as [Ha Hn]; cbn; [by apply IH|].
  unfold wrap at 1. cbn. destruct (payable b x); [|by apply IH]. cbn. apply list.NoDup_cons. split; [|by apply IH].
  rewrite list_elem_of_fmap. intros (h & -> & Hh). apply Ha. apply list_elem_of_omap in Hh as ([a' q'] & Hl & Hw).
  unfold wrap in Hw. destruct q' as [|x' r']; [done|]. cbn in Hw. destruct (payable b x'); [|done]. injection Hw as <-.
  apply list_elem_of_fmap. by exists (a', x' :: r').
Qed.

Lemma new_view m b : queues_ok m -> baseFee_ok b ->
  exists t, newTransactionsByPriceAndNonce m b = Ok t /\ wf t /\ baseFee t = b /\ view t = start b m.
Proof.
  intros Hm Hb. unfold newTransactionsByPriceAndNonce.
  replace (match b with Some z => v ← MustFromBig z; Ok (Some v) | None => Ok None end) with (Ok b)
    by (destruct b as [z|]; [by rewrite MustFromBig_ok|done]). cbn [mbind result_bind].
  assert (Hn : NoDup (range_entries m).*1) by (rewrite range_entries_perm; apply NoDup_fst_map_to_list).
  destruct (add_accounts_spec b (range_entries m)) with (m := m) (hs := @nil txWithMinerFee) as (m' & -> & Hin & Hout); [done| |].
  { apply list.Forall_forall. intros [a q] Ha. apply elem_of_entries in Ha. by apply (Hm a q). }
  cbn [mbind result_bind app]. pose proof (wrapped_NoDup b _ Hn) as Hnh. pose proof (wrapped_spec m b) as Hhs.
  set (hs := omap (wrap b) (range_entries m)) in *. clearbody hs. eexists. split; [done|].
  assert (Hth : timely hs).
  { apply list.Forall_forall. intros h Hh. apply Hhs in Hh as (r & Hr & _). destruct (Hm _ _ Hr) as [_ Ht]. by inversion Ht. }
  destruct (init_ok hs Hth) as [Ho Hp]. set (t1 := mkTransactions m' hs b).
  split; [|split; [done|]].
  - split; cbn [heads txs baseFee]; [by rewrite Hp|rewrite Hp|done|].
    + apply list.Forall_forall. intros h Hh. apply Hhs in Hh as (r & _ & ? & ?). done.
    + intros a q Ha. destruct (m !! a) as [q0|] eqn:Hq0.
      * destruct (Hm _ _ Hq0) as [Hne Hq]. apply elem_of_entries in Hq0. rewrite (Hin _ _ Hq0) in Ha.
        destruct (decide (starts b q0)); [|done]. injection Ha as <-. destruct q0; [done|]. by inversion Hq.
      * rewrite Hout in Ha; [congruence|]. rewrite list_elem_of_fmap. intros ([a' q'] & -> & He). apply elem_of_entries in He. cbn in *. congruence.
  - etrans; [apply (view_perm t1); [done|apply Hp]|]. apply map_eq. intros a. apply option_eq. intros q.
    rewrite lookup_view by done. unfold start. rewrite map_lookup_filter_Some. cbn. split.
    + intros (h & Hh & <- & ->). apply Hhs in Hh as (r & Hr & Hpay & _).
      rewrite (Hin (from h) (tx h :: r)) by (by apply elem_of_entries). by rewrite decide_True.
    + intros [Hq Hs]. destruct q as [|x r]; [done|]. exists (mkTxWithMinerFee x a (tip b x)). rewrite Hhs. cbn.
      rewrite (Hin a (x :: r)) by (by apply elem_of_entries). rewrite decide_True by done. naive_solver.
Qed.

(** The best of the queues: the highest tip, and the oldest of those. *)
Definition best (b : option Z) (q : Queues) (a : Address) (ltx : LazyTransaction) : Prop :=
  (exists rest, q !! a = Some (ltx :: rest)) /\
  forall a' ltx' rest', q !! a' = Some (ltx' :: rest') ->
    tip b ltx' < tip b ltx \/ (tip b ltx' = tip b ltx /\ LTime ltx <= LTime ltx').

Lemma Peek_view t : wf t ->
  match heads t with
  | [] => Peek t = None /\ view t = ∅
  | h :: _ => Peek t = Some (tx h, tip (baseFee t) (tx h)) /\ best (baseFee t) (view t) (from h) (tx h)
  end.
Proof.
  intros Hw. unfold Peek. destruct (heads t) as [|h l] eqn:Hh; [split; [done|]; unfold view; by rewrite Hh|].
  pose proof (wf_heads t Hw) as Hf. pose proof (wf_heap t Hw) as Ho. rewrite Hh in Hf, Ho. cbn.
  assert (Hfee : forall y, y ∈ h :: l -> fees y = tip (baseFee t) (tx y)).
  { intros y Hy. rewrite list.Forall_forall in Hf. destruct (Hf y Hy) as [-> _]. done. }
  rewrite (Hfee h) by (by left). split; [done|]. split.
  - exists (default [] (txs t !! from h)). apply lookup_view; [apply Hw|]. exists h. rewrite Hh. split; [by left|done].
  - intros a' ltx' rest' Hq. apply lookup_view in Hq as (y & Hy & _ & [= -> _]); [|apply Hw]. rewrite Hh in Hy.
    rewrite <- !Hfee by (done || by left). pose proof (head_best h l y Ho Hy) as Hk. destruct Ho as [Ht _].
    unfold timely in Ht. rewrite list.Forall_forall in Ht. apply key_le in Hk; [|apply Ht; by left|by apply Ht]. lia.
Qed.

(** C16. The miner's collection of transactions refines a map from accounts to their queues. It
    starts with the accounts whose first transaction pays the base fee. [Peek] is the first
    transaction of some account, with the highest tip and the oldest of those, and nothing only
    when no account is left; [Shift] advances that account to its next transaction, and drops
    it if there is none that pays the base fee; [Pop] drops it. So the transactions of an
    account come out in the order of their nonces. *)
Theorem order_refines m b :
  queues_ok m -> baseFee_ok b ->
  (exists t, newTransactionsByPriceAndNonce m b = Ok t /\ wf t /\ baseFee t = b /\ view t = start b m) /\
  forall t, wf t -> baseFee t = b ->
    (Peek t = None <-> view t = ∅) /\ (Empty t = true <-> view t = ∅) /\
    forall ltx fee, Peek t = Some (ltx, fee) ->
      fee = tip b ltx /\
      exists a, best b (view t) a ltx /\
        (exists t', Shift t = Ok t' /\ wf t' /\ baseFee t' = b /\ view t' = advance b a (view t)) /\
        (exists t', Pop t = Ok t' /\ wf t' /\ baseFee t' = b /\ view t' = delete a (view t)).
Proof.
  intros Hm Hb. split; [by apply new_view|]. intros t Hw <-. pose proof (Peek_view t Hw) as Hp.
  unfold Empty. destruct (heads t) as [|h l] eqn:Hh.
  - destruct Hp as [Hp Hv]. rewrite Hp, Hv. split_and!; done.
  - destruct Hp as [Hp Hbest]. rewrite Hp. assert (Hne : view t <> ∅).
    { intros He. destruct Hbest as [[rest Hr] _]. by rewrite He, lookup_empty in Hr. }
    split_and!; [done|done|]. intros ltx fee [= <- <-]. split; [done|]. exists (from h). split; [done|].
    split; [by apply (Shift_view t h l)|by apply (Pop_view t h l)].
Qed.

End Collection.

End orderingspec.
