(* ===== verification/Miner.v ===== *)
(** * The miner

    [miner/worker.go] and [miner/miner.go]: the environment of a block under construction, the
    transactions that are tried in it and the assembly of the block.

    Parameters: the pool ([core/txpool.TxPool]) by what it answers, the clock, the current
    block, geth's [state.StateDB] and EVM, and the removal of a sidecar. Not kept: the
    prefetcher, the logs, the event feed, the signer (whose sender is only logged). *)

From S2P Require Import Prelude Deps GoStd Lp176 ExtState Fees CustomTypes Header Consensus Predicate Transition Upgrades Processor Ordering.
Import extstate predicate core processor txpool ordering.

(** Assignments to the fields of a header. *)
Definition set_GasUsed (h : types.Header) (x : Z) : types.Header :=
  types.mkHeader (types.ParentHash h) (types.UncleHash h) (types.Coinbase h) (types.Root h) (types.TxHash h)
    (types.ReceiptHash h) (types.Bloom h) (types.Difficulty h) (types.Number h) (types.GasLimit h) x (types.Time h)
    (types.Extra h) (types.MixDigest h) (types.Nonce h) (types.BaseFee h) (types.BlobGasUsed h) (types.ExcessBlobGas h)
    (types.ParentBeaconRoot h) (types.ExtDataHash h) (types.ExtDataGasUsed h) (types.BlockGasCost h).
Definition set_BlobGasUsed (h : types.Header) (x : option Z) : types.Header :=
  types.mkHeader (types.ParentHash h) (types.UncleHash h) (types.Coinbase h) (types.Root h) (types.TxHash h)
    (types.ReceiptHash h) (types.Bloom h) (types.Difficulty h) (types.Number h) (types.GasLimit h) (types.GasUsed h) (types.Time h)
    (types.Extra h) (types.MixDigest h) (types.Nonce h) (types.BaseFee h) x (types.ExcessBlobGas h)
    (types.ParentBeaconRoot h) (types.ExtDataHash h) (types.ExtDataGasUsed h) (types.BlockGasCost h).

(** [types.Transaction.WithoutBlobTxSidecar] *)
Class SidecarLib := WithoutBlobTxSidecar : Transaction -> Transaction.

(** What the pool is asked for: [Pending], [Locals] and [GasTip]. *)
Record PendingFilter := mkPendingFilter {
  MinTip : Z;
  pf_BaseFee : option Z;
  pf_BlobFee : option Z;
  OnlyPlainTxs : bool;
  OnlyBlobTxs : bool
}.

Record TxPool := mkTxPool {
  Pending : PendingFilter -> gmap Address (list LazyTransaction);
  Locals : list Address;
  GasTip : Z
}.

Module miner.

Definition targetTxsSize : Z := 1792 * 1024.
Definition legacyStaticGasLimit : Z := 15000000.
Definition ErrInsufficientGasCapacityToBuild : error := errors_New "miner.ErrInsufficientGasCapacityToBuild".

Section Worker.
Context {SM : SafeMath} {GL : GasLib} {UI : U256Lib} {BL : BitsLib} {SL : SidecarLib} {S Ctx L : Type}.
Context {GDB : GethStateDB S} {DB : VMStateDB S} {AS : ActivationStateDB S} {PS : ProcStateDB L S} {SN : Snapshots S}.
Context {EL : EVMLib S Ctx} {MR : MapRange (list LazyTransaction)}.
Context (IsValidVersionedHash : Hash -> bool).
Context (CreateBloom : list L -> list byte) (CreateAddress : Address -> Z -> Address).
Context (Sender : Transaction -> result Address).
Context (GetHeader : Hash -> Z -> option types.Header) (blobFuel : nat) (Header_Hash : types.Header -> Hash).
Context (chainConfig : ChainConfig Ctx) (vmNoBaseFee : bool).
Local Open Scope word_scope.

Record environment := mkEnv {
  state : S;
  tcount : Z;
  gasPool : Z;
  parent : types.Header;
  header : types.Header;
  env_txs : list Transaction;
  receipts : list (Receipt L);
  sidecars : list (list (list byte));
  blobs : Z;
  env_size : Z;
  rules : Rules Ctx;
  predicateContext : option (PredicateContext Ctx);
  predicateResults : Results
}.

Definition set_state (env : environment) (s : S) : environment :=
  mkEnv s (tcount env) (gasPool env) (parent env) (header env) (env_txs env) (receipts env) (sidecars env)
    (blobs env) (env_size env) (rules env) (predicateContext env) (predicateResults env).
Definition set_tcount (env : environment) (n : Z) : environment :=
  mkEnv (state env) n (gasPool env) (parent env) (header env) (env_txs env) (receipts env) (sidecars env)
    (blobs env) (env_size env) (rules env) (predicateContext env) (predicateResults env).
Definition set_results (env : environment) (r : Results) : environment :=
  mkEnv (state env) (tcount env) (gasPool env) (parent env) (header env) (env_txs env) (receipts env) (sidecars env)
    (blobs env) (env_size env) (rules env) (predicateContext env) r.
(** The gas pool, the header's gas used and the state, which the execution shares. *)
Definition set_exec (env : environment) (st : Exec) : environment :=
  mkEnv (ex_state st) (tcount env) (ex_gp st) (parent env) (set_GasUsed (header env) (ex_usedGas st)) (env_txs env)
    (receipts env) (sidecars env) (blobs env) (env_size env) (rules env) (predicateContext env) (predicateResults env).
(** The fields the two commits append to. *)
Definition set_committed (env : environment) (txs : list Transaction) (receipts : list (Receipt L))
    (sidecars : list (list (list byte))) (blobs size : Z) (blobGasUsed : option Z) : environment :=
  mkEnv (state env) (tcount env) (gasPool env) (parent env) (set_BlobGasUsed (header env) blobGasUsed) txs receipts sidecars
    blobs size (rules env) (predicateContext env) (predicateResults env).

(** ** Transactions *)

Definition applyTransaction (tx : Transaction) (coinbase : Address) : StM environment (Receipt L) := fun env =>
  let '(snap, s) := Snapshot (state env) in
  let env := set_state env s in
  let gp := gasPool env in
  match CheckPredicates (rules env) (predicateContext env) tx with
  | Panic => (Panic, env)
  | Err e => (Err e, env)
  | Ok results =>
      let env := set_results env (SetTxResults (predicateResults env) (tx_Hash tx) results) in
      match Results_Bytes (predicateResults env) with
      | Panic => (Panic, env)
      | Err e => (Err (errorf_w "failed to marshal predicate results" e), env)
      | Ok predicateResultsBytes =>
          match NewEVMBlockContextWithPredicateResults GetHeader blobFuel (header env) (Some coinbase) predicateResultsBytes with
          | Panic => (Panic, env)
          | Err e => (Err e, env)
          | Ok blockContext =>
              let '(r, st) := ApplyTransaction IsValidVersionedHash CreateBloom CreateAddress chainConfig Sender vmNoBaseFee
                blockContext (header env) (Header_Hash (header env)) tx (mkExec gp (types.GasUsed (header env)) (state env)) in
              match r with
              | Err e =>
                  let env := set_exec env (mkExec gp (ex_usedGas st) (RevertToSnapshot snap (ex_state st))) in
                  (Err e, set_results env (DeleteTxResults (predicateResults env) (tx_Hash tx)))
              | _ => (r, set_exec env st)
              end
          end
      end
  end.

Definition commitBlobTransaction (tx : Transaction) (coinbase : Address) : StM environment (list L) := fun env =>
  match tx_Sidecar tx with
  | None => (Panic, env)
  | Some sc =>
      if eip4844.MaxBlobGasPerBlock <? (blobs env + Z.of_nat (length sc)) * eip4844.BlobTxBlobGasPerBlob
      then (Err (errors_New "max data blobs reached"), env) else
      match applyTransaction tx coinbase env with
      | (Ok receipt, env) =>
          match types.BlobGasUsed (header env) with
          | None => (Panic, env)
          | Some blobGasUsed =>
              (Ok (r_Logs receipt),
               set_committed env (env_txs env ++ [WithoutBlobTxSidecar tx]) (receipts env ++ [receipt]) (sidecars env ++ [sc])
                 (blobs env + Z.of_nat (length sc)) (env_size env) (Some (blobGasUsed +u r_BlobGasUsed receipt)))
          end
      | (Err e, env) => (Err e, env)
      | (Panic, env) => (Panic, env)
      end
  end.

Definition commitTransaction (tx : Transaction) (coinbase : Address) : StM environment (list L) := fun env =>
  if tx_Type tx =? BlobTxType then commitBlobTransaction tx coinbase env else
  match applyTransaction tx coinbase env with
  | (Ok receipt, env) =>
      (Ok (r_Logs receipt),
       set_committed env (env_txs env ++ [tx]) (receipts env ++ [receipt]) (sidecars env) (blobs env)
         (env_size env +u tx_Size tx) (types.BlobGasUsed (header env)))
  | (Err e, env) => (Err e, env)
  | (Panic, env) => (Panic, env)
  end.

(** ** The loop over the two collections *)

Record Choice := mkChoice { ch_blob : bool; ch_ltx : option LazyTransaction }.

(** The better of the two heads; the plain one if they pay the same. *)
Definition choose (plainTxs blobTxs : transactionsByPriceAndNonce) : Choice :=
  match Peek plainTxs, Peek blobTxs with
  | None, b => mkChoice true (option_map fst b)
  | Some (pltx, _), None => mkChoice false (Some pltx)
  | Some (pltx, ptip), Some (bltx, btip) =>
      if ptip <? btip then mkChoice true (Some bltx) else mkChoice false (Some pltx)
  end.

Definition on_chosen (blob : bool) (op : transactionsByPriceAndNonce -> result transactionsByPriceAndNonce)
    (plainTxs blobTxs : transactionsByPriceAndNonce) : result (transactionsByPriceAndNonce * transactionsByPriceAndNonce) :=
  if blob then b ← op blobTxs; Ok (plainTxs, b) else p ← op plainTxs; Ok (p, blobTxs).

(** Cleared when the blobs of the block are used up; the source has the test twice. *)
Definition clear_full (env : environment) (blobTxs : transactionsByPriceAndNonce) : transactionsByPriceAndNonce :=
  if negb (Empty blobTxs) && (eip4844.MaxBlobGasPerBlock <=? blobs env * eip4844.BlobTxBlobGasPerBlob)
  then Clear blobTxs else blobTxs.

(** Reasons to skip the account of a transaction before it is tried. *)
Definition skips (env : environment) (ltx : LazyTransaction) : option Transaction :=
  if gasPool env <? LGas ltx then None else
  if u64 (eip4844.MaxBlobGasPerBlock - blobs env * eip4844.BlobTxBlobGasPerBlob) <? LBlobGas ltx then None else
  match Resolve ltx with
  | None => None
  | Some tx =>
      if targetTxsSize <? env_size env +u tx_Size tx then None else
      if tx_Protected tx && negb (cc_IsEIP155 chainConfig (types.Number (header env))) then None else
      Some tx
  end.

(** One transaction: what is done with its account, and the environment after it. *)
Definition tryTransaction (coinbase : Address) (tx : Transaction) (env : environment)
    : result (transactionsByPriceAndNonce -> result transactionsByPriceAndNonce) * environment :=
  let env := set_state env (ps_SetTxContext (tx_Hash tx) (tcount env) (state env)) in
  match commitTransaction tx coinbase env with
  | (Panic, env) => (Panic, env)
  | (Ok _, env) => (Ok Shift, set_tcount env (tcount env + 1))
  | (Err e, env) => (Ok (if errors_Is e ErrNonceTooLow then Shift else Pop), env)
  end.

(** [None]: the fuel is used up. *)
Fixpoint commitTransactions (fuel : nat) (plainTxs blobTxs : transactionsByPriceAndNonce) (coinbase : Address)
    (env : environment) : option (result unit * environment) :=
  match fuel with
  | O => None
  | Datatypes.S fuel' =>
      if gasPool env <? TxGas then Some (Ok tt, env) else
      let blobTxs := clear_full env (clear_full env blobTxs) in
      let ch := choose plainTxs blobTxs in
      match ch_ltx ch with
      | None => Some (Ok tt, env)
      | Some ltx =>
          let '(op, env) :=
            match skips env ltx with
            | None => (Ok Pop, env)
            | Some tx => tryTransaction coinbase tx env
            end in
          match op with
          | Ok op =>
              match on_chosen (ch_blob ch) op plainTxs blobTxs with
              | Ok (plainTxs, blobTxs) => commitTransactions fuel' plainTxs blobTxs coinbase env
              | Err e => Some (Err e, env)
              | Panic => Some (Panic, env)
              end
          | Err e => Some (Err e, env)
          | Panic => Some (Panic, env)
          end
      end
  end.

(** As many transactions as the two collections hold, and one look at the empty ones. *)
Definition count (t : transactionsByPriceAndNonce) : nat :=
  length (heads t) + map_fold (fun _ q n => length q + n)%nat 0%nat (txs t).
Definition commitAll (plainTxs blobTxs : transactionsByPriceAndNonce) (coinbase : Address) : StM environment unit := fun env =>
  match commitTransactions (Datatypes.S (count plainTxs + count blobTxs)) plainTxs blobTxs coinbase env with
  | Some r => r
  | None => (Err out_of_fuel, env)
  end.

(** ** The block *)

Context (StateAt : Hash -> result S).

Definition createCurrentEnvironment (predicateContext : option (PredicateContext Ctx)) (parent hdr : types.Header)
    : result environment :=
  currentState ← StateAt (types.Root parent);
  capacity ← wrap_err "calculating gas capacity" (header.GasCapacity parent (types.Time hdr));
  let capacityPerSecond := types.GasLimit hdr / lp176.TimeToFillCapacity in
  let minimumBuildableCapacity := types.GasLimit hdr -u capacityPerSecond in
  let minimumBuildableCapacity := Z.min minimumBuildableCapacity legacyStaticGasLimit in
  if capacity <? minimumBuildableCapacity then Err (errorf_w "%d waiting for %d" ErrInsufficientGasCapacityToBuild) else
  gp ← AddGas 0 capacity;
  Ok (mkEnv currentState 0 gp parent hdr [] [] [] 0 0
        (cc_Rules chainConfig (types.Number hdr) (types.Time hdr)) predicateContext NewResults).

Context (rlpHash : list byte -> Hash).
Context (NewBlock_header : types.Header -> Body Transaction -> list (Receipt L) -> types.Header).
(** [EffectiveGasTip] with its error, and its value when the error is dropped *)
Context (EffectiveGasTip : Transaction -> Z -> result Z) (effectiveTip : Transaction -> Z -> Z).
Context (eng : @dummy.DummyEngine Transaction S) (chain : dummy.ChainHeaderReader).
Context (TestOnlyAllowDuplicateBlocks : bool) (HasBlock : Hash -> Z -> bool).

Fixpoint totalFees (baseFee : option Z) (txs : list Transaction) (receipts : list (Receipt L)) : result Z :=
  match txs, receipts with
  | [], _ => Ok 0
  | _ :: _, [] => Panic
  | tx :: txs, r :: receipts =>
      let minerFee :=
        match baseFee with
        | Some baseFee => baseFee + effectiveTip tx baseFee
        | None => tx_GasPrice tx
        end in
      rest ← totalFees baseFee txs receipts;
      Ok (r_GasUsed r * minerFee + rest)
  end.

(** The completed receipts are only counted and logged. *)
Definition handleResult (block : Block Transaction) (unfinishedReceipts : list (Receipt L)) : result (Block Transaction) :=
  if negb TestOnlyAllowDuplicateBlocks && HasBlock (Header_Hash (block_Header block)) (types.Number (block_Header block))
  then Err (errors_New "produced duplicate block (Hash: %s, Number %d)") else
  _ ← totalFees (types.BaseFee (block_Header block)) (block_Transactions block) unfinishedReceipts;
  Ok block.

Definition commit (env : environment) : ExtM (Block Transaction * S) :=
  predicateResultsBytes ← lift (wrap_err "failed to marshal predicate results" (Results_Bytes (predicateResults env)));
  let hdr := types.set_Extra (header env) (types.Extra (header env) ++ predicateResultsBytes) in
  '(_, block, statedb) ← dummy.FinalizeAndAssemble Header_Hash rlpHash NewBlock_header EffectiveGasTip r_GasUsed
    ps_IntermediateRoot eng chain hdr (parent env) (state env) (env_txs env) [] (receipts env);
  block ← lift (handleResult block (receipts env));
  mret (block, statedb).

(** [for _, account := range Locals()]: the accounts with pending transactions move over. *)
Definition split_locals (locals : list Address) (remote : gmap Address (list LazyTransaction))
    : gmap Address (list LazyTransaction) * gmap Address (list LazyTransaction) :=
  fold_left (fun '(local, remote) account =>
    match remote !! account with
    | Some (ltx :: rest) => (<[account := ltx :: rest]> local, delete account remote)
    | _ => (local, remote)
    end) locals (∅, remote).

(** The collections of one group of accounts, if it has any. *)
Definition commitGroup (plain blob : gmap Address (list LazyTransaction)) : StM environment unit := fun env =>
  if (0 <? size plain)%nat || (0 <? size blob)%nat then
    (plainTxs ← lift (newTransactionsByPriceAndNonce plain (types.BaseFee (header env)));
     blobTxs ← lift (newTransactionsByPriceAndNonce blob (types.BaseFee (header env)));
     commitAll plainTxs blobTxs (types.Coinbase (header env))) env
  else (Ok tt, env).

Definition MustFromBig_opt (z : option Z) : result (option Z) :=
  match z with Some z => v ← MustFromBig z; Ok (Some v) | None => Ok None end.

(** The transactions of the pool, locals first. *)
Definition fillTransactions (pool : TxPool) : StM environment unit := fun env =>
  (minTip ← lift (MustFromBig (GasTip pool));
   baseFee ← lift (MustFromBig_opt (types.BaseFee (header env)));
   blobFee ← lift (match types.ExcessBlobGas (header env) with
                   | Some excess =>
                       match eip4844.CalcBlobFee blobFuel excess with
                       | Some fee => v ← MustFromBig fee; Ok (Some v)
                       | None => Err out_of_fuel
                       end
                   | None => Ok None
                   end);
   let '(localPlainTxs, remotePlainTxs) := split_locals (Locals pool) (Pending pool (mkPendingFilter minTip baseFee blobFee true false)) in
   let '(localBlobTxs, remoteBlobTxs) := split_locals (Locals pool) (Pending pool (mkPendingFilter minTip baseFee blobFee false true)) in
   _ ← commitGroup localPlainTxs localBlobTxs;
   commitGroup remotePlainTxs remoteBlobTxs) env.

Context {C : Type} {PC : PrecompileConfig C}.
Context (registered : list (modules.Module (@activation.Configure C S))) (upgrades : list C).

(** The header of the new block; the zero values of the fields that are set later. *)
Definition newHeader (parent : types.Header) (timestamp gasLimit baseFee : Z) (coinbase : Address)
    (blobGasUsed excessBlobGas : option Z) (beaconRoot : option Hash) : types.Header :=
  types.mkHeader (Header_Hash parent) Hash_zero coinbase Hash_zero Hash_zero Hash_zero (replicate 256 Byte.x00) None
    (types.Number parent + 1) gasLimit 0 timestamp [] Hash_zero (replicate 8 Byte.x00) (Some baseFee) blobGasUsed excessBlobGas
    beaconRoot None None None.

(** The blob fields of a Cancun header; the parent's are dereferenced. *)
Definition cancunFields (parent : types.Header) (number timestamp : Z) : result (option Z * option Z * option Hash) :=
  if cc_IsCancun chainConfig number timestamp then
    excessBlobGas ←
      (if cc_IsCancun chainConfig (types.Number parent) (types.Time parent) then
         excess ← deref_opt (types.ExcessBlobGas parent);
         used ← deref_opt (types.BlobGasUsed parent);
         Ok (eip4844.CalcExcessBlobGas excess used)
       else Ok (eip4844.CalcExcessBlobGas 0 0));
    Ok (Some 0, Some excessBlobGas, Some Hash_zero)
  else Ok (None, None, None).

Definition prepareHeader (clockTime : Z) (parent : types.Header) (coinbase : Address) : result types.Header :=
  let timestamp := u64 clockTime in
  let timestamp := if timestamp <=? types.Time parent then types.Time parent else timestamp in
  gasLimit ← wrap_err "calculating new gas limit" (header.GasLimit parent timestamp);
  baseFee ← wrap_err "failed to calculate new base fee" (header.BaseFee parent timestamp);
  '(blobGasUsed, excessBlobGas, beaconRoot) ← cancunFields parent (types.Number parent + 1) timestamp;
  if bool_decide (coinbase = Address_zero) then Err (errors_New "cannot mine without etherbase") else
  Ok (dummy.Prepare (newHeader parent timestamp gasLimit baseFee coinbase blobGasUsed excessBlobGas beaconRoot)).

(** The environment before the first transaction: the beacon root, then the upgrades. *)
Definition prepareEnvironment (predicateContext : option (PredicateContext Ctx)) (parent hdr : types.Header)
    : result environment :=
  env ← wrap_err "failed to create new current environment" (createCurrentEnvironment predicateContext parent hdr);
  s ← match types.ParentBeaconRoot hdr with
      | Some root =>
          context ← NewEVMBlockContext GetHeader blobFuel hdr None;
          Ok (ProcessBeaconBlockRoot (L := L) root context (state env))
      | None => Ok (state env)
      end;
  let '(r, s) := activation.ApplyUpgrades registered upgrades (Some (types.Time parent))
                   (activation.NewBlockContext (types.Number hdr) (types.Time hdr)) s in
  _ ← r;
  Ok (set_state env s).

Definition commitNewWork (clockTime : Z) (currentBlock : types.Header) (coinbase : Address) (pool : TxPool)
    (predicateContext : option (PredicateContext Ctx)) : ExtM (Block Transaction * S) :=
  hdr ← lift (prepareHeader clockTime currentBlock coinbase);
  env ← lift (prepareEnvironment predicateContext currentBlock hdr);
  let '(r, env) := fillTransactions pool env in
  _ ← lift r;
  commit env.

Definition GenerateBlock (clockTime : Z) (currentBlock : types.Header) (coinbase : Address) (pool : TxPool)
    (predicateContext : option (PredicateContext Ctx)) : ExtM (Block Transaction * S) :=
  commitNewWork clockTime currentBlock coinbase pool predicateContext.

End Worker.
#[global] Arguments environment : clear implicits.

End miner.
