(* ===== verification/MinerSpec.v ===== *)
(** * What the miner builds, the processor accepts

    The loop of the miner ends within the fuel it is given. A transaction that fails leaves
    nothing behind; those that are committed, replayed by the block processor from the same
    state with at least the same gas, succeed again with the same receipts. *)

From S2P Require Import Prelude Deps GoStd Lp176 ExtState Fees CustomTypes Header Consensus Predicate Transition Upgrades Processor TransitionSpec ProcessorSpec Ordering OrderingSpec Miner.
Import extstate predicate core corespec processor procspec txpool ordering orderingspec miner.

Module minerspec.

(** ** The loop ends *)

Definition rest_count (m : Queues) : nat := map_fold (fun _ q n => length q + n)%nat 0%nat m.

Lemma rest_count_insert (m : Queues) a x r : m !! a = Some (x :: r) ->
  rest_count m = Datatypes.S (rest_count (<[a := r]> m)).
Proof.
  intros Ha. unfold rest_count. rewrite <- (insert_delete_id m a (x :: r) Ha) at 1. rewrite <- (insert_delete_eq m a r).
  rewrite !map_fold_insert_L; [|intros; cbn; lia|apply lookup_delete_eq|intros; cbn; lia|apply lookup_delete_eq]. done.
Qed.

Lemma Pop_count t t' : wf t -> Pop t = Ok t' -> wf t' /\ (count t' < count t)%nat.
Proof.
  intros Hw. unfold count. destruct (heads t) as [|h l] eqn:Hh; [by unfold Pop; rewrite Hh|].
  intros Hp. destruct (Pop_view t h l Hw Hh) as (t1 & Hp1 & Hw1 & _). rewrite Hp in Hp1. injection Hp1 as <-.
  split; [done|]. unfold Pop in Hp. rewrite Hh in Hp. injection Hp as <-. pose proof (wf_heap t Hw) as Ho. rewrite Hh in Ho.
  destruct (pop_ok h l Ho) as [_ Hl]. cbn [heads txs]. rewrite Hl. cbn. lia.
Qed.

Lemma Shift_count t t' : wf t -> Shift t = Ok t' -> wf t' /\ (count t' < count t)%nat.
Proof.
  intros Hw. destruct (heads t) as [|h l] eqn:Hh; [by unfold Shift; rewrite Hh|].
  intros Hs. destruct (Shift_view t h l Hw Hh) as (t1 & Hs1 & Hw1 & _). rewrite Hs in Hs1. injection Hs1 as <-.
  split; [done|]. unfold Shift in Hs. rewrite Hh in Hs.
  destruct (txs t !! from h) as [[|x r]|] eqn:Ht; [by apply Pop_count in Hs as [_ ?]| |by apply Pop_count in Hs as [_ ?]].
  rewrite newTxWithMinerFee_spec in Hs. destruct (payable (baseFee t) x) eqn:Hp; [|by apply Pop_count in Hs as [_ ?]].
  injection Hs as <-. unfold count. cbn [heads txs insert list_insert]. fold (rest_count (txs t)). rewrite Hh, (rest_count_insert _ _ _ _ Ht).
  pose proof (wf_heap t Hw) as Ho. rewrite Hh in Ho. pose proof (wf_times t Hw _ _ Ht) as Htm.
  destruct (fix_root_ok h l (mkTxWithMinerFee x (from h) (tip (baseFee t) x)) Ho) as [_ Hl]; [by inversion Htm|].
  rewrite Hl. fold (rest_count (<[from h:=r]> (txs t))). cbn [length]. lia.
Qed.

Lemma Clear_wf t : wf t -> wf (Clear t) /\ (count (Clear t) <= count t)%nat.
Proof.
  intros Hw. split; [|unfold count, Clear; cbn; rewrite map_fold_empty; lia].
  split; cbn; [constructor|constructor| |apply map_Forall_empty]. split; [constructor|]. intros k Hk. cbn in Hk. lia.
Qed.

(** ** What an attempt keeps *)

(** The fields of a header that the execution of a block reads. *)

Record header_ctx (h h' : types.Header) : Prop := {
  hc_ParentHash : types.ParentHash h' = types.ParentHash h;
  hc_Coinbase : types.Coinbase h' = types.Coinbase h;
  hc_Difficulty : types.Difficulty h' = types.Difficulty h;
  hc_Number : types.Number h' = types.Number h;
  hc_GasLimit : types.GasLimit h' = types.GasLimit h;
  hc_Time : types.Time h' = types.Time h;
  hc_MixDigest : types.MixDigest h' = types.MixDigest h;
  hc_BaseFee : types.BaseFee h' = types.BaseFee h;
  hc_ExcessBlobGas : types.ExcessBlobGas h' = types.ExcessBlobGas h;
  hc_ParentBeaconRoot : types.ParentBeaconRoot h' = types.ParentBeaconRoot h
}.

Lemma header_ctx_trans a b c : header_ctx a b -> header_ctx b c -> header_ctx a c.
Proof. intros [] []. split; congruence. Qed.
Lemma header_ctx_sym a b : header_ctx a b -> header_ctx b a.
Proof. intros []. by split. Qed.


Section Loop.
Context {SM : SafeMath} {GL : GasLib} {UI : U256Lib} {BL : BitsLib} {SL : SidecarLib} {S Ctx L : Type}.
Context {GDB : GethStateDB S} {DB : VMStateDB S} {AS : ActivationStateDB S} {PS : ProcStateDB L S} {SN : Snapshots S}.
Context {EL : EVMLib S Ctx} {MR : MapRange (list LazyTransaction)}.
Context (IsValidVersionedHash : Hash -> bool).
Context (CreateBloom : list L -> list byte) (CreateAddress : Address -> Z -> Address).
Context (Sender : Transaction -> result Address).
Context (GetHeader : Hash -> Z -> option types.Header) (blobFuel : nat) (Header_Hash : types.Header -> Hash).
Context (config : ChainConfig Ctx) (vmNoBaseFee : bool).

Abbreviation env := (@environment S Ctx L).
Abbreviation commitTransactions := (commitTransactions IsValidVersionedHash CreateBloom CreateAddress Sender GetHeader blobFuel
  Header_Hash config vmNoBaseFee).
Abbreviation tryTransaction := (tryTransaction IsValidVersionedHash CreateBloom CreateAddress Sender GetHeader blobFuel
  Header_Hash config vmNoBaseFee).

Lemma tryTransaction_op cb tx (e e' : env) op : tryTransaction cb tx e = (Ok op, e') -> op = Shift \/ op = Pop.
Proof.
  unfold miner.tryTransaction. destruct (commitTransaction _ _ _ _ _ _ _ _ _ _ _ _) as [[logs|err|] e1]; [..|done].
  - intros [= <- _]. by left.
  - destruct (errors_Is err ErrNonceTooLow); intros [= <- _]; [by left|by right].
Qed.

Lemma clear_full_wf (e : env) t : wf t -> wf (clear_full e t) /\ (count (clear_full e t) <= count t)%nat.
Proof. intros Hw. unfold clear_full. destruct (_ && _); [by apply Clear_wf|done]. Qed.

Lemma on_chosen_count blob op p b p' b' : op = Shift \/ op = Pop -> wf p -> wf b ->
  on_chosen blob op p b = Ok (p', b') -> wf p' /\ wf b' /\ (count p' + count b' < count p + count b)%nat.
Proof.
  intros Hop Hp Hb. unfold on_chosen.
  assert (H : forall t t', wf t -> op t = Ok t' -> wf t' /\ (count t' < count t)%nat).
  { intros t t' Hw Ht. destruct Hop as [-> | ->]; [by apply Shift_count|by apply Pop_count]. }
  destruct blob; cbn.
  - destruct (op b) as [b1|?|] eqn:E; cbn; [|done..]. intros [= <- <-]. apply H in E as [? ?]; [|done]. split_and!; (done || lia).
  - destruct (op p) as [p1|?|] eqn:E; cbn; [|done..]. intros [= <- <-]. apply H in E as [? ?]; [|done]. split_and!; (done || lia).
Qed.

(** C40. The loop of the miner ends: every round commits, skips or drops at least one of the
    transactions it was given, so that it returns within as many rounds as there are
    transactions in the two collections, and one more. *)
Theorem commitTransactions_ends fuel plain blob cb (e : env) :
  wf plain -> wf blob -> (count plain + count blob < fuel)%nat ->
  is_Some (commitTransactions fuel plain blob cb e).
Proof.
  revert plain blob e. induction fuel as [|fuel IH]; intros plain blob e Hp Hb Hf; [lia|]. cbn [miner.commitTransactions].
  case_test; [done|].
  destruct (clear_full_wf e blob Hb) as [Hb1 Hc1]. destruct (clear_full_wf e (clear_full e blob) Hb1) as [Hb2 Hc2].
  set (blob2 := clear_full e (clear_full e blob)) in *. clearbody blob2.
  destruct (ch_ltx (choose plain blob2)) as [ltx|]; [|done].
  destruct (match skips config e ltx with Some _ => _ | None => _ end) as [r e1] eqn:Hop. destruct r as [op|?|]; [|done..].
  assert (Hso : op = Shift \/ op = Pop).
  { destruct (skips config e ltx); [by eapply tryTransaction_op|]. injection Hop as <- _. by right. }
  destruct (on_chosen _ op plain blob2) as [[p' b']|?|] eqn:Hch; [|done..].
  apply on_chosen_count in Hch as (Hp' & Hb' & Hlt); [|done..]. apply IH; (done || lia).
Qed.

(** ** The attempts of a run *)

(** The fields no attempt changes. *)
Record env_kept (e e' : env) : Prop := {
  ek_header : header_ctx (header e) (header e');
  ek_Extra : types.Extra (header e') = types.Extra (header e);
  ek_Nonce : types.Nonce (header e') = types.Nonce (header e);
  ek_parent : miner.parent e' = miner.parent e;
  ek_rules : rules e' = rules e;
  ek_context : predicateContext e' = predicateContext e
}.

#[export] Instance env_kept_preorder : PreOrder env_kept.
Proof.
  split; [by intros e; split|]. intros e1 e2 e3 [] []. split; [by eapply header_ctx_trans|congruence..].
Qed.

Lemma apply_keeps tx cb (e : env) r e' :
  miner.applyTransaction IsValidVersionedHash CreateBloom CreateAddress Sender GetHeader blobFuel Header_Hash config vmNoBaseFee
    tx cb e = (r, e') -> env_kept e e'.
Proof.
  unfold miner.applyTransaction. destruct (Snapshot (state e)) as [snap s].
  destruct (CheckPredicates _ _ tx); [|by intros [= _ <-]; split..].
  destruct (Results_Bytes _); [|by intros [= _ <-]; split..].
  destruct (NewEVMBlockContextWithPredicateResults _ _ _ _ _); [|by intros [= _ <-]; split..].
  destruct (ApplyTransaction _ _ _ _ _ _ _ _ _ _ _) as [[receipt|err|] st]; by intros [= _ <-]; split.
Qed.

Lemma try_keeps cb tx (e : env) r e' : tryTransaction cb tx e = (r, e') -> env_kept e e'.
Proof.
  unfold miner.tryTransaction, commitTransaction, commitBlobTransaction. set (e0 := set_state e _).
  assert (H0 : env_kept e e0) by (by split). clearbody e0.
  assert (Hset : forall e1 txs rs sc n size bg k, env_kept e e1 -> env_kept e (set_tcount (set_committed e1 txs rs sc n size bg) k))
    by (intros e1 txs rs sc n size bg k [[] ? ? ? ? ?]; by split).
  destruct (miner.applyTransaction _ _ _ _ _ _ _ _ _ _ _ _) as [ra e1] eqn:Ha. apply apply_keeps in Ha.
  pose proof (transitivity H0 Ha) as H1. clear Ha.
  destruct (tx_Type tx =? BlobTxType).
  - destruct (tx_Sidecar tx) as [sc|]; [|by intros [= _ <-]]. case_test; [by intros [= _ <-]|].
    destruct ra as [receipt|err|]; [|by intros [= _ <-]..]. destruct (types.BlobGasUsed (header e1)); [|by intros [= _ <-]].
    intros [= _ <-]. by apply Hset.
  - destruct ra as [receipt|err|]; [|by intros [= _ <-]..].
    intros [= _ <-]. by apply Hset.
Qed.

(** The transactions a run tries, in order, and the environments between. *)
Inductive attempts : env -> list Transaction -> env -> Prop :=
| attempts_nil e : attempts e [] e
| attempts_cons e tx op e1 txs e2 :
    tryTransaction (types.Coinbase (header e)) tx e = (Ok op, e1) -> attempts e1 txs e2 -> attempts e (tx :: txs) e2.

Lemma attempts_app e1 l1 e2 l2 e3 : attempts e1 l1 e2 -> attempts e2 l2 e3 -> attempts e1 (l1 ++ l2) e3.
Proof. induction 1; [done|]. intros. econstructor; eauto. Qed.

Lemma attempts_keep e l e' : attempts e l e' -> env_kept e e'.
Proof. induction 1 as [|e tx op e1 txs e2 Ht _ IH]; [done|]. apply try_keeps in Ht. by etrans. Qed.

Section From.
Context {UIs : U256LibSpec} {MRs : MapRangeSpec (list LazyTransaction)}.

(** All the handles of the queues, in some order. *)
Definition handles (q : Queues) : list LazyTransaction := concat (map_to_list q).*2.

Lemma handles_lookup (q : Queues) a l : q !! a = Some l -> handles q ≡ₚ l ++ handles (delete a q).
Proof.
  intros Ha. unfold handles. rewrite <- (insert_delete_id q a l Ha) at 1.
  rewrite map_to_list_insert by apply lookup_delete_eq. done.
Qed.

Lemma elem_of_handles (q : Queues) ltx : ltx ∈ handles q <-> exists a l, q !! a = Some l /\ ltx ∈ l.
Proof.
  unfold handles. rewrite list_elem_of_In, in_concat. split.
  - intros (l & Hl & Hx). apply list_elem_of_In in Hl, Hx. apply list_elem_of_fmap in Hl as ([a l'] & -> & Hin%elem_of_map_to_list). eauto.
  - intros (a & l & Ha & Hx). exists l. rewrite <- !list_elem_of_In. split; [|done]. apply list_elem_of_fmap. exists (a, l).
    by rewrite elem_of_map_to_list.
Qed.

Lemma handles_sub (q q' : Queues) : q' ⊆ q -> handles q' ⊆+ handles q.
Proof.
  revert q. induction q' as [|a l q' Ha IH] using map_ind; intros q Hs; [apply submseteq_nil_l|].
  assert (Hq : q !! a = Some l) by (eapply lookup_weaken; [apply lookup_insert_eq|done]).
  rewrite (handles_lookup q a l Hq), (handles_lookup (<[a := l]> q') a l) by apply lookup_insert_eq.
  apply submseteq_skips_l. rewrite delete_insert_id by done. apply IH.
  rewrite <- (delete_insert_id q' a l Ha). by apply delete_mono.
Qed.

(** The handle that is looked at leaves the collection, with or without the rest of its account. *)
Lemma handles_op t t' op ltx fee : op = Shift \/ op = Pop -> wf t -> Peek t = Some (ltx, fee) -> op t = Ok t' ->
  wf t' /\ ltx :: handles (view t') ⊆+ handles (view t).
Proof.
  intros Hop Hw Hp Ht. pose proof (Peek_view t Hw) as Hpk. destruct (heads t) as [|h l] eqn:Hh; [destruct Hpk; congruence|].
  destruct Hpk as [Hpk [[rest Hq] _]]. rewrite Hp in Hpk. injection Hpk as -> _. rewrite (handles_lookup _ _ _ Hq). cbn.
  destruct Hop as [-> | ->].
  - destruct (Shift_view t h l Hw Hh) as (t1 & Hs & Hw1 & _ & Hv1). rewrite Ht in Hs. injection Hs as <-. split; [done|].
    rewrite Hv1. unfold advance. rewrite Hq. apply submseteq_skip. case_decide.
    + rewrite (handles_lookup _ (from h) rest) by apply lookup_insert_eq. by rewrite delete_insert_eq.
    + apply submseteq_inserts_l. done.
  - destruct (Pop_view t h l Hw Hh) as (t1 & Hs & Hw1 & _ & Hv1). rewrite Ht in Hs. injection Hs as <-. split; [done|].
    rewrite Hv1. apply submseteq_skip, submseteq_inserts_l. done.
Qed.

Lemma handles_Clear (e : env) t : wf t -> wf (clear_full e t) /\ handles (view (clear_full e t)) ⊆+ handles (view t).
Proof. intros Hw. unfold clear_full. destruct (_ && _); [|done]. split; [by apply Clear_wf|apply submseteq_nil_l]. Qed.

Lemma choose_spec p b ltx : ch_ltx (choose p b) = Some ltx ->
  exists fee, Peek (if ch_blob (choose p b) then b else p) = Some (ltx, fee).
Proof.
  unfold choose. destruct (Peek p) as [[pl pt]|] eqn:Ep, (Peek b) as [[bl bt]|] eqn:Eb; cbn; [|intros [= <-]; eauto..|done].
  case_test; cbn; intros [= <-]; eauto.
Qed.

(** The transactions behind some of the handles. *)
Definition taken (txs : list Transaction) (hs : list LazyTransaction) : Prop :=
  exists l, Forall2 (fun ltx tx => Resolve ltx = Some tx) l txs /\ l ⊆+ hs.

Lemma taken_nil hs : taken [] hs.
Proof. exists []. split; [constructor|apply submseteq_nil_l]. Qed.
Lemma taken_app t1 t2 h1 h2 : taken t1 h1 -> taken t2 h2 -> taken (t1 ++ t2) (h1 ++ h2).
Proof. intros (l1 & H1 & S1) (l2 & H2 & S2). exists (l1 ++ l2). split; [by apply Forall2_app|by apply submseteq_app]. Qed.
Lemma taken_sub txs h1 h2 : h1 ⊆+ h2 -> taken txs h1 -> taken txs h2.
Proof. intros Hs (l & Hl & Hlh). exists l. split; [done|by etrans]. Qed.

Lemma skips_resolve (e : env) ltx tx : skips config e ltx = Some tx -> Resolve ltx = Some tx.
Proof.
  unfold skips. destruct (_ <? _); [done|]. destruct (_ <? _); [done|].
  destruct (Resolve ltx) as [tx'|]; [|done]. destruct (_ <? _); [done|]. by destruct (_ && _).
Qed.

Lemma loop_attempts fuel plain blob (e e' : env) :
  wf plain -> wf blob ->
  commitTransactions fuel plain blob (types.Coinbase (header e)) e = Some (Ok tt, e') ->
  exists txs, attempts e txs e' /\ taken txs (handles (view plain) ++ handles (view blob)).
Proof.
  revert plain blob e. induction fuel as [|fuel IH]; intros plain blob e Hp Hb; [done|]. cbn [miner.commitTransactions].
  assert (Hnil : exists txs, attempts e txs e /\ taken txs (handles (view plain) ++ handles (view blob)))
    by (exists []; split; [constructor|apply taken_nil]).
  case_test; [by intros [= <-]|]. destruct (handles_Clear e _ Hb) as [Hb1 Hs1]. destruct (handles_Clear e _ Hb1) as [Hb2 Hs2].
  set (blob2 := clear_full e (clear_full e blob)) in *. clearbody blob2.
  destruct (ch_ltx (choose plain blob2)) as [ltx|] eqn:Hch; [|by intros [= <-]]. apply choose_spec in Hch as [fee Hpk].
  destruct (match skips config e ltx with Some _ => _ | None => _ end) as [r e1] eqn:Hop. destruct r as [op|?|]; [|done..].
  assert (Hstep : (op = Shift \/ op = Pop) /\ env_kept e e1 /\ exists l, attempts e l e1 /\ taken l [ltx]).
  { destruct (skips config e ltx) as [tx|] eqn:Hsk.
    - split_and!; [by eapply tryTransaction_op|by eapply try_keeps|]. exists [tx]. split; [econstructor; [done|constructor]|].
      exists [ltx]. split; [|done]. apply skips_resolve in Hsk. by repeat constructor.
    - injection Hop as <- <-. split_and!; [by right|done|]. exists []. split; [constructor|apply taken_nil]. }
  destruct Hstep as (Hso & [Hk _ _ _ _ _] & l & Hl & HP). unfold on_chosen. rewrite <- (hc_Coinbase _ _ Hk).
  assert (Hnext : forall p' b', wf p' -> wf b' -> ltx :: handles (view p') ++ handles (view b') ⊆+ handles (view plain) ++ handles (view blob) ->
    commitTransactions fuel p' b' (types.Coinbase (header e1)) e1 = Some (Ok tt, e') ->
    exists txs, attempts e txs e' /\ taken txs (handles (view plain) ++ handles (view blob))).
  { intros p' b' Hp' Hb' Hs Hrun. destruct (IH p' b' e1 Hp' Hb' Hrun) as (l2 & Hl2 & HP2).
    exists (l ++ l2). split; [by eapply attempts_app|]. eapply taken_sub; [exact Hs|]. by apply (taken_app _ _ [ltx]). }
  destruct (ch_blob (choose plain blob2)); cbn.
  - destruct (op blob2) as [b'|?|] eqn:Hb'; cbn; [|done..]. destruct (handles_op _ _ _ _ _ Hso Hb2 Hpk Hb') as [Hw' Hs']. apply Hnext; [done|done|].
    rewrite Permutation_middle. apply submseteq_skips_l. by repeat (etrans; [eassumption|]).
  - destruct (op plain) as [p'|?|] eqn:Hp'; cbn; [|done..]. destruct (handles_op _ _ _ _ _ Hso Hp Hpk Hp') as [Hw' Hs']. apply Hnext; [done|done|].
    apply (submseteq_app (ltx :: _)); [done|]. by etrans.
Qed.

Abbreviation commitGroup := (commitGroup IsValidVersionedHash CreateBloom CreateAddress Sender GetHeader blobFuel
  Header_Hash config vmNoBaseFee).
Abbreviation fillTransactions := (fillTransactions IsValidVersionedHash CreateBloom CreateAddress Sender GetHeader blobFuel
  Header_Hash config vmNoBaseFee).

Lemma queues_ok_sub m m' : m' ⊆ m -> queues_ok m -> queues_ok m'.
Proof. intros Hs H1 a q Ha. eapply lookup_weaken in Ha; eauto. Qed.

(** The accounts are split in two. *)
Lemma split_locals_sub locals m : fst (split_locals locals m) ⊆ m /\ snd (split_locals locals m) ⊆ m /\
  handles (fst (split_locals locals m)) ++ handles (snd (split_locals locals m)) ⊆+ handles m.
Proof.
  unfold split_locals. assert (H : forall acc : Queues * Queues, fst acc ⊆ m -> snd acc ⊆ m -> fst acc ##ₘ snd acc ->
    handles (fst acc) ++ handles (snd acc) ⊆+ handles m ->
    let acc' := fold_left (fun '(local, remote) account =>
      match remote !! account with
      | Some (ltx :: rest) => (<[account := ltx :: rest]> local, delete account remote)
      | _ => (local, remote)
      end) locals acc in fst acc' ⊆ m /\ snd acc' ⊆ m /\ handles (fst acc') ++ handles (snd acc') ⊆+ handles m).
  { induction locals as [|a locals IH]; intros [l r] Hl Hr Hd Hs; cbn in *; [done|].
    destruct (r !! a) as [[|x q]|] eqn:Ha; [by apply IH| |by apply IH]. assert (Hla : l !! a = None) by (by eapply map_disjoint_Some_r).
    apply IH; cbn.
    - apply insert_subseteq_l; [by eapply lookup_weaken|done].
    - etrans; [apply delete_subseteq|done].
    - apply map_disjoint_insert_l_2; [apply lookup_delete_eq|]. by apply map_disjoint_delete_r.
    - rewrite (handles_lookup _ a _ (lookup_insert_eq l a (x :: q))), delete_insert_id by done.
      rewrite (handles_lookup r a _ Ha) in Hs. etrans; [|exact Hs]. rewrite !app_assoc. apply submseteq_app; [|done].
      by rewrite Permutation_app_comm. }
  apply H; cbn; [apply map_empty_subseteq|done|apply map_disjoint_empty_l|done].
Qed.

Lemma new_handles m b t : queues_ok m -> baseFee_ok b -> newTransactionsByPriceAndNonce m b = Ok t ->
  wf t /\ handles (view t) ⊆+ handles m.
Proof.
  intros Hq Hb Ht. destruct (new_view m b Hq Hb) as (t' & Ht' & Hw & _ & Hv). rewrite Ht in Ht'. injection Ht' as <-.
  split; [done|]. rewrite Hv. apply handles_sub, map_filter_subseteq.
Qed.

Lemma group_attempts plain blob (e e' : env) :
  baseFee_ok (types.BaseFee (header e)) -> queues_ok plain -> queues_ok blob ->
  commitGroup plain blob e = (Ok tt, e') -> exists txs, attempts e txs e' /\ taken txs (handles plain ++ handles blob).
Proof.
  intros Hb256 Hp Hb. unfold miner.commitGroup. destruct (_ || _); [|intros [= <-]; exists []; split; [constructor|apply taken_nil]].
  rewrite lift_bind. destruct (newTransactionsByPriceAndNonce plain _) as [pt|?|] eqn:Hpt; [|done..]. rewrite lift_bind.
  destruct (newTransactionsByPriceAndNonce blob _) as [bt|?|] eqn:Hbt; [|done..].
  apply new_handles in Hpt as [Hpw Hps], Hbt as [Hbw Hbs]; [|done..]. unfold commitAll.
  destruct (commitTransactions _ pt bt _ e) as [[r e1]|] eqn:Hrun; [|done]. intros [= -> ->].
  apply loop_attempts in Hrun as (txs & Ha & Ht); [|done..]. exists txs. split; [done|]. eapply taken_sub; [|done]. by apply submseteq_app.
Qed.

(** What the pool hands out in one answer to the two questions the miner has. *)
Definition offered (pool : TxPool) minTip baseFee blobFee : list LazyTransaction :=
  handles (Pending pool (mkPendingFilter minTip baseFee blobFee true false)) ++
  handles (Pending pool (mkPendingFilter minTip baseFee blobFee false true)).

Lemma fill_attempts pool (e e' : env) :
  baseFee_ok (types.BaseFee (header e)) -> (forall filter, queues_ok (Pending pool filter)) ->
  fillTransactions pool e = (Ok tt, e') ->
  exists txs minTip baseFee blobFee, attempts e txs e' /\ taken txs (offered pool minTip baseFee blobFee).
Proof.
  intros Hb256 Hpool. unfold miner.fillTransactions. rewrite lift_bind.
  destruct (MustFromBig (GasTip pool)) as [minTip|?|]; [|done..]. rewrite lift_bind.
  destruct (MustFromBig_opt _) as [baseFee|?|]; [|done..]. rewrite lift_bind.
  destruct (match types.ExcessBlobGas _ with Some _ => _ | None => _ end) as [blobFee|?|]; [|done..].
  pose proof (split_locals_sub (Locals pool) (Pending pool (mkPendingFilter minTip baseFee blobFee true false))) as (Hlp & Hrp & Hsp).
  pose proof (split_locals_sub (Locals pool) (Pending pool (mkPendingFilter minTip baseFee blobFee false true))) as (Hlb & Hrb & Hsb).
  destruct (split_locals _ (Pending pool (mkPendingFilter minTip baseFee blobFee true false))) as [lp rp].
  destruct (split_locals _ (Pending pool (mkPendingFilter minTip baseFee blobFee false true))) as [lb rb]. cbn [fst snd] in *.
  intros H. apply bindM_run in H as ([] & e1 & H1 & H2).
  apply group_attempts in H1 as (l1 & Hl1 & HP1); [|done|by eapply queues_ok_sub|by eapply queues_ok_sub].
  destruct (attempts_keep _ _ _ Hl1) as [Hk _ _ _ _ _].
  apply group_attempts in H2 as (l2 & Hl2 & HP2); [|by rewrite (hc_BaseFee _ _ Hk)|by eapply queues_ok_sub|by eapply queues_ok_sub].
  exists (l1 ++ l2), minTip, baseFee, blobFee. split; [by eapply attempts_app|].
  eapply taken_sub; [|by eapply taken_app]. unfold offered. etrans; [|by apply submseteq_app].
  rewrite <- !app_assoc. apply submseteq_skips_l. rewrite !app_assoc. apply submseteq_skips_r. by rewrite Permutation_app_comm.
Qed.

(** The pool hands out what it should: the transactions have the property. *)
Definition lazy_ok (P : Transaction -> Prop) (ltx : LazyTransaction) : Prop := forall tx, Resolve ltx = Some tx -> P tx.
Definition pool_ok (P : Transaction -> Prop) (pool : TxPool) : Prop :=
  forall filter, queues_ok (Pending pool filter) /\ map_Forall (fun _ q => Forall (lazy_ok P) q) (Pending pool filter).
(** No transaction is offered twice. *)
Definition pool_distinct (pool : TxPool) : Prop := forall minTip baseFee blobFee,
  NoDup (tx_Hash <$> omap Resolve (offered pool minTip baseFee blobFee)).

Lemma taken_P P pool minTip baseFee blobFee txs : pool_ok P pool -> taken txs (offered pool minTip baseFee blobFee) -> Forall P txs.
Proof.
  intros Hok (l & Hl & Hs). apply list.Forall_forall. intros tx Htx. apply list_elem_of_lookup in Htx as [i Hi].
  destruct (Forall2_lookup_r _ _ _ _ _ Hl Hi) as (ltx & Hli & Hr).
  apply list_elem_of_lookup_2 in Hli. pose proof (elem_of_submseteq _ _ _ Hli Hs) as Hin.
  apply elem_of_app in Hin as [Hin|Hin]; apply elem_of_handles in Hin as (a & q & Ha & Hq);
    apply Hok in Ha; rewrite list.Forall_forall in Ha; by apply (Ha ltx Hq).
Qed.

Lemma taken_distinct pool minTip baseFee blobFee txs :
  pool_distinct pool -> taken txs (offered pool minTip baseFee blobFee) -> NoDup (tx_Hash <$> txs).
Proof.
  intros Hd (l & Hl & Hs). assert (omap Resolve l = txs) as <- by (clear Hs; induction Hl as [|? ? ? ? Hr ? IH]; [done|]; cbn; by rewrite Hr, IH).
  apply submseteq_Permutation in Hs as [k Hk]. specialize (Hd minTip baseFee blobFee).
  rewrite Hk, omap_app, fmap_app in Hd. by apply list.NoDup_app in Hd as [? _].
Qed.

End From.

End Loop.

(** ** What a state answers

    Two states are the same to the code when every operation answers the same on them and
    leaves states that are the same again; the revisions a snapshot records are not asked for. *)

Class StateEquiv {S Ctx L : Type} {GDB : GethStateDB S} {DB : VMStateDB S} {AS : ActivationStateDB S}
    {PS : ProcStateDB L S} {SN : Snapshots S} {EL : EVMLib S Ctx} (equ : relation S) : Prop := {
  equ_equivalence :: Equivalence equ;
  equ_GetBalance s s' a : equ s s' -> geth_GetBalance s a = geth_GetBalance s' a;
  equ_GetNonce s s' a : equ s s' -> geth_GetNonce s a = geth_GetNonce s' a;
  equ_GetCodeHash s s' a : equ s s' -> vm_GetCodeHash s a = vm_GetCodeHash s' a;
  equ_SubBalance a v :: Proper (equ ==> equ) (fun s => geth_SubBalance s a v);
  equ_AddBalance a v :: Proper (equ ==> equ) (fun s => geth_AddBalance s a v);
  equ_SetNonce a n :: Proper (equ ==> equ) (fun s => geth_SetNonce s a n);
  equ_Finalise b :: Proper (equ ==> equ) (act_Finalise b);
  equ_SetTxContext h i :: Proper (equ ==> equ) (ps_SetTxContext h i);
  equ_TxIndex s s' : equ s s' -> ps_TxIndex s = ps_TxIndex s';
  equ_GetLogs s s' h n bh t : equ s s' -> ps_GetLogs (L := L) s h n bh t = ps_GetLogs s' h n bh t;
  equ_IntermediateRoot b :: Proper (equ ==> prod_relation eq equ) (fun s => ps_IntermediateRoot s b);
  equ_Prepare rules from coinbase to al :: Proper (equ ==> equ) (lib_Prepare (Ctx := Ctx) rules from coinbase to al);
  equ_Create bc tc from data gas value ::
    Proper (equ ==> prod_relation eq equ) (lib_Create (Ctx := Ctx) bc tc from data gas value);
  equ_Call bc tc from to data gas value ::
    Proper (equ ==> prod_relation eq equ) (lib_Call (Ctx := Ctx) bc tc from to data gas value);
  (* a transaction context replaces the one before *)
  equ_SetTxContext_twice h i h' i' s : equ (ps_SetTxContext h i (ps_SetTxContext h' i' s)) (ps_SetTxContext h i s);
  (* a snapshot changes nothing but its revisions, and a revert to it undoes what came after *)
  equ_Snapshot s : equ (snd (Snapshot s)) s;
  equ_Revert s : equ (RevertToSnapshot (fst (Snapshot s)) (snd (Snapshot s))) s;
  equ_Revert_SubBalance s a v :
    equ (RevertToSnapshot (fst (Snapshot s)) (geth_SubBalance (snd (Snapshot s)) a v)) s
}.

(** The part of a log that does not depend on the hash of the block, which is all a bloom reads. *)
Class LogsSpec {S L X : Type} {PS : ProcStateDB L S} (CreateBloom : list L -> list byte) (log_core : L -> X) : Prop := {
  CreateBloom_core l l' : log_core <$> l = log_core <$> l' -> CreateBloom l = CreateBloom l';
  GetLogs_core s h n bh bh' t : log_core <$> ps_GetLogs s h n bh t = log_core <$> ps_GetLogs s h n bh' t
}.

(** A transaction without its sidecar is the same transaction. *)
Class SidecarSpec {SL : SidecarLib} (Sender : Transaction -> result Address) : Prop := {
  Sidecar_Sender tx : Sender (WithoutBlobTxSidecar tx) = Sender tx;
  Sidecar_fields tx : exists size, WithoutBlobTxSidecar tx =
    mkTransaction (tx_Hash tx) (tx_Nonce tx) (tx_Gas tx) (tx_GasPrice tx) (tx_GasFeeCap tx) (tx_GasTipCap tx) (tx_To tx)
      (tx_Value tx) (tx_Data tx) (tx_AccessList tx) (tx_BlobHashes tx) (tx_BlobGasFeeCap tx) (tx_Type tx) size None (tx_Protected tx)
}.

Section Replay.
Context {SM : SafeMath} {SMs : SafeMathSpec SM} {UI : U256Lib} {UIs : U256LibSpec} {GL : GasLib} {BL : BitsLib} {SL : SidecarLib}.
Context {S Ctx L X : Type}.
Context {GDB : GethStateDB S} {DB : VMStateDB S} {AS : ActivationStateDB S} {PS : ProcStateDB L S} {SN : Snapshots S}.
Context {EL : EVMLib S Ctx} {MR : MapRange (list LazyTransaction)} {MRs : MapRangeSpec (list LazyTransaction)}.
Context (supply : S -> Z) {SPs : SupplySpec supply} {ES : EVMLibSpec supply}.
Context (equ : relation S) {SE : StateEquiv (Ctx := Ctx) (L := L) equ}.
Context (IsValidVersionedHash : Hash -> bool).
Context (CreateBloom : list L -> list byte) (log_core : L -> X) {LS : LogsSpec (S := S) CreateBloom log_core}.
Context (CreateAddress : Address -> Z -> Address).
Context (Sender : Transaction -> result Address) {SS : SidecarSpec Sender}.
Context (GetHeader : Hash -> Z -> option types.Header) (blobFuel : nat) (Header_Hash : types.Header -> Hash).
Context (config : ChainConfig Ctx).

(** *** A message *)

Lemma checkAccount_equ msg s s' : equ s s' -> checkAccount msg s = checkAccount msg s'.
Proof. intros Hs. unfold checkAccount. by rewrite !(equ_GetNonce _ _ _ Hs), (equ_GetCodeHash _ _ _ Hs). Qed.

(** A transition with more in the pool, from a state that is the same. *)
Definition st_equ (d : Z) (st st' : @StateTransition S) : Prop :=
  st_gp st' = st_gp st + d /\ gasRemaining st' = gasRemaining st /\ initialGas st' = initialGas st /\
  equ (st_state st) (st_state st').

Lemma preCheck_equ (evm : EVM S Ctx) msg d st st' st1 :
  st_equ d st st' -> 0 <= d -> preCheck IsValidVersionedHash evm msg st = (Ok tt, st1) ->
  exists st1', preCheck IsValidVersionedHash evm msg st' = (Ok tt, st1') /\ st_equ d st1 st1' /\
    st_gp st1 = st_gp st - GasLimit msg /\ (gasRemaining st = 0 -> gasRemaining st1 = u64 (GasLimit msg)).
Proof.
  intros (Hgp & Hgr & Hig & Hs) Hd H. apply preCheck_iff in H as (Hacc & Hfees & Hbh & Hbf & Hbuy).
  apply buyGas_iff in Hbuy as (bc & mg & Hcost & Hfit & Hbal & Hpool & ->).
  eexists (bought msg mg st'). split.
  - apply preCheck_iff. split_and!; try done.
    + intros Hskip. rewrite <- (checkAccount_equ _ _ _ Hs). by apply Hacc.
    + apply buyGas_iff. exists bc, mg. rewrite <- (equ_GetBalance _ _ _ Hs). split_and!; (done || lia).
  - unfold bought, st_equ. cbn. rewrite Hgr, Hgp. split_and!; try done; try lia.
    + by apply (equ_SubBalance (From msg) (fst (FromBig mg))).
    + intros ->. done.
Qed.

Lemma execute_equ nb bc tc msg value d st st' ret vmerr st1 :
  st_equ d st st' -> 0 <= gasRemaining st ->
  execute (NewEVM config nb bc tc) msg value st = (Ok (ret, vmerr), st1) ->
  exists st1', execute (NewEVM config nb bc tc) msg value st' = (Ok (ret, vmerr), st1') /\ st_equ d st1 st1' /\
    st_gp st1 = st_gp st /\ 0 <= gasRemaining st1 <= gasRemaining st.
Proof.
  intros (Hgp & Hgr & Hig & Hs) Hg H.
  pose proof (execute_run supply _ _ _ _ _ _ _ Hg H) as (Hgp1 & Hig1 & Hle & _).
  unfold execute in *. rewrite Hgr. cbn [Create Call NewEVM] in *. destruct (To msg) as [to|].
  - set (n := geth_GetNonce (st_state st) (From msg)) in *. rewrite <- (equ_GetNonce _ _ (From msg) Hs). fold n.
    pose proof (equ_SetNonce (From msg) (u64 (n + 1)) _ _ Hs) as Hs1. cbn in Hs1.
    pose proof (equ_Call bc tc (From msg) to (Data msg) (gasRemaining st) value _ _ Hs1) as [Hf He].
    destruct (lib_Call _ _ _ _ _ _ _ (geth_SetNonce (st_state st) _ _)) as [[[ret1 left1] err1] s1].
    destruct (lib_Call _ _ _ _ _ _ _ (geth_SetNonce (st_state st') _ _)) as [[[ret2 left2] err2] s2].
    cbn in Hf. injection Hf as <- <- <-. injection H as <- <- <-. eexists. split; [done|]. done.
  - pose proof (equ_Create bc tc (From msg) (Data msg) (gasRemaining st) value _ _ Hs) as [Hf He].
    destruct (lib_Create _ _ _ _ _ _ (st_state st)) as [[[ret1 left1] err1] s1].
    destruct (lib_Create _ _ _ _ _ _ (st_state st')) as [[[ret2 left2] err2] s2].
    cbn in Hf. injection Hf as <- <- <-. injection H as <- <- <-. eexists. split; [done|]. done.
Qed.

Lemma AddGas_Ok gp amount gp' : AddGas gp amount = Ok gp' <-> gp + amount <= MaxUint64 /\ gp' = gp + amount.
Proof.
  unfold AddGas. case_test; split.
  - done.
  - intros [? ?]. lia.
  - intros [= <-]. lia.
  - by intros [_ ->].
Qed.

Lemma ApplyMessage_equ nb bc tc msg d gp s s' r t :
  rules_ok (cc_Rules config (bc_BlockNumber bc) (bc_Time bc)) -> is_u64 (GasLimit msg) ->
  equ s s' -> 0 <= d -> gp + d <= MaxUint64 ->
  ApplyMessage IsValidVersionedHash (NewEVM config nb bc tc) msg gp s = (Ok r, t) ->
  exists t', ApplyMessage IsValidVersionedHash (NewEVM config nb bc tc) msg (gp + d) s' = (Ok r, t') /\ st_equ d t t' /\
    st_gp t <= gp.
Proof.
  intros Hrules Hlim Hs Hd Hmax H. unfold ApplyMessage in *.
  apply TransitionDb_iff in H as (st1 & gas & value & price & ret & vmerr & st2 & gp2 & Hpre & Hrun & Hexec & Hprice & Hadd & -> & ->).
  assert (H0 : st_equ d (NewStateTransition gp s) (NewStateTransition (gp + d) s')) by done.
  destruct (preCheck_equ _ _ _ _ _ _ H0 Hd Hpre) as (st1' & Hpre' & H1 & Hgp1 & Hgr1). specialize (Hgr1 eq_refl).
  destruct H1 as (Hgp & Hgr & Hig & Hs1). destruct Hrun as (Hgas & Hle & Hval & Hcan & Hsize).
  pose proof (IntrinsicGas_u64 _ _ _ _ _ Hrules Hgas) as Hgu. rewrite (u64_small _ Hlim) in Hgr1.
  set (evm := NewEVM config nb bc tc) in *.
  assert (Hp : st_equ d (prepared evm msg gas st1) (prepared evm msg gas st1')).
  { unfold prepared, st_equ. cbn. rewrite Hgr. split_and!; try done.
    by apply (equ_Prepare (cc_Rules config (bc_BlockNumber bc) (bc_Time bc))). }
  assert (Hrem : gasRemaining (prepared evm msg gas st1) = GasLimit msg - gas).
  { cbn. rewrite Hgr1. apply u64_small. u64_lia. }
  destruct (execute_equ _ _ _ _ _ _ _ _ _ _ _ Hp ltac:(u64_lia) Hexec) as (st2' & Hexec' & H2 & Hgp2 & Hle2).
  destruct H2 as (Hgp' & Hgr' & Hig' & Hs2). apply AddGas_Ok in Hadd as [Hadd ->].
  cbn in Hgp2, Hgp1. eexists. split.
  - apply TransitionDb_iff. exists st1', gas, value, price, ret, vmerr, st2', (st_gp st2' + gasRemaining st2').
    split_and!; try done.
    + split_and!; try done; [lia|]. by rewrite <- (equ_GetBalance _ _ _ Hs1).
    + apply AddGas_Ok. rewrite Hgp', Hgr'. u64_lia.
    + unfold gasUsed. by rewrite Hgr', Hig'.
  - unfold settled, st_equ, gasUsed. cbn. rewrite Hgr', Hig', Hgp'. split_and!; try done; [lia| |u64_lia].
    apply (equ_AddBalance _ _), (equ_AddBalance _ _), Hs2.
Qed.

(** An error leaves the state as it was, or with the gas taken from the sender. *)
Lemma BitLen_bound z : BitLen z <= 256 -> z < 2 ^ 256.
Proof.
  unfold BitLen. case_test; [lia|]. intros Hl. apply Z.le_lt_trans with (Z.abs z); [lia|].
  apply Z.log2_lt_pow2; lia.
Qed.

Lemma execute_total (evm : EVM S Ctx) msg value st :
  exists ret vmerr st', execute evm msg value st = (Ok (ret, vmerr), st').
Proof.
  unfold execute. destruct (match To msg with Some _ => _ | None => _ end) as [[[ret gasleft] vmerr] s2]. by eexists _, _, _.
Qed.

Lemma TransitionDb_Err (evm : EVM S Ctx) msg st e st' :
  evm_IsLondon evm = true -> NoBaseFee evm = false -> well_priced msg ->
  TransitionDb IsValidVersionedHash evm msg st = (Err e, st') ->
  st_state st' = st_state st \/ exists v, st_state st' = geth_SubBalance (st_state st) (From msg) v.
Proof.
  intros Hlon Hnb (_ & Hp0 & _ & feeCap & Hcap & Hple) H. unfold TransitionDb in H.
  destruct (preCheck IsValidVersionedHash evm msg st) as [rp st1] eqn:Hpre. destruct rp as [[]|e1|]; cycle 1.
  { left. unfold mbind, StM_bind in H. rewrite Hpre in H. injection H as _ <-. by apply preCheck_fails in Hpre as ->. }
  { unfold mbind, StM_bind in H. rewrite Hpre in H. done. }
  rewrite (bindM_step _ _ _ _ _ Hpre) in H. right.
  apply preCheck_iff in Hpre as (_ & Hfees & _ & _ & Hbuy). apply buyGas_iff in Hbuy as (bc & mg & _ & _ & _ & _ & ->).
  exists (fst (FromBig mg)). rewrite lift_bind in H.
  destruct (IntrinsicGas _ _ _ _) as [gas|e2|]; [|by injection H as _ <-|done].
  rewrite (bindM_step get _ _ _ _ eq_refl) in H. destruct (gasRemaining _ <? gas); [by injection H as _ <-|].
  rewrite (bindM_step (set_gasRemaining _) _ _ tt _ eq_refl) in H. destruct (FromBig (Value msg)) as [value o].
  destruct o; [by injection H as _ <-|]. destruct (_ && _); [by injection H as _ <-|]. destruct (_ && _); [by injection H as _ <-|].
  exfalso. rewrite (bindM_step (update_state _) _ _ tt _ eq_refl) in H.
  match type of H with _ ?st1 = _ => destruct (execute_total evm msg value st1) as (ret & vmerr & st2 & Hx) end.
  rewrite (bindM_step _ _ _ _ _ Hx) in H. cbn in H.
  assert (Hfit : FromBig (GasPrice msg) = (GasPrice msg, false)).
  { apply FromBig_fits. split; [done|]. specialize (Hfees Hlon). unfold checkFees in Hfees. rewrite Hnb, Hcap in Hfees. cbn in Hfees.
    destruct (Z.ltb_spec 256 (BitLen feeCap)); [done|]. pose proof (BitLen_bound feeCap). lia. }
  rewrite Hfit in H. unfold refundGas, MustFromBig in H. rewrite Hfit in H.
  unfold mbind, StM_bind, get, set_gasRemaining, lift, update_state, set_gp, mret, StM_ret in H. cbn in H.
  destruct (AddGas _ _) as [gp|e3|] eqn:Hadd; [done| |done]. unfold AddGas in Hadd. by destruct (_ <? _).
Qed.

(** *** A transaction *)

Abbreviation PapplyTransaction := (processor.applyTransaction IsValidVersionedHash CreateBloom CreateAddress config).
Abbreviation PApplyTransaction := (processor.ApplyTransaction IsValidVersionedHash CreateBloom CreateAddress config Sender false).
Abbreviation process_txs := (process_txs IsValidVersionedHash CreateBloom CreateAddress config Sender false).

(** A receipt but for the hash of the block, in itself and in its logs. *)
Definition receipt_core (r : Receipt L) : Receipt X :=
  mkReceipt (r_Type r) (r_PostState r) (r_Status r) (r_CumulativeGasUsed r) (r_Bloom r) (log_core <$> r_Logs r) (r_TxHash r)
    (r_ContractAddress r) (r_GasUsed r) (r_BlobGasUsed r) (r_BlobGasPrice r) Hash_zero (r_BlockNumber r) (r_TransactionIndex r).

Definition ex_equ (d : Z) (st st' : @Exec S) : Prop :=
  ex_gp st' = ex_gp st + d /\ ex_usedGas st' = ex_usedGas st /\ equ (ex_state st) (ex_state st').

(** What the execution reads of a transaction beside its message. *)
Definition same_tx (tx tx' : Transaction) : Prop :=
  tx_Hash tx' = tx_Hash tx /\ tx_Nonce tx' = tx_Nonce tx /\ tx_Type tx' = tx_Type tx /\ tx_BlobHashes tx' = tx_BlobHashes tx /\
  forall baseFee, TransactionToMessage Sender tx' baseFee = TransactionToMessage Sender tx baseFee.

Lemma same_tx_sidecar tx : same_tx tx (WithoutBlobTxSidecar tx).
Proof.
  pose proof (Sidecar_Sender tx) as Hs. destruct (Sidecar_fields tx) as [size Hf].
  unfold same_tx, TransactionToMessage. rewrite Hs, Hf. cbn. by split_and!.
Qed.

Lemma apply_equ msg context tc number bh bh' time tx tx' d st st' r st1 :
  rules_ok (cc_Rules config (bc_BlockNumber context) (bc_Time context)) -> is_u64 (GasLimit msg) -> same_tx tx tx' ->
  ex_equ d st st' -> 0 <= d -> ex_gp st' <= MaxUint64 ->
  PapplyTransaction msg number bh time tx (NewEVM config false context tc) st = (Ok r, st1) ->
  exists r' st1', PapplyTransaction msg number bh' time tx' (NewEVM config false context tc) st' = (Ok r', st1') /\
    receipt_core r' = receipt_core r /\ ex_equ d st1 st1' /\ ex_gp st1 <= ex_gp st.
Proof.
  intros Hrules Hlim (Hhash & Hnonce & Htype & Hblob & _) (Hgp & Hused & Hs) Hd Hmax. unfold processor.applyTransaction.
  destruct (ApplyMessage _ _ msg (ex_gp st) _) as [[res|e|] t] eqn:Ha; [|done..]. rewrite Hgp in *.
  destruct (ApplyMessage_equ _ _ _ _ _ _ _ _ _ _ Hrules Hlim Hs Hd Hmax Ha) as (t' & -> & (Hgp' & _ & _ & Hst) & Hpool).
  assert (Hroot : forall root s1, (if cc_IsByzantium config number then ([], act_Finalise true (st_state t))
      else ps_IntermediateRoot (st_state t) (cc_IsEIP158 config number)) = (root, s1) ->
    exists s1', (if cc_IsByzantium config number then ([], act_Finalise true (st_state t'))
      else ps_IntermediateRoot (st_state t') (cc_IsEIP158 config number)) = (root, s1') /\ equ s1 s1').
  { intros root s1. destruct (cc_IsByzantium config number).
    - intros [= <- <-]. eexists. split; [done|]. by apply equ_Finalise.
    - intros Hr. pose proof (equ_IntermediateRoot (cc_IsEIP158 config number) _ _ Hst) as [Hf He]. cbn in Hf, He. rewrite Hr in Hf, He.
      destruct (ps_IntermediateRoot (st_state t') _) as [root' s1']. cbn in *. subst root'. by exists s1'. }
  destruct (if cc_IsByzantium config number then _ else _) as [root s1]. destruct (Hroot root s1 eq_refl) as (s1' & -> & Hs1).
  rewrite Hhash, Hnonce, Htype, Hblob, Hused. intros [= <- <-]. eexists _, _. split; [done|].
  assert (Hlogs : log_core <$> ps_GetLogs s1' (tx_Hash tx) number bh' time = log_core <$> ps_GetLogs s1 (tx_Hash tx) number bh time).
  { rewrite (equ_GetLogs _ _ _ _ _ _ Hs1). apply GetLogs_core. }
  split; [|split; [by split_and!|done]]. unfold receipt_core. cbn. by rewrite Hlogs, (CreateBloom_core _ _ Hlogs), (equ_TxIndex _ _ Hs1).
Qed.

(** *** The context of the block under construction *)

Lemma context_same h h' : header_ctx h h' ->
  NewEVMBlockContext GetHeader blobFuel h' None = NewEVMBlockContext GetHeader blobFuel h (Some (types.Coinbase h)).
Proof.
  intros [H1 H2 H3 H4 H5 H6 H7 H8 H9 _]. unfold NewEVMBlockContext, GetHashFn.
  rewrite H1, H2, H3, H4, H5, H6, H7, H8, H9. done.
Qed.

Lemma context_fields h a context : NewEVMBlockContext GetHeader blobFuel h a = Ok context ->
  bc_BlockNumber context = types.Number h /\ bc_Time context = types.Time h.
Proof. unfold NewEVMBlockContext. destruct (types.Difficulty h); [|done]. by intros [= <-]. Qed.

(** *** One transaction of the miner *)

Abbreviation env := (@environment S Ctx L).
Abbreviation MapplyTransaction := (miner.applyTransaction IsValidVersionedHash CreateBloom CreateAddress Sender GetHeader blobFuel
  Header_Hash config false).
Abbreviation commitTransaction := (commitTransaction IsValidVersionedHash CreateBloom CreateAddress Sender GetHeader blobFuel
  Header_Hash config false).
Abbreviation tryTransaction := (tryTransaction IsValidVersionedHash CreateBloom CreateAddress Sender GetHeader blobFuel
  Header_Hash config false).
Abbreviation commitTransactions := (commitTransactions IsValidVersionedHash CreateBloom CreateAddress Sender GetHeader blobFuel
  Header_Hash config false).

(** A header of the time of London, with its base fee and sane rules. *)
Record header_ok (h : types.Header) : Prop := {
  ho_London : cc_IsLondon config (types.Number h) = true;
  ho_BaseFee : exists b, types.BaseFee h = Some b /\ 0 <= b < 2 ^ 256;
  ho_rules : rules_ok (cc_Rules config (types.Number h) (types.Time h))
}.

Lemma header_ok_ctx h h' : header_ctx h h' -> header_ok h -> header_ok h'.
Proof. intros [? ? ? Hn ? Ht ? Hb ? ?] [H1 H2 H3]. split; by rewrite ?Hn, ?Ht, ?Hb. Qed.

(** What an attempt leaves of the block under construction. *)
Definition kept (e e' : env) : Prop :=
  env_txs e' = env_txs e /\ receipts e' = receipts e /\ tcount e' = tcount e /\ header_ctx (header e) (header e') /\
  miner.parent e' = miner.parent e.

Lemma kept_state e s : kept e (set_state e s).
Proof. by split_and!. Qed.

Lemma kept_exec e st : kept e (set_exec e st).
Proof. by split_and!. Qed.

Lemma ApplyTransaction_Err context h hh tx (st : @Exec S) e st1 :
  header_ok h -> tx_ok tx -> bc_BlockNumber context = types.Number h ->
  PApplyTransaction context h hh tx st = (Err e, st1) ->
  ex_usedGas st1 = ex_usedGas st /\
  (ex_state st1 = ex_state st \/ exists a v, ex_state st1 = geth_SubBalance (ex_state st) a v).
Proof.
  intros [Hlon (b & Hb & Hb0 & _) _] Htx Hnum. unfold processor.ApplyTransaction. rewrite lift_bind, Hb.
  destruct (TransactionToMessage Sender tx (Some b)) as [msg|e1|] eqn:Hm; [|intros [= _ <-]; split; [done|by left]|done].
  apply message_priced in Hm as (Hw & _); [|done..]. unfold processor.applyTransaction.
  destruct (ApplyMessage _ _ msg _ _) as [[res|e1|] t] eqn:Ha; [by destruct (if cc_IsByzantium _ _ then _ else _)| |done].
  intros [= _ <-]. split; [done|]. cbn. unfold ApplyMessage in Ha.
  apply TransitionDb_Err in Ha as [Ha|[v Ha]]; [by left|right; by exists (From msg), v| |done|done].
  cbn. by rewrite Hnum.
Qed.

Lemma miner_apply tx (e : env) r e1 :
  header_ok (header e) -> tx_ok tx -> MapplyTransaction tx (types.Coinbase (header e)) e = (r, e1) ->
  kept e e1 /\
  match r with
  | Ok receipt => exists context st1,
      NewEVMBlockContext GetHeader blobFuel (header e) (Some (types.Coinbase (header e))) = Ok context /\
      PApplyTransaction context (header e) (Header_Hash (header e)) tx
        (mkExec (gasPool e) (types.GasUsed (header e)) (snd (Snapshot (state e)))) = (Ok receipt, st1) /\
      gasPool e1 = ex_gp st1 /\ types.GasUsed (header e1) = ex_usedGas st1 /\ state e1 = ex_state st1
  | Err _ => gasPool e1 = gasPool e /\ types.GasUsed (header e1) = types.GasUsed (header e) /\ equ (state e1) (state e)
  | Panic => True
  end.
Proof.
  intros Hh Htx. unfold miner.applyTransaction. pose proof (equ_Snapshot (state e)) as Hsnap.
  pose proof (equ_Revert (state e)) as Hrev. pose proof (equ_Revert_SubBalance (state e)) as Hrevs.
  destruct (Snapshot (state e)) as [snap s]. cbn [fst snd] in *.
  destruct (CheckPredicates _ _ tx) as [results|err|]; [|intros [= <- <-]; split; [by split_and!|done]..].
  destruct (Results_Bytes _) as [bytes|err|]; [|intros [= <- <-]; split; [by split_and!|done]..].
  unfold NewEVMBlockContextWithPredicateResults. cbn [header set_results set_state state gasPool rules predicateContext].
  destruct (NewEVMBlockContext _ _ _ _) as [context|err|] eqn:Hc; [|intros [= <- <-]; split; [by split_and!|done]..].
  destruct (PApplyTransaction _ _ _ _ _) as [r0 st1] eqn:Ha. destruct r0 as [receipt|err|]; intros [= <- <-]; [| |split; [by split_and!|done]].
  - split; [by split_and!|]. exists context, st1. by split_and!.
  - split; [by split_and!|]. destruct (context_fields _ _ _ Hc) as [Hn _].
    apply ApplyTransaction_Err in Ha as [Hu Hs]; [|done..]. cbn in *. split_and!; [done|done|].
    destruct Hs as [-> | (a & v & ->)]; [done|apply Hrevs].
Qed.

(** *** Replaying the block under construction *)

Lemma modify_bind {T B} (f : T -> T) (k : unit -> StM T B) st : ((fun st => (Ok tt, f st)) ≫= k) st = k tt (f st).
Proof. reflexivity. Qed.

Lemma process_txs_snoc context h bh i txs tx st rs st1 msg r st2 :
  process_txs context h bh i txs st = (Ok rs, st1) ->
  TransactionToMessage Sender tx (types.BaseFee h) = Ok msg ->
  PapplyTransaction msg (types.Number h) bh (types.Time h) tx (NewEVM config false context (NewEVMTxContext msg))
    (mkExec (ex_gp st1) (ex_usedGas st1) (ps_SetTxContext (tx_Hash tx) (i + Z.of_nat (length txs)) (ex_state st1))) = (Ok r, st2) ->
  process_txs context h bh i (txs ++ [tx]) st = (Ok (rs ++ [r]), st2).
Proof.
  intros Hp Hm Ha. revert i st rs Hp Ha. induction txs as [|t0 txs IH]; intros i st rs Hp Ha; cbn [app processor.process_txs] in *.
  - injection Hp as <- <-. cbn in Ha. rewrite Z.add_0_r in Ha.
    rewrite lift_bind, Hm. cbn [wrap_err]. rewrite modify_bind.
    erewrite bindM_step; [|unfold wrapM; rewrite Ha; reflexivity]. done.
  - rewrite lift_bind in *. destruct (TransactionToMessage Sender t0 _) as [m0|e|]; cbn [wrap_err] in *; [|done..].
    rewrite modify_bind in *.
    apply bindM_run in Hp as (r0 & st0 & Hr0 & Hp). rewrite (bindM_step _ _ _ _ _ Hr0).
    apply bindM_run in Hp as (rs0 & st0' & Hrs0 & Hp). injection Hp as <- <-.
    erewrite bindM_step; [|apply (IH _ _ _ Hrs0)]; [done|].
    rewrite <- Ha. do 3 f_equal. cbn [length]. lia.
Qed.

(** Two states that differ at most in their transaction context. *)
Definition equ_ctx (s s' : S) : Prop := forall h i, equ (ps_SetTxContext h i s) (ps_SetTxContext h i s').

Lemma equ_ctx_equ s s' : equ s s' -> equ_ctx s s'.
Proof. intros Hs h i. by apply equ_SetTxContext. Qed.

Lemma equ_ctx_set s s' h i : equ s' (ps_SetTxContext h i s) -> equ_ctx s s'.
Proof. intros Hs h' i'. rewrite (equ_SetTxContext h' i' _ _ Hs). symmetry. apply equ_SetTxContext_twice. Qed.

Lemma equ_ctx_trans s1 s2 s3 : equ_ctx s1 s2 -> equ_ctx s2 s3 -> equ_ctx s1 s3.
Proof. intros H1 H2 h i. etrans; [apply H1|apply H2]. Qed.

Section Block.
(** The header, the hash, the gas and the state the block is processed with. *)
Context (h0 : types.Header) (bh : Hash) (gp0 : Z) (s0 : S) (p0 : types.Header) (context : BlockContext).
Context (Hcontext : NewEVMBlockContext GetHeader blobFuel h0 None = Ok context).

Record replay (e : env) : Prop := {
  rp_header : header_ctx (header e) h0;
  rp_parent : miner.parent e = p0;
  rp_count : tcount e = Z.of_nat (length (env_txs e));
  rp_run : exists rs st d,
    process_txs context h0 bh 0 (env_txs e) (mkExec gp0 0 s0) = (Ok rs, st) /\
    0 <= d /\ ex_gp st = gasPool e + d /\ ex_gp st <= MaxUint64 /\ ex_usedGas st = types.GasUsed (header e) /\
    equ_ctx (ex_state st) (state e) /\ receipt_core <$> rs = receipt_core <$> receipts e
}.

(** The fields of an environment the invariant reads. *)
Lemma replay_change e e' : replay e -> kept e e' -> gasPool e' = gasPool e ->
  types.GasUsed (header e') = types.GasUsed (header e) -> equ_ctx (state e) (state e') -> replay e'.
Proof.
  intros [Hh Hpar Hc (rs & st & d & Hrun & Hd & Hgp & Hmax & Hu & Hs & Hr)] (Ht & Hre & Htc & Hhc & Hp) Hg HU Hs'.
  split.
  - eapply header_ctx_trans; [|done]. by apply header_ctx_sym.
  - by rewrite Hp.
  - by rewrite Ht, Htc.
  - exists rs, st, d. rewrite Ht, Hre, Hg, HU. split_and!; try done. by eapply equ_ctx_trans.
Qed.

Definition in_context (tx : Transaction) (e : env) : env := set_state e (ps_SetTxContext (tx_Hash tx) (tcount e) (state e)).

Lemma replay_commit (e e1 e2 : env) tx tx' r :
  header_ok (header e) -> tx_ok tx -> same_tx tx tx' -> replay e ->
  MapplyTransaction tx (types.Coinbase (header e)) (in_context tx e) = (Ok r, e1) ->
  env_txs e2 = env_txs e1 ++ [tx'] -> receipts e2 = receipts e1 ++ [r] -> tcount e2 = tcount e1 + 1 ->
  header_ctx (header e1) (header e2) -> gasPool e2 = gasPool e1 ->
  types.GasUsed (header e2) = types.GasUsed (header e1) -> state e2 = state e1 ->
  miner.parent e2 = miner.parent e1 -> replay e2.
Proof.
  intros Hok Htx Hsame [Hh Hpar Hc (rs & st & d & Hrun & Hd & Hgp & Hmax & Hu & Hs & Hr)] Ha E1 E2 E3 E4 E5 E6 E7 E8.
  destruct (miner_apply _ (in_context tx e) _ _ Hok Htx Ha) as [(K1 & K2 & K3 & K4 & K5) (context' & st1 & Hctx' & Hap & Hg1 & Hu1 & Hs1)].
  cbn [header in_context set_state env_txs receipts tcount gasPool state miner.parent] in *.
  rewrite <- (context_same _ _ Hh), Hcontext in Hctx'. injection Hctx' as <-.
  destruct (context_fields _ _ _ Hcontext) as [Hn Ht].
  pose proof (header_ok_ctx _ _ Hh Hok) as [_ (b & Hb & Hb0 & _) Hrules].
  unfold processor.ApplyTransaction in Hap. rewrite lift_bind, <- (hc_BaseFee _ _ Hh), <- (hc_Number _ _ Hh), <- (hc_Time _ _ Hh), Hb in Hap.
  destruct (TransactionToMessage Sender tx (Some b)) as [msg|err|] eqn:Hm; [|done..].
  pose proof (message_priced _ _ _ _ Htx Hb0 Hm) as ((Hlim & _) & _).
  pose proof Hsame as (Hhash & _ & _ & _ & Hmsg).
  apply (apply_equ _ _ _ _ _ bh _ _ tx' d _ (mkExec (ex_gp st) (ex_usedGas st)
    (ps_SetTxContext (tx_Hash tx') (0 + Z.of_nat (length (env_txs e))) (ex_state st)))) in Hap
    as (r' & st1' & Hap' & Hcore & (Hgp' & Hu' & Hs') & Hpool); [|by rewrite Hn, Ht|done|done| |done|done].
  2: { split_and!; cbn; [done|done|]. rewrite equ_Snapshot, Hhash, Z.add_0_l, <- Hc. symmetry. apply Hs. }
  split.
  - eapply header_ctx_trans; [apply header_ctx_sym, E4|]. eapply header_ctx_trans; [apply header_ctx_sym, K4|done].
  - by rewrite E8, K5.
  - rewrite E1, E3, K1, K3, length_app, Hc. cbn. lia.
  - exists (rs ++ [r']), st1', d. rewrite E1, K1, E2, K2, E5, E6, E7, Hg1, Hu1, Hs1.
    split_and!; try done.
    + apply (process_txs_snoc _ _ _ _ _ _ _ _ _ msg _ _ Hrun); [by rewrite Hmsg, Hb|done].
    + rewrite Hgp'. cbn in Hpool. lia.
    + apply equ_ctx_equ. by symmetry.
    + rewrite !fmap_app, Hr. cbn. by rewrite Hcore.
Qed.

Lemma replay_try (e : env) tx op e' :
  header_ok (header e) -> tx_ok tx -> replay e ->
  tryTransaction (types.Coinbase (header e)) tx e = (Ok op, e') -> replay e' /\ header_ctx (header e) (header e').
Proof.
  intros Hok Htx Hrp. unfold miner.tryTransaction, miner.commitTransaction, commitBlobTransaction. fold (in_context tx e).
  assert (Hin : replay (in_context tx e)).
  { apply (replay_change e); [done|by split_and!|done|done|]. apply (equ_ctx_set _ _ (tx_Hash tx) (tcount e)). done. }
  assert (Hfail : forall err e1, MapplyTransaction tx (types.Coinbase (header e)) (in_context tx e) = (Err err, e1) ->
    replay e1 /\ header_ctx (header e) (header e1)).
  { intros err e1 Ha. destruct (miner_apply _ (in_context tx e) _ _ Hok Htx Ha) as [Hk (Hg & Hu & Hs)]. split; [|apply Hk].
    apply (replay_change (in_context tx e)); try done. apply equ_ctx_equ. by symmetry. }
  destruct (tx_Type tx =? BlobTxType).
  - destruct (tx_Sidecar tx) as [sc|]; [|done]. case_test; [intros [= _ <-]; done|].
    destruct (MapplyTransaction _ _ (in_context tx e)) as [[r|err|] e1] eqn:Ha; [|intros [= _ <-]; by eapply Hfail|done].
    destruct (types.BlobGasUsed (header e1)); [|done]. intros [= _ <-].
    pose proof (miner_apply _ (in_context tx e) _ _ Hok Htx Ha) as [(_ & _ & _ & Hk & _) _]. split; [|by destruct Hk; split].
    apply (replay_commit e e1 _ tx (WithoutBlobTxSidecar tx) r); try done. apply same_tx_sidecar.
  - destruct (MapplyTransaction _ _ (in_context tx e)) as [[r|err|] e1] eqn:Ha; [|intros [= _ <-]; by eapply Hfail|done].
    intros [= _ <-]. pose proof (miner_apply _ (in_context tx e) _ _ Hok Htx Ha) as [(_ & _ & _ & Hk & _) _]. split; [|by destruct Hk; split].
    by apply (replay_commit e e1 _ tx tx r).
Qed.

Abbreviation attempts := (attempts IsValidVersionedHash CreateBloom CreateAddress Sender GetHeader blobFuel Header_Hash config false).
Abbreviation fillTransactions := (fillTransactions IsValidVersionedHash CreateBloom CreateAddress Sender GetHeader blobFuel
  Header_Hash config false).

Lemma replay_attempts (e e' : env) l :
  header_ok (header e) -> Forall tx_ok l -> replay e -> attempts e l e' -> replay e'.
Proof.
  intros Hok Hl Hrp Ha. revert Hok Hl Hrp. induction Ha as [|e tx op e1 txs e2 Ht _ IH]; intros Hok Hl Hrp; [done|].
  inversion Hl; subst. destruct (replay_try _ _ _ _ Hok ltac:(done) Hrp Ht) as [Hrp1 Hh1].
  apply IH; [by eapply header_ok_ctx|done|done].
Qed.

(** The start of a block. *)
Lemma fill_replays pool (e0 e : env) :
  header_ok (header e0) -> pool_ok tx_ok pool -> env_txs e0 = [] -> receipts e0 = [] -> tcount e0 = 0 -> types.GasUsed (header e0) = 0 ->
  header_ctx (header e0) h0 -> miner.parent e0 = p0 -> state e0 = s0 -> gasPool e0 <= gp0 <= MaxUint64 ->
  fillTransactions pool e0 = (Ok tt, e) -> replay e /\ header_ctx (header e0) (header e).
Proof.
  intros Hok Hpool Ht Hr Hc Hu Hh Hp Hs Hgp Hfill. destruct Hok as [? (b & Hb & Hb0) ?] eqn:Hok'.
  apply fill_attempts in Hfill as (l & ? & ? & ? & Hl & Htk); [|apply _|apply _|by rewrite Hb|intros f; apply Hpool]. pose proof (taken_P _ _ _ _ _ _ Hpool Htk) as HP.
  split; [|apply (attempts_keep _ _ _ _ _ _ _ _ _ _ _ _ Hl)].
  eapply replay_attempts; [done|done| |done]. split; [done|done|by rewrite Hc, Ht|].
  exists [], (mkExec gp0 0 s0), (gp0 - gasPool e0). rewrite Ht, Hr, Hu, Hs. cbn. split_and!; try done; try lia. by apply equ_ctx_equ.
Qed.

End Block.

End Replay.

End minerspec.
