(* ===== verification/MinerBlockSpec.v ===== *)
(** * A block the miner builds is a valid block

    The whole of [commitNewWork] against the block processor, the consensus engine and the
    state validator: from the parent's state, the block is processed without error, with the
    gas its header claims, and the result has the root, the receipts and the bloom of the
    header. *)

From S2P Require Import Prelude Deps GoStd Lp176 ExtState Fees CustomTypes Header Consensus Predicate Transition Upgrades Processor TransitionSpec ProcessorSpec Ordering OrderingSpec Miner MinerSpec.
Import extstate predicate core corespec processor procspec txpool ordering orderingspec miner minerspec.

Module minedspec.

(** The roots and the bloom that [types.NewBlock] derives from the receipts, which read only
    what does not depend on the hash of the block. *)
Class RootsSpec {S L X : Type} {PS : ProcStateDB L S} (log_core : L -> X)
    (NewBlock_header : types.Header -> Body Transaction -> list (Receipt L) -> types.Header)
    (DeriveSha_receipts : list (Receipt L) -> Hash) (MergeBloom : list (Receipt L) -> list byte) (equ : relation S) : Prop := {
  NewBlock_ReceiptHash h body rs : types.ReceiptHash (NewBlock_header h body rs) = DeriveSha_receipts rs;
  NewBlock_Bloom h body rs : types.Bloom (NewBlock_header h body rs) = MergeBloom rs;
  NewBlock_Root h body rs : types.Root (NewBlock_header h body rs) = types.Root h;
  DeriveSha_core rs rs' : receipt_core log_core <$> rs = receipt_core log_core <$> rs' -> DeriveSha_receipts rs = DeriveSha_receipts rs';
  MergeBloom_core rs rs' : receipt_core log_core <$> rs = receipt_core log_core <$> rs' -> MergeBloom rs = MergeBloom rs';
  (* the root does not depend on the transaction context *)
  IntermediateRoot_ctx s s' b : equ_ctx equ s s' -> fst (ps_IntermediateRoot s b) = fst (ps_IntermediateRoot s' b)
}.

Section Mined.
Context {SM : SafeMath} {SMs : SafeMathSpec SM} {UI : U256Lib} {UIs : U256LibSpec} {GL : GasLib} {GLs : GasLibSpec GL}.
Context {BL : BitsLib} {SL : SidecarLib} {S Ctx L X : Type}.
Context {GDB : GethStateDB S} {DB : VMStateDB S} {AS : ActivationStateDB S} {PS : ProcStateDB L S} {SN : Snapshots S}.
Context {EL : EVMLib S Ctx} {MR : MapRange (list LazyTransaction)} {MRs : MapRangeSpec (list LazyTransaction)}.
Context (supply : S -> Z) {SPs : SupplySpec supply} {ES : EVMLibSpec supply}.
Context (equ : relation S) {SE : StateEquiv (Ctx := Ctx) (L := L) equ}.
Context (IsValidVersionedHash : Hash -> bool).
Context (CreateBloom : list L -> list byte) (log_core : L -> X) {LS : LogsSpec (S := S) CreateBloom log_core}.
Context (CreateAddress : Address -> Z -> Address).
Context (Sender : Transaction -> result Address) {SS : SidecarSpec Sender}.
Context (GetHeader : Hash -> Z -> option types.Header) (blobFuel : nat) (Header_Hash : types.Header -> Hash).
Context (config : ChainConfig Ctx) (StateAt : Hash -> result S) (rlpHash : list byte -> Hash).
Context (NewBlock_header : types.Header -> Body Transaction -> list (Receipt L) -> types.Header) {NB : NewBlockSpec NewBlock_header}.
Context (EffectiveGasTip : Transaction -> Z -> result Z) (effectiveTip : Transaction -> Z -> Z).
Context (eng : @dummy.DummyEngine Transaction S) (chain : dummy.ChainHeaderReader).
Context (TestOnlyAllowDuplicateBlocks : bool) (HasBlock : Hash -> Z -> bool).
Context {C : Type} {PC : PrecompileConfig C}.
Context (registered : list (modules.Module (@activation.Configure C S))) (upgrades : list C).
Context (DeriveSha_receipts : list (Receipt L) -> Hash) (MergeBloom : list (Receipt L) -> list byte).
Context {RS : RootsSpec log_core NewBlock_header DeriveSha_receipts MergeBloom equ}.

(** ** The header and the first environment *)

Lemma prepareHeader_fields clockTime parent coinbase hdr :
  header.is_header parent -> prepareHeader Header_Hash config clockTime parent coinbase = Ok hdr ->
  types.Number hdr = types.Number parent + 1 /\ types.GasUsed hdr = 0 /\ is_u64 (types.Time hdr) /\
  is_u64 (types.GasLimit hdr) /\ header.GasLimit parent (types.Time hdr) = Ok (types.GasLimit hdr) /\
  types.Difficulty hdr = Some 1 /\
  exists b, types.BaseFee hdr = Some b /\ 0 < b <= MaxUint64.
Proof.
  intros (Hpt & _ & _). unfold prepareHeader. set (ts := if _ <=? types.Time parent then _ else _).
  assert (Hts : is_u64 ts) by (unfold ts; case_test; [done|apply is_u64_mod]).
  intros (gl & Hgl%wrap_err_Ok & (bf & Hbf%wrap_err_Ok & H)%bind_Ok)%bind_Ok.
  apply bind_Ok in H as ([[bgu ebg] beacon] & _ & H). case_bool_decide; [done|]. injection H as <-.
  unfold header.GasLimit, header.BaseFee in *. pose proof Hgl as Hgl'.
  apply bind_Ok in Hgl as (s & Hs%wrap_err_Ok & [= <-]). rewrite Hs in Hbf. injection Hbf as <-.
  pose proof (header.feeStateBeforeBlock_valid _ _ _ Hpt Hts Hs) as Hstate.
  pose proof (lp176.GasPrice_bounds s Hstate) as Hp. destruct Hstate as [_ Ht].
  cbn. split_and!; try done; [by apply lp176.MaxCapacity_u64|]. eexists. split; [done|]. unfold lp176.MinGasPrice in Hp. lia.
Qed.

(** What is common to the environment and the start of the processing of the block. *)
Definition started (hdr : types.Header) (s : S) : result S :=
  match types.ParentBeaconRoot hdr with
  | Some root => context ← NewEVMBlockContext GetHeader blobFuel hdr None; Ok (ProcessBeaconBlockRoot (L := L) root context s)
  | None => Ok s
  end.

Definition no_activation (parent : types.Header) : Prop :=
  forall bc s, activation.ApplyUpgrades registered upgrades (Some (types.Time parent)) bc s = (Ok tt, s).

Lemma prepareEnvironment_fields pc parent hdr env0 :
  header.is_header parent -> is_u64 (types.Time hdr) -> header.GasLimit parent (types.Time hdr) = Ok (types.GasLimit hdr) ->
  no_activation parent ->
  prepareEnvironment (L := L) GetHeader blobFuel config StateAt registered upgrades pc parent hdr = Ok env0 ->
  exists s0, StateAt (types.Root parent) = Ok s0 /\ started hdr s0 = Ok (state env0) /\
    header env0 = hdr /\ miner.parent env0 = parent /\ env_txs env0 = [] /\ receipts env0 = [] /\ tcount env0 = 0 /\
    gasPool env0 <= types.GasLimit hdr /\ predicateResults env0 = NewResults.
Proof.
  intros (Hpt & _ & _) Hts Hgl Hno. unfold prepareEnvironment, createCurrentEnvironment.
  intros (env1 & H1%wrap_err_Ok & H)%bind_Ok. apply bind_Ok in H1 as (s0 & Hs0 & H1).
  apply bind_Ok in H1 as (cap & Hcap%wrap_err_Ok & H1). cbv zeta in H1. destruct (_ <? _); [done|].
  apply bind_Ok in H1 as (gp & Hgp & [= <-]). cbn [state] in H.
  apply bind_Ok in H as (s1 & Hs1 & H). rewrite Hno in H. cbn in H. injection H as <-.
  exists s0. cbn. split_and!; try done.
  unfold AddGas in Hgp. destruct (_ <? _); [done|]. injection Hgp as <-.
  unfold header.GasLimit, header.GasCapacity in *. apply bind_Ok in Hgl as (s & Hs%wrap_err_Ok & [= <-]).
  rewrite Hs in Hcap. injection Hcap as <-. by apply (header.feeStateBeforeBlock_capacity _ _ _ Hpt Hts) in Hs.
Qed.

(** ** The end of the block *)

Lemma blockFee_loop_gas baseFee txs (rs rs' : list (Receipt L)) i total : r_GasUsed <$> rs = r_GasUsed <$> rs' ->
  dummy.blockFee_loop EffectiveGasTip r_GasUsed baseFee txs rs i total =
  dummy.blockFee_loop EffectiveGasTip r_GasUsed baseFee txs rs' i total.
Proof.
  revert rs' i total. induction rs as [|r rs IH]; intros [|r' rs'] i total Hg; try done. cbn in Hg. injection Hg as Hr Hrs.
  cbn [dummy.blockFee_loop]. destruct (txs !! i) as [tx|]; [|done]. destruct (EffectiveGasTip tx baseFee); cbn; [|done..].
  rewrite Hr. by apply IH.
Qed.

Lemma verifyBlockFee_gas bf cost txs (rs rs' : list (Receipt L)) contribution : r_GasUsed <$> rs = r_GasUsed <$> rs' ->
  dummy.verifyBlockFee EffectiveGasTip r_GasUsed eng bf cost txs rs contribution =
  dummy.verifyBlockFee EffectiveGasTip r_GasUsed eng bf cost txs rs' contribution.
Proof.
  intros Hg. unfold dummy.verifyBlockFee. destruct (dummy.ModeSkipBlockFee _); [done|]. destruct bf as [b|]; [|done].
  destruct (fail_if _ _); cbn; [|done..]. destruct cost; [|done]. destruct (fail_if _ _); cbn; [|done..].
  destruct (match contribution with Some _ => _ | None => _ end); cbn; [|done..]. by rewrite (blockFee_loop_gas _ _ rs rs').
Qed.

Lemma core_gas (rs rs' : list (Receipt L)) :
  receipt_core log_core <$> rs = receipt_core log_core <$> rs' -> r_GasUsed <$> rs = r_GasUsed <$> rs'.
Proof.
  intros H. apply (f_equal (fmap r_GasUsed)) in H. by rewrite <- !list_fmap_compose in H.
Qed.

Lemma process_used_u64 context h bh i txs st rs st' :
  is_u64 (ex_usedGas st) ->
  process_txs IsValidVersionedHash CreateBloom CreateAddress config Sender false context h bh i txs st = (Ok rs, st') ->
  is_u64 (ex_usedGas st').
Proof.
  revert i st rs. induction txs as [|tx txs IH]; intros i st rs Hu; cbn [process_txs]; [by intros [= _ <-]|].
  rewrite lift_bind. destruct (wrap_err _ _) as [msg|?|]; [|done..]. rewrite modify_bind.
  intros (r & st1 & Hr%wrapM_run & (rs1 & st2 & Hrs & [= _ <-])%bindM_run)%bindM_run.
  eapply IH; [|apply Hrs]. clear Hrs. revert Hr.
  unfold processor.applyTransaction. destruct (ApplyMessage _ _ _ _ _) as [[res|?|] t]; [|done..].
  destruct (if cc_IsByzantium config _ then _ else _) as [root s1]. intros [= _ <-]. apply is_u64_mod.
Qed.

(** What the VM's callbacks promise each other: the verifier's callback recovers from the block
    what the builder's reported, and leaves the same state; the side table is intact. *)
Definition vm_contract (parent : types.Header) (store : ExtrasStore) (block : Block Transaction) (store' : ExtrasStore) : Prop :=
  forall hdr s txs extraData contribution ext s1 st1,
    dummy.call_OnFinalizeAndAssemble eng hdr parent s txs store = (Ok (extraData, contribution, ext, s1), st1) ->
    store_wf st1 /\ dummy.fresh_or_same Header_Hash st1 hdr (default 0 ext) /\
    (same_fee_fields hdr (block_Header block) -> block_Transactions block = txs ->
     BE_ExtData (extras_Block_Get block store') = Some extraData ->
     forall vdb, equ_ctx equ vdb s ->
     exists vdb' st2, dummy.call_OnExtraStateChange eng block parent vdb store' = (Ok (contribution, ext, vdb'), st2) /\
       store_wf st2 /\ extra_of Header_Hash st2 (block_Header block) = extra_of Header_Hash store' (block_Header block) /\
       equ_ctx equ vdb' s1).

(** The assembly of the environment, and the engine's verdict on the block. *)
Lemma commit_finalizes (env : environment S Ctx L) store block s' store' rs vdb :
  header.is_header (miner.parent env) -> header.is_header (header env) ->
  dummy.hasValidBaseFee (types.BaseFee (header env)) = true ->
  vm_contract (miner.parent env) store block store' ->
  receipt_core log_core <$> rs = receipt_core log_core <$> receipts env -> equ_ctx equ vdb (state env) ->
  commit Header_Hash rlpHash NewBlock_header EffectiveGasTip effectiveTip eng chain TestOnlyAllowDuplicateBlocks HasBlock
    env store = (Ok (block, s'), store') ->
  same_fee_fields (header env) (block_Header block) /\ block_Transactions block = env_txs env /\
  (exists bytes fs, Results_Bytes (predicateResults env) = Ok bytes /\
     types.Extra (block_Header block) = lp176.Bytes fs ++ types.Extra (header env) ++ bytes) /\
  (store_wf store' /\ block_Uncles block = [] /\ BE_Version (extras_Block_Get block store') = 0 /\
   HE_BlockGasCost (extra_of Header_Hash store' (block_Header block)) = Some 0) /\
  exists s1 sv store2 h3,
    block_Header block = NewBlock_header h3 (mkBody (env_txs env) []) (receipts env) /\
    types.Root h3 = fst (ps_IntermediateRoot s1 (dummy.IsEIP158 chain (types.Number (header env)))) /\
    equ_ctx equ sv s1 /\
    dummy.Finalize Header_Hash EffectiveGasTip r_GasUsed eng block (miner.parent env) vdb rs store' = (Ok sv, store2).
Proof.
  intros Hp Hh Hbf Hvm Hrs Hvdb. unfold commit. rewrite lift_bind.
  destruct (wrap_err _ (Results_Bytes _)) as [bytes|?|] eqn:Hbytes; [|done..]. apply wrap_err_Ok in Hbytes.
  set (hdrX := types.set_Extra (header env) (types.Extra (header env) ++ bytes)).
  assert (HX : same_fee_fields (header env) hdrX) by (unfold hdrX; destruct (header env); by repeat split).
  intros H. apply bindM_run in H as ([[h' blk] sdb] & st1 & Hfa & H). rewrite lift_bind in H.
  destruct (handleResult _ _ _ _ _ _) as [blk'|?|] eqn:Hhr; [|done..]. injection H as -> -> ->.
  assert (blk = block) as ->.
  { unfold handleResult in Hhr. destruct (_ && _); [done|]. by apply bind_Ok in Hhr as (? & _ & [= ->]). }
  pose proof Hfa as Hcb. unfold dummy.FinalizeAndAssemble in Hcb. apply bindM_run in Hcb as ([[[extraData contribution] ext] s1] & st2 & Hcb & _).
  destruct (Hvm _ _ _ _ _ _ _ _ Hcb) as (Hwf & Hfresh & Hver).
  assert (HbX : types.BaseFee hdrX = types.BaseFee (header env)) by (unfold hdrX; by destruct (header env)).
  eapply dummy.FinalizeAndAssemble_result in Hfa as (Hfee & fs & Hs & Hwf' & Hext & Hf & HE & Htx & Hbe & h3 & Hh3 & Hroot & Hunc);
    [|done|done|done|by rewrite HbX|done].
  pose proof (same_fee_fields_trans _ _ _ HX Hf) as Hff. split; [done|]. split; [done|].
  split; [exists bytes, fs; split; [done|]; rewrite HE; unfold hdrX; by destruct (header env)|].
  split; [split_and!; [done|done|by rewrite Hbe|by rewrite Hext]|].
  destruct (Hver Hf Htx (f_equal BE_ExtData Hbe) vdb Hvdb) as (sv & store2 & Hcb' & Hwf2 & Hview & Hsv).
  assert (HXh : header.is_header hdrX) by (by eapply header.is_header_fields).
  assert (Hext64 : is_u64 (default 0 ext)).
  { apply header.feeStateAfter_Ok in Hs as (x0 & x1 & H0 & Hx0 & H1 & _); [|done..].
    apply lp176.is_state_ConsumeGas in H1 as (_ & Hge & Hle & _); [|done|apply HXh].
    unfold lp176.extra_gas in *. cbn in *. destruct HXh as (_ & Hg & _), Hx0 as [[Hc _] _]. u64_lia. }
  exists s1, sv. destruct (dummy.Finalize _ _ _ eng block _ vdb rs store') as [rf stf] eqn:Hfin. exists stf, h3.
  assert (rf = Ok sv) as ->.
  { change rf with (fst (rf, stf)). rewrite <- Hfin. apply (dummy.Finalize_after_callback _ _ _ eng block (miner.parent env) vdb rs store' _ _ _ _ Hcb' Hwf2).
    rewrite Hview, Hext, Htx. destruct Hf as (_ & _ & _ & _ & -> & _). cbn. split; [done|]. intros _. split; [done|]. split; [done|].
    by rewrite (verifyBlockFee_gas _ _ _ rs (receipts env)) by (by apply core_gas). }
  split_and!; try done. replace (types.Number (header env)) with (types.Number hdrX) by (unfold hdrX; by destruct (header env)).
  by rewrite <- Hroot.
Qed.

(** ** The block *)

Lemma same_fee_ctx h h' : same_fee_fields h h' -> header_ctx h h'.
Proof. intros (? & _ & ? & ? & ? & ? & ? & ? & ? & ? & _ & ? & _). by split. Qed.

Lemma context_none h h' : header_ctx h h' ->
  NewEVMBlockContext GetHeader blobFuel h' None = NewEVMBlockContext GetHeader blobFuel h None.
Proof. intros Hc. rewrite (context_same _ _ _ _ Hc). by rewrite <- (context_same GetHeader blobFuel h h). Qed.

Lemma process_length context h bh i txs st rs st' :
  process_txs IsValidVersionedHash CreateBloom CreateAddress config Sender false context h bh i txs st = (Ok rs, st') ->
  length rs = length txs.
Proof.
  revert i st rs. induction txs as [|tx txs IH]; intros i st rs; cbn [process_txs]; [by intros [= <- _]|].
  rewrite lift_bind. destruct (wrap_err _ _) as [msg|?|]; [|done..]. rewrite modify_bind.
  intros (r & st1 & _ & (rs1 & st2 & Hrs & [= <- <-])%bindM_run)%bindM_run.
  rewrite !length_cons. f_equal. by apply (IH _ _ _ Hrs).
Qed.

Lemma Process_run hdr block parent s0 s1 context rs st sv store store2 :
  header_ctx hdr (block_Header block) -> is_u64 (types.GasLimit hdr) -> no_activation parent -> started hdr s0 = Ok s1 ->
  NewEVMBlockContext GetHeader blobFuel hdr None = Ok context ->
  process_txs IsValidVersionedHash CreateBloom CreateAddress config Sender false context (block_Header block)
    (Header_Hash (block_Header block)) 0 (block_Transactions block) (mkExec (types.GasLimit hdr) 0 s1) = (Ok rs, st) ->
  dummy.Finalize Header_Hash EffectiveGasTip r_GasUsed eng block parent (ex_state st) rs store = (Ok sv, store2) ->
  Process IsValidVersionedHash CreateBloom CreateAddress config Sender registered upgrades GetHeader blobFuel
    Header_Hash EffectiveGasTip eng block parent s0 false store = (Ok (rs, flat_map r_Logs rs, ex_usedGas st, sv), store2).
Proof.
  intros Hbc Hgl Hno Hstart Hctx Hrun Hfin. unfold Process. rewrite (hc_GasLimit _ _ Hbc), lift_bind. unfold AddGas.
  case_test; [u64_lia|]. rewrite Hno, !lift_bind. rewrite (context_none _ _ Hbc), Hctx, (hc_ParentBeaconRoot _ _ Hbc). rewrite Z.add_0_l.
  assert (Hst : match types.ParentBeaconRoot hdr with
                | Some beaconRoot => ProcessBeaconBlockRoot (L := L) beaconRoot context s0
                | None => s0
                end = s1).
  { unfold started in Hstart. destruct (types.ParentBeaconRoot hdr); [rewrite Hctx in Hstart|]; by injection Hstart. }
  rewrite Hst, Hrun, lift_bind. unfold wrapM. by erewrite bindM_step; [|rewrite Hfin; reflexivity].
Qed.

Lemma ValidateState_run block h3 txs (rs0 rs : list (Receipt L)) s1 sv :
  block_Header block = NewBlock_header h3 (mkBody txs []) rs0 -> receipt_core log_core <$> rs = receipt_core log_core <$> rs0 ->
  types.Root h3 = fst (ps_IntermediateRoot s1 (cc_IsEIP158 config (types.Number (block_Header block)))) -> equ_ctx equ sv s1 ->
  ValidateState config DeriveSha_receipts MergeBloom block sv rs (types.GasUsed (block_Header block)) = Ok tt.
Proof.
  intros Hh Hrs Hroot Hsv. unfold ValidateState. rewrite Z.eqb_refl. cbn [negb fail_if mbind result_bind].
  rewrite (bool_decide_eq_true_2 (MergeBloom rs = _)) by (rewrite Hh, NewBlock_Bloom; by apply MergeBloom_core).
  rewrite (bool_decide_eq_true_2 (DeriveSha_receipts rs = _)) by (rewrite Hh, NewBlock_ReceiptHash; by apply DeriveSha_core).
  cbn [negb fail_if mbind result_bind].
  destruct (ps_IntermediateRoot sv _) as [root s2] eqn:Hr. rewrite bool_decide_eq_true_2; [done|].
  rewrite Hh, NewBlock_Root, Hroot, <- (IntermediateRoot_ctx sv s1), Hr by done. done.
Qed.

(** The run of [commitNewWork] up to the assembly, replayed with the header of the block. *)
Lemma mined_replay clockTime parent coinbase pool pc hdr env0 env h0 bh context :
  header.is_header parent -> (forall n, cc_IsLondon config n = true) -> (forall n t, rules_ok (cc_Rules config n t)) ->
  pool_ok tx_ok pool -> no_activation parent ->
  prepareHeader Header_Hash config clockTime parent coinbase = Ok hdr ->
  prepareEnvironment (L := L) GetHeader blobFuel config StateAt registered upgrades pc parent hdr = Ok env0 ->
  fillTransactions IsValidVersionedHash CreateBloom CreateAddress Sender GetHeader blobFuel Header_Hash config false pool env0 =
    (Ok tt, env) ->
  header_ctx hdr h0 -> NewEVMBlockContext GetHeader blobFuel h0 None = Ok context ->
  replay equ IsValidVersionedHash CreateBloom log_core CreateAddress Sender config h0 bh (types.GasLimit hdr) (state env0)
    parent context env /\ header_ctx hdr (header env) /\ header.is_header (header env) /\
  dummy.hasValidBaseFee (types.BaseFee (header env)) = true.
Proof.
  intros Hp Hlon Hrules Hpool Hno Hhdr Henv Hfill Hh0 Hctx.
  destruct (prepareHeader_fields _ _ _ _ Hp Hhdr) as (Hnum & Hgu & Hts & Hgl & Hgasl & Hdiff & b & Hb & Hbb).
  destruct (prepareEnvironment_fields _ _ _ _ Hp Hts Hgasl Hno Henv) as (s0 & Hs0 & Hstart & Eh & Ep & Etx & Erc & Etc & Egp & _).
  assert (Hok : header_ok config (header env0)).
  { rewrite Eh. split; [done| |done]. exists b. split; [done|]. unfold MaxUint64 in Hbb. lia. }
  assert (Hgp0 : gasPool env0 <= types.GasLimit hdr <= MaxUint64) by u64_lia.
  destruct (fill_replays supply equ IsValidVersionedHash CreateBloom log_core CreateAddress Sender GetHeader blobFuel Header_Hash config
    h0 bh (types.GasLimit hdr) (state env0) parent context Hctx pool env0 env) as [Hr Hhe]; try done; try (by rewrite Eh).
  rewrite Eh in Hhe. split; [done|]. split; [done|].
  destruct Hr as [_ _ _ (rs & st & d & Hrun & _ & _ & _ & Hu & _)]. split.
  - split_and!; [by rewrite (hc_Time _ _ Hhe)| |by rewrite (hc_GasLimit _ _ Hhe)]. rewrite <- Hu.
    eapply process_used_u64; [|apply Hrun]. cbn. closed_u64.
  - rewrite (hc_BaseFee _ _ Hhe), Hb. cbn. lia.
Qed.


End Mined.

End minedspec.
