(* ===== verification/WrappedBlock.v ===== *)
(** * Blocks of the VM

    [plugin/evm/wrapped_block.go]: the verification, acceptance and rejection of a block, and
    from [plugin/evm/vm.go] the operations of the VM that make, read and prefer blocks.

    The VM's world (its databases, the block chain, the warp backend) is one state. The
    parts it is made of are interfaces here: [core.BlockChain] and [chain.State], the
    extension of a block (which [AtomicBlock] implements), the accepters of the precompiles.
    The logs and metrics are not kept. *)

From S2P Require Import Prelude Deps GoStd Lp176 ExtState Fees CustomTypes Header Consensus Predicate Transition Processor Store.
Import extstate predicate core processor.

(** [types.Log] *)
Record Log := mkLog {
  l_Address : Address;
  l_Topics : list Hash;
  l_Data : list byte;
  l_BlockNumber : Z;
  l_TxHash : Hash;
  l_BlockHash : Hash
}.

(** [extension.BlockExtension], over the side table of headers and the VM's world. *)
Record BlockExtension (W Batch : Type) := mkExtension {
  ext_SyntacticVerify : ExtM unit;
  ext_SemanticVerify : W -> result unit;
  ext_CleanupVerified : W -> W;
  ext_Accept : Batch -> StM W unit;
  ext_Reject : StM W unit
}.
Arguments ext_SyntacticVerify {W Batch}.
Arguments ext_SemanticVerify {W Batch}.
Arguments ext_CleanupVerified {W Batch}.
Arguments ext_Accept {W Batch}.
Arguments ext_Reject {W Batch}.

(** [core.BlockChain], and [chain.State] of [luxfi/vm], which keeps the blocks being processed. *)
Class ChainLib (W : Type) := {
  chain_Accept : Block Transaction -> StM W unit;
  chain_Reject : Block Transaction -> StM W unit;
  InsertBlockManual : Block Transaction -> bool -> StM W unit;
  chain_SetPreference : Block Transaction -> StM W unit;
  GetBlockByHash : Hash -> W -> option (Block Transaction);
  GetCanonicalHash : Z -> W -> Hash;
  ReadReceipts : Hash -> Z -> Z -> W -> list (Receipt Log);
  ReadHeaderNumber : Hash -> W -> option Z;
  IsProcessing : ID -> W -> bool;
  LastAcceptedHeight : W -> Z
}.

(** [versiondb.Database.Abort] and [database.Batch.Write] *)
Class VersionDBAbort (W Batch : Type) := {
  db_Abort : W -> W;
  batch_Write : Batch -> StM W unit
}.

(** [contract.Accepter.Accept] of a precompile: the hash and the number of the block, the hash of
    the transaction, the index of the log, its topics and data. *)
Definition Accepter (W : Type) : Type := Hash -> Z -> Hash -> Z -> list Hash -> list byte -> StM W unit.

Module evm.

Definition errInvalidBlock : error := errors_New "evm.errInvalidBlock".
Definition errInvalidNonce : error := errors_New "evm.errInvalidNonce".
Definition errUnclesUnsupported : error := errors_New "evm.errUnclesUnsupported".
Definition errNilBaseFee : error := errors_New "evm.errNilBaseFee".
Definition errInvalidHeaderPredicateResults : error := errors_New "evm.errInvalidHeaderPredicateResults".
Definition ErrGenerateBlockFailed : error := errors_New "vmerrors.ErrGenerateBlockFailed".
Definition ErrWrapBlockFailed : error := errors_New "vmerrors.ErrWrapBlockFailed".
Definition ErrBlockVerificationFailed : error := errors_New "vmerrors.ErrBlockVerificationFailed".
(** seconds *)
Definition maxFutureBlockTime : Z := 10.

Section Block.
Context {SM : SafeMath} {BL : BitsLib} {W Batch Ctx : Type}.
Context {DB : VersionDB W Batch} {AB : VersionDBAbort W Batch} {CL : ChainLib W}.
Context (Header_Hash : types.Header -> Hash).
Context (DeriveSha_txs : list Transaction -> Hash) (CalcUncleHash : list types.Header -> Hash).
Context (EmptyRootHash : Hash) (BlackholeAddr : Address).

Record wrappedBlock := mkWrapped {
  wb_id : ID;
  ethBlock : Block Transaction;
  extension : option (BlockExtension W Batch)
}.

Record VM := mkVM {
  vm_chainConfig : ChainConfig Ctx;
  vm_AccepterPrecompiles : Z -> Z -> gmap Address (Accepter W);
  vm_genesisHash : Hash;
  vm_clock : Z;
  vm_bootstrapped : bool;
  vm_NewBlockExtension : option (Block Transaction -> result (BlockExtension W Batch))
}.

(** The state of the node: the side table of headers and the world. *)
Abbreviation NodeM := (StM (ExtrasStore * W)).
Definition on_extras {A} (m : ExtM A) : NodeM A := fun st => let '(r, s1) := m (fst st) in (r, (s1, snd st)).

Definition wrapBlock (vm : VM) (block : Block Transaction) : result wrappedBlock :=
  let id := Header_Hash (block_Header block) in
  match vm_NewBlockExtension vm with
  | Some f => ext ← wrap_err "failed to create block extension" (f block); Ok (mkWrapped id block (Some ext))
  | None => Ok (mkWrapped id block None)
  end.

(** ** Acceptance *)

Fixpoint accept_logs (accepters : gmap Address (Accepter W)) (logs : list Log) (logIdx : Z) : StM W unit :=
  match logs with
  | [] => mret tt
  | log :: rest =>
      _ ← match accepters !! l_Address log with
          | None => mret tt
          | Some accept => accept (l_BlockHash log) (l_BlockNumber log) (l_TxHash log) logIdx (l_Topics log) (l_Data log)
          end;
      accept_logs accepters rest (logIdx + 1)
  end.

Definition handlePrecompileAccept (b : wrappedBlock) (accepters : gmap Address (Accepter W)) : StM W unit := fun w =>
  if (size accepters =? 0)%nat then (Ok tt, w) else
  let hdr := block_Header (ethBlock b) in
  let receipts := ReadReceipts (Header_Hash hdr) (types.Number hdr) (types.Time hdr) w in
  if (length receipts =? 0)%nat && negb (bool_decide (types.ReceiptHash hdr = EmptyRootHash))
  then (Err (errors_New "failed to fetch receipts for accepted block with non-empty root hash (%s)"), w)
  else for_each (fun receipt => accept_logs accepters (r_Logs receipt) 0) receipts w.

Definition acceptedPrefix : list byte := String.list_byte_of_string "quasarman_accepted".
Definition lastAcceptedKey : list byte := String.list_byte_of_string "last_accepted_key".

Definition PutLastAcceptedID (id : ID) : StM W unit := db_Put acceptedPrefix lastAcceptedKey id.

(** The body of [Accept]; the deferred [Abort] runs on every return. *)
Definition accept_body (vm : VM) (b : wrappedBlock) : StM W unit :=
  let hdr := block_Header (ethBlock b) in
  _ ← handlePrecompileAccept b (vm_AccepterPrecompiles vm (types.Number hdr) (types.Time hdr));
  _ ← wrapM "chain could not accept %s" (chain_Accept (ethBlock b));
  _ ← wrapM "failed to put %s as the last accepted block" (PutLastAcceptedID (wb_id b));
  vdbBatch ← wrapM "could not create commit batch processing block[%s]" (readM db_CommitBatch);
  match extension b with
  | Some ext => ext_Accept ext vdbBatch
  | None => batch_Write vdbBatch
  end.

Definition Accept (vm : VM) (b : wrappedBlock) : StM W unit := fun w =>
  let '(r, w) := accept_body vm b w in (r, db_Abort w).

Definition Reject (b : wrappedBlock) : StM W unit :=
  _ ← match extension b with Some ext => ext_Reject ext | None => mret tt end;
  chain_Reject (ethBlock b).

(** ** Verification *)

(** The blob fields and the beacon root of the header, by the fork. *)
Definition verifyCancun (cancun : bool) (hdr : types.Header) : result unit :=
  _ ← fail_if (negb cancun && bool_decide (is_Some (types.ExcessBlobGas hdr))) (errors_New "invalid excessBlobGas: have %d, expected nil");
  _ ← fail_if (negb cancun && bool_decide (is_Some (types.BlobGasUsed hdr))) (errors_New "invalid blobGasUsed: have %d, expected nil");
  _ ← fail_if (cancun && bool_decide (types.ExcessBlobGas hdr = None)) (errors_New "header is missing excessBlobGas");
  _ ← fail_if (cancun && bool_decide (types.BlobGasUsed hdr = None)) (errors_New "header is missing blobGasUsed");
  _ ← fail_if (negb cancun && bool_decide (is_Some (types.ParentBeaconRoot hdr))) (errors_New "invalid parentBeaconRoot: have %x, expected nil");
  if cancun then
    match types.ParentBeaconRoot hdr with
    | None => Err (errors_New "header is missing parentBeaconRoot")
    | Some root =>
        if negb (bool_decide (root = Hash_zero)) then Err (errors_New "invalid parentBeaconRoot: have %x, expected empty hash") else
        match types.BlobGasUsed hdr with
        | None => Err (errors_New "blob gas used must not be nil in Cancun")
        | Some used => fail_if (0 <? used) (errors_New "blobs not enabled on lux networks: used %d blob gas, expected 0")
        end
    end
  else Ok tt.

(** The checks of the header and the body before the extra fields. *)
Definition verifySanity (hdr : types.Header) : result unit :=
  _ ← fail_if (negb (IsUint64 (types.Number hdr))) (errors_New "invalid block number: %v");
  difficulty ← deref_opt (types.Difficulty hdr);
  _ ← fail_if (negb (IsUint64 difficulty) || negb (difficulty =? 1)) (errors_New "invalid difficulty: %d");
  _ ← fail_if (negb (be_decode (types.Nonce hdr) =? 0)) (errorf_w "expected nonce to be 0 but got %d" errInvalidNonce);
  _ ← fail_if (negb (bool_decide (types.MixDigest hdr = Hash_zero))) (errors_New "invalid mix digest: %v");
  header.VerifyExtra (types.Extra hdr).

Definition verifyBody (block : Block Transaction) : result unit :=
  let hdr := block_Header block in
  _ ← fail_if (negb (bool_decide (DeriveSha_txs (block_Transactions block) = types.TxHash hdr)))
        (errors_New "invalid txs hash %v does not match calculated txs hash %v");
  _ ← fail_if (negb (bool_decide (CalcUncleHash (block_Uncles block) = types.UncleHash hdr)))
        (errors_New "invalid uncle hash %v does not match calculated uncle hash %v");
  _ ← fail_if (negb (bool_decide (types.Coinbase hdr = BlackholeAddr)))
        (errors_New "invalid coinbase %v does not match required blackhole address %v");
  _ ← fail_if (0 <? length (block_Uncles block))%nat errUnclesUnsupported;
  match types.BaseFee hdr with
  | None => Err errNilBaseFee
  | Some baseFee => fail_if (256 <? BitLen baseFee) (errors_New "too large base fee: bitlen %d")
  end.

Definition syntacticVerify (vm : VM) (b : option wrappedBlock) : ExtM unit :=
  match b with
  | None => lift (Err errInvalidBlock)
  | Some b =>
      let block := ethBlock b in
      let hdr := block_Header block in
      if bool_decide (Header_Hash hdr = vm_genesisHash vm) then mret tt else
      _ ← lift (verifySanity hdr);
      version ← GetBlockVersion block;
      _ ← lift (fail_if (negb (version =? 0)) (errors_New "invalid version: %d"));
      _ ← lift (verifyBody block);
      l ← GetHeaderExtra Header_Hash hdr;
      headerExtra ← load l;
      _ ← lift (match HE_BlockGasCost headerExtra with
                | Some cost => fail_if (negb (IsUint64 cost)) (errors_New "too large blockGasCost: %d")
                | None => Ok tt
                end);
      _ ← lift (verifyCancun (cc_IsCancun (vm_chainConfig vm) (types.Number hdr) (types.Time hdr)) hdr);
      match extension b with
      | Some ext => ext_SyntacticVerify ext
      | None => mret tt
      end
  end.

Definition semanticVerify (vm : VM) (b : wrappedBlock) (w : W) : result unit :=
  let maxBlockTime := u64 (vm_clock vm + maxFutureBlockTime) in
  if maxBlockTime <? types.Time (block_Header (ethBlock b))
  then Err (errors_New "block timestamp is too far in the future: %d > allowed %d") else
  match extension b with
  | Some ext => ext_SemanticVerify ext w
  | None => Ok tt
  end.

(** The predicate results of the transactions, in their order. *)
Fixpoint check_txs (rules : Rules Ctx) (ctx : option (PredicateContext Ctx)) (txs : list Transaction) (acc : Results)
    : result Results :=
  match txs with
  | [] => Ok acc
  | tx :: rest =>
      results ← CheckPredicates rules ctx tx;
      check_txs rules ctx rest (SetTxResults acc (tx_Hash tx) results)
  end.

Definition verifyPredicates (vm : VM) (ctx : PredicateContext Ctx) (b : wrappedBlock) : result unit :=
  let hdr := block_Header (ethBlock b) in
  let rules := cc_Rules (vm_chainConfig vm) (types.Number hdr) (types.Time hdr) in
  predicateResults ← check_txs rules (Some ctx) (block_Transactions (ethBlock b)) NewResults;
  predicateResultsBytes ← wrap_err "failed to marshal predicate results" (Results_Bytes predicateResults);
  let headerPredicateResultsBytes := header.PredicateBytesFromExtra (types.Extra hdr) in
  fail_if (negb (bool_decide (headerPredicateResultsBytes = predicateResultsBytes)))
    (errorf_w "(remote: %x local: %x)" errInvalidHeaderPredicateResults).

(** Some transaction names a predicater in its access list. *)
Definition ShouldVerifyWithContext (vm : VM) (b : wrappedBlock) : bool :=
  let hdr := block_Header (ethBlock b) in
  let rules := cc_Rules (vm_chainConfig vm) (types.Number hdr) (types.Time hdr) in
  if negb (PredicatersExist rules) then false else
  existsb (fun tx => existsb (fun t => PredicaterExists rules (AT_Address t)) (tx_AccessList tx)) (block_Transactions (ethBlock b)).

Definition verify (vm : VM) (b : wrappedBlock) (predicateContext : PredicateContext Ctx) (writes : bool) : NodeM unit :=
  _ ← wrapM "syntactic block verification failed" (on_extras (syntacticVerify vm (Some b)));
  _ ← wrapM "failed to verify block" (on_snd (readM (semanticVerify vm b)));
  _ ← (if vm_bootstrapped vm
       then lift (wrap_err "failed to verify predicates" (verifyPredicates vm predicateContext b))
       else mret tt);
  on_snd (fun w =>
    if IsProcessing (wb_id b) w then (Ok tt, w) else
    let '(r, w) := InsertBlockManual (ethBlock b) writes w in
    match extension b with
    | Some ext => if is_Err r || (is_Ok r && negb writes) then (r, ext_CleanupVerified ext w) else (r, w)
    | None => (r, w)
    end).

Definition Verify (vm : VM) (b : wrappedBlock) : NodeM unit := verify vm b (mkPredicateContext None) true.

Definition VerifyWithContext (vm : VM) (b : wrappedBlock) (proposerVMBlockCtx : option Ctx) : NodeM unit :=
  verify vm b (mkPredicateContext proposerVMBlockCtx) true.

(** ** The VM *)

(** [fmt.Errorf("%w: %w", sentinel, err)], of which callers test the sentinel. *)
Definition wrap_sentinel {A} (sentinel : error) (r : result A) : result A :=
  match r with Ok a => Ok a | Err e => Err (errorf_w "%w: %w" sentinel) | Panic => Panic end.

Definition wrapM_sentinel {A} (sentinel : error) (m : NodeM A) : NodeM A := fun st =>
  let '(r, st) := m st in (wrap_sentinel sentinel r, st).

(** [miner.GenerateBlock] is an argument; the builder is told of the attempt. *)
Definition BuildBlockWithContext (vm : VM) (GenerateBlock : PredicateContext Ctx -> NodeM (Block Transaction))
    (handleGenerateBlock : W -> W) (proposerVMBlockCtx : option Ctx) : NodeM wrappedBlock := fun st =>
  let predicateCtx := mkPredicateContext proposerVMBlockCtx in
  match GenerateBlock predicateCtx st with
  | (Panic, st) => (Panic, st)
  | (r, st) =>
      let st := (fst st, handleGenerateBlock (snd st)) in
      (block ← lift (wrap_sentinel ErrGenerateBlockFailed r);
       blk ← lift (wrap_sentinel ErrWrapBlockFailed (wrapBlock vm block));
       _ ← wrapM_sentinel ErrBlockVerificationFailed (verify vm blk predicateCtx false);
       mret blk) st
  end.

(** [rlp.DecodeBytes] is an argument. *)
Definition parseBlock (vm : VM) (DecodeBytes : list byte -> result (Block Transaction)) (b : list byte) : ExtM wrappedBlock :=
  ethBlock ← lift (DecodeBytes b);
  block ← lift (wrapBlock vm ethBlock);
  _ ← wrapM "syntactic block verification failed" (syntacticVerify vm (Some block));
  mret block.

Definition ParseEthBlock (vm : VM) (DecodeBytes : list byte -> result (Block Transaction)) (b : list byte) : ExtM (Block Transaction) :=
  block ← parseBlock vm DecodeBytes b;
  mret (ethBlock block).

Definition getBlock (vm : VM) (id : ID) (w : W) : result wrappedBlock :=
  match GetBlockByHash id w with
  | None => Err ErrNotFound
  | Some ethBlock => wrapBlock vm ethBlock
  end.

Definition GetBlockIDAtHeight (height : Z) (w : W) : result ID :=
  if LastAcceptedHeight w <? height then Err ErrNotFound else
  let hash := GetCanonicalHash height w in
  if bool_decide (hash = Hash_zero) then Err ErrNotFound else Ok hash.

(** [GetBlock] is [chain.State]'s, which looks among the blocks being processed first. *)
Definition GetAcceptedBlock (GetBlock : ID -> W -> result wrappedBlock) (blkID : ID) (w : W) : result wrappedBlock :=
  blk ← GetBlock blkID w;
  acceptedBlkID ← GetBlockIDAtHeight (types.Number (block_Header (ethBlock blk))) w;
  if bool_decide (acceptedBlkID <> blkID) then Err ErrNotFound else Ok blk.

Definition SetPreference (GetExtendedBlock : ID -> W -> result wrappedBlock) (blkID : ID) : StM W unit := fun w =>
  match wrap_err "failed to set preference to %s" (GetExtendedBlock blkID w) with
  | Ok block => chain_SetPreference (ethBlock block) w
  | Err e => (Err e, w)
  | Panic => (Panic, w)
  end.

Definition ReadLastAccepted (vm : VM) (w : W) : result (Hash * Z) :=
  match db_Get w acceptedPrefix lastAcceptedKey with
  | Panic => Panic
  | Err e => if bool_decide (e = ErrNotFound) then Ok (vm_genesisHash vm, 0)
             else Err (errorf_w "failed to get last accepted block ID due to" e)
  | Ok lastAcceptedBytes =>
      if negb (length lastAcceptedBytes =? 32)%nat
      then Err (errors_New "last accepted bytes should have been length %d, but found %d") else
      let lastAcceptedHash := BytesToHash lastAcceptedBytes in
      match ReadHeaderNumber lastAcceptedHash w with
      | None => Err (errors_New "failed to retrieve header number of last accepted block: %s")
      | Some height => Ok (lastAcceptedHash, height)
      end
  end.

Definition stateSyncEnabled (configured : option bool) (lastAcceptedHeight : Z) : bool :=
  match configured with Some b => b | None => lastAcceptedHeight =? 0 end.

End Block.

(** [constantTimeEqual48]: the differences of the bytes, accumulated. *)
Definition constantTimeEqual48 (a b : list byte) : bool :=
  if negb (length a =? 48)%nat || negb (length b =? 48)%nat then false else
  fold_left (fun v xy => Z.lor v (Z.lxor (Z_of_byte (fst xy)) (Z_of_byte (snd xy)))) (zip a b) 0 =? 0.

End evm.
