(* ===== verification/WrappedBlockSpec.v ===== *)
(** * What a verified block looks like

    The syntactic checks of a block are its well-formedness; the context of the proposer is
    needed exactly for the blocks that say so; and the block the miner builds passes the
    checks it will meet. *)

From S2P Require Import Prelude Deps GoStd Lp176 ExtState Fees CustomTypes Header Consensus Predicate Transition Upgrades Processor TransitionSpec ProcessorSpec Ordering OrderingSpec Miner MinerSpec MinerBlockSpec Store WrappedBlock.
Import extstate predicate core corespec processor procspec txpool ordering orderingspec miner minerspec minedspec evm.

Module wrappedspec.

Section Verify.
Context {SM : SafeMath} {BL : BitsLib} {W Batch Ctx : Type}.
Context {DB : VersionDB W Batch} {AB : VersionDBAbort W Batch} {CL : ChainLib W}.
Context (Header_Hash : types.Header -> Hash).
Context (DeriveSha_txs : list Transaction -> Hash) (CalcUncleHash : list types.Header -> Hash) (BlackholeAddr : Address).
Implicit Types (vm : @VM W Batch Ctx) (b : @wrappedBlock W Batch).

Abbreviation syntacticVerify := (syntacticVerify Header_Hash DeriveSha_txs CalcUncleHash BlackholeAddr).

(** ** Well-formed blocks *)

(** The blob fields and the beacon root of a header: absent before Cancun, empty from it on. *)
Definition cancun_fields (cancun : bool) (hdr : types.Header) : Prop :=
  if cancun then is_Some (types.ExcessBlobGas hdr) /\ types.ParentBeaconRoot hdr = Some Hash_zero /\
                 exists used, types.BlobGasUsed hdr = Some used /\ used <= 0
  else types.ExcessBlobGas hdr = None /\ types.BlobGasUsed hdr = None /\ types.ParentBeaconRoot hdr = None.

Record well_formed vm (block : Block Transaction) (store : ExtrasStore) : Prop := {
  wfb_Number : is_u64 (types.Number (block_Header block));
  wfb_Difficulty : types.Difficulty (block_Header block) = Some 1;
  wfb_Nonce : be_decode (types.Nonce (block_Header block)) = 0;
  wfb_MixDigest : types.MixDigest (block_Header block) = Hash_zero;
  wfb_Extra : (lp176.StateSize <= length (types.Extra (block_Header block)))%nat;
  wfb_version : BE_Version (extras_Block_Get block store) = 0;
  wfb_TxHash : types.TxHash (block_Header block) = DeriveSha_txs (block_Transactions block);
  wfb_UncleHash : types.UncleHash (block_Header block) = CalcUncleHash [];
  wfb_Uncles : block_Uncles block = [];
  wfb_Coinbase : types.Coinbase (block_Header block) = BlackholeAddr;
  wfb_BaseFee : exists fee, types.BaseFee (block_Header block) = Some fee /\ BitLen fee <= 256;
  wfb_BlockGasCost : from_option is_u64 True (HE_BlockGasCost (extra_of Header_Hash store (block_Header block)));
  wfb_cancun : cancun_fields (cc_IsCancun (vm_chainConfig vm) (types.Number (block_Header block)) (types.Time (block_Header block)))
                 (block_Header block)
}.

Lemma verifyCancun_iff cancun hdr : verifyCancun cancun hdr = Ok tt <-> cancun_fields cancun hdr.
Proof.
  unfold verifyCancun, cancun_fields. destruct cancun; cbn [negb andb].
  - destruct (types.ExcessBlobGas hdr) as [ex|], (types.BlobGasUsed hdr) as [used|], (types.ParentBeaconRoot hdr) as [root|];
      cbn; try (split; [done|naive_solver]).
    case_bool_decide as Hr; cbn; [|split; [done|naive_solver]]. rewrite fail_if_Ok_iff, Z.ltb_ge. naive_solver.
  - destruct (types.ExcessBlobGas hdr), (types.BlobGasUsed hdr), (types.ParentBeaconRoot hdr); cbn; naive_solver.
Qed.

Lemma verifySanity_iff hdr : verifySanity hdr = Ok tt <->
  is_u64 (types.Number hdr) /\ types.Difficulty hdr = Some 1 /\ be_decode (types.Nonce hdr) = 0 /\
  types.MixDigest hdr = Hash_zero /\ (lp176.StateSize <= length (types.Extra hdr))%nat.
Proof.
  unfold verifySanity, header.VerifyExtra. rewrite bind_unit_iff, fail_if_Ok_iff, negb_false_iff, IsUint64_spec.
  apply and_iff_compat_l. destruct (types.Difficulty hdr) as [d|]; cbn; [|naive_solver].
  rewrite !bind_unit_iff, !fail_if_Ok_iff, orb_false_iff, !negb_false_iff, IsUint64_spec, !Z.eqb_eq, bool_decide_eq_true, bool_decide_eq_false, Nat.nlt_ge.
  assert (is_u64 1) by closed_u64. naive_solver.
Qed.

Lemma verifyBody_iff block : verifyBody DeriveSha_txs CalcUncleHash BlackholeAddr block = Ok tt <->
  types.TxHash (block_Header block) = DeriveSha_txs (block_Transactions block) /\
  types.UncleHash (block_Header block) = CalcUncleHash [] /\ block_Uncles block = [] /\
  types.Coinbase (block_Header block) = BlackholeAddr /\
  exists fee, types.BaseFee (block_Header block) = Some fee /\ BitLen fee <= 256.
Proof.
  unfold verifyBody. rewrite !bind_unit_iff, !fail_if_Ok_iff, !negb_false_iff, !bool_decide_eq_true, Nat.ltb_ge.
  destruct (block_Uncles block) as [|u us]; cbn [length]; [|split; [lia|naive_solver]].
  destruct (types.BaseFee (block_Header block)) as [fee|]; [|naive_solver]. rewrite fail_if_Ok_iff, Z.ltb_ge. naive_solver.
Qed.

Lemma lift_bind_Ok {S A} (m : result unit) (k : StM S A) st a :
  fst ((_ ← lift m; k) st) = Ok a <-> m = Ok tt /\ fst (k st) = Ok a.
Proof. rewrite lift_bind. destruct m as [[]|?|]; naive_solver. Qed.

(** C26. The syntactic verification of a block accepts exactly the well-formed blocks: number,
    difficulty, nonce and mix digest as the chain fixes them, an extra that holds a fee state,
    body hashes that match, no uncles, the blackhole as coinbase, a base fee, a block gas cost
    of 64 bits, and the blob fields of the fork, with no blob gas used. The extension of the
    block, if there is one, has the last word. *)
Theorem syntacticVerify_iff vm b store :
  store_wf store -> Header_Hash (block_Header (ethBlock b)) <> vm_genesisHash vm ->
  fst (syntacticVerify vm (Some b) store) = Ok tt <->
  well_formed vm (ethBlock b) store /\
  match extension b with
  | Some ext => fst (ext_SyntacticVerify ext (cached Header_Hash (block_Header (ethBlock b)) store)) = Ok tt
  | None => True
  end.
Proof.
  intros Hwf Hg. unfold evm.syntacticVerify. rewrite bool_decide_eq_false_2 by done.
  rewrite lift_bind_Ok, verifySanity_iff. unfold GetBlockVersion. rewrite (bindM_step (fun st => (Ok _, st)) _ store _ store eq_refl).
  rewrite !lift_bind_Ok, verifyBody_iff, fail_if_Ok_iff, negb_false_iff, Z.eqb_eq.
  rewrite read_extra by done. rewrite !lift_bind_Ok, verifyCancun_iff.
  assert (Hcost : match HE_BlockGasCost (extra_of Header_Hash store (block_Header (ethBlock b))) with
     | Some cost => fail_if (negb (IsUint64 cost)) (errors_New "too large blockGasCost: %d") | None => Ok tt end = Ok tt <->
     from_option is_u64 True (HE_BlockGasCost (extra_of Header_Hash store (block_Header (ethBlock b))))).
  { destruct (HE_BlockGasCost _); cbn; [|done]. by rewrite fail_if_Ok_iff, negb_false_iff, IsUint64_spec. }
  rewrite Hcost. split.
  - intros ((? & ? & ? & ? & ?) & ? & (? & ? & ? & ? & ?) & ? & ? & ?). split; [by split|]. by destruct (extension b).
  - intros [[] ?]. split_and!; try done. by destruct (extension b).
Qed.

(** ** The context of the proposer *)

Definition rules_of vm b : Rules Ctx :=
  cc_Rules (vm_chainConfig vm) (types.Number (block_Header (ethBlock b))) (types.Time (block_Header (ethBlock b))).

Definition names_predicater (rules : Rules Ctx) (tx : Transaction) : bool :=
  existsb (fun t => PredicaterExists rules (AT_Address t)) (tx_AccessList tx).

Lemma slots_empty (rules : Rules Ctx) tx :
  size (PreparePredicateStorageSlots (PredicaterExists rules) (tx_AccessList tx)) = 0%nat <-> names_predicater rules tx = false.
Proof.
  rewrite map_size_empty_iff. unfold names_predicater. split.
  - intros He. apply not_true_is_false. rewrite existsb_exists. intros (t & Ht & Hp).
    assert (PreparePredicateStorageSlots (PredicaterExists rules) (tx_AccessList tx) !! AT_Address t = Some (predicates_of tx (AT_Address t))) as Hs.
    { apply slots_iff. unfold PredicaterExists in Hp. apply bool_decide_eq_true in Hp. split_and!; [done|done|].
      unfold predicates_of. apply list_elem_of_In in Ht. intros Hn. apply fmap_nil_inv in Hn.
      assert (t ∈ filter (fun t' => AT_Address t' = AT_Address t) (tx_AccessList tx)) as Hin by (by apply list_elem_of_filter).
      rewrite Hn in Hin. by apply not_elem_of_nil in Hin. }
    by rewrite He, lookup_empty in Hs.
  - intros Hf. apply map_empty. intros a. apply eq_None_not_Some. intros [ps Hps]. apply slots_iff in Hps as ([p Hp] & -> & Hne).
    destruct (predicates_of tx a) as [|x xs] eqn:Hx; [done|]. unfold predicates_of in Hx. apply fmap_cons_inv in Hx as (t & ts & _ & _ & Ht).
    assert (t ∈ filter (fun t' => AT_Address t' = a) (tx_AccessList tx)) as Hin by (rewrite Ht; by left).
    apply list_elem_of_filter in Hin as [Ha Hin]. apply not_true_iff_false in Hf. apply Hf, existsb_exists. exists t.
    split; [by apply list_elem_of_In|]. unfold PredicaterExists. apply bool_decide_eq_true. rewrite Ha. by exists p.
Qed.

Lemma names_predicater_exist (rules : Rules Ctx) tx : names_predicater rules tx = true -> PredicatersExist rules = true.
Proof.
  unfold names_predicater. rewrite existsb_exists. intros (t & _ & Ht). unfold PredicaterExists in Ht. apply bool_decide_eq_true in Ht as [p Hp].
  destruct (PredicatersExist rules) eqn:He; [done|]. by rewrite (no_predicaters_lookup _ _ He) in Hp.
Qed.

Lemma CheckPredicates_unneeded (rules : Rules Ctx) c1 c2 tx :
  names_predicater rules tx = false -> CheckPredicates rules c1 tx = CheckPredicates rules c2 tx.
Proof.
  intros Hn. unfold CheckPredicates. destruct (IntrinsicGas _ _ _ _); cbn; [|done..].
  apply slots_empty in Hn. by rewrite Hn.
Qed.

Lemma CheckPredicates_needed (rules : Rules Ctx) ctx tx res :
  names_predicater rules tx = true -> ProposerVMBlockCtx ctx = None -> CheckPredicates rules (Some ctx) tx <> Ok res.
Proof.
  intros Hn Hc. unfold CheckPredicates. destruct (IntrinsicGas _ _ _ _); cbn [mbind result_bind]; [|done..].
  rewrite (names_predicater_exist rules tx), Hc by done. case_test; [done|]. cbn [negb]. case_match eqn:Hz; [|done].
  apply Nat.eqb_eq, slots_empty in Hz. congruence.
Qed.

Lemma check_txs_unneeded (rules : Rules Ctx) c1 c2 txs acc :
  existsb (names_predicater rules) txs = false -> check_txs rules c1 txs acc = check_txs rules c2 txs acc.
Proof.
  revert acc. induction txs as [|tx txs IH]; intros acc; cbn [existsb check_txs]; [done|]. intros [Ht Hts]%orb_false_iff.
  rewrite (CheckPredicates_unneeded rules c1 c2) by done. destruct (CheckPredicates _ _ _); cbn; [by apply IH|done..].
Qed.

Lemma check_txs_needed (rules : Rules Ctx) ctx txs acc res :
  existsb (names_predicater rules) txs = true -> ProposerVMBlockCtx ctx = None -> check_txs rules (Some ctx) txs acc <> Ok res.
Proof.
  intros Hn Hc. revert acc Hn. induction txs as [|tx txs IH]; intros acc; cbn [existsb check_txs]; [done|]. intros Hn.
  destruct (CheckPredicates _ _ _) as [r|?|] eqn:Hp; cbn; [|done..]. apply IH. apply orb_true_iff in Hn as [Hn|]; [|done].
  by destruct (CheckPredicates_needed _ _ _ _ Hn Hc Hp).
Qed.

Lemma should_iff vm b :
  ShouldVerifyWithContext vm b = existsb (names_predicater (rules_of vm b)) (block_Transactions (ethBlock b)).
Proof.
  unfold ShouldVerifyWithContext. fold (rules_of vm b). destruct (PredicatersExist (rules_of vm b)) eqn:He; cbn [negb]; [done|].
  symmetry. apply not_true_is_false. rewrite existsb_exists. intros (tx & _ & Htx). apply names_predicater_exist in Htx. congruence.
Qed.

(** C27. A block that asks to be verified with the proposer's context never passes the
    predicate check without one, and the verdict on a block that does not ask does not depend
    on the context at all: consensus may verify it with whatever context it has. *)
Theorem context_needed vm b :
  match ShouldVerifyWithContext vm b with
  | true => forall ctx, ProposerVMBlockCtx ctx = None -> verifyPredicates vm ctx b <> Ok tt
  | false => forall c1 c2, verifyPredicates vm c1 b = verifyPredicates vm c2 b
  end.
Proof.
  rewrite should_iff. destruct (existsb _ _) eqn:Hn.
  - intros ctx Hc. unfold verifyPredicates. fold (rules_of vm b).
    destruct (check_txs _ _ _ _) eqn:Hr; cbn; [|done..]. by apply check_txs_needed in Hr.
  - intros c1 c2. unfold verifyPredicates. fold (rules_of vm b). by rewrite (check_txs_unneeded _ (Some c1) (Some c2)).
Qed.

End Verify.

(** ** The table of the miner *)

Lemma inner_size_nonneg inner : 0 <= inner_size inner.
Proof. unfold inner_size. apply (map_fold_weak_ind (fun r _ => 0 <= r)); [lia|]. intros. unfold addrLen, len. lia. Qed.

(** A new transaction only makes the table longer. *)
Lemma results_size_fresh table hash res : table !! hash = None -> results_size table <= results_size (SetTxResults table hash res).
Proof.
  intros Hf. unfold SetTxResults. destruct (size res =? 0)%nat; [by rewrite delete_id|].
  unfold results_size at 2. rewrite map_fold_insert_L; [|intros; lia|done]. fold (results_size table).
  pose proof (inner_size_nonneg res). unfold hashLen. lia.
Qed.

Lemma SetTxResults_dom table hash res x : is_Some (SetTxResults table hash res !! x) -> x = hash \/ is_Some (table !! x).
Proof.
  unfold SetTxResults. destruct (size res =? 0)%nat.
  - rewrite lookup_delete_is_Some. tauto.
  - rewrite lookup_insert_is_Some. naive_solver.
Qed.

Lemma Delete_Set table hash res : table !! hash = None -> DeleteTxResults (SetTxResults table hash res) hash = table.
Proof.
  intros Hf. unfold DeleteTxResults, SetTxResults. destruct (size res =? 0)%nat; [by rewrite !delete_id by (by rewrite ?delete_id)|].
  by rewrite delete_insert_id.
Qed.

Section Table.
Context {SM : SafeMath} {GL : GasLib} {UI : U256Lib} {BL : BitsLib} {SL : SidecarLib} {S Ctx L : Type}.
Context {GDB : GethStateDB S} {DB : VMStateDB S} {AS : ActivationStateDB S} {PS : ProcStateDB L S} {SN : Snapshots S}.
Context {EL : EVMLib S Ctx} {MR : MapRange (list LazyTransaction)}.
Context (IsValidVersionedHash : Hash -> bool).
Context (CreateBloom : list L -> list byte) (CreateAddress : Address -> Z -> Address).
Context (Sender : Transaction -> result Address).
Context (GetHeader : Hash -> Z -> option types.Header) (blobFuel : nat) (Header_Hash : types.Header -> Hash).
Context (config : ChainConfig Ctx) (vmNoBaseFee : bool).
Abbreviation env := (environment S Ctx L).
Implicit Types (e : env).

Lemma check_txs_app (rules : Rules Ctx) ctx l1 l2 acc :
  check_txs rules ctx (l1 ++ l2) acc = (acc' ← check_txs rules ctx l1 acc; check_txs rules ctx l2 acc').
Proof.
  revert acc. induction l1 as [|tx l1 IH]; intros acc; cbn [app check_txs]; [done|].
  destruct (CheckPredicates _ _ _); cbn; [apply IH|done..].
Qed.

(** The table holds what a verifier of the transactions so far would compute, or it is too long
    to be written; no transaction that was not tried has an entry. *)
Record table_ok (tried : list Hash) e : Prop := {
  to_dom : forall h, is_Some (predicateResults e !! h) -> h ∈ tried;
  to_table : check_txs (rules e) (predicateContext e) (env_txs e) NewResults = Ok (predicateResults e) \/
             MaxResultsSize < results_size (predicateResults e)
}.

Abbreviation applyTransaction := (miner.applyTransaction IsValidVersionedHash CreateBloom CreateAddress Sender GetHeader blobFuel
  Header_Hash config vmNoBaseFee).
Abbreviation tryTransaction := (miner.tryTransaction IsValidVersionedHash CreateBloom CreateAddress Sender GetHeader blobFuel
  Header_Hash config vmNoBaseFee).
Abbreviation attempts := (minerspec.attempts IsValidVersionedHash CreateBloom CreateAddress Sender GetHeader blobFuel
  Header_Hash config vmNoBaseFee).

Lemma apply_table tried tx cb e r e' :
  is_Some (types.Difficulty (header e)) -> table_ok tried e -> tx_Hash tx ∉ tried -> applyTransaction tx cb e = (r, e') ->
  env_txs e' = env_txs e /\ types.BlobGasUsed (header e') = types.BlobGasUsed (header e) /\
  match r with
  | Ok _ => exists res, check_txs (rules e) (predicateContext e) (env_txs e) NewResults = Ok (predicateResults e) /\
      CheckPredicates (rules e) (predicateContext e) tx = Ok res /\
      predicateResults e' = SetTxResults (predicateResults e) (tx_Hash tx) res
  | Err _ => predicateResults e' = predicateResults e \/ exists res,
      predicateResults e' = SetTxResults (predicateResults e) (tx_Hash tx) res /\ MaxResultsSize < results_size (predicateResults e')
  | Panic => True
  end.
Proof.
  intros [d Hd] [Hdom Htab] Hn. unfold miner.applyTransaction. destruct (Snapshot (state e)) as [snap s].
  cbn [rules predicateContext predicateResults header set_state set_results env_txs].
  assert (Hfresh : predicateResults e !! tx_Hash tx = None) by (apply eq_None_not_Some; intros Hs; by apply Hn, Hdom).
  destruct (CheckPredicates _ _ tx) as [res|?|] eqn:Hcp; [|intros [= <- <-]; cbn; auto..].
  pose proof (results_size_fresh _ _ res Hfresh) as Hmono.
  destruct (Results_Bytes _) as [bytes|?|] eqn:Hb; unfold Results_Bytes in Hb; destruct (Z.ltb_spec MaxResultsSize (results_size (SetTxResults (predicateResults e) (tx_Hash tx) res)));
    try done.
  - unfold NewEVMBlockContextWithPredicateResults, NewEVMBlockContext. rewrite Hd.
    destruct (ApplyTransaction _ _ _ _ _ _ _ _ _ _ _) as [[receipt|err|] st]; intros [= <- <-]; cbn; split_and!; try done.
    + exists res. split_and!; [|done|done]. destruct Htab as [?|?]; [done|lia].
    + left. by apply Delete_Set.
  - intros [= <- <-]. cbn. split_and!; try done. right. by exists res.
Qed.

(** A plain transaction keeps the table and the blob gas. *)
Lemma try_table tried tx cb e op e' :
  is_Some (types.Difficulty (header e)) -> tx_Type tx <> BlobTxType -> table_ok tried e -> tx_Hash tx ∉ tried ->
  tryTransaction cb tx e = (Ok op, e') ->
  table_ok (tx_Hash tx :: tried) e' /\ types.BlobGasUsed (header e') = types.BlobGasUsed (header e).
Proof.
  intros Hd Hty Htab Hn Htry. pose proof (try_keeps _ _ _ _ _ _ _ _ _ _ _ _ _ _ Htry) as [_ _ _ _ Er Ec]. revert Htry.
  unfold miner.tryTransaction, commitTransaction. rewrite (proj2 (Z.eqb_neq _ _)) by done.
  set (e0 := set_state e _). assert (H0 : table_ok tried e0) by (destruct Htab; by split).
  destruct (miner.applyTransaction _ _ _ _ _ _ _ _ _ _ _ _) as [ra e1] eqn:Ha.
  destruct (apply_table tried _ _ e0 _ _ Hd H0 Hn Ha) as (Ht & Hbg & Hres). change (env_txs e0) with (env_txs e) in *.
  change (rules e0) with (rules e) in *. change (predicateContext e0) with (predicateContext e) in *. change (predicateResults e0) with (predicateResults e) in *.
  change (types.BlobGasUsed (header e0)) with (types.BlobGasUsed (header e)) in Hbg. destruct Htab as [Hdom Htab].
  destruct ra as [receipt|err|]; [| |done]; intros [= _ <-].
  - destruct Hres as (res & Hck & Hcp & Hpr). split; [|done]. cbn in *. split; cbn.
    + intros h. rewrite Hpr. intros Hs. apply SetTxResults_dom in Hs as [->|Hs]; [by left|right; by apply Hdom].
    + left. rewrite Er, Ec, Ht, check_txs_app, Hck, Hpr. cbn. by rewrite Hcp.
  - split; [|done]. destruct Hres as [Hpr|(res & Hpr & Hbig)].
    + split; rewrite Hpr; [intros h Hs; right; by apply Hdom|]. by rewrite Er, Ec, Ht.
    + split; [|by right]. intros h. rewrite Hpr. intros Hs. apply SetTxResults_dom in Hs as [->|Hs]; [by left|right; by apply Hdom].
Qed.

Lemma attempts_table tried e txs e' :
  attempts e txs e' -> is_Some (types.Difficulty (header e)) -> Forall (fun tx => tx_Type tx <> BlobTxType) txs ->
  NoDup (tx_Hash <$> txs) -> (forall h, h ∈ tx_Hash <$> txs -> h ∉ tried) -> table_ok tried e ->
  exists tried', table_ok tried' e' /\ types.BlobGasUsed (header e') = types.BlobGasUsed (header e).
Proof.
  intros Ha. revert tried. induction Ha as [|e tx op e1 txs e2 Ht _ IH]; intros tried Hd Hty Hnd Hdis Htab; [by exists tried|].
  apply list.Forall_cons in Hty as [Hty1 Hty]. rewrite fmap_cons in Hnd, Hdis. apply list.NoDup_cons in Hnd as [Hnt Hnd].
  assert (Hn : tx_Hash tx ∉ tried) by (apply Hdis; by left). destruct (try_table tried _ _ _ _ _ Hd Hty1 Htab Hn Ht) as [Htab1 Hbg].
  apply try_keeps in Ht as [[] _ _ _ _ _]. destruct (IH (tx_Hash tx :: tried)) as (tried' & ? & ?); [congruence|done|done| |done|].
  - intros h Hh. rewrite elem_of_cons. intros [->|Hin]; [done|]. apply (Hdis h); [by right|done].
  - exists tried'. split; [done|congruence].
Qed.

End Table.

(** ** The block of the miner *)

(** The hashes of the body that [types.NewBlock] puts in the header. *)
Class BodySpec {L : Type} (NewBlock_header : types.Header -> Body Transaction -> list (Receipt L) -> types.Header)
    (DeriveSha_txs : list Transaction -> Hash) (CalcUncleHash : list types.Header -> Hash) : Prop := {
  NewBlock_TxHash h txs uncles rs : types.TxHash (NewBlock_header h (mkBody txs uncles) rs) = DeriveSha_txs txs;
  NewBlock_UncleHash h txs uncles rs : types.UncleHash (NewBlock_header h (mkBody txs uncles) rs) = CalcUncleHash uncles
}.

Lemma prepareHeader_shape {SM : SafeMath} {GL : GasLib} {Ctx} Header_Hash (config : ChainConfig Ctx) clockTime parent coinbase hdr :
  prepareHeader Header_Hash config clockTime parent coinbase = Ok hdr ->
  be_decode (types.Nonce hdr) = 0 /\ types.MixDigest hdr = Hash_zero /\ types.Coinbase hdr = coinbase /\ types.Extra hdr = [] /\
  cancun_fields (cc_IsCancun config (types.Number hdr) (types.Time hdr)) hdr.
Proof.
  unfold prepareHeader, cancunFields. intros (gl & _ & (bf & _ & H)%bind_Ok)%bind_Ok.
  apply bind_Ok in H as ([[bgu ebg] beacon] & Hc & H). case_bool_decide; [done|]. injection H as <-. cbn.
  split_and!; try done. unfold cancun_fields. destruct (cc_IsCancun config _ _) in *.
  - apply bind_Ok in Hc as (ex & _ & [= <- <- <-]). cbn. split_and!; [by eexists|done|]. by exists 0.
  - by injection Hc as <- <- <-.
Qed.

Lemma cancun_fields_same cancun h h' :
  types.ExcessBlobGas h' = types.ExcessBlobGas h -> types.ParentBeaconRoot h' = types.ParentBeaconRoot h ->
  types.BlobGasUsed h' = types.BlobGasUsed h -> cancun_fields cancun h -> cancun_fields cancun h'.
Proof. unfold cancun_fields. by intros -> -> ->. Qed.

Section Mined.
Context {SM : SafeMath} {SMs : SafeMathSpec SM} {UI : U256Lib} {UIs : U256LibSpec} {GL : GasLib} {GLs : GasLibSpec GL}.
Context {BL : BitsLib} {SL : SidecarLib} {S Ctx L X : Type}.
Context {GDB : GethStateDB S} {DB : VMStateDB S} {AS : ActivationStateDB S} {PS : ProcStateDB L S} {SN : Snapshots S}.
Context {EL : EVMLib S Ctx} {MR : MapRange (list LazyTransaction)} {MRs : MapRangeSpec (list LazyTransaction)}.
Context (supply : S -> Z) {SPs : SupplySpec supply} {ES : EVMLibSpec supply}.
Context (equ : relation S) {SE : StateEquiv (Ctx := Ctx) (L := L) equ}.
Context (IsValidVersionedHash : Hash -> bool).
Context (CreateBloom : list L -> list byte) (log_core : L -> X) {LS : LogsSpec (S := S) CreateBloom log_core}.
Context (CreateAddress : Address -> Z -> Address).
Context (Sender : Transaction -> result Address) {SS : SidecarSpec Sender}.
Context (GetHeader : Hash -> Z -> option types.Header) (blobFuel : nat) (Header_Hash : types.Header -> Hash).
Context (config : ChainConfig Ctx) (StateAt : Hash -> result S) (rlpHash : list byte -> Hash).
Context (NewBlock_header : types.Header -> Body Transaction -> list (Receipt L) -> types.Header) {NB : NewBlockSpec NewBlock_header}.
Context (EffectiveGasTip : Transaction -> Z -> result Z) (effectiveTip : Transaction -> Z -> Z).
Context (eng : @dummy.DummyEngine Transaction S) (chain : dummy.ChainHeaderReader).
Context (TestOnlyAllowDuplicateBlocks : bool) (HasBlock : Hash -> Z -> bool).
Context {C : Type} {PC : PrecompileConfig C}.
Context (registered : list (modules.Module (@activation.Configure C S))) (upgrades : list C).
Context (DeriveSha_txs : list Transaction -> Hash) (CalcUncleHash : list types.Header -> Hash) (BlackholeAddr : Address).
Context {BS : BodySpec NewBlock_header DeriveSha_txs CalcUncleHash}.
Context {W Batch : Type} {VDB : VersionDB W Batch} {AB : VersionDBAbort W Batch} {CL : ChainLib W}.
Implicit Types (vm : @VM W Batch Ctx) (b : @wrappedBlock W Batch).

Definition plain_tx (tx : Transaction) : Prop := tx_ok tx /\ tx_Type tx <> BlobTxType.

(** The environment the miner commits. *)
Lemma filled_environment clockTime parent pool pc hdr (env0 env : environment S Ctx L) :
  header.is_header parent -> (forall n, cc_IsLondon config n = true) -> (forall n t, rules_ok (cc_Rules config n t)) ->
  pool_ok plain_tx pool -> pool_distinct pool -> no_activation registered upgrades parent ->
  prepareHeader Header_Hash config clockTime parent BlackholeAddr = Ok hdr ->
  prepareEnvironment (L := L) GetHeader blobFuel config StateAt registered upgrades pc parent hdr = Ok env0 ->
  fillTransactions IsValidVersionedHash CreateBloom CreateAddress Sender GetHeader blobFuel Header_Hash config false pool env0 =
    (Ok tt, env) ->
  env_kept env0 env /\ header env0 = hdr /\ miner.parent env0 = parent /\
  rules env = cc_Rules config (types.Number hdr) (types.Time hdr) /\ predicateContext env = pc /\
  (exists tried, table_ok tried env) /\ types.BlobGasUsed (header env) = types.BlobGasUsed hdr.
Proof.
  intros Hp Hlon Hrules Hpool Hdis Hno Hhdr Henv Hfill.
  destruct (prepareHeader_fields _ _ _ _ _ _ Hp Hhdr) as (_ & _ & Hts & _ & Hgasl & Hdiff & bf & Hb & Hbb).
  destruct (prepareEnvironment_fields _ _ _ _ _ _ _ _ _ _ Hp Hts Hgasl Hno Henv) as (s0 & _ & _ & Eh & Ep & Etx & _ & _ & _ & Er).
  apply fill_attempts in Hfill as (l & mt & fee & bfee & Hl & Htk);
    [|apply _|apply _|rewrite Eh, Hb; unfold baseFee_ok, MaxUint64 in *; lia|intros f; apply Hpool].
  pose proof (attempts_keep _ _ _ _ _ _ _ _ _ _ _ _ Hl) as Hk.
  assert (Hec : rules env0 = cc_Rules config (types.Number hdr) (types.Time hdr) /\ predicateContext env0 = pc).
  { clear -Henv. unfold prepareEnvironment, createCurrentEnvironment in Henv. apply bind_Ok in Henv as (e1 & H1%wrap_err_Ok & H).
    apply bind_Ok in H1 as (s & _ & (cap & _ & H1)%bind_Ok). destruct (_ <? _); [done|]. apply bind_Ok in H1 as (gp & _ & [= <-]).
    apply bind_Ok in H as (s1 & _ & H). destruct (activation.ApplyUpgrades _ _ _ _ _) as [r s2]. by apply bind_Ok in H as (_ & _ & [= <-]). }
  destruct Hec as [Eru Epc]. pose proof (taken_P _ _ _ _ _ _ Hpool Htk) as HP.
  destruct (attempts_table _ _ _ _ _ _ _ _ _ [] _ _ _ Hl) as (tried & Htab & Hbg).
  - rewrite Eh, Hdiff. done.
  - eapply list.Forall_impl; [exact HP|]. by intros tx [_ ?].
  - by eapply taken_distinct.
  - intros h _. apply not_elem_of_nil.
  - split; [rewrite Er; intros h; unfold NewResults; rewrite lookup_empty; by intros []|]. left. by rewrite Etx, Er.
  - split_and!; try done; [by rewrite (ek_rules _ _ Hk)|by rewrite (ek_context _ _ Hk)|by exists tried|by rewrite Hbg, Eh].
Qed.

Lemma predicate_bytes fs bytes : header.PredicateBytesFromExtra (lp176.Bytes fs ++ bytes) = bytes.
Proof.
  unfold header.PredicateBytesFromExtra. cbv zeta. rewrite length_app, lp176.length_Bytes. case_bool_decide.
  - destruct bytes; [done|cbn [length] in *; lia].
  - by rewrite drop_app_length' by (by rewrite lp176.length_Bytes).
Qed.

Lemma pool_ok_impl (P Q : Transaction -> Prop) pool : (forall tx, P tx -> Q tx) -> pool_ok P pool -> pool_ok Q pool.
Proof.
  intros HPQ Hok f. destruct (Hok f) as [Hq Hl]. split; [done|]. intros a q Ha. eapply list.Forall_impl; [by apply (Hl a q)|].
  intros ltx Hltx tx Htx. by apply HPQ, Hltx.
Qed.

(** The assembled block, from the fields of the environment. *)
Lemma assembled_well_formed vm block store' hdr (env : environment S Ctx L) fs bytes h3 :
  is_u64 (types.Number hdr) -> types.Difficulty hdr = Some 1 -> be_decode (types.Nonce hdr) = 0 -> types.MixDigest hdr = Hash_zero ->
  types.Coinbase hdr = BlackholeAddr -> (exists fee, types.BaseFee hdr = Some fee /\ 0 < fee <= MaxUint64) ->
  cancun_fields (cc_IsCancun (vm_chainConfig vm) (types.Number hdr) (types.Time hdr)) hdr ->
  header_ctx hdr (header env) -> types.Nonce (header env) = types.Nonce hdr -> types.BlobGasUsed (header env) = types.BlobGasUsed hdr ->
  same_fee_fields (header env) (block_Header block) -> types.Extra (block_Header block) = lp176.Bytes fs ++ bytes ->
  block_Transactions block = env_txs env -> block_Uncles block = [] -> BE_Version (extras_Block_Get block store') = 0 ->
  HE_BlockGasCost (extra_of Header_Hash store' (block_Header block)) = Some 0 ->
  block_Header block = NewBlock_header h3 (mkBody (env_txs env) []) (receipts env) ->
  well_formed Header_Hash DeriveSha_txs CalcUncleHash BlackholeAddr vm block store'.
Proof.
  intros Hn Hdiff Hno Hmix Hcb (bf & Hbf & Hbb) Hcan Hc Hnon Hbg (Ft & _ & _ & Fn & Fb & (_ & Fc & Fd & Fm & Fe & Fu & Fr & Fo)) Hex Htx Hun Hver Hcost Hh.
  pose proof Hc as []. split; try congruence.
  - rewrite Hex, length_app, lp176.length_Bytes. lia.
  - rewrite Hh, NewBlock_TxHash. by rewrite Htx.
  - by rewrite Hh, NewBlock_UncleHash.
  - exists bf. split; [congruence|]. apply BitLen_small. unfold MaxUint64 in *. lia.
  - rewrite Hcost. cbn. closed_u64.
  - rewrite Fn, Ft, (hc_Number _ _ Hc), (hc_Time _ _ Hc). apply (cancun_fields_same _ hdr); [congruence..|done].
Qed.


End Mined.

End wrappedspec.
