(* ===== verification/MinerExamples.v ===== *)
(** * A block from the pool to its verification

    A concrete state database with revisions and a transaction context, a small EVM over it, a
    precompile with predicates and a pool of two transactions. The theorems on the processor,
    the miner and the verification of blocks are applied to the block mined from them. *)

From S2P Require Import Prelude Deps GoStd Lp176 ExtState Fees CustomTypes Header Consensus Predicate Transition Upgrades Processor TransitionSpec TransitionExamples ProcessorSpec Ordering OrderingSpec Miner MinerSpec MinerBlockSpec Store WrappedBlock WrappedBlockSpec.
Import extstate predicate core corespec processor procspec txpool ordering orderingspec miner minerspec minedspec evm wrappedspec.
Import Deps.Concrete extstate.Concrete coreexamples header.HeaderWitness.

Module minerexamples.

(** ** The state database *)

Record World := mkWorld { accounts : Geth; context : Hash * Z; revisions : list Geth }.
Definition on_accounts (f : Geth -> Geth) (s : World) : World := mkWorld (f (accounts s)) (context s) (revisions s).

#[export] Instance world_geth : GethStateDB World := {|
  geth_GetState s := geth_GetState (accounts s);
  geth_SetState s a k v := on_accounts (fun g => geth_SetState g a k v) s;
  geth_GetBalance s := geth_GetBalance (accounts s);
  geth_AddBalance s a v := on_accounts (fun g => geth_AddBalance g a v) s;
  geth_SubBalance s a v := on_accounts (fun g => geth_SubBalance g a v) s;
  geth_GetNonce s := geth_GetNonce (accounts s);
  geth_SetNonce s a n := on_accounts (fun g => geth_SetNonce g a n) s
|}.

#[export] Instance world_vm : VMStateDB World := {| vm_GetCodeHash _ _ := EmptyCodeHash; vm_GetRefund _ := 0 |}.

#[export] Instance world_activation : ActivationStateDB World := {|
  act_SelfDestruct s _ := s;
  act_Finalise _ s := s;
  act_SetCode s _ _ := s
|}.

(** A log is the hash of its transaction and of its block; the root is the total balance. *)
Definition Log0 : Type := Hash * Hash.
#[export] Instance world_proc : ProcStateDB Log0 World := {|
  ps_SetTxContext h i s := mkWorld (accounts s) (h, i) (revisions s);
  ps_TxIndex s := (context s).2;
  ps_GetLogs s h _ bh _ := [(h, bh)];
  ps_AddAddressToAccessList s _ := s;
  ps_IntermediateRoot s _ := (be_encode 32 (supply (accounts s)), s)
|}.

#[export] Instance world_snapshots : Snapshots World := {|
  Snapshot s := (Z.of_nat (length (revisions s)), mkWorld (accounts s) (context s) (revisions s ++ [accounts s]));
  RevertToSnapshot n s := mkWorld (default (accounts s) (revisions s !! Z.to_nat n)) (context s) (take (Z.to_nat n) (revisions s))
|}.

#[export] Instance world_evm : EVMLib World unit := {|
  lib_Prepare _ _ _ _ _ s := s;
  lib_Create _ _ _ _ gas _ s := (([], 0, Some ErrExecutionReverted), s);
  lib_Call _ _ sender to data gas value s :=
    let '(r, g) := call0 sender to data gas (Z.abs value) (accounts s) in (r, mkWorld g (context s) (revisions s))
|}.

Definition total (s : World) : Z := supply (accounts s).

#[export] Instance total_spec : SupplySpec total.
Proof.
  split; unfold total; intros s a.
  - apply (balance_le_supply (accounts s)).
  - apply (supply_SubBalance (accounts s)).
  - apply (supply_AddBalance (accounts s)).
  - apply (supply_SetNonce (accounts s)).
Qed.

#[export] Instance world_evm_spec : EVMLibSpec (Ctx := unit) total.
Proof.
  split; cbn; intros.
  - done.
  - match goal with H : _ = (_, _, _, _) |- _ => injection H as <- <- <- <- end. lia.
  - match goal with H : _ = (_, _, _, _) |- _ => injection H as <- <- <- <- end. done.
  - revert H0. unfold call0. case_test; intros [= <- <- <- <-]; lia.
  - pose proof (call0_supply from0 to data gas (Z.abs value) (accounts s) ltac:(lia)) as Hs.
    destruct (call0 _ _ _ _ _ _) as [r g]. injection H as _ <-. done.
Qed.

#[export] Instance total_proc : ProcSupplySpec (L := Log0) total.
Proof. by split. Qed.

Definition same (s s' : World) : Prop := accounts s = accounts s' /\ context s = context s'.

Lemma revert_same s g : same (RevertToSnapshot (fst (Snapshot s)) (mkWorld g (context s) (revisions s ++ [accounts s]))) s.
Proof. split; [|done]. cbn. rewrite Nat2Z.id, list_lookup_middle; done. Qed.

Ltac world_cong := intros; intros [g c r] [g' c' r'] [Hg Hc]; cbn in Hg, Hc; subst; by repeat split.

#[export] Instance same_equiv : StateEquiv (Ctx := unit) (L := Log0) same.
Proof.
  split; try done; try world_cong.
  - split; [done|by intros s s' []|]. intros s1 s2 s3 [] []. split; congruence.
  - intros s s' a [H _]. unfold geth_GetBalance, world_geth. by rewrite H.
  - intros s s' a [H _]. cbn. by rewrite H.
  - intros s s' [_ H]. cbn. by rewrite H.
  - intros bc tc f t data gas v [g c r] [g' c' r'] [Hg Hc]. cbn in Hg, Hc. subst. cbn. by destruct (call0 _ _ _ _ _ _).
  - intros s. apply revert_same.
  - intros s a v. apply revert_same.
Qed.

(** ** The libraries *)

#[export] Instance bits : BitsLib := {|
  Bits := N;
  NewBits := 0%N;
  Bits_Add b i := N.setbit b (Z.to_N i);
  Bits_Bytes b := be_encode (N.to_nat (N.size b)) (Z.of_N b);
  BitsFromBytes l := Z.to_N (be_decode l);
  Bits_Contains b i := N.testbit b (Z.to_N i)
|}.

#[export] Instance bits_spec : BitsLibSpec.
Proof.
  split; cbn -[N.testbit N.setbit]; intros.
  - apply N.bits_0.
  - rewrite N.setbit_eqb. f_equal. destruct (Z.eqb_spec i j), (N.eqb_spec (Z.to_N i) (Z.to_N j)); (done || lia).
  - rewrite be_decode_encode, N2Z.id; [done|]. split; [lia|]. pose proof (N.size_gt b) as Hb. rewrite N_nat_Z.
    apply (Z.lt_le_trans _ (2 ^ Z.of_N (N.size b))); [apply N2Z.inj_lt in Hb; by rewrite N2Z.inj_pow in Hb|].
    apply Z.pow_le_mono_l. lia.
Qed.

#[export] Instance sidecars0 : SidecarLib := fun tx =>
  mkTransaction (tx_Hash tx) (tx_Nonce tx) (tx_Gas tx) (tx_GasPrice tx) (tx_GasFeeCap tx) (tx_GasTipCap tx) (tx_To tx)
    (tx_Value tx) (tx_Data tx) (tx_AccessList tx) (tx_BlobHashes tx) (tx_BlobGasFeeCap tx) (tx_Type tx) (tx_Size tx) None (tx_Protected tx).

Definition sender (tx : Transaction) : result Address := Ok alice.
#[export] Instance sidecars0_spec : SidecarSpec sender.
Proof. split; [done|]. intros tx. by exists (tx_Size tx). Qed.

#[export] Instance range0 : MapRange (list LazyTransaction) := fun m => map_to_list m.
#[export] Instance range0_spec : MapRangeSpec (list LazyTransaction).
Proof. by intros m. Qed.

Definition bloom0 (logs : list Log0) : list byte := be_encode 256 (Z.of_nat (length logs)).
#[export] Instance logs0_spec : LogsSpec (S := World) bloom0 (fst : Log0 -> Hash).
Proof. split; [|done]. intros l l' H. apply (f_equal length) in H. rewrite !length_fmap in H. unfold bloom0. by rewrite H. Qed.

Definition txs_root (txs : list Transaction) : Hash := be_encode 32 (Z.of_nat (length txs) + 1).
Definition uncles_root (uncles : list Header) : Hash := be_encode 32 (Z.of_nat (length uncles) + 2).
Definition receipts_root (rs : list (Receipt Log0)) : Hash := be_encode 32 (fold_right Z.add 0 (r_GasUsed <$> rs)).
Definition merge_bloom (rs : list (Receipt Log0)) : list byte := be_encode 256 (Z.of_nat (length rs)).

Definition new_block (h : Header) (body : Body Transaction) (rs : list (Receipt Log0)) : Header :=
  types.mkHeader (types.ParentHash h) (uncles_root (Uncles body)) (types.Coinbase h) (types.Root h) (txs_root (Transactions body))
    (receipts_root rs) (merge_bloom rs) (types.Difficulty h) (types.Number h) (types.GasLimit h) (types.GasUsed h) (types.Time h)
    (types.Extra h) (types.MixDigest h) (types.Nonce h) (types.BaseFee h) (types.BlobGasUsed h) (types.ExcessBlobGas h)
    (types.ParentBeaconRoot h) (types.ExtDataHash h) (types.ExtDataGasUsed h) (types.BlockGasCost h).

#[export] Instance new_block_spec : NewBlockSpec new_block.
Proof. split; by repeat split. Qed.
#[export] Instance new_block_body : BodySpec new_block txs_root uncles_root.
Proof. by split. Qed.
#[export] Instance new_block_roots : RootsSpec (fst : Log0 -> Hash) new_block receipts_root merge_bloom same.
Proof.
  split; try done.
  - intros rs rs' H. unfold receipts_root. by rewrite (core_gas _ _ _ H).
  - intros rs rs' H. apply (f_equal length) in H. rewrite !length_fmap in H. unfold merge_bloom. by rewrite H.
  - intros s s' b H. destruct (H Hash_zero 0) as [Ha _]. cbn in *. by rewrite Ha.
Qed.

(** ** A chain and its pool *)

(** The predicates of the precompile are its storage keys; the zero one fails. *)
Definition warp : Address := be_encode 20 (2 * 256 ^ 19 + 5).
Definition predicater0 : Predicater unit :=
  mkPredicater (fun _ => Ok 1000) (fun _ data => if be_decode data =? 0 then Err (errors_New "invalid") else Ok tt).
Definition rules0 : Rules unit := mkRules true true true {[ warp := predicater0 ]}.
Definition config0 : ChainConfig unit :=
  mkChainConfig unit (fun _ _ => true) (fun _ => true) (fun _ => true) (fun _ => true) (fun _ => true) (fun _ _ => rules0).

Definition send (n : Z) (hash : byte) (to : Address) (al : list AccessTuple) : Transaction :=
  mkTransaction (replicate 32 hash) n 40000 20 20 3 (Some to) 1000 [] al None None 2 200 None true.
Definition tx1 : Transaction := send 0 Byte.x01 bob [mkAccessTuple warp [Hash_zero]].
Definition tx2 : Transaction := send 1 Byte.x02 alice [].
(** The nonce is too high: it is tried and dropped. *)
Definition tx3 : Transaction := send 7 Byte.x03 bob [mkAccessTuple warp [replicate 32 Byte.x09]].

Definition lazy (t : Z) (tx : Transaction) : LazyTransaction :=
  mkLazy (fun _ => None) (tx_Hash tx) (Some tx) t (tx_GasFeeCap tx) (tx_GasTipCap tx) (tx_Gas tx) 0.
Definition pending0 : Queues := {[ alice := [lazy 5 tx1; lazy 6 tx2]; bob := [lazy 1 tx3] ]}.
Definition pool0 : TxPool := mkTxPool (fun f => if OnlyPlainTxs f then pending0 else ∅) [bob] 1.

Definition world0 : World := mkWorld coreexamples.genesis (Hash_zero, 0) [].
Definition blackhole : Address := be_encode 20 (256 ^ 19).
Definition parent0 : Header :=
  types.mkHeader Hash_zero Hash_zero blackhole Hash_zero Hash_zero Hash_zero [] (Some 1) 0 10000000 0 100 [] Hash_zero []
    (Some 1) (Some 0) (Some 0) (Some Hash_zero) None None (Some 0).

Definition eng0 : @dummy.DummyEngine Transaction World :=
  {| dummy.cb := {| dummy.OnFinalizeAndAssemble := None; dummy.OnExtraStateChange := None |};
     dummy.clock := 105; dummy.consensusMode := dummy.mkMode false false false; dummy.desiredTargetExcess := Some 40000 |}.
Definition chain0 : dummy.ChainHeaderReader :=
  {| dummy.GetHeader := fun _ _ => Some parent0; dummy.IsCancun := fun _ _ => true; dummy.IsEIP158 := fun _ => true |}.
Definition get_header (h : Hash) (n : Z) : option Header := if n =? 0 then Some parent0 else None.
Definition tip0 (tx : Transaction) (baseFee : Z) : Z := Z.min (tx_GasTipCap tx) (tx_GasFeeCap tx - baseFee).
Definition rlp0 (data : list byte) : Hash := be_encode 32 (be_decode data).

#[export] Instance cfg0 : PrecompileConfig unit := {|
  Key _ := ""%string; Timestamp _ := None; IsDisabled _ := false; Config_Verify _ := Ok tt
|}.
Definition registered0 : list (modules.Module (@activation.Configure unit World)) := [].

Definition ctx0 : PredicateContext unit := mkPredicateContext (Some tt).
Definition mining : result (Block Transaction * World) * ExtrasStore :=
  commitNewWork no_blobs bloom0 (fun a _ => a) sender get_header 100 hash0 config0 false (fun _ => Ok world0)
  rlp0 new_block (fun tx b => Ok (tip0 tx b)) tip0 eng0 chain0 false (fun _ _ => false) registered0 []
  110 parent0 blackhole pool0 (Some ctx0) store0.
Definition value_of (r : result (Block Transaction * World)) : Block Transaction * World :=
  match r with Ok v => v | _ => (mkBlock 1 parent0 [] [], world0) end.
Definition mined_block : Block Transaction := fst (value_of (fst mining)).
Definition mined_state : World := snd (value_of (fst mining)).
Definition mined_store : ExtrasStore := snd mining.

Lemma mined_ok :
  commitNewWork no_blobs bloom0 (fun a _ => a) sender get_header 100 hash0 config0 false (fun _ => Ok world0)
    rlp0 new_block (fun tx b => Ok (tip0 tx b)) tip0 eng0 chain0 false (fun _ _ => false) registered0 []
    110 parent0 blackhole pool0 (Some ctx0) store0 = (Ok (mined_block, mined_state), mined_store).
Proof.
  fold mining. assert (H : is_Ok (fst mining) = true) by (vm_compute; reflexivity).
  unfold mined_block, mined_state, mined_store. clear -H. generalize mining H. clear. by intros [[[b s]|e|] st].
Qed.
#[local] Opaque mining.

Lemma mined_store_wf : store_wf mined_store.
Proof.
  split.
  - intros k l Hk.
    assert (Hall : map_Forall (fun _ l => is_Some (es_heap mined_store !! l)) (headerExtras mined_store)).
    { apply (bool_decide_unpack _). vm_compute. exact I. }
    exact (Hall k l Hk).
  - intros l Hl.
    assert (Hall : map_Forall (fun l _ => (l < es_next mined_store)%positive) (es_heap mined_store)).
    { apply (bool_decide_unpack _). vm_compute. exact I. }
    destruct Hl as [e He]. exact (Hall l e He).
Qed.

Lemma pending0_elem a q : pending0 !! a = Some q -> q = [lazy 5 tx1; lazy 6 tx2] \/ q = [lazy 1 tx3].
Proof.
  unfold pending0. rewrite lookup_insert_Some, lookup_singleton_Some. naive_solver.
Qed.

Lemma pending0_ok : queues_ok pending0.
Proof.
  intros a q Hq. apply pending0_elem in Hq as [-> | ->]; (split; [done|]); repeat constructor; unfold MaxTime; cbn; lia.
Qed.

Lemma sent_plain n hash to al : plain_tx (send n hash to al).
Proof. split; [|done]. split_and!; [closed_u64|cbn; lia..]. Qed.

Lemma pool0_plain : pool_ok plain_tx pool0.
Proof.
  intros f. cbn. destruct (OnlyPlainTxs f); [|split; [intros a q|intros a q]; by rewrite lookup_empty].
  split; [apply pending0_ok|]. intros a q Hq.
  apply pending0_elem in Hq as [-> | ->]; repeat (apply Forall_cons_2; [intros tx [= <-]; apply sent_plain|]); apply Forall_nil_2.
Qed.

Lemma pool0_distinct : pool_distinct pool0.
Proof. intros minTip baseFee blobFee. apply (bool_decide_unpack _). vm_compute. exact I. Qed.

Lemma parent0_ok : header.is_header parent0.
Proof. repeat split; closed_u64. Qed.

Lemma rules0_ok : rules_ok rules0.
Proof. intros a p data g Hp. cbn in Hp; apply lookup_singleton_Some in Hp as [_ <-]. intros [= <-]. closed_u64. Qed.

Lemma contract0 : vm_contract same hash0 eng0 parent0 store0 mined_block mined_store.
Proof.
  intros hdr s txs extra contribution ext s1 st1 [= <- <- <- <- <-]. split; [apply store0_ok|]. split; [right; reflexivity|].
  intros _ _ _ vdb Hv. exists vdb, mined_store. split; [reflexivity|]. split; [apply mined_store_wf|]. split; [reflexivity|exact Hv].
Qed.


(** ** The other theorems *)

Definition vm0 : @VM unit unit unit := mkVM config0 (fun _ _ => ∅) Hash_zero 110 true None.
Definition wrapped0 : @wrappedBlock unit unit := mkWrapped (hash0 (block_Header mined_block)) mined_block None.

Lemma not_genesis : hash0 (block_Header mined_block) <> vm_genesisHash vm0.
Proof. apply (bool_decide_unpack _). vm_compute. exact I. Qed.


Lemma syntacticVerify_iff_witness :
  well_formed hash0 txs_root uncles_root blackhole vm0 mined_block mined_store.
Proof.
  refine (proj1 (proj1 (syntacticVerify_iff hash0 txs_root uncles_root blackhole vm0 wrapped0 mined_store mined_store_wf not_genesis) _)).
  vm_compute. reflexivity.
Defined.

Definition processed := Process no_blobs bloom0 (fun a _ => a) config0 sender registered0 [] get_header 100 hash0
  (fun tx b => Ok (tip0 tx b)) eng0 mined_block parent0 world0 false mined_store.
Definition processed_value (r : result (list (Receipt Log0) * list Log0 * Z * World)) :=
  match r with Ok v => v | _ => ([], [], 0, world0) end.


(** Three blocks, by number. *)
Definition block_hash (n : Z) : Hash := be_encode 32 (n + 77).
Definition header_at (n : Z) : Header :=
  types.mkHeader (block_hash (n - 1)) Hash_zero [] Hash_zero Hash_zero Hash_zero [] (Some 1) n 0 0 0 [] Hash_zero [] None None None None None None None.
Definition get_header3 (h : Hash) (n : Z) : option Header := if (0 <=? n) && (n <? 3) then Some (header_at n) else None.

Lemma get_header3_number h n hdr : get_header3 h n = Some hdr -> types.Number hdr = n.
Proof. unfold get_header3. destruct (_ && _); [|done]. by intros [= <-]. Qed.

Lemma GetHashFn_ancestor_witness : exists cache,
  GetHashFn get_header3 (header_at 3) 0 [] = Some (block_hash 0, cache) /\ cache_ok get_header3 (header_at 3) cache.
Proof.
  apply (GetHashFn_ancestor get_header3 get_header3_number (header_at 3) 0 []).
  - closed_u64.
  - lia.
  - by intros i h.
Defined.


Lemma order_refines_witness : exists t,
  newTransactionsByPriceAndNonce pending0 (Some 1) = Ok t /\ wf t /\ view t = pending0.
Proof.
  destruct (order_refines pending0 (Some 1) pending0_ok) as [(t & Ht & Hw & _ & Hv) _]; [cbn; lia|].
  exists t. split_and!; [exact Ht|exact Hw|]. rewrite Hv. apply map_filter_id. intros a q Hq. by apply pending0_elem in Hq as [-> | ->].
Defined.

Definition env0 : environment World unit Log0 := mkEnv world0 0 1000000 parent0 parent0 [] [] [] 0 0 rules0 (Some ctx0) ∅.

Lemma commitTransactions_ends_witness : exists t,
  newTransactionsByPriceAndNonce pending0 (Some 1) = Ok t /\
  is_Some (commitTransactions no_blobs bloom0 (fun a _ => a) sender get_header 100 hash0 config0 false
    (Datatypes.S (count t + count t)) t t blackhole env0).
Proof.
  destruct (new_view pending0 (Some 1) pending0_ok) as (t & Ht & Hw & _); [cbn; lia|]. exists t. split; [exact Ht|].
  apply (commitTransactions_ends no_blobs bloom0 (fun a _ => a) sender get_header 100 hash0 config0 false _ t t blackhole env0 Hw Hw). lia.
Defined.

End minerexamples.
