(* ===== verification/TxList.v ===== *)
(** * The lists of the transaction pool

    [core/txpool/legacypool/list.go] and [noncer.go]: the transactions of an account by nonce,
    with a heap of the nonces and a cache of the sorted list; the list with its total cost and
    its caps; the virtual nonces of the pool.

    A slot of the index without its item would put a [nil] transaction into the result, which
    the caller dereferences: such a run panics. *)

From S2P Require Import Prelude GoStd Slices ExtState Transition.
Import core.

(** The methods of [types.Transaction] and of [uint256.Int] that the pool uses. *)
Class TxLib := {
  Cost : Transaction -> Z;
  tx_Time : Transaction -> Z;
  tx_BlobGas : Transaction -> Z;
  EffectiveGasTipCmp : Transaction -> Transaction -> Z -> Z;
  EffectiveGasTipIntCmp : Transaction -> Z -> option Z -> Z
}.
Class U256Arith := {
  U256_Add : Z -> Z -> Z;
  U256_SubOverflow : Z -> Z -> Z * bool
}.
Class U256ArithSpec {UA : U256Arith} : Prop := {
  U256_Add_wraps a b : U256_Add a b = (a + b) mod 2 ^ 256;
  U256_Sub_fits a b : 0 <= b <= a -> a < 2 ^ 256 -> U256_SubOverflow a b = (a - b, false);
  U256_Sub_underflows a b : 0 <= a < b -> b < 2 ^ 256 -> snd (U256_SubOverflow a b) = true
}.

(** [for nonce, tx := range items]: every entry once, in an order the language leaves open. *)
Class NonceRange := range_nonces : gmap Z Transaction -> list (Z * Transaction).
Class NonceRangeSpec {NR : NonceRange} : Prop :=
  range_nonces_perm (m : gmap Z Transaction) : range_nonces m ≡ₚ map_to_list m.

(** [int64(z)] *)
Definition s64 (z : Z) : Z := (z + 2 ^ 63) mod 2 ^ 64 - 2 ^ 63.

Module txlist.
Local Open Scope word_scope.

(** ** [sortedMap] *)

#[local] Instance nonceHeap : heap.Interface (list Z) Z := slices.slice_heap Z.ltb.

Record sortedMap := mkSorted {
  items : gmap Z Transaction;
  index : list Z;
  cache : option (list Transaction)
}.
Definition newSortedMap : sortedMap := mkSorted ∅ [] None.
Definition set_items (m : sortedMap) (items : gmap Z Transaction) (index : list Z) : sortedMap := mkSorted items index (cache m).
Definition set_cache (m : sortedMap) (c : option (list Transaction)) : sortedMap := mkSorted (items m) (index m) c.

Definition Get (m : sortedMap) (nonce : Z) : option Transaction := items m !! nonce.

Definition Put (tx : Transaction) (m : sortedMap) : sortedMap :=
  let nonce := tx_Nonce tx in
  let index := match items m !! nonce with None => heap.heap_Push (index m) nonce | Some _ => index m end in
  mkSorted (<[nonce := tx]> (items m)) index None.

(** [heap.Pop(m.index)], [m.items[nonce]] and [delete(m.items, nonce)] *)
Definition pop_item (m : sortedMap) : result (Transaction * sortedMap) :=
  match heap.heap_Pop (index m) with
  | (idx, Some nonce) =>
      match items m !! nonce with
      | Some tx => Ok (tx, set_items m (delete nonce (items m)) idx)
      | None => Panic
      end
  | (_, None) => Panic
  end.

(** At most one round for each entry of the index. *)
Fixpoint forward_loop (fuel : nat) (threshold : Z) (m : sortedMap) (removed : list Transaction)
    : result (list Transaction * sortedMap) :=
  match fuel, index m with
  | S fuel', first :: _ =>
      if first <? threshold then
        '(tx, m) ← pop_item m;
        forward_loop fuel' threshold m (removed ++ [tx])
      else Ok (removed, m)
  | _, _ => Ok (removed, m)
  end.

(** [m.cache[i:]] and [m.cache[:n]], when there is a cache *)
Definition cache_from (i : nat) (m : sortedMap) : result sortedMap :=
  match cache m with
  | None => Ok m
  | Some c => if (i <=? length c)%nat then Ok (set_cache m (Some (drop i c))) else Panic
  end.
Definition cache_without (k : nat) (m : sortedMap) : result sortedMap :=
  match cache m with
  | None => Ok m
  | Some c => if (k <=? length c)%nat then Ok (set_cache m (Some (take (length c - k) c))) else Panic
  end.

Definition Forward (threshold : Z) : StM sortedMap (list Transaction) := methodM (fun m =>
  '(removed, m) ← forward_loop (length (index m)) threshold m [];
  m ← cache_from (length removed) m;
  Ok (removed, m)).

Section Range.
Context {NR : NonceRange}.

(** [filter], which leaves the heap as it is *)
Definition filter_items (f : Transaction -> bool) (m : sortedMap) : list Transaction * sortedMap :=
  let '(removed, items') := fold_left (fun '(removed, items) '(nonce, tx) =>
    if f tx then (removed ++ [tx], delete nonce items) else (removed, items)) (range_nonces (items m)) ([], items m) in
  (removed, mkSorted items' (index m) (if (0 <? length removed)%nat then None else cache m)).

Definition reheap (m : sortedMap) : sortedMap := mkSorted (items m) (heap.heap_Init (range_nonces (items m)).*1) None.

Definition Filter (f : Transaction -> bool) (m : sortedMap) : list Transaction * sortedMap :=
  let '(removed, m) := filter_items f m in
  (removed, if (0 <? length removed)%nat then reheap m else m).

(** [for size := len(m.items); size > threshold; size--], [k] rounds *)
Fixpoint cap_loop (k : nat) (size : Z) (m : sortedMap) (drops : list Transaction) : result (list Transaction * sortedMap) :=
  match k with
  | O => Ok (drops, m)
  | S k' =>
      if size - 1 <? 0 then Panic else
      match index m !! Z.to_nat (size - 1) with
      | None => Panic
      | Some nonce =>
          match items m !! nonce with
          | None => Panic
          | Some tx => cap_loop k' (size - 1) (set_items m (delete nonce (items m)) (index m)) (drops ++ [tx])
          end
      end
  end.

Definition Cap (threshold : Z) : StM sortedMap (list Transaction) := methodM (fun m =>
  let size := Z.of_nat (base.size (items m)) in
  if size <=? threshold then Ok ([], m) else
  let m := set_items m (items m) (sort.Sort Z.ltb (index m)) in
  '(drops, m) ← cap_loop (Z.to_nat (size - threshold)) size m [];
  if (threshold <? 0) || (Z.of_nat (length (index m)) <? threshold) then Panic else
  let m := set_items m (items m) (take (Z.to_nat threshold) (index m)) in
  m ← cache_without (length drops) m;
  Ok (drops, m)).

Definition Remove (nonce : Z) (m : sortedMap) : bool * sortedMap :=
  match items m !! nonce with
  | None => (false, m)
  | Some _ =>
      let index :=
        match list_find (eq nonce) (index m) with
        | Some (i, _) => fst (heap.heap_Remove (index m) i)
        | None => index m
        end in
      (true, mkSorted (delete nonce (items m)) index None)
  end.

Fixpoint ready_loop (fuel : nat) (next : Z) (m : sortedMap) (ready : list Transaction) : result (list Transaction * sortedMap) :=
  match fuel, index m with
  | S fuel', first :: _ =>
      if first =? next then
        match items m !! next with
        | None => Panic
        | Some tx =>
            ready_loop fuel' (next +u 1) (set_items m (delete next (items m)) (fst (heap.heap_Pop (index m)))) (ready ++ [tx])
        end
      else Ok (ready, m)
  | _, _ => Ok (ready, m)
  end.

Definition Ready (start : Z) : StM sortedMap (list Transaction) := methodM (fun m =>
  match index m with
  | [] => Ok ([], m)
  | first :: _ =>
      if start <? first then Ok ([], m) else
      '(ready, m) ← ready_loop (length (index m)) first m [];
      Ok (ready, set_cache m None)
  end).

Definition Len (m : sortedMap) : nat := base.size (items m).

(** [types.TxByNonce] *)
Definition TxByNonce (a b : Transaction) : bool := tx_Nonce a <? tx_Nonce b.

Definition flatten (m : sortedMap) : list Transaction * sortedMap :=
  match cache m with
  | Some c => (c, m)
  | None => let c := sort.Sort TxByNonce (range_nonces (items m)).*2 in (c, set_cache m (Some c))
  end.

(** [Flatten] is a copy of the cache. *)
Definition Flatten (m : sortedMap) : list Transaction * sortedMap := flatten m.

Definition LastElement (m : sortedMap) : result Transaction * sortedMap :=
  let '(c, m) := flatten m in
  (match list.last c with Some tx => Ok tx | None => Panic end, m).

(** ** [list] *)

Context {UI : U256Lib} {UA : U256Arith} {TL : TxLib}.

Record txList := mkTxList {
  strict : bool;
  txs : sortedMap;
  costcap : Z;
  gascap : Z;
  totalcost : Z
}.
Definition newList (strict : bool) : txList := mkTxList strict newSortedMap 0 0 0.
Definition set_txs (l : txList) (m : sortedMap) : txList := mkTxList (strict l) m (costcap l) (gascap l) (totalcost l).
Definition set_total (l : txList) (total : Z) : txList := mkTxList (strict l) (txs l) (costcap l) (gascap l) total.
Definition set_caps (l : txList) (costcap gascap : Z) : txList := mkTxList (strict l) (txs l) costcap gascap (totalcost l).

Definition on_txs {A} (m : StM sortedMap A) : StM txList A := fun l =>
  let '(r, s) := m (txs l) in (r, set_txs l s).

Definition list_Contains (l : txList) (nonce : Z) : bool := bool_decide (is_Some (Get (txs l) nonce)).

Fixpoint sub_costs (total : Z) (txs : list Transaction) : result Z :=
  match txs with
  | [] => Ok total
  | tx :: rest =>
      cost ← MustFromBig (Cost tx);
      let '(total, underflow) := U256_SubOverflow total cost in
      if underflow then Panic else sub_costs total rest
  end.
Definition subTotalCost (txs : list Transaction) : StM txList unit := methodM (fun l =>
  total ← sub_costs (totalcost l) txs; Ok (tt, set_total l total)).

(** An older transaction with the nonce is better, or the bump is too small. *)
Definition keeps_old (old tx : Transaction) (priceBump : Z) : bool :=
  if (tx_GasFeeCap tx <=? tx_GasFeeCap old) || (tx_GasTipCap tx <=? tx_GasTipCap old) then true else
  let a := s64 (100 + s64 priceBump) in
  let thresholdFeeCap := a * tx_GasFeeCap old / 100 in
  let thresholdTip := a * tx_GasTipCap old / 100 in
  (tx_GasFeeCap tx <? thresholdFeeCap) || (tx_GasTipCap tx <? thresholdTip).

(** The second half of [Add]: the new transaction in the place of [old]. *)
Definition add_new (tx : Transaction) (old : option Transaction) : StM txList (bool * option Transaction) :=
  let '(cost, overflow) := FromBig (Cost tx) in
  if overflow : bool then mret (false, None) else
  fun l =>
    let l := set_total l (U256_Add (totalcost l) cost) in
    let l := set_txs l (Put tx (txs l)) in
    let l := set_caps l (if costcap l <? cost then cost else costcap l) (if gascap l <? tx_Gas tx then tx_Gas tx else gascap l) in
    (Ok (true, old), l).

Definition list_Add (tx : Transaction) (priceBump : Z) : StM txList (bool * option Transaction) :=
  l ← getM;
  let old := Get (txs l) (tx_Nonce tx) in
  if match old with Some old => keeps_old old tx priceBump | None => false end then mret (false, None) else
  _ ← subTotalCost (option_list old);
  add_new tx old.

Definition list_Forward (threshold : Z) : StM txList (list Transaction) :=
  txs ← on_txs (Forward threshold); _ ← subTotalCost txs; mret txs.

(** [filter] of a strict list: everything above the lowest nonce that was removed *)
Definition filter_above (removed : list Transaction) (l : txList) : list Transaction * txList :=
  if strict l then
    let lowest := fold_left (fun lowest tx => if tx_Nonce tx <? lowest then tx_Nonce tx else lowest) removed MaxUint64 in
    let '(invalids, m) := filter_items (fun tx => lowest <? tx_Nonce tx) (txs l) in
    (invalids, set_txs l m)
  else ([], l).

Definition list_Filter (costLimit gasLimit : Z) : StM txList (list Transaction * list Transaction) :=
  l ← getM;
  if (costcap l <=? costLimit) && (gascap l <=? gasLimit) then mret ([], []) else
  _ ← modifyM (fun l => set_caps l costLimit gasLimit);
  removed ← on_txs (totalM (Filter (fun tx => (gasLimit <? tx_Gas tx) || (costLimit <? Cost tx))));
  if (length removed =? 0)%nat then mret ([], []) else
  invalids ← totalM (filter_above removed);
  _ ← subTotalCost removed;
  _ ← subTotalCost invalids;
  _ ← modifyM (fun l => set_txs l (reheap (txs l)));
  mret (removed, invalids).

Definition list_Cap (threshold : Z) : StM txList (list Transaction) :=
  txs ← on_txs (Cap threshold); _ ← subTotalCost txs; mret txs.

Definition list_Remove (tx : Transaction) : StM txList (bool * list Transaction) :=
  let nonce := tx_Nonce tx in
  removed ← on_txs (totalM (Remove nonce));
  if negb removed then mret (false, []) else
  _ ← subTotalCost [tx];
  l ← getM;
  if strict l then
    txs ← on_txs (totalM (Filter (fun tx => nonce <? tx_Nonce tx)));
    _ ← subTotalCost txs;
    mret (true, txs)
  else mret (true, []).

Definition list_Ready (start : Z) : StM txList (list Transaction) :=
  txs ← on_txs (Ready start); _ ← subTotalCost txs; mret txs.

Definition list_Len (l : txList) : nat := Len (txs l).
Definition list_Empty (l : txList) : bool := (list_Len l =? 0)%nat.

Definition list_Flatten : StM txList (list Transaction) := on_txs (totalM Flatten).
Definition list_LastElement : StM txList Transaction := on_txs LastElement.

End Range.

(** ** [noncer] *)

Section Noncer.
Context {S : Type} {GDB : GethStateDB S}.

Record noncer := mkNoncer { fallback : S; nonces : gmap Address Z }.
Definition newNoncer (statedb : S) : noncer := mkNoncer statedb ∅.

(** A nonce that is not zero is remembered. *)
Definition load (addr : Address) (txn : noncer) : noncer :=
  match nonces txn !! addr with
  | Some _ => txn
  | None =>
      let nonce := geth_GetNonce (fallback txn) addr in
      if nonce =? 0 then txn else mkNoncer (fallback txn) (<[addr := nonce]> (nonces txn))
  end.
Definition noncer_get (addr : Address) (txn : noncer) : Z * noncer :=
  let txn := load addr txn in (default 0 (nonces txn !! addr), txn).
Definition noncer_set (addr : Address) (nonce : Z) (txn : noncer) : noncer :=
  mkNoncer (fallback txn) (<[addr := nonce]> (nonces txn)).
Definition noncer_setIfLower (addr : Address) (nonce : Z) (txn : noncer) : noncer :=
  let txn := load addr txn in
  if default 0 (nonces txn !! addr) <=? nonce then txn else noncer_set addr nonce txn.
Definition noncer_setAll (all : gmap Address Z) (txn : noncer) : noncer := mkNoncer (fallback txn) all.

End Noncer.
#[global] Arguments noncer : clear implicits.

End txlist.
