(* ===== verification/TxListSpec.v ===== *)
(** * The lists of the transaction pool: what they hold

    A [sortedMap] is the list of its transactions in the order of their nonces: the heap of the
    nonces, the map and the cache agree on it after every operation. A [txList] also keeps the
    sum of the costs and bounds for them, and a strict one has no gaps. *)

From Stdlib Require Import Sorting.Sorted.
From S2P Require Import Prelude GoStd Slices ExtState Transition TxList.
Import core txlist.

Module txlistspec.
#[export] Instance AccessTuple_eq_dec : EqDecision extstate.AccessTuple.
Proof. solve_decision. Defined.
#[export] Instance Transaction_eq_dec : EqDecision Transaction.
Proof. solve_decision. Defined.
#[local] Existing Instance nonceHeap.

(** ** Lists in the order of their nonces *)

Definition by_nonce (a b : Transaction) : Prop := tx_Nonce a < tx_Nonce b.
Notation ascending := (StronglySorted by_nonce).

Definition of_list (s : list Transaction) : gmap Z Transaction := list_to_map ((fun tx => (tx_Nonce tx, tx)) <$> s).

Lemma ascending_nodup s : ascending s -> NoDup (tx_Nonce <$> s).
Proof.
  induction 1 as [|x s Hs IH Hx]; [constructor|]. apply list.NoDup_cons. split; [|done].
  intros (y & Hy & Hin)%list_elem_of_fmap. rewrite list.Forall_forall in Hx. specialize (Hx y Hin). unfold by_nonce in Hx. lia.
Qed.

Lemma ascending_sublist s s' : sublist s' s -> ascending s -> ascending s'.
Proof.
  induction 1 as [|x l1 l2 Hsub IH|x l1 l2 Hsub IH]; intros Hs; [done| |].
  - inversion Hs as [|? ? Hl Hx]; subst. constructor; [by apply IH|].
    rewrite list.Forall_forall in *. intros y Hy. apply Hx. by eapply elem_of_sublist.
  - inversion Hs; subst. by apply IH.
Qed.

Lemma ascending_filter P `{!forall x, Decision (P x)} s : ascending s -> ascending (filter P s).
Proof. apply ascending_sublist. apply sublist_filter. Qed.

Lemma of_list_lookup s n tx : ascending s -> of_list s !! n = Some tx <-> tx ∈ s /\ tx_Nonce tx = n.
Proof.
  intros Hs. unfold of_list. rewrite <- elem_of_list_to_map.
  - rewrite list_elem_of_fmap. split; [by intros (? & [= -> ->] & ?)|intros [? <-]; by exists tx].
  - rewrite <- list_fmap_compose. by apply ascending_nodup.
Qed.

Lemma of_list_eq (m : gmap Z Transaction) s : ascending s ->
  (forall n tx, m !! n = Some tx <-> tx ∈ s /\ tx_Nonce tx = n) -> m = of_list s.
Proof.
  intros Hs Hm. apply map_eq. intros n. apply option_eq. intros tx. by rewrite Hm, of_list_lookup.
Qed.

Lemma of_list_perm s : ascending s -> map_to_list (of_list s) ≡ₚ (fun tx => (tx_Nonce tx, tx)) <$> s.
Proof. intros Hs. apply map_to_list_to_map. rewrite <- list_fmap_compose. by apply ascending_nodup. Qed.

Lemma of_list_size s : ascending s -> size (of_list s) = length s.
Proof. intros Hs. by rewrite <- length_map_to_list, of_list_perm, length_fmap. Qed.

Lemma nonce_inj s a b : ascending s -> a ∈ s -> b ∈ s -> tx_Nonce a = tx_Nonce b -> a = b.
Proof.
  intros Hs Ha Hb E. assert (of_list s !! tx_Nonce b = Some a) as Ha' by (by apply of_list_lookup).
  assert (of_list s !! tx_Nonce b = Some b) as Hb' by (by apply of_list_lookup). congruence.
Qed.

Lemma ascending_unique s1 s2 : ascending s1 -> ascending s2 -> s1 ≡ₚ s2 -> s1 = s2.
Proof. apply slices.sorted_perm_unique; unfold by_nonce; intros; lia. Qed.

(** ** The state of a [sortedMap] *)

Notation nonces_of s := (tx_Nonce <$> s).
Notation nheap := (slices.heap_ok (fun _ : Z => True) (fun n => n)).

Lemma nonce_less (a b : Z) : True -> True -> (a <? b) = (a <? b).
Proof. done. Qed.

(** The map and the heap hold the transactions of the list. *)
Record held (m : sortedMap) (s : list Transaction) : Prop := {
  held_ascending : ascending s;
  held_u64 : Forall (fun tx => is_u64 (tx_Nonce tx)) s;
  held_items : items m = of_list s;
  held_heap : nheap (index m);
  held_index : index m ≡ₚ nonces_of s
}.
Record sorted_ok (m : sortedMap) (s : list Transaction) : Prop := {
  ok_held : held m s;
  ok_cache : forall c, cache m = Some c -> c = s
}.

Lemma new_ok : sorted_ok newSortedMap [].
Proof. split; [|done]. split; cbn; [constructor..| |done]. apply slices.heap_ok_nil. Qed.

Lemma held_get m s n tx : held m s -> items m !! n = Some tx <-> tx ∈ s /\ tx_Nonce tx = n.
Proof. intros H. rewrite (held_items _ _ H). apply of_list_lookup, H. Qed.

Lemma held_get_none m s n : held m s -> items m !! n = None <-> n ∉ nonces_of s.
Proof.
  intros H. rewrite eq_None_not_Some. split; intros Hn; contradict Hn.
  - apply list_elem_of_fmap in Hn as (tx & -> & Hin). exists tx. by apply (held_get _ _ _ _ H).
  - destruct Hn as [tx Htx]. apply (held_get _ _ _ _ H) in Htx as [Hin <-]. by apply list_elem_of_fmap_2.
Qed.

Lemma held_len m s : held m s -> Len m = length s /\ length (index m) = length s.
Proof.
  intros H. unfold Len. rewrite (held_items _ _ H), of_list_size by apply H. split; [done|].
  by rewrite (held_index _ _ H), length_fmap.
Qed.

(** Every part of the list is held by the map and the heap that hold its nonces. *)
Lemma held_sub m m' s s' : held m s -> sublist s' s -> nheap (index m') -> index m' ≡ₚ nonces_of s' ->
  (forall n tx, items m' !! n = Some tx <-> tx ∈ s' /\ tx_Nonce tx = n) -> held m' s'.
Proof.
  intros H Hs Hh Hi Hit. assert (Ha : ascending s') by (eapply ascending_sublist; [done|apply H]).
  split; [done| | |done|done].
  - rewrite list.Forall_forall. intros x Hx. pose proof (held_u64 _ _ H) as Hu. rewrite list.Forall_forall in Hu. by eapply Hu, elem_of_sublist.
  - by apply of_list_eq.
Qed.

Lemma held_ext m m' s : held m s -> items m' = items m -> index m' = index m -> held m' s.
Proof. intros [] Hi Hx. split; try done; rewrite ?Hi, ?Hx; done. Qed.

(** ** The operations on a [sortedMap] *)

(** The front of the heap is the first transaction of the list. *)
Lemma head_first m x l s : held m s -> index m = x :: l -> exists tx s', s = tx :: s' /\ tx_Nonce tx = x.
Proof.
  intros H Hi. pose proof (held_index _ _ H) as Hp. rewrite Hi in Hp. destruct s as [|tx s'].
  { by apply Permutation_sym, Permutation_nil_cons in Hp. }
  exists tx, s'. split; [done|]. pose proof (held_ascending _ _ H) as Hs. inversion Hs as [|? ? _ Hx]; subst.
  assert (Hin : x ∈ nonces_of (tx :: s')) by (rewrite <- Hp; by left).
  assert (Hin' : tx_Nonce tx ∈ x :: l) by (rewrite Hp; by left).
  pose proof (held_heap _ _ H) as Hh. rewrite Hi in Hh.
  pose proof (slices.head_min _ _ _ _ _ Hh Hin') as Hle. cbn in Hle.
  apply list_elem_of_fmap in Hin as (tx' & -> & [->|Hin]%elem_of_cons); [done|].
  rewrite list.Forall_forall in Hx. specialize (Hx _ Hin). unfold by_nonce in Hx. lia.
Qed.

Lemma head_nil m s : held m s -> index m = [] -> s = [].
Proof. intros H Hi. destruct (held_len _ _ H) as [_ Hl]. rewrite Hi in Hl. by destruct s. Qed.

Lemma delete_head_lookup m tx s n tx' : held m (tx :: s) ->
  delete (tx_Nonce tx) (items m) !! n = Some tx' <-> tx' ∈ s /\ tx_Nonce tx' = n.
Proof.
  intros H. rewrite lookup_delete_Some, (held_get _ _ _ _ H), elem_of_cons. pose proof (held_ascending _ _ H) as Hs.
  apply ascending_nodup in Hs. apply list.NoDup_cons in Hs as [Hn _]. split.
  - intros (Hne & [->|Hin] & E); [done|done].
  - intros [Hin <-]. split; [|auto]. intros E. apply Hn. rewrite E. by apply list_elem_of_fmap_2.
Qed.

Lemma index_pop_ok m x l tx s : held m (tx :: s) -> index m = x :: l ->
  exists idx, heap.heap_Pop (index m) = (idx, Some (tx_Nonce tx)) /\
    held (set_items m (delete (tx_Nonce tx) (items m)) idx) s.
Proof.
  intros H Hi. destruct (head_first _ _ _ _ H Hi) as (? & ? & [= <- <-] & <-).
  pose proof (held_heap _ _ H) as Hh. rewrite Hi in *. destruct (slices.slice_pop_ok Z.ltb _ _ nonce_less _ _ Hh) as (idx & Hp & Hok & Hl).
  exists idx. split; [exact Hp|]. eapply (held_sub _ _ _ _ H).
  - by apply sublist_cons.
  - done.
  - cbn. rewrite Hl. pose proof (held_index _ _ H) as Hp'. rewrite Hi in Hp'. by apply Permutation_cons_inv in Hp'.
  - intros n tx'. by apply delete_head_lookup.
Qed.

Lemma pop_item_ok m x l tx s : held m (tx :: s) -> index m = x :: l ->
  exists m', pop_item m = Ok (tx, m') /\ held m' s /\ cache m' = cache m.
Proof.
  intros H Hi. destruct (index_pop_ok _ _ _ _ _ H Hi) as (idx & Hp & Hok). unfold pop_item. rewrite Hp.
  assert (items m !! tx_Nonce tx = Some tx) as -> by (apply (held_get _ _ _ _ H); split; [by left|done]). eauto.
Qed.

Lemma filter_none {A} (P : A -> Prop) `{!forall x, Decision (P x)} (l : list A) : Forall (fun x => ~ P x) l -> filter P l = [].
Proof. induction 1; [done|]. by rewrite filter_cons_False. Qed.
Lemma filter_all {A} (P : A -> Prop) `{!forall x, Decision (P x)} l : Forall P l -> filter P l = l.
Proof. induction 1; [done|]. by rewrite filter_cons_True, IHForall. Qed.

(** The transactions below a nonce, and the others *)
Notation below n := (filter (fun tx => tx_Nonce tx < n)).
Notation from n := (filter (fun tx => n <= tx_Nonce tx)).

Lemma ascending_tail_ge tx s n : ascending (tx :: s) -> n <= tx_Nonce tx -> Forall (fun x => n <= tx_Nonce x) (tx :: s).
Proof.
  intros Hs Hn. inversion Hs as [|? ? _ Hx]; subst. constructor; [done|]. eapply list.Forall_impl; [done|].
  unfold by_nonce. cbn. intros; lia.
Qed.

Lemma below_from n s : ascending s -> s = below n s ++ from n s.
Proof.
  induction 1 as [|x s Hs IH Hx]; [done|]. destruct (decide (tx_Nonce x < n)) as [Hlt|Hge].
  - rewrite filter_cons_True, (filter_cons_False _ x) by (cbn; lia). cbn. by f_equal.
  - pose proof (ascending_tail_ge x s n ltac:(by constructor) ltac:(lia)) as Hall.
    rewrite (filter_none (fun tx => tx_Nonce tx < n)), filter_all; [done|done|].
    eapply list.Forall_impl; [done|]. cbn. intros; lia.
Qed.

Lemma forward_loop_ok n : forall fuel m s removed, held m s -> (length s <= fuel)%nat ->
  exists m', forward_loop fuel n m removed = Ok (removed ++ below n s, m') /\ held m' (from n s) /\ cache m' = cache m.
Proof.
  induction fuel as [|fuel IH]; intros m s removed H Hl; cbn [forward_loop].
  { destruct s; [|cbn in Hl; lia]. exists m. by rewrite app_nil_r. }
  destruct (index m) as [|x l] eqn:Hi.
  { pose proof (head_nil _ _ H Hi) as ->. exists m. by rewrite app_nil_r. }
  destruct (head_first _ _ _ _ H Hi) as (tx & s' & -> & <-). destruct (Z.ltb_spec (tx_Nonce tx) n) as [Hlt|Hge].
  - destruct (pop_item_ok _ _ _ _ _ H Hi) as (m1 & -> & H1 & Hc1). cbn [mbind result_bind].
    destruct (IH m1 s' (removed ++ [tx]) H1 ltac:(cbn in Hl; lia)) as (m2 & -> & H2 & Hc2). exists m2.
    rewrite filter_cons_True, (filter_cons_False _ tx) by (cbn; lia). rewrite <- app_assoc. repeat split; try apply H2. congruence.
  - pose proof (ascending_tail_ge tx s' n (held_ascending _ _ H) Hge) as Hall. exists m.
    rewrite (filter_none (fun tx => tx_Nonce tx < n)), filter_all, app_nil_r; [done|done|].
    eapply list.Forall_impl; [done|]. cbn. intros; lia.
Qed.

(** [Forward] removes and returns, in order, what is below the threshold. *)
Lemma Forward_ok n m s : sorted_ok m s ->
  exists m', Forward n m = (Ok (below n s), m') /\ sorted_ok m' (from n s).
Proof.
  intros [H Hc]. destruct (held_len _ _ H) as [_ Hl].
  destruct (forward_loop_ok n (length (index m)) m s [] H ltac:(lia)) as (m' & Hf & H' & Hc').
  unfold Forward, methodM. rewrite Hf. cbn [mbind result_bind app]. unfold cache_from. rewrite Hc'.
  destruct (cache m) as [c|] eqn:Ec; cbn [mbind result_bind].
  - rewrite (Hc c eq_refl). pose proof (below_from n s (held_ascending _ _ H)) as Es.
    assert (length (below n s) <= length s)%nat as Hle by (rewrite Es at 2; rewrite length_app; lia).
    apply Nat.leb_le in Hle as ->. eexists. split; [done|]. split; [by eapply held_ext|]. intros ? [= <-].
    rewrite Es at 2. by rewrite drop_app_length.
  - exists m'. split; [done|]. split; [done|]. by rewrite Hc'.
Qed.

(** [Put] takes the place of a transaction with the same nonce. *)
Notation above n := (filter (fun tx => n < tx_Nonce tx)).
Definition put (tx : Transaction) (s : list Transaction) : list Transaction :=
  below (tx_Nonce tx) s ++ tx :: above (tx_Nonce tx) s.

Lemma elem_of_put tx s tx' : tx' ∈ put tx s <-> tx' = tx \/ tx' ∈ s /\ tx_Nonce tx' <> tx_Nonce tx.
Proof.
  unfold put. rewrite elem_of_app, elem_of_cons, !list_elem_of_filter. split; [intuition lia|].
  intros [?|[? ?]]; [auto|]. destruct (decide (tx_Nonce tx' < tx_Nonce tx)); intuition lia.
Qed.

Lemma ascending_app s1 s2 : ascending s1 -> ascending s2 -> (forall a b, a ∈ s1 -> b ∈ s2 -> by_nonce a b) -> ascending (s1 ++ s2).
Proof.
  induction 1 as [|x s1 Hs IH Hx]; intros H2 Hc; [done|]. cbn. constructor.
  - apply IH; [done|]. intros a b Ha Hb. apply Hc; [by right|done].
  - apply Forall_app. split; [done|]. rewrite list.Forall_forall. intros b Hb. apply Hc; [by left|done].
Qed.

Lemma ascending_put tx s : ascending s -> ascending (put tx s).
Proof.
  intros Hs. apply ascending_app.
  - by apply ascending_filter.
  - constructor; [by apply ascending_filter|]. rewrite list.Forall_forall. intros x (Hx & _)%list_elem_of_filter. exact Hx.
  - intros a b (Ha & _)%list_elem_of_filter [->|(Hb & _)%list_elem_of_filter]%elem_of_cons; unfold by_nonce; lia.
Qed.

Lemma put_nonces tx s : ascending s -> nonces_of (put tx s) ≡ₚ
  match of_list s !! tx_Nonce tx with Some _ => nonces_of s | None => tx_Nonce tx :: nonces_of s end.
Proof.
  intros Hs. assert (H : forall n, n ∈ nonces_of (put tx s) <-> n = tx_Nonce tx \/ n ∈ nonces_of s).
  { intros n. rewrite !list_elem_of_fmap. setoid_rewrite elem_of_put. split.
    - intros (y & -> & [->|[? ?]]); eauto.
    - intros [->|(y & -> & Hy)]; [by eauto|]. destruct (decide (tx_Nonce y = tx_Nonce tx)); eauto. }
  pose proof (ascending_nodup _ (ascending_put tx s Hs)) as Hn. pose proof (ascending_nodup s Hs) as Hn'.
  destruct (of_list s !! tx_Nonce tx) as [old|] eqn:Ho.
  - apply NoDup_Permutation; [done..|]. intros n. rewrite H. apply of_list_lookup in Ho as [Hin <-]; [|done].
    split; [intros [->|]; [by apply list_elem_of_fmap_2|done]|auto].
  - apply NoDup_Permutation; [done| |intros n; by rewrite H, elem_of_cons]. apply list.NoDup_cons. split; [|done].
    intros (y & E & Hy)%list_elem_of_fmap. assert (of_list s !! tx_Nonce tx = Some y) by (by apply of_list_lookup). congruence.
Qed.

Lemma sorted_Put_ok tx m s : held m s -> is_u64 (tx_Nonce tx) -> sorted_ok (Put tx m) (put tx s).
Proof.
  intros H Hu. pose proof (ascending_put tx s (held_ascending _ _ H)) as Ha.
  assert (Hx : nheap (index (Put tx m)) /\ index (Put tx m) ≡ₚ nonces_of (put tx s)).
  { rewrite put_nonces by apply H. unfold Put. cbn [index]. rewrite (held_items _ _ H). destruct (of_list s !! tx_Nonce tx).
    - split; apply H.
    - destruct (slices.push_ok Z.ltb _ _ nonce_less (tx_Nonce tx) (index m) (held_heap _ _ H) I) as [Hh Hp].
      split; [exact Hh|]. etrans; [exact Hp|]. by rewrite (held_index _ _ H). }
  split; [|done]. destruct Hx as [Hh Hi]. split; [done| | |done|done].
  - rewrite list.Forall_forall. intros y [->|[Hy _]]%elem_of_put; [done|].
    pose proof (held_u64 _ _ H) as Hf. rewrite list.Forall_forall in Hf. by apply Hf.
  - apply of_list_eq; [done|]. intros n y. cbn [items Put]. rewrite elem_of_put, lookup_insert_Some, (held_get _ _ _ _ H).
    split; [intros [[<- ->]|(? & ? & <-)]; auto|]. intros [[->|[? ?]] <-]; auto.
Qed.

(** ** [Remove] *)

Lemma sorted_Remove_ok n m s : sorted_ok m s ->
  exists m', Remove n m = (bool_decide (n ∈ nonces_of s), m') /\ sorted_ok m' (filter (fun tx => tx_Nonce tx <> n) s).
Proof.
  intros [H Hc]. unfold Remove. destruct (items m !! n) as [tx|] eqn:Ht; cycle 1.
  { apply (held_get_none _ _ _ H) in Ht. rewrite bool_decide_eq_false_2 by done. exists m. split; [done|].
    rewrite filter_all; [by split|]. rewrite list.Forall_forall. intros x Hx E. apply Ht. rewrite <- E. by apply list_elem_of_fmap_2. }
  apply (held_get _ _ _ _ H) in Ht as [Hin <-].
  assert (Hm : tx_Nonce tx ∈ nonces_of s) by (by apply list_elem_of_fmap_2). rewrite bool_decide_eq_true_2 by done.
  eexists. split; [done|]. split; [|done]. rewrite <- (held_index _ _ H) in Hm.
  destruct (list_find_elem_of (eq (tx_Nonce tx)) _ _ Hm eq_refl) as [[i y] Hf]. rewrite Hf.
  apply list_find_Some in Hf as (Hi & <- & _).
  destruct (slices.remove_ok Z.ltb _ _ nonce_less _ _ _ (held_heap _ _ H) Hi) as (idx & Hr & Hok & Hp).
  change (heap.heap_Remove (index m) i) with (@heap.heap_Remove _ _ (slices.slice_heap Z.ltb) (index m) i). rewrite Hr. cbn [fst].
  eapply (held_sub _ _ _ _ H); cbn [items index]; [apply sublist_filter|done| |].
  - apply (Permutation_cons_inv (a := tx_Nonce tx)). rewrite <- Hp, (held_index _ _ H). clear -Hin H.
    destruct H as [Hs _ _ _ _]. apply NoDup_Permutation.
    + by apply ascending_nodup.
    + apply list.NoDup_cons. split; [by intros (? & ? & (? & ?)%list_elem_of_filter)%list_elem_of_fmap|].
      by apply ascending_nodup, ascending_filter.
    + intros n. rewrite elem_of_cons, !list_elem_of_fmap. setoid_rewrite list_elem_of_filter. split.
      * intros (y & -> & Hy). destruct (decide (tx_Nonce y = tx_Nonce tx)); eauto.
      * intros [->|(y & -> & _ & Hy)]; eauto.
  - intros k y. rewrite lookup_delete_Some, (held_get _ _ _ _ H), list_elem_of_filter. split; [|naive_solver].
    intros (? & ? & <-). by repeat split.
Qed.

(** ** [Ready] *)

(** The transactions with the nonces [n], [n + 1], ... *)
Fixpoint run (n : Z) (s : list Transaction) : list Transaction :=
  match s with
  | tx :: s' => if tx_Nonce tx =? n then tx :: run (n + 1) s' else []
  | [] => []
  end.

Lemma ready_loop_ok : forall fuel n m s ready, held m s -> (length s <= fuel)%nat -> is_u64 n -> Forall (fun tx => n <= tx_Nonce tx) s ->
  exists m', ready_loop fuel n m ready = Ok (ready ++ run n s, m') /\ held m' (drop (length (run n s)) s).
Proof.
  induction fuel as [|fuel IH]; intros n m s ready H Hl Hn Hge; cbn [ready_loop].
  { destruct s; [|cbn in Hl; lia]. exists m. by rewrite app_nil_r. }
  destruct (index m) as [|x l] eqn:Hi.
  { pose proof (head_nil _ _ H Hi) as ->. exists m. by rewrite app_nil_r. }
  destruct (head_first _ _ _ _ H Hi) as (tx & s' & -> & <-). cbn [run]. destruct (Z.eqb_spec (tx_Nonce tx) n) as [E|Hne].
  2:{ exists m. by rewrite app_nil_r. }
  destruct (index_pop_ok _ _ _ _ _ H Hi) as (idx & Hp & Hok). rewrite <- Hi, Hp. cbn [fst].
  assert (items m !! n = Some tx) as -> by (apply (held_get _ _ _ _ H); split; [by left|done]).
  pose proof (held_ascending _ _ H) as Hs. inversion Hs as [|? ? _ Hx]; subst.
  destruct (decide (tx_Nonce tx = MaxUint64)) as [Hmax|Hmax].
  - pose proof (held_u64 _ _ Hok) as Hu. destruct s' as [|y s'].
    2:{ apply list.Forall_cons in Hx as [Hy _]. apply list.Forall_cons in Hu as [Hu _]. unfold by_nonce, is_u64, MaxUint64 in *. lia. }
    assert (Hi' : idx = []). { destruct (held_len _ _ Hok) as [_ Hl']. by destruct idx. }
    subst idx. eexists. split; [|exact Hok]. destruct fuel; done.
  - rewrite (u64_small (tx_Nonce tx + 1)) by u64_lia.
    destruct (IH (tx_Nonce tx + 1) _ s' (ready ++ [tx]) Hok) as (m' & -> & H').
    + cbn in Hl. lia.
    + unfold is_u64, MaxUint64 in *. lia.
    + eapply list.Forall_impl; [done|]. unfold by_nonce. cbn. intros; lia.
    + exists m'. split; [by rewrite <- app_assoc|done].
Qed.

(** Nothing when the list starts above the nonce, else the run it starts with *)
Definition ready_run (start : Z) (s : list Transaction) : list Transaction :=
  match s with
  | tx :: _ => if start <? tx_Nonce tx then [] else run (tx_Nonce tx) s
  | [] => []
  end.

Lemma Ready_ok start m s : sorted_ok m s ->
  exists m', Ready start m = (Ok (ready_run start s), m') /\ sorted_ok m' (drop (length (ready_run start s)) s).
Proof.
  intros [H Hc]. unfold Ready, methodM. destruct (index m) as [|x l] eqn:Hi.
  { pose proof (head_nil _ _ H Hi) as ->. exists m. by split. }
  destruct (head_first _ _ _ _ H Hi) as (tx & s' & -> & <-). cbn [ready_run]. destruct (start <? tx_Nonce tx).
  { exists m. by split. }
  rewrite <- Hi. destruct (held_len _ _ H) as [_ Hl]. pose proof (held_u64 _ _ H) as Hu.
  destruct (ready_loop_ok (length (index m)) (tx_Nonce tx) m (tx :: s') [] H) as (m' & -> & H').
  - lia.
  - by inversion Hu.
  - by apply ascending_tail_ge; [apply H|].
  - cbn [mbind result_bind app]. eexists. split; [done|]. split; [by eapply held_ext|done].
Qed.

(** ** [Cap] *)

Lemma cap_loop_ok s0 : ascending s0 -> forall k n m drops, (k <= n <= length s0)%nat ->
  items m = of_list (take n s0) -> index m = nonces_of s0 ->
  exists m', cap_loop k (Z.of_nat n) m drops = Ok (drops ++ reverse (drop (n - k) (take n s0)), m') /\
    items m' = of_list (take (n - k) s0) /\ index m' = nonces_of s0 /\ cache m' = cache m.
Proof.
  intros Hs. induction k as [|k IH]; intros n m drops Hk Hi Hx; cbn [cap_loop].
  { exists m. rewrite Nat.sub_0_r, drop_ge by (rewrite length_take; lia). by rewrite reverse_nil, app_nil_r. }
  destruct n as [|n]; [lia|]. rewrite (proj2 (Z.ltb_ge _ _)) by lia. replace (Z.of_nat (S n) - 1) with (Z.of_nat n) by lia. rewrite Nat2Z.id.
  destruct (lookup_lt_is_Some_2 s0 n) as [tx Htx]; [lia|]. rewrite Hx, list_lookup_fmap, Htx. cbn [fmap option_fmap option_map].
  pose proof (take_S_r s0 n tx Htx) as Et.
  assert (Ha : forall j, ascending (take j s0)) by (intros j; eapply ascending_sublist; [apply sublist_take|done]).
  rewrite Hi. assert (of_list (take (S n) s0) !! tx_Nonce tx = Some tx) as ->.
  { apply of_list_lookup; [done|]. rewrite Et, elem_of_app, list_elem_of_singleton. auto. }
  destruct (IH n (set_items m (delete (tx_Nonce tx) (of_list (take (S n) s0))) (nonces_of s0)) (drops ++ [tx])) as (m' & -> & H1 & H2 & H3); [lia| |done|].
  - cbn [items set_items]. apply of_list_eq; [done|]. intros j y. rewrite lookup_delete_Some, of_list_lookup by done.
    pose proof (ascending_nodup _ (Ha (S n))) as Hn. rewrite Et, elem_of_app, list_elem_of_singleton. rewrite Et, fmap_app, list.NoDup_app in Hn.
    destruct Hn as (_ & Hd & _). split; [intros (Hne & [Hin| ->] & <-); [done|done]|]. intros [Hin <-]. split; [|auto].
    intros E. apply (Hd (tx_Nonce y)); [by apply list_elem_of_fmap_2|]. rewrite <- E. cbn. by left.
  - exists m'. replace (S n - S k)%nat with (n - k)%nat by lia. split; [|done]. do 2 f_equal. rewrite Et, drop_app_le by (rewrite length_take; lia).
    by rewrite reverse_app, <- app_assoc.
Qed.

Lemma Sort_index m s : held m s -> sort.Sort Z.ltb (index m) = nonces_of s.
Proof.
  intros H. assert (Hn : StronglySorted Z.lt (nonces_of s)).
  { destruct H as [Hs _ _ _ _]. induction Hs as [|x s Hs IH Hx]; [constructor|]. rewrite fmap_cons. constructor; [done|]. by apply Forall_fmap. }
  apply (slices.sorted_perm_unique Z.lt); [lia|lia| |done|].
  - assert (Hw : StronglySorted (fun a b => (b <? a) = false) (sort.Sort Z.ltb (index m))).
    { apply slices.Sort_weakly_sorted; intros; lia. }
    assert (Hd : NoDup (sort.Sort Z.ltb (index m))).
    { rewrite sort.Sort_Permutation, (held_index _ _ H). apply ascending_nodup, H. }
    revert Hd. induction Hw as [|x l Hl IH Hx]; constructor; apply list.NoDup_cons in Hd as [Hnx Hd]; [by apply IH|].
    rewrite list.Forall_forall in *. intros y Hy. specialize (Hx y Hy). assert (y <> x) by (by intros ->). lia.
  - rewrite sort.Sort_Permutation. apply H.
Qed.

(** [Cap] removes the highest nonces, highest first. *)
Lemma Cap_ok n m s : sorted_ok m s -> 0 <= n ->
  exists m', Cap n m = (Ok (reverse (drop (Z.to_nat n) s)), m') /\ sorted_ok m' (take (Z.to_nat n) s).
Proof.
  intros [H Hc] Hn. unfold Cap, methodM. destruct (held_len _ _ H) as [Hl _]. unfold Len in Hl. rewrite Hl.
  destruct (Z.leb_spec (Z.of_nat (length s)) n) as [Hle|Hgt].
  { exists m. rewrite drop_ge, take_ge by lia. by split. }
  pose proof (held_ascending _ _ H) as Ha.
  destruct (cap_loop_ok s Ha (Z.to_nat (Z.of_nat (length s) - n)) (length s) (set_items m (items m) (sort.Sort Z.ltb (index m))) [])
    as (m' & -> & Hi & Hx & Hcm); [lia|rewrite take_ge by lia; apply H|by apply Sort_index|].
  replace (length s - Z.to_nat (Z.of_nat (length s) - n))%nat with (Z.to_nat n) in * by lia. rewrite (take_ge s (length s)) by lia.
  cbn [mbind result_bind app]. rewrite Hx, length_fmap. rewrite !(proj2 (Z.ltb_ge _ _)) by lia. cbn [orb].
  assert (Hh : held (set_items m' (items m') (take (Z.to_nat n) (nonces_of s))) (take (Z.to_nat n) s)).
  { eapply (held_sub _ _ _ _ H); [apply sublist_take| | |]; cbn [set_items index items].
    - rewrite <- fmap_take. apply (slices.sorted_heap _ _); [by rewrite list.Forall_forall|].
      assert (Ht : ascending (take (Z.to_nat n) s)) by (eapply ascending_sublist; [apply sublist_take|done]).
      clear -Ht. induction Ht as [|x l Hl IH Hx]; [constructor|]. rewrite fmap_cons. constructor; [done|].
      apply Forall_fmap. eapply list.Forall_impl; [done|]. unfold by_nonce. cbn. intros; lia.
    - by rewrite fmap_take.
    - intros k tx. rewrite Hi. apply of_list_lookup. eapply ascending_sublist; [apply sublist_take|done]. }
  unfold cache_without. cbn [cache set_items] in *. rewrite Hcm. destruct (cache m) as [c|] eqn:Ec; cbn [mbind result_bind].
  - rewrite (Hc c eq_refl), length_reverse, length_drop. rewrite (proj2 (Nat.leb_le _ _)) by lia. cbn [mbind result_bind].
    eexists. split; [done|]. split; [by eapply held_ext|]. intros ? [= <-]. f_equal. lia.
  - eexists. split; [done|]. split; [done|]. cbn. by rewrite Hcm.
Qed.

(** ** [Filter] *)

Lemma fold_filter (f : Transaction -> bool) l : forall removed (it : gmap Z Transaction),
  exists it', fold_left (fun '(removed, items) '(nonce, tx) =>
      if f tx then (removed ++ [tx], delete nonce items) else (removed, items)) l (removed, it)
    = (removed ++ (filter (fun kv => f kv.2 = true) l).*2, it') /\
    forall n tx, it' !! n = Some tx <-> it !! n = Some tx /\ forall tx', (n, tx') ∈ l -> f tx' = false.
Proof.
  induction l as [|[k x] l IH]; intros removed it; cbn [fold_left].
  { exists it. split; [by rewrite app_nil_r|]. intros n tx. split; [intros ?; split; [done|]; by intros ? ?%elem_of_nil|by intros []]. }
  destruct (f x) eqn:E.
  - destruct (IH (removed ++ [x]) (delete k it)) as (it' & -> & Hit). exists it'. rewrite filter_cons_True by done. cbn [fmap list_fmap list_fmap snd].
    rewrite <- app_assoc. split; [done|]. intros n tx. rewrite Hit, lookup_delete_Some. setoid_rewrite elem_of_cons. split.
    + intros [[? ?] Hf]. split; [done|]. intros tx' [[= -> ->]|?]; [done|by apply Hf].
    + intros [? Hf]. split; [|auto]. split; [|done]. intros ->. specialize (Hf x). rewrite E in Hf. discriminate Hf. auto.
  - destruct (IH removed it) as (it' & -> & Hit). exists it'. rewrite filter_cons_False by (cbn; congruence). split; [done|].
    intros n tx. rewrite Hit. setoid_rewrite elem_of_cons. naive_solver.
Qed.

Section Range.
Context {NR : NonceRange} {NS : NonceRangeSpec}.
Notation hits f := (filter (fun tx => f tx = true)).
Notation misses f := (filter (fun tx => f tx = false)).

Lemma range_perm s : ascending s -> range_nonces (of_list s) ≡ₚ (fun tx => (tx_Nonce tx, tx)) <$> s.
Proof. intros Hs. by rewrite range_nonces_perm, of_list_perm. Qed.

Lemma filter_items_ok f m s : ascending s -> items m = of_list s ->
  exists removed m', filter_items f m = (removed, m') /\ removed ≡ₚ hits f s /\
    items m' = of_list (misses f s) /\ index m' = index m /\ (cache m' = None \/ removed = [] /\ cache m' = cache m).
Proof.
  intros Hs Hi. unfold filter_items. destruct (fold_filter f (range_nonces (items m)) [] (items m)) as (it' & -> & Hit). cbn [app].
  eexists _, _. split; [done|]. cbn [items index cache]. split_and!.
  - rewrite Hi, (range_perm s Hs). clear. induction s as [|x s IH]; [done|]. rewrite fmap_cons, !filter_cons. cbn [snd].
    destruct (decide _); [|done]. rewrite fmap_cons. by constructor.
  - apply of_list_eq; [by apply ascending_filter|]. intros n tx. rewrite Hit, Hi, of_list_lookup, list_elem_of_filter by done. setoid_rewrite (range_perm s Hs).
    split.
    + intros [[Hin <-] Hf]. repeat split; try done. apply Hf, list_elem_of_fmap. by exists tx.
    + intros [[Hf Hin] <-]. repeat split; try done. intros tx' (y & [= E ->] & Hy)%list_elem_of_fmap. by rewrite (nonce_inj s y tx).
  - done.
  - destruct (filter _ _) as [|? ?]; cbn; auto.
Qed.

Lemma reheap_ok m s : ascending s -> Forall (fun tx => is_u64 (tx_Nonce tx)) s -> items m = of_list s -> sorted_ok (reheap m) s.
Proof.
  intros Hs Hu Hi. split; [|done]. assert (Hf : Forall (fun _ : Z => True) (range_nonces (items m)).*1) by (by rewrite list.Forall_forall).
  destruct (slices.slice_init_ok Z.ltb _ _ nonce_less _ Hf) as [Hh Hp]. split; [done|done|done|exact Hh|].
  unfold reheap. cbn [index]. etrans; [exact Hp|]. rewrite Hi, (range_perm s Hs), <- list_fmap_compose. done.
Qed.

Lemma Forall_sublist {A} (P : A -> Prop) l l' : sublist l' l -> Forall P l -> Forall P l'.
Proof. rewrite !list.Forall_forall. intros Hs H x Hx. by eapply H, elem_of_sublist. Qed.

Lemma hits_nil (f : Transaction -> bool) s : hits f s = [] -> misses f s = s.
Proof.
  intros H. apply filter_all. rewrite list.Forall_forall. intros x Hx. destruct (f x) eqn:E; [|done].
  assert (Hin : x ∈ hits f s) by (by apply list_elem_of_filter). rewrite H in Hin. by apply elem_of_nil in Hin.
Qed.

(** [Filter] removes the transactions the predicate holds for. *)
Lemma Filter_ok f m s : sorted_ok m s ->
  exists removed m', Filter f m = (removed, m') /\ removed ≡ₚ hits f s /\ sorted_ok m' (misses f s).
Proof.
  intros [H Hc]. pose proof (held_ascending _ _ H) as Ha. unfold Filter.
  destruct (filter_items_ok f m s Ha (held_items _ _ H)) as (removed & m' & -> & Hp & Hi & Hx & Hcm).
  eexists _, _. split; [done|]. split; [done|]. destruct removed as [|r removed]; cbn.
  - apply Permutation_nil in Hp. rewrite (hits_nil _ _ Hp) in *. split.
    + eapply held_ext; [done| |done]. by rewrite Hi, (held_items _ _ H).
    + destruct Hcm as [->|[_ ->]]; [done|done].
  - apply reheap_ok; [by apply ascending_filter| |done]. eapply Forall_sublist; [apply sublist_filter|apply H].
Qed.

(** ** [Flatten] *)

Lemma flatten_ok m s : sorted_ok m s -> exists m', flatten m = (s, m') /\ sorted_ok m' s.
Proof.
  intros [H Hc]. unfold flatten. destruct (cache m) as [c|] eqn:Ec.
  { rewrite (Hc c eq_refl). exists m. split; [done|]. split; [done|]. rewrite Ec. exact Hc. }
  assert (sort.Sort TxByNonce (range_nonces (items m)).*2 = s) as ->; cycle 1.
  { eexists. split; [done|]. split; [by eapply held_ext|]. by intros c [= <-]. }
  set (l := (range_nonces (items m)).*2). pose proof (held_ascending _ _ H) as Ha.
  assert (Hl : l ≡ₚ s). { unfold l. rewrite (held_items _ _ H), (range_perm s Ha), <- list_fmap_compose. by rewrite list_fmap_id. }
  apply ascending_unique; [|done|by rewrite sort.Sort_Permutation].
  assert (Hw : StronglySorted (fun a b => TxByNonce b a = false) (sort.Sort TxByNonce l)).
  { apply slices.Sort_weakly_sorted; unfold TxByNonce; intros; lia. }
  assert (Hd : NoDup (nonces_of (sort.Sort TxByNonce l))).
  { rewrite sort.Sort_Permutation, Hl. by apply ascending_nodup. }
  revert Hd. clear -Hw. induction Hw as [|x l' Hl IH Hx]; [constructor|]. rewrite fmap_cons. intros [Hn Hd]%list.NoDup_cons. constructor; [by apply IH|].
  rewrite list.Forall_forall in *. intros y Hy. specialize (Hx y Hy). unfold TxByNonce in Hx.
  assert (tx_Nonce y <> tx_Nonce x). { intros E. apply Hn. rewrite <- E. by apply list_elem_of_fmap_2. } unfold by_nonce. lia.
Qed.

(** ** The state of a [txList] *)

Context {UI : U256Lib} {UIs : U256LibSpec} {UA : U256Arith} {UAs : U256ArithSpec} {TL : TxLib}.

Definition total_cost (s : list Transaction) : Z := foldr (fun tx acc => Cost tx + acc) 0 s.

Lemma total_cost_app s1 s2 : total_cost (s1 ++ s2) = total_cost s1 + total_cost s2.
Proof. unfold total_cost. induction s1 as [|x s1 IH]; cbn; [done|]. lia. Qed.

#[global] Instance total_cost_proper : Proper (Permutation ==> eq) total_cost.
Proof. intros s1 s2 Hp. unfold total_cost. induction Hp; cbn; lia. Qed.

Lemma total_cost_split P `{!forall x : Transaction, Decision (P x)} s :
  total_cost s = total_cost (filter P s) + total_cost (filter (fun x => ~ P x) s).
Proof.
  unfold total_cost. induction s as [|x s IH]; [done|]. rewrite !filter_cons. cbn [foldr].
  destruct (decide (P x)), (decide (~ P x)); try done; cbn [foldr]; lia.
Qed.

Lemma hits_misses_perm (f : Transaction -> bool) s : s ≡ₚ hits f s ++ misses f s.
Proof.
  induction s as [|x s IH]; [done|]. rewrite !(filter_cons _ x). destruct (f x).
  - rewrite decide_True, decide_False by done. cbn. by rewrite <- IH.
  - rewrite decide_False, decide_True by done. rewrite <- Permutation_middle. by rewrite <- IH.
Qed.

Lemma hits_misses_cost f s : total_cost s = total_cost (hits f s) + total_cost (misses f s).
Proof. by rewrite (hits_misses_perm f s) at 1; rewrite total_cost_app. Qed.

Lemma total_cost_nonneg s : Forall (fun tx => 0 <= Cost tx) s -> 0 <= total_cost s.
Proof. unfold total_cost. induction 1; cbn; lia. Qed.

(** The sum of the costs is kept, and the caps bound the costs and the gas. *)
Record list_ok (l : txList) (s : list Transaction) : Prop := {
  lok_txs : sorted_ok (txs l) s;
  lok_total : totalcost l = total_cost s;
  lok_fits : total_cost s < 2 ^ 256;
  lok_caps : Forall (fun tx => 0 <= Cost tx <= costcap l /\ tx_Gas tx <= gascap l) s
}.

Lemma newList_ok b : list_ok (newList b) [].
Proof. split; [apply new_ok|done|done|constructor]. Qed.

Lemma lok_nonneg l s : list_ok l s -> Forall (fun tx => 0 <= Cost tx) s.
Proof. intros H. eapply list.Forall_impl; [apply (lok_caps _ _ H)|]. cbn. intros; lia. Qed.

Lemma sub_costs_ok r rest : Forall (fun tx => 0 <= Cost tx) r -> 0 <= rest -> total_cost r + rest < 2 ^ 256 ->
  sub_costs (total_cost r + rest) r = Ok rest.
Proof.
  intros Hr. unfold total_cost. revert rest. induction Hr as [|x r Hx Hr IH]; intros rest H0 Hlt; cbn [foldr sub_costs]; [done|].
  pose proof (total_cost_nonneg r Hr) as Hn. unfold total_cost in Hn. cbn [foldr] in Hlt.
  unfold MustFromBig. rewrite FromBig_fits by lia. cbn [mbind result_bind]. rewrite U256_Sub_fits by lia.
  replace (Cost x + foldr (fun tx acc => Cost tx + acc) 0 r + rest - Cost x) with (foldr (fun tx acc => Cost tx + acc) 0 r + rest) by lia.
  apply IH; lia.
Qed.

(** Transactions that leave the list are taken off the sum. *)
Lemma subTotalCost_ok l r s : totalcost l = total_cost r + total_cost s -> total_cost r + total_cost s < 2 ^ 256 ->
  Forall (fun tx => 0 <= Cost tx) r -> Forall (fun tx => 0 <= Cost tx) s ->
  subTotalCost r l = (Ok tt, set_total l (total_cost s)).
Proof.
  intros Ht Hf Hr Hs. unfold subTotalCost, methodM. rewrite Ht, sub_costs_ok; [done|done|by apply total_cost_nonneg|done].
Qed.

(** A step that removes [r] and keeps a part [s'] of the list. *)
Lemma remove_step l m r s s' : list_ok l s -> sorted_ok m s' -> sublist s' s -> total_cost s = total_cost r + total_cost s' ->
  Forall (fun tx => 0 <= Cost tx) r ->
  exists l', subTotalCost r (set_txs l m) = (Ok tt, l') /\ list_ok l' s' /\ strict l' = strict l /\ txs l' = m.
Proof.
  intros H Hm Hs Hc Hr. eexists. rewrite (subTotalCost_ok _ r s'); cbn [totalcost set_txs].
  - split; [done|]. split; [|done]. split; cbn; [done|done| |].
    + pose proof (lok_fits _ _ H). pose proof (total_cost_nonneg r Hr). lia.
    + eapply Forall_sublist; [done|apply H].
  - rewrite (lok_total _ _ H). done.
  - pose proof (lok_fits _ _ H). lia.
  - done.
  - eapply Forall_sublist; [done|]. by eapply lok_nonneg.
Qed.

Lemma Forall_perm_sub {A} (P : A -> Prop) r l : (forall x, x ∈ r -> x ∈ l) -> Forall P l -> Forall P r.
Proof. rewrite !list.Forall_forall. auto. Qed.

(** The lists [Forward], [Cap] and [Ready] return, and what they leave. *)
Lemma removing_step l s r s' m op : list_ok l s -> op (txs l) = (Ok r, m) -> sorted_ok m s' -> sublist s' s -> s ≡ₚ r ++ s' ->
  exists l', (t ← on_txs op; _ ← subTotalCost t; mret t) l = (Ok r, l') /\ list_ok l' s' /\ strict l' = strict l.
Proof.
  intros H Hop Hm Hs Hp. destruct (remove_step l m r s s' H Hm Hs) as (l' & Hl & Hok & Hst & _).
  - by rewrite Hp, total_cost_app.
  - eapply Forall_perm_sub; [|by eapply lok_nonneg]. intros x Hx. rewrite Hp, elem_of_app. auto.
  - exists l'. split; [|done]. erewrite bindM_step; [|unfold on_txs; by rewrite Hop]. by erewrite bindM_step.
Qed.

Lemma list_Forward_ok n l s : list_ok l s ->
  exists l', list_Forward n l = (Ok (below n s), l') /\ list_ok l' (from n s) /\ strict l' = strict l.
Proof.
  intros H. destruct (Forward_ok n _ _ (lok_txs _ _ H)) as (m & Hf & Hm). eapply removing_step; [done|done|done|apply sublist_filter|].
  rewrite <- below_from; [done|]. apply (lok_txs _ _ H).
Qed.

Lemma list_Cap_ok n l s : list_ok l s -> 0 <= n ->
  exists l', list_Cap n l = (Ok (reverse (drop (Z.to_nat n) s)), l') /\ list_ok l' (take (Z.to_nat n) s) /\ strict l' = strict l.
Proof.
  intros H Hn. destruct (Cap_ok n _ _ (lok_txs _ _ H) Hn) as (m & Hf & Hm). eapply removing_step; [done|done|done|apply sublist_take|].
  rewrite reverse_Permutation, Permutation_app_comm. by rewrite take_drop.
Qed.

Lemma run_prefix s : forall n, s = run n s ++ drop (length (run n s)) s.
Proof. induction s as [|x s IH]; intros n; [done|]. cbn. destruct (tx_Nonce x =? n); [|done]. cbn. f_equal. apply IH. Qed.

Lemma ready_prefix n s : s = ready_run n s ++ drop (length (ready_run n s)) s.
Proof. destruct s as [|x s]; [done|]. cbn [ready_run]. destruct (n <? tx_Nonce x); [done|]. apply run_prefix. Qed.

Lemma list_Ready_ok n l s : list_ok l s ->
  exists l', list_Ready n l = (Ok (ready_run n s), l') /\ list_ok l' (drop (length (ready_run n s)) s) /\ strict l' = strict l.
Proof.
  intros H. destruct (Ready_ok n _ _ (lok_txs _ _ H)) as (m & Hf & Hm). eapply removing_step; [done|done|done|apply sublist_drop|].
  by rewrite <- ready_prefix.
Qed.

(** ** [Remove] *)

Lemma on_txs_total {A} (f : sortedMap -> A * sortedMap) l a m : f (txs l) = (a, m) -> on_txs (totalM f) l = (Ok a, set_txs l m).
Proof. unfold on_txs, totalM. by intros ->. Qed.

Lemma same_nonce tx s : ascending s -> tx ∈ s -> filter (fun x => tx_Nonce x = tx_Nonce tx) s = [tx].
Proof.
  intros Hs Hin. apply ascending_unique; [by apply ascending_filter|by repeat constructor|]. apply NoDup_Permutation.
  - apply list.NoDup_filter. apply ascending_nodup in Hs. by apply NoDup_fmap_1 in Hs.
  - apply list.NoDup_singleton.
  - intros x. rewrite list_elem_of_filter, list_elem_of_singleton. split; [|by intros ->].
    intros [E Hx]. by apply (nonce_inj s).
Qed.

Lemma remove_cost tx s : ascending s -> tx ∈ s ->
  total_cost s = total_cost [tx] + total_cost (filter (fun x => tx_Nonce x <> tx_Nonce tx) s).
Proof.
  intros Hs Hin. rewrite (total_cost_split (fun x => tx_Nonce x = tx_Nonce tx)). by rewrite same_nonce.
Qed.

(** Without its nonce, or with all the higher ones gone as well if the list is strict. *)
Definition without (strict : bool) (n : Z) (s : list Transaction) : list Transaction :=
  if strict then below n s else filter (fun tx => tx_Nonce tx <> n) s.
Definition dropped (strict : bool) (n : Z) (s : list Transaction) : list Transaction := if strict then above n s else [].

Lemma filter_filter_l {A} (P Q R : A -> Prop) `{!forall x, Decision (P x), !forall x, Decision (Q x), !forall x, Decision (R x)} (l : list A) :
  (forall x, P x /\ Q x <-> R x) -> filter P (filter Q l) = filter R l.
Proof. intros HR. rewrite list_filter_filter. by apply list_filter_iff. Qed.

Lemma list_Remove_ok tx l s : list_ok l s -> tx ∈ s ->
  exists r l', list_Remove tx l = (Ok (true, r), l') /\ r ≡ₚ dropped (strict l) (tx_Nonce tx) s /\
    list_ok l' (without (strict l) (tx_Nonce tx) s) /\ strict l' = strict l.
Proof.
  intros H Hin. pose proof (lok_nonneg _ _ H) as Hnn. destruct (lok_txs _ _ H) as [Hh Hc]. pose proof (held_ascending _ _ Hh) as Ha.
  destruct (sorted_Remove_ok (tx_Nonce tx) _ _ (lok_txs _ _ H)) as (m & Hr & Hm).
  rewrite bool_decide_eq_true_2 in Hr by (by apply list_elem_of_fmap_2).
  destruct (remove_step l m [tx] s _ H Hm) as (l1 & Hl1 & Hok1 & Hs1 & Hm1); [apply sublist_filter|by apply remove_cost| |].
  { repeat constructor. rewrite list.Forall_forall in Hnn. by apply Hnn. }
  unfold list_Remove. erewrite bindM_step by (by apply on_txs_total). cbn [negb]. erewrite bindM_step by done. rewrite getM_bind, Hs1.
  destruct (strict l) eqn:Est; unfold without, dropped; cycle 1.
  { eexists [], l1. split; [done|]. split; [done|]. split; [done|congruence]. }
  destruct (Filter_ok (fun x => tx_Nonce tx <? tx_Nonce x) _ _ (lok_txs _ _ Hok1)) as (r & m2 & Hf & Hp & Hm2).
  assert (Eh : hits (fun x => tx_Nonce tx <? tx_Nonce x) (filter (fun x => tx_Nonce x <> tx_Nonce tx) s) = above (tx_Nonce tx) s).
  { apply filter_filter_l. intros x. cbn. lia. }
  assert (Em : misses (fun x => tx_Nonce tx <? tx_Nonce x) (filter (fun x => tx_Nonce x <> tx_Nonce tx) s) = below (tx_Nonce tx) s).
  { apply filter_filter_l. intros x. cbn. lia. }
  destruct (remove_step l1 m2 r _ _ Hok1 Hm2) as (l2 & Hl2 & Hok2 & Hs2 & _); [apply sublist_filter| | |].
  - by rewrite Hp, <- hits_misses_cost.
  - eapply Forall_perm_sub; [|by eapply lok_nonneg]. intros x. rewrite Hp. by intros [_ ?]%list_elem_of_filter.
  - exists r, l2. erewrite bindM_step by (by apply on_txs_total). erewrite bindM_step by done.
    rewrite Eh, Em in *. split; [done|]. split; [done|]. split; [done|congruence].
Qed.

Lemma list_Remove_absent tx l s : list_ok l s -> tx_Nonce tx ∉ nonces_of s ->
  exists l', list_Remove tx l = (Ok (false, []), l') /\ list_ok l' s /\ strict l' = strict l.
Proof.
  intros H Hn. destruct (sorted_Remove_ok (tx_Nonce tx) _ _ (lok_txs _ _ H)) as (m & Hr & Hm).
  rewrite bool_decide_eq_false_2 in Hr by done. unfold list_Remove. erewrite bindM_step by (by apply on_txs_total).
  eexists. split; [done|]. split; [|done]. rewrite filter_all in Hm.
  - destruct H. by split.
  - rewrite list.Forall_forall. intros x Hx E. apply Hn. rewrite <- E. by apply list_elem_of_fmap_2.
Qed.

(** ** [Add] *)

(** The transaction that has the nonce *)
Definition at_nonce (n : Z) (s : list Transaction) : option Transaction := of_list s !! n.

Lemma put_cost tx s : ascending s ->
  total_cost (put tx s) + total_cost (option_list (at_nonce (tx_Nonce tx) s)) = total_cost s + Cost tx.
Proof.
  intros Hs. set (n := tx_Nonce tx). assert (Ep : total_cost (put tx s) = Cost tx + total_cost (filter (fun x => tx_Nonce x <> n) s)).
  { unfold put. fold n. rewrite total_cost_app. cbn [total_cost foldr]. fold (total_cost (above n s)).
    rewrite (total_cost_split (fun x => tx_Nonce x < n) (filter (fun x => tx_Nonce x <> n) s)).
    rewrite (filter_filter_l _ _ (fun x => tx_Nonce x < n)), (filter_filter_l _ _ (fun x => n < tx_Nonce x)) by (intros; cbn; lia). lia. }
  rewrite Ep. destruct (at_nonce n s) as [old|] eqn:Ho; cbn [option_list].
  - apply of_list_lookup in Ho as [Hin En]; [|done]. pose proof (remove_cost old s Hs Hin) as Hr. rewrite En in Hr. change (option_list (Some old)) with [old]. lia.
  - rewrite filter_all; [cbn; lia|]. rewrite list.Forall_forall. intros x Hx E.
    assert (at_nonce n s = Some x) by (by apply of_list_lookup). congruence.
Qed.

Lemma get_at l s n : list_ok l s -> Get (txs l) n = at_nonce n s.
Proof. intros H. unfold Get, at_nonce. by rewrite (held_items _ _ (ok_held _ _ (lok_txs _ _ H))). Qed.

(** A transaction that is refused changes nothing. *)
Lemma list_Add_refused tx bump l s old : list_ok l s -> at_nonce (tx_Nonce tx) s = Some old -> keeps_old old tx bump = true ->
  list_Add tx bump l = (Ok (false, None), l).
Proof. intros H Ho Hk. unfold list_Add. rewrite getM_bind, (get_at _ _ _ H), Ho, Hk. done. Qed.

(** Else it takes the place of the old one. *)
Lemma list_Add_ok tx bump l s : list_ok l s -> is_u64 (tx_Nonce tx) -> 0 <= Cost tx ->
  total_cost (put tx s) < 2 ^ 256 -> (forall old, at_nonce (tx_Nonce tx) s = Some old -> keeps_old old tx bump = false) ->
  exists l', list_Add tx bump l = (Ok (true, at_nonce (tx_Nonce tx) s), l') /\ list_ok l' (put tx s) /\ strict l' = strict l.
Proof.
  intros H Hu Hc Hfit Hk. pose proof (lok_nonneg _ _ H) as Hnn. pose proof (ok_held _ _ (lok_txs _ _ H)) as Hh.
  pose proof (held_ascending _ _ Hh) as Ha. pose proof (put_cost tx s Ha) as Ep. set (old := at_nonce (tx_Nonce tx) s) in *.
  assert (Hold : Forall (fun x => 0 <= Cost x) (option_list old)).
  { subst old. destruct (at_nonce (tx_Nonce tx) s) as [old|] eqn:Ho; repeat constructor.
    apply of_list_lookup in Ho as [Hin _]; [|done]. rewrite list.Forall_forall in Hnn. by apply Hnn. }
  assert (Hput : Forall (fun x => 0 <= Cost x) (put tx s)).
  { rewrite list.Forall_forall in *. intros x [->|[Hx _]]%elem_of_put; [done|by apply Hnn]. }
  pose proof (total_cost_nonneg _ Hput) as Hp0. pose proof (total_cost_nonneg _ Hold) as Ho0.
  assert (Hle : Cost tx <= total_cost (put tx s)).
  { unfold put in *. rewrite Forall_app, list.Forall_cons in Hput. rewrite total_cost_app. cbn [total_cost foldr]. fold (total_cost (above (tx_Nonce tx) s)).
    destruct Hput as (H1 & _ & H2). apply total_cost_nonneg in H1, H2. lia. }
  unfold list_Add. rewrite getM_bind, (get_at _ _ _ H). fold old.
  assert (match old with Some old => keeps_old old tx bump | None => false end = false) as -> by (destruct old; auto).
  assert (Hsub : subTotalCost (option_list old) l = (Ok tt, set_total l (total_cost s - total_cost (option_list old)))).
  { unfold subTotalCost, methodM. rewrite (lok_total _ _ H).
    replace (total_cost s) with (total_cost (option_list old) + (total_cost s - total_cost (option_list old))) at 1 by lia.
    rewrite sub_costs_ok; [done|done|lia|]. pose proof (lok_fits _ _ H). lia. }
  erewrite bindM_step by done. unfold add_new. rewrite FromBig_fits by lia. eexists. split; [done|]. split; [|done].
  split; cbn.
  - by apply sorted_Put_ok.
  - rewrite U256_Add_wraps, Z.mod_small; lia.
  - done.
  - pose proof (lok_caps _ _ H) as Hcaps. rewrite list.Forall_forall in *. intros x [->|[Hx _]]%elem_of_put.
    + split; [|case_match]; [split; [done|case_match]|..]; lia.
    + specialize (Hcaps x Hx). split; [|case_match]; [split; [lia|case_match]|..]; lia.
Qed.

(** ** [Filter] *)

Definition over (costLimit gasLimit : Z) (tx : Transaction) : bool := (gasLimit <? tx_Gas tx) || (costLimit <? Cost tx).

(** What stays: everything before the first transaction over a limit if the list is strict. *)
Fixpoint upto (f : Transaction -> bool) (s : list Transaction) : list Transaction :=
  match s with
  | tx :: s' => if f tx then [] else tx :: upto f s'
  | [] => []
  end.
Definition kept (strict : bool) (f : Transaction -> bool) (s : list Transaction) : list Transaction :=
  if strict then upto f s else misses f s.

Lemma upto_sublist f s : sublist (upto f s) s.
Proof. induction s as [|x s IH]; [done|]. cbn. destruct (f x); [apply sublist_nil_l|by apply sublist_skip]. Qed.

Lemma upto_misses f s : Forall (fun tx => f tx = false) (upto f s).
Proof. induction s as [|x s IH]; cbn; [constructor|]. destruct (f x) eqn:E; by constructor. Qed.

Lemma kept_misses b f s : Forall (fun tx => f tx = false) (kept b f s).
Proof. destruct b; [apply upto_misses|]. rewrite list.Forall_forall. by intros x [? _]%list_elem_of_filter. Qed.

Lemma kept_sublist b f s : sublist (kept b f s) s.
Proof. destruct b; [apply upto_sublist|apply sublist_filter]. Qed.

Lemma kept_all b f s : hits f s = [] -> kept b f s = s.
Proof.
  intros Hh. destruct b; [|by apply hits_nil]. induction s as [|x s IH]; [done|]. cbn. rewrite filter_cons in Hh.
  destruct (decide _) as [|Hf]; [done|]. apply not_true_is_false in Hf. rewrite Hf. f_equal. by apply IH.
Qed.

(** The lowest nonce that was removed, from which on a strict list is cut *)
Lemma lowest_le r : forall m, fold_left (fun lowest tx => if tx_Nonce tx <? lowest then tx_Nonce tx else lowest) r m
  = foldr (fun tx => Z.min (tx_Nonce tx)) m r.
Proof.
  induction r as [|x r IH]; intros m; [done|]. cbn. rewrite IH. clear IH. assert (forall k a b,
    foldr (fun tx => Z.min (tx_Nonce tx)) (Z.min a b) k = Z.min a (foldr (fun tx => Z.min (tx_Nonce tx)) b k)) as Hm.
  { induction k as [|y k IH]; intros a b; cbn; [done|]. rewrite IH. lia. }
  rewrite <- Hm. f_equal. destruct (Z.ltb_spec (tx_Nonce x) m); lia.
Qed.

Lemma lowest_perm r r' m : r ≡ₚ r' -> foldr (fun tx => Z.min (tx_Nonce tx)) m r = foldr (fun tx => Z.min (tx_Nonce tx)) m r'.
Proof. intros Hp. induction Hp; cbn; lia. Qed.

Lemma lowest_ge n m r : n <= m -> Forall (fun tx => n <= tx_Nonce tx) r -> n <= foldr (fun tx => Z.min (tx_Nonce tx)) m r.
Proof. intros Hm. induction 1; cbn; lia. Qed.

Lemma upto_split f s : ascending s -> Forall (fun tx => is_u64 (tx_Nonce tx)) s ->
  misses (fun tx => foldr (fun tx => Z.min (tx_Nonce tx)) MaxUint64 (hits f s) <? tx_Nonce tx) (misses f s) = upto f s.
Proof.
  induction 1 as [|x s Hs IH Hx]; [done|]. intros [Hux Hu]%list.Forall_cons. cbn [upto]. specialize (IH Hu). rewrite !(filter_cons _ x).
  destruct (f x) eqn:E; [rewrite decide_True, decide_False by done|rewrite decide_False, decide_True by done]; cbn [foldr].
  - apply filter_none. rewrite list.Forall_forall. intros y [_ Hy]%list_elem_of_filter.
    rewrite list.Forall_forall in Hx. specialize (Hx y Hy). unfold by_nonce in Hx. lia.
  - rewrite filter_cons_True; [by f_equal|]. clear IH. apply Z.ltb_ge, lowest_ge; [u64_lia|].
    rewrite list.Forall_forall in *. intros y [_ Hy]%list_elem_of_filter. specialize (Hx y Hy). unfold by_nonce in Hx. lia.
Qed.

Lemma filter_above_ok f r l s : ascending s -> Forall (fun tx => is_u64 (tx_Nonce tx)) s -> r ≡ₚ hits f s -> sorted_ok (txs l) (misses f s) ->
  exists invalids m, filter_above r l = (invalids, set_txs l m) /\ sorted_ok (reheap m) (kept (strict l) f s) /\
    misses f s ≡ₚ invalids ++ kept (strict l) f s.
Proof.
  intros Ha Hu Hr Hm. unfold filter_above. pose proof (held_ascending _ _ (ok_held _ _ Hm)) as Ham. destruct (strict l); cbn [kept]; cycle 1.
  { exists [], (txs l). split; [by destruct l|]. split; [|done]. apply reheap_ok; [done|apply Hm..]. }
  rewrite lowest_le, (lowest_perm _ _ _ Hr). set (g := fun tx => _ <? _).
  destruct (filter_items_ok g (txs l) (misses f s) Ham (held_items _ _ (ok_held _ _ Hm))) as (invalids & m & -> & Hp & Hi & _).
  unfold g in Hi. rewrite (upto_split f s Ha Hu) in Hi. exists invalids, m. split; [done|]. split.
  - apply reheap_ok; [|eapply Forall_sublist; [apply upto_sublist|done]|done]. eapply ascending_sublist; [apply upto_sublist|done].
  - rewrite Hp, <- (upto_split f s Ha Hu). apply hits_misses_perm.
Qed.

Lemma over_caps l s c g : list_ok l s -> costcap l <= c -> gascap l <= g -> hits (over c g) s = [].
Proof.
  intros H Hc Hg. apply filter_none. eapply list.Forall_impl; [apply (lok_caps _ _ H)|]. unfold over. cbn. intros tx Htx. lia.
Qed.

Lemma set_caps_ok l s c g : list_ok l s -> Forall (fun tx => over c g tx = false) s -> list_ok (set_caps l c g) s.
Proof.
  intros H Ho. destruct H as [H1 H2 H3 H4]. split; [done..|]. cbn. rewrite list.Forall_forall in *. intros x Hx.
  specialize (H4 x Hx). specialize (Ho x Hx). unfold over in Ho. lia.
Qed.

(** [Filter] returns what is over a limit and, of a strict list, what came after it. *)
Lemma list_Filter_ok c g l s : list_ok l s ->
  exists removed invalids l', list_Filter c g l = (Ok (removed, invalids), l') /\ removed ≡ₚ hits (over c g) s /\
    s ≡ₚ removed ++ invalids ++ kept (strict l) (over c g) s /\
    list_ok l' (kept (strict l) (over c g) s) /\ strict l' = strict l.
Proof.
  intros H. pose proof (ok_held _ _ (lok_txs _ _ H)) as Hh. pose proof (held_ascending _ _ Hh) as Ha. unfold list_Filter. rewrite getM_bind.
  destruct ((costcap l <=? c) && (gascap l <=? g)) eqn:Ec.
  { apply andb_true_iff in Ec as [Ec%Z.leb_le Eg%Z.leb_le]. pose proof (over_caps l s c g H Ec Eg) as Hn.
    exists [], [], l. rewrite kept_all, Hn by done. done. }
  rewrite modifyM_bind. fold (over c g). destruct (Filter_ok (over c g) (txs l) s (lok_txs _ _ H)) as (r & m & Hf & Hp & Hm).
  erewrite bindM_step by (by apply on_txs_total). destruct (length r =? 0)%nat eqn:Er.
  { apply Nat.eqb_eq, length_zero_iff_nil in Er as ->. apply Permutation_nil in Hp. rewrite kept_all by done.
    eexists [], [], _. rewrite Hp. split; [done|]. split; [done|]. split; [done|]. split; [|done]. rewrite (hits_nil _ _ Hp) in Hm.
    apply (set_caps_ok (set_txs l m)); [destruct H; by split|]. rewrite list.Forall_forall. intros x Hx. destruct (over c g x) eqn:E; [|done].
    assert (Hin : x ∈ hits (over c g) s) by (by apply list_elem_of_filter). rewrite Hp in Hin. by apply elem_of_nil in Hin. }
  destruct (filter_above_ok (over c g) r (set_txs (set_caps l c g) m) s Ha (held_u64 _ _ Hh) Hp Hm) as (inv & m2 & Hfa & Hm2 & Hinv).
  rewrite totalM_bind, Hfa. cbn [fst snd strict set_txs set_caps] in *. set (s' := kept (strict l) (over c g) s) in *.
  assert (Hall : s ≡ₚ r ++ inv ++ s').
  { rewrite Hp, <- Hinv. apply hits_misses_perm. }
  exists r, inv. pose proof (lok_nonneg _ _ H) as Hnn. pose proof Hnn as Hnn'. rewrite Hall, !Forall_app in Hnn'. destruct Hnn' as (Nr & Ni & Ns).
  assert (Hc : total_cost s = total_cost r + total_cost (inv ++ s')) by (by rewrite <- total_cost_app, <- Hall).
  pose proof (lok_fits _ _ H) as Hfit. pose proof (lok_total _ _ H) as Htot. pose proof (total_cost_nonneg r Nr) as N0.
  erewrite bindM_step. 2:{ apply (subTotalCost_ok _ r (inv ++ s')); cbn; [lia|lia|done|by apply Forall_app]. }
  rewrite total_cost_app in Hc. erewrite bindM_step. 2:{ apply (subTotalCost_ok _ inv s'); cbn; [by rewrite total_cost_app|lia|done|done]. }
  rewrite modifyM_bind. eexists. split; [done|]. split; [done|]. split; [done|]. split; [|done].
  pose proof (total_cost_nonneg inv Ni). split; cbn; [done|done|lia|].
  pose proof (lok_caps _ _ H) as Hcaps. pose proof (kept_misses (strict l) (over c g) s) as Hk. fold s' in Hk.
  eapply (Forall_sublist _ _ s') in Hcaps; [|apply kept_sublist]. rewrite list.Forall_forall in *. intros x Hx.
  specialize (Hcaps x Hx). specialize (Hk x Hx). unfold over in Hk. lia.
Qed.

Lemma list_Flatten_ok l s : list_ok l s -> exists l', list_Flatten l = (Ok s, l') /\ list_ok l' s /\ strict l' = strict l.
Proof.
  intros H. destruct (flatten_ok _ _ (lok_txs _ _ H)) as (m & Hf & Hm). exists (set_txs l m). split; [by apply on_txs_total|].
  split; [|done]. destruct H. by split.
Qed.

(** ** Sequences of operations *)

Inductive op :=
  | OAdd (tx : Transaction) (priceBump : Z)
  | OForward (n : Z)
  | OFilter (costLimit gasLimit : Z)
  | OCap (n : Z)
  | ORemove (tx : Transaction)
  | OReady (start : Z).

(** What an operation of the code returns: the transactions that leave the list. *)
Definition perform (o : op) : StM txList (list Transaction) :=
  match o with
  | OAdd tx bump => r ← list_Add tx bump; mret (option_list r.2)
  | OForward n => list_Forward n
  | OFilter c g => r ← list_Filter c g; mret (r.1 ++ r.2)
  | OCap n => list_Cap n
  | ORemove tx => r ← list_Remove tx; mret (if r.1 : bool then tx :: r.2 else [])
  | OReady n => list_Ready n
  end.

Definition refused (tx : Transaction) (bump : Z) (s : list Transaction) : bool :=
  match at_nonce (tx_Nonce tx) s with Some old => keeps_old old tx bump | None => false end.

(** The list after it, and the transaction it put there *)
Definition after (strict : bool) (o : op) (s : list Transaction) : list Transaction :=
  match o with
  | OAdd tx bump => if refused tx bump s then s else put tx s
  | OForward n => from n s
  | OFilter c g => kept strict (over c g) s
  | OCap n => take (Z.to_nat n) s
  | ORemove tx => if bool_decide (tx_Nonce tx ∈ nonces_of s) then without strict (tx_Nonce tx) s else s
  | OReady n => drop (length (ready_run n s)) s
  end.
Definition entering (o : op) (s : list Transaction) : list Transaction :=
  match o with OAdd tx bump => if refused tx bump s then [] else [tx] | _ => [] end.

(** A cost is not negative and the sum fits into 256 bits; a transaction is removed by itself. *)
Definition op_ok (o : op) (s : list Transaction) : Prop :=
  match o with
  | OAdd tx _ => is_u64 (tx_Nonce tx) /\ 0 <= Cost tx /\ total_cost (put tx s) < 2 ^ 256
  | OCap n => 0 <= n
  | ORemove tx => tx_Nonce tx ∈ nonces_of s -> tx ∈ s
  | _ => True
  end.

Lemma filter_partition {A} (P Q : A -> Prop) `{!forall x, Decision (P x), !forall x, Decision (Q x)} (s : list A) :
  (forall x, x ∈ s -> Q x <-> ~ P x) -> s ≡ₚ filter P s ++ filter Q s.
Proof.
  induction s as [|x s IH]; intros Hx; [done|]. rewrite !(filter_cons _ x).
  assert (IH' : s ≡ₚ filter P s ++ filter Q s) by (apply IH; intros y Hy; apply Hx; by right).
  pose proof (Hx x ltac:(by left)) as Hq. destruct (decide (P x)), (decide (Q x)); try tauto.
  - cbn. by rewrite <- IH'.
  - rewrite <- Permutation_middle. by rewrite <- IH'.
Qed.

Lemma removed_perm strict tx s : ascending s -> tx ∈ s ->
  s ≡ₚ (tx :: dropped strict (tx_Nonce tx) s) ++ without strict (tx_Nonce tx) s.
Proof.
  intros Ha Hin. assert (Hf : filter (fun x => tx_Nonce x = tx_Nonce tx) s = [tx]) by (by apply same_nonce).
  rewrite (filter_partition (fun x => tx_Nonce x = tx_Nonce tx) (fun x => tx_Nonce x <> tx_Nonce tx)) at 1 by done. rewrite Hf.
  cbn [app]. apply perm_skip. destruct strict; cbn [dropped without app]; [|done].
  rewrite (filter_partition (fun x => tx_Nonce tx < tx_Nonce x) (fun x => tx_Nonce x < tx_Nonce tx)) at 1.
  - by rewrite !(filter_filter_l _ _ (fun x => tx_Nonce tx < tx_Nonce x)), (filter_filter_l _ _ (fun x => tx_Nonce x < tx_Nonce tx)) by (intros; cbn; lia).
  - intros x [? _]%list_elem_of_filter. lia.
Qed.

Lemma put_perm tx s : ascending s -> tx :: s ≡ₚ option_list (at_nonce (tx_Nonce tx) s) ++ put tx s.
Proof.
  intros Ha. unfold put. rewrite <- Permutation_middle. destruct (at_nonce (tx_Nonce tx) s) as [old|] eqn:Ho; cbn [option_list app].
  - pose proof (proj1 (of_list_lookup _ _ _ Ha) Ho) as [Hin En]. change (option_list (Some old)) with [old]. cbn [app]. etrans; [|apply perm_swap]. apply perm_skip. rewrite <- En.
    rewrite (removed_perm true old s Ha Hin) at 1. cbn. apply perm_skip, Permutation_app_comm.
  - change (option_list None) with (@nil Transaction). cbn [app]. apply perm_skip. apply filter_partition. intros x Hx. split; [lia|]. intros Hlt.
    assert (tx_Nonce x <> tx_Nonce tx); [|lia]. intros E. assert (at_nonce (tx_Nonce tx) s = Some x) by (by apply of_list_lookup). congruence.
Qed.

Lemma bind_ret {S A B} (m : StM S A) (f : A -> B) st a st' : m st = (Ok a, st') -> (x ← m; mret (f x)) st = (Ok (f a), st').
Proof. intros Hm. by erewrite bindM_step. Qed.

(** One operation: it does not panic, and what leaves the list is what it returns. *)
Lemma list_perform_ok o l s : list_ok l s -> op_ok o s ->
  exists out l', perform o l = (Ok out, l') /\ list_ok l' (after (strict l) o s) /\ strict l' = strict l /\
    entering o s ++ s ≡ₚ out ++ after (strict l) o s.
Proof.
  intros H Ho. pose proof (held_ascending _ _ (ok_held _ _ (lok_txs _ _ H))) as Ha.
  destruct o as [tx bump|n|c g|n|tx|n]; cbn [perform after entering op_ok] in *.
  - destruct Ho as (Hu & Hc & Hf). unfold refused. destruct (at_nonce (tx_Nonce tx) s) as [old|] eqn:Hat; [destruct (keeps_old old tx bump) eqn:Hk|].
    + exists [], l. erewrite bind_ret by (by eapply list_Add_refused). done.
    + destruct (list_Add_ok tx bump l s H Hu Hc Hf) as (l' & Hl & Hok & Hst); [intros ? E; congruence|].
      eexists _, l'. erewrite bind_ret by done. split; [done|]. split; [done|]. split; [done|]. by apply put_perm.
    + destruct (list_Add_ok tx bump l s H Hu Hc Hf) as (l' & Hl & Hok & Hst); [intros ? E; congruence|].
      eexists _, l'. erewrite bind_ret by done. split; [done|]. split; [done|]. split; [done|]. by apply put_perm.
  - destruct (list_Forward_ok n l s H) as (l' & -> & Hok & Hst). eexists _, l'. split; [done|]. split; [done|]. split; [done|].
    cbn [app]. by rewrite <- below_from.
  - destruct (list_Filter_ok c g l s H) as (r & inv & l' & Hl & _ & Hp & Hok & Hst). eexists _, l'. erewrite bind_ret by done.
    split; [done|]. split; [done|]. split; [done|]. cbn [fst snd]. by rewrite <- app_assoc.
  - destruct (list_Cap_ok n l s H Ho) as (l' & -> & Hok & Hst). eexists _, l'. split; [done|]. split; [done|]. split; [done|].
    cbn [app]. rewrite reverse_Permutation, Permutation_app_comm. by rewrite take_drop.
  - case_bool_decide as Hin.
    + specialize (Ho Hin). destruct (list_Remove_ok tx l s H Ho) as (r & l' & Hl & Hp & Hok & Hst). eexists _, l'. erewrite bind_ret by done.
      split; [done|]. split; [done|]. split; [done|]. cbn [fst snd]. rewrite Hp. by apply removed_perm.
    + destruct (list_Remove_absent tx l s H Hin) as (l' & Hl & Hok & Hst). eexists _, l'. by erewrite bind_ret by done.
  - destruct (list_Ready_ok n l s H) as (l' & -> & Hok & Hst). eexists _, l'. split; [done|]. split; [done|]. split; [done|].
    cbn [app]. by rewrite <- ready_prefix.
Qed.

Fixpoint performs (os : list op) : StM txList (list Transaction) :=
  match os with
  | [] => mret []
  | o :: os' => out ← perform o; outs ← performs os'; mret (out ++ outs)
  end.
Fixpoint afters (strict : bool) (os : list op) (s : list Transaction) : list Transaction :=
  match os with [] => s | o :: os' => afters strict os' (after strict o s) end.
Fixpoint entered (strict : bool) (os : list op) (s : list Transaction) : list Transaction :=
  match os with [] => [] | o :: os' => entering o s ++ entered strict os' (after strict o s) end.
Fixpoint ops_ok (strict : bool) (os : list op) (s : list Transaction) : Prop :=
  match os with [] => True | o :: os' => op_ok o s /\ ops_ok strict os' (after strict o s) end.

Lemma performs_ok os : forall l s, list_ok l s -> ops_ok (strict l) os s ->
  exists outs l', performs os l = (Ok outs, l') /\ list_ok l' (afters (strict l) os s) /\ strict l' = strict l /\
    entered (strict l) os s ++ s ≡ₚ outs ++ afters (strict l) os s.
Proof.
  induction os as [|o os IH]; intros l s H Ho; cbn [performs afters entered ops_ok] in *; [by exists [], l|].
  destruct Ho as [Ho Hos]. destruct (list_perform_ok o l s H Ho) as (out & l1 & Hl & Hok & Hst & Hp). rewrite <- Hst in Hos, Hok.
  destruct (IH l1 _ Hok Hos) as (outs & l2 & Hl2 & Hok2 & Hst2 & Hp2). eexists (out ++ outs), l2.
  erewrite bindM_step by done. erewrite bind_ret by done. rewrite Hst in *. split; [done|]. split; [done|]. split; [done|].
  rewrite <- !app_assoc, <- Hp2, (Permutation_app_comm (entering o s)), <- app_assoc, (Permutation_app_comm s), Hp.
  rewrite !app_assoc. apply Permutation_app_tail. apply Permutation_app_comm.
Qed.


End Range.

End txlistspec.
