(* ===== verification/PricedList.v ===== *)
(** * The lookup table and the price heaps of the transaction pool

    From [core/txpool/legacypool/legacypool.go] the [lookup] of all transactions by hash and
    the [accountSet]; from [list.go] the [priceHeap]s and the [pricedList], which chooses the
    transactions to evict. The heaps hold the remote transactions of the lookup and stale
    entries, which are dropped when they come to the front. *)

From S2P Require Import Prelude GoStd Slices Transition Ordering TxList.
Import core.

(** [for hash, tx := range txs], in an order the language leaves open *)
Class HashRange := range_hashes : gmap Hash Transaction -> list (Hash * Transaction).
Class HashRangeSpec {HR : HashRange} : Prop :=
  range_hashes_perm (m : gmap Hash Transaction) : range_hashes m ≡ₚ map_to_list m.

(** The result of a comparison *)
Definition cmpZ (a b : Z) : Z := match a ?= b with Lt => -1 | Eq => 0 | Gt => 1 end.

Definition txSlotSize : Z := 32 * 1024.
Definition txMaxSize : Z := 4 * txSlotSize.

(** [tx.Size] is a [uint64]. *)
Definition numSlots (tx : Transaction) : Z := u64 (u64 (tx_Size tx + txSlotSize) - 1) / txSlotSize.

(** ** [accountSet] *)

Module accountset.

Record accountSet := mkAccounts { accounts : gmap Address unit; as_cache : option (list Address) }.

Definition newAccountSet : accountSet := mkAccounts ∅ None.
Definition contains (s : accountSet) (addr : Address) : bool := bool_decide (is_Some (accounts s !! addr)).
Definition add (addr : Address) (s : accountSet) : accountSet := mkAccounts (<[addr := tt]> (accounts s)) None.
Definition merge (s other : accountSet) : accountSet := mkAccounts (accounts other ∪ accounts s) None.

Section Signer.
Context (Sender : Transaction -> result Address).

Definition containsTx (s : accountSet) (tx : Transaction) : bool :=
  match Sender tx with Ok addr => contains s addr | _ => false end.
Definition addTx (tx : Transaction) (s : accountSet) : accountSet :=
  match Sender tx with Ok addr => add addr s | _ => s end.

End Signer.

Definition flatten `{MapRange unit} (s : accountSet) : list Address * accountSet :=
  match as_cache s with
  | Some c => (c, s)
  | None => let c := (range_entries (accounts s)).*1 in (c, mkAccounts (accounts s) (Some c))
  end.

End accountset.
Export accountset (accountSet).

(** ** [lookup] *)

Module lookup.

Record lookup := mkLookup { slots : Z; locals : gmap Hash Transaction; remotes : gmap Hash Transaction }.

Definition newLookup : lookup := mkLookup 0 ∅ ∅.
Definition Get (t : lookup) (hash : Hash) : option Transaction :=
  match locals t !! hash with
  | Some tx => Some tx
  | None => remotes t !! hash
  end.
Definition GetLocal (t : lookup) (hash : Hash) : option Transaction := locals t !! hash.
Definition GetRemote (t : lookup) (hash : Hash) : option Transaction := remotes t !! hash.
Definition Count (t : lookup) : nat := (size (locals t) + size (remotes t))%nat.

Definition Add (tx : Transaction) (local : bool) (t : lookup) : lookup :=
  let slots := slots t + numSlots tx in
  if local then mkLookup slots (<[tx_Hash tx := tx]> (locals t)) (remotes t)
  else mkLookup slots (locals t) (<[tx_Hash tx := tx]> (remotes t)).

Definition Remove (hash : Hash) (t : lookup) : lookup :=
  match Get t hash with
  | None => t
  | Some tx => mkLookup (slots t - numSlots tx) (delete hash (locals t)) (delete hash (remotes t))
  end.

Section Range.
Context {HR : HashRange} (Sender : Transaction -> result Address).

Definition RemoteToLocals (accounts : accountSet) (t : lookup) : Z * lookup :=
  fold_left (fun '(migrated, t) '(hash, tx) =>
    if accountset.containsTx Sender accounts tx
    then (migrated + 1, mkLookup (slots t) (<[hash := tx]> (locals t)) (delete hash (remotes t)))
    else (migrated, t)) (range_hashes (remotes t)) (0, t).

Definition RemotesBelowTip (threshold : Z) (t : lookup) : list Transaction :=
  filter (fun tx => tx_GasTipCap tx < threshold) (range_hashes (remotes t)).*2.

End Range.
End lookup.
Export lookup (lookup).

(** ** [pricedList] *)

Module pricedlist.

Definition urgentRatio : Z := 4.
Definition floatingRatio : Z := 1.

Section Priced.
Context {TL : TxLib} {HR : HashRange}.

(** The base fee is an estimate of the next block's, which fits into 256 bits. *)
Record priceHeap := mkPriceHeap { ph_baseFee : option Z; ph_list : list Transaction }.

Definition cmp (baseFee : option Z) (a b : Transaction) : Z :=
  let c := match baseFee with Some baseFee => EffectiveGasTipCmp a b baseFee | None => 0 end in
  if negb (c =? 0) then c else
  let c := cmpZ (tx_GasFeeCap a) (tx_GasFeeCap b) in
  if negb (c =? 0) then c else
  cmpZ (tx_GasTipCap a) (tx_GasTipCap b).

Definition Less (baseFee : option Z) (a b : Transaction) : bool :=
  let c := cmp baseFee a b in
  if c =? -1 then true else if c =? 1 then false else tx_Nonce b <? tx_Nonce a.

Definition heap_of (h : priceHeap) : heap.Interface (list Transaction) Transaction := slices.slice_heap (Less (ph_baseFee h)).
Definition ph_set (h : priceHeap) (l : list Transaction) : priceHeap := mkPriceHeap (ph_baseFee h) l.
Definition ph_Push (tx : Transaction) (h : priceHeap) : priceHeap := ph_set h (@heap.heap_Push _ _ (heap_of h) (ph_list h) tx).
Definition ph_Init (h : priceHeap) : priceHeap := ph_set h (@heap.heap_Init _ _ (heap_of h) (ph_list h)).
Definition ph_Pop (h : priceHeap) : result (Transaction * priceHeap) :=
  match @heap.heap_Pop _ _ (heap_of h) (ph_list h) with
  | (l, Some tx) => Ok (tx, ph_set h l)
  | (_, None) => Panic
  end.
Definition ph_len (h : priceHeap) : Z := Z.of_nat (length (ph_list h)).

Record pricedList := mkPriced { stales : Z; urgent : priceHeap; floating : priceHeap }.

Definition newPricedList : pricedList := mkPriced 0 (mkPriceHeap None []) (mkPriceHeap None []).

Definition Put (tx : Transaction) (local : bool) (l : pricedList) : pricedList :=
  if local then l else mkPriced (stales l) (ph_Push tx (urgent l)) (floating l).

(** [for i := 0; i < floatingCount; i++] *)
Fixpoint pop_n (n : nat) (h : priceHeap) (popped : list Transaction) : result (list Transaction * priceHeap) :=
  match n with
  | O => Ok (popped, h)
  | S n' => '(tx, h) ← ph_Pop h; pop_n n' h (popped ++ [tx])
  end.

Definition Reheap (all : lookup) : StM pricedList unit := methodM (fun l =>
  let urgent := ph_Init (ph_set (urgent l) (range_hashes (lookup.remotes all)).*2) in
  let floatingCount := ph_len urgent * floatingRatio / (urgentRatio + floatingRatio) in
  '(popped, urgent) ← pop_n (Z.to_nat floatingCount) urgent [];
  Ok (tt, mkPriced 0 urgent (ph_Init (ph_set (floating l) popped)))).

Definition SetBaseFee (baseFee : Z) (all : lookup) : StM pricedList unit :=
  _ ← modifyM (fun l => mkPriced (stales l) (mkPriceHeap (Some baseFee) (ph_list (urgent l))) (floating l));
  Reheap all.

Definition Removed (count : Z) (all : lookup) : StM pricedList unit :=
  _ ← modifyM (fun l => mkPriced (stales l + count) (urgent l) (floating l));
  l ← getM;
  if stales l <=? (ph_len (urgent l) + ph_len (floating l)) / 4 then mret tt else Reheap all.

(** The entries at the front that are stale, at most as many as there are *)
Fixpoint drop_stale (fuel : nat) (all : lookup) (stales : Z) (h : priceHeap) : result (Z * priceHeap) :=
  match fuel, ph_list h with
  | S fuel', head :: _ =>
      if bool_decide (lookup.GetRemote all (tx_Hash head) = None) then
        '(_, h) ← ph_Pop h;
        drop_stale fuel' all (stales - 1) h
      else Ok (stales, h)
  | _, _ => Ok (stales, h)
  end.

Definition underpricedFor (all : lookup) (tx : Transaction) (stales : Z) (h : priceHeap) : result (bool * Z * priceHeap) :=
  '(stales, h) ← drop_stale (length (ph_list h)) all stales h;
  match ph_list h with
  | [] => Ok (false, stales, h)
  | head :: _ => Ok (0 <=? cmp (ph_baseFee h) head tx, stales, h)
  end.

(** The second heap is looked at only if the first one does not decide. *)
Definition Underpriced (tx : Transaction) (all : lookup) : StM pricedList bool := methodM (fun l =>
  '(worse, st, u) ← underpricedFor all tx (stales l) (urgent l);
  let l := mkPriced st u (floating l) in
  if negb (worse || (length (ph_list u) =? 0)%nat) then Ok (false, l) else
  '(worse, st, f) ← underpricedFor all tx (stales l) (floating l);
  let l := mkPriced st u f in
  if negb (worse || (length (ph_list f) =? 0)%nat) then Ok (false, l) else
  Ok (negb (length (ph_list u) =? 0)%nat || negb (length (ph_list f) =? 0)%nat, l)).

(** Every round takes an entry out of a heap or moves one from the first to the second. *)
Fixpoint discard_loop (fuel : nat) (all : lookup) (slots : Z) (drop : list Transaction) (l : pricedList)
    : result (list Transaction * Z * pricedList) :=
  match fuel with
  | O => Ok (drop, slots, l)
  | S fuel' =>
      if slots <=? 0 then Ok (drop, slots, l) else
      if ph_len (floating l) * urgentRatio <? ph_len (urgent l) * floatingRatio then
        '(tx, u) ← ph_Pop (urgent l);
        if bool_decide (lookup.GetRemote all (tx_Hash tx) = None)
        then discard_loop fuel' all slots drop (mkPriced (stales l - 1) u (floating l))
        else discard_loop fuel' all slots drop (mkPriced (stales l) u (ph_Push tx (floating l)))
      else if ph_len (floating l) =? 0 then Ok (drop, slots, l)
      else
        '(tx, f) ← ph_Pop (floating l);
        if bool_decide (lookup.GetRemote all (tx_Hash tx) = None)
        then discard_loop fuel' all slots drop (mkPriced (stales l - 1) (urgent l) f)
        else discard_loop fuel' all (slots - numSlots tx) (drop ++ [tx]) (mkPriced (stales l) (urgent l) f)
  end.

Definition Discard (slots : Z) (force : bool) (all : lookup) : StM pricedList (list Transaction * bool) := methodM (fun l =>
  let fuel := S (2 * length (ph_list (urgent l)) + length (ph_list (floating l))) in
  '(drop, slots, l) ← discard_loop fuel all slots [] l;
  if (0 <? slots) && negb force then
    Ok (([], false), mkPriced (stales l) (fold_left (fun h tx => ph_Push tx h) drop (urgent l)) (floating l))
  else Ok ((drop, true), l)).

End Priced.
End pricedlist.
Export pricedlist (pricedList).
