(* ===== verification/PricedListSpec.v ===== *)
(** * The lookup table and the price heaps: what they hold

    The lookup holds each transaction of the pool once, under its hash. The price heaps hold
    transactions that were in it; a transaction they give up for eviction is still in it. *)

From S2P Require Import Prelude GoStd Slices Transition Ordering TxList PricedList.
Import core pricedlist.

Module pricedlistspec.

(** ** [lookup] *)

Definition slot_sum (m : gmap Hash Transaction) : Z := map_fold (fun _ tx acc => numSlots tx + acc) 0 m.

Lemma slot_sum_insert m h tx : m !! h = None -> slot_sum (<[h := tx]> m) = numSlots tx + slot_sum m.
Proof. intros Hh. unfold slot_sum. rewrite map_fold_insert_L; [done| |done]. intros; lia. Qed.

Lemma slot_sum_delete m h tx : m !! h = Some tx -> slot_sum (delete h m) = slot_sum m - numSlots tx.
Proof.
  intros Hh. rewrite <- (insert_delete_id m h tx Hh) at 2. rewrite slot_sum_insert by apply lookup_delete_eq. lia.
Qed.

(** Every transaction the predicate holds for, once *)
Record lookup_ok (t : lookup) (P : Transaction -> Prop) : Prop := {
  lk_disjoint : lookup.locals t ##ₘ lookup.remotes t;
  lk_get : forall h tx, lookup.Get t h = Some tx <-> tx_Hash tx = h /\ P tx;
  lk_slots : lookup.slots t = slot_sum (lookup.locals t ∪ lookup.remotes t)
}.

Lemma Get_union t h : lookup.Get t h = (lookup.locals t ∪ lookup.remotes t) !! h.
Proof. unfold lookup.Get. rewrite lookup_union. destruct (lookup.locals t !! h); cbn; by destruct (lookup.remotes t !! h). Qed.

Lemma new_lookup_ok : lookup_ok lookup.newLookup (fun _ => False).
Proof. split; cbn; [apply map_disjoint_empty_l| |done]. intros h tx. rewrite Get_union. cbn. split; [by rewrite lookup_union, !lookup_empty|tauto]. Qed.

Lemma lookup_ok_iff t P Q : (forall tx, P tx <-> Q tx) -> lookup_ok t P -> lookup_ok t Q.
Proof. intros HPQ [H1 H2 H3]. split; [done| |done]. intros h tx. by rewrite H2, HPQ. Qed.

Lemma lookup_unique t P a b : lookup_ok t P -> P a -> P b -> tx_Hash a = tx_Hash b -> a = b.
Proof.
  intros H Ha Hb E. assert (lookup.Get t (tx_Hash b) = Some a) as H1 by (by apply (lk_get _ _ H)).
  assert (lookup.Get t (tx_Hash b) = Some b) as H2 by (by apply (lk_get _ _ H)). congruence.
Qed.

Lemma lookup_Add_ok t P tx local : lookup_ok t P -> (forall tx', P tx' -> tx_Hash tx' <> tx_Hash tx) ->
  lookup_ok (lookup.Add tx local t) (fun tx' => tx' = tx \/ P tx').
Proof.
  intros [Hd Hg Hs] Hn. assert (Hnone : lookup.Get t (tx_Hash tx) = None).
  { destruct (lookup.Get t (tx_Hash tx)) as [tx'|] eqn:E; [|done]. apply Hg in E as [E HP]. by apply Hn in HP. }
  rewrite Get_union, lookup_union_None in Hnone. destruct Hnone as [Hl Hr].
  assert (Hu : lookup.locals (lookup.Add tx local t) ∪ lookup.remotes (lookup.Add tx local t)
    = <[tx_Hash tx := tx]> (lookup.locals t ∪ lookup.remotes t)).
  { destruct local; cbn; [by rewrite insert_union_l|by rewrite <- insert_union_r]. }
  split.
  - destruct local; cbn; [by apply map_disjoint_insert_l_2|by apply map_disjoint_insert_r_2].
  - intros h tx'. rewrite Get_union, Hu, lookup_insert_Some, <- Get_union, Hg. split.
    + intros [[<- <-]|(? & ? & ?)]; auto.
    + intros [<- [->|HP]]; [auto|]. right. split; [|done]. intros E. by apply (Hn tx').
  - rewrite Hu, slot_sum_insert by (by apply lookup_union_None). rewrite <- Hs. destruct local; cbn; lia.
Qed.

Lemma lookup_Remove_ok t P h : lookup_ok t P -> lookup_ok (lookup.Remove h t) (fun tx => P tx /\ tx_Hash tx <> h).
Proof.
  intros H. pose proof H as [Hd Hg Hs]. unfold lookup.Remove. destruct (lookup.Get t h) as [tx|] eqn:E.
  - assert (Hu : delete h (lookup.locals t) ∪ delete h (lookup.remotes t) = delete h (lookup.locals t ∪ lookup.remotes t)) by (by rewrite delete_union).
    split; cbn.
    + apply map_disjoint_delete_l, map_disjoint_delete_r, Hd.
    + intros h' tx'. rewrite Get_union. cbn. rewrite Hu, lookup_delete_Some, <- Get_union, Hg. naive_solver.
    + rewrite Hu, (slot_sum_delete _ h tx) by (by rewrite <- Get_union). lia.
  - eapply lookup_ok_iff; [|done]. intros tx. split; [|by intros []]. intros HP. split; [done|].
    intros <-. assert (lookup.Get t (tx_Hash tx) = Some tx) by (by apply Hg). congruence.
Qed.

Lemma migrate_ok t P h tx : lookup_ok t P -> lookup.remotes t !! h = Some tx ->
  lookup_ok (lookup.mkLookup (lookup.slots t) (<[h := tx]> (lookup.locals t)) (delete h (lookup.remotes t))) P.
Proof.
  intros [Hd Hg Hs] Hh. assert (Hl : lookup.locals t !! h = None) by (by eapply map_disjoint_Some_r).
  assert (Hu : <[h := tx]> (lookup.locals t) ∪ delete h (lookup.remotes t) = lookup.locals t ∪ lookup.remotes t).
  { rewrite <- insert_union_l, insert_union_r, insert_delete_id by done. done. }
  split; cbn.
  - apply map_disjoint_insert_l_2; [apply lookup_delete_eq|]. by apply map_disjoint_delete_r.
  - intros h' tx'. rewrite Get_union. cbn. by rewrite Hu, <- Get_union, Hg.
  - by rewrite Hu.
Qed.

Section Range.
Context {HR : HashRange} {HS : HashRangeSpec} {TL : TxLib} (Sender : Transaction -> result Address).

Lemma RemoteToLocals_ok accounts t P : lookup_ok t P -> lookup_ok (snd (lookup.RemoteToLocals Sender accounts t)) P.
Proof.
  intros H. unfold lookup.RemoteToLocals.
  assert (Hin : forall h tx, (h, tx) ∈ range_hashes (lookup.remotes t) -> lookup.remotes t !! h = Some tx).
  { intros h tx. rewrite range_hashes_perm. by rewrite elem_of_map_to_list. }
  assert (Hnd : NoDup (range_hashes (lookup.remotes t)).*1) by (rewrite range_hashes_perm; apply NoDup_fst_map_to_list).
  revert Hin Hnd H. generalize (range_hashes (lookup.remotes t)) as l, 0 as n. intros l. revert t.
  induction l as [|[h tx] l IH]; intros t n Hin Hnd H; [done|]. rewrite fmap_cons in Hnd. apply list.NoDup_cons in Hnd as [Hn Hnd].
  cbn [fold_left]. destruct (accountset.containsTx Sender accounts tx).
  - apply IH; [|done|apply migrate_ok; [done|apply Hin; by left]]. intros h' tx' Hin'. cbn.
    rewrite lookup_delete_ne; [apply Hin; by right|]. intros ->. apply Hn. by apply (list_elem_of_fmap_2 fst) in Hin'.
  - apply IH; [|done|done]. intros h' tx' Hin'. apply Hin. by right.
Qed.

Lemma RemotesBelowTip_in tip t tx : tx ∈ lookup.RemotesBelowTip tip t -> exists h, lookup.remotes t !! h = Some tx.
Proof.
  unfold lookup.RemotesBelowTip. rewrite list_elem_of_filter, range_hashes_perm.
  intros [_ ([h tx'] & -> & Hin)%list_elem_of_fmap]. exists h. by apply elem_of_map_to_list.
Qed.

(** ** [pricedList] *)

Context (genuine : Transaction -> Prop).

Record priced_ok (l : pricedList) : Prop := {
  pr_urgent : Forall genuine (ph_list (urgent l));
  pr_floating : Forall genuine (ph_list (floating l))
}.

Lemma new_priced_ok : priced_ok newPricedList.
Proof. split; constructor. Qed.

Lemma ph_Push_ok tx h : genuine tx -> Forall genuine (ph_list h) -> Forall genuine (ph_list (ph_Push tx h)).
Proof. intros Ht Hh. unfold ph_Push, heap_of. cbn [ph_list ph_set]. rewrite slices.push_moves. by constructor. Qed.

Lemma ph_Pop_ok h : ph_list h <> [] -> exists tx h', ph_Pop h = Ok (tx, h') /\ ph_list h ≡ₚ tx :: ph_list h'.
Proof.
  intros Hn. unfold ph_Pop. destruct (slices.pop_moves (Less (ph_baseFee h)) (ph_list h) Hn) as (tx & l & Hp & Hl).
  unfold heap_of. rewrite Hp. eauto.
Qed.

Lemma priced_Put_ok tx local l : genuine tx -> priced_ok l -> priced_ok (Put tx local l).
Proof. intros Ht [Hu Hf]. unfold Put. destruct local; [done|]. split; [|done]. cbn [urgent]. by apply ph_Push_ok. Qed.

Lemma pop_n_ok n : forall h popped, (n <= length (ph_list h))%nat ->
  exists popped' h', pop_n n h popped = Ok (popped ++ popped', h') /\ ph_list h ≡ₚ popped' ++ ph_list h' .
Proof.
  induction n as [|n IH]; intros h popped Hn; cbn [pop_n]; [exists [], h; by rewrite app_nil_r|].
  destruct (ph_Pop_ok h) as (tx & h' & -> & Hp); [by destruct (ph_list h); [cbn in Hn; lia|]|]. cbn [mbind result_bind].
  destruct (IH h' (popped ++ [tx])) as (popped' & h'' & -> & Hp'); [rewrite Hp in Hn; cbn in Hn; lia|].
  exists (tx :: popped'), h''. rewrite <- app_assoc. split; [done|]. rewrite Hp. cbn. by rewrite Hp'.
Qed.

Lemma Reheap_ok all l : (forall h tx, lookup.remotes all !! h = Some tx -> genuine tx) ->
  exists l', Reheap all l = (Ok tt, l') /\ priced_ok l'.
Proof.
  intros Hg. unfold Reheap, methodM. set (u := ph_Init _).
  assert (Hu : ph_list u ≡ₚ (range_hashes (lookup.remotes all)).*2) by (apply slices.init_moves).
  assert (Fu : Forall genuine (ph_list u)).
  { rewrite Hu, list.Forall_forall. intros tx ([h tx'] & -> & Hin)%list_elem_of_fmap. rewrite range_hashes_perm in Hin.
    apply elem_of_map_to_list in Hin. by eapply Hg. }
  destruct (pop_n_ok (Z.to_nat (ph_len u * floatingRatio / (urgentRatio + floatingRatio))) u []) as (popped & h & -> & Hp).
  { unfold ph_len, floatingRatio, urgentRatio. pose proof (Z.div_le_upper_bound (Z.of_nat (length (ph_list u)) * 1) (4 + 1) (Z.of_nat (length (ph_list u)))). lia. }
  cbn [mbind result_bind app]. eexists. split; [done|]. rewrite Hp, Forall_app in Fu. destruct Fu as [F1 F2]. split; cbn [urgent floating]; [done|].
  unfold ph_Init, heap_of. cbn [ph_list ph_set]. by rewrite slices.init_moves.
Qed.

Lemma Removed_ok n all l : (forall h tx, lookup.remotes all !! h = Some tx -> genuine tx) -> priced_ok l ->
  exists l', Removed n all l = (Ok tt, l') /\ priced_ok l'.
Proof.
  intros Hg H. unfold Removed. rewrite modifyM_bind, getM_bind. case_match; [|by apply Reheap_ok].
  eexists. split; [done|]. by destruct H.
Qed.

Lemma SetBaseFee_ok fee all l : (forall h tx, lookup.remotes all !! h = Some tx -> genuine tx) ->
  exists l', SetBaseFee fee all l = (Ok tt, l') /\ priced_ok l'.
Proof. intros Hg. unfold SetBaseFee. rewrite modifyM_bind. by apply Reheap_ok. Qed.

Lemma drop_stale_ok all fuel : forall st h, Forall genuine (ph_list h) ->
  exists st' h', drop_stale fuel all st h = Ok (st', h') /\ Forall genuine (ph_list h').
Proof.
  induction fuel as [|fuel IH]; intros st h Hh; cbn [drop_stale]; [eauto|]. destruct (ph_list h) as [|tx l] eqn:E; [exists st, h; by rewrite E|].
  case_bool_decide; [|exists st, h; by rewrite E]. destruct (ph_Pop_ok h) as (tx' & h' & -> & Hp); [by rewrite E|]. cbn [mbind result_bind].
  apply IH. rewrite <- E, Hp in Hh. by inversion Hh.
Qed.

Lemma underpricedFor_ok all tx st h : Forall genuine (ph_list h) ->
  exists b st' h', underpricedFor all tx st h = Ok (b, st', h') /\ Forall genuine (ph_list h').
Proof.
  intros Hh. unfold underpricedFor. destruct (drop_stale_ok all (length (ph_list h)) st h Hh) as (st' & h' & -> & Hh').
  cbn [mbind result_bind]. destruct (ph_list h') as [|y l] eqn:E; eexists _, _, h'; by rewrite E.
Qed.

Lemma Underpriced_ok tx all l : priced_ok l -> exists b l', Underpriced tx all l = (Ok b, l') /\ priced_ok l'.
Proof.
  intros [Hu Hf]. unfold Underpriced, methodM. destruct (underpricedFor_ok all tx (stales l) (urgent l) Hu) as (b & st & u & -> & Hu').
  cbn [mbind result_bind]. destruct (negb _); [eexists _, _; split; [done|by split]|]. cbn [stales floating].
  destruct (underpricedFor_ok all tx st (floating l) Hf) as (b' & st' & f & -> & Hf'). cbn [mbind result_bind].
  destruct (negb _); eexists _, _; (split; [done|by split]).
Qed.

(** The transactions that are given up are remote ones of the lookup, by their hashes. *)
Definition evictable (all : lookup) (tx : Transaction) : Prop := genuine tx /\ is_Some (lookup.remotes all !! tx_Hash tx).

Lemma discard_loop_ok all fuel : forall slots drop l, priced_ok l -> Forall (evictable all) drop ->
  exists drop' slots' l', discard_loop fuel all slots drop l = Ok (drop', slots', l') /\ Forall (evictable all) drop' /\ priced_ok l'.
Proof.
  induction fuel as [|fuel IH]; intros slots drop l [Hu Hf] Hd; cbn [discard_loop]; [eauto 10 using priced_ok|].
  case_match; [by eauto 10 using Build_priced_ok|].
  destruct (Z.ltb_spec (ph_len (floating l) * urgentRatio) (ph_len (urgent l) * floatingRatio)) as [Hlt|Hge].
  - destruct (ph_Pop_ok (urgent l)) as (tx & u & -> & Hp).
    { intros E. unfold ph_len, urgentRatio, floatingRatio in Hlt. rewrite E in Hlt. cbn in Hlt. lia. }
    cbn [mbind result_bind]. rewrite Hp in Hu. apply list.Forall_cons in Hu as [Ht Hu].
    case_bool_decide; apply IH; try done; split; cbn [urgent floating]; try done. by apply ph_Push_ok.
  - destruct (Z.eqb_spec (ph_len (floating l)) 0) as [H0|H0]; [by eauto 10 using Build_priced_ok|].
    destruct (ph_Pop_ok (floating l)) as (tx & f & -> & Hp). { intros E. apply H0. unfold ph_len. by rewrite E. }
    cbn [mbind result_bind]. rewrite Hp in Hf. apply list.Forall_cons in Hf as [Ht Hf].
    case_bool_decide as Hr; apply IH; try done. apply Forall_app. split; [done|]. repeat constructor; [done|].
    unfold lookup.GetRemote in Hr. by apply not_eq_None_Some.
Qed.

Lemma Discard_ok slots force all l : priced_ok l ->
  exists drop ok l', Discard slots force all l = (Ok (drop, ok), l') /\ Forall (evictable all) drop /\ priced_ok l'.
Proof.
  intros H. unfold Discard, methodM.
  destruct (discard_loop_ok all (S (2 * length (ph_list (urgent l)) + length (ph_list (floating l)))) slots [] l H ltac:(constructor))
    as (drop & sl & l' & -> & Hd & H'). cbn [mbind result_bind].
  destruct ((0 <? sl) && negb force); [|eexists _, _, _; split; [done|]; by split].
  eexists [], false, _. split; [done|]. split; [constructor|]. destruct H' as [Hu Hf]. split; [|done]. cbn [urgent].
  revert Hu. generalize (urgent l'). induction Hd as [|tx drop [Ht _] Hd IH]; intros h Hh; [done|]. cbn. apply IH. by apply ph_Push_ok.
Qed.

End Range.
End pricedlistspec.
