(* ===== verification/Validation.v ===== *)
(** * The validation of pooled transactions

    [core/txpool/validation.go]: the checks that do not need the state, and those on the nonce
    and the balance of the sender. *)

From S2P Require Import Prelude Deps Fees CustomTypes ExtState Transition Processor TxList.
Import core processor.

(** A blob sidecar and the functions of [crypto/kzg4844] *)
Record BlobTxSidecar := mkSidecar { Blobs : list (list byte); Commitments : list (list byte); Proofs : list (list byte) }.
Class BlobLib := {
  tx_BlobTxSidecar : Transaction -> option BlobTxSidecar;
  CalcBlobHashV1 : list byte -> Hash;
  VerifyBlobProof : list byte -> list byte -> list byte -> result unit
}.

(** The fork predicates the pool asks for, beside those of the processor *)
Record ForkConfig (Ctx : Type) := mkForkConfig {
  fc_chain : ChainConfig Ctx;
  fc_IsBerlin : Z -> bool;
  fc_IsShanghai : Z -> Z -> bool
}.
Arguments fc_chain {Ctx}.
Arguments fc_IsBerlin {Ctx}.
Arguments fc_IsShanghai {Ctx}.

Module validation.

Definition LegacyTxType : Z := 0.
Definition AccessListTxType : Z := 1.
Definition DynamicFeeTxType : Z := 2.

Definition ErrTxTypeNotSupported : error := errors_New "core.ErrTxTypeNotSupported".
Definition ErrNonceTooHigh : error := errors_New "core.ErrNonceTooHigh".
Definition ErrAlreadyKnown : error := errors_New "txpool.ErrAlreadyKnown".
Definition ErrInvalidSender : error := errors_New "txpool.ErrInvalidSender".
Definition ErrUnderpriced : error := errors_New "txpool.ErrUnderpriced".
Definition ErrReplaceUnderpriced : error := errors_New "txpool.ErrReplaceUnderpriced".
Definition ErrAccountLimitExceeded : error := errors_New "txpool.ErrAccountLimitExceeded".
Definition ErrGasLimit : error := errors_New "txpool.ErrGasLimit".
Definition ErrNegativeValue : error := errors_New "txpool.ErrNegativeValue".
Definition ErrOversizedData : error := errors_New "txpool.ErrOversizedData".
Definition ErrFutureReplacePending : error := errors_New "txpool.ErrFutureReplacePending".
Definition ErrAlreadyReserved : error := errors_New "txpool.ErrAlreadyReserved".

Section Checks.
Context {SM : SafeMath} {BB : BlobLib} {Ctx : Type} (Sender : Transaction -> result Address).

Record ValidationOptions := mkOptions {
  Config : ForkConfig Ctx;
  Accept : Z;
  MaxSize : Z;
  MinTip : Z
}.

(** [1 << typ] as a [uint8] *)
Definition type_bit (typ : Z) : Z := Z.shiftl 1 typ mod 2 ^ 8.

Fixpoint checkHashes (hashes : list Hash) (commitments : list (list byte)) : result unit :=
  match hashes, commitments with
  | vhash :: hashes', c :: commitments' =>
      _ ← fail_if (bool_decide (vhash <> CalcBlobHashV1 c)) (errors_New "blob %d: computed hash %#x mismatches transaction one %#x");
      checkHashes hashes' commitments'
  | [], _ => Ok tt
  | _ :: _, [] => Panic
  end.

Fixpoint checkProofs (blobs commitments proofs : list (list byte)) : result unit :=
  match blobs, commitments, proofs with
  | b :: blobs', c :: commitments', p :: proofs' =>
      _ ← (match VerifyBlobProof b c p with Err _ => Err (errors_New "invalid blob %d: %v") | r => r end);
      checkProofs blobs' commitments' proofs'
  | [], _, _ => Ok tt
  | _, _, _ => Panic
  end.

Definition validateBlobSidecar (hashes : list Hash) (sidecar : BlobTxSidecar) : result unit :=
  _ ← fail_if (negb (length (Blobs sidecar) =? length hashes)%nat) (errors_New "invalid number of %d blobs compared to %d blob hashes");
  _ ← fail_if (negb (length (Commitments sidecar) =? length hashes)%nat) (errors_New "invalid number of %d blob commitments compared to %d blob hashes");
  _ ← fail_if (negb (length (Proofs sidecar) =? length hashes)%nat) (errors_New "invalid number of %d blob proofs compared to %d blob hashes");
  _ ← checkHashes hashes (Commitments sidecar);
  checkProofs (Blobs sidecar) (Commitments sidecar) (Proofs sidecar).

(** The checks of a blob transaction; its fee cap is never [nil]. *)
Definition validateBlobTx (tx : Transaction) : result unit :=
  _ ← fail_if (default 0 (tx_BlobGasFeeCap tx) <? eip4844.BlobTxMinBlobGasprice) (errorf_w "blob fee cap %v, minimum needed %v" ErrUnderpriced);
  match tx_BlobTxSidecar tx with
  | None => Err (errors_New "missing sidecar in blob transaction")
  | Some sidecar =>
      let hashes := default [] (tx_BlobHashes tx) in
      _ ← fail_if (length hashes =? 0)%nat (errors_New "blobless blob transaction");
      _ ← fail_if (eip4844.MaxBlobGasPerBlock / eip4844.BlobTxBlobGasPerBlob <? Z.of_nat (length hashes))
            (errors_New "too many blobs in transaction: have %d, permitted %d");
      validateBlobSidecar hashes sidecar
  end.

Definition ValidateTransaction (tx : Transaction) (head : types.Header) (opts : ValidationOptions) : result unit :=
  let number := types.Number head in
  let time := types.Time head in
  let config := fc_chain (Config opts) in
  _ ← fail_if (Z.land (Accept opts) (type_bit (tx_Type tx)) =? 0) (errorf_w "tx type %v not supported by this pool" ErrTxTypeNotSupported);
  _ ← fail_if (MaxSize opts <? tx_Size tx) (errorf_w "transaction size %v, limit %v" ErrOversizedData);
  _ ← fail_if (negb (fc_IsBerlin (Config opts) number) && negb (tx_Type tx =? LegacyTxType)) (errorf_w "type %d rejected, pool not yet in Berlin" ErrTxTypeNotSupported);
  _ ← fail_if (negb (cc_IsLondon config number) && (tx_Type tx =? DynamicFeeTxType)) (errorf_w "type %d rejected, pool not yet in London" ErrTxTypeNotSupported);
  _ ← fail_if (negb (cc_IsCancun config number time) && (tx_Type tx =? BlobTxType)) (errorf_w "type %d rejected, pool not yet in Cancun" ErrTxTypeNotSupported);
  _ ← fail_if (fc_IsShanghai (Config opts) number time && bool_decide (tx_To tx = None) && (MaxInitCodeSize <? Z.of_nat (length (tx_Data tx))))
        (errorf_w "code size %v, limit %v" ErrMaxInitCodeSizeExceeded);
  _ ← fail_if (tx_Value tx <? 0) ErrNegativeValue;
  _ ← fail_if (types.GasLimit head <? tx_Gas tx) (errorf_w "tx gas (%d) > current max gas (%d)" ErrGasLimit);
  _ ← fail_if (256 <? BitLen (tx_GasFeeCap tx)) ErrFeeCapVeryHigh;
  _ ← fail_if (256 <? BitLen (tx_GasTipCap tx)) ErrTipVeryHigh;
  _ ← fail_if (tx_GasFeeCap tx <? tx_GasTipCap tx) ErrTipAboveFeeCap;
  _ ← (match Sender tx with Err _ => Err ErrInvalidSender | r => r end);
  intrGas ← IntrinsicGas (tx_Data tx) (tx_AccessList tx) (bool_decide (tx_To tx = None)) (cc_Rules config number time);
  _ ← fail_if (tx_Gas tx <? intrGas) (errorf_w "address %v tx gas (%v), minimum needed %v" ErrIntrinsicGas);
  _ ← fail_if (tx_GasTipCap tx <? MinTip opts) (errorf_w "gas tip cap %v, minimum needed %v" ErrUnderpriced);
  if tx_Type tx =? BlobTxType then validateBlobTx tx else Ok tt.

Context {S : Type} {GDB : GethStateDB S} {TL : TxLib}.

Record ValidationOptionsWithState := mkStateOptions {
  State : S;
  FirstNonceGap : option (Address -> Z);
  UsedAndLeftSlots : Address -> Z * Z;
  ExistingExpenditure : Address -> Z;
  ExistingCost : Address -> Z -> option Z;
  MinimumFee : option Z
}.

Definition ValidateTransactionWithState (tx : Transaction) (opts : ValidationOptionsWithState) : result unit :=
  from ← Sender tx;
  _ ← fail_if (match MinimumFee opts with Some fee => tx_GasFeeCap tx <? fee | None => false end)
        (errorf_w "address %s have gas fee cap (%d) < pool minimum fee cap (%d)" ErrUnderpriced);
  _ ← fail_if (tx_Nonce tx <? geth_GetNonce (State opts) from) (errorf_w "next nonce %v, tx nonce %v" ErrNonceTooLow);
  _ ← fail_if (match FirstNonceGap opts with Some gap => gap from <? tx_Nonce tx | None => false end)
        (errorf_w "tx nonce %v, gapped nonce %v" ErrNonceTooHigh);
  let balance := geth_GetBalance (State opts) from in
  let cost := Cost tx in
  _ ← fail_if (balance <? cost) (errorf_w "balance %v, tx cost %v, overshot %v" ErrInsufficientFunds);
  let spent := ExistingExpenditure opts from in
  match ExistingCost opts from (tx_Nonce tx) with
  | Some prev =>
      let bump := cost - prev in
      let need := spent + bump in
      fail_if (balance <? need) (errorf_w "balance %v, queued cost %v, tx bumped %v, overshot %v" ErrInsufficientFunds)
  | None =>
      let need := spent + cost in
      _ ← fail_if (balance <? need) (errorf_w "balance %v, queued cost %v, tx cost %v, overshot %v" ErrInsufficientFunds);
      let '(_, remaining) := UsedAndLeftSlots opts from in
      fail_if (remaining <=? 0) (errorf_w "pooled %d txs" ErrAccountLimitExceeded)
  end.

End Checks.
End validation.
