(* ===== verification/LegacyPool.v ===== *)
(** * The transaction pool

    [core/txpool/legacypool/legacypool.go] and the reservations of [core/txpool/txpool.go]. The
    pending lists hold the transactions that can be executed, the queue those that cannot yet,
    [all] every one by its hash. The functions run under the lock of the pool; [now] is the
    reading of the clock during one of them. Metrics and logs are left out, and so is the
    journal of the local transactions, which the pool only writes to. *)

From S2P Require Import Prelude Deps GoStd Slices CustomTypes Header ExtState Transition Processor Ordering Miner TxList PricedList Validation.
Import core processor txpool txlist validation.

(** [common/prque]: the items in the order of their priorities, the highest first *)
Class Prque := prque_pops : list (Address * Z) -> list Address.
Class PrqueSpec {PQ : Prque} : Prop := {
  prque_perm items : prque_pops items ≡ₚ items.*1;
  prque_sorted items i j a b : prque_pops items !! i = Some a -> prque_pops items !! j = Some b -> (i <= j)%nat ->
    forall p q, (a, p) ∈ items -> (b, q) ∈ items -> NoDup items.*1 -> q <= p
}.

(** ** [txpool.reserver]: the accounts and the subpools that own them *)

Module reservations.

Definition reserver (id : nat) (addr : Address) (reserve : bool) : StM (gmap Address nat) unit :=
  reservations ← getM;
  if reserve then
    match reservations !! addr with
    | Some owner => if (owner =? id)%nat then mret tt else lift (Err ErrAlreadyReserved)
    | None => modifyM (fun m => <[addr := id]> m)
    end
  else
    match reservations !! addr with
    | None => lift (Err (errors_New "address not reserved"))
    | Some owner =>
        if negb (owner =? id)%nat then lift (Err (errors_New "address not owned")) else
        modifyM (fun m => delete addr m)
    end.

End reservations.

Module legacypool.

Definition ErrTxPoolOverflow : error := errors_New "legacypool.ErrTxPoolOverflow".

(** ** [Config] *)

Record Config := mkConfig {
  cfg_Locals : list Address;
  NoLocals : bool;
  PriceLimit : Z;
  PriceBump : Z;
  AccountSlots : Z;
  GlobalSlots : Z;
  AccountQueue : Z;
  GlobalQueue : Z;
  Lifetime : Z
}.

(** Durations are in nanoseconds. *)
Definition DefaultConfig : Config := mkConfig [] false 1 10 16 (4096 + 1024) 64 1024 (10 * 60 * 1000000000).

Definition sanitize (conf : Config) : Config :=
  let pick (x d : Z) := if x <? 1 then d else x in
  mkConfig (cfg_Locals conf) (NoLocals conf) (PriceLimit conf)
    (pick (PriceBump conf) (PriceBump DefaultConfig))
    (pick (AccountSlots conf) (AccountSlots DefaultConfig))
    (pick (GlobalSlots conf) (GlobalSlots DefaultConfig))
    (pick (AccountQueue conf) (AccountQueue DefaultConfig))
    (pick (GlobalQueue conf) (GlobalQueue DefaultConfig))
    (pick (Lifetime conf) (Lifetime DefaultConfig)).

Section Pool.
Context {SM : SafeMath} {GL : GasLib} {UI : U256Lib} {UA : U256Arith} {TL : TxLib} {BB : BlobLib} {SL : SidecarLib}.
Context {NR : NonceRange} {HR : HashRange} {RL : MapRange txList} {RU : MapRange unit} {RS : MapRange sortedMap} {PQ : Prque}.
Context {S Ctx : Type} {GDB : GethStateDB S} (Sender : Transaction -> result Address).
(** The chain: its configuration, its states and its blocks *)
Context (chainconfig : ForkConfig Ctx) (Header_Hash : types.Header -> Hash).
Context (StateAt : Hash -> result S) (GetBlock : Hash -> Z -> option (Block Transaction)) (CurrentBlock : types.Header).
(** The number of this pool among the subpools *)
Context (pool_id : nat).
Local Open Scope word_scope.

(** ** [LegacyPool] *)

(** [queued_events] are the transactions sent to [queueTxEventCh]. *)
Record LegacyPool := mkPool {
  config : Config;
  gasTip : Z;
  minimumFee : option Z;
  currentHead : types.Header;
  currentState : S;
  pendingNonces : noncer S;
  locals : accountSet;
  pending : gmap Address txList;
  queue : gmap Address txList;
  beats : gmap Address Z;
  all : lookup;
  priced : pricedList;
  queued_events : list Transaction;
  changesSinceReorg : Z;
  reservations : gmap Address nat
}.
Notation PoolM := (StM LegacyPool).

Definition set_gasTip (p : LegacyPool) x := mkPool (config p) x (minimumFee p) (currentHead p) (currentState p) (pendingNonces p) (locals p) (pending p) (queue p) (beats p) (all p) (priced p) (queued_events p) (changesSinceReorg p) (reservations p).
Definition set_minimumFee (p : LegacyPool) x := mkPool (config p) (gasTip p) x (currentHead p) (currentState p) (pendingNonces p) (locals p) (pending p) (queue p) (beats p) (all p) (priced p) (queued_events p) (changesSinceReorg p) (reservations p).
Definition set_head (p : LegacyPool) h s n := mkPool (config p) (gasTip p) (minimumFee p) h s n (locals p) (pending p) (queue p) (beats p) (all p) (priced p) (queued_events p) (changesSinceReorg p) (reservations p).
Definition set_nonces (p : LegacyPool) x := mkPool (config p) (gasTip p) (minimumFee p) (currentHead p) (currentState p) x (locals p) (pending p) (queue p) (beats p) (all p) (priced p) (queued_events p) (changesSinceReorg p) (reservations p).
Definition set_locals (p : LegacyPool) x := mkPool (config p) (gasTip p) (minimumFee p) (currentHead p) (currentState p) (pendingNonces p) x (pending p) (queue p) (beats p) (all p) (priced p) (queued_events p) (changesSinceReorg p) (reservations p).
Definition set_pending (p : LegacyPool) x := mkPool (config p) (gasTip p) (minimumFee p) (currentHead p) (currentState p) (pendingNonces p) (locals p) x (queue p) (beats p) (all p) (priced p) (queued_events p) (changesSinceReorg p) (reservations p).
Definition set_queue (p : LegacyPool) x := mkPool (config p) (gasTip p) (minimumFee p) (currentHead p) (currentState p) (pendingNonces p) (locals p) (pending p) x (beats p) (all p) (priced p) (queued_events p) (changesSinceReorg p) (reservations p).
Definition set_beats (p : LegacyPool) x := mkPool (config p) (gasTip p) (minimumFee p) (currentHead p) (currentState p) (pendingNonces p) (locals p) (pending p) (queue p) x (all p) (priced p) (queued_events p) (changesSinceReorg p) (reservations p).
Definition set_all (p : LegacyPool) x := mkPool (config p) (gasTip p) (minimumFee p) (currentHead p) (currentState p) (pendingNonces p) (locals p) (pending p) (queue p) (beats p) x (priced p) (queued_events p) (changesSinceReorg p) (reservations p).
Definition set_priced (p : LegacyPool) x := mkPool (config p) (gasTip p) (minimumFee p) (currentHead p) (currentState p) (pendingNonces p) (locals p) (pending p) (queue p) (beats p) (all p) x (queued_events p) (changesSinceReorg p) (reservations p).
Definition set_events (p : LegacyPool) x := mkPool (config p) (gasTip p) (minimumFee p) (currentHead p) (currentState p) (pendingNonces p) (locals p) (pending p) (queue p) (beats p) (all p) (priced p) x (changesSinceReorg p) (reservations p).
Definition set_changes (p : LegacyPool) x := mkPool (config p) (gasTip p) (minimumFee p) (currentHead p) (currentState p) (pendingNonces p) (locals p) (pending p) (queue p) (beats p) (all p) (priced p) (queued_events p) x (reservations p).
Definition set_reservations (p : LegacyPool) x := mkPool (config p) (gasTip p) (minimumFee p) (currentHead p) (currentState p) (pendingNonces p) (locals p) (pending p) (queue p) (beats p) (all p) (priced p) (queued_events p) (changesSinceReorg p) x.

(** ** Steps on a part of the pool *)

(** The sender of a pooled transaction; a signature that cannot be recovered gives the zero
    address. *)
Definition sender (tx : Transaction) : Address := match Sender tx with Ok a => a | _ => Address_zero end.

(** A call whose error is dropped *)
Definition ignoreM {T} (m : StM T unit) : StM T unit := fun st =>
  match m st with (Err _, st') => (Ok tt, st') | r => r end.

(** [defer] of a step that runs when the call returned an error *)
Definition on_error {T A} (m : StM T A) (cleanup : StM T unit) : StM T A := fun st =>
  match m st with
  | (Err e, st') => (_ ← cleanup; lift (Err e)) st'
  | r => r
  end.

Definition reserve (addr : Address) (b : bool) : PoolM unit := fun p =>
  let '(r, m) := reservations.reserver pool_id addr b (reservations p) in (r, set_reservations p m).

(** A method of a list of the pool; a [nil] list is dereferenced. *)
Definition on_pending {A} (addr : Address) (m : StM txList A) : PoolM A := fun p =>
  match pending p !! addr with
  | None => (Panic, p)
  | Some l => let '(r, l) := m l in (r, set_pending p (<[addr := l]> (pending p)))
  end.
Definition on_queue {A} (addr : Address) (m : StM txList A) : PoolM A := fun p =>
  match queue p !! addr with
  | None => (Panic, p)
  | Some l => let '(r, l) := m l in (r, set_queue p (<[addr := l]> (queue p)))
  end.

Definition on_priced {A} (m : lookup -> StM pricedList A) : PoolM A := fun p =>
  let '(r, l) := m (all p) (priced p) in (r, set_priced p l).
Definition priced_Removed (count : Z) : PoolM unit := on_priced (pricedlist.Removed count).
Definition priced_Put (tx : Transaction) (local : bool) : PoolM unit :=
  modifyM (fun p => set_priced p (pricedlist.Put tx local (priced p))).

Definition all_Add (tx : Transaction) (local : bool) : PoolM unit := modifyM (fun p => set_all p (lookup.Add tx local (all p))).
Definition all_Remove (hash : Hash) : PoolM unit := modifyM (fun p => set_all p (lookup.Remove hash (all p))).

Definition nonces_get (addr : Address) : PoolM Z := totalM (fun p =>
  let '(n, txn) := noncer_get addr (pendingNonces p) in (n, set_nonces p txn)).
Definition nonces_set (addr : Address) (nonce : Z) : PoolM unit := modifyM (fun p => set_nonces p (noncer_set addr nonce (pendingNonces p))).
Definition nonces_setIfLower (addr : Address) (nonce : Z) : PoolM unit :=
  modifyM (fun p => set_nonces p (noncer_setIfLower addr nonce (pendingNonces p))).

Definition beat (addr : Address) (now : Z) : PoolM unit := modifyM (fun p => set_beats p (<[addr := now]> (beats p))).
Definition delete_pending (addr : Address) : PoolM unit := modifyM (fun p => set_pending p (delete addr (pending p))).
Definition delete_queue (addr : Address) : PoolM unit :=
  modifyM (fun p => set_beats (set_queue p (delete addr (queue p))) (delete addr (beats p))).

Definition has_pending (p : LegacyPool) (addr : Address) : bool := bool_decide (is_Some (pending p !! addr)).
Definition has_queued (p : LegacyPool) (addr : Address) : bool := bool_decide (is_Some (queue p !! addr)).

(** [for _, tx := range txs { ... pool.all.Remove(tx.Hash()) }] *)
Definition remove_all (txs : list Transaction) : PoolM unit := for_each (fun tx => all_Remove (tx_Hash tx)) txs.

(** [New]; [Init] gives the pool its gas tip, head and state. *)
Definition New (conf : Config) (tip : Z) (head : types.Header) (statedb : S) (reserved : gmap Address nat) : LegacyPool :=
  mkPool (sanitize conf) tip None head statedb (newNoncer statedb)
    (fold_left (fun s addr => accountset.add addr s) (cfg_Locals conf) accountset.newAccountSet)
    ∅ ∅ ∅ lookup.newLookup pricedlist.newPricedList [] 0 reserved.

Definition Filter (tx : Transaction) : bool :=
  (tx_Type tx =? LegacyTxType) || (tx_Type tx =? AccessListTxType) || (tx_Type tx =? DynamicFeeTxType).

(** ** Validation *)

Definition validateTxBasics (p : LegacyPool) (tx : Transaction) (local : bool) : result unit :=
  let accept := Z.lor (Z.lor (Z.shiftl 1 LegacyTxType) (Z.shiftl 1 AccessListTxType)) (Z.shiftl 1 DynamicFeeTxType) in
  ValidateTransaction Sender tx (currentHead p) (mkOptions chainconfig accept txMaxSize (if local then 0 else gasTip p)).

Definition list_at (m : gmap Address txList) (addr : Address) : Z := match m !! addr with Some l => Z.of_nat (list_Len l) | None => 0 end.

Definition validateTx (p : LegacyPool) (tx : Transaction) (local : bool) : result unit :=
  ValidateTransactionWithState Sender tx {|
    State := currentState p;
    FirstNonceGap := None;
    UsedAndLeftSlots addr := (list_at (pending p) addr + list_at (queue p) addr, 2 ^ 63 - 1);
    ExistingExpenditure addr := match pending p !! addr with Some l => totalcost l | None => 0 end;
    ExistingCost addr nonce := match pending p !! addr with Some l => Cost <$> Get (txs l) nonce | None => None end;
    MinimumFee := minimumFee p
  |}.

(** ** Queueing and promotion *)

(** The old transaction with the nonce is gone from the pool. *)
Definition replace_old (old : option Transaction) : PoolM unit :=
  match old with
  | Some old => _ ← all_Remove (tx_Hash old); priced_Removed 1
  | None => mret tt
  end.

(** [pool.queue[from].Add] and [pool.pending[addr].Add], with a new list where there is none *)
Definition queue_Add (from : Address) (tx : Transaction) : PoolM (bool * option Transaction) :=
  _ ← modifyM (fun p => match queue p !! from with Some _ => p | None => set_queue p (<[from := newList false]> (queue p)) end);
  p ← getM;
  on_queue from (list_Add tx (PriceBump (config p))).
Definition pending_Add (addr : Address) (tx : Transaction) : PoolM (bool * option Transaction) :=
  _ ← modifyM (fun p => match pending p !! addr with Some _ => p | None => set_pending p (<[addr := newList true]> (pending p)) end);
  p ← getM;
  on_pending addr (list_Add tx (PriceBump (config p))).

(** A new transaction in the lookup and the price heaps *)
Definition track (tx : Transaction) (local : bool) : PoolM unit := _ ← all_Add tx local; priced_Put tx local.

Definition enqueueTx (now : Z) (tx : Transaction) (local addAll : bool) : PoolM bool :=
  let from := sender tx in
  '(inserted, old) ← queue_Add from tx;
  if negb inserted then lift (Err ErrReplaceUnderpriced) else
  _ ← replace_old old;
  _ ← (if addAll then track tx local else mret tt);
  p ← getM;
  _ ← (match beats p !! from with None => beat from now | Some _ => mret tt end);
  mret (bool_decide (is_Some old)).

Definition promoteTx (now : Z) (addr : Address) (tx : Transaction) : PoolM bool :=
  '(inserted, old) ← pending_Add addr tx;
  if negb inserted then
    _ ← all_Remove (tx_Hash tx);
    _ ← priced_Removed 1;
    mret false
  else
    _ ← replace_old old;
    _ ← nonces_set addr (tx_Nonce tx +u 1);
    _ ← beat addr now;
    mret true.

(** ** Removal *)

(** Transactions that lost their place go back to the queue; an error is dropped. *)
Definition requeue (now : Z) (txs : list Transaction) : PoolM unit :=
  for_each (fun tx => ignoreM (_ ← enqueueTx now tx false false; mret tt)) txs.

Definition removePending (now : Z) (addr : Address) (tx : Transaction) : PoolM (option Z) :=
  p ← getM;
  match pending p !! addr with
  | None => mret None
  | Some _ =>
      '(removed, invalids) ← on_pending addr (list_Remove tx);
      if negb removed then mret None else
      p ← getM;
      _ ← (if match pending p !! addr with Some l => list_Empty l | None => false end then delete_pending addr else mret tt);
      _ ← requeue now invalids;
      _ ← nonces_setIfLower addr (tx_Nonce tx);
      mret (Some (1 + Z.of_nat (length invalids)))
  end.

Definition removeQueued (addr : Address) (tx : Transaction) : PoolM unit :=
  p ← getM;
  match queue p !! addr with
  | None => mret tt
  | Some _ =>
      _ ← on_queue addr (list_Remove tx);
      p ← getM;
      if match queue p !! addr with Some l => list_Empty l | None => false end then delete_queue addr else mret tt
  end.

Definition removeFromLists (now : Z) (addr : Address) (tx : Transaction) : PoolM Z :=
  removed ← removePending now addr tx;
  _ ← (match removed with Some _ => mret tt | None => removeQueued addr tx end);
  mret (default 0 removed).

Definition unreserve_unused (addr : Address) : PoolM unit :=
  p ← getM;
  if negb (has_pending p addr) && negb (has_queued p addr) then ignoreM (reserve addr false) else mret tt.

Definition removeTx (now : Z) (hash : Hash) (outofbound unreserve : bool) : PoolM Z :=
  p ← getM;
  match lookup.Get (all p) hash with
  | None => mret 0
  | Some tx =>
      let addr := sender tx in
      _ ← all_Remove hash;
      _ ← (if outofbound then priced_Removed 1 else mret tt);
      removed ← removeFromLists now addr tx;
      _ ← (if unreserve then unreserve_unused addr else mret tt);
      mret removed
  end.

(** ** [add] *)

(** [for nonce := next; nonce < tx.Nonce(); nonce++]: every nonce but the last is in the list. *)
Fixpoint gap_before (fuel : nat) (nonce target : Z) (l : txList) : bool :=
  match fuel with
  | O => true
  | Datatypes.S fuel' =>
      if nonce <? target then
        if list_Contains l nonce then gap_before fuel' (nonce +u 1) target l else true
      else false
  end.

Definition isGapped (from : Address) (tx : Transaction) : PoolM bool :=
  next ← nonces_get from;
  if tx_Nonce tx <=? next then mret false else
  p ← getM;
  match queue p !! from with
  | None => mret true
  | Some l => mret (gap_before (Datatypes.S (list_Len l)) next (tx_Nonce tx) l)
  end.

(** Does one of the transactions belong to a pending list? *)
Definition replacesPending (p : LegacyPool) (drop : list Transaction) : bool :=
  existsb (fun tx => match pending p !! sender tx with Some l => list_Contains l (tx_Nonce tx) | None => false end) drop.

(** The sender of the new transaction keeps its reservation. *)
Fixpoint evict (now : Z) (from : Address) (drop : list Transaction) : PoolM unit :=
  match drop with
  | [] => mret tt
  | tx :: rest =>
      dropped ← removeTx now (tx_Hash tx) false (bool_decide (sender tx <> from));
      _ ← modifyM (fun p => set_changes p (changesSinceReorg p + dropped));
      evict now from rest
  end.

(** Room for a transaction in a pool that is full *)
Definition makeRoom (now : Z) (from : Address) (tx : Transaction) (isLocal : bool) : PoolM unit :=
  p ← getM;
  let limit := GlobalSlots (config p) +u GlobalQueue (config p) in
  if u64 (lookup.slots (all p) + numSlots tx) <=? limit then mret tt else
  _ ← (if isLocal then mret tt else
       underpriced ← on_priced (pricedlist.Underpriced tx);
       lift (fail_if underpriced ErrUnderpriced));
  p ← getM;
  _ ← lift (fail_if (GlobalSlots (config p) / 4 <? changesSinceReorg p) ErrTxPoolOverflow);
  '(drop, success) ← on_priced (pricedlist.Discard (lookup.slots (all p) - limit + numSlots tx) isLocal);
  _ ← lift (fail_if (negb isLocal && negb success) ErrTxPoolOverflow);
  gapped ← (if isLocal then mret false else isGapped from tx);
  p ← getM;
  if gapped && replacesPending p drop then
    _ ← for_each (fun tx => priced_Put tx false) drop;
    lift (Err ErrFutureReplacePending)
  else evict now from drop.

(** The new transaction in the place of a pending one, or in the queue *)
Definition insert (now : Z) (from : Address) (tx : Transaction) (local isLocal : bool) : PoolM bool :=
  p ← getM;
  if match pending p !! from with Some l => list_Contains l (tx_Nonce tx) | None => false end then
    '(inserted, old) ← on_pending from (list_Add tx (PriceBump (config p)));
    if negb inserted then lift (Err ErrReplaceUnderpriced) else
    _ ← replace_old old;
    _ ← track tx isLocal;
    _ ← modifyM (fun p => set_events p (queued_events p ++ [tx]));
    _ ← beat from now;
    mret (bool_decide (is_Some old))
  else
    replaced ← enqueueTx now tx isLocal true;
    p ← getM;
    _ ← (if local && negb (accountset.contains (locals p) from) then
           _ ← modifyM (fun p => set_locals p (accountset.add from (locals p)));
           p ← getM;
           let '(migrated, all') := lookup.RemoteToLocals Sender (locals p) (all p) in
           _ ← modifyM (fun p => set_all p all');
           priced_Removed migrated
         else mret tt);
    mret replaced.

Definition add (now : Z) (tx : Transaction) (local : bool) : PoolM bool :=
  p ← getM;
  if bool_decide (is_Some (lookup.Get (all p) (tx_Hash tx))) then lift (Err ErrAlreadyKnown) else
  let isLocal := local || accountset.containsTx Sender (locals p) tx in
  _ ← lift (validateTx p tx isLocal);
  let from := sender tx in
  let fresh := negb (has_pending p from) && negb (has_queued p from) in
  _ ← (if fresh then reserve from true else mret tt);
  let body := (_ ← makeRoom now from tx isLocal; insert now from tx local isLocal) in
  if fresh then on_error body (ignoreM (reserve from false)) else body.

(** ** [Add] *)

(** An error of one transaction does not stop the others; a panic does. *)
Fixpoint addTxsLocked (now : Z) (txs : list Transaction) (local : bool) (dirty : accountSet) : PoolM (list (option error) * accountSet) :=
  match txs with
  | [] => mret ([], dirty)
  | tx :: rest => fun p =>
      match add now tx local p with
      | (Panic, p) => (Panic, p)
      | (Err e, p) => ('(errs, dirty) ← addTxsLocked now rest local dirty; mret (Some e :: errs, dirty)) p
      | (Ok replaced, p) =>
          let dirty := if replaced : bool then dirty else accountset.addTx Sender tx dirty in
          ('(errs, dirty) ← addTxsLocked now rest local dirty; mret (None :: errs, dirty)) p
      end
  end.

(** Known transactions and those that fail the basic checks get their errors first. *)
Fixpoint screen (p : LegacyPool) (txs : list Transaction) (local : bool) : result (list (option error) * list Transaction) :=
  match txs with
  | [] => Ok ([], [])
  | tx :: rest =>
      if bool_decide (is_Some (lookup.Get (all p) (tx_Hash tx))) then
        '(errs, news) ← screen p rest local; Ok (Some ErrAlreadyKnown :: errs, news)
      else
        match validateTxBasics p tx local with
        | Panic => Panic
        | Err e => '(errs, news) ← screen p rest local; Ok (Some e :: errs, news)
        | Ok _ => '(errs, news) ← screen p rest local; Ok (None :: errs, tx :: news)
        end
  end.

(** The errors of the new transactions fill the slots that are still [nil]. *)
Fixpoint fill_errors (errs newErrs : list (option error)) : list (option error) :=
  match errs with
  | [] => []
  | Some e :: errs' => Some e :: fill_errors errs' newErrs
  | None :: errs' =>
      match newErrs with
      | [] => None :: fill_errors errs' []
      | e :: newErrs' => e :: fill_errors errs' newErrs'
      end
  end.

(** The accounts that are to be promoted are sent to the reorg loop. *)
Definition Add (now : Z) (txs : list Transaction) (local : bool) : PoolM (list (option error) * option accountSet) :=
  p ← getM;
  let local := local && negb (NoLocals (config p)) in
  '(errs, news) ← lift (screen p txs local);
  match news with
  | [] => mret (errs, None)
  | _ =>
      '(newErrs, dirty) ← addTxsLocked now news local accountset.newAccountSet;
      mret (fill_errors errs newErrs, Some dirty)
  end.

(** ** Promotion *)

(** [promoteTx] of the ready transactions, and those that were promoted *)
Fixpoint promote_each (now : Z) (addr : Address) (readies : list Transaction) : PoolM (list Transaction) :=
  match readies with
  | [] => mret []
  | tx :: rest =>
      ok ← promoteTx now addr tx;
      promoted ← promote_each now addr rest;
      mret (if ok : bool then tx :: promoted else promoted)
  end.

Definition promoteAccount (now : Z) (addr : Address) : PoolM (list Transaction) :=
  p ← getM;
  match queue p !! addr with
  | None => mret []
  | Some _ =>
      forwards ← on_queue addr (list_Forward (geth_GetNonce (currentState p) addr));
      _ ← remove_all forwards;
      '(drops, _) ← on_queue addr (list_Filter (geth_GetBalance (currentState p) addr) (types.GasLimit (currentHead p)));
      _ ← remove_all drops;
      next ← nonces_get addr;
      readies ← on_queue addr (list_Ready next);
      promoted ← promote_each now addr readies;
      p ← getM;
      caps ← (if accountset.contains (locals p) addr then mret [] else
              caps ← on_queue addr (list_Cap (s64 (AccountQueue (config p))));
              _ ← remove_all caps;
              mret caps);
      _ ← priced_Removed (Z.of_nat (length forwards + length drops + length caps));
      p ← getM;
      _ ← (if match queue p !! addr with Some l => list_Empty l | None => false end then
             _ ← delete_queue addr;
             if has_pending p addr then mret tt else ignoreM (reserve addr false)
           else mret tt);
      mret promoted
  end.

Fixpoint promoteExecutables (now : Z) (accounts : list Address) : PoolM (list Transaction) :=
  match accounts with
  | [] => mret []
  | addr :: rest =>
      promoted ← promoteAccount now addr;
      more ← promoteExecutables now rest;
      mret (promoted ++ more)
  end.

(** ** Truncation *)

Definition count (m : gmap Address txList) : Z := fold_left (fun n '(_, l) => n +u Z.of_nat (list_Len l)) (range_entries m) 0.

(** [pool.pending[addr].Len()] *)
Definition pending_len (addr : Address) : PoolM Z := on_pending addr (fun l => (Ok (Z.of_nat (list_Len l)), l)).

(** The transaction with the highest nonce of an account is dropped. *)
Definition drop_last (addr : Address) (pending : Z) : PoolM Z :=
  len ← pending_len addr;
  caps ← on_pending addr (list_Cap (len - 1));
  _ ← for_each (fun tx => _ ← all_Remove (tx_Hash tx); nonces_setIfLower addr (tx_Nonce tx)) caps;
  _ ← priced_Removed (Z.of_nat (length caps));
  mret (pending -u 1).

Fixpoint drop_lasts (addrs : list Address) (pending : Z) : PoolM Z :=
  match addrs with
  | [] => mret pending
  | addr :: rest => pending ← drop_last addr pending; drop_lasts rest pending
  end.

(** Rounds over the offenders, until the pool is within its limit or the watched list is down to
    the threshold; every round shortens the watched list. *)
Fixpoint rounds (fuel : nat) (offenders : list Address) (watched : Address) (threshold pending : Z) : PoolM Z :=
  match fuel with
  | O => mret pending
  | Datatypes.S fuel' =>
      p ← getM;
      if pending <=? GlobalSlots (config p) then mret pending else
      len ← pending_len watched;
      if len <=? threshold then mret pending else
      pending ← drop_lasts offenders pending;
      rounds fuel' offenders watched threshold pending
  end.

(** The offenders are [prior ++ [last]], in the order they were taken from the queue. *)
Fixpoint penalize (spammers : list Address) (offenders : list Address) (pending : Z) : PoolM (list Address * Z) :=
  match spammers with
  | [] => mret (offenders, pending)
  | offender :: rest =>
      p ← getM;
      if pending <=? GlobalSlots (config p) then mret (offenders, pending) else
      pending ← (match list.last offenders with
                 | None => mret pending
                 | Some watched =>
                     threshold ← pending_len offender;
                     len ← pending_len watched;
                     rounds (Datatypes.S (Z.to_nat len)) offenders watched threshold pending
                 end);
      penalize rest (offenders ++ [offender]) pending
  end.

Definition truncatePending : PoolM unit :=
  p ← getM;
  let total := count (pending p) in
  if total <=? GlobalSlots (config p) then mret tt else
  let spammers := prque_pops (omap (fun '(addr, l) =>
    let len := Z.of_nat (list_Len l) in
    if negb (accountset.contains (locals p) addr) && (AccountSlots (config p) <? len) then Some (addr, len) else None) (range_entries (pending p))) in
  '(offenders, total) ← penalize spammers [] total;
  match list.last offenders with
  | None => mret tt
  | Some last =>
      len ← pending_len last;
      _ ← rounds (Datatypes.S (Z.to_nat len)) offenders last (AccountSlots (config p)) total;
      mret tt
  end.

(** [pool.removeTx(tx.Hash(), true, true)] of each *)
Definition remove_each (now : Z) (txs : list Transaction) : PoolM unit :=
  for_each (fun tx => _ ← removeTx now (tx_Hash tx) true true; mret tt) txs.

Fixpoint drop_queued (now : Z) (addresses : list Address) (drop : Z) : PoolM unit :=
  match addresses with
  | [] => mret tt
  | addr :: rest =>
      if drop <=? 0 then mret tt else
      size ← on_queue addr (fun l => (Ok (Z.of_nat (list_Len l)), l));
      txs ← on_queue addr list_Flatten;
      if size <=? drop then
        _ ← remove_each now txs;
        drop_queued now rest (drop - size)
      else
        _ ← remove_each now (take (Z.to_nat drop) (reverse txs));
        drop_queued now rest (drop - Z.of_nat (length (take (Z.to_nat drop) (reverse txs))))
  end.

(** The accounts are sorted by their heartbeats, the latest first, and taken from the end. *)
Definition truncateQueue (now : Z) : PoolM unit :=
  p ← getM;
  let queued := count (queue p) in
  if queued <=? GlobalQueue (config p) then mret tt else
  let addresses := omap (fun '(addr, _) =>
    if accountset.contains (locals p) addr then None else Some (addr, default 0 (beats p !! addr))) (range_entries (queue p)) in
  let sorted := sort.Sort (fun a b => snd b <? snd a) addresses in
  drop_queued now (reverse sorted).*1 (queued - GlobalQueue (config p)).

(** ** Demotion *)

Definition demoteAccount (now : Z) (addr : Address) : PoolM unit :=
  p ← getM;
  let nonce := geth_GetNonce (currentState p) addr in
  olds ← on_pending addr (list_Forward nonce);
  _ ← remove_all olds;
  '(drops, invalids) ← on_pending addr (list_Filter (geth_GetBalance (currentState p) addr) (types.GasLimit (currentHead p)));
  _ ← remove_all drops;
  _ ← requeue now invalids;
  p ← getM;
  _ ← (if match pending p !! addr with
          | Some l => (0 <? list_Len l)%nat && bool_decide (Get (txs l) nonce = None)
          | None => false
          end
       then gapped ← on_pending addr (list_Cap 0); requeue now gapped
       else mret tt);
  p ← getM;
  if match pending p !! addr with Some l => list_Empty l | None => false end then
    _ ← delete_pending addr;
    if has_queued p addr then mret tt else ignoreM (reserve addr false)
  else mret tt.

(** The loop deletes only the entry it is at. *)
Definition demoteUnexecutables (now : Z) : PoolM unit :=
  p ← getM;
  for_each (demoteAccount now) (range_entries (pending p)).*1.

(** ** [reset] *)

(** A natural number rounded to the 53 bits of a [float64], ties to even *)
Definition float64_nat (z : Z) : Z :=
  let e := Z.log2 z - 52 in
  if e <=? 0 then z else
  let q := z / 2 ^ e in
  let r := z mod 2 ^ e in
  let half := 2 ^ (e - 1) in
  let q := if (half <? r) || ((r =? half) && Z.odd q) then q + 1 else q in
  q * 2 ^ e.
(** [uint64(math.Abs(float64(oldNum) - float64(newNum)))] *)
Definition reorgDepth (oldNum newNum : Z) : Z := float64_nat (Z.abs (float64_nat oldNum - float64_nat newNum)).

Notation number b := (types.Number (block_Header b)).
Definition parent (b : Block Transaction) : option (Block Transaction) := GetBlock (types.ParentHash (block_Header b)) (number b -u 1).

(** [for b.NumberU64() > bound]: the transactions down to the bound, or [None] if a block is
    missing. The numbers go down by one at each step. *)
Fixpoint walk_down (fuel : nat) (b : Block Transaction) (bound : Z) (txs : list Transaction) : option (Block Transaction * list Transaction) :=
  if number b <=? bound then Some (b, txs) else
  match fuel with
  | O => None
  | Datatypes.S fuel' =>
      match parent b with
      | None => None
      | Some b' => walk_down fuel' b' bound (txs ++ block_Transactions b)
      end
  end.

(** [for rem.Hash() != add.Hash()] *)
Fixpoint walk_both (fuel : nat) (rem add : Block Transaction) (discarded included : list Transaction) : option (list Transaction * list Transaction) :=
  if bool_decide (Header_Hash (block_Header rem) = Header_Hash (block_Header add)) then Some (discarded, included) else
  match fuel with
  | O => None
  | Datatypes.S fuel' =>
      match parent rem, parent add with
      | Some rem', Some add' => walk_both fuel' rem' add' (discarded ++ block_Transactions rem) (included ++ block_Transactions add)
      | _, _ => None
      end
  end.

(** [types.TxDifference] *)
Definition TxDifference (a b : list Transaction) : list Transaction := filter (fun tx => tx_Hash tx ∉ tx_Hash <$> b) a.

(** The transactions of the old chain that are not in the new one; [None] is an early return. *)
Definition reinjected (oldHead newHead : types.Header) : option (list Transaction) :=
  if bool_decide (Header_Hash oldHead = types.ParentHash newHead) then Some [] else
  let oldNum := types.Number oldHead in
  let newNum := types.Number newHead in
  if 64 <? reorgDepth oldNum newNum then Some [] else
  match GetBlock (Header_Hash oldHead) oldNum with
  | None => if oldNum <=? newNum then None else Some []
  | Some rem =>
      match GetBlock (Header_Hash newHead) newNum with
      | None => None
      | Some add =>
          '(rem, discarded) ← walk_down (Z.to_nat (number rem)) rem (number add) [];
          '(add, included) ← walk_down (Z.to_nat (number add)) add (number rem) [];
          '(discarded, included) ← walk_both (Datatypes.S (Z.to_nat (number rem))) rem add discarded included;
          Some (List.filter Filter (TxDifference discarded included))
      end
  end.

Definition reset (now : Z) (oldHead newHead : option types.Header) : PoolM unit :=
  reinject ← lift (match oldHead, newHead with
                   | None, _ => Ok (Some [])
                   | Some _, None => Panic
                   | Some oldHead, Some newHead => Ok (reinjected oldHead newHead)
                   end);
  match reinject with
  | None => mret tt
  | Some reinject =>
      let newHead := default CurrentBlock newHead in
      match StateAt (types.Root newHead) with
      | Panic => lift Panic
      | Err _ => mret tt
      | Ok statedb =>
          _ ← modifyM (fun p => set_head p newHead statedb (newNoncer statedb));
          _ ← addTxsLocked now reinject false accountset.newAccountSet;
          mret tt
      end
  end.

(** ** [runReorg] *)

(** [updateBaseFeeAt]; [unix] is the time in seconds. An error is logged. *)
Definition updateBaseFeeAt (unix : Z) (head : types.Header) : PoolM unit :=
  match header.EstimateNextBaseFee head unix with
  | Ok baseFee => on_priced (pricedlist.SetBaseFee baseFee)
  | Err _ => mret tt
  | Panic => lift Panic
  end.

(** Events of transactions that are below the new nonces are dropped. *)
Fixpoint forward_events (addrs : list Address) (events : gmap Address sortedMap) : PoolM (gmap Address sortedMap) :=
  match addrs with
  | [] => mret events
  | addr :: rest =>
      next ← nonces_get addr;
      match events !! addr with
      | None => forward_events rest events
      | Some m =>
          m ← lift (let '(r, m) := Forward next m in (_ ← r; Ok m));
          forward_events rest (if (Len m =? 0)%nat then delete addr events else <[addr := m]> events)
      end
  end.

(** The nonces after the pending transactions *)
Fixpoint pending_nonces (addrs : list Address) (nonces : gmap Address Z) : PoolM (gmap Address Z) :=
  match addrs with
  | [] => mret nonces
  | addr :: rest =>
      highest ← on_pending addr list_LastElement;
      pending_nonces rest (<[addr := tx_Nonce highest +u 1]> nonces)
  end.

Definition put_event (events : gmap Address sortedMap) (tx : Transaction) : gmap Address sortedMap :=
  let addr := sender tx in
  <[addr := txlist.Put tx (default newSortedMap (events !! addr))]> events.

(** [for _, set := range events { txs = append(txs, set.Flatten()...) }] *)
Definition event_txs (events : gmap Address sortedMap) : list Transaction :=
  concat ((fun '(_, set) => fst (Flatten set)) <$> range_entries events).

(** The result is what is sent to the subscribers. *)
Definition runReorg (now unix : Z) (request : option (option types.Header * option types.Header)) (dirtyAccounts : option accountSet)
    (events : gmap Address sortedMap) : PoolM (list Transaction) :=
  '(events, promoteAddrs) ← (match request with
    | None => mret (events, match dirtyAccounts with Some d => fst (accountset.flatten d) | None => [] end)
    | Some (oldHead, newHead) =>
        _ ← reset now oldHead newHead;
        events ← forward_events (range_entries events).*1 events;
        p ← getM;
        mret (events, (range_entries (queue p)).*1)
    end);
  promoted ← promoteExecutables now promoteAddrs;
  _ ← (match request with
       | None => mret tt
       | Some (_, newHead) =>
           _ ← demoteUnexecutables now;
           _ ← (match newHead with
                | None => mret tt
                | Some head =>
                    if cc_IsLondon (fc_chain chainconfig) (types.Number head) then updateBaseFeeAt unix head
                    else on_priced pricedlist.Reheap
                end);
           p ← getM;
           nonces ← pending_nonces (range_entries (pending p)).*1 ∅;
           modifyM (fun p => set_nonces p (noncer_setAll nonces (pendingNonces p)))
       end);
  _ ← truncatePending;
  _ ← truncateQueue now;
  _ ← modifyM (fun p => set_changes p 0);
  mret (event_txs (fold_left put_event promoted events)).

(** ** The other operations *)

Definition SetGasTip (now tip : Z) : PoolM unit :=
  newTip ← lift (MustFromBig tip);
  p ← getM;
  _ ← modifyM (fun p => set_gasTip p newTip);
  if newTip <=? gasTip p then mret tt else
  let drop := lookup.RemotesBelowTip tip (all p) in
  _ ← for_each (fun tx => _ ← removeTx now (tx_Hash tx) false true; mret tt) drop;
  priced_Removed (Z.of_nat (length drop)).

Definition SetMinFee (minFee : Z) : PoolM unit := modifyM (fun p => set_minimumFee p (Some minFee)).

Definition Nonce (addr : Address) : PoolM Z := nonces_get addr.

Definition updateBaseFee (unix : Z) : PoolM unit := p ← getM; updateBaseFeeAt unix (currentHead p).

(** A tick of the eviction timer: accounts whose last beat is too old lose their queue. *)
Fixpoint evict_idle (now : Z) (addrs : list Address) : PoolM unit :=
  match addrs with
  | [] => mret tt
  | addr :: rest =>
      p ← getM;
      _ ← (if negb (accountset.contains (locals p) addr) && (Lifetime (config p) <? now - default 0 (beats p !! addr)) then
             txs ← on_queue addr list_Flatten;
             remove_each now txs
           else mret tt);
      evict_idle now rest
  end.
Definition evictTick (now : Z) : PoolM unit := p ← getM; evict_idle now (range_entries (queue p)).*1.

Definition stats (p : LegacyPool) : Z * Z := (count (pending p), count (queue p)).

Inductive TxStatus := TxStatusUnknown | TxStatusQueued | TxStatusPending.
Definition Status (p : LegacyPool) (hash : Hash) : TxStatus :=
  match lookup.Get (all p) hash with
  | None => TxStatusUnknown
  | Some tx =>
      let holds (m : gmap Address txList) := match m !! sender tx with Some l => list_Contains l (tx_Nonce tx) | None => false end in
      if holds (pending p) then TxStatusPending else if holds (queue p) then TxStatusQueued else TxStatusUnknown
  end.

(** The transactions before the first one whose tip is too low *)
Fixpoint above_tip (minTip : Z) (baseFee : option Z) (txs : list Transaction) : list Transaction :=
  match txs with
  | [] => []
  | tx :: rest => if EffectiveGasTipIntCmp tx minTip baseFee <? 0 then [] else tx :: above_tip minTip baseFee rest
  end.

Definition lazy_of (get : Hash -> option Transaction) (tx : Transaction) : result LazyTransaction :=
  feeCap ← MustFromBig (tx_GasFeeCap tx);
  tipCap ← MustFromBig (tx_GasTipCap tx);
  Ok (mkLazy get (tx_Hash tx) (Some (WithoutBlobTxSidecar tx)) (tx_Time tx) feeCap tipCap (tx_Gas tx) (tx_BlobGas tx)).

Fixpoint lazies_of (get : Hash -> option Transaction) (txs : list Transaction) : result (list LazyTransaction) :=
  match txs with
  | [] => Ok []
  | tx :: rest => ltx ← lazy_of get tx; rest ← lazies_of get rest; Ok (ltx :: rest)
  end.

Fixpoint pending_each (minTip baseFee : option Z) (addrs : list Address) (acc : gmap Address (list LazyTransaction)) : PoolM (gmap Address (list LazyTransaction)) :=
  match addrs with
  | [] => mret acc
  | addr :: rest =>
      txs ← on_pending addr list_Flatten;
      p ← getM;
      let txs :=
        match minTip with
        | Some minTip => if accountset.contains (locals p) addr then txs else above_tip minTip baseFee txs
        | None => txs
        end in
      match txs with
      | [] => pending_each minTip baseFee rest acc
      | _ => lazies ← lift (lazies_of (lookup.Get (all p)) txs); pending_each minTip baseFee rest (<[addr := lazies]> acc)
      end
  end.

Definition Pending (onlyBlobTxs : bool) (minTip baseFee : option Z) : PoolM (gmap Address (list LazyTransaction)) :=
  if onlyBlobTxs then mret ∅ else
  p ← getM;
  let baseFee := match baseFee with Some b => Some b | None => pricedlist.ph_baseFee (pricedlist.urgent (priced p)) end in
  pending_each minTip baseFee (range_entries (pending p)).*1 ∅.

(** ** What the pool tells of its content *)

Definition get (p : LegacyPool) (hash : Hash) : option Transaction := lookup.Get (all p) hash.
Definition Has (p : LegacyPool) (hash : Hash) : bool := bool_decide (is_Some (lookup.Get (all p) hash)).
Definition HasLocal (p : LegacyPool) (hash : Hash) : bool := bool_decide (is_Some (lookup.GetLocal (all p) hash)).

Definition flatten_at (list_of : LegacyPool -> gmap Address txList) (flatten : Address -> PoolM (list Transaction)) (addr : Address) : PoolM (list Transaction) :=
  p ← getM;
  match list_of p !! addr with Some _ => flatten addr | None => mret [] end.
Definition pending_at (addr : Address) : PoolM (list Transaction) := flatten_at pending (fun a => on_pending a list_Flatten) addr.
Definition queued_at (addr : Address) : PoolM (list Transaction) := flatten_at queue (fun a => on_queue a list_Flatten) addr.

Fixpoint content_of (at_ : Address -> PoolM (list Transaction)) (addrs : list Address) : PoolM (gmap Address (list Transaction)) :=
  match addrs with
  | [] => mret ∅
  | addr :: rest => txs ← at_ addr; m ← content_of at_ rest; mret (<[addr := txs]> m)
  end.
Definition Content : PoolM (gmap Address (list Transaction) * gmap Address (list Transaction)) :=
  p ← getM;
  pending ← content_of pending_at (range_entries (pending p)).*1;
  queued ← content_of queued_at (range_entries (queue p)).*1;
  mret (pending, queued).
Definition ContentFrom (addr : Address) : PoolM (list Transaction * list Transaction) :=
  pending ← pending_at addr; queued ← queued_at addr; mret (pending, queued).

Definition Locals : PoolM (list Address) := totalM (fun p =>
  let '(flat, set) := accountset.flatten (locals p) in (flat, set_locals p set)).

End Pool.
End legacypool.
