(* ===== verification/LegacyPoolSpec.v ===== *)
(** * The transaction pool: its invariant

    Every account has a pending list without duplicates of the nonces in its queue, the lookup
    holds exactly the transactions of the lists, no list is empty, and the accounts with a list
    are the ones the pool has reserved. The invariant is stated for one account at a time, with
    the transactions that are on their way from one list to another. *)

From Stdlib Require Import Sorting.Sorted.
From S2P Require Import Prelude Deps GoStd Slices CustomTypes ExtState Transition Processor Ordering Miner TxList TxListSpec PricedList PricedListSpec Validation LegacyPool.
Import core processor txpool txlist txlistspec pricedlistspec validation legacypool.

Module legacypoolspec.

Notation nonces_of s := (tx_Nonce <$> s).

Section Lists.
Context {UI : U256Lib} {UIs : U256LibSpec} {UA : U256Arith} {UAs : U256ArithSpec} {TL : TxLib}.
Context {NR : NonceRange} {NS : NonceRangeSpec}.

(** The transactions of a list *)
Definition contents (l : txList) : list Transaction := fst (flatten (txs l)).
Definition entries (o : option txList) : list Transaction := match o with Some l => contents l | None => [] end.

Lemma entries_some tx o : tx ∈ entries o -> is_Some o.
Proof. destruct o; [eauto|]. by intros ?%elem_of_nil. Qed.

Lemma contents_ok l s : list_ok l s -> contents l = s.
Proof. intros H. destruct (flatten_ok _ _ (lok_txs _ _ H)) as (m & Hf & _). unfold contents. by rewrite Hf. Qed.

Lemma contents_len l s : list_ok l s -> list_Len l = length s.
Proof. intros H. apply (held_len _ _ (ok_held _ _ (lok_txs _ _ H))). Qed.

Lemma contents_empty l s : list_ok l s -> list_Empty l = bool_decide (s = []).
Proof.
  intros H. unfold list_Empty. rewrite (contents_len _ _ H).
  destruct s; [by rewrite bool_decide_eq_true_2|by rewrite bool_decide_eq_false_2].
Qed.

Lemma contents_contains l s n : list_ok l s -> list_Contains l n = bool_decide (n ∈ nonces_of s).
Proof.
  intros H. unfold list_Contains. pose proof (ok_held _ _ (lok_txs _ _ H)) as Hh. unfold Get. apply bool_decide_ext.
  rewrite <- not_eq_None_Some, (held_get_none _ _ _ Hh). destruct (decide (n ∈ nonces_of s)); tauto.
Qed.

Lemma list_ok_ascending l s : list_ok l s -> StronglySorted by_nonce s.
Proof. intros H. apply (held_ascending _ _ (ok_held _ _ (lok_txs _ _ H))). Qed.

Definition entry_ok (b : bool) (o : option txList) : Prop :=
  match o with Some l => list_ok l (contents l) /\ strict l = b | None => True end.

Lemma entry_intro b l s : list_ok l s -> strict l = b -> entry_ok b (Some l) /\ entries (Some l) = s.
Proof. intros H Hb. pose proof (contents_ok _ _ H) as E. cbn. by rewrite E. Qed.

Context (Sender : Transaction -> result Address) (genuine : Transaction -> Prop).
Notation sender := (legacypool.sender Sender).

(** The transactions of one account: of different nonces, and of a cost that fits *)
Definition tx_ok (a : Address) (tx : Transaction) : Prop :=
  sender tx = a /\ genuine tx /\ is_u64 (tx_Nonce tx) /\ 0 <= Cost tx.
Record txs_ok (a : Address) (s : list Transaction) : Prop := {
  txs_each : Forall (tx_ok a) s;
  txs_nonces : NoDup (nonces_of s);
  txs_fits : total_cost s < 2 ^ 256
}.

#[global] Instance txs_ok_proper a : Proper (Permutation ==> iff) (txs_ok a).
Proof.
  assert (forall s s', s ≡ₚ s' -> txs_ok a s -> txs_ok a s') as H.
  { intros s s' Hp [H1 H2 H3]. split; [by rewrite <- Hp..|by rewrite <- Hp]. }
  intros s s' Hp. split; by apply H.
Qed.

Lemma txs_ok_nonneg a s : txs_ok a s -> Forall (fun tx => 0 <= Cost tx) s.
Proof. intros H. eapply list.Forall_impl; [apply (txs_each _ _ H)|]. by intros x (_ & _ & _ & Hc). Qed.

Lemma txs_ok_app_r a s s' : txs_ok a (s ++ s') -> txs_ok a s'.
Proof.
  intros H. pose proof (txs_ok_nonneg _ _ H) as Hn. destruct H as [H1 H2 H3].
  rewrite Forall_app in H1, Hn. rewrite fmap_app, list.NoDup_app in H2. rewrite total_cost_app in H3.
  pose proof (total_cost_nonneg _ (proj1 Hn)). split; [tauto|tauto|lia].
Qed.
Lemma txs_ok_app_l a s s' : txs_ok a (s ++ s') -> txs_ok a s.
Proof. rewrite Permutation_app_comm. apply txs_ok_app_r. Qed.
Lemma txs_ok_cons a tx s : txs_ok a (tx :: s) -> txs_ok a s.
Proof. apply (txs_ok_app_r a [tx]). Qed.

Lemma txs_ok_disjoint a s s' tx : txs_ok a (s ++ s') -> tx ∈ s -> tx_Nonce tx ∉ nonces_of s'.
Proof.
  intros [_ H2 _] Hin Hn. rewrite fmap_app, list.NoDup_app in H2. destruct H2 as (_ & Hd & _).
  apply (Hd (tx_Nonce tx)); [by apply list_elem_of_fmap_2|done].
Qed.

(** ** One account: its lists and the transactions in flight *)

Record account_ok (a : Address) (lp lq : option txList) (xs : list Transaction) : Prop := {
  ac_pending : entry_ok true lp;
  ac_queue : entry_ok false lq;
  ac_txs : txs_ok a (entries lp ++ entries lq ++ xs)
}.

Lemma at_nonce_None n s : StronglySorted by_nonce s -> n ∉ nonces_of s -> at_nonce n s = None.
Proof.
  intros Ha Hn. unfold at_nonce. destruct (of_list s !! n) as [tx|] eqn:E; [|done].
  apply of_list_lookup in E as [Hin <-]; [|done]. exfalso. apply Hn. by apply list_elem_of_fmap_2.
Qed.

(** A transaction whose nonce is free enters a list. *)
Lemma add_fresh a o b tx bump xs : entry_ok b o -> txs_ok a (entries o ++ tx :: xs) ->
  exists l', list_Add tx bump (default (newList b) o) = (Ok (true, None), l') /\ entry_ok b (Some l') /\
    entries (Some l') ≡ₚ tx :: entries o /\ entries (Some l') = put tx (entries o).
Proof.
  intros Ho Ht. set (l := default (newList b) o).
  assert (Hl : list_ok l (entries o) /\ strict l = b). { subst l. destruct o as [l|]; cbn in *; [done|]. split; [apply newList_ok|done]. }
  destruct Hl as [Hl Hst]. pose proof (list_ok_ascending _ _ Hl) as Ha.
  assert (Hat : at_nonce (tx_Nonce tx) (entries o) = None).
  { apply at_nonce_None; [done|]. rewrite Permutation_app_comm in Ht. cbn [app] in Ht.
    pose proof (txs_nonces _ _ Ht) as Hn. rewrite fmap_cons, list.NoDup_cons, fmap_app, elem_of_app in Hn. tauto. }
  pose proof (put_perm tx (entries o) Ha) as Hp. rewrite Hat in Hp. change (option_list None) with (@nil Transaction) in Hp. cbn [app] in Hp.
  assert (Ht1 : txs_ok a (tx :: entries o)).
  { rewrite <- Permutation_middle in Ht. by apply (txs_ok_app_l a (tx :: entries o) xs). }
  pose proof (txs_each _ _ Ht1) as He. apply list.Forall_cons in He as [(_ & _ & Hu & Hc) _].
  destruct (list_Add_ok tx bump l (entries o) Hl Hu Hc) as (l' & Hadd & Hok & Hst').
  { rewrite <- Hp. apply Ht1. }
  { intros old. by rewrite Hat. }
  exists l'. rewrite Hat in Hadd. split; [done|]. destruct (entry_intro b l' _ Hok) as [H1 H2]; [congruence|]. rewrite H2.
  split; [done|]. split; [by rewrite <- Hp|done].
Qed.

End Lists.
(** ** Sums over the accounts *)

Section Sums.
Context {TL : TxLib} {NR : NonceRange}.
Implicit Types (m : gmap Address txList) (a b : Address).

Definition len_at m a : nat := length (entries (m !! a)).
Definition msum m : nat := map_fold (fun _ l n => (length (contents l) + n)%nat) 0%nat m.

Lemma msum_insert m a l : m !! a = None -> msum (<[a := l]> m) = (length (contents l) + msum m)%nat.
Proof. intros Ha. unfold msum. rewrite map_fold_insert_L; [done| |done]. intros; lia. Qed.

Lemma msum_delete m a : msum m = (len_at m a + msum (delete a m))%nat.
Proof.
  unfold len_at. destruct (m !! a) as [l|] eqn:E; [|by rewrite delete_id]. rewrite <- (insert_delete_id m a l E) at 1.
  by rewrite msum_insert by apply lookup_delete_eq.
Qed.

(** A change of one account *)
Lemma msum_change m m' a : (forall b, b <> a -> m' !! b = m !! b) -> (msum m' + len_at m a = msum m + len_at m' a)%nat.
Proof.
  intros Hb. assert (E : delete a m' = delete a m).
  { apply map_eq. intros b. destruct (decide (b = a)) as [->|Hne]; [by rewrite !lookup_delete_eq|]. rewrite !lookup_delete_ne by done. by apply Hb. }
  rewrite (msum_delete m a), (msum_delete m' a), E. lia.
Qed.

Lemma msum_ge m a : (len_at m a <= msum m)%nat.
Proof. rewrite (msum_delete m a). lia. Qed.

Lemma msum_fold m : msum m = foldr (fun '(_, l) n => (length (contents l) + n)%nat) 0%nat (map_to_list m).
Proof. unfold msum. rewrite map_fold_foldr. induction (map_to_list m) as [|[] xs IH]; [done|]. cbn. by f_equal. Qed.

Lemma msum_over ks m : NoDup ks -> (forall a, is_Some (m !! a) -> a ∈ ks) -> msum m = sum_list (len_at m <$> ks).
Proof.
  revert m. induction ks as [|a ks IH]; intros m Hn Hk.
  - assert (m = ∅) as ->; [|done]. apply map_empty. intros a. apply eq_None_not_Some. intros Ha. by apply Hk, elem_of_nil in Ha.
  - apply list.NoDup_cons in Hn as [Ha Hn]. rewrite (msum_delete m a), (IH (delete a m)); [|done|].
    + cbn. f_equal. f_equal. apply list_fmap_ext. intros i b Hb. unfold len_at. rewrite lookup_delete_ne; [done|]. intros ->. by apply list_elem_of_lookup_2 in Hb.
    + intros b [Hne Hb]%lookup_delete_is_Some. apply Hk, elem_of_cons in Hb as [->|?]; done.
Qed.

Lemma sum_le (f g : Address -> nat) b (d : nat) xs : NoDup xs -> (forall x, (f x <= g x + if decide (x = b) then d else 0)%nat) ->
  (sum_list (f <$> xs) <= sum_list (g <$> xs) + d)%nat.
Proof.
  intros Hn H. assert (Hb : (sum_list (f <$> xs) <= sum_list (g <$> xs) + if decide (b ∈ xs) then d else 0)%nat); [|case_decide; lia].
  induction Hn as [|x xs Hx Hn IH]; [cbn; lia|]. rewrite !fmap_cons. cbn [sum_list_with]. unfold id in *. specialize (H x).
  destruct (decide (x = b)) as [->|Hne].
  - rewrite decide_True by left. rewrite decide_False in IH by done. lia.
  - destruct (decide (b ∈ xs)); [rewrite decide_True by (by right); lia|]. rewrite decide_False; [lia|]. intros [?|?]%elem_of_cons; congruence.
Qed.

End Sums.

Section Pool.
Context {UI : U256Lib} {UIs : U256LibSpec} {UA : U256Arith} {UAs : U256ArithSpec} {TL : TxLib}.
Context {NR : NonceRange} {NS : NonceRangeSpec} {HR : HashRange} {HS : HashRangeSpec}.
Context {S : Type} {GDB : GethStateDB S} (Sender : Transaction -> result Address) (genuine : Transaction -> Prop).
Context (hash_inj : forall a b, genuine a -> genuine b -> tx_Hash a = tx_Hash b -> a = b).
Context (pool_id : nat).
Notation pool := (@LegacyPool S).
Notation sender := (legacypool.sender Sender).
Notation txs_ok := (txs_ok Sender genuine).
Notation account_ok := (account_ok Sender genuine).
Implicit Types (p : pool) (a b : Address) (tx t : Transaction).

(** The transactions of an account *)
Definition tally p a : list Transaction := entries (pending p !! a) ++ entries (queue p !! a).
Definition pooled p tx : Prop := tx ∈ tally p (sender tx).
(** The number of transactions *)
Definition pool_size p : nat := (msum (pending p) + msum (queue p))%nat.

Lemma size_le p p' b d : (forall a, (length (tally p' a) <= length (tally p a) + if decide (a = b) then d else 0)%nat) -> (pool_size p' <= pool_size p + d)%nat.
Proof.
  intros H. set (ks := elements (dom (pending p) ∪ dom (queue p) ∪ dom (pending p') ∪ dom (queue p'))).
  assert (E : forall q, q = p \/ q = p' -> pool_size q = sum_list ((fun a => length (tally q a)) <$> ks)).
  { intros q Hq. unfold pool_size. rewrite (msum_over ks (pending q)), (msum_over ks (queue q)).
    2,4: apply NoDup_elements.
    2,3: intros a Ha; apply elem_of_elements; destruct Hq as [->| ->]; rewrite !elem_of_union, !elem_of_dom; tauto.
    induction ks as [|a ks' IH]; [done|]. cbn. cbn in IH. rewrite <- IH. unfold tally, len_at. rewrite length_app. lia. }
  rewrite !E by auto. apply (sum_le _ _ b); [apply NoDup_elements|exact H].
Qed.

(** What the operations on one account leave alone *)
Record same_setup p p' : Prop := {
  ss_config : config p' = config p;
  ss_head : currentHead p' = currentHead p;
  ss_state : currentState p' = currentState p;
  ss_locals : locals p' = locals p
}.
Record touches a p p' : Prop := {
  tc_pending b : b <> a -> pending p' !! b = pending p !! b;
  tc_queue b : b <> a -> queue p' !! b = queue p !! b;
  tc_setup : same_setup p p'
}.
(** ... and the lookup and the reservations as well *)
Record shuffles a p p' : Prop := {
  sf_touches : touches a p p';
  sf_all : all p' = all p;
  sf_reservations : reservations p' = reservations p
}.

#[global] Instance same_setup_trans : PreOrder same_setup.
Proof. split; [by intros p|]. intros p1 p2 p3 [] []. split; congruence. Qed.
#[global] Instance touches_trans a : PreOrder (touches a).
Proof.
  split; [by intros p|]. intros p1 p2 p3 [H1 H2 H3] [H4 H5 H6]. split; [| |by etrans].
  - intros b Hb. by rewrite H4, H1.
  - intros b Hb. by rewrite H5, H2.
Qed.
#[global] Instance shuffles_trans a : PreOrder (shuffles a).
Proof. split; [by intros p|]. intros p1 p2 p3 [] []. split; [by etrans|congruence|congruence]. Qed.

Lemma tally_touches a b p p' : touches a p p' -> b <> a -> tally p' b = tally p b.
Proof. intros [H1 H2 _] Hb. unfold tally. by rewrite H1, H2. Qed.

(** The lookup holds genuine transactions; the heaps as well. *)
Definition all_ok p (P : Transaction -> Prop) : Prop := lookup_ok (all p) P /\ forall tx, P tx -> genuine tx.

Lemma remotes_genuine p P h tx : all_ok p P -> lookup.remotes (all p) !! h = Some tx -> genuine tx.
Proof.
  intros [H Hg] Hr. apply Hg. apply (lk_get _ _ H h). rewrite Get_union, lookup_union_r; [done|].
  by eapply map_disjoint_Some_r; [apply H|].
Qed.

(** The state of an account in the pool, with the transactions in flight *)
Definition account_at p a xs : Prop := account_ok a (pending p !! a) (queue p !! a) xs.
Definition priced_fine p : Prop := priced_ok genuine (priced p).

(** ** Steps on the price heaps and the lookup *)

Definition only_priced p p' : Prop := exists l, p' = set_priced p l /\ priced_ok genuine l.

Lemma priced_Removed_ok n p P : all_ok p P -> priced_fine p -> returns (priced_Removed n) p (fun _ p' => only_priced p p').
Proof.
  intros Ha Hp. unfold priced_Removed, on_priced.
  destruct (Removed_ok genuine n (all p) (priced p)) as (l & Hr & Hl); [|done|].
  { intros h tx. by apply (remotes_genuine p P). }
  unfold returns, settles. rewrite Hr. by exists l.
Qed.

Lemma remove_all_run xs p : returns (remove_all xs) p (fun _ p' => p' = set_all p (fold_left (fun tab x => lookup.Remove (tx_Hash x) tab) xs (all p))).
Proof.
  unfold remove_all. revert p. induction xs as [|x xs IH]; intros p; cbn [for_each fold_left].
  { by destruct p. }
  unfold returns. unfold all_Remove. apply settles_modify. eapply settles_mono; [apply IH| |done]. intros _ p' ->. by destruct p.
Qed.

Lemma remove_all_ok xs p P : all_ok p P ->
  returns (remove_all xs) p (fun _ p' => exists tab, p' = set_all p tab /\ all_ok p' (fun tx => P tx /\ tx_Hash tx ∉ tx_Hash <$> xs)).
Proof.
  intros Ha. eapply returns_mono; [apply remove_all_run|]. intros _ p' ->. eexists. split; [done|]. destruct Ha as [Hl Hg]. split; [|by intros tx [? _]; auto].
  cbn [all set_all]. revert Hl. generalize (all p) as tab. clear Hg. revert P. induction xs as [|x xs IH]; intros P tab Hl; cbn [fold_left].
  - eapply lookup_ok_iff; [|done]. intros tx. cbn. split; [|tauto]. intros HP. split; [done|by apply not_elem_of_nil].
  - eapply lookup_ok_iff; [|apply (IH (fun tx => P tx /\ tx_Hash tx <> tx_Hash x))].
    + intros tx. rewrite fmap_cons, not_elem_of_cons. tauto.
    + by apply lookup_Remove_ok.
Qed.

(** ** Queueing *)

(** A pool that differs from [p] in the queue of the account only *)
Record requeued a l p p' : Prop := {
  rq_queue : queue p' = <[a := l]> (queue p);
  rq_pending : pending p' = pending p;
  rq_priced : priced p' = priced p;
  rq_shuffles : shuffles a p p'
}.

Lemma requeued_set a l p l0 : requeued a l p (set_queue (set_queue p (<[a := l0]> (queue p))) (<[a := l]> (<[a := l0]> (queue p)))).
Proof.
  split; try done; cbn; [by rewrite insert_insert_eq|]. split; [|done|done]. split; [done| |done].
  intros b Hb. cbn. by rewrite !lookup_insert_ne.
Qed.

Lemma requeued_beats a l p p' x : requeued a l p p' -> requeued a l p (set_beats p' x).
Proof. intros [H1 H2 H3 [[H4 H5 []] H6 H7]]. by repeat split. Qed.

Lemma requeued_account a l p p' tx xs : requeued a l p p' -> account_at p a (tx :: xs) -> entry_ok false (Some l) ->
  entries (Some l) ≡ₚ tx :: entries (queue p !! a) -> account_at p' a xs.
Proof.
  intros [H1 H2 _ _] [Hp Hq Ht] Hl Hperm. unfold account_at. rewrite H1, H2, lookup_insert_eq. split; [done|done|].
  rewrite Hperm. cbn [app]. by rewrite !Permutation_middle.
Qed.

Lemma queue_Add_run a tx p r l : list_Add tx (PriceBump (config p)) (default (newList false) (queue p !! a)) = (Ok r, l) ->
  exists p', queue_Add a tx p = (Ok r, p') /\ requeued a l p p'.
Proof.
  intros Hm. unfold queue_Add. rewrite modifyM_bind, getM_bind. set (p1 := match queue p !! a with Some _ => p | None => _ end).
  assert (H1 : p1 = set_queue p (<[a := default (newList false) (queue p !! a)]> (queue p))).
  { subst p1. destruct (queue p !! a) eqn:E; cbn; [rewrite insert_id by done; by destruct p|done]. }
  rewrite H1. unfold on_queue. cbn [queue set_queue config]. rewrite lookup_insert_eq, Hm. eexists. split; [done|]. apply requeued_set.
Qed.

(** A transaction in flight arrives in the queue. *)
Lemma enqueue_flight now tx local xs p : account_at p (sender tx) (tx :: xs) ->
  returns (enqueueTx Sender now tx local false) p (fun _ p' => exists l,
    requeued (sender tx) l p p' /\ entry_ok false (Some l) /\ entries (Some l) ≡ₚ tx :: entries (queue p !! sender tx)).
Proof.
  intros [Hp Hq Ht]. set (a := sender tx) in *.
  destruct (add_fresh Sender genuine a (queue p !! a) false tx (PriceBump (config p)) xs Hq) as (l & Hadd & Hl & Hperm & _); [by eapply txs_ok_app_r|].
  destruct (queue_Add_run a tx p _ l Hadd) as (p' & Hrun & Hrq). unfold returns, enqueueTx. fold a.
  apply settles_bind. eapply settles_run; [exact Hrun|]. cbn [negb replace_old]. repeat run_step.
  destruct (beats p' !! a); repeat run_step; exists l; split; try done. by apply requeued_beats.
Qed.

(** An entry of the map is not empty. *)
Definition filled (o : option txList) : Prop := forall l, o = Some l -> contents l <> [].

Lemma filled_entries o : filled o -> is_Some o <-> entries o <> [].
Proof. intros Hf. destruct o as [l|]; cbn; [|split; [by intros []|done]]. split; [intros _; by apply Hf|by eauto]. Qed.

Lemma filled_cons o tx s : entries o ≡ₚ tx :: s -> filled o.
Proof. intros Hp l ->. cbn in Hp. intros E. rewrite E in Hp. by apply Permutation_nil_cons in Hp. Qed.

(** A step that changes the lists of the account [a] only, from the transactions [xs] in flight
    to [ys], and keeps the price heaps. *)
Record moves a p xs p' ys : Prop := {
  mv_account : account_at p' a ys;
  mv_shuffles : shuffles a p p';
  mv_priced : priced p' = priced p;
  mv_tally : tally p a ++ xs ≡ₚ tally p' a ++ ys
}.

Lemma moves_trans a p1 xs1 p2 xs2 p3 xs3 : moves a p1 xs1 p2 xs2 -> moves a p2 xs2 p3 xs3 -> moves a p1 xs1 p3 xs3.
Proof. intros [H1 H2 H3 H4] [H5 H6 H7 H8]. split; [done|by etrans|congruence|by rewrite H4]. Qed.

Lemma moves_tally a p xs p' ys : txs_ok a (tally p a ++ xs) -> entry_ok true (pending p' !! a) -> entry_ok false (queue p' !! a) ->
  shuffles a p p' -> priced p' = priced p -> tally p a ++ xs ≡ₚ tally p' a ++ ys -> moves a p xs p' ys.
Proof.
  intros Ht H1 H2 H3 H4 H5. split; [|done..]. split; [done|done|]. rewrite H5 in Ht. unfold tally in Ht. by rewrite <- app_assoc in Ht.
Qed.

Lemma account_tally p a xs : account_at p a xs -> txs_ok a (tally p a ++ xs).
Proof. intros [_ _ H]. unfold tally. by rewrite <- app_assoc. Qed.

Lemma requeue_ok now a xs ys p : account_at p a (xs ++ ys) ->
  returns (requeue Sender now xs) p (fun _ p' => moves a p (xs ++ ys) p' ys /\ pending p' = pending p /\
    (filled (queue p !! a) -> filled (queue p' !! a)) /\ entries (queue p' !! a) ≡ₚ xs ++ entries (queue p !! a)).
Proof.
  unfold requeue. revert p. induction xs as [|tx xs IH]; intros p Ha; cbn [for_each].
  { repeat run_step. split; [|done]. by split. }
  assert (Hs : sender tx = a). { apply account_tally, txs_each in Ha. rewrite Forall_app in Ha. destruct Ha as [_ Ha]. cbn in Ha. by apply list.Forall_cons in Ha as [[? _] _]. }
  assert (Hq := enqueue_flight now tx false (xs ++ ys) p). rewrite Hs in Hq. specialize (Hq Ha).
  apply returns_run in Hq as (b & p1 & Hrun & l & Hrq & Hl & Hperm).
  unfold returns. apply settles_bind. eapply settles_run.
  { unfold ignoreM. erewrite bindM_step by exact Hrun. reflexivity. }
  assert (Ha1 : account_at p1 a (xs ++ ys)) by (by eapply requeued_account).
  assert (Hm : moves a p (tx :: xs ++ ys) p1 (xs ++ ys)).
  { destruct Hrq as [Q1 Q2 Q3 Q4]. apply moves_tally; try done; [by apply account_tally|apply Ha1|apply Ha1|].
    unfold tally. rewrite Q1, Q2, lookup_insert_eq. perm. }
  destruct Hrq as [Q1 Q2 Q3 Q4]. eapply settles_mono; [apply IH; exact Ha1| |done]. intros _ p2 (H1 & H2 & H3 & H4).
  split; [by eapply moves_trans|]. split; [congruence|]. rewrite Q1, lookup_insert_eq in H3, H4. split.
  - intros _. apply H3. by eapply filled_cons.
  - perm.
Qed.

(** ** Promotion *)

Record repended a l p p' : Prop := {
  rp_pending : pending p' = <[a := l]> (pending p);
  rp_queue : queue p' = queue p;
  rp_priced : priced p' = priced p;
  rp_shuffles : shuffles a p p'
}.

Lemma repended_set a l p p' : pending p' = <[a := l]> (pending p) -> queue p' = queue p -> priced p' = priced p ->
  same_setup p p' -> all p' = all p -> reservations p' = reservations p -> repended a l p p'.
Proof.
  intros H1 H2 H3 H4 H5 H6. split; [done..|]. split; [|done|done]. split; [|by rewrite H2|done].
  intros b Hb. by rewrite H1, lookup_insert_ne.
Qed.

Lemma pending_Add_run a tx p r l : list_Add tx (PriceBump (config p)) (default (newList true) (pending p !! a)) = (Ok r, l) ->
  exists p', pending_Add a tx p = (Ok r, p') /\ repended a l p p'.
Proof.
  intros Hm. unfold pending_Add. rewrite modifyM_bind, getM_bind. set (p1 := match pending p !! a with Some _ => p | None => _ end).
  assert (H1 : p1 = set_pending p (<[a := default (newList true) (pending p !! a)]> (pending p))).
  { subst p1. destruct (pending p !! a) eqn:E; cbn; [rewrite insert_id by done; by destruct p|done]. }
  rewrite H1. unfold on_pending. cbn [pending set_pending config]. rewrite lookup_insert_eq, Hm. eexists. split; [done|].
  by apply repended_set; cbn; rewrite ?insert_insert_eq.
Qed.

Lemma promote_flight now a tx xs p : account_at p a (tx :: xs) ->
  returns (promoteTx now a tx) p (fun ok p' => ok = true /\ moves a p (tx :: xs) p' xs /\ queue p' = queue p /\
    filled (pending p' !! a) /\ entries (pending p' !! a) ≡ₚ tx :: entries (pending p !! a)).
Proof.
  intros Ha. pose proof Ha as [Hp Hq Ht].
  destruct (add_fresh Sender genuine a (pending p !! a) true tx (PriceBump (config p)) (entries (queue p !! a) ++ xs) Hp) as (l & Hadd & Hl & Hperm & _).
  { by rewrite Permutation_middle. }
  destruct (pending_Add_run a tx p _ l Hadd) as (p1 & Hrun & [R1 R2 R3 R4]). unfold returns, promoteTx.
  apply settles_bind. eapply settles_run; [exact Hrun|]. cbn [negb replace_old]. unfold nonces_set, beat. repeat run_step.
  split; [done|]. cbn [pending queue set_beats set_nonces]. rewrite R1, lookup_insert_eq. split; [|split; [done|split; [by eapply filled_cons|done]]].
  apply moves_tally; cbn [pending queue set_beats set_nonces priced]; try done.
  - by apply account_tally.
  - by rewrite R1, lookup_insert_eq.
  - by rewrite R2.
  - destruct R4 as [[? ? []] ? ?]. by repeat split.
  - unfold tally. cbn [pending queue set_beats set_nonces]. rewrite R1, R2, lookup_insert_eq. perm.
Qed.

Lemma promote_each_ok now a xs ys p : account_at p a (xs ++ ys) ->
  returns (promote_each now a xs) p (fun promoted p' => promoted = xs /\ moves a p (xs ++ ys) p' ys /\ queue p' = queue p /\
    (filled (pending p !! a) -> filled (pending p' !! a)) /\ entries (pending p' !! a) ≡ₚ xs ++ entries (pending p !! a)).
Proof.
  revert p. induction xs as [|tx xs IH]; intros p Ha; cbn [promote_each].
  { repeat run_step. split; [done|]. split; [by split|done]. }
  unfold returns. eapply settles_seq; [by apply (promote_flight now a tx (xs ++ ys))|].
  intros ok p1 (-> & Hm & Hq & Hf & Hperm). eapply settles_seq; [apply IH, Hm|].
  intros promoted p2 (-> & Hm2 & Hq2 & Hf2 & Hperm2). run_step. split; [done|]. split; [by eapply moves_trans|].
  split; [congruence|]. split; [auto|]. perm.
Qed.

(** ** Removal *)

(** A method of the pending list of the account *)
Lemma on_pending_run {A} a (m : StM txList A) p l r l' : pending p !! a = Some l -> m l = (Ok r, l') ->
  exists p', on_pending a m p = (Ok r, p') /\ repended a l' p p'.
Proof.
  intros Hl Hm. unfold on_pending. rewrite Hl, Hm. eexists. split; [done|]. by apply repended_set.
Qed.
Lemma on_queue_run {A} a (m : StM txList A) p l r l' : queue p !! a = Some l -> m l = (Ok r, l') ->
  exists p', on_queue a m p = (Ok r, p') /\ requeued a l' p p'.
Proof.
  intros Hl Hm. unfold on_queue. rewrite Hl, Hm. eexists. split; [done|]. split; [done..|]. split; [|done|done]. split; [done| |done].
  intros b Hb. cbn. by rewrite lookup_insert_ne.
Qed.

Lemma delete_moves a p xs : account_at p a xs -> entries (pending p !! a) = [] ->
  moves a p xs (set_pending p (delete a (pending p))) xs.
Proof.
  intros Ha He. apply moves_tally; cbn [pending queue priced set_pending]; try done.
  - by apply account_tally.
  - by rewrite lookup_delete_eq.
  - apply Ha.
  - split; [|done|done]. split; [|done|done]. intros b Hb. cbn. by rewrite lookup_delete_ne.
  - unfold tally. cbn [pending queue set_pending]. by rewrite lookup_delete_eq, He.
Qed.

(** The pending list loses the transaction; those with higher nonces go back to the queue. *)
Lemma removePending_in now a tx p : account_at p a [] -> tx ∈ entries (pending p !! a) ->
  filled (queue p !! a) ->
  returns (removePending Sender now a tx) p (fun r p' => is_Some r /\ account_at p' a [] /\ shuffles a p p' /\ priced p' = priced p /\
    tally p a ≡ₚ tx :: tally p' a /\ filled (pending p' !! a) /\ filled (queue p' !! a)).
Proof.
  intros Ha Hin Hfq. pose proof Ha as [Hp Hq Ht]. unfold returns, removePending. run_step.
  destruct (pending p !! a) as [l|] eqn:El; [|by apply elem_of_nil in Hin]. cbn [entries] in *. destruct Hp as [Hl Hst].
  destruct (list_Remove_ok tx l _ Hl Hin) as (inv & l1 & Hrem & Hinv & Hl1 & Hst1). rewrite Hst in Hinv, Hl1, Hst1.
  pose proof (removed_perm true tx _ (list_ok_ascending _ _ Hl) Hin) as Hperm. rewrite <- Hinv in Hperm.
  destruct (on_pending_run a (list_Remove tx) p l _ l1 El Hrem) as (p1 & Hrun & [R1 R2 R3 R4]).
  apply settles_bind. eapply settles_run; [exact Hrun|]. cbn [negb]. run_step. rewrite R1, lookup_insert_eq.
  destruct (entry_intro true l1 _ Hl1 Hst1) as [He1 Hc1]. cbn [entries] in Hc1. set (s1 := without true (tx_Nonce tx) (contents l)) in *.
  assert (Ha1 : account_at p1 a inv).
  { split; [by rewrite R1, lookup_insert_eq|by rewrite R2|]. rewrite R1, R2, lookup_insert_eq. cbn [entries]. rewrite Hc1.
    apply (txs_ok_cons Sender genuine a tx). eapply (txs_ok_proper Sender genuine a); [|exact Ht]. perm. }
  assert (Hx : exists p2, (if list_Empty l1 then delete_pending a else mret tt) p1 = (Ok tt, p2) /\ moves a p1 inv p2 inv /\
    queue p2 = queue p1 /\ filled (pending p2 !! a)).
  { rewrite (contents_empty _ _ Hl1). case_bool_decide as Hs1.
    - eexists. split; [done|]. split; [apply delete_moves; [done|]|split; [done|]].
      + rewrite R1, lookup_insert_eq. cbn. by rewrite Hc1.
      + intros l2. cbn. by rewrite lookup_delete_eq.
    - exists p1. split; [done|]. split; [by split|]. split; [done|]. intros l2. rewrite R1, lookup_insert_eq. intros [= <-]. by rewrite Hc1. }
  destruct Hx as (p2 & Hrun2 & Hm2 & Hq2 & Hf2). apply settles_bind. eapply settles_run; [exact Hrun2|].
  eapply settles_seq; [apply (requeue_ok now a inv []); rewrite app_nil_r; apply Hm2|].
  intros _ p3 (Hm3 & Hp3 & Hf3 & _). rewrite app_nil_r in Hm3. unfold nonces_setIfLower. repeat run_step.
  pose proof (moves_trans _ _ _ _ _ _ _ Hm2 Hm3) as [M1 M2 M3 M4]. split; [done|]. cbn [pending queue priced set_nonces]. split_and!.
  - exact M1.
  - transitivity p1; [done|]. destruct M2 as [[? ? []] ? ?]. by repeat split.
  - cbn. congruence.
  - assert (E1 : tally p1 a = s1 ++ entries (queue p !! a)). { unfold tally. rewrite R1, R2, lookup_insert_eq. cbn. by rewrite Hc1. }
    assert (E0 : tally p a = contents l ++ entries (queue p !! a)). { unfold tally. by rewrite El. }
    rewrite E1, app_nil_r in M4. rewrite E0. change (tally (set_nonces p3 _) a) with (tally p3 a). perm.
  - by rewrite Hp3.
  - apply Hf3. by rewrite Hq2, R2.
Qed.

Lemma removePending_out now a tx p : account_at p a [] -> tx_Nonce tx ∉ nonces_of (entries (pending p !! a)) ->
  returns (removePending Sender now a tx) p (fun r p' => r = None /\ moves a p [] p' [] /\ queue p' = queue p /\
    entries (pending p' !! a) = entries (pending p !! a) /\ (is_Some (pending p' !! a) <-> is_Some (pending p !! a))).
Proof.
  intros Ha Hn. pose proof Ha as [Hp Hq Ht]. unfold returns, removePending. run_step.
  destruct (pending p !! a) as [l|] eqn:El; [|repeat run_step; rewrite El; split; [done|]; split; [by split|done]]. cbn [entries] in *. destruct Hp as [Hl Hst].
  destruct (list_Remove_absent tx l _ Hl Hn) as (l1 & Hrem & Hl1 & Hst1).
  destruct (on_pending_run a (list_Remove tx) p l _ l1 El Hrem) as (p1 & Hrun & [R1 R2 R3 R4]).
  apply settles_bind. eapply settles_run; [exact Hrun|]. cbn [negb]. run_step.
  destruct (entry_intro true l1 _ Hl1 ltac:(congruence)) as [He1 Hc1]. rewrite R1, lookup_insert_eq. split; [done|].
  split; [|split; [done|split; [done|by split; eauto]]].
  apply moves_tally; try done; [by apply account_tally|by rewrite R1, lookup_insert_eq|by rewrite R2|].
  unfold tally. rewrite R1, R2, lookup_insert_eq, El, Hc1. done.
Qed.

Lemma removeQueued_ok a tx p : account_at p a [] -> tx ∈ entries (queue p !! a) ->
  returns (removeQueued a tx) p (fun _ p' => account_at p' a [] /\ shuffles a p p' /\ priced p' = priced p /\
    tally p a ≡ₚ tx :: tally p' a /\ pending p' = pending p /\ filled (queue p' !! a)).
Proof.
  intros Ha Hin. pose proof Ha as [Hp Hq Ht]. unfold returns, removeQueued. run_step.
  destruct (queue p !! a) as [l|] eqn:El; [|by apply elem_of_nil in Hin]. cbn [entries] in *. destruct Hq as [Hl Hst].
  destruct (list_Remove_ok tx l _ Hl Hin) as (inv & l1 & Hrem & Hinv & Hl1 & Hst1). rewrite Hst in Hinv, Hl1, Hst1.
  pose proof (removed_perm false tx _ (list_ok_ascending _ _ Hl) Hin) as Hperm. cbn [dropped app] in Hperm.
  destruct (on_queue_run a (list_Remove tx) p l _ l1 El Hrem) as (p1 & Hrun & [R1 R2 R3 R4]).
  apply settles_bind. eapply settles_run; [exact Hrun|]. run_step. rewrite R1, lookup_insert_eq.
  destruct (entry_intro false l1 _ Hl1 Hst1) as [He1 Hc1]. cbn [entries] in Hc1. set (s1 := without false (tx_Nonce tx) (contents l)) in *.
  assert (Ha1 : account_at p1 a []).
  { split; [by rewrite R2|by rewrite R1, lookup_insert_eq|]. rewrite R1, R2, lookup_insert_eq. cbn [entries]. rewrite Hc1.
    apply (txs_ok_cons Sender genuine a tx). eapply (txs_ok_proper Sender genuine a); [|exact Ht]. perm. }
  assert (Ht1 : tally p a ≡ₚ tx :: tally p1 a).
  { unfold tally. rewrite R1, R2, El, lookup_insert_eq. cbn [entries]. rewrite Hc1. perm. }
  unfold delete_queue. rewrite (contents_empty _ _ Hl1). case_bool_decide as Hs1; repeat run_step.
  - cbn [pending queue priced set_queue set_beats]. assert (E : entries (queue p1 !! a) = []) by (rewrite R1, lookup_insert_eq; cbn; by rewrite Hc1).
    split; [split; cbn [pending queue set_queue set_beats]|split].
    + apply Ha1.
    + by rewrite lookup_delete_eq.
    + rewrite lookup_delete_eq. destruct Ha1 as [_ _ Ha1]. by rewrite E in Ha1.
    + destruct R4 as [[R4 R5 []] R6 R7]. split; [|done|done]. split; [done| |done]. intros b Hb. cbn. by rewrite lookup_delete_ne, R5.
    + split; [done|]. split; [|split; [done|]].
      * rewrite Ht1. unfold tally. cbn [pending queue set_queue set_beats]. by rewrite lookup_delete_eq, E.
      * intros l2. by rewrite lookup_delete_eq.
  - split; [done|]. split; [done|]. split; [done|]. split; [done|]. split; [done|]. intros l2. rewrite R1, lookup_insert_eq. intros [= <-]. by rewrite Hc1.
Qed.

(** ** The invariant *)

(** The accounts with a list are reserved, and [held], that of a transaction on its way in *)
Definition reserved_ok (held : option Address) p a : Prop :=
  reservations p !! a = Some pool_id <-> is_Some (pending p !! a) \/ is_Some (queue p !! a) \/ held = Some a.

Record pool_inv (held : option Address) p : Prop := {
  pi_accounts a : account_at p a [];
  pi_pending a : filled (pending p !! a);
  pi_queue a : filled (queue p !! a);
  pi_all : lookup_ok (all p) (pooled p);
  pi_reserved a : reserved_ok held p a;
  pi_priced : priced_fine p
}.

Lemma pooled_sender p tx a : account_at p a [] -> tx ∈ tally p a -> sender tx = a /\ genuine tx.
Proof.
  intros Ha Hin. apply account_tally, txs_each in Ha. rewrite app_nil_r in Ha. rewrite list.Forall_forall in Ha. by destruct (Ha tx Hin) as (? & ? & _).
Qed.

Lemma inv_all h p : pool_inv h p -> all_ok p (pooled p).
Proof. intros H. split; [apply H|]. intros tx Hin. by apply (pooled_sender p tx _ (pi_accounts _ _ H _) Hin). Qed.

(** A step on one account that took [out] out of its lists and out of the lookup, and put the
    new transactions [into] there *)
Lemma inv_step h h' a p p' into out : pool_inv h p -> touches a p p' -> account_at p' a [] -> filled (pending p' !! a) -> filled (queue p' !! a) ->
  (forall b, b <> a -> reservations p' !! b = reservations p !! b) -> reserved_ok h' p' a -> (forall b, b <> a -> h = Some b <-> h' = Some b) ->
  priced_fine p' -> NoDup into -> Forall (fun x => sender x = a /\ forall t, pooled p t -> tx_Hash t <> tx_Hash x) into ->
  Forall (fun t => t ∈ tally p a) out -> into ++ tally p a ≡ₚ out ++ tally p' a ->
  lookup_ok (all p') (fun t => t ∈ into \/ pooled p t /\ tx_Hash t ∉ tx_Hash <$> out) -> pool_inv h' p'.
Proof.
  intros Hi Ht Ha Hfp Hfq Hres Hra Hh Hpr Hnd Hinto Hout Hperm Hall. pose proof Ht as [T1 T2 _]. rewrite list.Forall_forall in Hinto, Hout.
  assert (Hpo : forall t, t ∈ tally p a -> pooled p t).
  { intros t Hin. unfold pooled. by destruct (pooled_sender p t a (pi_accounts _ _ Hi a) Hin) as [-> _]. }
  split; [| | | | |done].
  - intros b. destruct (decide (b = a)) as [->|Hb]; [done|]. unfold account_at. rewrite T1, T2 by done. apply Hi.
  - intros b. destruct (decide (b = a)) as [->|Hb]; [done|]. rewrite T1 by done. apply Hi.
  - intros b. destruct (decide (b = a)) as [->|Hb]; [done|]. rewrite T2 by done. apply Hi.
  - eapply lookup_ok_iff; [|exact Hall]. intros t. unfold pooled at 2. destruct (decide (sender t = a)) as [E|Hne].
    + rewrite E. assert (Hiff : t ∈ into \/ t ∈ tally p a <-> t ∈ out \/ t ∈ tally p' a) by (by rewrite <- !elem_of_app, Hperm).
      assert (Hd : t ∈ out -> t ∈ tally p' a -> False).
      { assert (Hnd' : NoDup (into ++ tally p a)).
        { apply list.NoDup_app. split; [done|]. split.
          - intros x Hx Hxp. apply (proj2 (Hinto x Hx) x); [by apply Hpo|done].
          - pose proof (account_tally _ _ _ (pi_accounts _ _ Hi a)) as Hok. rewrite app_nil_r in Hok. apply txs_nonces in Hok. by apply NoDup_fmap_1 in Hok. }
        rewrite Hperm in Hnd'. apply list.NoDup_app in Hnd' as (_ & Hd & _). intros Ho Hin. by apply (Hd t). }
      split.
      * intros [Hin|[Hp Hn]].
        -- destruct (proj1 Hiff) as [Ho|]; [by left| |done]. exfalso. apply (proj2 (Hinto t Hin) t); [by apply Hpo, Hout|done].
        -- unfold pooled in Hp. rewrite E in Hp. destruct (proj1 Hiff) as [Ho|]; [by right| |done]. exfalso. apply Hn. by apply list_elem_of_fmap_2.
      * intros Hin. destruct (proj2 Hiff) as [Hx|Hx]; [by right|by left|]. right. split; [by apply Hpo|].
        intros (y & Hy & Hyo)%list_elem_of_fmap.
        assert (t = y) as -> by (apply (lookup_unique _ _ _ _ (pi_all _ _ Hi)); [by apply Hpo|by apply Hpo, Hout|done]). by apply Hd.
    + rewrite (tally_touches a _ p p' Ht Hne). fold (pooled p t). split.
      * intros [Hin|[Hp _]]; [|done]. by destruct (Hinto t Hin).
      * intros Hp. right. split; [done|]. intros (y & Hy & Hyo)%list_elem_of_fmap. apply Hne.
        destruct (pooled_sender p y a (pi_accounts _ _ Hi a) (Hout y Hyo)) as [Hys _].
        rewrite (lookup_unique _ _ t y (pi_all _ _ Hi)); [done|done|by apply Hpo, Hout|done].
  - intros b. destruct (decide (b = a)) as [->|Hb]; [done|]. unfold reserved_ok. rewrite Hres, T1, T2, <- Hh by done. apply Hi.
Qed.

Lemma inv_account h h' a p p' out : pool_inv h p -> touches a p p' -> account_at p' a [] -> filled (pending p' !! a) -> filled (queue p' !! a) ->
  (forall b, b <> a -> reservations p' !! b = reservations p !! b) -> reserved_ok h' p' a -> (forall b, b <> a -> h = Some b <-> h' = Some b) ->
  priced_fine p' -> tally p a ≡ₚ out ++ tally p' a -> lookup_ok (all p') (fun t => pooled p t /\ tx_Hash t ∉ tx_Hash <$> out) -> pool_inv h' p'.
Proof.
  intros Hi Ht Ha Hfp Hfq Hres Hra Hh Hpr Hperm Hall. apply (inv_step h h' a p p' [] out); try done; try (by constructor).
  - rewrite list.Forall_forall. intros t Hin. rewrite Hperm, elem_of_app. auto.
  - eapply lookup_ok_iff; [|exact Hall]. intros t. cbn. rewrite elem_of_nil. tauto.
Qed.

(** ** [removeTx] *)

Lemma unreserve_ok p a : reservations p !! a = Some pool_id ->
  returns (unreserve_unused pool_id a) p (fun _ p' => exists m, p' = set_reservations p m /\
    (forall b, b <> a -> m !! b = reservations p !! b) /\
    (m !! a = Some pool_id <-> is_Some (pending p !! a) \/ is_Some (queue p !! a))).
Proof.
  intros Hr. unfold returns, unreserve_unused. run_step. unfold has_pending, has_queued.
  destruct (pending p !! a) eqn:Ep; [|destruct (queue p !! a) eqn:Eq].
  - rewrite bool_decide_eq_true_2 by eauto. cbn [negb andb]. run_step. exists (reservations p). split; [by destruct p|]. split; [done|]. split; [eauto|done].
  - rewrite bool_decide_eq_false_2, bool_decide_eq_true_2 by eauto using is_Some_None. cbn [negb andb]. run_step.
    exists (reservations p). split; [by destruct p|]. split; [done|]. split; [eauto|done].
  - rewrite !bool_decide_eq_false_2 by eauto using is_Some_None. cbn [negb andb]. unfold settles, ignoreM, reserve, reservations.reserver.
    rewrite getM_bind, Hr, Nat.eqb_refl. cbn. exists (delete a (reservations p)). split; [done|]. split.
    + intros b Hb. by rewrite lookup_delete_ne.
    + rewrite lookup_delete_eq. split; [done|]. by intros [[]|[]].
Qed.

Lemma removed_lookup p P hash tx : all_ok p P -> lookup.Get (all p) hash = Some tx ->
  lookup_ok (lookup.Remove hash (all p)) (fun t => P t /\ tx_Hash t ∉ tx_Hash <$> [tx]).
Proof.
  intros [Hl _] Hg. apply (lk_get _ _ Hl) in Hg as [<- _]. eapply lookup_ok_iff; [|apply lookup_Remove_ok, Hl].
  intros t. cbn. by rewrite list_elem_of_singleton.
Qed.

Lemma touches_set_priced a p l : touches a p (set_priced p l).
Proof. by repeat split. Qed.

(** The lists of the account after the lookup and the price heaps have been updated *)
Lemma remove_lists now a tx p : account_at p a [] -> tx ∈ tally p a -> filled (pending p !! a) -> filled (queue p !! a) ->
  returns (removeFromLists Sender now a tx) p
    (fun _ p' => account_at p' a [] /\ shuffles a p p' /\ priced p' = priced p /\ tally p a ≡ₚ tx :: tally p' a /\
      filled (pending p' !! a) /\ filled (queue p' !! a) /\
      (tx ∈ entries (queue p !! a) -> entries (pending p' !! a) = entries (pending p !! a))).
Proof.
  intros Ha Hin Hfp Hfq. apply elem_of_app in Hin as [Hin|Hin]; unfold returns, removeFromLists.
  - eapply settles_seq; [by apply removePending_in|]. intros r p1 ([n ->] & H1). repeat run_step.
    destruct H1 as (? & ? & ? & ? & ? & ?). do 6 (split; [done|]). intros Hq. pose proof (account_tally _ _ _ Ha) as Ht. rewrite app_nil_r in Ht.
    destruct (txs_ok_disjoint _ _ _ _ _ _ Ht Hin). by apply list_elem_of_fmap_2.
  - eapply settles_seq; [apply removePending_out; [done|]|].
    { pose proof (account_tally _ _ _ Ha) as Ht. rewrite app_nil_r in Ht. unfold tally in Ht. rewrite Permutation_app_comm in Ht.
      by apply (txs_ok_disjoint _ _ _ _ _ _ Ht). }
    intros r p1 (-> & [M1 M2 M3 M4] & Q1 & Q2 & Q3). eapply settles_seq; [apply removeQueued_ok; [done|by rewrite Q1]|].
    intros _ p2 (H1 & H2 & H3 & H4 & H5 & H6). run_step. split; [done|]. split; [by etrans|]. split; [congruence|]. split; [|split; [|split; [done|]]].
    + rewrite !app_nil_r in M4. perm.
    + rewrite H5. intros l Hl. assert (E : is_Some (pending p !! a)) by (apply Q3; eauto). apply (filled_entries _ Hfp) in E.
      rewrite <- Q2, Hl in E. exact E.
    + intros _. by rewrite H5.
Qed.

Lemma priced_if (b : bool) n p P : all_ok p P -> priced_fine p ->
  returns (if b then priced_Removed n else mret tt) p (fun _ p' => only_priced p p').
Proof.
  intros Ha Hp. destruct b; [by apply (priced_Removed_ok n p P)|]. unfold returns. run_step. exists (priced p). by destruct p.
Qed.

(** What a removal does to the pool *)
Definition removes p p' tx : Prop :=
  touches (sender tx) p p' /\ tally p (sender tx) ≡ₚ tx :: tally p' (sender tx) /\
  (tx ∈ entries (queue p !! sender tx) -> entries (pending p' !! sender tx) = entries (pending p !! sender tx)).

Lemma removeTx_known now hash oob (un : bool) h p tx : pool_inv h p -> lookup.Get (all p) hash = Some tx ->
  (if un then h <> Some (sender tx) else h = Some (sender tx)) ->
  returns (removeTx Sender pool_id now hash oob un) p (fun _ p' => pool_inv h p' /\ removes p p' tx).
Proof.
  intros Hi Hg Hun. set (a := sender tx) in *. pose proof (inv_all h p Hi) as Hao. pose proof (lk_get _ _ (pi_all _ _ Hi) hash tx) as Hget.
  apply Hget in Hg as [<- Hin]. assert (Hin' : tx ∈ tally p a) by exact Hin. unfold returns, removeTx. run_step.
  rewrite (proj2 Hget) by done. fold a. unfold all_Remove. run_step. set (p1 := set_all p _).
  assert (Hl1 : lookup_ok (all p1) (fun t => pooled p t /\ tx_Hash t ∉ tx_Hash <$> [tx])) by (by apply removed_lookup; [|apply Hget]).
  eapply settles_seq; [apply (priced_if oob 1 p1 (fun t => pooled p t /\ tx_Hash t ∉ tx_Hash <$> [tx])); [|apply Hi]|].
  { split; [done|]. intros t [Ht _]. by apply Hao. }
  intros _ p2 (l & -> & Hl). eapply settles_seq; [apply (remove_lists now a tx); [apply Hi|done|apply Hi|apply Hi]|].
  intros n p3 (A3 & S3 & Pr3 & T3 & F3 & G3 & K3). assert (Hr : reservations p !! a = Some pool_id).
  { apply Hi. apply elem_of_app in Hin' as [Hx|Hx]; apply entries_some in Hx; auto. }
  destruct S3 as [S3 S4 S5]. cbn [all reservations set_priced] in S4, S5.
  assert (Ht : touches a p p3) by (transitivity (set_priced p1 l); [by repeat split|done]).
  assert (Hfin : forall m, (forall b, b <> a -> m !! b = reservations p !! b) ->
    (m !! a = Some pool_id <-> is_Some (pending p3 !! a) \/ is_Some (queue p3 !! a) \/ h = Some a) ->
    pool_inv h (set_reservations p3 m) /\ removes p (set_reservations p3 m) tx).
  { intros m M1 M2. assert (Ht' : touches a p (set_reservations p3 m)) by (destruct Ht as [? ? []]; by repeat split).
    split; [|by split]. apply (inv_account h h a p (set_reservations p3 m) [tx]); try done.
    - unfold priced_fine. cbn. by rewrite Pr3.
    - cbn [all set_reservations]. by rewrite S4. }
  destruct un.
  - eapply settles_seq; [apply unreserve_ok; by rewrite S5|]. intros _ p4 (m & -> & M1 & M2). run_step. apply Hfin.
    + intros b Hb. by rewrite M1, S5.
    + rewrite M2. tauto.
  - repeat run_step. replace p3 with (set_reservations p3 (reservations p3)) by (by destruct p3). apply Hfin; rewrite S5; [done|]. split; [|done]. auto.
Qed.

Lemma removeTx_unknown now hash oob un p : lookup.Get (all p) hash = None ->
  returns (removeTx Sender pool_id now hash oob un) p (fun _ p' => p' = p).
Proof. intros Hg. unfold returns, removeTx. run_step. rewrite Hg. by run_step. Qed.

(** ** Room for a new transaction *)

(** Every account keeps a part of its transactions. *)
Definition shrinks p p' : Prop := forall a, exists out, tally p a ≡ₚ out ++ tally p' a.
#[global] Instance shrinks_trans : PreOrder shrinks.
Proof.
  split; [intros p a; by exists []|]. intros p1 p2 p3 H1 H2 a. destruct (H1 a) as [o1 E1]. destruct (H2 a) as [o2 E2].
  exists (o1 ++ o2). perm.
Qed.

Lemma shrinks_len p p' a : shrinks p p' -> (length (tally p' a) <= length (tally p a))%nat.
Proof. intros H. destruct (H a) as [out ->]. rewrite length_app. lia. Qed.
Lemma shrinks_size p p' : shrinks p p' -> (pool_size p' <= pool_size p)%nat.
Proof. intros H. rewrite <- (Nat.add_0_r (pool_size p)). apply (size_le p p' Address_zero 0). intros a. pose proof (shrinks_len _ _ a H). case_decide; lia. Qed.
Lemma shrinks_cost h p p' a : pool_inv h p -> shrinks p p' -> total_cost (tally p' a) <= total_cost (tally p a).
Proof.
  intros Hi H. destruct (H a) as [out E]. pose proof (account_tally _ _ _ (pi_accounts _ _ Hi a)) as Hok. rewrite app_nil_r, E in Hok.
  apply txs_ok_nonneg in Hok. rewrite Forall_app in Hok. destruct Hok as [Ho _]. apply total_cost_nonneg in Ho. rewrite E, total_cost_app. lia.
Qed.

Lemma removes_shrinks p p' tx : removes p p' tx -> shrinks p p'.
Proof.
  intros (Ht & Hp & _) a. destruct (decide (a = sender tx)) as [->|Hne]; [by exists [tx]|].
  exists []. by rewrite (tally_touches _ _ _ _ Ht Hne).
Qed.

Definition lesser h p p' : Prop := pool_inv h p' /\ same_setup p p' /\ shrinks p p'.

Lemma evict_ok now from drop p : pool_inv (Some from) p -> Forall genuine drop ->
  returns (evict Sender pool_id now from drop) p (fun _ p' => lesser (Some from) p p').
Proof.
  intros Hi Hd. revert p Hi. induction Hd as [|tx drop Hg Hd IH]; intros p Hi; cbn [evict]; unfold returns.
  { by run_step. }
  assert (Hr : returns (removeTx Sender pool_id now (tx_Hash tx) false (bool_decide (sender tx <> from))) p (fun _ p' => lesser (Some from) p p')).
  { destruct (lookup.Get (all p) (tx_Hash tx)) as [tx'|] eqn:E.
    - assert (tx' = tx) as ->.
      { pose proof (inv_all _ p Hi) as [Hl Hgen]. apply (lk_get _ _ Hl) in E as [E Hpo]. apply hash_inj; [by apply Hgen|done|done]. }
      eapply returns_mono; [apply (removeTx_known now _ _ _ (Some from) p tx); [done|done|]|].
      + case_bool_decide; [by intros [= ->]|]. by destruct (decide (sender tx = from)) as [->|].
      + intros _ p' [H1 H2]. split; [done|]. split; [apply H2|by eapply removes_shrinks].
    - eapply returns_mono; [by apply removeTx_unknown|]. by intros _ p' ->. }
  eapply settles_seq; [exact Hr|]. intros n p1 (I1 & S1 & K1). run_step. set (p2 := set_changes p1 _).
  assert (I2 : pool_inv (Some from) p2) by (destruct I1; by split).
  eapply settles_mono; [apply (IH p2 I2)| |done]. intros _ p3 (I3 & S3 & K3). split; [done|]. split.
  - transitivity p1; [done|]. transitivity p2; [done|done].
  - transitivity p1; [done|]. transitivity p2; [by intros a; exists []|done].
Qed.

End Pool.
End legacypoolspec.
