(* ===== verification/LegacyPoolAddSpec.v ===== *)
(** * The transaction pool: adding transactions

    [add] keeps the invariant of the pool, whether it takes the transaction or returns an error;
    it never panics on transactions whose costs fit into 256 bits. *)

From Stdlib Require Import Sorting.Sorted.
From S2P Require Import Prelude Deps GoStd Slices CustomTypes ExtState Transition Processor Ordering Miner TxList TxListSpec PricedList PricedListSpec Validation LegacyPool LegacyPoolSpec.
Import core processor txpool txlist txlistspec pricedlistspec validation legacypool legacypoolspec.

Module legacypooladd.

Section Pool.
Context {UI : U256Lib} {UIs : U256LibSpec} {UA : U256Arith} {UAs : U256ArithSpec} {TL : TxLib}.
Context {NR : NonceRange} {NS : NonceRangeSpec} {HR : HashRange} {HS : HashRangeSpec}.
Context {S : Type} {GDB : GethStateDB S} (Sender : Transaction -> result Address) (genuine : Transaction -> Prop).
Context (hash_inj : forall a b, genuine a -> genuine b -> tx_Hash a = tx_Hash b -> a = b).
Context (pool_id : nat).
Notation pool := (@LegacyPool S).
Notation sender := (legacypool.sender Sender).
Notation txs_ok := (txs_ok Sender genuine).
Notation tx_ok := (tx_ok Sender genuine).
Notation pool_inv := (pool_inv Sender genuine pool_id).
Notation account_at := (account_at Sender genuine).
Notation pooled := (pooled Sender).
Notation lesser := (lesser Sender genuine pool_id).
Notation priced_fine := (priced_fine genuine).
Notation all_ok := (all_ok genuine).
Implicit Types (p : pool) (a b : Address) (tx t : Transaction).

(** A step that leaves the lists, the lookup and the reservations alone *)
Record aside p p' : Prop := {
  as_pending : pending p' = pending p;
  as_queue : queue p' = queue p;
  as_all : all p' = all p;
  as_reservations : reservations p' = reservations p;
  as_setup : same_setup p p';
  as_priced : priced_fine p -> priced_fine p'
}.
#[global] Instance aside_trans : PreOrder aside.
Proof.
  split; [by intros p|]. intros p1 p2 p3 [H1 H2 H3 H4 H5 H6] [K1 K2 K3 K4 K5 K6]. split; [congruence..|by etrans|auto].
Qed.

Lemma aside_tally p p' a : aside p p' -> tally p' a = tally p a.
Proof. intros [H1 H2 _ _ _]. unfold tally. by rewrite H1, H2. Qed.

Lemma aside_inv h p p' : aside p p' -> pool_inv h p -> pool_inv h p'.
Proof.
  intros Hs [I1 I2 I3 I4 I5 I6]. pose proof Hs as [H1 H2 H3 H4 _ H6].
  split; unfold account_at, reserved_ok; rewrite ?H1, ?H2, ?H3, ?H4; auto.
  eapply lookup_ok_iff; [|exact I4]. intros t. unfold pooled. by rewrite (aside_tally p p').
Qed.

Lemma aside_lesser h p p' : aside p p' -> pool_inv h p -> lesser h p p'.
Proof.
  intros Hs Hi. split; [by eapply aside_inv|]. split; [apply Hs|]. intros a. exists []. by rewrite (aside_tally p p').
Qed.

Lemma lesser_trans h p1 p2 p3 : lesser h p1 p2 -> lesser h p2 p3 -> lesser h p1 p3.
Proof. intros (_ & H1 & H2) (H3 & H4 & H5). split; [done|]. split; by etrans. Qed.

(** ** The price heaps *)

Lemma priced_aside p l : priced_ok genuine l -> aside p (set_priced p l).
Proof. intros Hl. split; [done..|by split|by intros _]. Qed.

Lemma nonces_aside p x : aside p (set_nonces p x).
Proof. split; [done..|by split|done]. Qed.

Lemma nonces_get_ok a p : returns (nonces_get a) p (fun _ p' => aside p p').
Proof.
  unfold returns, settles, nonces_get, totalM. destruct (noncer_get a (pendingNonces p)) as [n txn]. apply nonces_aside.
Qed.

Lemma isGapped_ok from tx p : returns (isGapped from tx) p (fun _ p' => aside p p').
Proof.
  unfold returns, isGapped. eapply settles_seq; [apply nonces_get_ok|]. intros n p1 Ha.
  destruct (tx_Nonce tx <=? n); [by run_step|]. run_step. destruct (queue _ !! from); by run_step.
Qed.

Lemma put_back drop p : priced_fine p -> Forall genuine drop ->
  returns (for_each (fun tx => priced_Put tx false) drop) p (fun _ p' => aside p p').
Proof.
  intros Hp Hd. revert p Hp. induction Hd as [|tx drop Hg Hd IH]; intros p Hp; cbn [for_each]; unfold returns; [by run_step|].
  unfold priced_Put. run_step. set (p1 := set_priced p _).
  assert (H1 : aside p p1) by (by apply priced_aside, priced_Put_ok).
  eapply settles_mono; [apply IH; by apply H1| |done]. intros ? p2 H2. by etrans.
Qed.

Lemma on_priced_run {A} (m : lookup -> StM pricedList A) p r l : m (all p) (priced p) = (Ok r, l) -> on_priced m p = (Ok r, set_priced p l).
Proof. unfold on_priced. by intros ->. Qed.

(** An error leaves the lists as they are. *)
Lemma makeRoom_ok now from tx (isLocal : bool) p : pool_inv (Some from) p ->
  settles (makeRoom Sender pool_id now from tx isLocal) p (fun _ p' => lesser (Some from) p p') (fun p' => aside p p').
Proof.
  intros Hi. unfold makeRoom. run_step. destruct (_ <=? _); [by run_step|]. set (limit := u64 (_ + _)).
  assert (Hu : settles (if isLocal then mret tt else underpriced ← on_priced (pricedlist.Underpriced tx); lift (fail_if underpriced ErrUnderpriced)) p
    (fun _ p' => aside p p') (fun p' => aside p p')).
  { destruct isLocal; [by run_step|]. destruct (Underpriced_ok genuine tx (all p) (priced p) (pi_priced _ _ _ _ _ Hi)) as (b & l & Hr & Hl).
    apply settles_bind. eapply settles_run; [by apply on_priced_run|]. pose proof (priced_aside p l Hl). by destruct b. }
  apply settles_bind. eapply settles_mono; [exact Hu| |done]. intros ? p1 A1. run_step. run_step.
  destruct (fail_if _ _) eqn:Ef; [|exact A1|by unfold fail_if in Ef; case_match]. clear Ef. 
  destruct (Discard_ok genuine (lookup.slots (all p1) - limit + numSlots tx) isLocal (all p1) (priced p1)) as (drop & ok & l & Hd & Hev & Hl).
  { apply A1, Hi. }
  apply settles_bind. eapply settles_run; [by apply on_priced_run|].
  assert (A2 : aside p (set_priced p1 l)) by (transitivity p1; [done|by apply priced_aside]). set (p2 := set_priced p1 l) in *. clearbody p2.
  assert (Hgen : Forall genuine drop) by (eapply list.Forall_impl; [exact Hev|]; by intros x [? _]).
  cbn beta iota. run_step. destruct (fail_if _ _) eqn:Ef; [|exact A2|by unfold fail_if in Ef; case_match]. clear Ef.
  assert (Hg : returns (if isLocal then mret false else isGapped from tx) p2 (fun _ p' => aside p2 p')).
  { destruct isLocal; [unfold returns; by run_step|apply isGapped_ok]. }
  eapply settles_seq; [exact Hg|]. intros gapped p3 A3. assert (A03 : aside p p3) by (by etrans). run_step. destruct (gapped && _).
  - eapply settles_seq; [apply put_back; [apply A03, Hi|done]|]. intros ? p4 A4. run_step. by etrans.
  - eapply settles_mono; [apply (evict_ok Sender genuine hash_inj pool_id now from drop p3); [by eapply aside_inv|done]| |done].
    intros ? p4 L4. eapply lesser_trans; [|exact L4]. by eapply aside_lesser.
Qed.

(** ** The new transaction in a list *)

Lemma put_txs_ok a tx s rest : txs_ok a (s ++ rest) -> tx_ok a tx -> StronglySorted by_nonce s -> tx_Nonce tx ∉ nonces_of rest ->
  total_cost (s ++ rest) + Cost tx < 2 ^ 256 -> txs_ok a (put tx s ++ rest).
Proof.
  intros Hs Hx Ha Hn Hc. pose proof (put_cost tx s Ha) as Ep. rewrite total_cost_app in Hc.
  assert (Hold : Forall (fun x => 0 <= Cost x) (option_list (at_nonce (tx_Nonce tx) s))).
  { pose proof (txs_ok_nonneg _ _ _ _ Hs) as Hnn. rewrite Forall_app, !list.Forall_forall in Hnn. rewrite list.Forall_forall. intros o Ho.
    apply (proj1 Hnn). destruct (at_nonce (tx_Nonce tx) s) as [y|] eqn:E; [|by apply elem_of_nil in Ho]. apply list_elem_of_singleton in Ho as ->.
    apply of_list_lookup in E as [Hin _]; [exact Hin|done]. }
  pose proof (total_cost_nonneg _ Hold) as H0. destruct Hs as [H1 H2 H3]. split.
  - rewrite Forall_app in *. destruct H1 as [H1 H1']. split; [|done]. rewrite list.Forall_forall in *. intros x [->|[Hin _]]%elem_of_put; auto.
  - rewrite fmap_app, list.NoDup_app in *. destruct H2 as (_ & Hd & Hr). split; [by apply ascending_nodup, ascending_put|]. split; [|done].
    intros n (x & -> & [->|[Hin _]]%elem_of_put)%list_elem_of_fmap; [done|]. apply Hd. by apply list_elem_of_fmap_2.
  - rewrite total_cost_app. lia.
Qed.

(** Either the list keeps its old transaction, or the new one takes its place. *)
Lemma add_entry a o (b : bool) tx bump rest : entry_ok b o -> txs_ok a (entries o ++ rest) -> tx_ok a tx -> tx_Nonce tx ∉ nonces_of rest ->
  total_cost (entries o ++ rest) + Cost tx < 2 ^ 256 ->
  (exists l, o = Some l /\ list_Add tx bump l = (Ok (false, None), l)) \/
  (exists l, list_Add tx bump (default (newList b) o) = (Ok (true, at_nonce (tx_Nonce tx) (entries o)), l) /\ entry_ok b (Some l) /\
    tx :: entries o ≡ₚ option_list (at_nonce (tx_Nonce tx) (entries o)) ++ entries (Some l) /\ txs_ok a (entries (Some l) ++ rest)).
Proof.
  intros Ho Hs Hx Hn Hc. set (l := default (newList b) o).
  assert (Hl : list_ok l (entries o) /\ strict l = b). { subst l. destruct o as [l|]; cbn in *; [done|]. split; [apply newList_ok|done]. }
  destruct Hl as [Hl Hst]. pose proof (list_ok_ascending _ _ Hl) as Ha.
  pose proof (put_txs_ok a tx _ rest Hs Hx Ha Hn Hc) as Hput.
  assert (Hk : (exists old, at_nonce (tx_Nonce tx) (entries o) = Some old /\ keeps_old old tx bump = true) \/
    forall old, at_nonce (tx_Nonce tx) (entries o) = Some old -> keeps_old old tx bump = false).
  { destruct (at_nonce (tx_Nonce tx) (entries o)) as [old|]; [|by right]. destruct (keeps_old old tx bump) eqn:E; [left; eauto|]. right. by intros ? [= <-]. }
  destruct Hk as [(old & Hat & Hk)|Hk].
  - left. destruct o as [l0|]; [|done]. exists l0. split; [done|]. by eapply list_Add_refused.
  - right. destruct Hx as (_ & _ & Hu & Hc0).
    destruct (list_Add_ok tx bump l (entries o) Hl Hu Hc0) as (l' & Hadd & Hok & Hst'); [by apply (txs_fits _ _ _ _ (txs_ok_app_l _ _ _ _ _ Hput))|done|].
    exists l'. destruct (entry_intro b l' _ Hok) as [E1 E2]; [congruence|]. rewrite E2. split; [done|]. split; [done|]. split; [by apply put_perm|done].
Qed.

(** ** [insert] *)

Record incoming p tx : Prop := {
  in_ok : tx_ok (sender tx) tx;
  in_fresh t : pooled p t -> tx_Hash t <> tx_Hash tx;
  in_fits : total_cost (tally p (sender tx)) + Cost tx < 2 ^ 256
}.

Lemma replace_old_ok old p P : all_ok p P -> priced_fine p ->
  returns (replace_old old) p (fun _ p' => exists tab l, p' = set_priced (set_all p tab) l /\ priced_ok genuine l /\
    all_ok p' (fun t => P t /\ tx_Hash t ∉ tx_Hash <$> option_list old)).
Proof.
  intros Ha Hp. destruct old as [old|]; unfold returns, replace_old.
  - unfold all_Remove. run_step. set (p1 := set_all p _).
    assert (H1 : all_ok p1 (fun t => P t /\ tx_Hash t ∉ tx_Hash <$> [old])).
    { destruct Ha as [Hl Hg]. split; [|by intros t [? _]; auto]. eapply lookup_ok_iff; [|by apply lookup_Remove_ok].
      intros t. cbn. by rewrite list_elem_of_singleton. }
    eapply settles_mono; [apply (priced_Removed_ok genuine 1 p1 _ H1 Hp)| |done]. intros ? p2 (l & -> & Hl). by exists (lookup.Remove (tx_Hash old) (all p)), l.
  - run_step. exists (all p), (priced p). split; [by destruct p|]. split; [done|]. destruct Ha as [Hl Hg]. split; [|by intros t [? _]; auto].
    eapply lookup_ok_iff; [|exact Hl]. intros t. cbn. split; [|tauto]. intros HP. split; [done|by apply not_elem_of_nil].
Qed.

(** The invariant after the new transaction has taken its place *)
Lemma inserted_inv p p1 p' tx old : pool_inv (Some (sender tx)) p -> incoming p tx -> shuffles (sender tx) p p1 -> account_at p1 (sender tx) [] ->
  filled (pending p1 !! sender tx) -> filled (queue p1 !! sender tx) ->
  tx :: tally p (sender tx) ≡ₚ option_list old ++ tally p1 (sender tx) -> Forall (fun t => t ∈ tally p (sender tx)) (option_list old) ->
  pending p' = pending p1 -> queue p' = queue p1 -> reservations p' = reservations p1 -> same_setup p1 p' -> priced_fine p' ->
  lookup_ok (all p') (fun t => t = tx \/ pooled p t /\ tx_Hash t ∉ tx_Hash <$> option_list old) -> pool_inv None p'.
Proof.
  intros Hi [Hx Hf Hfit] [Ht Hall Hres] Ha Hfp Hfq Hperm Hold E1 E2 E3 E4 Hpr Hl. set (a := sender tx) in *.
  assert (Htx : tx ∈ tally p1 a).
  { assert (Hin : tx ∈ option_list old ++ tally p1 a) by (rewrite <- Hperm; by left). apply elem_of_app in Hin as [Hin|]; [|done].
    rewrite list.Forall_forall in Hold. exfalso. apply (Hf tx); [|done]. by apply Hold. }
  apply (inv_step Sender genuine pool_id (Some a) None a p p' [tx] (option_list old)); try done.
  - destruct Ht as [T1 T2 T3]. split; [by rewrite E1|by rewrite E2|by etrans].
  - unfold account_at, legacypoolspec.account_at. rewrite E1, E2. exact Ha.
  - by rewrite E1.
  - by rewrite E2.
  - intros b Hb. by rewrite E3, Hres.
  - unfold reserved_ok. rewrite E1, E2, E3, Hres. split.
    + intros _. apply elem_of_app in Htx as [Hin|Hin]; apply entries_some in Hin; auto.
    + intros _. apply Hi. auto.
  - intros b Hb. split; [intros [= ->]; done|done].
  - apply list.NoDup_singleton.
  - repeat constructor. exact Hf.
  - cbn [app]. unfold tally at 2. rewrite E1, E2. exact Hperm.
  - eapply lookup_ok_iff; [|exact Hl]. intros t. by rewrite list_elem_of_singleton.
Qed.

Record steady p p' : Prop := {
  st_config : config p' = config p;
  st_head : currentHead p' = currentHead p;
  st_state : currentState p' = currentState p
}.
#[global] Instance steady_trans : PreOrder steady.
Proof. split; [by intros p|]. intros p1 p2 p3 [] []. split; congruence. Qed.
Lemma setup_steady p p' : same_setup p p' -> steady p p'.
Proof. by intros []. Qed.

(** No account has more than before, but for the new transaction. *)
Definition grows tx p p' : Prop :=
  (forall a, total_cost (tally p' a) <= total_cost (tally p a) + (if decide (a = sender tx) then Cost tx else 0)) /\
  (pool_size p' <= pool_size p + 1)%nat.

Lemma grows_inserted p p1 tx old : pool_inv (Some (sender tx)) p -> touches (sender tx) p p1 -> 0 <= Cost tx ->
  tx :: tally p (sender tx) ≡ₚ option_list old ++ tally p1 (sender tx) -> Forall (fun t => t ∈ tally p (sender tx)) (option_list old) ->
  grows tx p p1.
Proof.
  intros Hi Ht Hc Hp Ho. split.
  2:{ apply (size_le p p1 (sender tx) 1). intros a. case_decide as E; [subst a|rewrite (tally_touches _ _ _ _ Ht E); lia].
    apply Permutation_length in Hp. rewrite length_app in Hp. cbn in Hp. lia. }
  intros a. case_decide as E; [subst a|rewrite (tally_touches _ _ _ _ Ht E); lia].
  assert (Hn : Forall (fun x => 0 <= Cost x) (option_list old)).
  { pose proof (account_tally _ _ _ _ _ (pi_accounts _ _ _ _ _ Hi (sender tx))) as Hok. rewrite app_nil_r in Hok. apply txs_ok_nonneg in Hok.
    rewrite list.Forall_forall in *. auto. }
  apply total_cost_nonneg in Hn. apply (total_cost_proper (TL := TL)) in Hp. rewrite total_cost_app in Hp. cbn [total_cost foldr] in Hp.
  fold (total_cost (tally p (sender tx))) in Hp. lia.
Qed.

Lemma old_in_list (o : option txList) n (b : bool) : entry_ok b o -> Forall (fun t => t ∈ entries o) (option_list (at_nonce n (entries o))).
Proof.
  intros Ho. destruct (at_nonce n (entries o)) as [old|] eqn:E; [|constructor]. repeat constructor.
  destruct o as [l|]; [|done]. destruct Ho as [Hl _]. apply list_ok_ascending in Hl. by apply of_list_lookup in E as [? _].
Qed.

(** The lookup and the price heaps after a transaction has entered the lists *)
Lemma enter_ok p p1 tx old (isLocal : bool) {A} (k : StM pool A) Q E : pool_inv (Some (sender tx)) p -> incoming p tx ->
  shuffles (sender tx) p p1 -> priced p1 = priced p ->
  (forall p', pending p' = pending p1 -> queue p' = queue p1 -> reservations p' = reservations p1 -> same_setup p1 p' -> priced_fine p' ->
    lookup_ok (all p') (fun t => t = tx \/ pooled p t /\ tx_Hash t ∉ tx_Hash <$> option_list old) -> settles k p' Q E) ->
  settles (_ ← replace_old old; _ ← track tx isLocal; k) p1 Q E.
Proof.
  intros Hi [Hx Hf Hfit] [Ht Hall Hres] Hpr Hk. eapply settles_seq; [apply (replace_old_ok old p1 (pooled p))|].
  { destruct (inv_all _ _ _ _ _ Hi) as [Hl Hg]. split; [by rewrite Hall|done]. }
  { unfold priced_fine, legacypoolspec.priced_fine. rewrite Hpr. apply Hi. }
  intros ? p2 (tab & l & -> & Hl & [Hlk Hgen]). apply settles_bind. unfold track, all_Add, priced_Put. run_step. run_step. apply Hk; try done.
  - unfold priced_fine, legacypoolspec.priced_fine. cbn. apply priced_Put_ok; [apply Hx|done].
  - cbn [all set_priced set_all] in *. eapply lookup_ok_iff; [|apply lookup_Add_ok; [exact Hlk|]].
    + intros t. cbn. tauto.
    + intros t [Hp _]. by apply Hf.
Qed.

(** A method of a list that leaves the list as it is *)
Lemma on_pending_same {A} a (m : StM txList A) p l r : pending p !! a = Some l -> m l = (Ok r, l) ->
  exists p', on_pending a m p = (Ok r, p') /\ aside p p'.
Proof.
  intros Hl Hm. unfold on_pending. rewrite Hl, Hm, insert_id by done. eexists. split; [done|]. split; [done..|by split|done].
Qed.
Lemma queue_Add_same a tx p l r : queue p !! a = Some l -> list_Add tx (PriceBump (config p)) l = (Ok r, l) ->
  exists p', queue_Add a tx p = (Ok r, p') /\ aside p p'.
Proof.
  intros Hl Hm. unfold queue_Add. rewrite modifyM_bind, getM_bind, Hl. unfold on_queue. rewrite Hl, Hm, insert_id by done.
  eexists. split; [done|]. split; [done..|by split|done].
Qed.

Definition inserted tx p p' : Prop := pool_inv None p' /\ steady p p' /\ grows tx p p'.

Lemma inserted_done p p1 p' tx old : pool_inv (Some (sender tx)) p -> incoming p tx -> shuffles (sender tx) p p1 -> account_at p1 (sender tx) [] ->
  filled (pending p1 !! sender tx) -> filled (queue p1 !! sender tx) ->
  tx :: tally p (sender tx) ≡ₚ option_list old ++ tally p1 (sender tx) -> Forall (fun t => t ∈ tally p (sender tx)) (option_list old) ->
  pending p' = pending p1 -> queue p' = queue p1 -> reservations p' = reservations p1 -> same_setup p1 p' -> priced_fine p' ->
  lookup_ok (all p') (fun t => t = tx \/ pooled p t /\ tx_Hash t ∉ tx_Hash <$> option_list old) -> inserted tx p p'.
Proof.
  intros Hi Hx Hs Ha Hfp Hfq Hp Ho E1 E2 E3 E4 Hpr Hl. split; [by eapply (inserted_inv p p1 p' tx old)|]. split.
  - apply setup_steady. etrans; [|exact E4]. apply Hs.
  - destruct (grows_inserted p p1 tx old) as [G1 G2]; [done|apply Hs|apply Hx|done|done|]. unfold grows, pool_size, tally. by rewrite E1, E2.
Qed.

(** A pending transaction is replaced. *)
Lemma insert_pending now tx local isLocal p l : pool_inv (Some (sender tx)) p -> incoming p tx -> pending p !! sender tx = Some l ->
  list_Contains l (tx_Nonce tx) = true ->
  settles (insert Sender now (sender tx) tx local isLocal) p (fun _ p' => inserted tx p p')
    (fun p' => aside p p' /\ (is_Some (pending p !! sender tx) \/ is_Some (queue p !! sender tx))).
Proof.
  intros Hi Hx El Hc. set (a := sender tx) in *. pose proof (pi_accounts _ _ _ _ _ Hi a) as Hac. pose proof Hac as [Hp Hq Ht].
  unfold insert. run_step. rewrite El, Hc. rewrite El in Hp, Ht.
  rewrite app_nil_r in Ht. pose proof Hp as [Hl Hst]. rewrite (contents_contains _ _ _ Hl) in Hc. apply bool_decide_eq_true in Hc.
  assert (Hn : tx_Nonce tx ∉ nonces_of (entries (queue p !! a))).
  { apply list_elem_of_fmap in Hc as (y & -> & Hy). by apply (txs_ok_disjoint _ _ _ _ _ _ Ht). }
  assert (Hfit : total_cost (entries (Some l) ++ entries (queue p !! a)) + Cost tx < 2 ^ 256).
  { pose proof (in_fits _ _ Hx) as Hf. unfold tally in Hf. fold a in Hf. by rewrite El in Hf. }
  destruct (add_entry a (Some l) true tx (PriceBump (config p)) (entries (queue p !! a)) Hp Ht (in_ok _ _ Hx) Hn Hfit) as [(? & [= <-] & Hadd)|(l' & Hadd & Hl' & Hperm & Hok)].
  - destruct (on_pending_same a _ p l _ El Hadd) as (p1 & Hrun & Ha1). apply settles_bind. eapply settles_run; [exact Hrun|].
    cbn [negb]. run_step. split; [done|]. left. eauto.
  - set (old := at_nonce (tx_Nonce tx) (entries (Some l))) in *. destruct (on_pending_run a _ p l _ l' El Hadd) as (p1 & Hrun & [R1 R2 R3 R4]).
    apply settles_bind. eapply settles_run; [exact Hrun|]. cbn [negb]. apply (enter_ok p p1 tx old isLocal); [done|done|done|done|].
    intros p2 E1 E2 E3 E4 E5 E6. unfold beat. repeat run_step.
    assert (Hold : Forall (fun t => t ∈ tally p a) (option_list old)).
    { eapply list.Forall_impl; [apply (old_in_list (Some l) _ true Hp)|]. intros t Hin. unfold tally. rewrite El, elem_of_app. auto. }
    eapply (inserted_done p p1 _ tx old); try done; fold a.
    + split; [by rewrite R1, lookup_insert_eq|by rewrite R2|]. rewrite R1, R2, lookup_insert_eq. by rewrite app_nil_r.
    + rewrite R1, lookup_insert_eq. intros l2 [= <-] Hnil. cbn [entries] in Hperm. rewrite Hnil, app_nil_r in Hperm.
      apply Permutation_length in Hperm. cbn in Hperm. apply list_elem_of_fmap in Hc as (y & _ & Hy). destruct old, (contents l); cbn in *; try lia. by apply elem_of_nil in Hy.
    + rewrite R2. apply Hi.
    + unfold tally. rewrite R1, R2, El, lookup_insert_eq. perm.
    + by destruct E4.
Qed.

(** A transaction whose nonce is not pending goes to the queue. *)
Lemma enqueue_new now tx isLocal p : pool_inv (Some (sender tx)) p -> incoming p tx -> tx_Nonce tx ∉ nonces_of (entries (pending p !! sender tx)) ->
  settles (enqueueTx Sender now tx isLocal true) p (fun _ p' => inserted tx p p')
    (fun p' => aside p p' /\ (is_Some (pending p !! sender tx) \/ is_Some (queue p !! sender tx))).
Proof.
  intros Hi Hx Hn. set (a := sender tx) in *. pose proof (pi_accounts _ _ _ _ _ Hi a) as Hac. pose proof Hac as [Hp Hq Ht].
  rewrite app_nil_r, Permutation_app_comm in Ht. unfold enqueueTx. fold a.
  assert (Hfit : total_cost (entries (queue p !! a) ++ entries (pending p !! a)) + Cost tx < 2 ^ 256).
  { pose proof (in_fits _ _ Hx) as Hf. unfold tally in Hf. fold a in Hf. rewrite total_cost_app in *. lia. }
  destruct (add_entry a (queue p !! a) false tx (PriceBump (config p)) _ Hq Ht (in_ok _ _ Hx) Hn Hfit) as [(l & El & Hadd)|(l' & Hadd & Hl' & Hperm & Hok)].
  - destruct (queue_Add_same a tx p l _ El Hadd) as (p1 & Hrun & Ha1). apply settles_bind. eapply settles_run; [exact Hrun|].
    cbn [negb]. run_step. split; [done|]. right. eauto.
  - set (old := at_nonce (tx_Nonce tx) (entries (queue p !! a))) in *. destruct (queue_Add_run a tx p _ l' Hadd) as (p1 & Hrun & [R1 R2 R3 R4]).
    apply settles_bind. eapply settles_run; [exact Hrun|]. cbn [negb]. apply (enter_ok p p1 tx old isLocal); [done|done|done|done|].
    intros p2 E1 E2 E3 E4 E5 E6. run_step.
    assert (Hold : Forall (fun t => t ∈ tally p a) (option_list old)).
    { eapply list.Forall_impl; [apply (old_in_list (queue p !! a) _ false Hq)|]. intros t Hin. unfold tally. rewrite elem_of_app. auto. }
    assert (Hdone : forall p', pending p' = pending p1 -> queue p' = queue p1 -> reservations p' = reservations p1 -> same_setup p1 p' -> priced_fine p' ->
      lookup_ok (all p') (fun t => t = tx \/ pooled p t /\ tx_Hash t ∉ tx_Hash <$> option_list old) -> inserted tx p p').
    { intros p' F1 F2 F3 F4 F5 F6. eapply (inserted_done p p1 p' tx old); try done; fold a.
      - split; [by rewrite R2|by rewrite R1, lookup_insert_eq|]. rewrite R1, R2, lookup_insert_eq. by rewrite app_nil_r, Permutation_app_comm.
      - rewrite R2. apply Hi.
      - rewrite R1, lookup_insert_eq. intros l2 [= <-] Hnil. cbn [entries] in Hperm. rewrite Hnil, app_nil_r in Hperm.
        apply (in_fresh _ _ Hx tx); [|done]. rewrite list.Forall_forall in Hold. apply Hold. rewrite <- Hperm. by left.
      - unfold tally. rewrite R1, R2, lookup_insert_eq. perm. }
    destruct (beats p2 !! a); unfold beat; repeat run_step; apply Hdone; try done. by destruct E4.
Qed.

(** The transactions of an account that has become local move to the local ones. *)
Lemma localize h from p : pool_inv h p ->
  returns (_ ← modifyM (fun p => set_locals p (accountset.add from (locals p)));
           p ← getM;
           let '(migrated, all') := lookup.RemoteToLocals Sender (locals p) (all p) in
           _ ← modifyM (fun p => set_all p all');
           priced_Removed migrated) p
    (fun _ p' => pool_inv h p' /\ steady p p' /\ pending p' = pending p /\ queue p' = queue p).
Proof.
  intros Hi. unfold returns. run_step. run_step. set (p1 := set_locals p _).
  pose proof (RemoteToLocals_ok Sender (locals p1) (all p1) (pooled p) (pi_all _ _ _ _ _ Hi)) as Hl.
  destruct (lookup.RemoteToLocals Sender (locals p1) (all p1)) as [n tab]. cbn [snd] in Hl. run_step.
  assert (Ha : all_ok (set_all p1 tab) (pooled p)). { split; [done|]. apply (inv_all _ _ _ _ _ Hi). }
  eapply settles_mono; [apply (priced_Removed_ok genuine n _ _ Ha (pi_priced _ _ _ _ _ Hi))| |done].
  intros ? p2 (l & -> & Hl2). split; [|split; [by split|done]]. destruct Hi. by split.
Qed.

Lemma insert_ok now tx local isLocal p : pool_inv (Some (sender tx)) p -> incoming p tx ->
  settles (insert Sender now (sender tx) tx local isLocal) p (fun _ p' => inserted tx p p')
    (fun p' => aside p p' /\ (is_Some (pending p !! sender tx) \/ is_Some (queue p !! sender tx))).
Proof.
  intros Hi Hx. pose proof (ac_pending _ _ _ _ _ _ (pi_accounts _ _ _ _ _ Hi (sender tx))) as Hp.
  assert (Hc : forall l, pending p !! sender tx = Some l -> list_Contains l (tx_Nonce tx) = bool_decide (tx_Nonce tx ∈ nonces_of (entries (pending p !! sender tx)))).
  { intros l El. rewrite El in *. by apply contents_contains, Hp. }
  destruct (decide (tx_Nonce tx ∈ nonces_of (entries (pending p !! sender tx)))) as [Hin|Hn].
  - destruct (pending p !! sender tx) as [l|] eqn:El; [|by apply elem_of_nil in Hin]. rewrite <- El. eapply insert_pending; try done.
    rewrite (Hc l) by done. by rewrite bool_decide_eq_true_2.
  - unfold insert. run_step.
    assert (match pending p !! sender tx with Some l => list_Contains l (tx_Nonce tx) | None => false end = false) as ->.
    { destruct (pending p !! sender tx) as [l|] eqn:El; [|done]. rewrite (Hc l) by done. by rewrite bool_decide_eq_false_2. }
    apply settles_bind. eapply settles_mono; [by apply enqueue_new| |done]. intros r p1 (I1 & S1 & G1). run_step. apply settles_bind.
    destruct (local && _); [|repeat run_step; by split].
    eapply settles_mono; [by apply (localize None (sender tx))| |done]. intros ? p2 (I2 & S2 & P2 & Q2). run_step. split; [done|].
    split; [by etrans|]. unfold grows, pool_size, tally in *. by rewrite P2, Q2.
Qed.

(** ** [add] *)

Context (Sender_returns : forall tx, Sender tx <> Panic).

Lemma validateTx_returns p tx local : validateTx Sender p tx local <> Panic.
Proof.
  unfold validateTx, ValidateTransactionWithState. pose proof (Sender_returns tx) as Hs. destruct (Sender tx) as [from|e|]; [|done|done].
  cbn [mbind result_bind]. unfold fail_if. repeat (case_match; cbn [mbind result_bind]; try done).
Qed.

(** An account that has a list may as well be held. *)
Lemma held_list p a : is_Some (pending p !! a) \/ is_Some (queue p !! a) -> pool_inv None p <-> pool_inv (Some a) p.
Proof.
  intros Hl. assert (Hr : forall b, reserved_ok pool_id None p b <-> reserved_ok pool_id (Some a) p b).
  { intros b. unfold reserved_ok. destruct (decide (b = a)) as [->|Hb]; [tauto|]. assert (Some a <> Some b) by congruence. split; intros E; rewrite E; naive_solver. }
  split; intros [I1 I2 I3 I4 I5 I6]; split; try done; intros b; by apply Hr.
Qed.

Lemma reserve_fresh p a : pool_inv None p -> pending p !! a = None -> queue p !! a = None ->
  settles (reserve pool_id a true) p (fun _ p' => pool_inv (Some a) p' /\ pending p' = pending p /\ queue p' = queue p /\ same_setup p p') (fun p' => aside p p').
Proof.
  intros Hi Hp Hq. unfold settles, reserve, reservations.reserver. rewrite getM_bind. cbn beta iota.
  destruct (reservations p !! a) as [owner|] eqn:Er.
  - destruct (Nat.eqb_spec owner pool_id) as [->|Hne]; [|cbn; split; [done..|by split|done]].
    apply Hi in Er. rewrite Hp, Hq in Er. naive_solver.
  - cbn. split; [|by repeat split]. destruct Hi as [I1 I2 I3 I4 I5 I6]. split; try done. intros b. specialize (I5 b). unfold reserved_ok in *. cbn.
    destruct (decide (b = a)) as [->|Hb]; [rewrite lookup_insert_eq; tauto|]. rewrite lookup_insert_ne by done. rewrite I5.
    assert (Some a <> Some b) by congruence. naive_solver.
Qed.

Lemma release_fresh p a : pool_inv (Some a) p -> pending p !! a = None -> queue p !! a = None ->
  returns (ignoreM (reserve pool_id a false)) p (fun _ p' => pool_inv None p' /\ pending p' = pending p /\ queue p' = queue p /\ same_setup p p').
Proof.
  intros Hi Hp Hq. unfold returns, settles, ignoreM, reserve, reservations.reserver. rewrite getM_bind.
  assert (Er : reservations p !! a = Some pool_id) by (apply Hi; auto). rewrite Er, Nat.eqb_refl. cbn. split; [|by repeat split].
  destruct Hi as [I1 I2 I3 I4 I5 I6]. split; try done. intros b. specialize (I5 b). unfold reserved_ok in *. cbn.
  destruct (decide (b = a)) as [->|Hb]; [rewrite lookup_delete_eq, Hp, Hq; split; [done|by intros [[]|[[]|]]]|].
  rewrite lookup_delete_ne, I5 by done. assert (Some a <> Some b) by congruence. naive_solver.
Qed.

(** A transaction to be added: its nonce and cost are what the types say, and the costs fit *)
Record addable p tx : Prop := {
  ad_genuine : genuine tx;
  ad_nonce : is_u64 (tx_Nonce tx);
  ad_cost : 0 <= Cost tx;
  ad_fits : total_cost (tally p (sender tx)) + Cost tx < 2 ^ 256
}.

Definition refused p p' : Prop := pool_inv None p' /\ steady p p' /\ shrinks p p'.

(** The body of [add], once the account is held *)
Lemma add_body now tx local isLocal p : pool_inv (Some (sender tx)) p -> incoming p tx ->
  settles (_ ← makeRoom Sender pool_id now (sender tx) tx isLocal; insert Sender now (sender tx) tx local isLocal) p
    (fun _ p' => inserted tx p p')
    (fun p' => pool_inv (Some (sender tx)) p' /\ steady p p' /\ shrinks p p' /\
      (pending p' = pending p /\ queue p' = queue p \/ (is_Some (pending p' !! sender tx) \/ is_Some (queue p' !! sender tx)) /\ tally p (sender tx) <> [])).
Proof.
  intros Hi Hx. apply settles_bind. eapply settles_mono; [by apply makeRoom_ok| |].
  - intros ? p1 (I1 & S1 & K1). assert (Hx1 : incoming p1 tx).
    { destruct Hx as [X1 X2 X3]. split; [done| |].
      - intros t Ht. apply X2. unfold pooled, legacypoolspec.pooled in *. destruct (K1 (sender t)) as [out ->]. rewrite elem_of_app. auto.
      - pose proof (shrinks_cost _ _ _ _ _ _ (sender tx) Hi K1). lia. }
    eapply settles_mono; [by apply insert_ok| |].
    + intros r p2 (I2 & S2 & G2). split; [done|]. split; [etrans; [by apply setup_steady|done]|]. destruct G2 as [G2 G3].
      split; [|pose proof (shrinks_size _ _ K1); lia]. intros b. specialize (G2 b). pose proof (shrinks_cost _ _ _ _ _ _ b Hi K1). lia.
    + intros p2 [A2 Hl]. split; [by eapply aside_inv|]. split; [etrans; [by apply setup_steady|apply setup_steady, A2]|].
      split; [etrans; [exact K1|]; intros b; exists []; by rewrite (aside_tally _ _ _ A2)|]. right.
      rewrite (as_pending _ _ A2), (as_queue _ _ A2). split; [done|]. destruct (K1 (sender tx)) as [out E]. intros Hnil. rewrite Hnil in E.
      apply Permutation_nil, app_eq_nil in E as [_ E]. unfold tally in E. apply app_eq_nil in E as [E1 E2].
      destruct Hl as [Hl|Hl]; [apply (filled_entries _ (pi_pending _ _ _ _ _ I1 _)) in Hl|apply (filled_entries _ (pi_queue _ _ _ _ _ I1 _)) in Hl]; done.
  - intros p1 A1. split; [by eapply aside_inv|]. split; [apply setup_steady, A1|].
    split; [intros b; exists []; by rewrite (aside_tally _ _ _ A1)|]. left. split; apply A1.
Qed.

Lemma on_error_settles {A} (m : StM pool A) cleanup p Q (E E' : pool -> Prop) :
  settles m p Q E -> (forall p', E p' -> returns cleanup p' (fun _ p'' => E' p'')) -> settles (on_error m cleanup) p Q E'.
Proof.
  intros Hm Hc. unfold settles, on_error in *. destruct (m p) as [[a|e|] p1]; [done| |done]. specialize (Hc p1 Hm).
  apply returns_run in Hc as ([] & p2 & Hrun & H2). by rewrite (bindM_step _ _ _ _ _ Hrun).
Qed.

(** [add] keeps the invariant, whatever it returns. *)
Lemma add_ok now tx local p : pool_inv None p -> addable p tx ->
  settles (add Sender pool_id now tx local) p (fun _ p' => inserted tx p p') (fun p' => refused p p').
Proof.
  intros Hi [G1 G2 G3 G4]. assert (Hsame : refused p p) by (by split). unfold add. run_step.
  case_bool_decide as Hk; [by run_step|]. run_step. set (isLocal := local || _).
  pose proof (validateTx_returns p tx isLocal) as Hv. destruct (validateTx Sender p tx isLocal); [|done|done].
  assert (Hx : forall p', pending p' = pending p -> queue p' = queue p -> incoming p' tx).
  { intros p' E1 E2. assert (Et : forall c, tally p' c = tally p c) by (intros c; unfold tally; by rewrite E1, E2). split; [done| |by rewrite Et].
    intros t Ht E. unfold pooled, legacypoolspec.pooled in Ht. rewrite Et in Ht. apply Hk. exists t. by apply (lk_get _ _ (pi_all _ _ _ _ _ Hi)). }
  unfold has_pending, has_queued. destruct (decide (is_Some (pending p !! sender tx) \/ is_Some (queue p !! sender tx))) as [Hl|Hl].
  - assert (negb (bool_decide (is_Some (pending p !! sender tx))) && negb (bool_decide (is_Some (queue p !! sender tx))) = false) as ->.
    { destruct Hl as [Hl|Hl]; rewrite (bool_decide_eq_true_2 _ Hl); [done|]. by rewrite andb_false_r. }
    run_step. eapply settles_mono; [apply add_body; [by apply held_list|by apply Hx]|done|]. intros p1 (I1 & S1 & K1 & Hc). split; [|by split].
    apply (held_list p1 (sender tx)); [|done]. destruct Hc as [[E1 E2]|[? _]]; [by rewrite E1, E2|done].
  - assert (Hp : pending p !! sender tx = None) by (apply eq_None_not_Some; auto).
    assert (Hq : queue p !! sender tx = None) by (apply eq_None_not_Some; auto).
    rewrite !bool_decide_eq_false_2 by auto. cbn [negb andb]. apply settles_bind.
    eapply settles_mono; [by apply reserve_fresh| |].
    + intros ? p1 (I1 & E1 & E2 & S1). assert (Et : forall b, tally p1 b = tally p b) by (intros b; unfold tally; by rewrite E1, E2).
      eapply on_error_settles.
      * eapply settles_mono; [apply add_body; [done|by apply Hx]| |intros p2 H2; exact H2].
        intros r p2 (I2 & S2 & G). split; [done|]. split; [etrans; [by apply setup_steady|done]|]. unfold grows, pool_size, tally in *. by rewrite E1, E2 in G.
      * intros p2 (I2 & S2 & K2 & Hc). destruct Hc as [[E3 E4]|[_ Hn]]; [|exfalso; apply Hn; rewrite Et; unfold tally; by rewrite Hp, Hq].
        eapply returns_mono; [apply release_fresh; [done|congruence|congruence]|]. intros ? p3 (I3 & E5 & E6 & S3). split; [done|]. split.
        -- etrans; [by apply setup_steady|]. etrans; [exact S2|]. by apply setup_steady.
        -- intros b. exists []. assert (tally p3 b = tally p b) as -> by (unfold tally; congruence). done.
    + intros p1 A1. split; [by eapply aside_inv|]. split; [apply setup_steady, A1|]. intros b. exists []. by rewrite (aside_tally _ _ _ A1).
Qed.

(** ** Batches *)

Definition wf_tx tx : Prop := genuine tx /\ is_u64 (tx_Nonce tx) /\ 0 <= Cost tx.
Definition room p (txs : list Transaction) : Prop := forall a,
  total_cost (tally p a) + total_cost (filter (fun tx => sender tx = a) txs) < 2 ^ 256.

Lemma wf_nonneg (P : Transaction -> Prop) `{!forall x, Decision (P x)} txs : Forall wf_tx txs -> 0 <= total_cost (filter P txs).
Proof.
  intros Hw. apply total_cost_nonneg. rewrite list.Forall_forall in *. intros x [_ Hx]%list_elem_of_filter. by destruct (Hw x Hx) as (_ & _ & ?).
Qed.

Lemma room_cons p p' tx txs : Forall wf_tx (tx :: txs) -> room p (tx :: txs) -> grows tx p p' \/ shrinks p p' /\ pool_inv None p -> room p' txs.
Proof.
  intros Hw Hr Hg a. specialize (Hr a). apply list.Forall_cons in Hw as [(_ & _ & Hc) Hw]. rewrite filter_cons in Hr.
  assert (Hle : total_cost (tally p' a) <= total_cost (tally p a) + (if decide (sender tx = a) then Cost tx else 0)).
  { destruct Hg as [[Hg _]|[Hg Hi]]; [specialize (Hg a); repeat case_decide; try congruence; lia|].
    pose proof (shrinks_cost _ _ _ _ _ _ a Hi Hg). case_decide; lia. }
  case_decide; cbn [total_cost foldr] in Hr; [|lia]. fold (total_cost (filter (fun tx => sender tx = a) txs)) in Hr. lia.
Qed.

Lemma addTxsLocked_ok now txs local : forall p dirty, pool_inv None p -> Forall wf_tx txs -> room p txs ->
  returns (addTxsLocked Sender pool_id now txs local dirty) p (fun r p' => pool_inv None p' /\ steady p p' /\ length (fst r) = length txs /\ (pool_size p' <= pool_size p + length txs)%nat).
Proof.
  induction txs as [|tx txs IH]; intros p dirty Hi Hw Hr; cbn [addTxsLocked]; [unfold returns; run_step; split; [done|split; [done|split; [done|cbn; lia]]]|].
  pose proof Hw as Hw'. apply list.Forall_cons in Hw' as [(W1 & W2 & W3) Hw']. assert (Ha : addable p tx).
  { split; [done..|]. specialize (Hr (sender tx)). rewrite filter_cons_True in Hr by done. cbn [total_cost foldr] in Hr.
    fold (total_cost (filter (fun t => sender t = sender tx) txs)) in Hr. pose proof (wf_nonneg (fun t => sender t = sender tx) txs Hw'). lia. }
  pose proof (add_ok now tx local p Hi Ha) as Hadd. unfold settles in Hadd. unfold returns, settles.
  destruct (add Sender pool_id now tx local p) as [[r|e|] p1]; [| |done].
  - destruct Hadd as (I1 & S1 & G1). destruct (returns_run _ _ _ (IH p1 (if r then dirty else accountset.addTx Sender tx dirty) I1 Hw' ltac:(eapply room_cons; eauto)))
      as ([errs d] & p2 & Hrun & I2 & S2 & L2 & N2). rewrite (bindM_step _ _ _ _ _ Hrun). cbn in *. split; [done|]. split; [by etrans|]. split; [lia|]. pose proof (proj2 G1). lia.
  - destruct Hadd as (I1 & S1 & G1). destruct (returns_run _ _ _ (IH p1 dirty I1 Hw' ltac:(eapply room_cons; eauto)))
      as ([errs d] & p2 & Hrun & I2 & S2 & L2 & N2). rewrite (bindM_step _ _ _ _ _ Hrun). cbn in *. split; [done|]. split; [by etrans|]. split; [lia|]. pose proof (shrinks_size _ _ G1). lia.
Qed.

End Pool.
End legacypooladd.
