(* ===== verification/LegacyPoolReorgSpec.v ===== *)
(** * The legacy pool: promotion and demotion

    What [promoteAccount] and [demoteAccount] do to the transactions of one account: while they
    run, some of its transactions have left the lists and are not yet dropped or put back. *)

From Stdlib Require Import Sorting.Sorted.
From S2P Require Import Prelude Deps GoStd Slices CustomTypes Header ExtState Transition Processor Ordering Miner TxList TxListSpec PricedList PricedListSpec Validation LegacyPool LegacyPoolSpec LegacyPoolAddSpec.
Import core processor txpool txlist txlistspec pricedlistspec validation legacypool legacypoolspec legacypooladd.

Module legacypoolreorg.
Section Pool.
Context {UI : U256Lib} {UIs : U256LibSpec} {UA : U256Arith} {UAs : U256ArithSpec} {TL : TxLib}.
Context {NR : NonceRange} {NS : NonceRangeSpec} {HR : HashRange} {HS : HashRangeSpec}.
Context {S : Type} {GDB : GethStateDB S} (Sender : Transaction -> result Address) (genuine : Transaction -> Prop).
Context (hash_inj : forall a b, genuine a -> genuine b -> tx_Hash a = tx_Hash b -> a = b).
Context (pool_id : nat).
Notation pool := (@LegacyPool S).
Notation sender := (legacypool.sender Sender).
Notation txs_ok := (txs_ok Sender genuine).
Notation pool_inv := (pool_inv Sender genuine pool_id).
Notation account_at := (account_at Sender genuine).
Notation pooled := (pooled Sender).
Notation priced_fine := (priced_fine genuine).
Notation moves := (moves Sender genuine).
Notation lesser := (lesser Sender genuine pool_id).
Implicit Types (p : pool) (a b : Address) (tx t : Transaction).

(** The account [a] of [p] since [p0]: [out] was dropped, [xs] is neither in a list nor dropped. *)
Record flight p0 a p (out xs : list Transaction) : Prop := {
  fl_touches : touches a p0 p;
  fl_reservations : reservations p = reservations p0;
  fl_account : account_at p a xs;
  fl_priced : priced_fine p;
  fl_tally : tally p0 a ≡ₚ out ++ xs ++ tally p a;
  fl_all : lookup_ok (all p) (fun t => pooled p0 t /\ tx_Hash t ∉ tx_Hash <$> out)
}.

Lemma flight_start a p : pool_inv None p -> flight p a p [] [].
Proof.
  intros Hi. split; [done|done|apply Hi|apply Hi|done|]. eapply lookup_ok_iff; [|apply Hi]. intros t. cbn. rewrite elem_of_nil. tauto.
Qed.

Lemma flight_moves p0 a p p' out xs ys : flight p0 a p out xs -> moves a p xs p' ys -> flight p0 a p' out ys.
Proof.
  intros [F1 F2 F3 F4 F5 F6] [M1 [M2 M3 M4] M5 M6]. split.
  - by etrans.
  - congruence.
  - done.
  - unfold legacypoolspec.priced_fine in *. by rewrite M5.
  - perm.
  - by rewrite M3.
Qed.

(** A method of the queue of the account that takes transactions out *)
Lemma flight_on_queue {A} p0 a p out xs ys (m : StM txList A) l l' r s : flight p0 a p out xs -> queue p !! a = Some l ->
  m l = (Ok r, l') -> list_ok l' s -> strict l' = strict l -> contents l ≡ₚ ys ++ s ->
  returns (on_queue a m) p (fun r' p' => r' = r /\ flight p0 a p' out (ys ++ xs) /\ queue p' !! a = Some l' /\ contents l' = s /\ pending p' = pending p).
Proof.
  intros Hf Hl Hm Hok Hs Hp. destruct (on_queue_run a m p l r l' Hl Hm) as (p' & Hrun & [R1 R2 R3 R4]).
  eapply settles_run; [exact Hrun|]. assert (Hq : queue p' !! a = Some l') by (by rewrite R1, lookup_insert_eq).
  pose proof (contents_ok _ _ Hok) as Ec. split; [done|]. split; [|done]. eapply flight_moves; [done|].
  pose proof (fl_account _ _ _ _ _ Hf) as Ha. apply moves_tally; [by apply account_tally| | |done|done|].
  - rewrite R2. apply Ha.
  - rewrite Hq. destruct Ha as [_ Ha _]. rewrite Hl in Ha. split; [by rewrite Ec|]. rewrite Hs. apply Ha.
  - unfold tally. rewrite R2, Hq, Hl. cbn [entries]. rewrite Ec. perm.
Qed.

Lemma flight_on_pending {A} p0 a p out xs ys (m : StM txList A) l l' r s : flight p0 a p out xs -> pending p !! a = Some l ->
  m l = (Ok r, l') -> list_ok l' s -> strict l' = strict l -> contents l ≡ₚ ys ++ s ->
  returns (on_pending a m) p (fun r' p' => r' = r /\ flight p0 a p' out (ys ++ xs) /\ pending p' !! a = Some l' /\ contents l' = s /\ queue p' = queue p).
Proof.
  intros Hf Hl Hm Hok Hs Hp. destruct (on_pending_run a m p l r l' Hl Hm) as (p' & Hrun & [R1 R2 R3 R4]).
  eapply settles_run; [exact Hrun|]. assert (Hq : pending p' !! a = Some l') by (by rewrite R1, lookup_insert_eq).
  pose proof (contents_ok _ _ Hok) as Ec. split; [done|]. split; [|done]. eapply flight_moves; [done|].
  pose proof (fl_account _ _ _ _ _ Hf) as Ha. apply moves_tally; [by apply account_tally| | |done|done|].
  - rewrite Hq. destruct Ha as [Ha _ _]. rewrite Hl in Ha. split; [by rewrite Ec|]. rewrite Hs. apply Ha.
  - rewrite R2. apply Ha.
  - unfold tally. rewrite R2, Hq, Hl. cbn [entries]. rewrite Ec. perm.
Qed.

Lemma flight_remove_all p0 a p out xs ys : pool_inv None p0 -> flight p0 a p out (xs ++ ys) ->
  returns (remove_all xs) p (fun _ p' => flight p0 a p' (out ++ xs) ys /\ pending p' = pending p /\ queue p' = queue p).
Proof.
  intros Hi [F1 F2 F3 F4 F5 F6]. eapply returns_mono; [apply (remove_all_ok Sender genuine xs p); split; [exact F6|]|].
  { intros t [Ht _]. eapply inv_all; done. }
  intros [] p' (tab & -> & Hl & _). split; [|done]. split; [|done| |done| |].
  - destruct F1 as [? ? []]. by repeat split.
  - destruct F3 as [G1 G2 G3]. split; [done|done|]. apply (txs_ok_app_r _ _ _ xs). cbn [pending queue set_all] in *.
    eapply txs_ok_proper; [|exact G3]. perm.
  - change (tally (set_all p tab) a) with (tally p a). perm.
  - eapply lookup_ok_iff; [|exact Hl]. intros t. cbn. rewrite fmap_app, elem_of_app. tauto.
Qed.

Lemma flight_priced p0 a p out xs n : pool_inv None p0 -> flight p0 a p out xs ->
  returns (priced_Removed n) p (fun _ p' => flight p0 a p' out xs /\ pending p' = pending p /\ queue p' = queue p).
Proof.
  intros Hi [F1 F2 F3 F4 F5 F6]. eapply returns_mono; [eapply (priced_Removed_ok genuine n p); [split; [exact F6|]|done]|].
  { intros t [Ht _]. eapply inv_all; done. }
  intros [] p' (l & -> & Hl). split; [|done]. split; [|done..]. destruct F1 as [? ? []]. by repeat split.
Qed.

(** ** The end of the flight *)

(** The account has been settled: [q] has the transactions of [p], and nothing else changed since [p0]. *)
Record settled p0 a p q : Prop := {
  se_lesser : lesser None p0 q;
  se_touches : touches a p0 q;
  se_pending : entries (pending q !! a) = entries (pending p !! a);
  se_queue : entries (queue q !! a) = entries (queue p !! a)
}.

Lemma flight_done p0 a p out m : pool_inv None p0 -> flight p0 a p out [] -> filled (pending p !! a) -> filled (queue p !! a) ->
  (forall b, b <> a -> m !! b = reservations p0 !! b) -> (m !! a = Some pool_id <-> is_Some (pending p !! a) \/ is_Some (queue p !! a)) ->
  settled p0 a p (set_reservations p m).
Proof.
  intros Hi [F1 F2 F3 F4 F5 F6] Hp Hq M1 M2. assert (Ht : touches a p0 (set_reservations p m)) by (destruct F1 as [? ? []]; by repeat split).
  split; [|done..]. split; [|split; [apply Ht|]].
  - apply (inv_account _ _ _ None None a p0 _ out); try done. unfold reserved_ok. cbn. rewrite M2. naive_solver.
  - intros b. destruct (decide (b = a)) as [->|Hne]; [by exists out|]. exists []. by rewrite (tally_touches _ _ _ _ Ht Hne).
Qed.

Lemma flight_kept p0 a p out : pool_inv None p0 -> flight p0 a p out [] -> filled (pending p !! a) -> filled (queue p !! a) ->
  (reservations p0 !! a = Some pool_id <-> is_Some (pending p !! a) \/ is_Some (queue p !! a)) -> settled p0 a p p.
Proof.
  intros Hi Hf Hp Hq Hr. pose proof (fl_reservations _ _ _ _ _ Hf) as E.
  replace p with (set_reservations p (reservations p)) at 2 by (by destruct p). eapply flight_done; try done; by rewrite E.
Qed.

(** The account is released when its last list is gone. *)
Lemma release_ok p0 a p out (keep : bool) : pool_inv None p0 -> flight p0 a p out [] -> filled (pending p !! a) -> filled (queue p !! a) ->
  reservations p0 !! a = Some pool_id -> (keep = true <-> is_Some (pending p !! a) \/ is_Some (queue p !! a)) ->
  returns (if keep then mret tt else ignoreM (reserve pool_id a false)) p (fun _ p' => settled p0 a p p').
Proof.
  intros Hi Hf Hp Hq Hr Hk. destruct keep.
  - run_step. run_step. apply (flight_kept p0 a p out); try done. split; [|done]. intros _. by apply Hk.
  - unfold returns, settles, ignoreM, reserve, reservations.reserver. rewrite getM_bind, (fl_reservations _ _ _ _ _ Hf), Hr, Nat.eqb_refl. cbn.
    apply (flight_done p0 a p out); try done.
    + intros b Hb. by rewrite lookup_delete_ne.
    + rewrite lookup_delete_eq. split; [done|]. intros Hl. by apply Hk in Hl.
Qed.

Lemma flight_delete_queue p0 a p out : flight p0 a p out [] -> entries (queue p !! a) = [] ->
  flight p0 a (set_beats (set_queue p (delete a (queue p))) (delete a (beats p))) out [].
Proof.
  intros [F1 F2 [G1 G2 G3] F4 F5 F6] He. set (p' := set_beats _ _).
  assert (E : entries (queue p' !! a) = []) by (unfold p'; cbn; by rewrite lookup_delete_eq).
  split; [|done| |done| |done].
  - destruct F1 as [F1 F1' []]. split; [done| |done]. intros b Hb. cbn. rewrite lookup_delete_ne by done. by apply F1'.
  - split; [done|unfold p'; cbn; by rewrite lookup_delete_eq|]. rewrite E. by rewrite He in G3.
  - unfold tally in *. rewrite E. by rewrite He in F5.
Qed.

Lemma flight_delete_pending p0 a p out : flight p0 a p out [] -> entries (pending p !! a) = [] ->
  flight p0 a (set_pending p (delete a (pending p))) out [].
Proof. intros Hf He. eapply flight_moves; [done|]. apply delete_moves; [apply Hf|done]. Qed.

Lemma empty_entries o (b : bool) l : entry_ok b o -> o = Some l -> list_Empty l = bool_decide (entries o = []).
Proof. intros Hok ->. destruct Hok as [Hok _]. by apply contents_empty. Qed.

Lemma settle_queue p0 a p out l : pool_inv None p0 -> flight p0 a p out [] -> queue p !! a = Some l -> filled (pending p !! a) ->
  reservations p0 !! a = Some pool_id ->
  returns (if match queue p !! a with Some l => list_Empty l | None => false end then
             _ ← delete_queue a;
             if has_pending p a then mret tt else ignoreM (reserve pool_id a false)
           else mret tt) p (fun _ p' => settled p0 a p p').
Proof.
  intros Hi Hf Hl Hp Hr. rewrite Hl. rewrite (empty_entries (queue p !! a) false l); [|apply Hf|done]. case_bool_decide as He.
  - unfold returns, delete_queue. run_step. set (p' := set_beats _ _).
    eapply settles_mono; [apply (release_ok p0 a p' out)| |done]; [done|by apply flight_delete_queue|done| |done| |].
    + unfold p'. cbn. by rewrite lookup_delete_eq.
    + unfold has_pending, p'. cbn. rewrite lookup_delete_eq, bool_decide_eq_true. split; [auto|]. by intros [?|[]].
    + intros ? q [Q1 Q2 Q3 Q4]. split; [done|done|done|]. rewrite Q4, He. unfold p'. cbn. by rewrite lookup_delete_eq.
  - run_step. run_step. apply (flight_kept p0 a p out); try done.
    + intros l' E. rewrite Hl in E, He. by injection E as <-.
    + rewrite Hl. split; [eauto|done].
Qed.

Lemma settle_pending p0 a p out l : pool_inv None p0 -> flight p0 a p out [] -> pending p !! a = Some l -> filled (queue p !! a) ->
  reservations p0 !! a = Some pool_id ->
  returns (if match pending p !! a with Some l => list_Empty l | None => false end then
             _ ← delete_pending a;
             if has_queued p a then mret tt else ignoreM (reserve pool_id a false)
           else mret tt) p (fun _ p' => settled p0 a p p').
Proof.
  intros Hi Hf Hl Hp Hr. rewrite Hl. rewrite (empty_entries (pending p !! a) true l); [|apply Hf|done]. case_bool_decide as He.
  - unfold returns, delete_pending. run_step. set (p' := set_pending _ _).
    eapply settles_mono; [apply (release_ok p0 a p' out)| |done]; [done|by apply flight_delete_pending| |done|done| |].
    + unfold p'. cbn. by rewrite lookup_delete_eq.
    + unfold has_queued, p'. cbn. rewrite lookup_delete_eq, bool_decide_eq_true. split; [auto|]. by intros [[]|?].
    + intros ? q [Q1 Q2 Q3 Q4]. split; [done|done| |done]. rewrite Q3, He. unfold p'. cbn. by rewrite lookup_delete_eq.
  - run_step. run_step. apply (flight_kept p0 a p out); try done.
    + intros l' E. rewrite Hl in E, He. by injection E as <-.
    + rewrite Hl. split; [eauto|done].
Qed.

(** ** Promotion *)

Lemma inv_reserved p a : pool_inv None p -> is_Some (pending p !! a) \/ is_Some (queue p !! a) -> reservations p !! a = Some pool_id.
Proof. intros Hi Hl. apply Hi. destruct Hl; auto. Qed.

Lemma flight_list_queue p0 a p out xs l : flight p0 a p out xs -> queue p !! a = Some l -> list_ok l (contents l).
Proof. intros Hf Hl. destruct (fl_account _ _ _ _ _ Hf) as [_ Hq _]. rewrite Hl in Hq. apply Hq. Qed.
Lemma flight_list_pending p0 a p out xs l : flight p0 a p out xs -> pending p !! a = Some l -> list_ok l (contents l).
Proof. intros Hf Hl. destruct (fl_account _ _ _ _ _ Hf) as [Hq _ _]. rewrite Hl in Hq. apply Hq. Qed.

Lemma flight_aside p0 a p p' out xs : flight p0 a p out xs -> aside genuine p p' -> flight p0 a p' out xs.
Proof.
  intros Hf [A1 A2 A3 A4 A5 A6]. destruct Hf as [F1 F2 F3 F4 F5 F6]. split.
  - etrans; [exact F1|]. split; [by rewrite A1|by rewrite A2|done].
  - congruence.
  - unfold legacypoolspec.account_at. by rewrite A1, A2.
  - auto.
  - unfold tally in *. by rewrite A1, A2.
  - by rewrite A3.
Qed.

Lemma below_from_perm n s : StronglySorted by_nonce s -> s ≡ₚ filter (fun tx => tx_Nonce tx < n) s ++ filter (fun tx => n <= tx_Nonce tx) s.
Proof. intros Hs. by rewrite <- below_from. Qed.

(** The queue keeps at most [AccountQueue] transactions of a remote account. *)
Definition capped p a : Prop :=
  accountset.contains (locals p) a = false -> Z.of_nat (length (entries (queue p !! a))) <= AccountQueue (config p).

Lemma cap_queue p0 a p out l : pool_inv None p0 -> flight p0 a p out [] -> queue p !! a = Some l -> 0 <= AccountQueue (config p) < 2 ^ 63 ->
  returns (if accountset.contains (locals p) a then mret [] else
           caps ← on_queue a (list_Cap (s64 (AccountQueue (config p))));
           _ ← remove_all caps;
           mret caps) p (fun _ p' => exists out', flight p0 a p' out' [] /\ is_Some (queue p' !! a) /\ pending p' = pending p /\ capped p' a).
Proof.
  intros Hi Hf Hl Hc. destruct (accountset.contains (locals p) a) eqn:El.
  { run_step. run_step. exists out. split; [done|]. split; [eauto|]. split; [done|]. unfold capped. by rewrite El. }
  assert (E : s64 (AccountQueue (config p)) = AccountQueue (config p)) by (unfold s64; rewrite Z.mod_small; lia). rewrite E.
  destruct (list_Cap_ok (AccountQueue (config p)) l (contents l)) as (l' & Hm & Hok & Hs); [by eapply flight_list_queue|lia|].
  eapply settles_seq; [eapply (flight_on_queue p0 a p out [] (reverse (drop (Z.to_nat (AccountQueue (config p))) (contents l)))); [done|done|exact Hm|exact Hok|done|]|].
  { rewrite <- (take_drop (Z.to_nat (AccountQueue (config p))) (contents l)) at 1. by rewrite reverse_Permutation, Permutation_app_comm. }
  intros caps p1 (-> & F1 & Q1 & C1 & P1). eapply settles_seq; [by apply (flight_remove_all p0)|].
  intros [] p2 (F2 & P2 & Q2). run_step. eexists. split; [exact F2|]. rewrite Q2, Q1. split; [eauto|]. split; [congruence|].
  intros _. rewrite Q2, Q1. cbn [entries]. rewrite C1, length_take.
  pose proof (tc_setup _ _ _ (fl_touches _ _ _ _ _ F2)) as T2. pose proof (tc_setup _ _ _ (fl_touches _ _ _ _ _ Hf)) as T1.
  rewrite (ss_config _ _ T2), <- (ss_config _ _ T1). lia.
Qed.

(** A list that is not strict has no invalidated transactions. *)
Lemma filter_lax c g l s : list_ok l s -> strict l = false ->
  exists drops l' s', list_Filter c g l = (Ok (drops, []), l') /\ list_ok l' s' /\ strict l' = strict l /\ s ≡ₚ drops ++ s'.
Proof.
  intros Hok Hs. destruct (list_Filter_ok c g l s Hok) as (drops & inv & l' & Hm & Hd & Hp & Hok' & Hs'). rewrite Hs in Hp, Hok'. unfold kept in Hp, Hok'.
  assert (inv = []) as ->; [|by eauto 10].
  pose proof (Permutation_length Hp) as Hl. rewrite (hits_misses_perm (over c g) s) in Hl at 1. rewrite <- Hd in Hl.
  rewrite !length_app in Hl. destruct inv; [done|cbn in Hl; lia].
Qed.

Lemma clean_queue a p l nonce balance limit {B} (k : list Transaction -> list Transaction -> StM pool B) Q E : pool_inv None p -> queue p !! a = Some l ->
  (forall p' out forwards drops, flight p a p' out [] -> is_Some (queue p' !! a) -> pending p' = pending p -> settles (k forwards drops) p' Q E) ->
  settles (forwards ← on_queue a (list_Forward nonce);
           _ ← remove_all forwards;
           '(drops, _) ← on_queue a (list_Filter balance limit);
           _ ← remove_all drops;
           k forwards drops) p Q E.
Proof.
  intros Hi El Hk. pose proof (flight_start a p Hi) as F0. pose proof (flight_list_queue _ _ _ _ _ _ F0 El) as Hok.
  assert (Hst : strict l = false) by (pose proof (pi_accounts _ _ _ _ _ Hi a) as [_ Hq _]; rewrite El in Hq; apply Hq).
  destruct (list_Forward_ok nonce l _ Hok) as (l1 & Hm1 & Hok1 & Hs1).
  eapply settles_seq; [eapply (flight_on_queue p a p [] []); [done|done|exact Hm1|exact Hok1|done|by apply below_from_perm, (list_ok_ascending l)]|].
  intros forwards p1 (-> & F1 & Q1 & C1 & P1). eapply settles_seq; [by apply (flight_remove_all p)|]. intros [] p2 (F2 & P2 & Q2).
  rewrite <- Q2 in Q1. destruct (filter_lax balance limit l1 _ Hok1) as (drops & l2 & s2 & Hm2 & Hok2 & Hs2 & Hp2); [congruence|].
  rewrite <- C1 in Hp2. eapply settles_seq; [eapply (flight_on_queue p a p2 _ []); [exact F2|exact Q1|exact Hm2|exact Hok2|done|exact Hp2]|].
  intros r p3 (-> & F3 & Q3 & C3 & P3). cbn beta iota. eapply settles_seq; [by apply (flight_remove_all p)|]. intros [] p4 (F4 & P4 & Q4).
  apply (Hk p4 _ _ _ F4); [rewrite Q4, Q3; eauto|congruence].
Qed.

Lemma promoteAccount_ok now a p : pool_inv None p -> 0 <= AccountQueue (config p) < 2 ^ 63 ->
  returns (promoteAccount pool_id now a) p (fun _ p' => lesser None p p' /\ touches a p p' /\ capped p' a).
Proof.
  intros Hi Hc. unfold returns, promoteAccount. run_step. destruct (queue p !! a) as [l|] eqn:El.
  2:{ run_step. split; [by split|]. split; [done|]. intros _. rewrite El. cbn. lia. }
  pose proof (inv_reserved p a Hi ltac:(rewrite El; eauto)) as Hr. apply (clean_queue a p l); [done|done|].
  intros p1 out forwards drops F1 [l1 Q1] P1. eapply settles_seq; [apply (nonces_get_ok genuine)|]. intros next p2 A2.
  pose proof (flight_aside _ _ _ _ _ _ F1 A2) as F2. destruct A2 as [A1 A2 _ _ _ _]. rewrite <- A2 in Q1.
  pose proof (flight_list_queue _ _ _ _ _ _ F2 Q1) as Hok2. destruct (list_Ready_ok next l1 _ Hok2) as (l3 & Hm3 & Hok3 & Hs3).
  eapply settles_seq; [eapply (flight_on_queue p a p2); [exact F2|exact Q1|exact Hm3|exact Hok3|done|by rewrite <- ready_prefix]|].
  intros readies p3 (-> & F3 & Q3 & C3 & P3). eapply settles_seq; [apply (promote_each_ok Sender genuine now a _ []); apply F3|].
  intros promoted p4 (-> & M4 & Q4 & Fi4 & _). pose proof (flight_moves _ _ _ _ _ _ _ F3 M4) as F4. run_step.
  rewrite <- Q4 in Q3. assert (Hc4 : 0 <= AccountQueue (config p4) < 2 ^ 63).
  { pose proof (tc_setup _ _ _ (fl_touches _ _ _ _ _ F4)) as T4. by rewrite (ss_config _ _ T4). }
  eapply settles_seq; [by apply (cap_queue p a p4 out l3)|]. intros caps p5 (out' & F5 & [l5 Q5] & P5 & K5).
  eapply settles_seq; [by apply (flight_priced p a p5)|]. intros [] p6 (F6 & P6 & Q6). run_step. rewrite <- Q6 in Q5.
  assert (Hfp : filled (pending p6 !! a)).
  { rewrite P6, P5. apply Fi4. rewrite P3, A1, P1. apply Hi. }
  eapply settles_seq; [by apply (settle_queue p a p6 out' l5)|]. intros [] q [S1 S2 S3 S4]. run_step. split; [done|]. split; [done|].
  intros Hloc. rewrite S4. pose proof (tc_setup _ _ _ S2) as T7. pose proof (tc_setup _ _ _ (fl_touches _ _ _ _ _ F5)) as T5.
  unfold capped in K5. rewrite <- Q6, (ss_locals _ _ T5), (ss_config _ _ T5) in K5. rewrite (ss_config _ _ T7). apply K5.
  by rewrite (ss_locals _ _ T7) in Hloc.
Qed.

Lemma capped_touches a b p p' : touches a p p' -> b <> a -> capped p b -> capped p' b.
Proof.
  intros [_ Tq [T1 _ _ T4]] Hne Hc Hl. rewrite Tq by done. rewrite T1. apply Hc. by rewrite <- T4.
Qed.

Lemma promoteExecutables_ok now accounts : forall p, pool_inv None p -> 0 <= AccountQueue (config p) < 2 ^ 63 ->
  returns (promoteExecutables pool_id now accounts) p (fun _ p' => lesser None p p' /\ forall a, a ∈ accounts \/ capped p a -> capped p' a).
Proof.
  induction accounts as [|a accounts IH]; intros p Hi Hc; cbn [promoteExecutables]; unfold returns.
  { run_step. split; [by split|]. intros a [[]%elem_of_nil|?]; done. }
  eapply settles_seq; [by apply promoteAccount_ok|]. intros promoted p1 (L1 & T1 & C1). pose proof L1 as (I1 & S1 & K1).
  eapply settles_seq; [apply (IH p1 I1); by rewrite (ss_config _ _ S1)|]. intros more p2 (L2 & C2). run_step.
  split; [by eapply lesser_trans|]. intros b Hb. apply C2. destruct (decide (b = a)) as [->|Hne]; [by right|].
  destruct Hb as [[->|Hb]%elem_of_cons|Hb]; [done|by left|right; by eapply capped_touches].
Qed.

(** ** Demotion *)

(** The pending transactions of an account follow its state. *)
Record executable p a : Prop := {
  ex_each : Forall (fun tx => geth_GetNonce (currentState p) a <= tx_Nonce tx /\
    Cost tx <= geth_GetBalance (currentState p) a /\ tx_Gas tx <= types.GasLimit (currentHead p)) (entries (pending p !! a));
  ex_first : entries (pending p !! a) <> [] -> geth_GetNonce (currentState p) a ∈ tx_Nonce <$> entries (pending p !! a)
}.

Lemma flight_requeue p0 a p out xs now : flight p0 a p out xs ->
  returns (requeue Sender now xs) p (fun _ p' => flight p0 a p' out [] /\ pending p' = pending p /\ (filled (queue p !! a) -> filled (queue p' !! a))).
Proof.
  intros Hf. eapply returns_mono; [apply (requeue_ok Sender genuine now a xs []); rewrite app_nil_r; apply Hf|].
  intros [] p' (M & P & Q & _). rewrite app_nil_r in M. split; [by eapply flight_moves|]. split; done.
Qed.

(** The gap in front *)
Lemma degap_ok now p0 a p out l nonce : flight p0 a p out [] -> pending p !! a = Some l -> filled (queue p !! a) ->
  returns (if match pending p !! a with
              | Some l => (0 <? list_Len l)%nat && bool_decide (Get (txs l) nonce = None)
              | None => false
              end
           then gapped ← on_pending a (list_Cap 0); requeue Sender now gapped
           else mret tt) p
    (fun _ p' => flight p0 a p' out [] /\ filled (queue p' !! a) /\
      exists l', pending p' !! a = Some l' /\ (contents l' = [] \/ contents l' = contents l /\ nonce ∈ tx_Nonce <$> contents l)).
Proof.
  intros Hf Hl Hq. pose proof (flight_list_pending _ _ _ _ _ _ Hf Hl) as Hok. rewrite Hl. rewrite (contents_len _ _ Hok).
  pose proof (held_get_none _ _ nonce (ok_held _ _ (lok_txs _ _ Hok))) as Hg. unfold Get. case_bool_decide as Hn.
  - rewrite andb_true_r. destruct (0 <? length (contents l))%nat eqn:E.
    + destruct (list_Cap_ok 0 l _ Hok) as (l' & Hm & Hok' & Hs'); [done|].
      eapply settles_seq; [eapply (flight_on_pending p0 a p out [] (reverse (contents l))); [done|done|exact Hm|exact Hok'|done|]|].
      { change (Z.to_nat 0) with 0%nat. rewrite take_0, app_nil_r. by rewrite reverse_Permutation. }
      change (Z.to_nat 0) with 0%nat. rewrite take_0, drop_0. intros gapped p1 (-> & F1 & P1 & C1 & Q1). rewrite app_nil_r in F1.
      eapply settles_mono; [by apply (flight_requeue p0 a p1 out _ now)| |done]. intros [] p2 (F2 & P2 & Q2). split; [done|]. split.
      * apply Q2. by rewrite Q1.
      * exists l'. rewrite P2. auto.
    + run_step. run_step. split; [done|]. split; [done|]. exists l. split; [done|]. left. by destruct (contents l).
  - rewrite andb_false_r. run_step. run_step. split; [done|]. split; [done|]. exists l. split; [done|]. right. split; [done|].
    destruct (decide (nonce ∈ tx_Nonce <$> contents l)); [done|]. exfalso. apply Hn. by apply Hg.
Qed.

Lemma demoteAccount_ok now a p l : pool_inv None p -> pending p !! a = Some l ->
  returns (demoteAccount Sender pool_id now a) p (fun _ p' => lesser None p p' /\ touches a p p' /\ executable p' a).
Proof.
  intros Hi El. unfold returns, demoteAccount. run_step. pose proof (flight_start a p Hi) as F0.
  pose proof (inv_reserved p a Hi ltac:(rewrite El; eauto)) as Hr. pose proof (flight_list_pending _ _ _ _ _ _ F0 El) as Hok.
  set (nonce := geth_GetNonce (currentState p) a). destruct (list_Forward_ok nonce l _ Hok) as (l1 & Hm1 & Hok1 & Hs1).
  eapply settles_seq; [eapply (flight_on_pending p a p [] []); [done|done|exact Hm1|exact Hok1|done|by apply below_from_perm, (list_ok_ascending l)]|].
  intros olds p1 (-> & F1 & P1 & C1 & Q1). eapply settles_seq; [by apply (flight_remove_all p)|]. intros [] p2 (F2 & P2 & Q2). rewrite <- P2 in P1.
  destruct (list_Filter_ok (geth_GetBalance (currentState p) a) (types.GasLimit (currentHead p)) l1 _ Hok1) as (drops & inv & l2 & Hm2 & Hd & Hp2 & Hok2 & Hs2).
  rewrite <- C1 in Hp2 at 1. rewrite app_assoc in Hp2.
  eapply settles_seq; [eapply (flight_on_pending p a p2 _ []); [exact F2|exact P1|exact Hm2|exact Hok2|done|exact Hp2]|].
  intros r p3 (-> & F3 & P3 & C3 & Q3). cbn beta iota. rewrite app_nil_r in F3. eapply settles_seq; [by apply (flight_remove_all p)|].
  intros [] p4 (F4 & P4 & Q4). rewrite <- P4 in P3. eapply settles_seq; [by apply (flight_requeue p a p4)|]. intros [] p5 (F5 & P5 & Q5). rewrite <- P5 in P3. run_step.
  eapply settles_seq; [apply (degap_ok now p a p5 _ l2 nonce F5 P3)|].
  { apply Q5. rewrite Q4, Q3, Q2, Q1. apply Hi. }
  intros [] p6 (F6 & Q6 & l6 & P6 & C6). run_step. eapply settles_mono; [by eapply (settle_pending p a p6 _ l6)| |done].
  intros [] q [S1 S2 S3 S4]. split; [done|]. split; [done|]. rewrite P6 in S3. cbn [entries] in S3.
  pose proof (tc_setup _ _ _ S2) as [_ Eh Es _]. split; rewrite S3, Es; fold nonce.
  - rewrite Eh. destruct C6 as [->|[-> _]]; [constructor|]. rewrite C3. rewrite list.Forall_forall. intros tx Htx.
    pose proof (kept_misses (strict l1) (over (geth_GetBalance (currentState p) a) (types.GasLimit (currentHead p))) (filter (fun tx => nonce <= tx_Nonce tx) (contents l))) as Hk.
    rewrite list.Forall_forall in Hk. specialize (Hk tx Htx). unfold over in Hk. eapply elem_of_sublist in Htx; [|apply kept_sublist].
    apply list_elem_of_filter in Htx as [? _]. lia.
  - destruct C6 as [->|[-> Hn]]; done.
Qed.

Lemma executable_touches a b p p' : touches a p p' -> b <> a -> executable p b -> executable p' b.
Proof. intros [Tp _ [_ T2 T3 _]] Hne [E1 E2]. split; rewrite Tp, T3 by done; [by rewrite T2|done]. Qed.

Context {RL : MapRange txList} {RLs : MapRangeSpec txList}.

Lemma range_keys {V} {MR : MapRange V} {MRs : MapRangeSpec V} (m : gmap Address V) :
  NoDup (range_entries m).*1 /\ forall a, a ∈ (range_entries m).*1 <-> is_Some (m !! a).
Proof.
  split; [|intros a]; rewrite range_entries_perm; [apply NoDup_fst_map_to_list|]. rewrite list_elem_of_fmap. split.
  - intros ([k v] & -> & Hin%elem_of_map_to_list). cbn. eauto.
  - intros [v Hv]. exists (a, v). split; [done|]. by apply elem_of_map_to_list.
Qed.

Lemma demoteUnexecutables_ok now p : pool_inv None p ->
  returns (demoteUnexecutables Sender pool_id now) p (fun _ p' => lesser None p p' /\ forall a, executable p' a).
Proof.
  intros Hi. unfold returns, demoteUnexecutables. run_step. destruct (range_keys (pending p)) as [Hn Hk].
  set (I := fun (rest : list Address) p' => lesser None p p' /\ NoDup rest /\ (forall a, a ∈ rest -> is_Some (pending p' !! a)) /\
    (forall a, a ∉ rest -> executable p' a)).
  eapply settles_mono; [apply (settles_for_each _ I (fun _ => False))| |done].
  - split; [by split|]. split; [done|]. split; [intros a; apply Hk|]. intros a Ha. rewrite Hk in Ha.
    destruct (pending p !! a) eqn:E; [exfalso; eauto|]. split; rewrite E; [constructor|done].
  - intros a rest p1 (L1 & N1 & K1 & E1). apply list.NoDup_cons in N1 as [Na N1]. destruct (K1 a) as [l Hl]; [by left|].
    eapply settles_mono; [apply (demoteAccount_ok now a p1 l); [apply L1|done]| |done]. intros [] p2 (L2 & T2 & E2).
    split; [by eapply lesser_trans|]. split; [done|]. split.
    + intros b Hb. rewrite (tc_pending _ _ _ T2); [apply K1; by right|]. by intros ->.
    + intros b Hb. destruct (decide (b = a)) as [->|Hne]; [done|]. eapply executable_touches; [done..|]. apply E1. by rewrite not_elem_of_cons.
  - intros [] p' (L & _ & _ & E). split; [done|]. intros a. apply E. apply not_elem_of_nil.
Qed.

End Pool.
End legacypoolreorg.
