(* ===== verification/LegacyPoolLimitSpec.v ===== *)
(** * The transaction pool: its limits

    [truncatePending] and [truncateQueue] end with the pool within its limits, or with no remote
    account above its own. *)

From Stdlib Require Import Sorting.Sorted.
From S2P Require Import Prelude Deps GoStd Slices CustomTypes Header ExtState Transition Processor Ordering Miner TxList TxListSpec PricedList PricedListSpec Validation LegacyPool LegacyPoolSpec LegacyPoolAddSpec LegacyPoolReorgSpec.
Import core processor txpool txlist txlistspec pricedlistspec validation legacypool legacypoolspec legacypooladd legacypoolreorg.

Module legacypoollimit.

(** ** Counting *)

Section Counts.
Context {TL : TxLib} {NR : NonceRange} {RL : MapRange txList} {RLs : MapRangeSpec txList}.
Implicit Types (m : gmap Address txList).

Lemma fold_count (xs : list (Address * txList)) : (forall a l, (a, l) ∈ xs -> list_ok l (contents l)) -> forall n, 0 <= n ->
  let total := n + Z.of_nat (foldr (fun '(_, l) n => (length (contents l) + n)%nat) 0%nat xs) in
  total < 2 ^ 64 -> fold_left (fun n '(_, l) => u64 (n + Z.of_nat (list_Len l))) xs n = total.
Proof.
  induction xs as [|[a l] xs IH]; intros Hok n Hn total Ht; cbn in *; [lia|].
  rewrite (contents_len l _ (Hok a l ltac:(left))). subst total. rewrite u64_small by (unfold is_u64; lia).
  rewrite IH; [lia|intros b l' Hin; apply (Hok b); by right|lia|lia].
Qed.

(** [count] is the number of transactions, as long as it fits. *)
Lemma count_ok m (b : bool) : (forall a, entry_ok b (m !! a)) -> Z.of_nat (msum m) < 2 ^ 64 -> count m = Z.of_nat (msum m).
Proof.
  intros Hok Hlt. assert (E : msum m = foldr (fun '(_, l) n => (length (contents l) + n)%nat) 0%nat (range_entries m)).
  { rewrite msum_fold. apply (foldr_permutation eq _ 0%nat); [|by rewrite range_entries_perm]. intros _ [? ?] _ [? ?] ? _ _ _. lia. }
  unfold count. rewrite (fold_count (range_entries m)); [by rewrite E| |lia|by rewrite <- E].
  intros a l Hin. rewrite range_entries_perm in Hin. apply elem_of_map_to_list in Hin. specialize (Hok a). rewrite Hin in Hok. apply Hok.
Qed.

End Counts.

Section Pool.
Context {UI : U256Lib} {UIs : U256LibSpec} {UA : U256Arith} {UAs : U256ArithSpec} {TL : TxLib}.
Context {NR : NonceRange} {NS : NonceRangeSpec} {HR : HashRange} {HS : HashRangeSpec}.
Context {RL : MapRange txList} {RLs : MapRangeSpec txList} {PQ : Prque} {PQs : PrqueSpec}.
Context {S : Type} {GDB : GethStateDB S} (Sender : Transaction -> result Address) (genuine : Transaction -> Prop).
Context (hash_inj : forall a b, genuine a -> genuine b -> tx_Hash a = tx_Hash b -> a = b).
Context (pool_id : nat).
Notation pool := (@LegacyPool S).
Notation sender := (legacypool.sender Sender).
Notation pool_inv := (pool_inv Sender genuine pool_id).
Notation pooled := (pooled Sender).
Notation lesser := (lesser Sender genuine pool_id).
Notation flight := (flight Sender genuine).
Implicit Types (p : pool) (a b : Address) (tx t : Transaction).

Notation plen p a := (len_at (pending p) a).
Notation ptotal p := (msum (pending p)).

(** ** [truncatePending] *)

Lemma pending_len_ok a p l : pool_inv None p -> pending p !! a = Some l ->
  returns (pending_len a) p (fun n p' => n = Z.of_nat (plen p a) /\ aside genuine p p').
Proof.
  intros Hi Hl. destruct (on_pending_same genuine a (fun l => (Ok (Z.of_nat (list_Len l)), l)) p l _ Hl eq_refl) as (p' & Hrun & A).
  eapply settles_run; [exact Hrun|]. split; [|done]. unfold len_at. rewrite Hl. cbn [entries].
  pose proof (pi_accounts _ _ _ _ _ Hi a) as [Hq _ _]. rewrite Hl in Hq. by rewrite (contents_len l _ (proj1 Hq)).
Qed.

Lemma plen_some p a : (0 < plen p a)%nat -> is_Some (pending p !! a).
Proof. unfold len_at. destruct (pending p !! a); [eauto|cbn; lia]. Qed.

Lemma flight_forget p0 a p out xs ys : pool_inv None p0 -> flight p0 a p out (xs ++ ys) ->
  returns (for_each (fun tx => _ ← all_Remove (tx_Hash tx); nonces_setIfLower a (tx_Nonce tx)) xs) p
    (fun _ p' => flight p0 a p' (out ++ xs) ys /\ pending p' = pending p /\ queue p' = queue p).
Proof.
  intros Hi. revert p out. induction xs as [|x xs IH]; intros p out Hf; cbn [for_each].
  { run_step. run_step. by rewrite app_nil_r. }
  unfold returns. apply settles_bind. pose proof (flight_remove_all Sender genuine pool_id p0 a p out [x] (xs ++ ys) Hi Hf) as H1.
  unfold remove_all, returns in H1. cbn [for_each] in H1. unfold all_Remove in *. unfold settles in H1. rewrite modifyM_bind in H1. cbn in H1.
  destruct H1 as (F1 & P1 & Q1). run_step. unfold nonces_setIfLower. run_step. set (p1 := set_nonces _ _).
  eapply settles_mono; [apply (IH p1 (out ++ [x]))| |done].
  - eapply flight_aside; [exact F1|apply nonces_aside].
  - intros [] p2 (F2 & P2 & Q2). rewrite <- app_assoc in F2. done.
Qed.

(** One transaction of an account that has more *)
Lemma drop_last_ok a n p : pool_inv None p -> (2 <= plen p a)%nat ->
  returns (drop_last a n) p (fun r p' => r = u64 (n - 1) /\ lesser None p p' /\ touches a p p' /\ (plen p' a + 1 = plen p a)%nat /\ queue p' = queue p /\
    entries (pending p' !! a) `prefix_of` entries (pending p !! a)).
Proof.
  intros Hi Hl. destruct (plen_some p a) as [l El]; [lia|]. unfold returns, drop_last. eapply settles_seq; [by eapply pending_len_ok|].
  intros len p1 (-> & A1). pose proof (flight_aside _ _ _ _ _ _ _ _ (flight_start _ _ _ a p Hi) A1) as F1.
  destruct A1 as [P1 Q1 _ _ _ _]. assert (E1 : pending p1 !! a = Some l) by (by rewrite P1).
  assert (Hln : plen p a = length (contents l)) by (unfold len_at; by rewrite El).
  destruct (list_Cap_ok (Z.of_nat (plen p a) - 1) l (contents l)) as (l' & Hm & Hok & Hs); [by eapply flight_list_pending|lia|].
  eapply settles_seq; [eapply (flight_on_pending _ _ p a p1 [] [] (reverse (drop (Z.to_nat (Z.of_nat (plen p a) - 1)) (contents l)))); [done|done|exact Hm|exact Hok|done|]|].
  { rewrite <- (take_drop (Z.to_nat (Z.of_nat (plen p a) - 1)) (contents l)) at 1. by rewrite reverse_Permutation, Permutation_app_comm. }
  intros caps p2 (-> & F2 & P2 & C2 & Q2). eapply settles_seq; [by apply (flight_forget p)|]. intros [] p3 (F3 & P3 & Q3).
  eapply settles_seq; [by eapply (flight_priced _ _ _ p)|]. intros [] p4 (F4 & P4 & Q4). run_step. split; [done|].
  assert (Hp : plen p4 a = (plen p a - 1)%nat).
  { unfold len_at at 1. rewrite P4, P3, P2. cbn [entries]. rewrite C2, length_take. lia. }
  destruct (flight_kept Sender genuine pool_id p a p4 _ Hi F4) as [K1 K2 _ _].
  - intros l4 E4. unfold len_at in Hp, Hl. rewrite E4 in Hp. cbn in Hp. intros Hn. rewrite Hn in Hp. cbn in Hp. lia.
  - rewrite Q4, Q3, Q2, Q1. apply Hi.
  - rewrite P4, P3, P2. split; [eauto|]. intros _. apply (inv_reserved _ _ _ _ _ Hi). rewrite El. eauto.
  - split; [done|]. split; [done|]. split; [lia|]. split; [congruence|]. rewrite P4, P3, P2, El. cbn [entries]. rewrite C2. apply prefix_take.
Qed.

(** Only pending transactions of these accounts are dropped. *)
Record trims (A : list Address) p p' : Prop := {
  tr_lesser : lesser None p p';
  tr_queue : queue p' = queue p;
  tr_others b : b ∉ A -> pending p' !! b = pending p !! b;
  tr_some b : is_Some (pending p !! b) -> is_Some (pending p' !! b);
  tr_prefix b : entries (pending p' !! b) `prefix_of` entries (pending p !! b)
}.
Lemma trims_trans A p1 p2 p3 : trims A p1 p2 -> trims A p2 p3 -> trims A p1 p3.
Proof. intros [T1 T2 T3 T4 T5] [U1 U2 U3 U4 U5]. split; [by eapply lesser_trans|congruence| |auto|intros b; etrans; [apply U5|apply T5]]. intros b Hb. by rewrite U3, T3. Qed.
Lemma trims_more A B p p' : A ⊆ B -> trims A p p' -> trims B p p'.
Proof. intros Hs [T1 T2 T3 T4 T5]. split; [done|done| |done|done]. intros b Hb. apply T3. auto. Qed.
Lemma trims_refl A p : pool_inv None p -> trims A p p.
Proof. intros Hi. by split; [split|..]. Qed.
Lemma trims_aside A p p' : pool_inv None p -> aside genuine p p' -> trims A p p'.
Proof. intros Hi Ha. split; [by eapply aside_lesser|apply Ha|..]; intros b; by rewrite (as_pending _ _ _ Ha). Qed.
Lemma aside_plen p p' a : aside genuine p p' -> plen p' a = plen p a.
Proof. intros Ha. by rewrite (as_pending _ _ _ Ha). Qed.

Lemma drop_lasts_ok addrs : forall p n, pool_inv None p -> NoDup addrs -> (forall a, a ∈ addrs -> (2 <= plen p a)%nat) ->
  n = Z.of_nat (ptotal p) -> n < 2 ^ 64 ->
  returns (drop_lasts addrs n) p (fun r p' => trims addrs p p' /\ r = Z.of_nat (ptotal p') /\ r <= n /\
    forall a, a ∈ addrs -> (plen p' a + 1 = plen p a)%nat).
Proof.
  induction addrs as [|a addrs IH]; intros p n Hi Hn Hl -> Hlt; cbn [drop_lasts].
  { run_step. run_step. split; [by apply trims_refl|]. split; [done|]. split; [done|]. by intros b ?%elem_of_nil. }
  apply list.NoDup_cons in Hn as [Ha Hn]. eapply settles_seq; [apply drop_last_ok; [done|apply Hl; by left]|].
  intros r p1 (-> & L1 & T1 & E1 & Q1 & X1). pose proof (msum_change (pending p) (pending p1) a (tc_pending _ _ _ T1)) as Hm.
  assert (Hne : forall b, b ∈ addrs -> b <> a) by (by intros b Hb ->).
  assert (H1 : u64 (Z.of_nat (ptotal p) - 1) = Z.of_nat (ptotal p1)) by (rewrite Z.mod_small; lia).
  eapply settles_mono; [apply (IH p1 _ (proj1 L1) Hn)| |done].
  - intros b Hb. unfold len_at. rewrite (tc_pending _ _ _ T1) by auto. apply Hl. by right.
  - exact H1.
  - lia.
  - intros r p2 (Tr & -> & Hr & E2). split; [|split; [done|split; [lia|]]].
    + eapply trims_trans; [|eapply trims_more; [|exact Tr]; set_solver]. split; [done|done|intros b Hb; apply T1; set_solver| |].
      * intros b Hb. destruct (decide (b = a)) as [->|Hb']; [|by rewrite (tc_pending _ _ _ T1)]. apply plen_some. pose proof (Hl a ltac:(left)). lia.
      * intros b. destruct (decide (b = a)) as [->|Hb']; [done|by rewrite (tc_pending _ _ _ T1)].
    + intros b [->|Hb]%elem_of_cons.
      * unfold len_at at 1. rewrite (tr_others _ _ _ Tr) by done. done.
      * rewrite E2 by done. unfold len_at. by rewrite (tc_pending _ _ _ T1) by auto.
Qed.

(** The accounts have the same number of pending transactions. *)
Definition level p (A : list Address) (k : nat) : Prop := forall a, a ∈ A -> plen p a = k.

Lemma rounds_ok fuel offenders watched threshold : NoDup offenders -> watched ∈ offenders -> forall p n k, pool_inv None p ->
  n = Z.of_nat (ptotal p) -> n < 2 ^ 64 ->
  (n <= GlobalSlots (config p) \/ level p offenders k /\ 1 <= threshold <= Z.of_nat k /\ Z.of_nat k - threshold < Z.of_nat fuel) ->
  returns (rounds fuel offenders watched threshold n) p (fun r p' => trims offenders p p' /\ r = Z.of_nat (ptotal p') /\ r <= n /\
    (r <= GlobalSlots (config p) \/ level p' offenders (Z.to_nat threshold))).
Proof.
  intros Hnd Hw. induction fuel as [|fuel IH]; intros p n k Hi Hn Hlt Hk; cbn [rounds].
  { run_step. run_step. split; [by apply trims_refl|]. destruct Hk as [?|(? & ? & ?)]; [|lia]. split; [done|]. split; [done|by left]. }
  unfold returns. run_step. destruct (n <=? GlobalSlots (config p)) eqn:Eg.
  { run_step. split; [by apply trims_refl|]. split; [done|]. split; [done|]. left. lia. }
  destruct Hk as [?|(Hlv & Ht & Hf)]; [lia|]. destruct (plen_some p watched) as [l El]; [rewrite (Hlv _ Hw); lia|].
  eapply settles_seq; [by eapply pending_len_ok|]. intros len p1 (-> & A1). rewrite (Hlv _ Hw). pose proof (trims_aside offenders p p1 Hi A1) as T1.
  assert (E1 : ptotal p1 = ptotal p) by (by rewrite (as_pending _ _ _ A1)). destruct (Z.of_nat k <=? threshold) eqn:Et.
  { run_step. split; [done|]. split; [by rewrite E1|]. split; [done|]. right. intros a Ha. rewrite (aside_plen _ _ _ A1), (Hlv a Ha). lia. }
  eapply settles_seq; [apply (drop_lasts_ok offenders p1 n)|].
  - apply T1.
  - done.
  - intros a Ha. rewrite (aside_plen _ _ _ A1), (Hlv a Ha). lia.
  - by rewrite E1.
  - done.
  - intros r p2 (T2 & -> & Hr & E2). assert (Ec : config p2 = config p).
    { destruct T1 as [(_ & [C1 _ _ _] & _) _ _ _ _]. destruct T2 as [(_ & [C2 _ _ _] & _) _ _ _ _]. congruence. }
    eapply settles_mono; [apply (IH p2 _ (k - 1)%nat)| |done].
    + apply T2.
    + done.
    + lia.
    + right. split; [|lia]. intros a Ha. specialize (E2 a Ha). rewrite (aside_plen _ _ _ A1), (Hlv a Ha) in E2. lia.
    + intros r p3 (T3 & -> & Hr' & H3). rewrite Ec in H3. split; [|split; [done|split; [lia|done]]].
      eapply trims_trans; [exact T1|]. by eapply trims_trans.
Qed.

Lemma trims_total A p p' : trims A p p' -> config p' = config p.
Proof. intros [(_ & [C _ _ _] & _) _ _ _ _]. done. Qed.
Lemma trims_plen A p p' b : trims A p p' -> b ∉ A -> plen p' b = plen p b.
Proof. intros T Hb. unfold len_at. by rewrite (tr_others _ _ _ T). Qed.

(** What is left to penalize: the accounts in the order of their lengths, below those of the offenders *)
Record spam p (offenders spammers : list Address) (k : nat) : Prop := {
  sp_nodup : NoDup (offenders ++ spammers);
  sp_sorted : StronglySorted (fun a b => (plen p b <= plen p a)%nat) spammers;
  sp_above a : a ∈ spammers -> AccountSlots (config p) < Z.of_nat (plen p a);
  sp_below a : a ∈ spammers -> (plen p a <= k)%nat;
  sp_k : AccountSlots (config p) < Z.of_nat k
}.

Lemma spam_next offenders p a rest k : spam p offenders (a :: rest) k -> spam p (offenders ++ [a]) rest (plen p a).
Proof.
  intros [S1 S2 S3 S4 S5]. apply StronglySorted_inv in S2 as [S2 Sx]. rewrite list.Forall_forall in Sx.
  split; [by rewrite <- app_assoc|done|intros b Hb; apply S3; by right|done|apply S3; by left].
Qed.

Lemma spam_trims offenders p p' spammers k : trims offenders p p' -> spam p offenders spammers k -> spam p' offenders spammers k.
Proof.
  intros T [S1 S2 S3 S4 S5]. pose proof (trims_total _ _ _ T) as Ec. apply list.NoDup_app in S1 as S1'. destruct S1' as (_ & S1' & _).
  assert (E : forall b, b ∈ spammers -> plen p' b = plen p b) by (intros b Hb; apply (trims_plen _ _ _ _ T); intros Ho; by apply (S1' b)).
  split; [done| |by intros b Hb; rewrite Ec, E; auto|by intros b Hb; rewrite E; auto|by rewrite Ec].
  clear -S2 E. induction S2 as [|x xs Hs IH Hx]; [constructor|]. constructor; [apply IH; intros b Hb; apply E; by right|].
  rewrite list.Forall_forall in *. intros y Hy. rewrite (E x), (E y); [by apply Hx|by right|by left].
Qed.

(** The earlier offenders come down to the length of the new one. *)
Lemma lower_ok offender rest offenders p n k : pool_inv None p -> n = Z.of_nat (ptotal p) -> n < 2 ^ 64 ->
  1 <= AccountSlots (config p) -> spam p offenders (offender :: rest) k -> level p offenders k ->
  returns (match list.last offenders with
           | None => mret n
           | Some watched =>
               threshold ← pending_len offender;
               len ← pending_len watched;
               rounds (Datatypes.S (Z.to_nat len)) offenders watched threshold n
           end) p (fun r p' => trims offenders p p' /\ r = Z.of_nat (ptotal p') /\ r <= n /\
             (r <= GlobalSlots (config p) \/ level p' offenders (plen p offender))).
Proof.
  intros Hi Hn Hlt Hs Hsp Hlv. destruct (list.last offenders) as [watched|] eqn:El.
  2:{ apply last_None in El as ->. run_step. run_step. split; [by apply trims_refl|]. split; [done|]. split; [done|]. right. by intros a ?%elem_of_nil. }
  assert (Hw : watched ∈ offenders) by (apply last_Some in El as [l' ->]; set_solver). pose proof (sp_nodup _ _ _ _ Hsp) as Hnd.
  apply list.NoDup_app in Hnd as (Hnd & _ & _). pose proof (sp_above _ _ _ _ Hsp offender ltac:(left)) as Ho. pose proof (sp_below _ _ _ _ Hsp offender ltac:(left)) as Hb.
  destruct (plen_some p offender) as [lo Elo]; [lia|]. eapply settles_seq; [by eapply pending_len_ok|]. intros threshold p1 (-> & A1).
  assert (I1 : pool_inv None p1) by (by eapply aside_inv). destruct (plen_some p1 watched) as [lw Elw]; [rewrite (aside_plen _ _ _ A1), (Hlv _ Hw); lia|].
  eapply settles_seq; [by eapply pending_len_ok|]. intros len p2 (-> & A2). assert (A : aside genuine p p2) by (by etrans).
  rewrite (aside_plen _ _ _ A1), (Hlv _ Hw). assert (Et : ptotal p2 = ptotal p) by (by rewrite (as_pending _ _ _ A)).
  eapply settles_mono; [apply (rounds_ok _ offenders watched _ Hnd Hw p2 n k)| |done].
  - by eapply aside_inv.
  - by rewrite Et.
  - done.
  - right. split; [intros a Ha; rewrite (aside_plen _ _ _ A); by apply Hlv|]. lia.
  - intros r p3 (T3 & -> & Hr & H3). rewrite (ss_config _ _ (as_setup _ _ _ A)), Nat2Z.id in H3. split; [|done].
    eapply trims_trans; [by apply trims_aside|done].
Qed.

Lemma penalize_ok spammers : forall offenders p n k, pool_inv None p -> n = Z.of_nat (ptotal p) -> n < 2 ^ 64 ->
  1 <= AccountSlots (config p) -> spam p offenders spammers k -> (n <= GlobalSlots (config p) \/ level p offenders k) ->
  returns (penalize spammers offenders n) p (fun r p' => trims (offenders ++ spammers) p p' /\ r.2 = Z.of_nat (ptotal p') /\ r.2 <= n /\
    (exists rest, offenders ++ spammers = r.1 ++ rest) /\
    (r.2 <= GlobalSlots (config p) \/ r.1 = offenders ++ spammers /\ exists k', level p' r.1 k' /\ AccountSlots (config p) < Z.of_nat k')).
Proof.
  induction spammers as [|offender rest IH]; intros offenders p n k Hi Hn Hlt Hs Hsp Hk; cbn [penalize]; unfold returns.
  { run_step. rewrite app_nil_r. split; [by apply trims_refl|]. split; [done|]. split; [done|]. split; [exists []; by rewrite app_nil_r|].
    destruct Hk as [?|Hk]; [by left|right]. split; [done|]. exists k. split; [done|apply Hsp]. }
  run_step. destruct (n <=? GlobalSlots (config p)) eqn:Eg.
  { run_step. split; [by apply trims_refl|]. split; [done|]. split; [done|]. split; [by eexists|]. left. cbn. lia. }
  destruct Hk as [?|Hlv]; [lia|]. eapply settles_seq; [by apply (lower_ok offender rest offenders p n k)|].
  intros r p1 (T1 & -> & Hr & H1). pose proof (trims_total _ _ _ T1) as Ec.
  assert (Ho : plen p1 offender = plen p offender).
  { apply (trims_plen _ _ _ _ T1). pose proof (sp_nodup _ _ _ _ Hsp) as Hnd. apply list.NoDup_app in Hnd as (_ & Hnd & _). intros Hin. by apply (Hnd offender Hin); left. }
  eapply settles_mono; [apply (IH (offenders ++ [offender]) p1 _ (plen p offender))| |done].
  - apply T1.
  - done.
  - lia.
  - by rewrite Ec.
  - rewrite <- Ho. eapply spam_next. by eapply spam_trims.
  - rewrite Ec. destruct H1 as [?|H1]; [by left|right]. intros a [Ha| ->%list_elem_of_singleton]%elem_of_app; auto.
  - intros [offs r] p2. cbn [fst snd]. rewrite <- app_assoc. cbn [app]. intros (T2 & -> & Hr2 & Hpre & H2). rewrite Ec in H2.
    split; [|split; [done|split; [lia|done]]]. eapply trims_trans; [|exact T2]. eapply trims_more; [|exact T1]. set_solver.
Qed.

Notation offers p := (omap (fun '(addr, l) =>
  let len := Z.of_nat (list_Len l) in
  if negb (accountset.contains (locals p) addr) && (AccountSlots (config p) <? len) then Some (addr, len) else None) (range_entries (pending p))).

Lemma omap_keys {V W} (f : Address * V -> option (Address * W)) xs : (forall x y, f x = Some y -> y.1 = x.1) -> NoDup xs.*1 -> NoDup (omap f xs).*1.
Proof.
  intros Hf. induction xs as [|x xs IH]; intros Hn; [constructor|]. apply list.NoDup_cons in Hn as [Hx Hn]. cbn.
  destruct (f x) as [y|] eqn:E; [|by apply IH]. cbn. apply list.NoDup_cons. split; [|by apply IH].
  intros (z & Ez & (x' & Hin & E')%list_elem_of_omap)%list_elem_of_fmap. apply Hx. rewrite <- (Hf _ _ E), Ez, (Hf _ _ E'). by apply list_elem_of_fmap_2.
Qed.

Lemma offers_in p a q : pool_inv None p -> (a, q) ∈ offers p <->
  accountset.contains (locals p) a = false /\ AccountSlots (config p) < Z.of_nat (plen p a) /\ q = Z.of_nat (plen p a) /\ is_Some (pending p !! a).
Proof.
  intros Hi. rewrite list_elem_of_omap. unfold len_at. split.
  - intros ([b l] & Hin & E). rewrite range_entries_perm in Hin. apply elem_of_map_to_list in Hin. cbn in E.
    destruct (_ && _) eqn:Ec; [|done]. injection E as -> <-. rewrite Hin. cbn [entries].
    pose proof (pi_accounts _ _ _ _ _ Hi a) as [Hq _ _]. rewrite Hin in Hq. rewrite (contents_len l _ (proj1 Hq)) in *.
    apply andb_true_iff in Ec as [E1 E2]. apply negb_true_iff in E1. split; [done|]. split; [lia|]. split; [done|]. eauto.
  - intros (E1 & E2 & -> & [l El]). exists (a, l). split; [rewrite range_entries_perm; by apply elem_of_map_to_list|].
    pose proof (pi_accounts _ _ _ _ _ Hi a) as [Hq _ _]. rewrite El in *. rewrite (contents_len l _ (proj1 Hq)). cbn [entries] in *. rewrite E1. cbn.
    by rewrite (proj2 (Z.ltb_lt _ _) E2).
Qed.

Lemma sorted_lookup {A} (R : A -> A -> Prop) l : (forall i j x y, (i <= j)%nat -> l !! i = Some x -> l !! j = Some y -> R x y) -> StronglySorted R l.
Proof.
  induction l as [|x l IH]; intros H; [constructor|]. constructor; [apply IH; intros i j a b Hij Ha Hb; by apply (H (Datatypes.S i) (Datatypes.S j)); [lia|..]|].
  rewrite list.Forall_forall. intros y [j Hj]%list_elem_of_lookup. by apply (H 0%nat (Datatypes.S j)); [lia|..].
Qed.

Lemma spam_start p : pool_inv None p -> 1 <= AccountSlots (config p) ->
  spam p [] (prque_pops (offers p)) (ptotal p + Z.to_nat (AccountSlots (config p)) + 1).
Proof.
  intros Hi Hs. assert (Hnd : NoDup (offers p).*1).
  { apply omap_keys; [|by apply range_keys]. intros [b l] y. cbn. destruct (_ && _); [by intros [= <-]|done]. }
  assert (Hin : forall a, a ∈ prque_pops (offers p) -> (a, Z.of_nat (plen p a)) ∈ offers p).
  { intros a Ha. rewrite prque_perm in Ha. apply list_elem_of_fmap in Ha as ([b q] & -> & Hq). cbn. pose proof Hq as Hq'.
    apply offers_in in Hq' as (_ & _ & -> & _); [exact Hq|done]. }
  split; cbn [app].
  - by rewrite prque_perm.
  - apply sorted_lookup. intros i j a b Hij Ha Hb. apply Nat2Z.inj_le. apply (prque_sorted (offers p) i j a b Ha Hb Hij); [..|done]; apply Hin.
    + by eapply list_elem_of_lookup_2.
    + by eapply list_elem_of_lookup_2.
  - intros a Ha. by apply Hin, offers_in in Ha as (_ & ? & _).
  - intros a Ha. pose proof (msum_ge (pending p) a). lia.
  - lia.
Qed.

(** Remote accounts only; the pool ends within its limit, or each of them within its own. *)
Record pending_limits p p' : Prop := {
  pl_lesser : lesser None p p';
  pl_queue : queue p' = queue p;
  pl_total : (ptotal p' <= ptotal p)%nat;
  pl_prefix a : entries (pending p' !! a) `prefix_of` entries (pending p !! a);
  pl_locals a : accountset.contains (locals p) a = true -> pending p' !! a = pending p !! a;
  pl_limit : Z.of_nat (ptotal p') <= GlobalSlots (config p) \/
    forall a, accountset.contains (locals p) a = false -> Z.of_nat (plen p' a) <= AccountSlots (config p)
}.

Lemma limits_trims p p' : pool_inv None p -> 1 <= AccountSlots (config p) -> trims (prque_pops (offers p)) p p' -> (ptotal p' <= ptotal p)%nat ->
  (Z.of_nat (ptotal p') <= GlobalSlots (config p) \/ forall a, a ∈ prque_pops (offers p) -> Z.of_nat (plen p' a) <= AccountSlots (config p)) ->
  pending_limits p p'.
Proof.
  intros Hi Hs1 [T Q O _ X] Ht Hl. assert (Hin : forall a, a ∈ prque_pops (offers p) <-> exists q, (a, q) ∈ offers p).
  { intros a. rewrite prque_perm, list_elem_of_fmap. split; [intros ([b q] & -> & Hq); eauto|intros [q Hq]; by exists (a, q)]. }
  split; [done|done|done|done| |].
  - intros a Ha. apply O. intros [q Hq]%Hin. apply offers_in in Hq as (Hf & _); [congruence|done].
  - destruct Hl as [?|Hl]; [by left|right]. intros a Ha. destruct (decide (a ∈ prque_pops (offers p))) as [Hs|Hs]; [by apply Hl|].
    unfold len_at. rewrite O by done. destruct (Z.le_gt_cases (Z.of_nat (plen p a)) (AccountSlots (config p))) as [?|Hgt]; [done|].
    exfalso. apply Hs, Hin. exists (Z.of_nat (plen p a)). apply offers_in; [done|].
    split; [done|]. split; [done|]. split; [done|]. apply plen_some. lia.
Qed.

Lemma truncatePending_ok p : pool_inv None p -> Z.of_nat (ptotal p) < 2 ^ 64 -> 1 <= AccountSlots (config p) ->
  returns truncatePending p (fun _ p' => pending_limits p p').
Proof.
  intros Hi Hlt Hs. unfold returns, truncatePending. run_step. rewrite (count_ok _ true); [|intros a; apply Hi|done].
  destruct (_ <=? _) eqn:Eg; [run_step; split; [by split|done|done|done|done|left; lia]|].
  pose proof (spam_start p Hi Hs) as Hsp. pose proof (limits_trims p) as Hdone. set (spammers := prque_pops _) in *.
  eapply settles_seq; [apply (penalize_ok spammers [] p _ _ Hi eq_refl Hlt Hs Hsp); right; by intros a ?%elem_of_nil|].
  cbn [app]. intros [offs n] p1. cbn [fst snd]. intros (T1 & -> & Hn & [rest Hpre] & H1). cbn beta iota.
  destruct (list.last offs) as [last|] eqn:El.
  2:{ run_step. apply last_None in El as ->. apply Hdone; [done..|lia|]. destruct H1 as [?|(H1 & _)]; [by left|right]. rewrite <- H1. by intros a ?%elem_of_nil. }
  assert (Hin : last ∈ offs) by (apply last_Some in El as [l' ->]; set_solver). pose proof (sp_nodup _ _ _ _ Hsp) as Hnd. cbn [app] in Hnd.
  rewrite Hpre in Hnd. apply list.NoDup_app in Hnd as (Hnd & _ & _). assert (Hsub : offs ⊆ spammers) by (rewrite Hpre; set_solver).
  destruct (tr_some _ _ _ T1 last) as [l Hl].
  { apply plen_some. pose proof (sp_above _ _ _ _ Hsp last (Hsub _ Hin)). lia. }
  eapply settles_seq; [eapply pending_len_ok; [apply T1|exact Hl]|]. intros len p2 (-> & A2). pose proof (trims_aside offs p1 p2 ltac:(apply T1) A2) as T2.
  assert (E2 : ptotal p2 = ptotal p1) by (by rewrite (as_pending _ _ _ A2)).
  pose proof (trims_total _ _ _ T1) as C1. pose proof (trims_total _ _ _ T2) as C2.
  eapply settles_seq; [apply (rounds_ok _ offs last _ Hnd Hin p2 _ (plen p1 last))|].
  - apply T2.
  - by rewrite E2.
  - lia.
  - rewrite C2, C1. destruct H1 as [?|(H1 & k & Hk & Hgt)]; [left; lia|right]. split; [|rewrite (Hk _ Hin); lia].
    intros a Ha. by rewrite (aside_plen _ _ _ A2), !Hk.
  - intros r p3 (T3 & -> & Hr & H3). run_step. rewrite C2, C1 in H3. apply Hdone; [done|done| |lia|].
    + eapply trims_trans; [exact T1|]. eapply trims_more; [exact Hsub|]. by eapply trims_trans.
    + destruct H3 as [?|H3]; [by left|]. destruct H1 as [?|(H1 & _)]; [left; lia|right]. rewrite <- H1. intros a Ha. rewrite (H3 a Ha). lia.
Qed.

(** ** [truncateQueue] *)

Notation qlen p a := (len_at (queue p) a).
Notation qtotal p := (msum (queue p)).

(** Queued transactions of one account are removed, and nothing else. *)
Record unqueues a (xs : list Transaction) p p' : Prop := {
  uq_lesser : lesser None p p';
  uq_touches : touches a p p';
  uq_pending : entries (pending p' !! a) = entries (pending p !! a);
  uq_queue : entries (queue p !! a) ≡ₚ xs ++ entries (queue p' !! a)
}.

Lemma unqueues_refl a p : pool_inv None p -> unqueues a [] p p.
Proof. intros Hi. split; [by split|done|done|done]. Qed.
Lemma unqueues_trans a xs ys p1 p2 p3 : unqueues a xs p1 p2 -> unqueues a ys p2 p3 -> unqueues a (xs ++ ys) p1 p3.
Proof. intros [U1 U2 U3 U4] [V1 V2 V3 V4]. split; [by eapply lesser_trans|by etrans|congruence|perm]. Qed.

Lemma remove_queued_ok now a xs : forall p, pool_inv None p -> NoDup xs -> Forall (fun tx => tx ∈ entries (queue p !! a)) xs ->
  returns (remove_each Sender pool_id now xs) p (fun _ p' => unqueues a xs p p').
Proof.
  induction xs as [|x xs IH]; intros p Hi Hn Hx; unfold returns, remove_each; cbn [for_each]; [run_step; by apply unqueues_refl|].
  apply list.NoDup_cons in Hn as [Hnx Hn]. apply list.Forall_cons in Hx as [Hx Hxs].
  assert (Hin : x ∈ tally p a) by (apply elem_of_app; by right). destruct (pooled_sender Sender genuine p x a) as [Hs _]; [apply Hi|done|].
  assert (Hg : lookup.Get (all p) (tx_Hash x) = Some x).
  { apply (lk_get _ _ (pi_all _ _ _ _ _ Hi)). split; [done|]. unfold legacypoolspec.pooled. by rewrite Hs. }
  apply settles_bind. eapply settles_seq; [by apply (removeTx_known Sender genuine pool_id now _ _ _ None p x)|].
  intros n p1 (I1 & R1). pose proof (removes_shrinks _ _ _ _ R1) as K1. destruct R1 as (T1 & P1 & E1). rewrite Hs in *. run_step.
  assert (U1 : unqueues a [x] p p1).
  { split; [split; [done|split; [apply T1|done]]|done|by apply E1|]. unfold tally in P1. rewrite (E1 Hx) in P1. perm. }
  eapply settles_mono; [apply (IH p1 I1 Hn)| |done].
  - rewrite list.Forall_forall in *. intros y Hy. specialize (Hxs y Hy). rewrite (uq_queue _ _ _ _ U1) in Hxs.
    apply elem_of_app in Hxs as [->%list_elem_of_singleton|?]; [done|done].
  - intros [] p2 U2. by apply (unqueues_trans a [x] xs p p1 p2).
Qed.

Lemma flatten_queue_ok a p l : pool_inv None p -> queue p !! a = Some l ->
  returns (on_queue a list_Flatten) p (fun s p' => s = entries (queue p !! a) /\ unqueues a [] p p').
Proof.
  intros Hi Hl. pose proof (flight_start Sender genuine pool_id a p Hi) as F0. pose proof (flight_list_queue _ _ _ _ _ _ _ _ F0 Hl) as Hok.
  destruct (list_Flatten_ok l _ Hok) as (l' & Hm & Hok' & Hs).
  eapply returns_mono; [by eapply (flight_on_queue _ _ p a p [] [] [])|]. intros s p1 (-> & F1 & Q1 & C1 & P1). rewrite Hl. split; [done|].
  assert (Ec : entries (queue p1 !! a) = entries (queue p !! a)) by (by rewrite Q1, Hl).
  destruct (flight_kept Sender genuine pool_id p a p1 _ Hi F1) as [S1 S2 S3 S4].
  - rewrite P1. apply Hi.
  - intros l1 E1. rewrite Q1 in E1. injection E1 as <-. rewrite C1. by apply (pi_queue _ _ _ _ _ Hi a).
  - rewrite P1, Q1. pose proof (pi_reserved _ _ _ _ _ Hi a) as Hr. unfold reserved_ok in Hr. rewrite Hr, Hl. naive_solver.
  - split; [done|done|by rewrite P1|by rewrite Ec].
Qed.

Lemma queue_size_ok a p l : pool_inv None p -> queue p !! a = Some l ->
  returns (on_queue a (fun l => (Ok (Z.of_nat (list_Len l)), l))) p (fun n p' => n = Z.of_nat (qlen p a) /\ aside genuine p p').
Proof.
  intros Hi Hl. unfold returns, settles, on_queue. rewrite Hl. cbn. split.
  - unfold len_at. rewrite Hl. pose proof (pi_accounts _ _ _ _ _ Hi a) as [_ Hq _]. rewrite Hl in Hq. by rewrite (contents_len l _ (proj1 Hq)).
  - rewrite insert_id by done. by destruct p.
Qed.

Lemma queue_nodup p a : pool_inv None p -> NoDup (entries (queue p !! a)).
Proof.
  intros Hi. pose proof (pi_accounts _ _ _ _ _ Hi a) as [_ Hq _]. destruct (queue p !! a) as [l|]; [|constructor]. destruct Hq as [Hq _].
  apply list_ok_ascending, ascending_nodup, NoDup_fmap_1 in Hq. exact Hq.
Qed.

(** Queued transactions of these accounts are removed. *)
Record clears (A : list Address) p p' : Prop := {
  cl_lesser : lesser None p p';
  cl_pending b : entries (pending p' !! b) = entries (pending p !! b);
  cl_others b : b ∉ A -> queue p' !! b = queue p !! b
}.
Lemma clears_refl A p : pool_inv None p -> clears A p p.
Proof. intros Hi. split; [by split|done|done]. Qed.
Lemma clears_trans A p1 p2 p3 : clears A p1 p2 -> clears A p2 p3 -> clears A p1 p3.
Proof. intros [T1 T2 T3] [U1 U2 U3]. split; [by eapply lesser_trans|congruence|]. intros b Hb. by rewrite U3, T3. Qed.
Lemma clears_more A B p p' : A ⊆ B -> clears A p p' -> clears B p p'.
Proof. intros Hs [T1 T2 T3]. split; [done|done|]. intros b Hb. apply T3. auto. Qed.
Lemma unqueues_clears a xs p p' : unqueues a xs p p' -> clears [a] p p'.
Proof.
  intros [U1 U2 U3 U4]. split; [done| |].
  - intros b. destruct (decide (b = a)) as [->|Hne]; [done|]. by rewrite (tc_pending _ _ _ U2).
  - intros b Hb. apply U2. set_solver.
Qed.

Lemma unqueues_total a xs p p' : unqueues a xs p p' -> (qtotal p' + length xs = qtotal p)%nat.
Proof.
  intros U. pose proof (msum_change (queue p) (queue p') a (tc_queue _ _ _ (uq_touches _ _ _ _ U))) as Hm. unfold len_at in Hm.
  rewrite (uq_queue _ _ _ _ U), length_app in Hm. lia.
Qed.

Lemma aside_unqueues a p p' : pool_inv None p -> aside genuine p p' -> unqueues a [] p p'.
Proof.
  intros Hi A. split; [by eapply aside_lesser| |by rewrite (as_pending _ _ _ A)|by rewrite (as_queue _ _ _ A)].
  split; [by rewrite (as_pending _ _ _ A)|by rewrite (as_queue _ _ _ A)|apply A].
Qed.

Lemma drop_account_ok now a k p l {B} (K : Z -> StM pool B) Q E : pool_inv None p -> queue p !! a = Some l -> 0 < k ->
  (forall ys p', unqueues a ys p p' -> entries (queue p' !! a) = [] \/ Z.of_nat (length ys) = k -> settles (K (k - Z.of_nat (length ys))) p' Q E) ->
  settles (size ← on_queue a (fun l => (Ok (Z.of_nat (list_Len l)), l));
           txs ← on_queue a list_Flatten;
           if size <=? k then
             _ ← remove_each Sender pool_id now txs;
             K (k - size)
           else
             _ ← remove_each Sender pool_id now (take (Z.to_nat k) (reverse txs));
             K (k - Z.of_nat (length (take (Z.to_nat k) (reverse txs))))) p Q E.
Proof.
  intros Hi El Hk HK. eapply settles_seq; [by eapply queue_size_ok|]. intros size p0 (-> & A0). pose proof (aside_unqueues a p p0 Hi A0) as U0.
  assert (I0 : pool_inv None p0) by apply U0. assert (Eq : queue p0 = queue p) by apply A0.
  eapply settles_seq; [eapply flatten_queue_ok; [done|by rewrite Eq]|]. intros xs p1 (-> & U1). rewrite Eq.
  assert (U : unqueues a [] p p1) by (by apply (unqueues_trans a [] [] p p0 p1)). assert (I1 : pool_inv None p1) by apply U.
  pose proof (queue_nodup p a Hi) as Hnd. assert (Hin : forall ys, ys ⊆ entries (queue p !! a) -> Forall (fun tx => tx ∈ entries (queue p1 !! a)) ys).
  { intros ys Hy. rewrite list.Forall_forall. intros y Hyin. rewrite <- (uq_queue _ _ _ _ U : _ ≡ₚ entries (queue p1 !! a)). auto. }
  assert (Hnext : forall ys p2, unqueues a ys p1 p2 -> unqueues a ys p p2) by (intros ys p2 U2; by apply (unqueues_trans a [] ys p p1 p2)).
  destruct (_ <=? k) eqn:Ec.
  - eapply settles_seq; [apply (remove_queued_ok now a (entries (queue p !! a)) p1); [done|done|by apply Hin]|].
    intros [] p2 U2. apply Hnext in U2. apply (HK _ _ U2). left. pose proof (Permutation_length (uq_queue _ _ _ _ U2)) as Hl.
    rewrite length_app in Hl. apply length_zero_iff_nil. lia.
  - eapply settles_seq; [apply (remove_queued_ok now a (take (Z.to_nat k) (reverse (entries (queue p !! a)))) p1); [done| |apply Hin]|].
    + assert (Hr : NoDup (reverse (entries (queue p !! a)))) by (by rewrite reverse_Permutation).
      rewrite <- (take_drop (Z.to_nat k) (reverse _)) in Hr. by apply list.NoDup_app in Hr as [? _].
    + intros y Hy. apply elem_of_take in Hy as (i & Hi' & _). apply list_elem_of_lookup_2 in Hi'. by apply elem_of_reverse.
    + intros [] p2 U2. apply (HK _ _ (Hnext _ _ U2)). right. unfold len_at in Ec. rewrite length_take, length_reverse. lia.
Qed.

Lemma drop_queued_ok now addresses : forall p drop, pool_inv None p -> NoDup addresses -> (forall a, a ∈ addresses -> is_Some (queue p !! a)) ->
  returns (drop_queued Sender pool_id now addresses drop) p (fun _ p' => clears addresses p p' /\ (qtotal p' <= qtotal p)%nat /\
    (Z.of_nat (qtotal p') <= Z.of_nat (qtotal p) - drop \/ forall a, a ∈ addresses -> entries (queue p' !! a) = [])).
Proof.
  induction addresses as [|a addresses IH]; intros p k Hi Hn Hs; cbn [drop_queued]; unfold returns.
  { run_step. split; [by apply clears_refl|]. split; [done|]. right. by intros a ?%elem_of_nil. }
  destruct (k <=? 0) eqn:Ek; [run_step; split; [by apply clears_refl|split; [done|left; lia]]|].
  apply list.NoDup_cons in Hn as [Ha Hn]. destruct (Hs a) as [l El]; [by left|]. apply (drop_account_ok now a k p l); [done|done|lia|].
  intros ys p1 U1 Hor. pose proof (unqueues_total _ _ _ _ U1) as Ht. pose proof (unqueues_clears _ _ _ _ U1) as C1.
  eapply settles_mono; [apply (IH p1)| |done].
  - apply C1.
  - done.
  - intros b Hb. rewrite (cl_others _ _ _ C1); [apply Hs; by right|]. by intros ->%list_elem_of_singleton.
  - intros [] p2 (C2 & Ht2 & H2). split; [|split; [lia|]].
    + eapply clears_trans; [eapply clears_more; [|exact C1]|eapply clears_more; [|exact C2]]; set_solver.
    + destruct H2 as [?|H2]; [left; lia|]. destruct Hor as [Hor|Hor]; [right|left; lia].
      intros b [->|Hb]%elem_of_cons; [|by apply H2]. by rewrite (cl_others _ _ _ C2).
Qed.

(** The remote accounts, the pool ends within its limit or they have nothing queued. *)
Lemma truncateQueue_ok now p : pool_inv None p -> Z.of_nat (qtotal p) < 2 ^ 64 ->
  returns (truncateQueue Sender pool_id now) p (fun _ p' => lesser None p p' /\ (forall a, entries (pending p' !! a) = entries (pending p !! a)) /\
    (qtotal p' <= qtotal p)%nat /\ (forall a, accountset.contains (locals p) a = true -> queue p' !! a = queue p !! a) /\
    (Z.of_nat (qtotal p') <= GlobalQueue (config p) \/
     forall a, accountset.contains (locals p) a = false -> entries (queue p' !! a) = [])).
Proof.
  intros Hi Hlt. unfold returns, truncateQueue. run_step. rewrite (count_ok _ false); [|intros a; apply Hi|done].
  destruct (_ <=? _) eqn:Eg; [run_step; split; [by split|]; split; [done|]; split; [done|]; split; [done|left; lia]|].
  set (f := fun '(addr, _) => if accountset.contains (locals p) addr then None else Some (addr, default 0 (beats p !! addr))).
  set (xs := omap f (range_entries (queue p))). destruct (range_keys (queue p)) as [Hn Hk].
  assert (Hperm : (reverse (sort.Sort (fun a b : Address * Z => b.2 <? a.2) xs)).*1 ≡ₚ xs.*1) by (by rewrite reverse_Permutation, sort.Sort_Permutation).
  assert (Hin : forall a, a ∈ xs.*1 <-> accountset.contains (locals p) a = false /\ is_Some (queue p !! a)).
  { intros a. unfold xs. rewrite <- Hk, !list_elem_of_fmap. split.
    - intros ([b q] & -> & ([c l] & Hin & E)%list_elem_of_omap). cbn in *. destruct (accountset.contains (locals p) c) eqn:Ec; [done|].
      injection E as -> _. split; [done|]. by exists (b, l).
    - intros (Hc & ([b l] & -> & Hb)). exists (b, default 0 (beats p !! b)). split; [done|]. apply list_elem_of_omap. exists (b, l). cbn in *. by rewrite Hc. }
  eapply settles_mono; [apply (drop_queued_ok now _ p _ Hi)| |done].
  - rewrite Hperm. apply omap_keys; [|done]. intros [b l] y. cbn. by destruct (accountset.contains (locals p) b); [|intros [= <-]].
  - intros a. rewrite Hperm. intros Ha. by apply Hin in Ha as [_ ?].
  - intros [] p' (C & Ht & H). split; [apply C|]. split; [apply C|]. split; [done|]. split.
    + intros a Ha. apply C. rewrite Hperm, Hin. intros [? _]. congruence.
    + destruct H as [?|H]; [left; lia|right]. intros a Ha. destruct (decide (is_Some (queue p !! a))) as [Hs|Hs].
      * apply H. rewrite Hperm. by apply Hin.
      * rewrite (cl_others _ _ _ C); [by destruct (queue p !! a); [destruct Hs; eauto|]|]. rewrite Hperm, Hin. tauto.
Qed.

End Pool.
End legacypoollimit.
