(* ===== verification/LegacyPoolStepSpec.v ===== *)
(** * The transaction pool: its operations

    Every operation of the pool keeps the invariant and never panics, from [New] on: [Add], the
    reorg loop, the eviction timer, the setters and [Pending]. *)

From Stdlib Require Import Sorting.Sorted.
From S2P Require Import Prelude Deps GoStd Slices CustomTypes Lp176 Fees Header ExtState Transition Processor Ordering Miner TxList TxListSpec PricedList PricedListSpec Validation LegacyPool LegacyPoolSpec LegacyPoolAddSpec LegacyPoolReorgSpec LegacyPoolLimitSpec.
Import core processor txpool txlist txlistspec pricedlistspec validation legacypool legacypoolspec legacypooladd legacypoolreorg legacypoollimit.

Module legacypoolstep.

Section Pool.
Context {SM : SafeMath} {GL : GasLib} {UI : U256Lib} {UIs : U256LibSpec} {UA : U256Arith} {UAs : U256ArithSpec} {TL : TxLib} {BB : BlobLib} {SL : SidecarLib}.
Context {NR : NonceRange} {NS : NonceRangeSpec} {HR : HashRange} {HS : HashRangeSpec}.
Context {RL : MapRange txList} {RLs : MapRangeSpec txList} {RU : MapRange unit} {RS : MapRange sortedMap} {PQ : Prque} {PQs : PrqueSpec}.
Context {S Ctx : Type} {GDB : GethStateDB S} (Sender : Transaction -> result Address) (genuine : Transaction -> Prop).
Context (hash_inj : forall a b, genuine a -> genuine b -> tx_Hash a = tx_Hash b -> a = b).
Context (chainconfig : ForkConfig Ctx) (Header_Hash : types.Header -> Hash).
Context (StateAt : Hash -> result S) (GetBlock : Hash -> Z -> option (Block Transaction)) (CurrentBlock : types.Header).
Context (pool_id : nat).
(** The calls into the chain and its precompiles return. *)
Context (Sender_returns : forall tx, Sender tx <> Panic) (StateAt_returns : forall root, StateAt root <> Panic).
Context (predicates_return : forall number time a c data,
  Predicaters (cc_Rules (fc_chain chainconfig) number time) !! a = Some c -> PredicateGas c data <> Panic).
Notation pool := (@LegacyPool S).
Notation sender := (legacypool.sender Sender).
Notation pool_inv := (pool_inv Sender genuine pool_id).
Notation pooled := (pooled Sender).
Notation lesser := (lesser Sender genuine pool_id).
Notation wf_tx := (wf_tx genuine).
Notation room := (room Sender).
Implicit Types (p : pool) (a b : Address) (tx t : Transaction).

(** ** Validation *)

Lemma result_bind_returns {A B} (r : result A) (k : A -> result B) : r <> Panic -> (forall x, k x <> Panic) -> (r ≫= k) <> Panic.
Proof. destruct r; cbn; auto. Qed.
Lemma fail_if_returns (b : bool) e : fail_if b e <> Panic.
Proof. by destruct b. Qed.
Lemma addGas_returns x y : addGas x y <> Panic.
Proof. unfold addGas. destruct (SafeAdd x y) as [? []]; done. Qed.
Lemma chargeGas_returns x y z : chargeGas x y z <> Panic.
Proof. unfold chargeGas. by case_match. Qed.

Lemma IntrinsicGas_returns data accessList create number time :
  IntrinsicGas data accessList create (cc_Rules (fc_chain chainconfig) number time) <> Panic.
Proof.
  unfold IntrinsicGas. apply result_bind_returns; [|intros gas; apply result_bind_returns; [|intros; apply addGas_returns]].
  - unfold dataGas. case_match; [|done]. repeat (apply result_bind_returns; [apply chargeGas_returns|intros ?]). case_match; [apply chargeGas_returns|done].
  - unfold accessListGas. case_match; [done|]. generalize 0. induction accessList as [|t ts IH]; intros g; cbn [predicatedGas]; [done|].
    apply result_bind_returns; [|done]. destruct (Predicaters _ !! _) as [c|] eqn:E; [|apply addGas_returns].
    apply result_bind_returns; [by eapply predicates_return|intros; apply addGas_returns].
Qed.

(** A blob transaction is not of a type the pool accepts. *)
Lemma validateTxBasics_returns p tx local : validateTxBasics Sender chainconfig p tx local <> Panic.
Proof.
  unfold validateTxBasics, ValidateTransaction. cbn [Accept validation.Config MaxSize MinTip]. destruct (Z.land _ (type_bit (tx_Type tx)) =? 0) eqn:Ea; [done|].
  repeat (apply result_bind_returns; [apply fail_if_returns|intros _]).
  apply result_bind_returns; [pose proof (Sender_returns tx); by destruct (Sender tx)|intros _].
  apply result_bind_returns; [apply IntrinsicGas_returns|intros ?]. repeat (apply result_bind_returns; [apply fail_if_returns|intros _]).
  case_match eqn:Eb; [|done]. apply Z.eqb_eq in Eb. by rewrite Eb in Ea.
Qed.

(** ** [Add] *)

Lemma screen_ok p txs local : exists errs news, screen Sender chainconfig p txs local = Ok (errs, news) /\
  length errs = length txs /\ sublist news txs.
Proof.
  induction txs as [|tx txs (errs & news & E & Hl & Hs)]; cbn [screen]; [by exists [], []|].
  case_bool_decide; [rewrite E; eexists _, _; split; [done|]; cbn; split; [lia|by constructor]|].
  pose proof (validateTxBasics_returns p tx local) as Hv. destruct (validateTxBasics _ _ p tx local); [| |done];
    rewrite E; eexists _, _; (split; [done|]); cbn; (split; [lia|by constructor]).
Qed.

Lemma fill_length errs news : length (fill_errors errs news) = length errs.
Proof. revert news. induction errs as [|[e|] errs IH]; intros [|n news]; cbn; f_equal; done. Qed.

Lemma room_sublist p txs news : Forall wf_tx txs -> room p txs -> sublist news txs -> Forall wf_tx news /\ room p news.
Proof.
  intros Hw Hr Hs. split; [by eapply Forall_sublist|]. intros a. specialize (Hr a). enough (H : total_cost (filter (fun tx => sender tx = a) news) <= total_cost (filter (fun tx => sender tx = a) txs)) by lia.
  clear Hr. induction Hs as [|x news txs Hs IH|x news txs Hs IH]; [done|..]; apply list.Forall_cons in Hw as [(_ & _ & Hx) Hw]; specialize (IH Hw);
    rewrite !filter_cons; case_decide; try done; cbn [total_cost foldr] in *; unfold total_cost in *; cbn [foldr]; lia.
Qed.

Lemma pool_Add_ok now txs local p : pool_inv None p -> Forall wf_tx txs -> room p txs ->
  returns (Add Sender chainconfig pool_id now txs local) p (fun r p' => pool_inv None p' /\ steady p p' /\ length (fst r) = length txs).
Proof.
  intros Hi Hw Hr. unfold returns, Add. run_step. set (isLocal := local && _). run_step.
  destruct (screen_ok p txs isLocal) as (errs & news & -> & Hl & Hs). cbn beta iota.
  destruct (room_sublist p txs news Hw Hr Hs) as [Hw' Hr']. destruct news as [|n news]; [by run_step|].
  eapply settles_seq; [by apply (addTxsLocked_ok Sender genuine hash_inj pool_id Sender_returns)|]. intros [newErrs dirty] p1 (I1 & S1 & _ & _).
  cbn beta iota. run_step. split; [done|]. split; [done|]. cbn. by rewrite fill_length.
Qed.

(** ** [reset] *)

Notation ptotal p := (msum (pending p)).
Notation qtotal p := (msum (queue p)).
Notation plen p a := (len_at (pending p) a).

(** The transactions a reset puts back *)
Definition reinjection (oldHead newHead : option types.Header) : list Transaction :=
  match oldHead, newHead with
  | Some oldHead, Some newHead => default [] (reinjected Header_Hash GetBlock oldHead newHead)
  | _, _ => []
  end.

Lemma reset_ok now oldHead newHead p : pool_inv None p -> (is_Some oldHead -> is_Some newHead) ->
  Forall wf_tx (reinjection oldHead newHead) -> room p (reinjection oldHead newHead) ->
  returns (reset Sender Header_Hash StateAt GetBlock CurrentBlock pool_id now oldHead newHead) p
    (fun _ p' => pool_inv None p' /\ config p' = config p /\ (pool_size p' <= pool_size p + length (reinjection oldHead newHead))%nat).
Proof.
  intros Hi Hh Hw Hr. unfold returns, reset. run_step.
  assert (Hdone : forall xs, Forall wf_tx xs -> room p xs -> (length xs <= length (reinjection oldHead newHead))%nat ->
    settles (match StateAt (types.Root (default CurrentBlock newHead)) with
             | Panic => lift Panic
             | Err _ => mret tt
             | Ok statedb =>
                 _ ← modifyM (fun p => set_head p (default CurrentBlock newHead) statedb (newNoncer statedb));
                 _ ← addTxsLocked Sender pool_id now xs false accountset.newAccountSet;
                 mret tt
             end) p (fun _ p' => pool_inv None p' /\ config p' = config p /\ (pool_size p' <= pool_size p + length (reinjection oldHead newHead))%nat) (fun _ => False)).
  { intros xs Hx Hrx Hlen. pose proof (StateAt_returns (types.Root (default CurrentBlock newHead))) as Hs. destruct (StateAt _) as [statedb|e|]; [| |done].
    - run_step. set (p1 := set_head _ _ _ _). assert (I1 : pool_inv None p1) by (destruct Hi; by split).
      eapply settles_seq; [by apply (addTxsLocked_ok Sender genuine hash_inj pool_id Sender_returns)|].
      intros r p2 (I2 & S2 & _ & N2). run_step. split; [done|]. split; [apply S2|]. change (pool_size p1) with (pool_size p) in N2. lia.
    - run_step. split; [done|]. split; [done|lia]. }
  unfold reinjection in *. destruct oldHead as [oldHead|].
  - destruct (Hh ltac:(eauto)) as [nh ->]. destruct (reinjected _ _ _ _) as [xs|]; [by apply Hdone|]. run_step. split; [done|]. split; [done|lia].
  - by apply Hdone.
Qed.

(** ** Reads of the lists *)

(** Only the caches of the lists change. *)
Record quiet p p' : Prop := {
  qt_lesser : lesser None p p';
  qt_pending a : entries (pending p' !! a) = entries (pending p !! a);
  qt_queue a : entries (queue p' !! a) = entries (queue p !! a);
  qt_all : all p' = all p
}.
#[local] Instance quiet_trans : Transitive quiet.
Proof. intros p1 p2 p3 [Q1 Q2 Q3 Q4] [R1 R2 R3 R4]. split; [by eapply lesser_trans|congruence|congruence|congruence]. Qed.
Lemma quiet_refl p : pool_inv None p -> quiet p p.
Proof. intros Hi. by split; [split|..]. Qed.
Lemma aside_quiet p p' : pool_inv None p -> aside genuine p p' -> quiet p p'.
Proof. intros Hi A. split; [by eapply aside_lesser| | |apply A]; intros a; [by rewrite (as_pending _ _ _ A)|by rewrite (as_queue _ _ _ A)]. Qed.

Lemma pending_read_ok {A} a p l (m : StM txList A) r l' : pool_inv None p -> pending p !! a = Some l -> m l = (Ok r, l') ->
  list_ok l' (contents l) -> strict l' = strict l -> returns (on_pending a m) p (fun r' p' => r' = r /\ quiet p p').
Proof.
  intros Hi Hl Hm Hok Hs. destruct (on_pending_run a m p l r l' Hl Hm) as (p' & Hrun & [R1 R2 R3 R4]). eapply settles_run; [exact Hrun|].
  split; [done|]. pose proof (flight_start Sender genuine pool_id a p Hi) as F0.
  destruct (returns_run _ _ _ (flight_on_pending Sender genuine p a p [] [] [] m l l' r _ F0 Hl Hm Hok Hs ltac:(done))) as (r' & p1 & Hrun' & -> & F1 & P1 & C1 & Q1).
  rewrite Hrun in Hrun'. injection Hrun' as <-.
  assert (Ec : entries (pending p' !! a) = entries (pending p !! a)) by (by rewrite P1, Hl).
  destruct (flight_kept Sender genuine pool_id p a p' _ Hi F1) as [S1 S2 _ _].
  - intros l1 E1. rewrite P1 in E1. injection E1 as <-. rewrite C1. by apply (pi_pending _ _ _ _ _ Hi a).
  - rewrite Q1. apply Hi.
  - rewrite Q1, P1. pose proof (pi_reserved _ _ _ _ _ Hi a) as Hr. unfold reserved_ok in Hr. rewrite Hr, Hl. naive_solver.
  - split; [done| |by rewrite Q1|apply R4]. intros b. destruct (decide (b = a)) as [->|Hne]; [done|]. by rewrite (tc_pending _ _ _ S2).
Qed.

Lemma inv_list p a l : pool_inv None p -> pending p !! a = Some l -> list_ok l (contents l) /\ contents l <> [].
Proof.
  intros Hi Hl. pose proof (pi_accounts _ _ _ _ _ Hi a) as [Hq _ _]. rewrite Hl in Hq. split; [apply Hq|]. by apply (pi_pending _ _ _ _ _ Hi a).
Qed.

Lemma LastElement_ok l s : list_ok l s -> s <> [] -> exists tx l', list_LastElement l = (Ok tx, l') /\ list.last s = Some tx /\ list_ok l' s /\ strict l' = strict l.
Proof.
  intros Hok Hs. destruct (flatten_ok _ _ (lok_txs _ _ Hok)) as (m & Hf & Hm). destruct (list.last s) as [tx|] eqn:El; [|by apply last_None in El].
  exists tx, (set_txs l m). unfold list_LastElement, on_txs, LastElement. rewrite Hf, El. split; [done|]. split; [done|]. split; [|done]. destruct Hok. by split.
Qed.

Lemma quiet_some p p' a : pool_inv None p -> quiet p p' -> is_Some (pending p !! a) -> is_Some (pending p' !! a).
Proof.
  intros Hi [L1 Q1 _ _] [l Hl]. pose proof (inv_list p a l Hi Hl) as [_ Hn]. specialize (Q1 a). rewrite Hl in Q1. cbn [entries] in Q1.
  destruct (pending p' !! a); [eauto|]. by rewrite <- Q1 in Hn.
Qed.

Lemma pending_nonces_ok addrs : forall p nonces, pool_inv None p -> (forall a, a ∈ addrs -> is_Some (pending p !! a)) ->
  returns (pending_nonces addrs nonces) p (fun _ p' => quiet p p').
Proof.
  induction addrs as [|a addrs IH]; intros p nonces Hi Hs; cbn [pending_nonces]; unfold returns; [run_step; by apply quiet_refl|].
  destruct (Hs a) as [l Hl]; [by left|]. destruct (inv_list p a l Hi Hl) as [Hok Hn]. destruct (LastElement_ok l _ Hok Hn) as (tx & l' & Hm & _ & Hok' & Hs').
  eapply settles_seq; [by eapply (pending_read_ok a p l)|]. intros r p1 (-> & Q1).
  eapply settles_mono; [apply (IH p1); [apply Q1|]| |done]; [|intros; by etrans]. intros b Hb. apply (quiet_some p p1 b Hi Q1). apply Hs. by right.
Qed.

(** ** [runReorg] *)

Definition events_ok (events : gmap Address sortedMap) : Prop := forall a m, events !! a = Some m -> exists s, sorted_ok m s.

Lemma forward_events_ok addrs : forall p events, pool_inv None p -> events_ok events ->
  returns (forward_events addrs events) p (fun events' p' => aside genuine p p' /\ events_ok events').
Proof.
  induction addrs as [|a addrs IH]; intros p events Hi He; cbn [forward_events]; unfold returns; [by run_step|].
  eapply settles_seq; [apply (nonces_get_ok genuine)|]. intros next p1 A1. assert (I1 : pool_inv None p1) by (eapply aside_inv; [exact A1|exact Hi]).
  destruct (events !! a) as [m|] eqn:Em.
  - destruct (He a m Em) as [s Hs]. destruct (Forward_ok next m s Hs) as (m' & Hf & Hm). rewrite Hf. run_step. cbn [mbind result_bind].
    eapply settles_mono; [apply (IH p1 _ I1)| |done]; [|intros ev p2 [A2 E2]; split; [etrans; [exact A1|exact A2]|done]].
    intros b x. case_match; intros Hx.
    + apply lookup_delete_Some in Hx as [_ Hx]. by apply (He b).
    + apply lookup_insert_Some in Hx as [[<- <-]|[_ Hx]]; [eauto|by apply (He b)].
  - eapply settles_mono; [apply (IH p1 _ I1 He)| |done]. intros ev p2 [A2 E2]. split; [etrans; [exact A1|exact A2]|done].
Qed.

Lemma EstimateNextBaseFee_returns head unix : header.EstimateNextBaseFee head unix <> Panic.
Proof.
  unfold header.EstimateNextBaseFee, header.BaseFee. apply result_bind_returns; [|done]. unfold wrap_err.
  enough (H : header.feeStateBeforeBlock head (Z.max unix (types.Time head)) <> Panic) by (by destruct (header.feeStateBeforeBlock _ _)).
  unfold header.feeStateBeforeBlock. apply result_bind_returns; [apply fail_if_returns|intros _]. apply result_bind_returns; [|done].
  case_match; [|done]. unfold wrap_err. enough (H' : lp176.ParseState (types.Extra head) <> Panic) by (by destruct (lp176.ParseState _)). unfold lp176.ParseState. by case_match.
Qed.

Lemma priced_remotes p h tx : pool_inv None p -> lookup.remotes (all p) !! h = Some tx -> genuine tx.
Proof. intros Hi. apply (remotes_genuine genuine p (pooled p)), (inv_all _ _ _ _ _ Hi). Qed.

Lemma updateBaseFeeAt_ok unix head p : pool_inv None p -> returns (updateBaseFeeAt unix head) p (fun _ p' => aside genuine p p').
Proof.
  intros Hi. unfold updateBaseFeeAt. pose proof (EstimateNextBaseFee_returns head unix) as He. destruct (header.EstimateNextBaseFee head unix) as [fee|e|]; [| |done].
  - destruct (SetBaseFee_ok genuine fee (all p) (priced p)) as (l & Hl & Hok); [intros h tx; by apply priced_remotes|].
    eapply settles_run; [by apply on_priced_run|]. by apply priced_aside.
  - by run_step; run_step.
Qed.

Lemma Reheap_aside p : pool_inv None p -> returns (on_priced pricedlist.Reheap) p (fun _ p' => aside genuine p p').
Proof.
  intros Hi. destruct (Reheap_ok genuine (all p) (priced p)) as (l & Hl & Hok); [intros h tx; by apply priced_remotes|].
  eapply settles_run; [by apply on_priced_run|]. by apply priced_aside.
Qed.

Lemma quiet_executable p p' a : quiet p p' -> executable p a -> executable p' a.
Proof. intros [(_ & [_ S2 S3 _] & _) Q _ _] [E1 E2]. split; rewrite Q, S3; [by rewrite S2|done]. Qed.

Lemma prefix_executable p p' a : lesser None p p' -> pool_inv None p -> entries (pending p' !! a) `prefix_of` entries (pending p !! a) -> executable p a -> executable p' a.
Proof.
  intros (_ & [_ S2 S3 _] & _) Hi [rest Hp] [E1 E2]. set (n := geth_GetNonce (currentState p) a) in *.
  assert (Ha : StronglySorted by_nonce (entries (pending p !! a))).
  { pose proof (pi_accounts _ _ _ _ _ Hi a) as [Hq _ _]. destruct (pending p !! a) as [l|]; [apply (list_ok_ascending l), Hq|constructor]. }
  rewrite Hp in *. split; rewrite S3; fold n.
  - rewrite S2. rewrite Forall_app in E1. apply E1.
  - intros Hne. destruct (entries (pending p' !! a)) as [|tx s]; [done|]. specialize (E2 ltac:(done)). cbn in *.
    apply elem_of_cons in E2 as [->|E2]; [by left|]. apply StronglySorted_inv in Ha as [_ Ha]. apply list.Forall_cons in E1 as [(E1 & _) _].
    rewrite list.Forall_forall in Ha. apply list_elem_of_fmap in E2 as (x & -> & Hx). specialize (Ha x Hx). unfold by_nonce in Ha. lia.
Qed.

(** Demotion after a reset, and the new base fee and nonces *)
Lemma settle_request_ok now unix (request : option (option types.Header * option types.Header)) p : pool_inv None p ->
  returns (match request with
           | None => mret tt
           | Some (_, newHead) =>
               _ ← demoteUnexecutables Sender pool_id now;
               _ ← (match newHead with
                    | None => mret tt
                    | Some head =>
                        if cc_IsLondon (fc_chain chainconfig) (types.Number head) then updateBaseFeeAt unix head
                        else on_priced pricedlist.Reheap
                    end);
               p ← getM;
               nonces ← pending_nonces (range_entries (pending p)).*1 ∅;
               modifyM (fun p => set_nonces p (noncer_setAll nonces (pendingNonces p)))
           end) p (fun _ p' => lesser None p p' /\ (is_Some request -> forall a, executable p' a)).
Proof.
  intros Hi. destruct request as [[oldHead newHead]|]; unfold returns; [|run_step; split; [by split|by intros []]].
  eapply settles_seq; [by apply (demoteUnexecutables_ok Sender genuine pool_id)|]. intros [] p1 (L1 & E1). assert (I1 : pool_inv None p1) by apply L1.
  eapply (settles_seq _ _ _ (fun _ p2 => aside genuine p1 p2)).
  { destruct newHead as [head|]; [|by run_step; run_step]. case_match; [by apply updateBaseFeeAt_ok|by apply Reheap_aside]. }
  intros [] p2 A2. assert (Q2 : quiet p1 p2) by (by apply aside_quiet). assert (I2 : pool_inv None p2) by apply Q2. run_step.
  eapply settles_seq; [apply (pending_nonces_ok _ p2 ∅ I2); intros a; apply range_keys|]. intros nonces p3 Q3. run_step. set (p4 := set_nonces _ _).
  assert (Q4 : quiet p3 p4) by (apply aside_quiet; [apply Q3|apply nonces_aside]).
  assert (Q : quiet p1 p4) by (transitivity p2; [done|]; by transitivity p3). split; [eapply lesser_trans; [exact L1|apply Q]|]. intros _ a. by eapply quiet_executable.
Qed.

Lemma msum_ext (m m' : gmap Address txList) : (forall a, len_at m' a = len_at m a) -> msum m' = msum m.
Proof.
  intros H. set (ks := elements (dom m ∪ dom m')).
  rewrite (msum_over ks m), (msum_over ks m'); [..|apply NoDup_elements|intros a; unfold ks; rewrite elem_of_elements, elem_of_union, !elem_of_dom; tauto].
  - f_equal. apply list_fmap_ext. intros i a _. apply H.
  - apply NoDup_elements.
  - intros a. unfold ks. rewrite elem_of_elements, elem_of_union, !elem_of_dom. tauto.
Qed.

(** The pool within its limits, with the accounts of [locals] exempt *)
Definition pending_limit p : Prop := Z.of_nat (ptotal p) <= GlobalSlots (config p) \/
  forall a, accountset.contains (locals p) a = false -> Z.of_nat (plen p a) <= AccountSlots (config p).
Definition queue_limit p : Prop := Z.of_nat (qtotal p) <= GlobalQueue (config p) \/
  forall a, accountset.contains (locals p) a = false -> queue p !! a = None.

Lemma truncate_ok now {A} (x : A) p : pool_inv None p -> Z.of_nat (pool_size p) < 2 ^ 64 -> 1 <= AccountSlots (config p) ->
  returns (_ ← truncatePending; _ ← truncateQueue Sender pool_id now; _ ← modifyM (fun p => set_changes p 0); mret x) p
    (fun _ p' => lesser None p p' /\ pending_limit p' /\ queue_limit p' /\ forall a, entries (pending p' !! a) `prefix_of` entries (pending p !! a)).
Proof.
  intros Hi Hlt Hs. unfold pool_size in Hlt. unfold returns. eapply settles_seq; [apply (truncatePending_ok Sender genuine hash_inj pool_id); [done|lia|done]|].
  intros [] p1 [L1 Q1 T1 X1 _ P1]. assert (I1 : pool_inv None p1) by apply L1.
  eapply settles_seq; [apply (truncateQueue_ok Sender genuine hash_inj pool_id now p1 I1); rewrite Q1; lia|]. intros [] p2 (L2 & E2 & T2 & _ & K2).
  run_step. run_step. set (p3 := set_changes _ _). assert (I2 : pool_inv None p2) by apply L2.
  assert (L3 : lesser None p2 p3) by (split; [destruct I2; by split|]; split; [done|by intros a; exists []]).
  assert (Et : ptotal p3 = ptotal p1) by (apply msum_ext; intros a; unfold len_at; cbn; by rewrite E2).
  pose proof L1 as (_ & [C1 _ _ B1] & _). pose proof L2 as (_ & [C2 _ _ B2] & _).
  assert (C3 : config p3 = config p) by (cbn; congruence). assert (B3 : locals p3 = locals p) by (cbn; congruence). split; [|split; [|split]].
  - eapply lesser_trans; [exact L1|]. by eapply lesser_trans.
  - unfold pending_limit. rewrite C3, B3, Et. destruct P1 as [?|P1]; [by left|right]. intros a Ha. unfold len_at. cbn. rewrite E2. by apply P1.
  - unfold queue_limit. rewrite C3, B3. destruct K2 as [K2|K2]; [left; cbn; congruence|right]. intros a Ha. cbn. rewrite B1 in K2. specialize (K2 a Ha).
    pose proof (pi_queue _ _ _ _ _ I2 a) as Hq. destruct (queue p2 !! a) as [l|]; [|done]. by destruct (Hq l eq_refl).
  - intros a. cbn. rewrite E2. apply X1.
Qed.

(** What a request needs: the transactions it puts back are well formed and fit *)
Definition reinjection_of (request : option (option types.Header * option types.Header)) : list Transaction :=
  match request with Some (oldHead, newHead) => reinjection oldHead newHead | None => [] end.
Record request_ok p (request : option (option types.Header * option types.Header)) : Prop := {
  rk_heads oldHead newHead : request = Some (oldHead, newHead) -> is_Some oldHead -> is_Some newHead;
  rk_wf : Forall wf_tx (reinjection_of request);
  rk_room : room p (reinjection_of request);
  rk_size : Z.of_nat (pool_size p + length (reinjection_of request)) < 2 ^ 64
}.
Definition config_ok p : Prop := 1 <= AccountSlots (config p) /\ 0 <= AccountQueue (config p) < 2 ^ 63.

(** The pool after a reorg *)
Record reorged p (request : bool) p' : Prop := {
  ro_inv : pool_inv None p';
  ro_config : config p' = config p;
  ro_pending : pending_limit p';
  ro_queue : queue_limit p';
  ro_executable : request = true -> forall a, executable p' a
}.

Lemma start_request_ok now (request : option (option types.Header * option types.Header)) (dirty : option accountSet) events p :
  pool_inv None p -> request_ok p request -> events_ok events ->
  returns (match request with
    | None => mret (events, match dirty with Some d => fst (accountset.flatten d) | None => [] end)
    | Some (oldHead, newHead) =>
        _ ← reset Sender Header_Hash StateAt GetBlock CurrentBlock pool_id now oldHead newHead;
        events ← forward_events (range_entries events).*1 events;
        p ← getM;
        mret (events, (range_entries (queue p)).*1)
    end) p (fun _ p' => pool_inv None p' /\ config p' = config p /\ (pool_size p' <= pool_size p + length (reinjection_of request))%nat).
Proof.
  intros Hi [R1 R2 R3 R4] He. destruct request as [[oldHead newHead]|]; unfold returns; [|run_step; split; [done|split; [done|lia]]].
  eapply settles_seq; [apply (reset_ok now oldHead newHead p Hi); [by apply R1|done|done]|]. intros [] p1 (I1 & C1 & N1).
  eapply settles_seq; [by apply (forward_events_ok _ p1 events I1)|]. intros ev p2 (A2 & _). run_step. run_step. split; [eapply aside_inv; [exact A2|exact I1]|].
  split; [by rewrite (ss_config _ _ (as_setup _ _ _ A2))|]. unfold pool_size at 1. rewrite (as_pending _ _ _ A2), (as_queue _ _ _ A2). exact N1.
Qed.

Lemma runReorg_ok now unix request dirty events p : pool_inv None p -> config_ok p -> request_ok p request -> events_ok events ->
  returns (runReorg Sender chainconfig Header_Hash StateAt GetBlock CurrentBlock pool_id now unix request dirty events) p
    (fun _ p' => reorged p (bool_decide (is_Some request)) p').
Proof.
  intros Hi [Hc1 Hc2] Hr He. unfold returns, runReorg. eapply settles_seq; [by apply start_request_ok|].
  intros [ev addrs] p1 (I1 & C1 & N1). cbn beta iota. pose proof (rk_size _ _ Hr) as Hn.
  eapply settles_seq; [apply (promoteExecutables_ok Sender genuine pool_id now addrs p1 I1); by rewrite C1|]. intros promoted p2 (L2 & _). assert (I2 : pool_inv None p2) by apply L2.
  eapply settles_seq; [by apply settle_request_ok|]. intros [] p3 (L3 & E3). assert (I3 : pool_inv None p3) by apply L3.
  assert (L13 : lesser None p1 p3) by (by eapply lesser_trans). assert (C3 : config p3 = config p) by (destruct L13 as (_ & [C _ _ _] & _); congruence).
  eapply settles_mono; [apply (truncate_ok now _ p3 I3)| |done].
  - pose proof (shrinks_size _ _ (proj2 (proj2 L13))). lia.
  - by rewrite C3.
  - intros evs p4 (L4 & P4 & Q4 & X4). split; [apply L4| |done|done|].
    + destruct L4 as (_ & [C _ _ _] & _). congruence.
    + rewrite bool_decide_eq_true. intros Hs a. eapply prefix_executable; [exact L4|exact I3|apply X4|by apply E3].
Qed.

(** ** The other operations *)

Lemma remove_known_ok now hash oob p : pool_inv None p ->
  returns (_ ← removeTx Sender pool_id now hash oob true; mret tt) p (fun _ p' => lesser None p p').
Proof.
  intros Hi. unfold returns. destruct (lookup.Get (all p) hash) as [tx|] eqn:E.
  - eapply settles_seq; [by apply (removeTx_known Sender genuine pool_id now hash oob true None p tx)|]. intros n p1 (I1 & R1). run_step.
    split; [done|]. split; [apply R1|]. by eapply removes_shrinks.
  - eapply settles_seq; [by apply removeTx_unknown|]. intros n p1 ->. run_step. by split.
Qed.

Lemma remove_known_each now oob (hashes : list Transaction) p : pool_inv None p ->
  returns (for_each (fun tx => _ ← removeTx Sender pool_id now (tx_Hash tx) oob true; mret tt) hashes) p (fun _ p' => lesser None p p').
Proof.
  intros Hi. eapply settles_mono; [apply (settles_for_each _ (fun _ p' => lesser None p p') (fun _ => False))| |done]; [by split| |done].
  intros tx rest p1 L1. eapply settles_mono; [apply remove_known_ok, L1| |done]. intros [] p2 L2. by eapply lesser_trans.
Qed.

Lemma SetGasTip_ok now tip p : pool_inv None p -> 0 <= tip < 2 ^ 256 ->
  returns (SetGasTip Sender pool_id now tip) p (fun _ p' => lesser None p p').
Proof.
  intros Hi Ht. unfold returns, SetGasTip. run_step. unfold MustFromBig. rewrite FromBig_fits by done. run_step. run_step. set (p1 := set_gasTip _ _).
  assert (L1 : lesser None p p1) by (split; [destruct Hi; by split|]; split; [done|by intros a; exists []]). case_match; [by run_step|].
  eapply settles_seq; [apply (remove_known_each now false _ p1), L1|]. intros [] p2 L2. assert (I2 : pool_inv None p2) by apply L2.
  eapply settles_mono; [apply (priced_Removed_ok genuine _ p2 (pooled p2)); [by eapply inv_all|apply I2]| |done].
  intros [] p3 (l & -> & Hl). eapply lesser_trans; [exact L1|]. eapply lesser_trans; [exact L2|]. eapply aside_lesser; [by apply priced_aside|done].
Qed.

Lemma evict_idle_ok now addrs : forall p, pool_inv None p -> NoDup addrs -> (forall a, a ∈ addrs -> is_Some (queue p !! a)) ->
  returns (evict_idle Sender pool_id now addrs) p (fun _ p' => lesser None p p').
Proof.
  induction addrs as [|a addrs IH]; intros p Hi Hn Hs; cbn [evict_idle]; unfold returns; [run_step; by split|]. run_step.
  apply list.NoDup_cons in Hn as [Ha Hn]. destruct (Hs a) as [l Hl]; [by left|].
  eapply (settles_seq _ _ _ (fun _ p' => exists xs, unqueues Sender genuine pool_id a xs p p')).
  - case_match; [|run_step; run_step; exists []; by apply unqueues_refl].
    eapply settles_seq; [by apply (flatten_queue_ok Sender genuine pool_id a p l)|]. intros xs p1 (-> & U1).
    eapply settles_mono; [apply (remove_queued_ok Sender genuine pool_id now a (entries (queue p !! a)) p1)| |done].
    + apply U1.
    + by apply (queue_nodup Sender genuine pool_id).
    + pose proof (uq_queue _ _ _ _ _ _ _ U1 : _ ≡ₚ entries (queue p1 !! a)) as Hp. rewrite list.Forall_forall. intros x Hx. by rewrite <- Hp.
    + intros [] p2 U2. eexists. by eapply unqueues_trans.
  - intros [] p1 [xs U1]. eapply settles_mono; [apply (IH p1); [apply U1|done|]| |done].
    + intros b Hb. rewrite (tc_queue _ _ _ (uq_touches _ _ _ _ _ _ _ U1)); [apply Hs; by right|]. by intros ->.
    + intros [] p2 L2. eapply lesser_trans; [apply U1|exact L2].
Qed.

Lemma evictTick_ok now p : pool_inv None p -> returns (evictTick Sender pool_id now) p (fun _ p' => lesser None p p').
Proof.
  intros Hi. unfold returns, evictTick. run_step. destruct (range_keys (queue p)) as [Hn Hk]. apply evict_idle_ok; [done|done|]. intros a. apply Hk.
Qed.

(** ** [Pending] *)

Context (fees_fit : forall tx, genuine tx -> 0 <= tx_GasFeeCap tx < 2 ^ 256 /\ 0 <= tx_GasTipCap tx < 2 ^ 256).

(** What an account shows: its pending transactions, up to the first whose tip is too low *)
Definition shown (minTip baseFee : option Z) p a : list Transaction :=
  match minTip with
  | Some minTip => if accountset.contains (locals p) a then entries (pending p !! a) else above_tip minTip baseFee (entries (pending p !! a))
  | None => entries (pending p !! a)
  end.
Definition handle (get : Hash -> option Transaction) tx : LazyTransaction :=
  mkLazy get (tx_Hash tx) (Some (WithoutBlobTxSidecar tx)) (tx_Time tx) (tx_GasFeeCap tx) (tx_GasTipCap tx) (tx_Gas tx) (tx_BlobGas tx).

Lemma above_tip_prefix minTip baseFee s : above_tip minTip baseFee s `prefix_of` s.
Proof. induction s as [|x s IH]; [done|]. cbn. case_match; [apply prefix_nil|by apply prefix_cons]. Qed.
Lemma shown_prefix minTip baseFee p a : shown minTip baseFee p a `prefix_of` entries (pending p !! a).
Proof. unfold shown. repeat case_match; try done. apply above_tip_prefix. Qed.
Lemma shown_quiet minTip baseFee p p' a : quiet p p' -> shown minTip baseFee p' a = shown minTip baseFee p a.
Proof. intros [(_ & [_ _ _ S4] & _) Q _ _]. unfold shown. by rewrite Q, S4. Qed.

Lemma lazies_ok get s : Forall genuine s -> lazies_of get s = Ok (handle get <$> s).
Proof.
  induction 1 as [|x s Hx Hs IH]; [done|]. destruct (fees_fit x Hx). cbn [lazies_of]. unfold lazy_of, MustFromBig.
  rewrite !FromBig_fits by done. cbn [mbind result_bind]. by rewrite IH.
Qed.

Lemma pending_genuine p a : pool_inv None p -> Forall genuine (entries (pending p !! a)).
Proof.
  intros Hi. rewrite list.Forall_forall. intros x Hx. apply (pooled_sender Sender genuine p x a); [apply Hi|]. apply elem_of_app. by left.
Qed.

(** The map has the accounts that show something. *)
Definition shows (minTip baseFee : option Z) p (addrs : list Address) (acc m : gmap Address (list LazyTransaction)) : Prop := forall a,
  m !! a = if decide (a ∈ addrs /\ shown minTip baseFee p a <> []) then Some (handle (lookup.Get (all p)) <$> shown minTip baseFee p a) else acc !! a.

Lemma pending_each_ok minTip baseFee addrs : forall p acc, pool_inv None p -> NoDup addrs -> (forall a, a ∈ addrs -> is_Some (pending p !! a)) ->
  returns (pending_each minTip baseFee addrs acc) p (fun m p' => quiet p p' /\ shows minTip baseFee p addrs acc m).
Proof.
  induction addrs as [|a addrs IH]; intros p acc Hi Hn Hs; cbn [pending_each]; unfold returns.
  { run_step. split; [by apply quiet_refl|]. intros a. rewrite decide_False; [done|]. by intros [?%elem_of_nil _]. }
  apply list.NoDup_cons in Hn as [Ha Hn]. destruct (Hs a) as [l Hl]; [by left|]. destruct (inv_list p a l Hi Hl) as [Hok _].
  destruct (list_Flatten_ok l _ Hok) as (l' & Hm & Hok' & Hs'). eapply settles_seq; [by eapply (pending_read_ok a p l)|]. intros r p1 (-> & Q1). run_step.
  assert (I1 : pool_inv None p1) by apply Q1. pose proof Q1 as [(_ & [_ _ _ S4] & _) _ _ Ea]. rewrite S4, Ea.
  set (xs := match minTip with Some _ => _ | None => _ end). assert (Ex : xs = shown minTip baseFee p a) by (unfold xs, shown; by rewrite Hl).
  assert (Hrest : forall b, b ∈ addrs -> is_Some (pending p1 !! b)) by (intros b Hb; apply (quiet_some p p1 b Hi Q1), Hs; by right).
  assert (Hgo : forall acc', (forall b, b <> a -> acc' !! b = acc !! b) ->
    acc' !! a = (if decide (shown minTip baseFee p a <> []) then Some (handle (lookup.Get (all p)) <$> shown minTip baseFee p a) else acc !! a) ->
    settles (pending_each minTip baseFee addrs acc') p1 (fun m p' => quiet p p' /\ shows minTip baseFee p (a :: addrs) acc m) (fun _ => False)).
  { intros acc' Hb Hac. eapply settles_mono; [apply (IH p1 acc' I1 Hn Hrest)| |done]. intros m p2 (Q2 & M2). split; [by transitivity p1|].
    intros b. rewrite M2, Ea, (shown_quiet _ _ _ _ b Q1). destruct (decide (b = a)) as [->|Hne].
    - rewrite decide_False by tauto. rewrite Hac. repeat case_decide; set_solver.
    - rewrite Hb by done. repeat case_decide; set_solver. }
  destruct xs as [|x xs'] eqn:Exs.
  - apply Hgo; [done|]. rewrite <- Ex, decide_False by (intros H; by apply H). done.
  - rewrite Ex. run_step. rewrite lazies_ok.
    + apply Hgo; [intros b Hb; by rewrite lookup_insert_ne|]. rewrite lookup_insert_eq, decide_True; [done|]. by rewrite <- Ex.
    + destruct (shown_prefix minTip baseFee p a) as [rest Hp]. pose proof (pending_genuine p a Hi) as Hg. rewrite Hp in Hg. by apply Forall_app in Hg as [? _].
Qed.

Lemma Pending_ok onlyBlobTxs minTip baseFee p : pool_inv None p ->
  returns (Pending onlyBlobTxs minTip baseFee) p (fun m p' => quiet p p' /\
    forall a q, m !! a = Some q -> onlyBlobTxs = false /\ q <> [] /\ exists s, s `prefix_of` entries (pending p !! a) /\ q = handle (lookup.Get (all p)) <$> s).
Proof.
  intros Hi. unfold returns, Pending. destruct onlyBlobTxs; [run_step; split; [by apply quiet_refl|]; intros a q Hq; by rewrite lookup_empty in Hq|]. run_step.
  destruct (range_keys (pending p)) as [Hn Hk]. set (b := match baseFee with Some _ => _ | None => _ end).
  eapply settles_mono; [apply (pending_each_ok minTip b _ p ∅ Hi Hn); intros a; apply Hk| |done]. intros m p' (Q & M). split; [done|]. intros a q Hq.
  rewrite M in Hq. case_decide as Hd; [|by rewrite lookup_empty in Hq]. injection Hq as <-. split; [done|]. destruct Hd as [_ Hd].
  split; [by intros ?%fmap_nil_inv|]. exists (shown minTip b p a). split; [apply shown_prefix|done].
Qed.

End Pool.
End legacypoolstep.
