(* ===== verification/LegacyPoolTheorems.v ===== *)
(** * The transaction pool: what holds of every reachable pool

    The operations as one type, the pools they reach from [New], and the theorems about them. *)

From Stdlib Require Import Sorting.Sorted.
From S2P Require Import Prelude Deps GoStd Slices CustomTypes Lp176 Fees Header ExtState Transition Processor Ordering OrderingSpec Miner MinerSpec TxList TxListSpec PricedList PricedListSpec Validation LegacyPool LegacyPoolSpec LegacyPoolAddSpec LegacyPoolReorgSpec LegacyPoolLimitSpec LegacyPoolStepSpec.
Import core processor txpool txlist txlistspec pricedlistspec validation legacypool legacypoolspec legacypooladd legacypoolreorg legacypoollimit legacypoolstep.

Module legacypooltheorems.

Section Pool.
Context {SM : SafeMath} {GL : GasLib} {UI : U256Lib} {UIs : U256LibSpec} {UA : U256Arith} {UAs : U256ArithSpec} {TL : TxLib} {BB : BlobLib} {SL : SidecarLib}.
Context {NR : NonceRange} {NS : NonceRangeSpec} {HR : HashRange} {HS : HashRangeSpec}.
Context {RL : MapRange txList} {RLs : MapRangeSpec txList} {RU : MapRange unit} {RS : MapRange sortedMap} {PQ : Prque} {PQs : PrqueSpec}.
Context {S Ctx : Type} {GDB : GethStateDB S} (Sender : Transaction -> result Address) (genuine : Transaction -> Prop).
Context (chainconfig : ForkConfig Ctx) (Header_Hash : types.Header -> Hash).
Context (StateAt : Hash -> result S) (GetBlock : Hash -> Z -> option (Block Transaction)) (CurrentBlock : types.Header).
Context (pool_id : nat).
Notation pool := (@LegacyPool S).
Notation pool_inv := (pool_inv Sender genuine pool_id).
Notation wf_tx := (wf_tx genuine).
Notation room := (room Sender).
Notation request_ok := (request_ok Sender genuine Header_Hash GetBlock).
Implicit Types (p : pool).

(** What the pool is asked to do; [now] is the clock, [unix] the time in seconds. *)
Inductive op :=
| OpAdd (now : Z) (txs : list Transaction) (local : bool)
| OpReorg (now unix : Z) (request : option (option types.Header * option types.Header)) (dirty : option accountSet) (events : gmap Address sortedMap)
| OpEvict (now : Z)
| OpSetGasTip (now tip : Z)
| OpSetMinFee (fee : Z)
| OpUpdateBaseFee (unix : Z)
| OpNonce (addr : Address)
| OpPending (onlyBlobTxs : bool) (minTip baseFee : option Z).

Definition perform (o : op) : StM pool unit :=
  match o with
  | OpAdd now txs local => _ ← Add Sender chainconfig pool_id now txs local; mret tt
  | OpReorg now unix request dirty events =>
      _ ← runReorg Sender chainconfig Header_Hash StateAt GetBlock CurrentBlock pool_id now unix request dirty events; mret tt
  | OpEvict now => evictTick Sender pool_id now
  | OpSetGasTip now tip => SetGasTip Sender pool_id now tip
  | OpSetMinFee fee => SetMinFee fee
  | OpUpdateBaseFee unix => updateBaseFee unix
  | OpNonce addr => _ ← Nonce addr; mret tt
  | OpPending onlyBlobTxs minTip baseFee => _ ← Pending onlyBlobTxs minTip baseFee; mret tt
  end.

(** The transactions are decoded ones, and the costs of an account add up to less than 2^256. *)
Definition op_ok p (o : op) : Prop :=
  match o with
  | OpAdd _ txs _ => Forall wf_tx txs /\ room p txs
  | OpReorg _ _ request _ events => request_ok p request /\ events_ok events
  | OpSetGasTip _ tip => 0 <= tip < 2 ^ 256
  | _ => True
  end.

Inductive reachable (p0 : pool) : pool -> Prop :=
| reach_start : reachable p0 p0
| reach_step p o : reachable p0 p -> op_ok p o -> reachable p0 (snd (perform o p)).

(** The environment: hashes identify transactions, calls into the chain return, fee caps have 256 bits *)
Record environment_ok : Prop := {
  env_hashes a b : genuine a -> genuine b -> tx_Hash a = tx_Hash b -> a = b;
  env_sender tx : Sender tx <> Panic;
  env_states root : StateAt root <> Panic;
  env_predicates number time a c data : Predicaters (cc_Rules (fc_chain chainconfig) number time) !! a = Some c -> PredicateGas c data <> Panic;
  env_fees tx : genuine tx -> 0 <= tx_GasFeeCap tx < 2 ^ 256 /\ 0 <= tx_GasTipCap tx < 2 ^ 256
}.
(** A pool that has been set up, and owns no account *)
Record start_ok (conf : Config) (reserved : gmap Address nat) : Prop := {
  so_queue : AccountQueue conf < 2 ^ 63;
  so_free a : reserved !! a <> Some pool_id
}.

Lemma sanitize_ok conf : AccountQueue conf < 2 ^ 63 -> 1 <= AccountSlots (sanitize conf) /\ 0 <= AccountQueue (sanitize conf) < 2 ^ 63.
Proof. intros H. unfold sanitize, DefaultConfig. cbn. repeat case_match; lia. Qed.

Lemma New_inv conf tip head (statedb : S) reserved : start_ok conf reserved -> pool_inv None (New conf tip head statedb reserved).
Proof.
  intros [H1 H2]. set (p := New _ _ _ _ _). assert (Ep : forall a, pending p !! a = None) by (intros a; apply lookup_empty).
  assert (Eq : forall a, queue p !! a = None) by (intros a; apply lookup_empty). split.
  - intros a. split; rewrite ?Ep, ?Eq; [done|done|]. split; [constructor|constructor|cbn; lia].
  - intros a l. by rewrite Ep.
  - intros a l. by rewrite Eq.
  - eapply lookup_ok_iff; [|apply new_lookup_ok]. intros tx. unfold pooled, tally. rewrite Ep, Eq. split; [done|]. by intros ?%elem_of_nil.
  - intros a. unfold reserved_ok. rewrite Ep, Eq. split; [intros E; by destruct (H2 a)|]. by intros [[]|[[]|?]].
  - apply new_priced_ok.
Qed.

Section Env.
Context (Henv : environment_ok).

Lemma perform_ok p o : pool_inv None p -> config_ok p -> op_ok p o -> returns (perform o) p (fun _ p' => pool_inv None p' /\ config p' = config p).
Proof.
  destruct Henv as [H1 H2 H3 H4 H5]. intros Hi Hc Ho. assert (Hl : forall p', lesser Sender genuine pool_id None p p' -> pool_inv None p' /\ config p' = config p).
  { by intros p' (I & [C _ _ _] & _). }
  assert (Ha : forall p', aside genuine p p' -> pool_inv None p' /\ config p' = config p) by (intros p' A; apply Hl; by eapply aside_lesser).
  destruct o as [now txs local|now unix request dirty events|now|now tip|fee|unix|addr|ob minTip baseFee]; cbn [perform op_ok] in *.
  - destruct Ho as [Hw Hr]. eapply settles_seq; [by apply (pool_Add_ok Sender genuine H1 chainconfig pool_id H2 H4)|].
    intros r p1 (I1 & [C1 _ _] & _). by run_step.
  - destruct Ho as [Hr He]. eapply settles_seq; [by eapply (runReorg_ok Sender genuine H1)|]. intros r p1 [I1 C1 _ _ _]. by run_step.
  - eapply returns_mono; [by apply (evictTick_ok Sender genuine)|]. intros [] p1. apply Hl.
  - eapply returns_mono; [by apply (SetGasTip_ok Sender genuine)|]. intros [] p1. apply Hl.
  - unfold returns, SetMinFee. run_step. destruct Hi. by split.
  - unfold returns, updateBaseFee. run_step. eapply settles_mono; [by eapply (updateBaseFeeAt_ok Sender genuine)| |done]. intros [] p1. apply Ha.
  - eapply settles_seq; [apply (nonces_get_ok genuine)|]. intros n p1 A1. run_step. by apply Ha.
  - eapply settles_seq; [by eapply (Pending_ok Sender genuine)|]. intros m p1 (Q & _). run_step. apply Hl, Q.
Qed.

Context (conf : Config) (tip : Z) (head : types.Header) (statedb : S) (reserved : gmap Address nat) (Hstart : start_ok conf reserved).
Notation started := (New conf tip head statedb reserved).

Lemma reachable_inv p : reachable started p -> pool_inv None p /\ config p = sanitize conf.
Proof.
  induction 1 as [|p o Hp [Hi Hc] Ho]; [split; [by apply New_inv|done]|]. assert (Hk : config_ok p) by (unfold config_ok; rewrite Hc; apply sanitize_ok, Hstart).
  destruct (returns_run _ _ _ (perform_ok p o Hi Hk Ho)) as ([] & p' & -> & I' & C'). cbn [snd]. split; [done|congruence].
Qed.

Lemma reachable_config p : reachable started p -> config_ok p.
Proof. intros Hp. unfold config_ok. destruct (reachable_inv p Hp) as [_ ->]. apply sanitize_ok, Hstart. Qed.

End Env.

(** C2. Every pool that operations reach from [New] has the invariant: the lists of an account hold
    its own transactions, of different nonces, in the order of the nonces; none is empty; the
    lookup has the transactions of the lists and no other, with the right number of slots; the
    accounts reserved for the pool are those that have a list. And whatever is asked of it next
    runs to its end without a panic and keeps the invariant. *)
Theorem legacypool_invariant conf tip head (statedb : S) reserved p o : environment_ok -> start_ok conf reserved ->
  reachable (New conf tip head statedb reserved) p -> op_ok p o ->
  pool_inv None p /\ returns (perform o) p (fun _ p' => pool_inv None p').
Proof.
  intros Henv Hs Hp Ho. destruct (reachable_inv Henv _ _ _ _ _ Hs p Hp) as [Hi _]. split; [done|].
  eapply returns_mono; [apply (perform_ok Henv p o Hi); [by eapply reachable_config|done]|]. by intros ? p' [? _].
Qed.

(** C9. After a run of the reorg loop the pool is within its limits: there are at most [GlobalSlots]
    pending transactions, or no remote account has more than [AccountSlots] of them; and there
    are at most [GlobalQueue] queued ones, or only local accounts have any. If the run was for a
    new head, the pending transactions of every account fit the state the pool is then at, which
    is that of the new head unless the reset gave up: they start at the account's nonce, each is
    paid for by the balance and fits into the gas limit. *)
Theorem reorg_settles conf tip head (statedb : S) reserved p now unix request dirty events : environment_ok -> start_ok conf reserved ->
  reachable (New conf tip head statedb reserved) p -> request_ok p request -> events_ok events ->
  returns (runReorg Sender chainconfig Header_Hash StateAt GetBlock CurrentBlock pool_id now unix request dirty events) p
    (fun _ p' => pending_limit p' /\ queue_limit p' /\ (is_Some request -> forall a, executable p' a)).
Proof.
  intros Henv Hs Hp Hr He. destruct (reachable_inv Henv _ _ _ _ _ Hs p Hp) as [Hi _]. pose proof Henv as [H1 H2 H3 H4 H5].
  eapply returns_mono; [eapply (runReorg_ok Sender genuine H1); [done|done|done|by eapply reachable_config|done|done]|].
  intros ? p' [_ _ L1 L2 L3]. split; [done|]. split; [done|]. intros Hreq. apply L3. by apply bool_decide_eq_true.
Qed.

(** ** The pool the miner asks *)

Definition pending_view p (filter : PendingFilter) : gmap Address (list LazyTransaction) :=
  match fst (Pending (OnlyBlobTxs filter) (Some (Miner.MinTip filter)) (pf_BaseFee filter) p) with Ok m => m | _ => ∅ end.
Definition miner_pool p (addrs : list Address) : TxPool := mkTxPool (pending_view p) addrs (gasTip p).

(** Handles of different transactions, also over the accounts *)
Notation hashes l := (tx_Hash <$> omap Resolve l).
Lemma handles_nodup (m : gmap Address (list LazyTransaction)) : (forall a q, m !! a = Some q -> NoDup (hashes q)) ->
  (forall a b qa qb h, a <> b -> m !! a = Some qa -> m !! b = Some qb -> h ∈ hashes qa -> h ∉ hashes qb) -> NoDup (hashes (minerspec.handles m)).
Proof.
  induction m as [|a q m Ha IH] using map_ind; intros H1 H2; [constructor|].
  rewrite (minerspec.handles_lookup (<[a := q]> m) a q) by apply lookup_insert_eq. rewrite delete_insert_id by done. rewrite omap_app, fmap_app. apply list.NoDup_app.
  split; [apply (H1 a); by rewrite lookup_insert_eq|]. split.
  - intros h Hq Hm. apply list_elem_of_fmap in Hm as (tx & -> & Hm). apply list_elem_of_omap in Hm as (ltx & Hin & Hr).
    apply minerspec.elem_of_handles in Hin as (b & qb & Hb & Hl). assert (Hne : a <> b) by (intros ->; congruence).
    apply (H2 a b q qb (tx_Hash tx) Hne); [by rewrite lookup_insert_eq|by rewrite lookup_insert_ne|done|].
    apply list_elem_of_fmap_2. apply list_elem_of_omap. eauto.
  - apply IH; [|intros b c qb qc h Hbc Hb Hc; apply (H2 b c); [done|rewrite lookup_insert_ne; [done|congruence]..]].
    intros b qb Hb. apply (H1 b). rewrite lookup_insert_ne; [done|congruence].
Qed.

Lemma handle_hashes get (s : list Transaction) : (forall tx, tx_Hash (WithoutBlobTxSidecar tx) = tx_Hash tx) -> hashes (handle get <$> s) = tx_Hash <$> s.
Proof. intros H. induction s as [|x s IH]; [done|]. cbn. f_equal; [apply H|exact IH]. Qed.

Lemma view_in p filter a q : environment_ok -> pool_inv None p -> pending_view p filter !! a = Some q ->
  OnlyBlobTxs filter = false /\ q <> [] /\ exists s, s `prefix_of` entries (pending p !! a) /\ q = handle (lookup.Get (all p)) <$> s.
Proof.
  intros [H1 H2 H3 H4 H5] Hi. unfold pending_view. 
  assert (Hr : returns (Pending (OnlyBlobTxs filter) (Some (Miner.MinTip filter)) (pf_BaseFee filter)) p (fun m _ => forall a q, m !! a = Some q ->
    OnlyBlobTxs filter = false /\ q <> [] /\ exists s, s `prefix_of` entries (pending p !! a) /\ q = handle (lookup.Get (all p)) <$> s)).
  { eapply returns_mono; [by eapply (Pending_ok Sender genuine)|]. intros m p' [_ Hm]. exact Hm. }
  destruct (returns_run _ _ _ Hr) as (m & p' & -> & Hm). apply Hm.
Qed.

Lemma tally_hashes p a : environment_ok -> pool_inv None p -> NoDup (tx_Hash <$> entries (pending p !! a)).
Proof.
  intros Henv Hi. pose proof (account_tally _ _ _ _ _ (pi_accounts _ _ _ _ _ Hi a)) as Ht. rewrite app_nil_r in Ht. apply txs_ok_app_l in Ht.
  apply NoDup_fmap_2_strong; [|by apply txs_nonces, NoDup_fmap_1 in Ht]. intros x y Hx Hy. pose proof (txs_each _ _ _ _ Ht) as He.
  rewrite list.Forall_forall in He. apply (env_hashes Henv); [apply (He x Hx)|apply (He y Hy)].
Qed.

(** C10. What the pool hands to the miner, whatever filter it is asked with: at least one transaction
    of every account it names, only pooled transactions, and none of them twice. This is what the
    theorems about mined blocks assume of the pool. *)
Theorem pool_feeds_miner conf tip head (statedb : S) reserved p addrs : environment_ok -> start_ok conf reserved ->
  reachable (New conf tip head statedb reserved) p ->
  (forall tx, genuine tx -> 0 <= tx_Time tx < orderingspec.MaxTime) -> (forall tx, tx_Hash (WithoutBlobTxSidecar tx) = tx_Hash tx) ->
  minerspec.pool_ok (fun tx => exists t, pooled Sender p t /\ tx = WithoutBlobTxSidecar t) (miner_pool p addrs) /\
  minerspec.pool_distinct (miner_pool p addrs).
Proof.
  intros Henv Hs Hp Ht Hh. destruct (reachable_inv Henv _ _ _ _ _ Hs p Hp) as [Hi _].
  assert (Hin : forall a s t, s `prefix_of` entries (pending p !! a) -> t ∈ s -> legacypool.sender Sender t = a /\ genuine t /\ pooled Sender p t).
  { intros a s t [rest Hr] Hts. assert (Hta : t ∈ tally p a) by (apply elem_of_app; left; rewrite Hr; apply elem_of_app; by left).
    destruct (pooled_sender Sender genuine p t a (pi_accounts _ _ _ _ _ Hi a) Hta) as [E G]. split; [done|]. split; [done|]. unfold pooled. by rewrite E. }
  split.
  - intros filter. split; intros a q Hq; apply (view_in p filter a q Henv Hi) in Hq as (_ & Hne & s & Hpre & ->).
    + split; [done|]. apply Forall_fmap. rewrite list.Forall_forall. intros t Hts. by apply Ht, (Hin a s t).
    + apply Forall_fmap. rewrite list.Forall_forall. intros t Hts tx [= <-]. exists t. split; [by apply (Hin a s t)|done].
  - intros minTip baseFee blobFee. unfold minerspec.offered. cbn [Miner.Pending miner_pool]. set (m2 := pending_view p (mkPendingFilter _ _ _ false true)).
    assert (m2 = ∅) as ->. { apply map_empty. intros a. destruct (m2 !! a) as [q|] eqn:E; [|done]. by apply (view_in p _ a q Henv Hi) in E as (? & _). }
    change (minerspec.handles ∅) with (@nil LazyTransaction). rewrite app_nil_r. apply handles_nodup.
    + intros a q (_ & _ & s & [rest Hr] & ->)%(view_in p _ a q Henv Hi). rewrite handle_hashes by done. pose proof (tally_hashes p a Henv Hi) as Hn.
      rewrite Hr, fmap_app in Hn. by apply list.NoDup_app in Hn as [? _].
    + intros a b qa qb h Hne (_ & _ & sa & Ha & ->)%(view_in p _ a qa Henv Hi) (_ & _ & sb & Hb & ->)%(view_in p _ b qb Henv Hi).
      rewrite !handle_hashes by done. intros (t & -> & Hta)%list_elem_of_fmap (t' & E & Htb)%list_elem_of_fmap.
      destruct (Hin a sa t Ha Hta) as (E1 & G1 & _), (Hin b sb t' Hb Htb) as (E2 & G2 & _). apply Hne. rewrite <- E1, <- E2. f_equal. by apply (env_hashes Henv).
Qed.

End Pool.
End legacypooltheorems.
