(* ===== verification/LegacyPoolExamples.v ===== *)
(** * A transaction pool at work

    Concrete libraries and a pool to which two senders give transactions: the theorems about the
    lists and the pool are applied to it. *)

From Stdlib Require Import Sorting.Sorted.
From S2P Require Import Prelude Deps GoStd Slices CustomTypes Lp176 Fees Header ExtState Consensus Transition TransitionExamples Processor Ordering OrderingSpec Miner MinerSpec MinerExamples TxList TxListSpec PricedList PricedListSpec Validation LegacyPool LegacyPoolSpec LegacyPoolAddSpec LegacyPoolReorgSpec LegacyPoolLimitSpec LegacyPoolStepSpec LegacyPoolTheorems.
Import core processor txpool txlist txlistspec pricedlistspec validation legacypool legacypoolspec legacypooladd legacypoolreorg legacypoollimit legacypoolstep legacypooltheorems.
Import Deps.Concrete extstate.Concrete coreexamples header.HeaderWitness minerexamples.

Module legacypoolexamples.

(** ** The libraries *)

Definition tip_at (tx : Transaction) (baseFee : Z) : Z := Z.min (tx_GasTipCap tx) (tx_GasFeeCap tx - baseFee).
#[export] Instance txlib0 : TxLib := {|
  Cost tx := tx_Value tx + tx_GasPrice tx * tx_Gas tx;
  tx_Time tx := tx_Nonce tx;
  tx_BlobGas _ := 0;
  EffectiveGasTipCmp a b baseFee := cmpZ (tip_at a baseFee) (tip_at b baseFee);
  EffectiveGasTipIntCmp tx minTip baseFee := cmpZ (tip_at tx (default 0 baseFee)) minTip
|}.
#[export] Instance u256_arith : U256Arith := {|
  U256_Add a b := (a + b) mod 2 ^ 256;
  U256_SubOverflow a b := ((a - b) mod 2 ^ 256, a <? b)
|}.
#[export] Instance u256_arith_spec : U256ArithSpec.
Proof.
  split; intros; cbn -[Z.pow]; [done|rewrite Z.mod_small by lia; destruct (Z.ltb_spec a b); (done || lia)|destruct (Z.ltb_spec a b); (done || lia)].
Qed.

#[export] Instance nonces0 : NonceRange := fun m => map_to_list m.
#[export] Instance nonces0_spec : NonceRangeSpec.
Proof. by intros m. Qed.
#[export] Instance hashes0 : HashRange := fun m => map_to_list m.
#[export] Instance hashes0_spec : HashRangeSpec.
Proof. by intros m. Qed.
#[export] Instance lists0 : MapRange txList := fun m => map_to_list m.
#[export] Instance lists0_spec : MapRangeSpec txList.
Proof. by intros m. Qed.
#[export] Instance units0 : MapRange unit := fun m => map_to_list m.
#[export] Instance events0 : MapRange sortedMap := fun m => map_to_list m.

(** A stable sort by the priorities *)
#[export] Instance prque0 : Prque := fun items => (sort.Sort (fun a b => snd b <? snd a) items).*1.
#[export] Instance prque0_spec : PrqueSpec.
Proof.
  split; unfold prque_pops, prque0; intros items; [by rewrite sort.Sort_Permutation|]. intros i j a b Ha Hb Hij p q Hp Hq Hn.
  set (l := sort.Sort _ _) in *. assert (Hl : l ≡ₚ items) by apply sort.Sort_Permutation.
  assert (Hpr : forall k c r, l.*1 !! k = Some c -> (c, r) ∈ items -> l !! k = Some (c, r)).
  { intros k c r Hk Hin. rewrite <- Hl in Hin. apply list_elem_of_lookup in Hin as [k' Hk']. rewrite <- Hl in Hn.
    assert (k' = k) as <-; [|done]. eapply (proj1 (NoDup_alt l.*1) Hn k' k c); [by rewrite list_lookup_fmap, Hk'|done]. }
  pose proof (Hpr i a p Ha Hp) as Hi. pose proof (Hpr j b q Hb Hq) as Hj. destruct (decide (i = j)) as [->|Hne]; [rewrite Hi in Hj; injection Hj as _ ->; lia|].
  assert (Hs : StronglySorted (fun x y : Address * Z => (snd x <? snd y) = false) l).
  { apply (slices.Sort_weakly_sorted (fun a b : Address * Z => snd b <? snd a)); intros; lia. }
  clear -Hs Hi Hj Hij Hne. revert i j Hi Hj Hij Hne. induction Hs as [|x l Hs IH Hx]; intros [|i] [|j] Hi Hj Hij Hne; try done; try lia.
  - injection Hi as ->. rewrite list.Forall_forall in Hx. cbn in Hj. apply list_elem_of_lookup_2 in Hj. specialize (Hx _ Hj). cbn in Hx. lia.
  - by apply (IH i j); [..|lia|lia].
Qed.

#[export] Instance blobs0 : BlobLib := {|
  tx_BlobTxSidecar _ := None;
  CalcBlobHashV1 _ := Hash_zero;
  VerifyBlobProof _ _ _ := Ok tt
|}.

(** ** A pool *)

Definition pool_config : ForkConfig unit := mkForkConfig unit config0 (fun _ => true) (fun _ _ => true).
Definition sender1 (tx : Transaction) : result Address := Ok (if bool_decide (tx_Hash tx = tx_Hash tx3) then bob else alice).
Definition genuine1 (tx : Transaction) : Prop := tx ∈ [tx1; tx2; tx3].
Definition world1 : World := mkWorld (mkGeth ∅ {[ alice := 10 ^ 9; bob := 10 ^ 9 ]} ∅) (Hash_zero, 0) [].
Definition no_state (root : Hash) : result World := Ok world1.
Definition no_block (h : Hash) (n : Z) : option (Block Transaction) := None.
Notation step := (legacypooltheorems.perform sender1 pool_config hash0 no_state no_block parent0 0).

Definition pool1 : @LegacyPool World := New DefaultConfig 1 parent0 world1 ∅.
Definition added : op := OpAdd 50 [tx1; tx2; tx3] false.
Definition pool2 : @LegacyPool World := snd (step added pool1).
Definition reorg : op := OpReorg 60 110 None (Some (accountset.add alice (accountset.add bob accountset.newAccountSet))) ∅.
Definition pool3 : @LegacyPool World := snd (step reorg pool2).

(** The transactions of one sender have become pending, that of the other has a nonce too high. *)
Example pool3_lists : entries (pending pool3 !! alice) = [tx1; tx2] /\ entries (queue pool3 !! bob) = [tx3] /\ stats pool3 = (2, 1).
Proof. vm_compute. done. Qed.

(** ** The theorems about it *)

Lemma genuine1_cases tx : genuine1 tx -> tx = tx1 \/ tx = tx2 \/ tx = tx3.
Proof. unfold genuine1. rewrite !elem_of_cons, elem_of_nil. tauto. Qed.

Lemma environment1 : environment_ok sender1 genuine1 pool_config no_state.
Proof.
  split.
  - intros a b Ha Hb H. apply genuine1_cases in Ha as [->|[->| ->]], Hb as [->|[->| ->]]; try done; by vm_compute in H.
  - done.
  - done.
  - intros number time a c data Hc. cbn in Hc. apply lookup_singleton_Some in Hc as [_ <-]. done.
  - intros tx Htx. apply genuine1_cases in Htx as [->|[->| ->]]; cbn -[Z.pow]; lia.
Qed.

Lemma start1 : start_ok 0 DefaultConfig ∅.
Proof. split; [done|]. intros a. by rewrite lookup_empty. Qed.

Lemma added_ok : legacypooltheorems.op_ok sender1 genuine1 hash0 no_block pool1 added.
Proof.
  split.
  - repeat constructor; try (apply elem_of_list_In; cbn; tauto); cbn; try lia; unfold genuine1; set_solver.
  - intros a. assert (E : tally pool1 a = []) by (unfold tally, pool1, New; cbn; by rewrite !lookup_empty). rewrite E. cbn [total_cost foldr].
    rewrite !filter_cons, filter_nil. repeat case_decide; cbn -[Z.pow]; lia.
Qed.

Lemma reached2 : reachable sender1 genuine1 pool_config hash0 no_state no_block parent0 0 pool1 pool2.
Proof. apply (reach_step _ _ _ _ _ _ _ _ _ pool1 added); [constructor|apply added_ok]. Qed.

Lemma room2 : room sender1 pool2 [].
Proof.
  intros a. destruct (reachable_inv _ _ _ _ _ _ _ _ environment1 _ _ _ _ _ start1 _ reached2) as [Hi _].
  pose proof (account_tally _ _ _ _ _ (pi_accounts _ _ _ _ _ Hi a)) as Ht. apply txs_fits in Ht. rewrite app_nil_r in Ht. cbn. lia.
Qed.

Lemma reorg_ok : legacypooltheorems.op_ok sender1 genuine1 hash0 no_block pool2 reorg.
Proof.
  split; [|intros a m; by rewrite lookup_empty]. split; [done|constructor|apply room2|]. vm_compute. reflexivity.
Qed.

Lemma legacypool_invariant_witness :
  pool_inv sender1 genuine1 0 None pool2 /\ returns (step reorg) pool2 (fun _ p' => pool_inv sender1 genuine1 0 None p').
Proof.
  apply (legacypool_invariant sender1 genuine1 pool_config hash0 no_state no_block parent0 0 DefaultConfig 1 parent0 world1 ∅ pool2 reorg).
  - apply environment1.
  - apply start1.
  - apply reached2.
  - apply reorg_ok.
Defined.

(** A new head *)
Lemma reorg_settles_witness :
  returns (runReorg sender1 pool_config hash0 no_state no_block parent0 0 60 110 (Some (None, Some parent0)) None ∅) pool2
    (fun _ p' => pending_limit p' /\ queue_limit p' /\ (is_Some (Some (@None Header, Some parent0)) -> forall a, executable p' a)).
Proof.
  apply (reorg_settles sender1 genuine1 pool_config hash0 no_state no_block parent0 0 DefaultConfig 1 parent0 world1 ∅ pool2 60 110 (Some (None, Some parent0)) None ∅).
  - apply environment1.
  - apply start1.
  - apply reached2.
  - split; [intros ? ? [= <- <-]; done|constructor|apply room2|]. vm_compute. reflexivity.
  - intros a m. by rewrite lookup_empty.
Defined.

Lemma reached3 : reachable sender1 genuine1 pool_config hash0 no_state no_block parent0 0 pool1 pool3.
Proof. apply (reach_step _ _ _ _ _ _ _ _ _ pool2 reorg); [apply reached2|apply reorg_ok]. Qed.

Lemma pool_feeds_miner_witness :
  minerspec.pool_ok (fun tx => exists t, pooled sender1 pool3 t /\ tx = WithoutBlobTxSidecar t) (miner_pool pool3 [bob]) /\
  minerspec.pool_distinct (miner_pool pool3 [bob]).
Proof.
  apply (pool_feeds_miner sender1 genuine1 pool_config hash0 no_state no_block parent0 0 DefaultConfig 1 parent0 world1 ∅ pool3 [bob]).
  - apply environment1.
  - apply start1.
  - apply reached3.
  - intros tx Htx. apply genuine1_cases in Htx as [->|[->| ->]]; unfold orderingspec.MaxTime; cbn -[Z.pow]; lia.
  - done.
Defined.

(** A list with a transaction that is replaced, a nonce gap, and a removal *)
Definition bumped : Transaction := mkTransaction (replicate 32 Byte.x04) 1 40000 30 30 9 (Some bob) 1000 [] [] None None 2 200 None true.
Definition list_ops : list txlistspec.op := [OAdd tx1 10; OAdd tx2 10; OAdd bumped 10; OAdd tx3 10; OReady 0; ORemove tx3].


End legacypoolexamples.
