(* ===== verification/TxPool.v ===== *)
(** * The transaction pool of the chain

    [core/txpool/txpool.go]: the pool that splits its work among subpools, and its loop that
    resets them when the head of the chain moves; [scheduleReorgLoop] of the legacy pool, which
    collects requests and runs the reorgs one at a time.

    The loops run beside their callers. What they receive on their channels is the input of a
    step; a goroutine they start is what a step launches, its end is an input. *)

From S2P Require Import Prelude Deps CustomTypes ExtState Transition Ordering Miner TxList PricedList Validation LegacyPool.
Import core txpool txlist validation legacypool.

(** ** [TxPool] *)

Module coordinator.

Section SubPools.
Context {T : Type}.

(** [SubPool]; the subpools share what they run on. *)
Record SubPool := mkSubPool {
  sp_Filter : Transaction -> bool;
  sp_Add : list Transaction -> bool -> bool -> StM T (list (option error));
  sp_Pending : PendingFilter -> StM T (gmap Address (list LazyTransaction));
  sp_Nonce : Address -> StM T Z;
  sp_SetGasTip : Z -> StM T unit;
  sp_SetMinFee : Z -> StM T unit;
  sp_Get : Hash -> T -> option Transaction;
  sp_Has : Hash -> T -> bool;
  sp_HasLocal : Hash -> T -> bool;
  sp_Status : Hash -> T -> TxStatus;
  sp_Stats : T -> Z * Z;
  sp_ContentFrom : Address -> StM T (list Transaction * list Transaction);
  sp_Locals : StM T (list Address)
}.

Record TxPool := mkTxPool {
  subpools : list SubPool;
  gasTip : Z;
  minFee : option Z;
  world : T
}.
Notation PoolM := (StM TxPool).

Definition set_world (p : TxPool) (w : T) : TxPool := mkTxPool (subpools p) (gasTip p) (minFee p) w.
Definition on_world {A} (m : StM T A) : PoolM A := fun p => let '(r, w) := m (world p) in (r, set_world p w).

(** *** [Add] *)

(** The first subpool that takes the transaction *)
Fixpoint split_of (sps : list SubPool) (tx : Transaction) : option nat :=
  match sps with
  | [] => None
  | sp :: rest => if sp_Filter sp tx then Some 0%nat else Datatypes.S <$> split_of rest tx
  end.

Definition txset (sps : list SubPool) (txs : list Transaction) (j : nat) : list Transaction := filter (fun tx => split_of sps tx = Some j) txs.

Fixpoint add_each (sps : list SubPool) (sets : list (list Transaction)) (local sync : bool) : StM T (list (list (option error))) :=
  match sps, sets with
  | sp :: sps', set :: sets' =>
      errs ← sp_Add sp set local sync;
      errsets ← add_each sps' sets' local sync;
      mret (errs :: errsets)
  | _, _ => mret []
  end.

(** The errors back in the order of the transactions; an empty set is indexed out of range. *)
Fixpoint piece_back (splits : list (option nat)) (errsets : list (list (option error))) : result (list (option error)) :=
  match splits with
  | [] => Ok []
  | None :: rest => errs ← piece_back rest errsets; Ok (Some ErrTxTypeNotSupported :: errs)
  | Some j :: rest =>
      match errsets !! j with
      | Some (e :: es) => errs ← piece_back rest (<[j := es]> errsets); Ok (e :: errs)
      | _ => Panic
      end
  end.

Definition Add (txs : list Transaction) (local sync : bool) : PoolM (list (option error)) :=
  p ← getM;
  let txsets := txset (subpools p) txs <$> seq 0 (length (subpools p)) in
  errsets ← on_world (add_each (subpools p) txsets local sync);
  lift (piece_back (split_of (subpools p) <$> txs) errsets).

Definition AddRemotesSync (txs : list Transaction) : PoolM (list (option error)) := Add txs false true.

(** *** The other calls *)

Definition GasTip (p : TxPool) : Z := gasTip p.
Definition SetGasTip (tip : Z) : PoolM unit :=
  _ ← modifyM (fun p => mkTxPool (subpools p) tip (minFee p) (world p));
  p ← getM;
  on_world (for_each (fun sp => sp_SetGasTip sp tip) (subpools p)).
(** A [nil] fee is copied. *)
Definition MinFee (p : TxPool) : result Z := match minFee p with Some fee => Ok fee | None => Panic end.
Definition SetMinFee (fee : Z) : PoolM unit :=
  _ ← modifyM (fun p => mkTxPool (subpools p) (gasTip p) (Some fee) (world p));
  p ← getM;
  on_world (for_each (fun sp => sp_SetMinFee sp fee) (subpools p)).

Definition Has (hash : Hash) (p : TxPool) : bool := existsb (fun sp => sp_Has sp hash (world p)) (subpools p).
Definition HasLocal (hash : Hash) (p : TxPool) : bool := existsb (fun sp => sp_HasLocal sp hash (world p)) (subpools p).
Definition Get (hash : Hash) (p : TxPool) : option Transaction := head (omap (fun sp => sp_Get sp hash (world p)) (subpools p)).

(** Later subpools overwrite the accounts of earlier ones. *)
Fixpoint pending_of (sps : list SubPool) (f : PendingFilter) (txs : gmap Address (list LazyTransaction)) : StM T (gmap Address (list LazyTransaction)) :=
  match sps with
  | [] => mret txs
  | sp :: rest => sets ← sp_Pending sp f; pending_of rest f (sets ∪ txs)
  end.
Definition Pending (f : PendingFilter) : PoolM (gmap Address (list LazyTransaction)) :=
  p ← getM; on_world (pending_of (subpools p) f ∅).

Fixpoint pending_size (sps : list SubPool) (f : PendingFilter) (count : Z) : StM T Z :=
  match sps with
  | [] => mret count
  | sp :: rest => sets ← sp_Pending sp f; pending_size rest f (map_fold (fun _ txs n => n + Z.of_nat (length txs)) count sets)
  end.
Definition PendingSize (f : PendingFilter) : PoolM Z := p ← getM; on_world (pending_size (subpools p) f 0).

Fixpoint nonce_of (sps : list SubPool) (addr : Address) (nonce : Z) : StM T Z :=
  match sps with
  | [] => mret nonce
  | sp :: rest => next ← sp_Nonce sp addr; nonce_of rest addr (if nonce <? next then next else nonce)
  end.
Definition Nonce (addr : Address) : PoolM Z := p ← getM; on_world (nonce_of (subpools p) addr 0).

Definition Stats (p : TxPool) : Z * Z :=
  fold_left (fun '(runnable, blocked) sp => let '(run, block) := sp_Stats sp (world p) in (runnable + run, blocked + block)) (subpools p) (0, 0).

Fixpoint content_from (sps : list SubPool) (addr : Address) : StM T (list Transaction * list Transaction) :=
  match sps with
  | [] => mret ([], [])
  | sp :: rest =>
      '(run, block) ← sp_ContentFrom sp addr;
      match run, block with [], [] => content_from rest addr | _, _ => mret (run, block) end
  end.
Definition ContentFrom (addr : Address) : PoolM (list Transaction * list Transaction) := p ← getM; on_world (content_from (subpools p) addr).

Fixpoint locals_of (sps : list SubPool) (locals : gset Address) : StM T (gset Address) :=
  match sps with
  | [] => mret locals
  | sp :: rest => addrs ← sp_Locals sp; locals_of rest (list_to_set addrs ∪ locals)
  end.
Definition Locals : PoolM (list Address) := p ← getM; locals ← on_world (locals_of (subpools p) ∅); mret (elements locals).

Fixpoint status_of (sps : list SubPool) (hash : Hash) (w : T) : TxStatus :=
  match sps with
  | [] => TxStatusUnknown
  | sp :: rest => match sp_Status sp hash w with TxStatusUnknown => status_of rest hash w | status => status end
  end.
Definition Status (hash : Hash) (p : TxPool) : TxStatus := status_of (subpools p) hash (world p).

End SubPools.

(** *** The legacy pool as a subpool *)

Section Legacy.
Context {SM : SafeMath} {UI : U256Lib} {UA : U256Arith} {TL : TxLib} {BB : BlobLib} {SL : SidecarLib}.
Context {NR : NonceRange} {HR : HashRange} {RL : MapRange txList} {RU : MapRange unit}.
Context {S Ctx : Type} {GDB : GethStateDB S} (Sender : Transaction -> result Address) (chainconfig : ForkConfig Ctx) (pool_id : nat).

(** [now] is the clock. A caller that asks for it waits for the reorg loop after [Add]. *)
Definition legacy_subpool (now : Z) : @SubPool (@LegacyPool S) := {|
  sp_Filter := Filter;
  sp_Add txs local _ := r ← legacypool.Add Sender chainconfig pool_id now txs local; mret (fst r);
  sp_Pending f := legacypool.Pending (OnlyBlobTxs f) (Some (Miner.MinTip f)) (pf_BaseFee f);
  sp_Nonce := legacypool.Nonce;
  sp_SetGasTip := legacypool.SetGasTip Sender pool_id now;
  sp_SetMinFee := legacypool.SetMinFee;
  sp_Get h p := get p h;
  sp_Has h p := legacypool.Has p h;
  sp_HasLocal h p := legacypool.HasLocal p h;
  sp_Status h p := legacypool.Status Sender p h;
  sp_Stats := stats;
  sp_ContentFrom := legacypool.ContentFrom;
  sp_Locals := legacypool.Locals
|}.
End Legacy.

(** ** [TxPool.loop] *)

Section Loop.
Context {H : Type} `{EqDecision H}.

(** Heads are compared as pointers. [running] is the reset that holds [resetBusy], a waiter the
    channel of a call of [Sync]. *)
Record loopState := mkLoop {
  oldHead : H;
  newHead : H;
  running : option (H * H);
  resetForced : bool;
  resetWaiter : option nat
}.
Inductive loopEvent := NewHead (h : H) | ResetDone | SyncRequest (waiter : nat) | Quit.

(** What a step starts or sends *)
Inductive loopEffect := StartReset (from to : H) | Notify (waiter : nat) (err : option error) | Stopped.

Definition loopStart (head : H) : loopState := mkLoop head head None false None.

(** A reset is started if one is needed and none is running. *)
Definition startReset (s : loopState) : list loopEffect * loopState :=
  if negb (bool_decide (newHead s = oldHead s)) || resetForced s then
    match running s with
    | None => ([StartReset (oldHead s) (newHead s)], mkLoop (oldHead s) (newHead s) (Some (oldHead s, newHead s)) false (resetWaiter s))
    | Some _ => ([], s)
    end
  else ([], s).

(** The event the loop waits for; [ResetDone] comes from the reset that is running. *)
Definition receive (e : loopEvent) (s : loopState) : option (list loopEffect * option loopState) :=
  match e with
  | NewHead h => Some ([], Some (mkLoop (oldHead s) h (running s) (resetForced s) (resetWaiter s)))
  | ResetDone =>
      match running s with
      | None => None
      | Some (_, head) =>
          let waiter := if resetForced s then resetWaiter s else None in
          let effects := match resetWaiter s with Some w => if resetForced s then [] else [Notify w None] | None => [] end in
          Some (effects, Some (mkLoop head (newHead s) None (resetForced s) waiter))
      end
  | SyncRequest w => Some ([], Some (mkLoop (oldHead s) (newHead s) (running s) true (Some w)))
  | Quit => Some (Stopped :: match resetWaiter s with Some w => [Notify w (Some (errors_New "pool already terminated"))] | None => [] end, None)
  end.

(** One iteration of the loop *)
Inductive loop_step : option loopState -> list loopEffect -> option loopState -> Prop :=
| loop_iterate s s1 e effs effs' s2 :
    startReset s = (effs, s1) -> receive e s1 = Some (effs', s2) -> loop_step (Some s) (effs ++ effs') s2.

Inductive loop_run (head : H) : list loopEffect -> option loopState -> Prop :=
| loop_begin : loop_run head [] (Some (loopStart head))
| loop_more effs s effs' s' : loop_run head effs s -> loop_step s effs' s' -> loop_run head (effs ++ effs') s'.

End Loop.
End coordinator.

(** ** [scheduleReorgLoop] *)

Module reorgloop.

Section Loop.
Context (Sender : Transaction -> result Address).

(** What callers send; both get the channel that is closed when their run is done. *)
Inductive request :=
| ReqReset (oldHead newHead : option types.Header)
| ReqPromote (set : accountSet).

(** The variables of the loop; channels are numbered in the order they are made. *)
Record scheduler := mkScheduler {
  curDone : option nat;
  nextDone : nat;
  launchNextRun : bool;
  reset : option (option types.Header * option types.Header);
  dirtyAccounts : option accountSet;
  queuedEvents : gmap Address sortedMap
}.
(** A call of [runReorg] *)
Record reorgRun := mkRun {
  run_done : nat;
  run_reset : option (option types.Header * option types.Header);
  run_dirty : option accountSet;
  run_events : gmap Address sortedMap
}.

Definition newScheduler : scheduler := mkScheduler None 0 false None None ∅.

Definition launch (s : scheduler) : option reorgRun * scheduler :=
  match curDone s with
  | None =>
      if launchNextRun s then
        (Some (mkRun (nextDone s) (reset s) (dirtyAccounts s) (queuedEvents s)),
         mkScheduler (Some (nextDone s)) (Datatypes.S (nextDone s)) false None None ∅)
      else (None, s)
  | Some _ => (None, s)
  end.

Definition merge_reset (r : option (option types.Header * option types.Header)) (req : request) : option (option types.Header * option types.Header) :=
  match req with
  | ReqReset oldHead newHead => match r with None => Some (oldHead, newHead) | Some (first, _) => Some (first, newHead) end
  | ReqPromote _ => r
  end.
Definition merge_dirty (d : option accountSet) (req : request) : option accountSet :=
  match req with
  | ReqPromote set => match d with None => Some set | Some d => Some (accountset.merge d set) end
  | ReqReset _ _ => d
  end.

(** A request, with the channel that is sent back *)
Definition on_request (req : request) (s : scheduler) : nat * scheduler :=
  (nextDone s, mkScheduler (curDone s) (nextDone s) true (merge_reset (reset s) req) (merge_dirty (dirtyAccounts s) req) (queuedEvents s)).

(** An event is queued and does not schedule a run. *)
Definition on_event (tx : Transaction) (s : scheduler) : scheduler :=
  mkScheduler (curDone s) (nextDone s) (launchNextRun s) (reset s) (dirtyAccounts s) (put_event Sender (queuedEvents s) tx).

Definition on_done (s : scheduler) : scheduler :=
  mkScheduler None (nextDone s) (launchNextRun s) (reset s) (dirtyAccounts s) (queuedEvents s).

(** What the loop has done so far, in its order: a request and the channel it got, an event and
    the channel of the run it goes to, a run that was launched, a run that is done *)
Inductive entry := ERequest (req : request) (reply : nat) | EEvent (tx : Transaction) (batch : nat) | ELaunch (r : reorgRun) | EDone (done : nat).

Definition launched (s : scheduler) : list entry := match fst (launch s) with Some r => [ELaunch r] | None => [] end.

(** One iteration: a launch, and one of the cases of the [select]; on [reorgShutdownCh] the loop ends. *)
Inductive iterate (s : scheduler) : list entry -> scheduler -> Prop :=
| it_request req c s' : on_request req (snd (launch s)) = (c, s') -> iterate s (launched s ++ [ERequest req c]) s'
| it_event tx : iterate s (launched s ++ [EEvent tx (nextDone (snd (launch s)))]) (on_event tx (snd (launch s)))
| it_done c : curDone (snd (launch s)) = Some c -> iterate s (launched s ++ [EDone c]) (on_done (snd (launch s))).

Inductive scheduled : list entry -> scheduler -> Prop :=
| sched_start : scheduled [] newScheduler
| sched_more log s log' s' : scheduled log s -> iterate s log' s' -> scheduled (log ++ log') s'.

End Loop.
End reorgloop.
