(* ===== verification/TxPoolSpec.v ===== *)
(** * The transaction pool of the chain: its loops

    The resets of the subpools follow one another without a gap and end at the head of the
    chain; no request to the reorg loop is lost; the errors of a batch come back in its order. *)

From S2P Require Import Prelude Deps CustomTypes ExtState Transition Ordering Miner TxList PricedList Validation LegacyPool LegacyPoolStepSpec TxPool.
Import core txpool txlist validation legacypool.

Module txpoolspec.

(** ** [TxPool.loop] *)

Section Loop.
Import coordinator.
Context {H : Type} `{EqDecision H}.
Implicit Types (s : @loopState H) (h : H).

Definition resets_of (effs : list (@loopEffect H)) : list (H * H) := omap (fun e => match e with StartReset a b => Some (a, b) | _ => None end) effs.

(** Every reset starts where the one before it ended. *)
Fixpoint linked h (rs : list (H * H)) : Prop :=
  match rs with [] => True | (a, b) :: rs' => a = h /\ linked b rs' end.
Definition reached h (rs : list (H * H)) : H := match list.last rs with Some (_, b) => b | None => h end.

Lemma reached_cons h a b rs : reached h ((a, b) :: rs) = reached b rs.
Proof. destruct rs as [|[] ?]; [done|]. unfold reached. rewrite last_cons_cons. destruct (list.last (_ :: _)) eqn:E; [done|]. by apply last_None in E. Qed.

Lemma linked_snoc h rs a b : linked h rs -> a = reached h rs -> linked h (rs ++ [(a, b)]) /\ reached h (rs ++ [(a, b)]) = b.
Proof.
  revert h. induction rs as [|[c d] rs IH]; intros h Hl Ha; cbn in *; [by subst|]. destruct Hl as [-> Hl]. rewrite reached_cons in *.
  destruct (IH d Hl Ha). done.
Qed.

(** The loop at an iteration: the reset that is running is the last one. *)
Definition loop_inv h (rs : list (H * H)) s : Prop :=
  linked h rs /\ match running s with Some (a, b) => reached h rs = b /\ oldHead s = a | None => reached h rs = oldHead s end.

Lemma start_inv h rs s effs s1 : loop_inv h rs s -> startReset s = (effs, s1) ->
  loop_inv h (rs ++ resets_of effs) s1 /\ newHead s1 = newHead s /\ (running s1 = None -> newHead s1 = oldHead s1 /\ resetForced s1 = false).
Proof.
  intros [Hl Hr]. unfold startReset. destruct (negb _ || resetForced s) eqn:Ec.
  - destruct (running s) as [[a b]|] eqn:Er; intros [= <- <-]; [|cbn].
    + rewrite app_nil_r. unfold loop_inv. rewrite Er. done.
    + destruct (linked_snoc h rs (oldHead s) (newHead s) Hl) as [H1 H2]; [done|]. split; [by split|]. done.
  - intros [= <- <-]. rewrite app_nil_r. split; [by split|]. split; [done|]. intros _. apply orb_false_iff in Ec as [Ec ->].
    apply negb_false_iff, bool_decide_eq_true in Ec. done.
Qed.

Lemma receive_inv h rs s e effs s' : loop_inv h rs s -> receive e s = Some (effs, Some s') -> loop_inv h (rs ++ resets_of effs) s'.
Proof.
  intros [Hl Hr] He. assert (Hn : forall es, es = [] \/ (exists w err, es = [Notify w err]) -> resets_of es = []) by (intros es [->|(w & err & ->)]; done).
  destruct e as [h'| |w|]; cbn in He.
  - injection He as <- <-. rewrite app_nil_r. by split.
  - destruct (running s) as [[a b]|]; [|done]. injection He as <- <-. rewrite Hn.
    + rewrite app_nil_r. split; [done|]. cbn. apply Hr.
    + destruct (resetWaiter s) as [w|]; [|by left]. destruct (resetForced s); [by left|right; eauto].
  - injection He as <- <-. rewrite app_nil_r. by split.
  - done.
Qed.

Lemma resets_app effs effs' : resets_of (effs ++ effs') = resets_of effs ++ resets_of effs'.
Proof. apply omap_app. Qed.

Lemma run_inv h effs os : loop_run h effs os -> linked h (resets_of effs) /\ forall s0, os = Some s0 -> loop_inv h (resets_of effs) s0.
Proof.
  induction 1 as [|effs s effs' s' Hr IH Hs]; [split; [done|]; by intros s0 [= <-]|].
  destruct Hs as [s s1 e effs1 effs2 s2 Hst Hre]. destruct IH as [Hl Hi]. destruct (start_inv h _ s effs1 s1 (Hi s eq_refl) Hst) as (Hi1 & _ & _).
  rewrite !resets_app, app_assoc. destruct s2 as [s2|].
  - pose proof (receive_inv h _ _ _ _ _ Hi1 Hre) as Hi2. split; [apply Hi2|]. by intros s0 [= <-].
  - split; [|done]. destruct e; cbn in Hre; try done.
    + by destruct (running s1) as [[]|].
    + injection Hre as <-. assert (E : resets_of (Stopped :: match resetWaiter s1 with Some w => [Notify w (Some (errors_New "pool already terminated"))] | None => [] end) = [])
        by (by destruct (resetWaiter s1)). rewrite E, app_nil_r. apply Hi1.
Qed.


End Loop.

(** ** [scheduleReorgLoop] *)

Section Scheduler.
Import reorgloop.
Context (Sender : Transaction -> result Address).
Implicit Types (log : list entry) (s : scheduler) (c : nat).

(** The requests and the events of a channel *)
Definition requests_of c log : list request := omap (fun e => match e with ERequest req c' => if decide (c' = c) then Some req else None | _ => None end) log.
Definition events_of c log : list Transaction := omap (fun e => match e with EEvent tx c' => if decide (c' = c) then Some tx else None | _ => None end) log.
Definition merged_reset (reqs : list request) := fold_left merge_reset reqs None.
Definition merged_dirty (reqs : list request) := fold_left merge_dirty reqs None.
Definition merged_events (txs : list Transaction) := fold_left (put_event Sender) txs ∅.

(** A run does what the requests and events of its channel ask for. *)
Definition serves log (r : reorgRun) : Prop :=
  requests_of (run_done r) log <> [] /\ run_reset r = merged_reset (requests_of (run_done r) log) /\
  run_dirty r = merged_dirty (requests_of (run_done r) log) /\ run_events r = merged_events (events_of (run_done r) log).

Record sched_inv log s : Prop := {
  si_reset : reset s = merged_reset (requests_of (nextDone s) log);
  si_dirty : dirtyAccounts s = merged_dirty (requests_of (nextDone s) log);
  si_events : queuedEvents s = merged_events (events_of (nextDone s) log);
  si_launch : launchNextRun s = true <-> requests_of (nextDone s) log <> [];
  si_runs r : ELaunch r ∈ log -> (run_done r < nextDone s)%nat /\ serves log r;
  si_done c : (c < nextDone s)%nat <-> exists r, ELaunch r ∈ log /\ run_done r = c;
  si_fresh c : (nextDone s < c)%nat -> requests_of c log = [] /\ events_of c log = []
}.

#[local] Instance ELaunch_inj : Inj eq eq ELaunch.
Proof. by intros r r' [= ->]. Qed.

Lemma requests_app c log log' : requests_of c (log ++ log') = requests_of c log ++ requests_of c log'.
Proof. apply omap_app. Qed.
Lemma events_app c log log' : events_of c (log ++ log') = events_of c log ++ events_of c log'.
Proof. apply omap_app. Qed.

(** An entry that is not of the channel *)
Definition apart c (e : entry) : Prop := match e with ERequest _ c' => c' <> c | EEvent _ c' => c' <> c | _ => True end.
Lemma apart_ok c log e : apart c e -> requests_of c (log ++ [e]) = requests_of c log /\ events_of c (log ++ [e]) = events_of c log.
Proof.
  intros Ha. rewrite requests_app, events_app. assert (E : requests_of c [e] = [] /\ events_of c [e] = []).
  { destruct e; cbn in *; try done; by rewrite decide_False. }
  destruct E as [-> ->]. by rewrite !app_nil_r.
Qed.

Lemma serves_apart log r e : apart (run_done r) e -> serves log r -> serves (log ++ [e]) r.
Proof. intros Ha. unfold serves. by destruct (apart_ok (run_done r) log e Ha) as [-> ->]. Qed.

Lemma launch_inv log s : sched_inv log s -> sched_inv (log ++ launched s) (snd (launch s)).
Proof.
  intros Hi. pose proof Hi as [I1 I2 I3 I4 I5 I6 I7]. unfold launched, launch. destruct (curDone s); [by rewrite app_nil_r|].
  destruct (launchNextRun s) eqn:El; cbn [fst snd]; [|by rewrite app_nil_r].
  set (r := mkRun _ _ _ _). assert (Hap : forall c, requests_of c (log ++ [ELaunch r]) = requests_of c log /\ events_of c (log ++ [ELaunch r]) = events_of c log) by (intros c; by apply apart_ok).
  assert (Hr : serves log r) by (split; [by apply I4|done]). destruct (I7 (Datatypes.S (nextDone s))) as [N1 N2]; [lia|].
  split; cbn [nextDone reset dirtyAccounts queuedEvents launchNextRun].
  - by rewrite (proj1 (Hap _)), N1.
  - by rewrite (proj1 (Hap _)), N1.
  - by rewrite (proj2 (Hap _)), N2.
  - rewrite (proj1 (Hap _)), N1. done.
  - intros r' [Hin| ->%list_elem_of_singleton%(inj ELaunch)]%elem_of_app.
    + destruct (I5 r' Hin) as [Hlt Hs]. split; [lia|]. by apply serves_apart.
    + split; [cbn; lia|by apply serves_apart].
  - intros c. split.
    + intros Hc. destruct (decide (c = nextDone s)) as [->|Hne]; [exists r; split; [apply elem_of_app; right; by left|done]|].
      destruct (proj1 (I6 c)) as (r' & Hr' & E); [lia|]. exists r'. split; [apply elem_of_app; by left|done].
    + intros (r' & [Hin| ->%list_elem_of_singleton%(inj ELaunch)]%elem_of_app & <-); [destruct (I5 r' Hin); lia|cbn; lia].
  - intros c Hc. destruct (Hap c) as [-> ->]. apply I7. lia.
Qed.

(** An entry that is not a launch and is of no channel but the next one *)
Lemma extend_inv log s s' e : sched_inv log s -> nextDone s' = nextDone s -> (forall r, e <> ELaunch r) -> (forall c, c <> nextDone s -> apart c e) ->
  reset s' = merged_reset (requests_of (nextDone s) (log ++ [e])) -> dirtyAccounts s' = merged_dirty (requests_of (nextDone s) (log ++ [e])) ->
  queuedEvents s' = merged_events (events_of (nextDone s) (log ++ [e])) -> (launchNextRun s' = true <-> requests_of (nextDone s) (log ++ [e]) <> []) ->
  sched_inv (log ++ [e]) s'.
Proof.
  intros [I1 I2 I3 I4 I5 I6 I7] En Hl Ha E1 E2 E3 E4. assert (Hin : forall r, ELaunch r ∈ log ++ [e] <-> ELaunch r ∈ log).
  { intros r. rewrite elem_of_app, list_elem_of_singleton. split; [intros [?|E]; [done|by destruct (Hl r)]|auto]. }
  split; rewrite ?En; [done..| | |].
  - intros r Hr%Hin. destruct (I5 r Hr) as [Hlt Hs]. split; [done|]. apply serves_apart; [apply Ha; lia|done].
  - intros c. rewrite I6. by setoid_rewrite Hin.
  - intros c Hc. destruct (apart_ok c log e) as [-> ->]; [apply Ha; lia|]. by apply I7.
Qed.

Lemma iterate_inv log s log' s' : sched_inv log s -> iterate Sender s log' s' -> sched_inv (log ++ log') s'.
Proof.
  intros Hi Hit. apply launch_inv in Hi. destruct Hit as [req c s' Hreq|tx|c Hc]; rewrite app_assoc; pose proof Hi as [I1 I2 I3 I4 _ _ _].
  - injection Hreq as <- <-. set (s1 := snd (launch s)) in *. set (l1 := log ++ launched s) in *.
    assert (Er : requests_of (nextDone s1) (l1 ++ [ERequest req (nextDone s1)]) = requests_of (nextDone s1) l1 ++ [req]) by (rewrite requests_app; cbn; by rewrite decide_True).
    assert (Ee : events_of (nextDone s1) (l1 ++ [ERequest req (nextDone s1)]) = events_of (nextDone s1) l1) by (rewrite events_app; apply app_nil_r).
    apply (extend_inv l1 s1); try done.
    + rewrite Er. unfold merged_reset. rewrite fold_left_app. cbn. by rewrite I1.
    + rewrite Er. unfold merged_dirty. rewrite fold_left_app. cbn. by rewrite I2.
    + by rewrite Ee.
    + rewrite Er. split; [intros _ E; by apply app_nil in E as [_ ?]|done].
  - set (s1 := snd (launch s)) in *. set (l1 := log ++ launched s) in *.
    assert (Er : requests_of (nextDone s1) (l1 ++ [EEvent tx (nextDone s1)]) = requests_of (nextDone s1) l1) by (rewrite requests_app; apply app_nil_r).
    apply (extend_inv l1 s1); try done; rewrite ?Er; try done.
    + rewrite events_app. cbn. rewrite decide_True by done. unfold merged_events. rewrite fold_left_app. cbn. by rewrite I3.
  - set (s1 := snd (launch s)) in *. set (l1 := log ++ launched s) in *. destruct (apart_ok (nextDone s1) l1 (EDone c) I) as [Er Ee].
    apply (extend_inv l1 s1); try done; rewrite ?Er, ?Ee; done.
Qed.

Lemma scheduled_inv log s : scheduled Sender log s -> sched_inv log s.
Proof.
  induction 1 as [|log s log' s' _ IH Hit]; [|by eapply iterate_inv]. split; try done; cbn.
  - intros r Hr. by apply elem_of_nil in Hr.
  - intros c. split; [lia|]. intros (r & Hr & _). by apply elem_of_nil in Hr.
Qed.


End Scheduler.

(** ** [Add] *)

Section Batch.
Import coordinator.
Context {T : Type}.

(** A subpool returns an error, or none, for every transaction. *)
Definition lawful (sp : @SubPool T) : Prop := forall txs local sync w errs w', sp_Add sp txs local sync w = (Ok errs, w') -> length errs = length txs.

(** The errors of the transactions of a subpool, in their order *)
Definition errors_of (j : nat) (splits : list (option nat)) (errs : list (option error)) : list (option error) :=
  omap (fun '(split, e) => if decide (split = Some j) then Some e else None) (zip splits errs).
Notation routed j splits := (length (filter (fun x => x = Some j) splits)).

Lemma piece_back_ok splits : forall errsets, (forall j, Some j ∈ splits -> (j < length errsets)%nat) ->
  (forall j es, errsets !! j = Some es -> length es = routed j splits) ->
  exists errs, piece_back splits errsets = Ok errs /\ length errs = length splits /\
    (forall j es, errsets !! j = Some es -> errors_of j splits errs = es) /\
    (forall i, splits !! i = Some None -> errs !! i = Some (Some ErrTxTypeNotSupported)).
Proof.
  induction splits as [|[j|] splits IH]; intros errsets Hr Hl; cbn [piece_back].
  - exists []. split; [done|]. split; [done|]. split; [|done]. intros j es Hj. specialize (Hl j es Hj). by destruct es.
  - destruct (lookup_lt_is_Some_2 errsets j) as [es0 Ej]; [apply Hr; by left|]. pose proof (Hl j es0 Ej) as Hj. rewrite filter_cons_True in Hj by done.
    rewrite Ej. destruct es0 as [|e es]; [done|]. destruct (IH (<[j := es]> errsets)) as (errs & E & Hlen & Ho & Hn).
    + intros k Hk. rewrite length_insert. apply Hr. by right.
    + intros k es' Hk. destruct (decide (k = j)) as [->|Hne].
      * rewrite list_lookup_insert_eq in Hk by (by eapply lookup_lt_Some). injection Hk as <-. cbn in Hj. lia.
      * rewrite list_lookup_insert_ne in Hk by done. specialize (Hl k es' Hk). rewrite filter_cons_False in Hl by congruence. done.
    + rewrite E. cbn [mbind result_bind]. exists (e :: errs). split; [done|]. split; [cbn; lia|]. split; [|intros [|i] Hi; [done|by apply Hn]].
      intros k es' Hk. unfold errors_of. cbn. destruct (decide (k = j)) as [->|Hne].
      * rewrite decide_True by done. rewrite Ej in Hk. injection Hk as <-. f_equal. apply Ho. by rewrite list_lookup_insert_eq by (by eapply lookup_lt_Some).
      * rewrite decide_False by congruence. apply Ho. by rewrite list_lookup_insert_ne.
  - destruct (IH errsets) as (errs & E & Hlen & Ho & Hn).
    + intros k Hk. apply Hr. by right.
    + intros k es Hk. specialize (Hl k es Hk). by rewrite filter_cons_False in Hl.
    + rewrite E. exists (Some ErrTxTypeNotSupported :: errs). split; [done|]. split; [cbn; lia|]. split; [|intros [|i] Hi; [done|by apply Hn]].
      intros k es Hk. by apply Ho.
Qed.

Lemma add_each_ok sps : forall sets local sync w errsets w', Forall lawful sps -> length sets = length sps ->
  add_each sps sets local sync w = (Ok errsets, w') -> Forall2 (fun set errs => length errs = length set) sets errsets.
Proof.
  induction sps as [|sp sps IH]; intros [|set sets] local sync w errsets w' Hl Hlen Hrun; cbn in *; try done.
  - injection Hrun as <- _. constructor.
  - apply list.Forall_cons in Hl as [Hsp Hl]. apply bindM_run in Hrun as (errs & w1 & H1 & Hrun). apply bindM_run in Hrun as (rest & w2 & H2 & Hrun).
    injection Hrun as <- _. constructor; [by eapply Hsp|]. eapply IH; [done|lia|exact H2].
Qed.

Lemma split_lt (sps : list (@SubPool T)) tx j : split_of sps tx = Some j -> (j < length sps)%nat.
Proof.
  revert j. induction sps as [|sp sps IH]; intros j; cbn; [done|]. destruct (sp_Filter sp tx); [intros [= <-]; lia|].
  destruct (split_of sps tx) as [k|]; [|done]. intros [= <-]. specialize (IH k eq_refl). lia.
Qed.

Lemma routed_txset (sps : list (@SubPool T)) txs j : length (txset sps txs j) = routed j (split_of sps <$> txs).
Proof. unfold txset. induction txs as [|tx txs IH]; [done|]. rewrite fmap_cons, !filter_cons. repeat case_decide; cbn; congruence. Qed.

(** C39. The errors of a batch are in the order of the batch, whatever subpools the transactions went
    to: every transaction has one, those of a subpool are, in their order, what that subpool
    returned for them, and a transaction no subpool takes is refused as not supported. Nothing but
    a subpool fails. *)
Theorem batch_errors_in_order (p : @TxPool T) txs local sync : Forall lawful (subpools p) ->
  let splits := split_of (subpools p) <$> txs in
  match add_each (subpools p) (txset (subpools p) txs <$> seq 0 (length (subpools p))) local sync (world p) with
  | (Ok errsets, w) => exists errs, Add txs local sync p = (Ok errs, set_world p w) /\ length errs = length txs /\
      (forall j es, errsets !! j = Some es -> errors_of j splits errs = es) /\
      (forall i tx, txs !! i = Some tx -> split_of (subpools p) tx = None -> errs !! i = Some (Some ErrTxTypeNotSupported))
  | (Err e, w) => Add txs local sync p = (Err e, set_world p w)
  | (Panic, w) => Add txs local sync p = (Panic, set_world p w)
  end.
Proof.
  intros Hl splits. unfold Add. rewrite getM_bind. unfold on_world, mbind, StM_bind.
  destruct (add_each _ _ local sync (world p)) as [[errsets|e|] w] eqn:E; cbn; [|done|done]. apply add_each_ok in E; [|done|by rewrite length_fmap, length_seq].
  pose proof (Forall2_length E) as Hlen. rewrite length_fmap, length_seq in Hlen.
  destruct (piece_back_ok splits errsets) as (errs & Hp & Hlp & Ho & Hn).
  - intros j (tx & Hj & _)%list_elem_of_fmap. rewrite <- Hlen. by eapply split_lt.
  - intros j es Hj. destruct (Forall2_lookup_r _ _ _ _ _ E Hj) as (set & Hset & ->). rewrite list_lookup_fmap in Hset.
    destruct (seq 0 (length (subpools p)) !! j) as [k|] eqn:Hk; [|done]. injection Hset as <-. apply lookup_seq in Hk as [-> _]. apply routed_txset.
  - exists errs. fold splits. rewrite Hp. split; [done|]. unfold splits in Hlp. rewrite length_fmap in Hlp. split; [done|]. split; [done|].
    intros i tx Hi Hs. apply Hn. unfold splits. by rewrite list_lookup_fmap, Hi, <- Hs.
Qed.

End Batch.

Section Legacy.
Import coordinator.
Context {SM : SafeMath} {UI : U256Lib} {UA : U256Arith} {TL : TxLib} {BB : BlobLib} {SL : SidecarLib}.
Context {NR : NonceRange} {HR : HashRange} {RL : MapRange txList} {RU : MapRange unit}.
Context {S Ctx : Type} {GDB : GethStateDB S} (Sender : Transaction -> result Address) (chainconfig : ForkConfig Ctx) (pool_id : nat).

Lemma screen_length (p : @LegacyPool S) txs local errs news : screen Sender chainconfig p txs local = Ok (errs, news) -> length errs = length txs.
Proof.
  revert errs news. induction txs as [|tx txs IH]; intros errs news; cbn [screen]; [by intros [= <- <-]|].
  destruct (screen Sender chainconfig p txs local) as [[errs' news']|e|]; repeat case_match; try done; intros [= <- <-]; cbn; f_equal; by eapply IH.
Qed.

Lemma legacy_lawful now : lawful (legacy_subpool (S := S) Sender chainconfig pool_id now).
Proof.
  intros txs local sync p errs p' Hrun. apply bindM_run in Hrun as ([errs0 dirty] & p1 & Hadd & Hrun). injection Hrun as <- _. unfold legacypool.Add in Hadd.
  rewrite getM_bind in Hadd. apply bindM_run in Hadd as ([es news] & p2 & Hscreen & Hadd). injection Hscreen as Hscreen <-. apply screen_length in Hscreen.
  destruct news as [|n news]; [by injection Hadd as <- _|]. apply bindM_run in Hadd as ([newErrs d] & p2 & _ & Hadd). injection Hadd as <- <- <-. cbn.
  by rewrite legacypoolstep.fill_length.
Qed.

End Legacy.

End txpoolspec.
