(* ===== verification/TxPoolExamples.v ===== *)
(** * The loops of the transaction pool at work *)

From S2P Require Import Prelude Deps CustomTypes ExtState Transition TransitionExamples Ordering Miner MinerExamples TxList PricedList Validation LegacyPool LegacyPoolExamples TxPool TxPoolSpec.
Import core txpool txlist validation legacypool txpoolspec.
Import Deps.Concrete extstate.Concrete coreexamples minerexamples legacypoolexamples.

Module txpoolexamples.

(** ** A head arrives while the reset to the one before it is running. *)

Section Loop.
Import coordinator.

Definition told : @loopState nat := mkLoop 0%nat 1%nat None false None.
Definition waiting_loop : @loopState nat := mkLoop 0%nat 2%nat (Some (0%nat, 1%nat)) false None.
Lemma heads_run : loop_run 0%nat [StartReset 0%nat 1%nat] (Some waiting_loop).
Proof.
  apply (loop_more 0%nat [] (Some told) [StartReset 0%nat 1%nat]).
  - apply (loop_more 0%nat [] (Some (loopStart 0%nat)) []); [constructor|].
    by apply (loop_iterate (loopStart 0%nat) (loopStart 0%nat) (NewHead 1%nat) [] [] (Some told)).
  - by apply (loop_iterate told (mkLoop 0%nat 1%nat (Some (0%nat, 1%nat)) false None) (NewHead 2%nat) [StartReset 0%nat 1%nat] [] (Some waiting_loop)).
Qed.


End Loop.

(** ** Two requests, merged into one run *)

Section Scheduler.
Import reorgloop.

Definition promote : request := ReqPromote (accountset.add alice accountset.newAccountSet).
Definition reset_to : request := ReqReset None (Some parent0).
Definition first_run : reorgRun := mkRun 0%nat None (Some (accountset.add alice accountset.newAccountSet)) ∅.
Definition after_two : scheduler := mkScheduler (Some 0%nat) 1%nat true (Some (None, Some parent0)) None ∅.

Definition served_log : list entry := [ERequest promote 0%nat; ELaunch first_run; ERequest reset_to 1%nat].

Lemma served_run : scheduled sender1 served_log after_two.
Proof.
  apply (sched_more _ [ERequest promote 0%nat] (snd (on_request promote newScheduler)) [ELaunch first_run; ERequest reset_to 1%nat]).
  - apply (sched_more _ [] newScheduler [ERequest promote 0%nat]); [constructor|]. by apply (it_request _ newScheduler promote 0%nat).
  - by apply (it_request _ (snd (on_request promote newScheduler)) reset_to 1%nat).
Qed.


End Scheduler.

(** ** A batch for the legacy pool, with a transaction of a type no subpool takes *)

Section Batch.
Import coordinator.

Definition blob_tx : Transaction := mkTransaction (replicate 32 Byte.x05) 2 40000 20 20 3 (Some bob) 1000 [] [] None None 3 200 None true.
Definition chain_pool : @TxPool (@LegacyPool World) := mkTxPool [legacy_subpool sender1 pool_config 0 50] 1 None pool1.
Definition batch : list Transaction := [tx1; blob_tx; tx2; tx1].

Example batch_errors : fst (Add batch false true chain_pool) = Ok [None; Some ErrTxTypeNotSupported; None; Some ErrAlreadyKnown].
Proof. vm_compute. done. Qed.

Lemma batch_errors_in_order_witness :
  let splits := split_of (subpools chain_pool) <$> batch in
  match add_each (subpools chain_pool) (txset (subpools chain_pool) batch <$> seq 0 (length (subpools chain_pool))) false true (world chain_pool) with
  | (Ok errsets, w) => exists errs, Add batch false true chain_pool = (Ok errs, set_world chain_pool w) /\ length errs = length batch /\
      (forall j es, errsets !! j = Some es -> errors_of j splits errs = es) /\
      (forall i tx, batch !! i = Some tx -> split_of (subpools chain_pool) tx = None -> errs !! i = Some (Some ErrTxTypeNotSupported))
  | (Err e, w) => Add batch false true chain_pool = (Err e, set_world chain_pool w)
  | (Panic, w) => Add batch false true chain_pool = (Panic, set_world chain_pool w)
  end.
Proof. apply (batch_errors_in_order chain_pool batch false true). repeat constructor. apply legacy_lawful. Defined.

End Batch.
End txpoolexamples.
